(* ===== verification/_CoqProject ===== *)
-Q . S2P
Prelude.v
Prioq.v
Hexdecoct.v
Base32hex.v
JobType.v
RunQueue.v
JobData.v
TrDelete.v
TrFix.v
TrOrder.v
TrMerge.v
TrBuild.v
JobOps.v
JobFinish.v
JobInstall.v
TrApply.v
TrActivate.v
AddJob.v
JobRun.v
PathUtil.v
Siphash.v
UnitName.v
Hashmap.v
HashFuncs.v
HashmapInv.v
HashmapMap.v
HashmapIter.v
RateLimit.v
UnitDep.v
UnitDeps.v
UnitDepsOps.v
UnitMergeDeps.v
UnitNames.v
UnitRegistry.v
UnitNotify.v
JobOnFailure.v
UnitTrigger.v
UnitQueues.v
Serialize.v
UnitStart.v
JobSerialize.v
JobReexec.v
JobGc.v
UnitGc.v
