(* ===== verification/Prelude.v ===== *)
(** * systemd 252.39: jobs, transactions and what they are built on

    The development follows src/systemd-stable-252.39/src/ (paths below are relative to it).
    Its subject is the heart of the service manager: how a request to start, stop or restart a
    unit becomes a consistent set of jobs, and how these are installed, run and finished; and the
    graph of units itself, their names and their dependencies. Around it are self-contained parts
    of src/basic/ that the manager uses: the priority queue, the hash table, paths, unit names,
    the hash functions, rate limits and the codecs.

    ** The program and how its parts interact

    A request arrives at [manager_add_job] (core/manager.c). It creates a transaction, adds a job
    for the unit and, following the dependencies, jobs for the units this one pulls in
    (core/transaction.c). [transaction_activate] then takes the transaction through its steps: mark
    the jobs the anchor needs, drop what would disturb running units needlessly, drop redundant
    jobs, collect garbage, break ordering cycles, merge the jobs of each unit into one, check the
    result against the installed jobs, and apply it, which moves the jobs to their units
    (core/job.c). Installed jobs wait in a run queue, a priority queue (basic/prioq.c). The
    manager takes them out; a job that must wait for another is left alone until that one is
    finished, the others are carried out by operations of the unit types. A job that is finished
    is taken out of the system, jobs that depended on its success fail with it, and the jobs
    ordered against it are queued again.

    The units are found by name in a hash table (basic/hashmap.c). Each has a hash table of
    dependencies by type; a dependency is entered on both sides, with the inverse type on the
    other one, and the job code walks through those that have a given atom
    (core/unit-dependency-atom.c). A unit that turns out to be an alias of another one is merged
    into it (core/unit.c).

    When a unit changes its state, its type calls [unit_notify] (core/unit.c): the job of the unit
    is finished or contradicted, other units are started or stopped, and units whose conditions
    may have changed go to queues from which the manager later requests jobs, with a rate limit
    per unit (basic/ratelimit.c). The operations the jobs call, [unit_start], [unit_stop] and
    [unit_reload], check the request before they hand it to the unit type.

    Units that nobody needs and jobs that nobody waits for are collected by two more queues of the
    manager (core/manager.c). When the manager re-executes itself, it writes the jobs to a file
    with the rest of its state; the new one reads them into the slots of the units and puts them
    back on the queues (core/job.c, core/unit-serialize.c, shared/serialize.c).

    ** Files

    - Prelude: machine integers with their wrap-around, errors, strings as lists of bytes, lists
      indexed by [Z], partial code, shared lemmas, the hint databases [sd] and tactics.
    - Prioq: basic/prioq.c. The array heap with the index cells of the items and allocation
      failure.
    - RunQueue: the class [RunQueue], what the job code relies on, and its instance by Prioq.
    - JobType: the enumerations of core/job.h, the merging table, the predicates on job types and
      [job_compare].
    - JobData: jobs, links, the state and the class [Env] (the units: dependencies, states, and
      the order in which hash tables are walked).
    - TrDelete: [transaction_delete_job], [transaction_delete_unit], [transaction_abort].
    - TrFix: [transaction_find_jobs_that_matter_to_anchor], [transaction_minimize_impact],
      [transaction_drop_redundant], [transaction_collect_garbage].
    - TrOrder: [transaction_verify_order]. TrMerge: [transaction_merge_jobs],
      [transaction_is_destructive].
    - TrBuild: [transaction_add_job_and_dependencies], the jobs of isolate and of triggers.
    - JobOps, JobFinish, JobInstall: core/job.c, the operations on installed jobs.
    - TrApply: [transaction_apply]. TrActivate: [transaction_activate]. AddJob:
      [manager_add_job], [manager_propagate_reload].
    - JobRun: [job_run_and_invalidate] and [manager_dispatch_run_queue], with the class [UnitOps]
      of the unit types' operations, and histories of the whole system.
    - PathUtil: basic/path-util.c. Siphash: basic/siphash24.c. UnitName: basic/unit-name.c.
    - Hashmap: the table of basic/hashmap.c, bucket by bucket. HashmapInv: its invariant and what
      insertion, removal and resizing leave. HashmapMap: the refinement of a finite map.
      HashmapIter: walking, merging, copying and moving. HashFuncs: basic/hash-funcs.c.
    - UnitDep: the dependency types, their atoms and inverses (core/unit-dependency-atom.c).
      UnitDeps: the tables of dependencies of core/unit.c and [unit_add_dependency]. UnitDepsOps:
      removing, clearing and walking. UnitMergeDeps: [unit_merge_dependencies].
    - UnitNames: ids, aliases and merging of units, alias symlinks (core/unit.c,
      basic/unit-file.c). UnitRegistry: histories of all operations on units.
    - UnitNotify: [unit_notify] and the queues it fills, on top of the jobs and with the tables of
      dependencies. UnitTrigger: the same with [unit_trigger_notify], which makes the units that
      trigger a changed one change and notify in turn. UnitQueues: the loops of core/manager.c that
      dispatch these queues.
    - JobOnFailure: [job_finish_and_invalidate] with the OnFailure= units it starts and the
      triggering units it tells; JobOps has it with these calls as a parameter.
    - UnitStart: [unit_start], [unit_stop], [unit_reload] and the checks they make (core/unit.c).
    - Serialize: lines of a file (basic/fileio.c), numbers (basic/parse-util.c), items and
      timestamps (shared/serialize.c). JobSerialize: [job_serialize] and [job_deserialize].
      JobReexec: [job_install_deserialized], [unit_deserialize_job] and [job_coldplug].
    - JobGc: [manager_dispatch_gc_job_queue]. UnitGc: [unit_may_gc], [unit_gc_sweep] and
      [manager_dispatch_gc_unit_queue].
    - RateLimit: basic/ratelimit.c and the times of basic/time-util.h it uses.
    - Hexdecoct, Base32hex: basic/hexdecoct.c.

    ** How the code is modelled

    Functions keep their names and their order of checks. State is passed explicitly: a
    [State] has the heap of jobs, the transaction (its jobs by unit, its links, its anchor) and
    the manager (installed jobs, run queue, counters, ids). Jobs and units are pointers, so that
    jobs that are freed are gone from the heap and a stale pointer is a lookup that fails. [None]
    is a failed assertion, an access out of bounds or exhausted fuel, so a theorem that an
    operation returns [Some] says that none of these happens; errors are values, the negative
    errno the code returns. Integers have their width.

    Recursion that is not structural has fuel, and the theorems prove that the fuel is enough:
    for the recursion over dependencies [build_fuel], since a unit gets at most one job of each
    type; for deletion, the number of jobs; for the walk over the ordering graph, the number of
    jobs; for the retry loops of [transaction_activate], the number of jobs, since every retry
    has dropped one; for the queues of units, what the rate limits let pass in their interval
    times the number of units (UnitQueues); for dispatching, [dispatch_fuel], since every round
    finishes a job, runs one, or takes one out of the queue; for the search of the garbage
    collection [gc_fuel], the number of units, since a unit is entered once in a round; twice
    that for its queue, which gets a unit at most once more; for the queue of jobs [gc_job_fuel],
    since a job that is dropped is gone; for reading a job, the length of the file; for triggering units, the length of the
    longest chain of them, which has no cycle; for loops over
    strings, their length; for loops over the hash table, the number of its buckets; for the
    retries of [unit_remove_dependencies], the number of entries of the type; for following
    merges, the number of merged units.

    ** What the theorems show

    - Requests: a request either installs a job for its unit, of a type that does what was asked
      for, and leaves unrelated units alone, or is denied for one of a list of reasons and leaves the
      installed jobs as they were; ISOLATE and FLUSH, which stop and cancel others, are exempt from the
      second halves (AddJob, TrActivate, TrApply). No assertion fails.
    - Each step of activation does what its comment promises, described without the recursion of
      the code: closures for deletion and marking, acyclicity for ordering, one job per unit with
      the merged type for merging (TrDelete, TrFix, TrOrder, TrMerge), and the recursion over
      dependencies adds what is required, given dependency by dependency, and nothing else, and
      terminates on every graph (TrBuild).
    - Running: an invariant holds in every history of requests, runs and finished jobs; a job does
      not run while one it is ordered after is installed; without cycles some job can run;
      dispatching terminates (JobRun). Finishing frees exactly the jobs whose requirement failed
      (JobOnFailure), where no OnFailure= unit is started on the way, and wakes up the others (JobFinish).
    - The priority queue is a heap with correct index cells and gives the minimum (Prioq), and
      implements the interface of the run queue (RunQueue).
    - Paths are lists of components, and the functions on paths are functions on these lists
      (PathUtil). Names parse to what they were built from, paths have names that give the path
      back (UnitName). Hashing in pieces is hashing at once (Siphash).
      Decoders accept exactly what the encoders write (Hexdecoct, Base32hex).
    - The hash table implements a finite map for every hash function that agrees with the
      comparison, with failing allocations and new hash keys (HashmapMap); a walk visits every
      entry even if the body removes the current one (HashmapIter); paths that are equal have
      equal hashes (HashFuncs). The tables of units below are finite maps for this reason.
    - The two sides of each dependency agree after any operations, and a unit that was cleared is named by no other one
      (UnitDepsOps). Every name belongs to one unit, which it fits, and merging moves names,
      dependencies and references (UnitRegistry).
    - A change of state settles the job of the unit with a result that is given for each state
      and type of job, and overlooks no unit that depends on it (UnitNotify, which uses that
      dependencies are mirrored). With all changes that triggering units make of it, it fails no
      assertion, and afterwards the failed units and timestamps of the manager agree with the states of
      all units (UnitTrigger). Dispatching the queues of units ends, and what is throttled is tried again
      (UnitQueues).
    - A request to start, stop or reload reaches the unit type exactly if no check refuses it; the
      first unit on the way that fails a check says with which error it is refused, and a
      refusal leaves jobs and queues alone (UnitStart).
    - A job that was written to a serialization is the job that is read, if its strings fit on a
      line, and reading ends on every file (JobSerialize, with the number parsers of Serialize).
      All jobs of a manager are there again after a re-execution, and coldplugging queues those
      that wait and sets their timers (JobReexec).
    - The garbage collection ends. It puts a queued unit on the cleanup queue exactly if neither
      the unit nor one that refers to it, directly or not, must stay ([must_stay] lists the reasons). This assumes that a
      [UnitRef] goes along with a dependency or is on no cycle ([refs_simple]), and that the
      marker does not wrap in this round; [ref_cycle_is_collected] and [wrapped_mark_is_collected]
      are examples of needed units that are collected otherwise (UnitGc). Of the jobs only those
      that may be dropped are (JobGc).
    - A rate limit lets at most two bursts pass in any interval of its length (RateLimit).

    ** Assumptions

    In the job code the manager is not reloading, so the branches for MANAGER_IS_RELOADING are left
    out; [unit_notify] has them. The functions of JobReexec are those that run while it is. Jobs, links and transactions can be allocated; allocation failure is modelled for the priority
    queue, the hash table and the decoders. [PRIOQ_MAX] bounds the number of jobs, where the size computation of
    the queue would wrap. The order of hash tables is an arbitrary permutation.

    ** Not modelled

    Log messages and messages on the bus; calls that only notify are recorded. What the
    end of a job sets off in other units (OnFailure= units, triggering units) is carried out in JobOnFailure,
    and only recorded by the other theorems about jobs that end; so are the triggering units in
    UnitNotify, which UnitTrigger tells. Of the [trigger_notify] operations of the unit types only the
    changes of state are modelled, as a parameter;
    the event loop, so of job timers only that they are added, not that their expiry fails the
    job; of the serialization all items that are not of jobs; dumping and the animation of running
    jobs; the idle pipe. Of the hash table the links of ordered tables and the iterated cache; of
    the units [unit_free], and so what the cleanup queue does, and the queues of the manager that
    operations on dependencies and names fill. The dependency graph that the job code walks is a parameter of it ([Env]); the theorems on
    [unit_notify] instantiate it with the tables of
    UnitDeps. The unit types, process execution, control groups, unit file loading and the other
    daemons and tools of the repository are not part of the development: they are mostly system
    calls, input and output. *)

From Stdlib Require Export ZArith Lia ZifyBool ZifyNat.
From Stdlib Require Ascii String.
Export Ascii.AsciiSyntax String.StringSyntax.
From stdpp Require Export base list gmap numbers option relations.

#[global] Open Scope Z_scope.

(** ** Machine integers

    A C [unsigned], [uint32_t], [uint64_t] or [size_t] is a [Z] kept in range by
    writing its wrap-around out. *)

Definition u8 (z : Z) : Z := z mod 2 ^ 8.
Definition u16 (z : Z) : Z := z mod 2 ^ 16.
Definition u32 (z : Z) : Z := z mod 2 ^ 32.
Definition u64 (z : Z) : Z := z mod 2 ^ 64.

Definition UINT_MAX : Z := 2 ^ 32 - 1.
Definition UINT64_MAX : Z := 2 ^ 64 - 1.

Lemma u8_small z : 0 <= z < 2 ^ 8 → u8 z = z.
Proof. apply Z.mod_small. Qed.
Lemma u16_small z : 0 <= z < 2 ^ 16 → u16 z = z.
Proof. apply Z.mod_small. Qed.
Lemma u32_small z : 0 <= z < 2 ^ 32 → u32 z = z.
Proof. apply Z.mod_small. Qed.
Lemma u64_small z : 0 <= z < 2 ^ 64 → u64 z = z.
Proof. apply Z.mod_small. Qed.

Lemma u32_range z : 0 <= u32 z < 2 ^ 32.
Proof. apply Z.mod_pos_bound. lia. Qed.
Lemma u64_range z : 0 <= u64 z < 2 ^ 64.
Proof. apply Z.mod_pos_bound. lia. Qed.

(** ** Errors: the negative errno values the code returns *)

Definition EPERM : Z := 1.
Definition ENOENT : Z := 2.
Definition EIO : Z := 5.
Definition E2BIG : Z := 7.
Definition ENOEXEC : Z := 8.
Definition EAGAIN : Z := 11.
Definition ENOMEM : Z := 12.
Definition EEXIST : Z := 17.
Definition EINVAL : Z := 22.
Definition ENOSPC : Z := 28.
Definition EPIPE : Z := 32.
Definition ERANGE : Z := 34.
Definition EDEADLK : Z := 35.
Definition ENAMETOOLONG : Z := 36.
Definition ENOLINK : Z := 67.
Definition ECOMM : Z := 70.
Definition EPROTO : Z := 71.
Definition EBADMSG : Z := 74.
Definition EOPNOTSUPP : Z := 95.
Definition EALREADY : Z := 114.
Definition ESTALE : Z := 116.
Definition ERFKILL : Z := 132.
Definition EBADR : Z := 53.

(** A call that returns a value or a negative errno. *)
Inductive res (A : Type) : Type := Ok (a : A) | Err (e : Z).
Arguments Ok {A} a.
Arguments Err {A} e.

#[global] Instance res_ret : MRet res := λ _ a, Ok a.
#[global] Instance res_bind : MBind res := λ _ _ f r,
  match r with Ok a => f a | Err e => Err e end.
#[global] Instance res_fmap : FMap res := λ _ _ f r,
  match r with Ok a => Ok (f a) | Err e => Err e end.

Lemma res_bind_Ok {A B} (r : res A) (k : A → res B) y :
  r ≫= k = Ok y ↔ ∃ x, r = Ok x ∧ k x = Ok y.
Proof. destruct r; simpl; split; [eauto|by intros (? & [= ->] & ?)|done|by intros (? & ? & _)]. Qed.

(** ** Characters and byte strings

    A [char] or [uint8_t] is its value in 0..255; a string or a memory block is the
    list of its bytes. Code that compares a [char] with ASCII constants behaves the
    same for negative chars and for values above 127. *)

Definition ch (c : Ascii.ascii) : Z := Z.of_N (Ascii.N_of_ascii c).

Fixpoint str (s : String.string) : list Z :=
  match s with
  | String.EmptyString => []
  | String.String c s => ch c :: str s
  end.

Arguments ch c%_char_scope.
Arguments str s%_string_scope.

Definition is_byte (z : Z) : Prop := 0 <= z < 256.
Definition bytes (l : list Z) : Prop := Forall is_byte l.

#[global] Instance is_byte_dec z : Decision (is_byte z).
Proof. unfold is_byte. apply _. Defined.
#[global] Instance bytes_dec l : Decision (bytes l).
Proof. unfold bytes. apply _. Defined.

(** Settle a closed decidable proposition by computation. *)
Ltac by_decide := lazymatch goal with
  |- ?P => refine (bool_decide_eq_true_1 P _); vm_compute; reflexivity end.

(** ** Partial code

    [assert()] aborts the program and an access out of bounds is undefined: both
    are [None] of the option monad, so a theorem that an operation returns [Some]
    also says that no assertion fires and no access is out of range. *)

Definition assert_ (b : bool) : option unit := if b then Some tt else None.
Lemma assert_bind {B} (b : bool) (k : unit → option B) :
  b = true → assert_ b ≫= k = k tt.
Proof. by intros ->. Qed.

Definition get {A} (l : list A) (i : Z) : option A :=
  if 0 <=? i then l !! Z.to_nat i else None.
Definition len {A} (l : list A) : Z := Z.of_nat (length l).
Definition upd {A} (l : list A) (i : Z) (x : A) : list A := <[Z.to_nat i := x]> l.

Section ListZ.
Context {A : Type}.
Implicit Types (l : list A) (i j : Z) (x : A).

Lemma len_nonneg l : 0 <= len l.
Proof. unfold len. lia. Qed.

Lemma len_upd l i x : len (upd l i x) = len l.
Proof. unfold len, upd. by rewrite length_insert. Qed.

Lemma len_app l k : len (l ++ k) = len l + len k.
Proof. unfold len. rewrite length_app. lia. Qed.

Lemma len_nil : len (@nil A) = 0.
Proof. done. Qed.

Lemma len_cons x l : len (x :: l) = len l + 1.
Proof. unfold len. simpl. lia. Qed.

Lemma get_Some_range l i x : get l i = Some x → 0 <= i < len l.
Proof.
  unfold get, len. destruct (0 <=? i) eqn:E; [|done].
  intros H%lookup_lt_Some. lia.
Qed.

Lemma get_nil i : get (@nil A) i = None.
Proof. unfold get. by destruct (0 <=? i). Qed.

Lemma get_is_Some l i : 0 <= i < len l → ∃ x, get l i = Some x.
Proof.
  unfold get, len. intros H.
  destruct (0 <=? i) eqn:E; [|lia].
  apply lookup_lt_is_Some. lia.
Qed.

Lemma get_None l i : get l i = None ↔ i < 0 ∨ len l <= i.
Proof.
  unfold get, len. destruct (0 <=? i) eqn:E.
  - rewrite lookup_ge_None. lia.
  - split; [lia | done].
Qed.

Lemma get_upd_eq l i x : 0 <= i < len l → get (upd l i x) i = Some x.
Proof.
  unfold get, upd, len. intros H. destruct (0 <=? i) eqn:E; [|lia].
  rewrite list_lookup_insert_eq; [done | lia].
Qed.

Lemma get_upd_ne l i j x : 0 <= i → i ≠ j → get (upd l i x) j = get l j.
Proof.
  unfold get, upd. intros H Hne. destruct (0 <=? j) eqn:E; [|done].
  rewrite list_lookup_insert_ne; [done | lia].
Qed.

Lemma get_app_l l k i : i < len l → get (l ++ k) i = get l i.
Proof.
  unfold get, len. intros H. destruct (0 <=? i) eqn:E; [|done].
  apply lookup_app_l. lia.
Qed.

Lemma get_snoc l x : get (l ++ [x]) (len l) = Some x.
Proof.
  unfold get. destruct (0 <=? len l) eqn:E; [|pose proof (len_nonneg l); lia].
  unfold len. rewrite Nat2Z.id.
  rewrite lookup_app_r by lia. by rewrite Nat.sub_diag.
Qed.

Lemma get_elem_of l i x : get l i = Some x → x ∈ l.
Proof.
  unfold get. destruct (0 <=? i); [|done]. apply list_elem_of_lookup_2.
Qed.

Lemma elem_of_get l x : x ∈ l → ∃ i, get l i = Some x.
Proof.
  intros [n Hn]%list_elem_of_lookup. exists (Z.of_nat n).
  unfold get. destruct (0 <=? Z.of_nat n) eqn:E; [|lia]. by rewrite Nat2Z.id.
Qed.

Lemma upd_id l i x : get l i = Some x → upd l i x = l.
Proof.
  unfold get, upd. destruct (0 <=? i); [|done]. apply list_insert_id.
Qed.

Lemma list_eq_get l k :
  len l = len k → (∀ i, 0 <= i < len l → get l i = get k i) → l = k.
Proof.
  intros Hl H. apply list_eq. intros n.
  destruct (decide (n < length l)%nat) as [Hn|Hn].
  - specialize (H (Z.of_nat n)). unfold get, len in *.
    destruct (0 <=? Z.of_nat n) eqn:E; [|lia].
    rewrite Nat2Z.id in H. apply H. lia.
  - unfold len in *.
    rewrite (lookup_ge_None_2 l n), (lookup_ge_None_2 k n) by lia. done.
Qed.
End ListZ.

Lemma get_take {A} (l : list A) (n i : Z) :
  0 <= n → get (take (Z.to_nat n) l) i = if decide (i < n) then get l i else None.
Proof.
  intros Hn. unfold get. destruct (0 <=? i) eqn:E; [|by case_decide].
  case_decide; [rewrite lookup_take_lt by lia; done | rewrite lookup_take_ge by lia; done].
Qed.

Lemma len_take {A} (l : list A) (n : Z) :
  0 <= n <= len l → len (take (Z.to_nat n) l) = n.
Proof. unfold len. intros. rewrite length_take. lia. Qed.

(** Overwriting an entry exchanges one element of the multiset. *)
Lemma upd_Permutation {A} (l : list A) i x y :
  get l i = Some x → y :: l ≡ₚ x :: upd l i y.
Proof.
  unfold get, upd. destruct (0 <=? i); [|done]. intros H.
  pose proof (lookup_lt_Some _ _ _ H).
  rewrite insert_take_drop by done. rewrite <- (take_drop_middle l _ _ H) at 1.
  rewrite <- !Permutation_middle. apply perm_swap.
Qed.

(** Dropping the last entry into the place of another removes that one. *)
Lemma remove_last_Permutation {A} (l : list A) n i x y :
  len l = n + 1 → i < n → get l i = Some x → get l n = Some y →
  l ≡ₚ x :: upd (take (Z.to_nat n) l) i y.
Proof.
  intros Hl Hi Hx Hy. pose proof (get_Some_range _ _ _ Hx).
  assert (E : l = take (Z.to_nat n) l ++ [y]).
  { rewrite <- (take_drop (Z.to_nat n) l) at 1. f_equal.
    unfold get in Hy. destruct (0 <=? n); [|done].
    rewrite (drop_S _ _ _ Hy), drop_ge; [done|]. unfold len in Hl. lia. }
  rewrite E at 1. rewrite <- Permutation_cons_append. apply upd_Permutation.
  rewrite get_take by lia. by rewrite decide_True.
Qed.

Section ListZMap.
Context {A B : Type} (f : A → B).

Lemma get_fmap (l : list A) i : get (f <$> l) i = f <$> get l i.
Proof. unfold get. destruct (0 <=? i); [apply list_lookup_fmap | done]. Qed.

Lemma get_fmap_Some (l : list A) i x : get l i = Some x → get (f <$> l) i = Some (f x).
Proof. intros H. by rewrite get_fmap, H. Qed.

Lemma upd_fmap (l : list A) i x : f <$> upd l i x = upd (f <$> l) i (f x).
Proof. apply list_fmap_insert. Qed.

Lemma len_fmap (l : list A) : len (f <$> l) = len l.
Proof. unfold len. by rewrite length_fmap. Qed.
End ListZMap.

Lemma filter_all {A} (P : A → Prop) `{∀ x, Decision (P x)} (l : list A) :
  (∀ x, x ∈ l → P x) → filter P l = l.
Proof.
  induction l as [|x l IH]; intros HP; [done|].
  rewrite filter_cons_True by (apply HP, list_elem_of_here).
  f_equal. apply IH. intros y Hy. by apply HP, list_elem_of_further.
Qed.

Lemma filter_none {A} (P : A → Prop) `{∀ x, Decision (P x)} (l : list A) :
  (∀ x, x ∈ l → ¬ P x) → filter P l = [].
Proof.
  induction l as [|x l IH]; intros HP; [done|].
  rewrite filter_cons_False by (apply HP, list_elem_of_here).
  apply IH. intros y Hy. by apply HP, list_elem_of_further.
Qed.

(** The first and the last step of a path. *)
Lemma tc_first {A} (R : relation A) x y : tc R x y → ∃ z, R x z.
Proof. destruct 1; eauto. Qed.
Lemma tc_last {A} (R : relation A) x y : tc R x y → ∃ z, R z y.
Proof. induction 1; eauto. Qed.

Lemma length_filter_le {A} (P Q : A → Prop) `{∀ x, Decision (P x), ∀ x, Decision (Q x)} (l : list A) :
  (∀ x, x ∈ l → Q x → P x) → (length (filter Q l) <= length (filter P l))%nat.
Proof.
  induction l as [|x l IH]; intros Hl; [done|]. rewrite !filter_cons.
  assert (IH' : (length (filter Q l) <= length (filter P l))%nat).
  { apply IH. intros y Hy. by apply Hl, list_elem_of_further. }
  pose proof (Hl x (list_elem_of_here _ _)).
  destruct (decide (Q x)), (decide (P x)); cbn; (lia || tauto).
Qed.

Lemma length_filter_lt {A} (P Q : A → Prop) `{∀ x, Decision (P x), ∀ x, Decision (Q x)} (l : list A) y :
  (∀ x, x ∈ l → Q x → P x) → y ∈ l → P y → ¬ Q y → (length (filter Q l) < length (filter P l))%nat.
Proof.
  induction l as [|x l IH]; intros Hl Hy HP HQ; [by apply elem_of_nil in Hy|]. rewrite !filter_cons.
  assert (Hl' : ∀ z, z ∈ l → Q z → P z) by (intros z Hz; by apply Hl, list_elem_of_further).
  pose proof (length_filter_le P Q l Hl'). pose proof (Hl x (list_elem_of_here _ _)).
  apply elem_of_cons in Hy as [<-|Hy].
  - destruct (decide (Q y)), (decide (P y)); cbn; (lia || tauto).
  - specialize (IH Hl' Hy HP HQ).
    destruct (decide (Q x)), (decide (P x)); cbn; (lia || tauto).
Qed.

(** Where every path ends there is no cycle. *)
Lemma Acc_no_cycle {A} (R : relation A) x y :
  Acc (flip R) x → rtc R x y → ¬ tc R y y.
Proof.
  intros Hx Hr. assert (Hy : Acc (flip R) y).
  { induction Hr as [|x y z Hxy _ IH]; [done|]. apply IH. by apply (Acc_inv Hx). }
  clear Hx Hr x. induction Hy as [y _ IH]. intros Ht.
  inversion Ht as [? ? Hyy|? z ? Hyz Hzy]; subst; [by apply (IH y Hyy)|].
  apply (IH z Hyz). by eapply tc_r.
Qed.

(** Induction two, three and five elements at a time, for codecs that work in groups. *)
Lemma list_pair_ind {A} (P : list A → Prop) :
  P [] → (∀ a, P [a]) → (∀ a b l, P l → P (a :: b :: l)) → ∀ l, P l.
Proof.
  intros H0 H1 H2. fix IH 1. intros [|a [|b l]]; [done|apply H1|apply H2, IH].
Qed.

Lemma list_triple_ind {A} (P : list A → Prop) :
  P [] → (∀ a, P [a]) → (∀ a b, P [a; b]) → (∀ a b c l, P l → P (a :: b :: c :: l)) → ∀ l, P l.
Proof.
  intros H0 H1 H2 H3. fix IH 1.
  intros [|a [|b [|c l]]]; [done|apply H1|apply H2|apply H3, IH].
Qed.

Lemma list_len_ind {A} (P : list A → Prop) :
  (∀ l, (∀ k, (length k < length l)%nat → P k) → P l) → ∀ l, P l.
Proof.
  intros H l. remember (length l) as n eqn:E. revert l E.
  induction (lt_wf n) as [n _ IH]. intros l ->. apply H. intros k Hk. by eapply IH.
Qed.

(** ** Finite checks

    A boolean predicate on small integers is decided by running it on all of them. *)

Definition range (n : nat) : list Z := Z.of_nat <$> seq 0 n.

Lemma elem_of_range n z : 0 <= z < Z.of_nat n → z ∈ range n.
Proof.
  intros H. apply list_elem_of_fmap. exists (Z.to_nat z). split; [lia|].
  apply elem_of_seq. lia.
Qed.

Definition check1 (n : nat) (P : Z → bool) : bool := forallb P (range n).
Definition check2 (n m : nat) (P : Z → Z → bool) : bool := check1 n (λ x, check1 m (P x)).
Definition check3 (n m k : nat) (P : Z → Z → Z → bool) : bool :=
  check1 n (λ x, check2 m k (P x)).

Lemma check1_sound n P z : check1 n P = true → 0 <= z < Z.of_nat n → P z = true.
Proof.
  unfold check1. rewrite forallb_forall. intros H Hz.
  apply H, list_elem_of_In, elem_of_range, Hz.
Qed.

Lemma check2_sound n m P x y :
  check2 n m P = true → 0 <= x < Z.of_nat n → 0 <= y < Z.of_nat m → P x y = true.
Proof. intros H Hx Hy. apply (check1_sound _ _ _ (check1_sound _ _ _ H Hx) Hy). Qed.

Lemma check3_sound n m k P x y z :
  check3 n m k P = true → 0 <= x < Z.of_nat n → 0 <= y < Z.of_nat m → 0 <= z < Z.of_nat k →
  P x y z = true.
Proof. intros H Hx Hy Hz. apply (check2_sound _ _ _ _ _ (check1_sound _ _ _ H Hx) Hy Hz). Qed.

Create HintDb sd.
Create Rewrite HintDb sd.
#[export] Hint Resolve len_nonneg : sd.
#[export] Hint Rewrite @len_upd @len_app @len_nil @len_cons : sd.

(** [simplify_opt] runs the option monad of a hypothesis: it splits every bind. *)
Ltac simplify_opt :=
  repeat match goal with
  | H : assert_ ?b = Some _ |- _ => unfold assert_ in H; destruct b eqn:?; [|discriminate H]
  | H : mbind _ ?e = Some _ |- _ =>
      let x := fresh "v" in
      destruct e as [x|] eqn:?; [cbn [mbind option_bind] in H | discriminate H]
  | H : Some _ = Some _ |- _ => injection H as H
  | H : None = Some _ |- _ => discriminate H
  | _ => progress subst
  end.
