(* ===== verification/Prioq.v ===== *)
(** * The priority queue (src/basic/prioq.c)

    A binary heap in an array of items, each with its data pointer and an optional
    pointer to a cell in which the queue keeps the item's current index. Data
    pointers are values of a type [D]; the index cells are a memory [gmap positive Z]
    that every operation threads, because a caller reads its cell back to find its
    item again. Indices are C [unsigned]: their arithmetic wraps. *)

From S2P Require Import Prelude.

Definition PRIOQ_IDX_NULL : Z := UINT_MAX.

(** What [compare_func_t] has to satisfy for a heap to make sense. *)
Class CompareFunc {D : Type} (cmp : D → D → Z) := {
  cmp_flip x y : cmp x y < 0 ↔ 0 < cmp y x;
  cmp_trans x y z : cmp x y <= 0 → cmp y z <= 0 → cmp x z <= 0;
}.

Section Prioq.
Context {D : Type} `{EqDecision D}.

Record prioq_item := PrioqItem { data : D; idx : option positive }.

Record Prioq := MkPrioq {
  n_items : Z;
  n_allocated : Z;
  items : list prioq_item;
}.

(** The index cells the callers own. *)
Definition cells := gmap positive Z.

(** A queue in memory: the object together with the index cells. *)
Definition pstate := (Prioq * cells)%type.

Definition prioq_new : Prioq := MkPrioq 0 0 [].

Definition prioq_ensure_allocated (q : option Prioq) (alloc_ok : bool) : Z * option Prioq :=
  match q with
  | Some q => (0, Some q)
  | None => if alloc_ok then (0, Some prioq_new) else (-ENOMEM, None)
  end.

(** [if (p) *p = v;] *)
Definition store_idx (p : option positive) (v : Z) (m : cells) : cells :=
  match p with Some p => <[p := v]> m | None => m end.

(** [!p || *p == v] *)
Definition idx_is (p : option positive) (v : Z) (m : cells) : bool :=
  match p with Some p => bool_decide (m !! p = Some v) | None => true end.

(** [q->items[i]] for an index below [n_items]. *)
Definition item (q : Prioq) (i : Z) : option prioq_item :=
  if i <? n_items q then get (items q) i else None.

Definition with_items (q : Prioq) (l : list prioq_item) : Prioq :=
  MkPrioq (n_items q) (n_allocated q) l.

Definition swap (s : pstate) (j k : Z) : option pstate :=
  let '(q, m) := s in
  a ← item q j;
  b ← item q k;
  assert_ (idx_is (idx a) j m);;
  assert_ (idx_is (idx b) k m);;
  let q' := with_items q (upd (upd (items q) j b) k a) in
  Some (q', store_idx (idx a) k (store_idx (idx b) j m)).

Section WithCompare.
Variable compare_func : D → D → Z.

(** The loop of [shuffle_up]. The index halves, so [idx] rounds are enough. *)
Fixpoint shuffle_up_loop (fuel : nat) (s : pstate) (i : Z) : option (pstate * Z) :=
  match fuel with
  | O => None
  | S fuel =>
      if 0 <? i then
        let k := (i - 1) / 2 in
        a ← item (fst s) k;
        b ← item (fst s) i;
        if compare_func (data a) (data b) <=? 0 then Some (s, i)
        else s' ← swap s i k; shuffle_up_loop fuel s' k
      else Some (s, i)
  end.

Definition shuffle_up (s : pstate) (i : Z) : option (pstate * Z) :=
  assert_ (i <? n_items (fst s));;
  shuffle_up_loop (S (Z.to_nat i)) s i.

(** The index [s] of the smallest among the item at [i] and its children at [j]
    and [k], as one round of [shuffle_down] picks it ([j] exists, [k] may not). *)
Definition smallest_of (q : Prioq) (i j k : Z) : option Z :=
  a ← item q i;
  b ← item q j;
  let s := if compare_func (data b) (data a) <? 0 then j else i in
  e ← item q s;
  if k <? n_items q then
    d ← item q k;
    Some (if compare_func (data d) (data e) <? 0 then k else s)
  else Some s.

(** The loop of [shuffle_down]. The index grows towards [n_items]. *)
Fixpoint shuffle_down_loop (fuel : nat) (s : pstate) (i : Z) : option (pstate * Z) :=
  match fuel with
  | O => None
  | S fuel =>
      let k := u32 (u32 (i + 1) * 2) in
      let j := u32 (k - 1) in
      if n_items (fst s) <=? j then Some (s, i)
      else
        c ← smallest_of (fst s) i j k;
        if c =? i then Some (s, i)
        else s' ← swap s i c; shuffle_down_loop fuel s' c
  end.

Definition shuffle_down (s : pstate) (i : Z) : option (pstate * Z) :=
  shuffle_down_loop (S (Z.to_nat (n_items (fst s) - i))) s i.

Definition reshuffle_at (s : pstate) (i : Z) : option pstate :=
  '(s, k) ← shuffle_down s i;
  '(s, _) ← shuffle_up s k;
  Some s.

(** [alloc_ok]: whether [reallocarray()] succeeds if it is called. *)
Definition prioq_put (s : pstate) (d : D) (p : option positive) (alloc_ok : bool)
    : option (Z * pstate) :=
  let '(q, m) := s in
  let grow := n_allocated q <=? n_items q in
  if grow && negb alloc_ok then Some (-ENOMEM, s)
  else
    let n := if grow then Z.max (u32 (u32 (n_items q + 1) * 2)) 16 else n_allocated q in
    let k := n_items q in
    assert_ (k <? n);;
    let q' := MkPrioq (u32 (k + 1)) n (items q ++ [PrioqItem d p]) in
    '(s', _) ← shuffle_up (q', store_idx p k m) k;
    Some (0, s').

Definition prioq_ensure_put (q : option Prioq) (m : cells) (d : D) (p : option positive)
    (alloc_new alloc_items : bool) : option (Z * option Prioq * cells) :=
  match prioq_ensure_allocated q alloc_new with
  | (r, Some q) =>
      if r <? 0 then Some (r, Some q, m)
      else '(r, (q, m)) ← prioq_put (q, m) d p alloc_items; Some (r, Some q, m)
  | (r, None) => Some (r, None, m)
  end.

Definition remove_item (s : pstate) (i : Z) : option pstate :=
  let '(q, m) := s in
  let l := u32 (n_items q - 1) in
  if i =? l then
    Some (MkPrioq (u32 (n_items q - 1)) (n_allocated q) (take (Z.to_nat l) (items q)), m)
  else
    lst ← item q l;
    let its := take (Z.to_nat l) (upd (items q) i lst) in
    let q' := MkPrioq (u32 (n_items q - 1)) (n_allocated q) its in
    reshuffle_at (q', store_idx (idx lst) i m) i.

(** Linear search of [find_item] when the caller gives no index cell. *)
Fixpoint find_data (d : D) (l : list prioq_item) (i : Z) : option Z :=
  match l with
  | [] => None
  | x :: l => if decide (data x = d) then Some i else find_data d l (i + 1)
  end.

(** The outer option is the model's, the inner one C's NULL. *)
Definition find_item (s : pstate) (d : D) (p : option positive) : option (option Z) :=
  let '(q, m) := s in
  if n_items q <=? 0 then Some None
  else match p with
  | Some p =>
      v ← m !! p;
      if (v =? PRIOQ_IDX_NULL) || (n_items q <=? v) then Some None
      else
        x ← item q v;
        Some (if decide (data x = d) then Some v else None)
  | None => Some (find_data d (items q) 0)
  end.

Definition prioq_remove (q : option Prioq) (m : cells) (d : D) (p : option positive)
    : option (Z * option Prioq * cells) :=
  match q with
  | None => Some (0, None, m)
  | Some q =>
      r ← find_item (q, m) d p;
      match r with
      | None => Some (0, Some q, m)
      | Some i => '(q, m) ← remove_item (q, m) i; Some (1, Some q, m)
      end
  end.

Definition prioq_reshuffle (s : pstate) (d : D) (p : option positive) : option (Z * pstate) :=
  r ← find_item s d p;
  match r with
  | None => Some (0, s)
  | Some i => s ← reshuffle_at s i; Some (1, s)
  end.

Definition prioq_peek_by_index (q : option Prioq) (i : Z) : option D :=
  match q with
  | None => None
  | Some q => if n_items q <=? i then None else data <$> get (items q) i
  end.

(** The outer option is the model's, the inner one C's NULL. *)
Definition prioq_pop (q : option Prioq) (m : cells) : option (option D * option Prioq * cells) :=
  match q with
  | None => Some (None, None, m)
  | Some q =>
      if n_items q <=? 0 then Some (None, Some q, m)
      else
        x ← item q 0;
        '(q, m) ← remove_item (q, m) 0;
        Some (Some (data x), Some q, m)
  end.

Definition prioq_size (q : option Prioq) : Z :=
  match q with None => 0 | Some q => n_items q end.

Definition prioq_isempty (q : option Prioq) : bool :=
  match q with None => true | Some q => n_items q <=? 0 end.

End WithCompare.
End Prioq.

Arguments prioq_item : clear implicits.
Arguments Prioq : clear implicits.
Arguments pstate : clear implicits.

(** ** Heap order on the list of keys *)

Section HeapOrder.
Context {D : Type} (cmp : D → D → Z) `{!CompareFunc cmp}.
Implicit Types (l : list D).

Definition parent (i : Z) : Z := (i - 1) / 2.

(** Exchange two entries. *)
Definition lswap {A} (l : list A) (j k : Z) (a b : A) : list A := upd (upd l j b) k a.

(** The entry at [i] is not smaller than its parent. *)
Definition ordered_at l (i : Z) : Prop :=
  ∀ a b, 0 < i → get l (parent i) = Some a → get l i = Some b → cmp a b <= 0.

Definition heap l : Prop := ∀ i, ordered_at l i.

(** The children of [k] are not smaller than the parent of [k]. *)
Definition bypass l (k : Z) : Prop :=
  ∀ c a b, 0 < k → 0 < c → parent c = k →
    get l (parent k) = Some a → get l c = Some b → cmp a b <= 0.

(** Only [k] may be smaller than its parent. *)
Definition up_inv l (k : Z) : Prop := (∀ i, i ≠ k → ordered_at l i) ∧ bypass l k.

(** Only [k] may be out of order with its parent and its children. *)
Definition down_inv l (k : Z) : Prop :=
  (∀ i, 0 < i → i ≠ k → parent i ≠ k → ordered_at l i) ∧ bypass l k.

Lemma cmp_total x y : 0 < cmp x y → cmp y x <= 0.
Proof. intros H. apply (cmp_flip y x) in H. lia. Qed.

Lemma cmp_refl x : cmp x x <= 0.
Proof. destruct (Z.le_gt_cases (cmp x x) 0); [done|]. apply cmp_total. lia. Qed.

Lemma parent_lt i : 0 < i → 0 <= parent i < i.
Proof. unfold parent. intros. split; [apply Z.div_pos; lia | apply Z.div_lt_upper_bound; lia]. Qed.

Lemma get_lswap {A} (l : list A) j k a b i :
  get l j = Some a → get l k = Some b →
  get (lswap l j k a b) i =
    if decide (i = k) then Some a else if decide (i = j) then Some b else get l i.
Proof.
  intros Hj Hk. pose proof (get_Some_range _ _ _ Hj). pose proof (get_Some_range _ _ _ Hk).
  unfold lswap. repeat case_decide; subst.
  - apply get_upd_eq. rewrite len_upd. lia.
  - rewrite get_upd_ne by lia. apply get_upd_eq. lia.
  - rewrite !get_upd_ne by lia. done.
Qed.

Lemma len_lswap {A} (l : list A) j k a b : len (lswap l j k a b) = len l.
Proof. unfold lswap. by rewrite !len_upd. Qed.

Lemma lswap_Permutation {A} (l : list A) j k a b :
  get l j = Some a → get l k = Some b → lswap l j k a b ≡ₚ l.
Proof.
  unfold get, lswap, upd. intros Hj Hk.
  destruct (0 <=? j); [|done]. destruct (0 <=? k); [|done].
  by apply Permutation_insert_swap.
Qed.

(** One round of [shuffle_up]. *)
Lemma up_step l i a b :
  0 < i → up_inv l i → get l (parent i) = Some a → get l i = Some b → 0 < cmp a b →
  up_inv (lswap l i (parent i) b a) (parent i).
Proof.
  intros Hi [Hord Hby] Ha Hb Hgt. pose proof (parent_lt i Hi).
  pose proof (cmp_total _ _ Hgt) as Hba. split.
  - intros i' Hne x y Hi' Hx Hy. rewrite get_lswap in Hx, Hy by done.
    repeat case_decide; simplify_eq; try lia; try done.
    + (* the sibling *) eapply cmp_trans; [exact Hba|].
      apply (Hord i'); congruence.
    + (* a child of i *) eapply (Hby i'); eauto.
    + apply (Hord i'); congruence.
  - intros c x y Hk Hc Hpc Hx Hy. pose proof (parent_lt _ Hk).
    rewrite get_lswap in Hx, Hy by done.
    assert (cmp x a <= 0).
    { apply (Hord (parent i)); [lia|done| |done].
      repeat case_decide; simplify_eq; try lia; done. }
    repeat case_decide; simplify_eq; try lia; try done.
    all: eapply cmp_trans; [eassumption|]; apply (Hord c); congruence.
Qed.

Lemma up_done l i : up_inv l i → ordered_at l i → heap l.
Proof. intros [H _] Hi i'. destruct (decide (i' = i)) as [->|]; auto. Qed.

Lemma heap_up_inv l i : heap l → up_inv l i.
Proof.
  intros H. split; [auto|]. intros c a b Hk Hc Hp Ha Hb.
  destruct (get_is_Some l i) as [x Hx].
  { pose proof (parent_lt c Hc). apply get_Some_range in Hb. lia. }
  eapply cmp_trans; [apply (H i); eauto | apply (H c); rewrite ?Hp; eauto].
Qed.

Lemma heap_down_inv l i : heap l → down_inv l i.
Proof. intros H. split; [auto|]. by apply heap_up_inv. Qed.

(** One round of [shuffle_down]: [c] is the smallest child and smaller than [i]. *)
Lemma down_step l i c a b :
  0 <= i → down_inv l i → 0 < c → parent c = i →
  get l i = Some a → get l c = Some b → cmp b a <= 0 →
  (∀ c' x, 0 < c' → parent c' = i → get l c' = Some x → cmp b x <= 0) →
  down_inv (lswap l i c a b) c.
Proof.
  intros Hi [Hord Hby] Hc Hp Ha Hb Hba Hmin. pose proof (parent_lt c Hc). split.
  - intros i' Hi' Hne Hnp x y _ Hx Hy. pose proof (parent_lt i' Hi').
    rewrite get_lswap in Hx, Hy by done.
    repeat case_decide; simplify_eq; try lia; try done.
    + (* i itself *) eapply (Hby c); eauto.
    + (* the other child *) eapply Hmin; eauto.
    + apply (Hord i'); done.
  - intros c' x y _ Hc' Hpc' Hx Hy. pose proof (parent_lt c' Hc').
    rewrite get_lswap in Hx, Hy by done.
    repeat case_decide; simplify_eq; try lia.
    apply (Hord c'); try done; try lia.
Qed.

Lemma down_done l i :
  down_inv l i →
  (∀ c a b, 0 < c → parent c = i → get l i = Some a → get l c = Some b → cmp a b <= 0) →
  up_inv l i.
Proof.
  intros [Hord Hby] Hc. split; [|done]. intros i' Hne a b Hi' Ha Hb.
  destruct (decide (parent i' = i)) as [E|E].
  - subst i. eauto.
  - by apply (Hord i').
Qed.

Lemma heap_root_min l i a b : heap l → get l 0 = Some a → get l i = Some b → cmp a b <= 0.
Proof.
  intros Hh Ha. assert (Hi : 0 <= i ∨ i < 0) by lia. destruct Hi as [Hi|Hi].
  2:{ intros Hb%get_Some_range. lia. }
  revert i Hi b. refine (Zlt_0_ind _ _). intros i IH Hi b Hb.
  destruct (decide (i = 0)) as [->|].
  - rewrite Hb in Ha. simplify_eq. apply cmp_refl.
  - pose proof (parent_lt i ltac:(lia)).
    destruct (get_is_Some l (parent i)) as [x Hx].
    { apply get_Some_range in Hb. lia. }
    eapply cmp_trans; [apply (IH (parent i)); eauto; lia | apply (Hh i); eauto; lia].
Qed.
End HeapOrder.

(** ** The operations keep the invariant *)

Section Invariant.
Context {D : Type} `{EqDecision D} (cmp : D → D → Z) `{!CompareFunc cmp}.
Implicit Types (s : pstate D) (q : Prioq D) (m : cells) (l : list (prioq_item D)).

(** The number of items up to which no [unsigned] computation of the code wraps. *)
Definition PRIOQ_MAX : Z := 2 ^ 31 - 1.

(** Every registered index cell holds the index of its item. *)
Definition idx_ok l m : Prop := ∀ i x p, get l i = Some x → idx x = Some p → m !! p = Some i.

Definition wf s : Prop :=
  n_items (fst s) = len (items (fst s)) ∧ n_items (fst s) <= PRIOQ_MAX ∧
  n_items (fst s) <= n_allocated (fst s) ∧ idx_ok (items (fst s)) (snd s).

Definition keys q : list D := data <$> items q.

(** The whole invariant: a well-formed array in heap order. *)
Definition prioq_inv s : Prop := wf s ∧ heap cmp (keys (fst s)).

(** [s'] holds the items of [s] in another order; no foreign index cell changed. *)
Definition reorders s s' : Prop :=
  wf s' ∧ items (fst s') ≡ₚ items (fst s) ∧
  n_items (fst s') = n_items (fst s) ∧ n_allocated (fst s') = n_allocated (fst s) ∧
  ∀ p, (∀ x, x ∈ items (fst s) → idx x ≠ Some p) → snd s' !! p = snd s !! p.

Lemma reorders_refl s : wf s → reorders s s.
Proof. by intros ?; repeat split; try apply H. Qed.

Lemma reorders_trans s1 s2 s3 : reorders s1 s2 → reorders s2 s3 → reorders s1 s3.
Proof.
  intros (W2 & P2 & N2 & A2 & F2) (W3 & P3 & N3 & A3 & F3).
  split; [done|]. split; [by rewrite P3|]. split; [congruence|]. split; [congruence|].
  intros p Hp. rewrite F3; [by apply F2|]. intros x Hx. apply Hp. by rewrite <- P2.
Qed.

Lemma item_get q i : n_items q = len (items q) → item q i = get (items q) i.
Proof.
  intros Hn. unfold item. destruct (i <? n_items q) eqn:E; [done|].
  symmetry. apply get_None. lia.
Qed.

Lemma idx_ok_idx_is l m i x : idx_ok l m → get l i = Some x → idx_is (idx x) i m = true.
Proof.
  intros Hok Hx. unfold idx_is. destruct (idx x) as [p|] eqn:E; [|done].
  apply bool_decide_eq_true_2. eauto.
Qed.

(** Two different items never share a cell. *)
Lemma idx_ok_inj l m i j x y p :
  idx_ok l m → get l i = Some x → get l j = Some y →
  idx x = Some p → idx y = Some p → i = j.
Proof. intros Hok Hx Hy E1 E2. pose proof (Hok _ _ _ Hx E1). pose proof (Hok _ _ _ Hy E2). congruence. Qed.

Lemma lookup_store_idx_eq p v m : store_idx (Some p) v m !! p = Some v.
Proof. apply lookup_insert_eq. Qed.

Lemma lookup_store_idx_ne o p v m : o ≠ Some p → store_idx o v m !! p = m !! p.
Proof. destruct o as [q|]; [|done]. intros Hne. apply lookup_insert_ne. congruence. Qed.

Lemma swap_ok s j k a b :
  wf s → j ≠ k → get (items (fst s)) j = Some a → get (items (fst s)) k = Some b →
  ∃ s', swap s j k = Some s' ∧ reorders s s' ∧ items (fst s') = lswap (items (fst s)) j k a b.
Proof.
  destruct s as [q m]. intros (Hn & Hb & Hal & Hidx) Hne Ha Hk. simpl in *.
  unfold swap. rewrite !item_get, Ha, Hk by done. simpl.
  rewrite (idx_ok_idx_is _ _ _ _ Hidx Ha), (idx_ok_idx_is _ _ _ _ Hidx Hk). simpl.
  eexists; split; [done|]. split; [|done]. unfold reorders; simpl.
  split.
  { unfold wf; simpl. change (upd (upd (items q) j b) k a) with (lswap (items q) j k a b).
    rewrite len_lswap. split_and!; [done..|].
    intros i x p Hx Hp. rewrite get_lswap in Hx by done.
    repeat case_decide; simplify_eq.
    - rewrite Hp. apply lookup_store_idx_eq.
    - rewrite lookup_store_idx_ne, Hp; [apply lookup_store_idx_eq|].
      intros Hp'. apply Hne. by eapply idx_ok_inj.
    - rewrite !lookup_store_idx_ne; [by eapply Hidx|..];
        intros Hp'; [cut (i = k)|cut (i = j)]; eauto using idx_ok_inj. }
  split; [by apply lswap_Permutation|]. split; [done|]. split; [done|].
  intros p Hp. rewrite !lookup_store_idx_ne; eauto using get_elem_of.
Qed.

Lemma keys_swap s s' j k a b :
  items (fst s') = lswap (items (fst s)) j k a b →
  keys (fst s') = lswap (keys (fst s)) j k (data a) (data b).
Proof. unfold keys, lswap. intros ->. by rewrite !upd_fmap. Qed.

Lemma get_keys q i x : get (items q) i = Some x → get (keys q) i = Some (data x).
Proof. apply get_fmap_Some. Qed.

Lemma shuffle_up_loop_ok fuel s i :
  Z.of_nat fuel > i → wf s → 0 <= i < n_items (fst s) → up_inv cmp (keys (fst s)) i →
  ∃ s' i', shuffle_up_loop cmp fuel s i = Some (s', i') ∧
    reorders s s' ∧ heap cmp (keys (fst s')).
Proof.
  revert s i. induction fuel as [|fuel IH]; intros s i Hf Hwf Hi Hup; [lia|]. simpl.
  destruct (0 <? i) eqn:E.
  2:{ assert (i = 0) as -> by lia. exists s, 0. split; [done|]. split; [by apply reorders_refl|].
      apply (up_done _ _ 0); [done|]. intros ? ? ?. lia. }
  change ((i - 1) / 2) with (parent i). pose proof (parent_lt i ltac:(lia)).
  pose proof Hwf as (Hn & _). rewrite !item_get by done.
  destruct (get_is_Some (items (fst s)) (parent i)) as [a Ha]; [lia|].
  destruct (get_is_Some (items (fst s)) i) as [b Hb]; [lia|].
  rewrite Ha, Hb. simpl.
  destruct (cmp (data a) (data b) <=? 0) eqn:Hc.
  - exists s, i. split; [done|]. split; [by apply reorders_refl|].
    apply (up_done _ _ i); [done|]. intros x y _ Hx Hy.
    rewrite (get_keys _ _ _ Ha) in Hx. rewrite (get_keys _ _ _ Hb) in Hy.
    simplify_eq. lia.
  - destruct (swap_ok s i (parent i) b a) as (s1 & -> & Hr & Hit); [done|lia|done..|]. simpl.
    pose proof (keys_swap _ _ _ _ _ _ Hit) as Hk.
    destruct (IH s1 (parent i)) as (s2 & i2 & -> & Hr2 & Hh); [lia| |destruct Hr as (?&?&?&?); lia| |].
    + apply Hr.
    + rewrite Hk. apply up_step; eauto using get_keys; lia.
    + exists s2, i2. split; [done|]. split; [by eapply reorders_trans|done].
Qed.

Lemma shuffle_up_ok s i :
  wf s → 0 <= i < n_items (fst s) → up_inv cmp (keys (fst s)) i →
  ∃ s' i', shuffle_up cmp s i = Some (s', i') ∧ reorders s s' ∧ heap cmp (keys (fst s')).
Proof.
  intros Hwf Hi Hup. unfold shuffle_up.
  rewrite assert_bind by lia.
  apply shuffle_up_loop_ok; [lia|done..].
Qed.

Lemma child_cases c i : 0 < c → parent c = i → c = 2 * i + 1 ∨ c = 2 * i + 2.
Proof. unfold parent. intros Hc <-. pose proof (Z.div_mod (c - 1) 2). pose proof (Z.mod_pos_bound (c-1) 2). lia. Qed.

Lemma parent_left i : parent (2 * i + 1) = i.
Proof. unfold parent. replace (2 * i + 1 - 1) with (i * 2) by lia. by apply Z.div_mul. Qed.

Lemma parent_right i : parent (2 * i + 2) = i.
Proof.
  unfold parent. replace (2 * i + 2 - 1) with (1 + i * 2) by lia.
  by rewrite Z.div_add.
Qed.

Lemma cmp_not_lt x y : ¬ cmp x y < 0 → cmp y x <= 0.
Proof.
  intros H. destruct (Z.le_gt_cases (cmp y x) 0) as [|Hgt]; [done|].
  exfalso. apply H, cmp_flip. lia.
Qed.

Lemma smallest_of_ok q i a :
  n_items q = len (items q) → 0 <= i → 2 * i + 1 < n_items q → get (items q) i = Some a →
  ∃ c e, smallest_of cmp q i (2 * i + 1) (2 * i + 2) = Some c ∧
    get (items q) c = Some e ∧ cmp (data e) (data a) <= 0 ∧
    (c = i ∨ 0 < c ∧ parent c = i) ∧
    (∀ x y, 0 < x → parent x = i → get (keys q) x = Some y → cmp (data e) y <= 0).
Proof.
  intros Hn Hi Hj Ha. unfold smallest_of. rewrite !item_get by done.
  destruct (get_is_Some (items q) (2 * i + 1)) as [b Hb]; [lia|].
  rewrite Ha, Hb. cbn [mbind option_bind].
  set (s := if cmp (data b) (data a) <? 0 then 2 * i + 1 else i).
  assert (∃ e, get (items q) s = Some e ∧ cmp (data e) (data a) <= 0 ∧
    cmp (data e) (data b) <= 0 ∧ (s = i ∨ 0 < s ∧ parent s = i)) as (e & He & Hea & Heb & Hs).
  { subst s. destruct (cmp (data b) (data a) <? 0) eqn:Hba.
    - exists b. rewrite parent_left. split_and!; auto; [lia|apply cmp_refl, _|lia].
    - exists a. split_and!; auto; [apply cmp_refl, _|apply cmp_not_lt; lia]. }
  rewrite item_get, He by done. cbn [mbind option_bind].
  destruct (2 * i + 2 <? n_items q) eqn:Ek.
  - destruct (get_is_Some (items q) (2 * i + 2)) as [d Hd]; [lia|].
    rewrite Hd. cbn [mbind option_bind].
    assert (∀ f, cmp (data f) (data b) <= 0 → cmp (data f) (data d) <= 0 →
      ∀ x y, 0 < x → parent x = i → get (keys q) x = Some y → cmp (data f) y <= 0) as Hall.
    { intros f Hfb Hfd x y Hx Hp Hy. destruct (child_cases _ _ Hx Hp) as [-> | ->].
      - rewrite (get_keys _ _ _ Hb) in Hy. by simplify_eq.
      - rewrite (get_keys _ _ _ Hd) in Hy. by simplify_eq. }
    destruct (cmp (data d) (data e) <? 0) eqn:Hde.
    + assert (cmp (data d) (data e) <= 0) by lia.
      exists (2 * i + 2), d. rewrite parent_right.
      split_and!; eauto using cmp_trans, cmp_refl; lia.
    + exists s, e. split_and!; auto. apply Hall; [done|]. apply cmp_not_lt. lia.
  - exists s, e. split_and!; auto. intros x y Hx Hp Hy.
    destruct (child_cases _ _ Hx Hp) as [-> | ->].
    + rewrite (get_keys _ _ _ Hb) in Hy. by simplify_eq.
    + apply get_Some_range in Hy. unfold keys in Hy. rewrite len_fmap in Hy. lia.
Qed.

Lemma shuffle_down_loop_ok fuel s i :
  Z.of_nat fuel > n_items (fst s) - i → wf s → 0 <= i < n_items (fst s) →
  down_inv cmp (keys (fst s)) i →
  ∃ s' i', shuffle_down_loop cmp fuel s i = Some (s', i') ∧
    reorders s s' ∧ up_inv cmp (keys (fst s')) i' ∧ 0 <= i' < n_items (fst s').
Proof.
  revert s i. induction fuel as [|fuel IH]; intros s i Hf Hwf Hi Hd; [lia|].
  pose proof Hwf as (Hn & Hmax & _). unfold PRIOQ_MAX in Hmax. cbn [shuffle_down_loop].
  replace (u32 (u32 (i + 1) * 2)) with (2 * i + 2)
    by (rewrite (u32_small (i + 1)), u32_small; lia).
  replace (u32 (2 * i + 2 - 1)) with (2 * i + 1) by (rewrite u32_small; lia).
  destruct (n_items (fst s) <=? 2 * i + 1) eqn:E.
  { exists s, i. split; [done|]. split; [by apply reorders_refl|]. split; [|done].
    apply down_done; [done|]. intros c a b Hc Hp _ Hb%get_Some_range.
    unfold keys in Hb. rewrite len_fmap in Hb. apply child_cases in Hp; lia. }
  destruct (get_is_Some (items (fst s)) i) as [a Ha]; [lia|].
  destruct (smallest_of_ok (fst s) i a) as (c & e & -> & He & Hea & Hc & Hmin); [done|lia..|done|].
  cbn [mbind option_bind]. destruct (c =? i) eqn:Eci.
  - assert (c = i) as -> by lia. simplify_eq.
    exists s, i. split; [done|]. split; [by apply reorders_refl|]. split; [|done].
    apply down_done; [done|]. intros x u v Hx Hp Hu Hv.
    rewrite (get_keys _ _ _ Ha) in Hu. simplify_eq. eauto.
  - destruct Hc as [->|[Hc0 Hp]]; [lia|]. pose proof (parent_lt _ Hc0).
    destruct (swap_ok s i c a e) as (s1 & -> & Hr & Hit); [done|lia|done..|].
    cbn [mbind option_bind]. pose proof (keys_swap _ _ _ _ _ _ Hit) as Hk.
    pose proof Hr as (Hw1 & _ & Hn1 & _). apply get_Some_range in He as Hr'.
    destruct (IH s1 c) as (s2 & i2 & -> & Hr2 & Hup & Hi2); [lia|done|lia| |].
    + rewrite Hk. eapply down_step; eauto using get_keys; lia.
    + exists s2, i2. split; [done|]. split; [by eapply reorders_trans|done].
Qed.

Lemma reshuffle_at_ok s i :
  wf s → 0 <= i < n_items (fst s) → down_inv cmp (keys (fst s)) i →
  ∃ s', reshuffle_at cmp s i = Some s' ∧ reorders s s' ∧ heap cmp (keys (fst s')).
Proof.
  intros Hwf Hi Hd. unfold reshuffle_at, shuffle_down.
  destruct (shuffle_down_loop_ok (S (Z.to_nat (n_items (fst s) - i))) s i)
    as (s1 & k & -> & Hr1 & Hup & Hk); [lia|done..|]. cbn [mbind option_bind].
  destruct (shuffle_up_ok s1 k) as (s2 & k2 & -> & Hr2 & Hh); [apply Hr1|done..|].
  cbn [mbind option_bind]. exists s2. split; [done|]. split; [by eapply reorders_trans|done].
Qed.

Lemma wf_store_last s d p :
  wf s → n_items (fst s) < PRIOQ_MAX →
  (∀ x c, x ∈ items (fst s) → p = Some c → idx x ≠ Some c) →
  idx_ok (items (fst s) ++ [PrioqItem d p]) (store_idx p (n_items (fst s)) (snd s)).
Proof.
  destruct s as [q m]. intros (Hn & _ & _ & Hidx) Hlt Hfresh i x c Hx Hc. simpl in *.
  destruct (decide (i < len (items q))).
  - rewrite get_app_l in Hx by done. rewrite lookup_store_idx_ne; [by eapply Hidx|].
    intros Hp. eapply Hfresh; eauto using get_elem_of.
  - assert (i = len (items q)) as ->.
    { apply get_Some_range in Hx. rewrite len_app in Hx. unfold len in *. simpl in Hx. lia. }
    rewrite get_snoc in Hx. simplify_eq. simpl in Hc. rewrite Hc, Hn. apply lookup_store_idx_eq.
Qed.

Lemma heap_snoc_up_inv (l : list D) x : heap cmp l → up_inv cmp (l ++ [x]) (len l).
Proof.
  intros Hh. split.
  - intros i Hne a b Hi Ha Hb. pose proof (parent_lt i Hi).
    apply get_Some_range in Hb as Hr. rewrite len_app in Hr. unfold len in Hr at 2; simpl in Hr.
    rewrite get_app_l in Ha, Hb by lia. by apply (Hh i).
  - intros c a b Hk Hc Hp _ Hb%get_Some_range. pose proof (parent_lt c Hc).
    rewrite len_app in Hb. unfold len in Hb at 2; simpl in Hb. lia.
Qed.

Lemma prioq_new_inv m : prioq_inv (prioq_new, m).
Proof.
  split; [split_and!; try done; intros i x ? Hx _|intros i x y _ _ Hx];
    apply get_Some_range in Hx; change (0 <= i < 0) in Hx; lia.
Qed.

(** What [prioq_put] does when there is memory. *)
Lemma prioq_put_spec s d p alloc_ok :
  prioq_inv s → n_items (fst s) < PRIOQ_MAX →
  n_items (fst s) < n_allocated (fst s) ∨ alloc_ok = true →
  (∀ x c, x ∈ items (fst s) → p = Some c → idx x ≠ Some c) →
  ∃ s', prioq_put cmp s d p alloc_ok = Some (0, s') ∧ prioq_inv s' ∧
    items (fst s') ≡ₚ PrioqItem d p :: items (fst s) ∧
    (∀ c, p ≠ Some c → (∀ x, x ∈ items (fst s) → idx x ≠ Some c) → snd s' !! c = snd s !! c).
Proof.
  intros [Hwf Hh] Hlt Hall Hfresh. pose proof (wf_store_last _ d _ Hwf Hlt Hfresh) as Hidx.
  destruct s as [q m]. pose proof Hwf as (Hn & _ & Hal & _).
  unfold prioq_put, PRIOQ_MAX in *. simpl in *. pose proof (len_nonneg (items q)).
  set (grow := n_allocated q <=? n_items q).
  assert (grow && negb alloc_ok = false) as -> by (destruct Hall as [?| ->]; lia).
  assert (u32 (n_items q + 1) = n_items q + 1) as Hu by (apply u32_small; lia).
  assert (u32 ((n_items q + 1) * 2) = (n_items q + 1) * 2) as Hu2 by (apply u32_small; lia).
  rewrite Hu, Hu2, assert_bind by (destruct grow eqn:?; lia).
  match goal with |- context [shuffle_up cmp ?t ?k] =>
    destruct (shuffle_up_ok t k) as (s1 & k1 & -> & Hr & Hheap) end.
  - split_and!; simpl; [|unfold PRIOQ_MAX; lia|destruct grow eqn:?; lia|done].
    rewrite len_app. unfold len at 2; simpl. lia.
  - simpl. lia.
  - unfold keys in *. simpl. rewrite fmap_app, Hn, <- (len_fmap data). by apply heap_snoc_up_inv.
  - destruct Hr as (Hw1 & Hp1 & _ & _ & Hf). simpl in *.
    exists s1. split; [done|]. split; [done|]. split.
    + by rewrite Hp1, <- Permutation_cons_append.
    + intros c Hpc Hc. rewrite Hf.
      * by apply lookup_store_idx_ne.
      * intros x [Hx| ->%list_elem_of_singleton]%elem_of_app; simpl; auto.
Qed.

Lemma down_inv_frame (c : D → D → Z) (l l' : list D) i :
  (∀ j x, j ≠ i → get l' j = Some x → get l j = Some x) →
  (∀ j k x y, j ≠ i → k ≠ i → get l' j = Some x → get l' k = Some y → cmp x y <= 0 → c x y <= 0) →
  down_inv cmp l i → down_inv c l' i.
Proof.
  intros Hg Hc [H1 H2]. split.
  - intros i' Hi' Hne Hp a b _ Ha Hb.
    eapply (Hc (parent i') i'); eauto. eapply (H1 i'); eauto.
  - intros k a b Hi Hk Hp Ha Hb. pose proof (parent_lt i Hi). pose proof (parent_lt k Hk).
    eapply (Hc (parent i) k); [lia..|done|done|]. eapply (H2 k); eauto; apply Hg; auto; lia.
Qed.

(** What removing the item [x] leaves behind. *)
Definition removed s s' (x : prioq_item D) : Prop :=
  prioq_inv s' ∧ items (fst s) ≡ₚ x :: items (fst s') ∧ n_items (fst s') = n_items (fst s) - 1 ∧
  (∀ c, (∀ y, y ∈ items (fst s) → idx y ≠ Some c) → snd s' !! c = snd s !! c).

Lemma heap_take (l : list D) n : heap cmp l → heap cmp (take n l).
Proof.
  intros Hh i a b Hi Ha Hb. unfold get in *.
  destruct (0 <=? parent i) eqn:E1; [|done]. destruct (0 <=? i) eqn:E2; [|done].
  apply lookup_take_Some in Ha as [Ha _]. apply lookup_take_Some in Hb as [Hb _].
  apply (Hh i); [done|..]; unfold get; by rewrite ?E1, ?E2.
Qed.

Lemma remove_item_last q m x :
  prioq_inv (q, m) → get (items q) (n_items q - 1) = Some x →
  ∃ s', remove_item cmp (q, m) (n_items q - 1) = Some s' ∧ removed (q, m) s' x.
Proof.
  intros [Hwf Hh] Hx. pose proof Hwf as (Hn & Hmax & Hal & Hidx).
  unfold PRIOQ_MAX in *. simpl in *. pose proof (get_Some_range _ _ _ Hx) as Hi.
  unfold remove_item. set (l := n_items q - 1) in *.
  assert (u32 l = l) as -> by (apply u32_small; lia). rewrite Z.eqb_refl.
  eexists; split; [done|]. unfold removed; simpl. split_and!; [split; [split_and!|]|..]; simpl.
  - rewrite len_take; lia.
  - unfold PRIOQ_MAX. lia.
  - lia.
  - intros j y p. rewrite get_take by lia. case_decide; [|done]. eauto.
  - unfold keys; simpl. rewrite fmap_take. by apply heap_take.
  - rewrite <- (take_drop (Z.to_nat l) (items q)) at 1.
    rewrite Permutation_app_comm. unfold get in Hx. destruct (0 <=? l); [|done].
    rewrite (drop_S _ _ _ Hx), drop_ge; [done|]. unfold len in *. lia.
  - done.
  - done.
Qed.

Lemma remove_item_mid q m i x :
  prioq_inv (q, m) → get (items q) i = Some x → i ≠ n_items q - 1 →
  ∃ s', remove_item cmp (q, m) i = Some s' ∧ removed (q, m) s' x.
Proof.
  intros [Hwf Hh] Hx Hil. pose proof Hwf as (Hn & Hmax & Hal & Hidx).
  unfold PRIOQ_MAX in *. simpl in *. pose proof (get_Some_range _ _ _ Hx) as Hi.
  unfold remove_item. set (l := n_items q - 1) in *.
  assert (u32 l = l) as -> by (apply u32_small; lia).
  replace (i =? l) with false by lia.
  destruct (get_is_Some (items q) l) as [lst Hl]; [lia|].
  rewrite item_get, Hl by done. cbn [mbind option_bind].
  assert (take (Z.to_nat l) (upd (items q) i lst) = upd (take (Z.to_nat l) (items q)) i lst) as ->
    by (unfold upd; apply take_insert_lt; lia).
  set (its := upd (take (Z.to_nat l) (items q)) i lst).
  assert (Hlen : len its = l) by (unfold its; rewrite len_upd, len_take; lia).
  assert (Hg : ∀ j y, get its j = Some y →
            (j = i ∧ y = lst) ∨ (j ≠ i ∧ j < l ∧ get (items q) j = Some y)).
  { intros j y. unfold its. destruct (decide (i = j)) as [<-|Hne].
    - rewrite get_upd_eq by (rewrite len_take; lia). intros [= ->]. by left.
    - rewrite get_upd_ne, get_take by lia. case_decide; [|done]. right. done. }
  match goal with |- context [reshuffle_at cmp ?t i] =>
    destruct (reshuffle_at_ok t i) as (s1 & -> & Hr & Hheap) end; simpl.
  - split_and!; simpl; [lia|unfold PRIOQ_MAX; lia|lia|].
    intros j y p Hy Hp. destruct (Hg _ _ Hy) as [[-> ->]|(Hne & Hlt & Hy')].
    + rewrite Hp. apply lookup_store_idx_eq.
    + rewrite lookup_store_idx_ne; [by eapply Hidx|]. intros Hp'.
      assert (j = l) by eauto using idx_ok_inj. lia.
  - lia.
  - eapply down_inv_frame; [..|by apply (heap_down_inv cmp (keys q) i)]; [|done].
    intros j y Hne. unfold keys. simpl. rewrite !get_fmap.
    destruct (get its j) as [z|] eqn:Ez; [|done]. intros [= <-].
    destruct (Hg _ _ Ez) as [[? ?]|(_ & _ & ->)]; done.
  - destruct Hr as (Hw1 & Hp1 & Hn1 & _ & Hf). simpl in *.
    exists s1. unfold removed; simpl. split_and!; [done..| |lia|].
    + rewrite Hp1. eapply remove_last_Permutation; eauto; lia.
    + intros c Hc. rewrite Hf; [|intros y [j Hy]%elem_of_get].
      * apply lookup_store_idx_ne, Hc. eauto using get_elem_of.
      * apply Hc. destruct (Hg _ _ Hy) as [[-> ->]|(_&_&?)]; eauto using get_elem_of.
Qed.

Lemma remove_item_spec s i x :
  prioq_inv s → get (items (fst s)) i = Some x →
  ∃ s', remove_item cmp s i = Some s' ∧ removed s s' x.
Proof.
  destruct s as [q m]. intros Hinv Hx. destruct (decide (i = n_items q - 1)) as [->|].
  - by apply remove_item_last.
  - by apply remove_item_mid.
Qed.

Lemma find_data_Some d l i k :
  find_data d l i = Some k → ∃ x, get l (k - i) = Some x ∧ data x = d.
Proof.
  revert i. induction l as [|y l IH]; intros i; [done|]. simpl. case_decide.
  - intros [= ->]. exists y. rewrite Z.sub_diag. done.
  - intros (x & Hx & Hd)%IH. exists x. split; [|done].
    apply get_Some_range in Hx as Hr. unfold get in *.
    replace (0 <=? k - (i + 1)) with true in Hx by lia.
    replace (0 <=? k - i) with true by lia.
    replace (Z.to_nat (k - i)) with (S (Z.to_nat (k - (i + 1)))) by lia. done.
Qed.

Lemma find_data_None d l i : find_data d l i = None ↔ ∀ x, x ∈ l → data x ≠ d.
Proof.
  revert i. induction l as [|y l IH]; intros i; simpl.
  - split; [|done]. by intros _ x ?%not_elem_of_nil.
  - case_decide.
    + split; [done|]. intros Hx. exfalso. by apply (Hx y (list_elem_of_here _ _)).
    + rewrite IH. setoid_rewrite elem_of_cons. clear IH. split; [|by eauto].
      intros H' x [->|Hx]; auto.
Qed.

(** [find_item] finds the item that the caller registered under this cell. *)
Lemma find_item_registered s i x d p :
  prioq_inv s → get (items (fst s)) i = Some x → data x = d → idx x = Some p →
  find_item s d (Some p) = Some (Some i).
Proof.
  destruct s as [q m]. intros [(Hn & Hmax & _ & Hidx) _] Hx Hd Hp. simpl in *.
  unfold PRIOQ_MAX, PRIOQ_IDX_NULL, UINT_MAX in *.
  pose proof (get_Some_range _ _ _ Hx). unfold find_item.
  replace (n_items q <=? 0) with false by lia. rewrite (Hidx _ _ _ Hx Hp). cbn [mbind option_bind].
  replace (_ || _) with false by (unfold PRIOQ_IDX_NULL, UINT_MAX; lia).
  rewrite item_get, Hx by done. cbn [mbind option_bind]. by rewrite decide_True.
Qed.

(** Whatever [find_item] returns is an item with the data asked for. *)
Lemma find_item_sound s d p i :
  wf s → find_item s d p = Some (Some i) →
  ∃ x, get (items (fst s)) i = Some x ∧ data x = d.
Proof.
  destruct s as [q m]. intros (Hn & _). simpl in *. unfold find_item.
  destruct (n_items q <=? 0); [done|]. destruct p as [p|].
  - destruct (m !! p) as [v|]; [|done]. cbn [mbind option_bind].
    destruct (_ || _); [done|]. rewrite item_get by done.
    destruct (get (items q) v) as [x|] eqn:Hx; [|done]. cbn [mbind option_bind].
    case_decide; [|done]. intros [= <-]. eauto.
  - intros [= (x & Hx & Hd)%find_data_Some]. rewrite Z.sub_0_r in Hx. eauto.
Qed.
End Invariant.

(** ** Properties *)

Section Properties.
Context {D : Type} `{EqDecision D} (cmp : D → D → Z) `{!CompareFunc cmp}.

(** C38: [prioq_put] on a queue that satisfies the invariant, with room or memory to
    grow and an index cell no other item uses, returns 0 without tripping an
    assertion or leaving the array; the queue then holds exactly one more item, is
    again in heap order with every index cell up to date, and no foreign cell
    changed. Without memory it returns -ENOMEM and leaves the queue alone. *)
Theorem prioq_put_correct (s : pstate D) (d : D) (p : option positive) (alloc_ok : bool) :
  prioq_inv cmp s → n_items (fst s) < PRIOQ_MAX →
  (∀ x c, x ∈ items (fst s) → p = Some c → idx x ≠ Some c) →
  if (n_allocated (fst s) <=? n_items (fst s)) && negb alloc_ok
  then prioq_put cmp s d p alloc_ok = Some (-ENOMEM, s)
  else ∃ s', prioq_put cmp s d p alloc_ok = Some (0, s') ∧ prioq_inv cmp s' ∧
    items (fst s') ≡ₚ PrioqItem d p :: items (fst s) ∧
    (∀ c, p ≠ Some c → (∀ x, x ∈ items (fst s) → idx x ≠ Some c) → snd s' !! c = snd s !! c).
Proof.
  intros Hinv Hlt Hfresh. destruct (_ && _) eqn:E.
  - unfold prioq_put. destruct s as [q m]. simpl in *. by rewrite E.
  - apply prioq_put_spec; try done. destruct alloc_ok; [by right|]. left. lia.
Qed.

(** [prioq_pop] returns an item that no other item of the queue precedes and
    removes exactly that item, keeping the invariant; on an empty or absent queue
    it returns NULL and changes nothing. *)
Theorem prioq_pop_min (s : pstate D) :
  prioq_inv cmp s →
  if prioq_isempty (Some (fst s))
  then prioq_pop cmp (Some (fst s)) (snd s) = Some (None, Some (fst s), snd s)
  else ∃ x s', prioq_pop cmp (Some (fst s)) (snd s) =
                 Some (Some (data x), Some (fst s'), snd s') ∧
    prioq_inv cmp s' ∧ items (fst s) ≡ₚ x :: items (fst s') ∧
    (∀ y, y ∈ items (fst s) → cmp (data x) (data y) <= 0).
Proof.
  destruct s as [q m]. intros Hinv. cbn [fst snd]. unfold prioq_pop, prioq_isempty.
  destruct (n_items q <=? 0) eqn:E; [done|].
  pose proof Hinv as [(Hn & _) Hh]. cbn [fst snd] in *.
  destruct (get_is_Some (items q) 0) as [x Hx]; [lia|].
  rewrite item_get, Hx by done. cbn [mbind option_bind].
  destruct (remove_item_spec cmp (q, m) 0 x) as ([q' m'] & -> & Hi' & Hp & _); [done..|].
  exists x, (q', m'). split_and!; [done..|].
  intros y [i Hy]%elem_of_get. eapply (heap_root_min cmp); [done|..]; by apply get_keys.
Qed.

(** [prioq_remove] with the index cell an item was registered with removes that
    item, returns 1 and keeps the invariant: the cell always leads back to the
    item however the heap was reordered meanwhile. *)
Theorem prioq_remove_registered (s : pstate D) (x : prioq_item D) (p : positive) :
  prioq_inv cmp s → x ∈ items (fst s) → idx x = Some p →
  ∃ s', prioq_remove cmp (Some (fst s)) (snd s) (data x) (Some p) =
          Some (1, Some (fst s'), snd s') ∧
    prioq_inv cmp s' ∧ items (fst s) ≡ₚ x :: items (fst s') ∧
    prioq_size (Some (fst s')) = prioq_size (Some (fst s)) - 1.
Proof.
  destruct s as [q m]. intros Hinv [i Hx]%elem_of_get Hp. cbn [fst snd] in *.
  unfold prioq_remove. rewrite (find_item_registered cmp (q, m) i x) by done. cbn [mbind option_bind].
  destruct (remove_item_spec cmp (q, m) i x) as ([q' m'] & -> & Hi' & Hpm & Hn & _); [done..|].
  by exists (q', m').
Qed.

(** After the priority of one object changed (the queue is a heap for the old
    comparison, and the new one agrees with it on all other pairs of items),
    [prioq_reshuffle] restores the heap for the new comparison, with the same items
    and up-to-date index cells. *)
Theorem prioq_reshuffle_restores (cmp' : D → D → Z) `{!CompareFunc cmp'}
    (s : pstate D) (x : prioq_item D) (p : positive) :
  prioq_inv cmp s → x ∈ items (fst s) → idx x = Some p →
  (∀ a b, a ∈ items (fst s) → b ∈ items (fst s) → a ≠ x → b ≠ x →
     cmp (data a) (data b) <= 0 → cmp' (data a) (data b) <= 0) →
  ∃ s', prioq_reshuffle cmp' s (data x) (Some p) = Some (1, s') ∧
    prioq_inv cmp' s' ∧ items (fst s') ≡ₚ items (fst s).
Proof.
  intros [Hwf Hh] [i Hx]%elem_of_get Hp Hagree. unfold prioq_reshuffle.
  rewrite (find_item_registered cmp s i x) by done. cbn [mbind option_bind].
  pose proof Hwf as (Hn & _ & _ & Hidx). pose proof (get_Some_range _ _ _ Hx).
  destruct (reshuffle_at_ok cmp' s i) as (s' & -> & (Hw & Hpm & _) & Hheap); [done|lia| |].
  - apply (down_inv_frame cmp cmp' (keys (fst s)) (keys (fst s)) i); [done| |by apply heap_down_inv].
    intros j k a b Hj Hk. unfold keys. rewrite !get_fmap.
    destruct (get _ j) as [a'|] eqn:Ea; [|done]. destruct (get _ k) as [b'|] eqn:Eb; [|done].
    intros [= <-] [= <-]. apply Hagree; eauto using get_elem_of;
      intros ->; [apply Hj|apply Hk]; eapply idx_ok_inj; eauto.
  - exists s'. by split_and!.
Qed.
End Properties.

(** A concrete queue of integers, for the witnesses. *)

Definition zcmp (x y : Z) : Z := x - y.
#[export] Instance zcmp_compare : CompareFunc zcmp.
Proof. split; unfold zcmp; lia. Qed.

Definition ex_queue : pstate Z :=
  default (prioq_new, ∅)
    (s ← snd <$> prioq_put zcmp (prioq_new, ∅) 5 (Some 1%positive) true;
     s ← snd <$> prioq_put zcmp s 3 (Some 2%positive) true;
     s ← snd <$> prioq_put zcmp s 4 None true; Some s).

Lemma ex_queue_inv : prioq_inv zcmp ex_queue.
Proof.
  pose proof (prioq_put_spec zcmp (prioq_new, ∅) 5 (Some 1%positive) true) as H1.
  destruct H1 as (s1 & E1 & I1 & P1 & _); [apply prioq_new_inv|done|by right|set_solver|].
  vm_compute in E1. injection E1 as <-.
  pose proof (prioq_put_spec zcmp _ 3 (Some 2%positive) true I1) as H2.
  destruct H2 as (s2 & E2 & I2 & P2 & _); [done|by right| |].
  { intros x c Hx [= <-]. by apply list_elem_of_singleton in Hx as ->. }
  vm_compute in E2. injection E2 as <-.
  pose proof (prioq_put_spec zcmp _ 4 None true I2) as H3.
  destruct H3 as (s3 & E3 & I3 & P3 & _); [done|by right|done|].
  vm_compute in E3. injection E3 as <-. exact I3.
Qed.

Lemma prioq_put_correct_witness :
  prioq_inv zcmp ex_queue ∧ ∃ s', prioq_put zcmp ex_queue 1 None true = Some (0, s') ∧
    prioq_inv zcmp s' ∧ items (fst s') ≡ₚ PrioqItem 1 None :: items (fst ex_queue).
Proof.
  split; [apply ex_queue_inv|].
  pose proof (prioq_put_correct zcmp ex_queue 1 None true ex_queue_inv
                ltac:(vm_compute; reflexivity) ltac:(done)) as H.
  destruct H as (s' & H1 & H2 & H3 & _). exists s'. done.
Defined.

Lemma prioq_pop_min_witness :
  ∃ s', prioq_pop zcmp (Some (fst ex_queue)) (snd ex_queue) =
    Some (Some 3, Some (fst s'), snd s') ∧ prioq_inv zcmp s'.
Proof.
  pose proof (prioq_pop_min zcmp ex_queue ex_queue_inv) as H.
  destruct H as (x & s' & H1 & H2 & _ & _).
  exists s'. split; [|done].
  assert (E : fst ∘ fst <$> prioq_pop zcmp (Some (fst ex_queue)) (snd ex_queue) = Some (Some 3))
    by reflexivity.
  rewrite H1 in E |- *. simpl in E. congruence.
Defined.

Lemma prioq_remove_registered_witness :
  ∃ s', prioq_remove zcmp (Some (fst ex_queue)) (snd ex_queue) 5 (Some 1%positive) =
    Some (1, Some (fst s'), snd s') ∧ prioq_inv zcmp s'.
Proof.
  pose proof (prioq_remove_registered zcmp ex_queue (PrioqItem 5 (Some 1%positive)) 1
                ex_queue_inv ltac:(vm_compute; set_solver) eq_refl) as H.
  destruct H as (s' & H1 & H2 & _ & _). by exists s'.
Defined.

(** The object 5 becomes more urgent than all others. *)
Definition zcmp' (x y : Z) : Z :=
  (if x =? 5 then -1 else x) - (if y =? 5 then -1 else y).
#[export] Instance zcmp'_compare : CompareFunc zcmp'.
Proof. split; unfold zcmp'; intros; repeat case_match; lia. Qed.

Lemma prioq_reshuffle_restores_witness :
  ∃ s', prioq_reshuffle zcmp' ex_queue 5 (Some 1%positive) = Some (1, s') ∧
    prioq_inv zcmp' s' ∧ prioq_peek_by_index (Some (fst s')) 0 = Some 5.
Proof.
  pose proof (prioq_reshuffle_restores zcmp zcmp' ex_queue (PrioqItem 5 (Some 1%positive)) 1
                ex_queue_inv ltac:(vm_compute; set_solver) eq_refl) as H.
  destruct H as (s' & H1 & H2 & _).
  - intros a b Ha Hb Hna Hnb. apply list_elem_of_In in Ha, Hb. vm_compute in Ha, Hb.
    destruct Ha as [<-|[<-|[<-|[]]]], Hb as [<-|[<-|[<-|[]]]];
      first [by destruct Hna | by destruct Hnb | unfold zcmp, zcmp'; simpl; lia].
  - exists s'. split_and!; [done|done|]. vm_compute in H1. injection H1 as <-. reflexivity.
Defined.
