(* ===== verification/Hexdecoct.v ===== *)
(** * Hexadecimal, base32hex and base64 (src/basic/hexdecoct.c)

    Encoders take a memory block, decoders a string of given length (the bytes of
    the list; with [l == SIZE_MAX] the code measures a NUL-terminated string, which
    is the list up to the NUL). A decoder returns the decoded block or the negative
    errno. [alloc_ok] says whether [malloc()] succeeds. Decoders that read through
    [*_next()] advance a cursor: the model returns the rest of the input. *)

From S2P Require Import Prelude.

(** [strchr(WHITESPACE, c)] is also non-NULL for the terminating NUL. *)
Definition WHITESPACE : list Z := [ch " "; 9; 10; 13].
Definition in_whitespace (c : Z) : bool := bool_decide (c ∈ WHITESPACE) || (c =? 0).

Definition INT_MAX : Z := 2 ^ 31 - 1.
Definition SIZE_MAX : Z := UINT64_MAX.

(** ** Single characters *)

Definition octchar (x : Z) : Z := ch "0" + Z.land x 7.

Definition unoctchar (c : Z) : Z :=
  if (ch "0" <=? c) && (c <=? ch "7") then c - ch "0" else -EINVAL.

(** C's [%] truncates towards zero. *)
Definition decchar (x : Z) : Z := ch "0" + Z.rem x 10.

Definition undecchar (c : Z) : Z :=
  if (ch "0" <=? c) && (c <=? ch "9") then c - ch "0" else -EINVAL.

(** [table[i]] of a constant string. *)
Definition table_get (table : list Z) (i : Z) : Z := default 0 (get table i).

Definition hexchar (x : Z) : Z := table_get (str "0123456789abcdef") (Z.land x 15).

Definition unhexchar (c : Z) : Z :=
  if (ch "0" <=? c) && (c <=? ch "9") then c - ch "0"
  else if (ch "a" <=? c) && (c <=? ch "f") then c - ch "a" + 10
  else if (ch "A" <=? c) && (c <=? ch "F") then c - ch "A" + 10
  else -EINVAL.

Definition base32hexchar (x : Z) : Z :=
  table_get (str "0123456789ABCDEFGHIJKLMNOPQRSTUV") (Z.land x 31).

Definition unbase32hexchar (c : Z) : Z :=
  if (ch "0" <=? c) && (c <=? ch "9") then c - ch "0"
  else
    let offset := ch "9" - ch "0" + 1 in
    if (ch "A" <=? c) && (c <=? ch "V") then c - ch "A" + offset else -EINVAL.

Definition base64char (x : Z) : Z :=
  table_get (str "ABCDEFGHIJKLMNOPQRSTUVWXYZabcdefghijklmnopqrstuvwxyz0123456789+/")
    (Z.land x 63).

Definition urlsafe_base64char (x : Z) : Z :=
  table_get (str "ABCDEFGHIJKLMNOPQRSTUVWXYZabcdefghijklmnopqrstuvwxyz0123456789-_")
    (Z.land x 63).

Definition unbase64char (c : Z) : Z :=
  if (ch "A" <=? c) && (c <=? ch "Z") then c - ch "A"
  else
    let offset := ch "Z" - ch "A" + 1 in
    if (ch "a" <=? c) && (c <=? ch "z") then c - ch "a" + offset
    else
      let offset := offset + (ch "z" - ch "a" + 1) in
      if (ch "0" <=? c) && (c <=? ch "9") then c - ch "0" + offset
      else
        let offset := offset + (ch "9" - ch "0" + 1) in
        if c =? ch "+" then offset
        else
          let offset := offset + 1 in
          if c =? ch "/" then offset else -EINVAL.

(** C integer expressions on bytes; the result is stored in a [uint8_t]. *)
Notation "x << n" := (Z.shiftl x n) (at level 44, left associativity) : Z_scope.
Notation "x >> n" := (Z.shiftr x n) (at level 44, left associativity) : Z_scope.
Notation "x .& y" := (Z.land x y) (at level 46, left associativity) : Z_scope.
Notation "x .| y" := (Z.lor x y) (at level 48, left associativity) : Z_scope.

(** ** Hexadecimal *)

Fixpoint hexmem (p : list Z) : list Z :=
  match p with
  | [] => []
  | x :: p => hexchar (x >> 4) :: hexchar (x .& 15) :: hexmem p
  end.

(** The loops that skip whitespace before and after a character. *)
Fixpoint skip_whitespace (p : list Z) : list Z :=
  match p with
  | [] => []
  | c :: p' => if in_whitespace c then skip_whitespace p' else p
  end.

Definition unhex_next (p : list Z) : Z * list Z :=
  match skip_whitespace p with
  | [] => (-EPIPE, [])
  | c :: p' =>
      let r := unhexchar c in
      if r <? 0 then (r, c :: p') else (r, skip_whitespace p')
  end.

(** Every round consumes two characters, so [S (length p)] rounds are enough. *)
Fixpoint unhexmem_loop (fuel : nat) (x : list Z) (z : list Z) : option (res (list Z)) :=
  match fuel with
  | O => None
  | S fuel =>
      let '(a, x) := unhex_next x in
      if a =? -EPIPE then Some (Ok z)
      else if a <? 0 then Some (Err a)
      else
        let '(b, x) := unhex_next x in
        if b <? 0 then Some (Err b)
        else unhexmem_loop fuel x (z ++ [u8 (u8 a << 4 .| u8 b)])
  end.

Definition unhexmem_buf_size (l : Z) : Z := u64 (u64 (l + 1) / 2 + 1).

Definition unhexmem_full (p : list Z) (alloc_ok : bool) : option (res (list Z)) :=
  if alloc_ok then unhexmem_loop (S (length p)) p [] else Some (Err (-ENOMEM)).

(** ** base32hex *)

Definition base32hexmem_len (l : Z) (padding : bool) : Z :=
  if padding then u64 (8 * u64 (l + 4)) / 5
  else u64 (u64 (8 * l) / 5 +
    (match l mod 5 with 4 => 7 | 3 => 5 | 2 => 4 | 1 => 2 | _ => 0 end)).

Definition pad32 (padding : bool) (n : nat) : list Z :=
  if padding then replicate n (ch "=") else [].

(** The loop over groups of five bytes, then the switch on what is left. *)
Fixpoint base32hexmem (x : list Z) (padding : bool) : list Z :=
  match x with
  | x0 :: x1 :: x2 :: x3 :: x4 :: x =>
      [ base32hexchar (x0 >> 3); base32hexchar ((x0 .& 7) << 2 .| x1 >> 6);
        base32hexchar ((x1 .& 63) >> 1); base32hexchar ((x1 .& 1) << 4 .| x2 >> 4);
        base32hexchar ((x2 .& 15) << 1 .| x3 >> 7); base32hexchar ((x3 .& 127) >> 2);
        base32hexchar ((x3 .& 3) << 3 .| x4 >> 5); base32hexchar (x4 .& 31) ]
      ++ base32hexmem x padding
  | [x0; x1; x2; x3] =>
      [ base32hexchar (x0 >> 3); base32hexchar ((x0 .& 7) << 2 .| x1 >> 6);
        base32hexchar ((x1 .& 63) >> 1); base32hexchar ((x1 .& 1) << 4 .| x2 >> 4);
        base32hexchar ((x2 .& 15) << 1 .| x3 >> 7); base32hexchar ((x3 .& 127) >> 2);
        base32hexchar ((x3 .& 3) << 3) ] ++ pad32 padding 1
  | [x0; x1; x2] =>
      [ base32hexchar (x0 >> 3); base32hexchar ((x0 .& 7) << 2 .| x1 >> 6);
        base32hexchar ((x1 .& 63) >> 1); base32hexchar ((x1 .& 1) << 4 .| x2 >> 4);
        base32hexchar ((x2 .& 15) << 1) ] ++ pad32 padding 3
  | [x0; x1] =>
      [ base32hexchar (x0 >> 3); base32hexchar ((x0 .& 7) << 2 .| x1 >> 6);
        base32hexchar ((x1 .& 63) >> 1); base32hexchar ((x1 .& 1) << 4) ] ++ pad32 padding 4
  | [x0] =>
      [ base32hexchar (x0 >> 3); base32hexchar ((x0 .& 7) << 2) ] ++ pad32 padding 6
  | [] => []
  end.

(** [a = unbase32hexchar(c); if (a < 0) return -EINVAL;] *)
Definition un32 (c : Z) : res Z :=
  let a := unbase32hexchar c in if a <? 0 then Err (-EINVAL) else Ok a.

(** The five output bytes of a group, as the code computes them. *)
Definition byte32_0 (a b : Z) : Z := u8 (u8 a << 3 .| u8 b >> 2).
Definition byte32_1 (b c d : Z) : Z := u8 (u8 b << 6 .| u8 c << 1 .| u8 d >> 4).
Definition byte32_2 (d e : Z) : Z := u8 (u8 d << 4 .| u8 e >> 1).
Definition byte32_3 (e f g : Z) : Z := u8 (u8 e << 7 .| u8 f << 2 .| u8 g >> 3).
Definition byte32_4 (g h : Z) : Z := u8 (u8 g << 5 .| u8 h).

Fixpoint unbase32hexmem_groups (x : list Z) : res (list Z) :=
  match x with
  | x0 :: x1 :: x2 :: x3 :: x4 :: x5 :: x6 :: x7 :: x =>
      a ← un32 x0; b ← un32 x1; c ← un32 x2; d ← un32 x3;
      e ← un32 x4; f ← un32 x5; g ← un32 x6; h ← un32 x7;
      r ← unbase32hexmem_groups x;
      Ok (byte32_0 a b :: byte32_1 b c d :: byte32_2 d e :: byte32_3 e f g :: byte32_4 g h :: r)
  | [x0; x1; x2; x3; x4; x5; x6] =>
      a ← un32 x0; b ← un32 x1; c ← un32 x2; d ← un32 x3;
      e ← un32 x4; f ← un32 x5; g ← un32 x6;
      if g .& 7 =? 0
      then Ok [byte32_0 a b; byte32_1 b c d; byte32_2 d e; byte32_3 e f g] else Err (-EINVAL)
  | [x0; x1; x2; x3; x4] =>
      a ← un32 x0; b ← un32 x1; c ← un32 x2; d ← un32 x3; e ← un32 x4;
      if e .& 1 =? 0 then Ok [byte32_0 a b; byte32_1 b c d; byte32_2 d e] else Err (-EINVAL)
  | [x0; x1; x2; x3] =>
      a ← un32 x0; b ← un32 x1; c ← un32 x2; d ← un32 x3;
      if d .& 15 =? 0 then Ok [byte32_0 a b; byte32_1 b c d] else Err (-EINVAL)
  | [x0; x1] =>
      a ← un32 x0; b ← un32 x1;
      if b .& 3 =? 0 then Ok [byte32_0 a b] else Err (-EINVAL)
  | [] => Ok []
  | _ => Err (-EINVAL)
  end.

(** [while (l > 0 && p[l - 1] == '=' && pad < 7) { pad++; l--; }] on the reversed string. *)
Fixpoint strip_padding (pad : nat) (rp : list Z) : list Z :=
  match pad, rp with
  | S pad, c :: rp' => if c =? ch "=" then strip_padding pad rp' else rp
  | _, _ => rp
  end.

Definition unbase32hexmem (p : list Z) (padding alloc_ok : bool) : res (list Z) :=
  if padding && negb (len p mod 8 =? 0) then Err (-EINVAL)
  else
    let p := if padding then reverse (strip_padding 7 (reverse p)) else p in
    if negb (bool_decide (len p mod 8 ∈ [0; 2; 4; 5; 7])) then Err (-EINVAL)
    else if alloc_ok then unbase32hexmem_groups p else Err (-ENOMEM).

(** ** base64 *)

(** The output so far is the list [z]; [n] is its length. *)
Definition maybe_line_break (z : list Z) (line_break : Z) : list Z :=
  if line_break =? SIZE_MAX then z
  else if len z mod (line_break + 1) =? line_break then z ++ [10] else z.

(** [maybe_line_break(&z, r, line_break); *(z++) = c;] *)
Definition put64 (line_break : Z) (z : list Z) (c : Z) : list Z :=
  maybe_line_break z line_break ++ [c].

(** The characters that encode one round of the loop or the tail of the block. *)
Definition base64_group (x0 x1 x2 : Z) : list Z :=
  [ base64char (x0 >> 2); base64char ((x0 .& 3) << 4 .| x1 >> 4);
    base64char ((x1 .& 15) << 2 .| x2 >> 6); base64char (x2 .& 63) ].

Definition base64_tail2 (x0 x1 : Z) : list Z :=
  [ base64char (x0 >> 2); base64char ((x0 .& 3) << 4 .| x1 >> 4);
    base64char ((x1 .& 15) << 2); ch "=" ].

Definition base64_tail1 (x0 : Z) : list Z :=
  [ base64char (x0 >> 2); base64char ((x0 .& 3) << 4); ch "="; ch "=" ].

Fixpoint base64mem_loop (line_break : Z) (x : list Z) (z : list Z) : list Z :=
  match x with
  | x0 :: x1 :: x2 :: x =>
      base64mem_loop line_break x (foldl (put64 line_break) z (base64_group x0 x1 x2))
  | [x0; x1] => foldl (put64 line_break) z (base64_tail2 x0 x1)
  | [x0] => foldl (put64 line_break) z (base64_tail1 x0)
  | [] => z
  end.

Definition base64mem_alloc (l line_break : Z) : Z :=
  let m := u64 (u64 (4 * u64 (l + 2)) / 3 + 1) in
  if line_break =? SIZE_MAX then m else u64 (m + m / line_break).

Definition base64mem_full (p : list Z) (line_break : Z) (alloc_ok : bool) : res (list Z) :=
  if alloc_ok then Ok (base64mem_loop line_break p []) else Err (-ENOMEM).

Definition unbase64_next (p : list Z) : Z * list Z :=
  match skip_whitespace p with
  | [] => (-EPIPE, [])
  | c :: p' =>
      if c =? ch "=" then (INT_MAX, skip_whitespace p')
      else
        let r := unbase64char c in
        if r <? 0 then (r, c :: p') else (r, skip_whitespace p')
  end.

Definition byte64_0 (a b : Z) : Z := u8 (u8 a << 2 .| u8 b >> 4).
Definition byte64_1 (b c : Z) : Z := u8 (u8 b << 4 .| u8 c >> 2).
Definition byte64_2 (c d : Z) : Z := u8 (u8 c << 6 .| u8 d).

Fixpoint unbase64mem_loop (fuel : nat) (x : list Z) (z : list Z) : option (res (list Z)) :=
  match fuel with
  | O => None
  | S fuel =>
      let '(a, x) := unbase64_next x in
      if a =? -EPIPE then Some (Ok z)
      else if a <? 0 then Some (Err a)
      else if a =? INT_MAX then Some (Err (-EINVAL))
      else
        let '(b, x) := unbase64_next x in
        if b <? 0 then Some (Err b)
        else if b =? INT_MAX then Some (Err (-EINVAL))
        else
          let '(c, x) := unbase64_next x in
          if c <? 0 then Some (Err c)
          else
            let '(d, x) := unbase64_next x in
            if d <? 0 then Some (Err d)
            else if c =? INT_MAX then
              if negb (d =? INT_MAX) then Some (Err (-EINVAL))
              else if negb (b .& 15 =? 0) then Some (Err (-EINVAL))
              else if 0 <? len x then Some (Err (-ENAMETOOLONG))
              else Some (Ok (z ++ [byte64_0 a b]))
            else if d =? INT_MAX then
              if negb (c .& 3 =? 0) then Some (Err (-EINVAL))
              else if 0 <? len x then Some (Err (-ENAMETOOLONG))
              else Some (Ok (z ++ [byte64_0 a b; byte64_1 b c]))
            else
              unbase64mem_loop fuel x (z ++ [byte64_0 a b; byte64_1 b c; byte64_2 c d])
  end.

(** The bytes of the output buffer before the terminating NUL. *)
Definition unbase64mem_len (l : Z) : Z :=
  l / 4 * 3 + (if l mod 4 =? 0 then 0 else l mod 4 - 1).

Definition unbase64mem_full (p : list Z) (alloc_ok : bool) : option (res (list Z)) :=
  if alloc_ok then unbase64mem_loop (S (length p)) p [] else Some (Err (-ENOMEM)).

Example hexmem_ex : hexmem [0; 171; 255] = str "00abff".
Proof. reflexivity. Qed.
Example unhexmem_ex : unhexmem_full (str " 0 0aB Ff ") true = Some (Ok [0; 171; 255]).
Proof. reflexivity. Qed.
Example base64_ex : base64mem_full (str "hello") 4 true = Ok (str "aGVs" ++ [10] ++ str "bG8=").
Proof. reflexivity. Qed.
Example base32_ex : base32hexmem (str "foob") true = str "CPNMUOG=".
Proof. reflexivity. Qed.
Example unbase32_ex : unbase32hexmem (str "CPNMUOG=") true true = Ok (str "foob").
Proof. reflexivity. Qed.

(** ** Whitespace

    What a decoder sees of its input is the input without whitespace. *)

Definition strip (p : list Z) : list Z := filter (λ c, in_whitespace c = false) p.

Lemma strip_app p q : strip (p ++ q) = strip p ++ strip q.
Proof. apply list.filter_app. Qed.

Lemma strip_cons_keep c p : in_whitespace c = false → strip (c :: p) = c :: strip p.
Proof. intros H. unfold strip. by rewrite filter_cons_True. Qed.

Lemma strip_cons_drop c p : in_whitespace c = true → strip (c :: p) = strip p.
Proof. intros H. unfold strip. rewrite filter_cons_False; [done|by rewrite H]. Qed.

Lemma strip_skip p : strip (skip_whitespace p) = strip p.
Proof.
  induction p as [|c p IH]; [done|]. simpl skip_whitespace.
  destruct (in_whitespace c) eqn:E; [by rewrite strip_cons_drop|done].
Qed.

Lemma skip_whitespace_length p : (length (skip_whitespace p) <= length p)%nat.
Proof. induction p as [|c p IH]; [done|]. simpl. destruct (in_whitespace c); simpl; lia. Qed.

(** After skipping, the input is empty or starts with what [strip] starts with. *)
Lemma skip_whitespace_cases p :
  (skip_whitespace p = [] ∧ strip p = []) ∨
  (∃ c p', skip_whitespace p = c :: p' ∧ strip p = c :: strip p' ∧ (length p' < length p)%nat).
Proof.
  induction p as [|c p IH]; [by left|]. simpl skip_whitespace.
  destruct (in_whitespace c) eqn:E.
  - rewrite strip_cons_drop by done. destruct IH as [?|(d & p' & ? & ? & ?)]; [by left|right].
    exists d, p'. simpl. split_and!; [done..|lia].
  - right. exists c, p. rewrite strip_cons_keep by done. simpl. split_and!; [done..|lia].
Qed.

Lemma skip_whitespace_nil p : skip_whitespace (skip_whitespace p) = skip_whitespace p.
Proof.
  induction p as [|c p IH]; [done|]. simpl. destruct (in_whitespace c) eqn:E; [done|].
  simpl. by rewrite E.
Qed.

(** A cursor left behind by a [*_next()] call is at the end iff nothing but
    whitespace was left. *)
Lemma skipped_nil x : skip_whitespace x = x → (0 <? len x) = negb (bool_decide (strip x = [])).
Proof.
  intros Hx. destruct (skip_whitespace_cases x) as [[H1 H2]|(c & p & H1 & H2 & _)].
  - rewrite H2. rewrite Hx in H1. by subst.
  - rewrite H2, bool_decide_eq_false_2 by done. rewrite Hx in H1. subst.
    unfold len. simpl. lia.
Qed.

(** ** Reference decoders

    Plain recursive decoders on input without whitespace. *)

Definition nibble (c : Z) : res Z := let r := unhexchar c in if r <? 0 then Err r else Ok r.

Fixpoint dec16 (x : list Z) : res (list Z) :=
  match x with
  | [] => Ok []
  | c0 :: x =>
      a ← nibble c0;
      match x with
      | [] => Err (-EPIPE)
      | c1 :: x => b ← nibble c1; r ← dec16 x; Ok (u8 (u8 a << 4 .| u8 b) :: r)
      end
  end.

(** Padding is [INT_MAX]. *)
Definition sextet (c : Z) : res Z :=
  if c =? ch "=" then Ok INT_MAX
  else let r := unbase64char c in if r <? 0 then Err r else Ok r.

Definition no_padding (a : Z) : res Z := if a =? INT_MAX then Err (-EINVAL) else Ok a.

Fixpoint dec64 (x : list Z) : res (list Z) :=
  match x with
  | [] => Ok []
  | c0 :: x =>
      a ← sextet c0 ≫= no_padding;
      match x with
      | [] => Err (-EPIPE)
      | c1 :: x =>
          b ← sextet c1 ≫= no_padding;
          match x with
          | [] => Err (-EPIPE)
          | c2 :: x =>
              c ← sextet c2;
              match x with
              | [] => Err (-EPIPE)
              | c3 :: x =>
                  d ← sextet c3;
                  if c =? INT_MAX then
                    if negb (d =? INT_MAX) then Err (-EINVAL)
                    else if negb (b .& 15 =? 0) then Err (-EINVAL)
                    else if negb (bool_decide (x = [])) then Err (-ENAMETOOLONG)
                    else Ok [byte64_0 a b]
                  else if d =? INT_MAX then
                    if negb (c .& 3 =? 0) then Err (-EINVAL)
                    else if negb (bool_decide (x = [])) then Err (-ENAMETOOLONG)
                    else Ok [byte64_0 a b; byte64_1 b c]
                  else r ← dec64 x; Ok (byte64_0 a b :: byte64_1 b c :: byte64_2 c d :: r)
              end
          end
      end
  end.

(** What one [unhex_next()] or [unbase64_next()] call does, with the decoder of one
    character abstracted. *)
Definition next_spec (next : list Z → Z * list Z) (dec : Z → res Z) : Prop :=
  ∀ p, match strip p with
       | [] => next p = (-EPIPE, [])
       | c :: s =>
           match dec c with
           | Err e => (next p).1 = e ∧ e < 0 ∧ e ≠ -EPIPE
           | Ok r => 0 <= r ∧ ∃ q, next p = (r, q) ∧ strip q = s ∧
                       skip_whitespace q = q ∧ (length q < length p)%nat
           end
       end.

Lemma unhexchar_range c : unhexchar c = -EINVAL ∨ 0 <= unhexchar c < 16.
Proof.
  unfold unhexchar, ch; simpl Z.of_N. repeat case_match; try (by left); right; lia.
Qed.

Lemma unbase64char_range c : unbase64char c = -EINVAL ∨ 0 <= unbase64char c < 64.
Proof.
  unfold unbase64char, ch; simpl Z.of_N. repeat case_match; try (by left); right; lia.
Qed.

Lemma unhex_next_spec : next_spec unhex_next nibble.
Proof.
  intros p. unfold unhex_next.
  destruct (skip_whitespace_cases p) as [[-> ->]|(c & p' & -> & -> & Hl)]; [done|].
  unfold nibble. destruct (unhexchar_range c) as [E|E].
  - rewrite E. simpl. unfold EPIPE, EINVAL. lia.
  - replace (unhexchar c <? 0) with false by lia. split; [lia|].
    eexists. split; [done|]. rewrite strip_skip, skip_whitespace_nil.
    pose proof (skip_whitespace_length p'). split_and!; [done..|lia].
Qed.

Lemma unbase64_next_spec : next_spec unbase64_next sextet.
Proof.
  intros p. unfold unbase64_next.
  destruct (skip_whitespace_cases p) as [[-> ->]|(c & p' & -> & -> & Hl)]; [done|].
  pose proof (skip_whitespace_length p').
  unfold sextet. destruct (c =? ch "=").
  { split; [done|]. eexists. split; [done|]. rewrite strip_skip, skip_whitespace_nil.
    split_and!; [done..|lia]. }
  destruct (unbase64char_range c) as [E|E].
  - rewrite E. simpl. unfold EPIPE, EINVAL. lia.
  - replace (unbase64char c <? 0) with false by lia. split; [lia|].
    eexists. split; [done|]. rewrite strip_skip, skip_whitespace_nil. split_and!; [done..|lia].
Qed.

(** Case split on the next character a decoder loop reads. *)
Ltac next_step spec x :=
  let H := fresh "Hnext" in
  pose proof (spec x) as H; destruct (strip x) as [|?c ?s] eqn:?;
  [rewrite H; clear H |
   let E := fresh "Edec" in
   match type of H with context [match ?d with Ok _ => _ | Err _ => _ end] =>
     destruct d as [?r|?e] eqn:E end;
   [destruct H as (? & ? & H & ? & ? & ?); rewrite H; clear H |
    match goal with |- context [let '(_, _) := ?n x in _] => destruct (n x) as [? ?] end;
    simpl in H; destruct H as (-> & ? & ?)]].

Ltac if_false := match goal with
  |- context [if ?b then _ else _] => replace b with false by (unfold EPIPE, EINVAL in *; lia) end.
Ltac if_true := match goal with
  |- context [if ?b then _ else _] => replace b with true by (unfold EPIPE, EINVAL in *; lia) end.

(** The hexadecimal decoder loop is the reference decoder on the stripped input. *)
Lemma unhexmem_loop_dec16 fuel x z :
  (length x < fuel)%nat → unhexmem_loop fuel x z = Some (app z <$> dec16 (strip x)).
Proof.
  revert x z. induction fuel as [|fuel IH]; intros x z Hf; [lia|]. cbn [unhexmem_loop].
  next_step unhex_next_spec x; simpl; rewrite ?Edec; simpl.
  - by rewrite app_nil_r.
  - do 2 if_false. next_step unhex_next_spec x0; subst; simpl; rewrite ?Edec0; simpl.
    + done.
    + if_false. rewrite IH by lia. subst.
      destruct (dec16 (strip x1)); simpl; [|done]. by rewrite <- app_assoc.
    + if_true. done.
  - if_false. if_true. done.
Qed.

Lemma sextet_range c r : sextet c = Ok r → r = INT_MAX ∨ 0 <= r < 64.
Proof.
  unfold sextet. destruct (c =? ch "="); [intros [= <-]; by left|].
  destruct (unbase64char_range c) as [E|E].
  - by rewrite E.
  - replace (unbase64char c <? 0) with false by lia. intros [= <-]. by right.
Qed.

(** The base64 decoder loop is the reference decoder on the stripped input. *)
Lemma unbase64mem_loop_dec64 fuel x z :
  (length x < fuel)%nat → unbase64mem_loop fuel x z = Some (app z <$> dec64 (strip x)).
Proof.
  revert x z. induction fuel as [|fuel IH]; intros x z Hf; [lia|]. cbn [unbase64mem_loop].
  next_step unbase64_next_spec x; simpl; rewrite ?Edec; simpl.
  { by rewrite app_nil_r. }
  2:{ if_false. if_true. done. }
  do 2 if_false. unfold no_padding. destruct (r =? INT_MAX); [done|]. simpl.
  next_step unbase64_next_spec x0; subst; simpl; rewrite ?Edec0; simpl.
  { done. } 2:{ if_true. done. }
  if_false. unfold no_padding. destruct (r0 =? INT_MAX); [done|]. simpl.
  next_step unbase64_next_spec x1; subst; simpl; rewrite ?Edec1; simpl.
  { done. } 2:{ if_true. done. }
  if_false.
  next_step unbase64_next_spec x2; subst; simpl; rewrite ?Edec2; simpl.
  { done. } 2:{ if_true. done. }
  if_false. rewrite !skipped_nil by done.
  destruct (r1 =? INT_MAX).
  { by repeat case_match. }
  destruct (r2 =? INT_MAX).
  { by repeat case_match. }
  rewrite IH by lia. destruct (dec64 (strip x3)); simpl; [|done]. by rewrite <- app_assoc.
Qed.

(** ** Bits

    Each output byte depends on few input bits: the equations hold because they hold
    for all values. *)

Ltac in_range := unfold is_byte in *; lia.
Ltac by_check1 x n := lazymatch goal with |- ?b = true =>
  let f := eval pattern x in b in lazymatch f with ?P _ =>
    apply (check1_sound n P x); [vm_compute; reflexivity | in_range] end end.
Ltac by_check2 x y n m := lazymatch goal with |- ?b = true =>
  let f := eval pattern x, y in b in lazymatch f with ?P _ _ =>
    apply (check2_sound n m P x y); [vm_compute; reflexivity | in_range..] end end.
Ltac by_check3 x y z n m k := lazymatch goal with |- ?b = true =>
  let f := eval pattern x, y, z in b in lazymatch f with ?P _ _ _ =>
    apply (check3_sound n m k P x y z); [vm_compute; reflexivity | in_range..] end end.

Lemma u8_byte z : is_byte (u8 z).
Proof. unfold is_byte, u8. apply Z.mod_pos_bound. lia. Qed.

(** The pieces of a byte that the encoders use. *)
Lemma byte_pieces x : is_byte x →
  0 <= x >> 2 < 64 ∧ 0 <= x >> 3 < 32 ∧ 0 <= x >> 4 < 16 ∧ 0 <= x >> 5 < 8 ∧
  0 <= x >> 6 < 4 ∧ 0 <= x >> 7 < 2.
Proof.
  intros Hx. assert (forallb (λ p : Z * Z, (0 <=? x >> fst p) && (x >> fst p <? snd p))
    [(2, 64); (3, 32); (4, 16); (5, 8); (6, 4); (7, 2)] = true) as H by by_check1 x 256%nat.
  simpl in H. lia.
Qed.

Lemma byte_masks x : is_byte x →
  0 <= x .& 1 < 2 ∧ 0 <= x .& 3 < 4 ∧ 0 <= x .& 7 < 8 ∧ 0 <= x .& 15 < 16 ∧
  0 <= x .& 31 < 32 ∧ 0 <= x .& 63 < 64 ∧ 0 <= x .& 127 < 128.
Proof.
  intros Hx. assert (forallb (λ m : Z, (0 <=? x .& m) && (x .& m <? m + 1))
    [1; 3; 7; 15; 31; 63; 127] = true) as H by by_check1 x 256%nat.
  simpl in H. lia.
Qed.

(** *** Hexadecimal *)

Lemma hex_byte x : is_byte x → u8 (u8 (x >> 4) << 4 .| u8 (x .& 15)) = x.
Proof. intros Hx. apply Z.eqb_eq. by_check1 x 256%nat. Qed.

Lemma hex_nibbles a b : 0 <= a < 16 → 0 <= b < 16 →
  u8 (u8 a << 4 .| u8 b) >> 4 = a ∧ u8 (u8 a << 4 .| u8 b) .& 15 = b.
Proof. intros Ha Hb. split; apply Z.eqb_eq; by_check2 a b 16%nat 16%nat. Qed.

(** The decoder takes upper-case digits, the encoder writes lower-case ones. *)
Definition lower_hex (c : Z) : Z := if (ch "A" <=? c) && (c <=? ch "F") then c + 32 else c.

Lemma nibble_hexchar v : 0 <= v < 16 → nibble (hexchar v) = Ok v.
Proof.
  intros Hv. unfold nibble.
  assert (unhexchar (hexchar v) = v) as -> by (apply Z.eqb_eq; by_check1 v 16%nat).
  by replace (v <? 0) with false by lia.
Qed.

Lemma nibble_lower c : nibble (lower_hex c) = nibble c.
Proof.
  unfold lower_hex. destruct (_ && _) eqn:E; [|done].
  assert (Hc : 65 <= c <= 70) by (unfold ch in E; simpl in E; lia).
  unfold nibble. assert (unhexchar (c + 32) = unhexchar c) as ->; [|done].
  apply Z.eqb_eq. replace c with (c - 65 + 65) by lia. generalize (c - 65) (ltac:(lia) : 0 <= c - 65 < 6).
  intros k Hk. by_check1 k 6%nat.
Qed.

Lemma nibble_Ok c v : nibble c = Ok v → 0 <= v < 16 ∧ hexchar v = lower_hex c.
Proof.
  unfold nibble. destruct (unhexchar_range c) as [E|E]; [by rewrite E|].
  replace (unhexchar c <? 0) with false by lia. intros [= <-]. split; [done|].
  assert (Hc : 0 <= c < 256).
  { unfold unhexchar, ch, EINVAL in E. simpl Z.of_N in E. repeat case_match; lia. }
  apply Z.eqb_eq. revert E. cut ((unhexchar c <? 0) || (hexchar (unhexchar c) =? lower_hex c) = true).
  { destruct (unhexchar c <? 0) eqn:?; [lia|]. done. }
  by_check1 c 256%nat.
Qed.

Lemma dec16_lower x : dec16 (lower_hex <$> x) = dec16 x.
Proof.
  induction x as [|c0|c0 c1 x IH] using list_pair_ind; [done|..];
    rewrite !fmap_cons; cbn [dec16]; rewrite !nibble_lower; [done|]. by rewrite IH.
Qed.

Lemma dec16_hexmem b : bytes b → dec16 (hexmem b) = Ok b.
Proof.
  induction 1 as [|x b Hx _ IH]; [done|]. cbn [hexmem dec16].
  pose proof (byte_pieces x Hx). pose proof (byte_masks x Hx).
  rewrite !nibble_hexchar by lia. simpl. rewrite IH. simpl. by rewrite hex_byte.
Qed.

Lemma dec16_canonical x b : dec16 x = Ok b → bytes b ∧ lower_hex <$> x = hexmem b.
Proof.
  revert b. induction x as [|c0|c0 c1 x IH] using list_pair_ind; intros b; cbn [dec16].
  - intros [= <-]. split; [constructor|done].
  - intros (a & _ & ?)%res_bind_Ok. done.
  - intros (v0 & [H0 E0]%nibble_Ok & (v1 & [H1 E1]%nibble_Ok & (r & [Hr Er]%IH & [= <-])%res_bind_Ok)%res_bind_Ok)%res_bind_Ok.
    destruct (hex_nibbles v0 v1 H0 H1) as [E2 E3].
    split; [by constructor; [apply u8_byte|]|]. cbn [hexmem]. rewrite E2, E3, E0, E1, <- Er. done.
Qed.

(** *** base64 *)

Lemma no_padding_Ok v : 0 <= v < 64 → no_padding v = Ok v.
Proof. intros. unfold no_padding, INT_MAX. by replace (v =? 2 ^ 31 - 1) with false by lia. Qed.

Lemma sextet_pad : sextet (ch "=") = Ok INT_MAX.
Proof. done. Qed.

Lemma sextet_base64char v : 0 <= v < 64 → sextet (base64char v) = Ok v.
Proof.
  intros Hv. unfold sextet.
  assert ((base64char v =? ch "=") = false) as -> by (apply negb_true_iff; by_check1 v 64%nat).
  assert (unbase64char (base64char v) = v) as -> by (apply Z.eqb_eq; by_check1 v 64%nat).
  by replace (v <? 0) with false by lia.
Qed.

Lemma sextet_Ok c v :
  sextet c = Ok v → (c = ch "=" ∧ v = INT_MAX) ∨ (0 <= v < 64 ∧ base64char v = c).
Proof.
  unfold sextet. destruct (c =? ch "=") eqn:Ec; [intros [= <-]; left; lia|].
  destruct (unbase64char_range c) as [E|E]; [by rewrite E|].
  replace (unbase64char c <? 0) with false by lia. intros [= <-]. right. split; [done|].
  assert (Hc : 0 <= c < 256).
  { unfold unbase64char, ch, EINVAL in E. simpl Z.of_N in E. repeat case_match; lia. }
  apply Z.eqb_eq. cut ((unbase64char c <? 0) || (base64char (unbase64char c) =? c) = true).
  { destruct (unbase64char c <? 0) eqn:?; [lia|]. done. }
  by_check1 c 256%nat.
Qed.

Lemma sextet_no_padding c v :
  sextet c ≫= no_padding = Ok v → 0 <= v < 64 ∧ base64char v = c.
Proof.
  intros (w & [[-> ->]|Hw]%sextet_Ok & Hn)%res_bind_Ok; [done|].
  unfold no_padding in Hn. case_match; [done|]. by simplify_eq.
Qed.

(** Decoding what was encoded; [y] and [w] are bits of the neighbouring bytes. *)
Lemma byte64_0_enc x y : is_byte x → 0 <= y < 16 → byte64_0 (x >> 2) ((x .& 3) << 4 .| y) = x.
Proof. intros. apply Z.eqb_eq. by_check2 x y 256%nat 16%nat. Qed.
Lemma byte64_1_enc y x w : 0 <= y < 4 → is_byte x → 0 <= w < 4 →
  byte64_1 (y << 4 .| x >> 4) ((x .& 15) << 2 .| w) = x.
Proof. intros. apply Z.eqb_eq. by_check3 y x w 4%nat 256%nat 4%nat. Qed.
Lemma byte64_2_enc y x : 0 <= y < 16 → is_byte x → byte64_2 (y << 2 .| x >> 6) (x .& 63) = x.
Proof. intros. apply Z.eqb_eq. by_check2 y x 16%nat 256%nat. Qed.

Lemma enc64_ranges y z w : 0 <= y < 4 → 0 <= z < 16 → 0 <= w < 4 →
  0 <= y << 4 .| z < 64 ∧ 0 <= z << 2 .| w < 64 ∧ z << 2 .& 3 = 0 ∧ y << 4 .& 15 = 0.
Proof.
  intros. assert ((0 <=? y << 4 .| z) && (y << 4 .| z <? 64) && (0 <=? z << 2 .| w) &&
    (z << 2 .| w <? 64) && (z << 2 .& 3 =? 0) && (y << 4 .& 15 =? 0) = true)
    by by_check3 y z w 4%nat 16%nat 4%nat. lia.
Qed.

(** Encoding what was decoded. *)
Lemma byte64_0_dec a b : 0 <= a < 64 → 0 <= b < 64 →
  byte64_0 a b >> 2 = a ∧ byte64_0 a b .& 3 = b >> 4.
Proof. intros. split; apply Z.eqb_eq; by_check2 a b 64%nat 64%nat. Qed.
Lemma byte64_1_dec b c : 0 <= b < 64 → 0 <= c < 64 →
  byte64_1 b c >> 4 = b .& 15 ∧ byte64_1 b c .& 15 = c >> 2.
Proof. intros. split; apply Z.eqb_eq; by_check2 b c 64%nat 64%nat. Qed.
Lemma byte64_2_dec c d : 0 <= c < 64 → 0 <= d < 64 →
  byte64_2 c d >> 6 = c .& 3 ∧ byte64_2 c d .& 63 = d.
Proof. intros. split; apply Z.eqb_eq; by_check2 c d 64%nat 64%nat. Qed.
Lemma sextet_split b : 0 <= b < 64 → (b >> 4) << 4 .| b .& 15 = b ∧ (b >> 2) << 2 .| b .& 3 = b.
Proof. intros. split; apply Z.eqb_eq; by_check1 b 64%nat. Qed.

(** The encoding without line breaks. *)
Fixpoint enc64 (x : list Z) : list Z :=
  match x with
  | x0 :: x1 :: x2 :: x => base64_group x0 x1 x2 ++ enc64 x
  | [x0; x1] => base64_tail2 x0 x1
  | [x0] => base64_tail1 x0
  | [] => []
  end.

Lemma base64char_visible v : in_whitespace (base64char v) = false.
Proof.
  unfold base64char. assert (0 <= v .& 63 < 64).
  { change 63 with (Z.ones 6). rewrite Z.land_ones by lia. by apply Z.mod_pos_bound. }
  generalize dependent (v .& 63). intros k Hk. apply negb_true_iff. by_check1 k 64%nat.
Qed.

Lemma strip_put64 lb z c : in_whitespace c = false → strip (put64 lb z c) = strip z ++ [c].
Proof.
  intros Hc. unfold put64, maybe_line_break. rewrite strip_app, (strip_cons_keep c) by done.
  f_equal. repeat case_match; [done| |done]. rewrite strip_app. apply app_nil_r.
Qed.

Lemma strip_foldl_put64 lb z l :
  Forall (λ c, in_whitespace c = false) l → strip (foldl (put64 lb) z l) = strip z ++ l.
Proof.
  intros Hl. revert z. induction Hl as [|c l Hc _ IH]; intros z; simpl; [by rewrite app_nil_r|].
  rewrite IH, strip_put64, <- app_assoc by done. done.
Qed.

(** Line breaks aside, [base64mem_full] writes the reference encoding. *)
Lemma strip_base64mem_loop lb x z : strip (base64mem_loop lb x z) = strip z ++ enc64 x.
Proof.
  revert z. induction x as [|x0|x0 x1|x0 x1 x2 x IH] using list_triple_ind; intros z;
    cbn [base64mem_loop enc64].
  - by rewrite app_nil_r.
  - apply strip_foldl_put64. repeat constructor; apply base64char_visible || done.
  - apply strip_foldl_put64. repeat constructor; apply base64char_visible || done.
  - rewrite IH, strip_foldl_put64, <- app_assoc; [done|].
    repeat constructor; apply base64char_visible.
Qed.

Lemma dec64_enc64 b : bytes b → dec64 (enc64 b) = Ok b.
Proof.
  induction b as [|x0|x0 x1|x0 x1 x2 b IH] using list_triple_ind; intros Hb; [done|..].
  - inversion_clear Hb as [|?? H0 _]. pose proof (byte_pieces x0 H0). pose proof (byte_masks x0 H0).
    destruct (enc64_ranges (x0 .& 3) 0 0) as (R1 & _ & _ & R2); [lia..|]. rewrite Z.lor_0_r in R1.
    cbn [enc64 base64_tail1 dec64]. rewrite !sextet_base64char by lia. cbn [mbind res_bind].
    rewrite !no_padding_Ok by lia. cbn [mbind res_bind]. rewrite !sextet_pad. cbn [mbind res_bind].
    rewrite Z.eqb_refl, R2. simpl. do 2 f_equal.
    rewrite <- (Z.lor_0_r ((x0 .& 3) << 4)). apply byte64_0_enc; [done|lia].
  - inversion_clear Hb as [|?? H0 Hb']. inversion_clear Hb' as [|?? H1 _].
    pose proof (byte_pieces x0 H0). pose proof (byte_masks x0 H0).
    pose proof (byte_pieces x1 H1). pose proof (byte_masks x1 H1).
    destruct (enc64_ranges (x0 .& 3) (x1 >> 4) 0) as (R1 & _); [lia..|].
    destruct (enc64_ranges 0 (x1 .& 15) 0) as (_ & R2 & R3 & _); [lia..|]. rewrite Z.lor_0_r in R2.
    cbn [enc64 base64_tail2 dec64]. rewrite !sextet_base64char by lia. cbn [mbind res_bind].
    rewrite !no_padding_Ok by lia. cbn [mbind res_bind]. rewrite !sextet_pad. cbn [mbind res_bind].
    replace (_ =? INT_MAX) with false by (unfold INT_MAX; lia). rewrite Z.eqb_refl, R3. simpl.
    rewrite byte64_0_enc by (done || lia). do 3 f_equal.
    rewrite <- (Z.lor_0_r ((x1 .& 15) << 2)). apply byte64_1_enc; done || lia.
  - inversion_clear Hb as [|?? H0 Hb']. inversion_clear Hb' as [|?? H1 Hb''].
    inversion_clear Hb'' as [|?? H2 Hb].
    pose proof (byte_pieces x0 H0). pose proof (byte_masks x0 H0).
    pose proof (byte_pieces x1 H1). pose proof (byte_masks x1 H1).
    pose proof (byte_pieces x2 H2). pose proof (byte_masks x2 H2).
    destruct (enc64_ranges (x0 .& 3) (x1 >> 4) 0) as (R1 & _); [lia..|].
    destruct (enc64_ranges 0 (x1 .& 15) (x2 >> 6)) as (_ & R2 & _); [lia..|].
    cbn [enc64 base64_group dec64 app]. rewrite !sextet_base64char by lia. cbn [mbind res_bind].
    rewrite !no_padding_Ok by lia. cbn [mbind res_bind].
    do 2 replace (_ =? INT_MAX) with false by (unfold INT_MAX; lia).
    rewrite IH by done. cbn [mbind res_bind].
    by rewrite byte64_0_enc, byte64_1_enc, byte64_2_enc by (done || lia).
Qed.

(** Undo one bind of a successful decoder run. *)
Ltac res_step H :=
  let v := fresh "v" in let E := fresh "E" in
  apply res_bind_Ok in H as (v & E & H).

(** The decoder accepts only what the encoder writes: unused bits must be zero and
    padding must fit. *)
Lemma dec64_canonical x b : dec64 x = Ok b → bytes b ∧ x = enc64 b.
Proof.
  revert b. induction x as [x IH] using list_len_ind. intros b.
  destruct x as [|c0 [|c1 [|c2 [|c3 x]]]]; cbn [dec64]; intros H.
  { simplify_eq. by split; [constructor|]. }
  { by res_step H. } { by do 2 res_step H. } { by do 3 res_step H. }
  do 4 res_step H. apply sextet_no_padding in E as [R0 <-], E0 as [R1 <-].
  destruct (byte64_0_dec v v0) as [B0 B0']; [done..|]. destruct (sextet_split v0 R1) as [S1 _].
  apply sextet_Ok in E1 as [[-> ->]|[R2 <-]].
  - rewrite Z.eqb_refl in H. destruct (v2 =? INT_MAX) eqn:Ev2; [|done]. simpl in H.
    destruct (v0 .& 15 =? 0) eqn:Eb; [|done]. simpl in H.
    destruct (bool_decide (x = [])) eqn:Ex; [|done]. apply bool_decide_eq_true in Ex. simplify_eq/=.
    split; [by constructor; [apply u8_byte|constructor]|].
    apply sextet_Ok in E2 as [[-> _]|[? _]]; [|unfold INT_MAX in *; lia].
    unfold base64_tail1. rewrite B0, B0'. rewrite <- S1 at 1. apply Z.eqb_eq in Eb.
    by rewrite Eb, Z.lor_0_r.
  - replace (v1 =? INT_MAX) with false in H by (unfold INT_MAX; lia).
    destruct (byte64_1_dec v0 v1) as [B1 B1']; [done..|]. destruct (sextet_split v1 R2) as [_ S2].
    apply sextet_Ok in E2 as [[-> ->]|[R3 <-]].
    + rewrite Z.eqb_refl in H. destruct (v1 .& 3 =? 0) eqn:Eb; [|done]. simpl in H.
      destruct (bool_decide (x = [])) eqn:Ex; [|done]. apply bool_decide_eq_true in Ex. simplify_eq/=.
      split; [by repeat (constructor; [apply u8_byte|]); constructor|].
      apply Z.eqb_eq in Eb. unfold base64_tail2. rewrite B0, B0', B1, S1, B1'.
      rewrite <- S2 at 1. by rewrite Eb, Z.lor_0_r.
    + replace (v2 =? INT_MAX) with false in H by (unfold INT_MAX; lia).
      res_step H. apply IH in E as [Hr ->]; [|simpl; lia]. simplify_eq.
      destruct (byte64_2_dec v1 v2) as [B2 B2']; [done..|].
      split; [by repeat (constructor; [apply u8_byte|])|].
      cbn [enc64 base64_group app]. by rewrite B0, B0', B1, B1', B2, B2', S1, S2.
Qed.

(** *** base32hex *)

Lemma un32_char v : 0 <= v < 32 → un32 (base32hexchar v) = Ok v.
Proof.
  intros Hv. unfold un32.
  assert (unbase32hexchar (base32hexchar v) = v) as -> by (apply Z.eqb_eq; by_check1 v 32%nat).
  by replace (v <? 0) with false by lia.
Qed.

Lemma un32_Ok c v : un32 c = Ok v → 0 <= v < 32 ∧ base32hexchar v = c.
Proof.
  unfold un32. destruct (unbase32hexchar c <? 0) eqn:E; [done|]. intros [= <-].
  assert (Hc : 0 <= c < 256).
  { unfold unbase32hexchar, ch, EINVAL in E. simpl Z.of_N in E. repeat case_match; lia. }
  cut ((unbase32hexchar c <? 0) || ((unbase32hexchar c <? 32) &&
         (base32hexchar (unbase32hexchar c) =? c)) = true); [lia|].
  by_check1 c 256%nat.
Qed.

(** Decoding what was encoded; [y] and [w] are bits of the neighbouring bytes. *)
Lemma byte32_0_enc x y : is_byte x → 0 <= y < 4 → byte32_0 (x >> 3) ((x .& 7) << 2 .| y) = x.
Proof. intros. apply Z.eqb_eq. by_check2 x y 256%nat 4%nat. Qed.
Lemma byte32_1_enc y x w : 0 <= y < 8 → is_byte x → 0 <= w < 16 →
  byte32_1 (y << 2 .| x >> 6) ((x .& 63) >> 1) ((x .& 1) << 4 .| w) = x.
Proof. intros. apply Z.eqb_eq. by_check3 y x w 8%nat 256%nat 16%nat. Qed.
Lemma byte32_2_enc y x w : 0 <= y < 2 → is_byte x → 0 <= w < 2 →
  byte32_2 (y << 4 .| x >> 4) ((x .& 15) << 1 .| w) = x.
Proof. intros. apply Z.eqb_eq. by_check3 y x w 2%nat 256%nat 2%nat. Qed.
Lemma byte32_3_enc y x w : 0 <= y < 16 → is_byte x → 0 <= w < 8 →
  byte32_3 (y << 1 .| x >> 7) ((x .& 127) >> 2) ((x .& 3) << 3 .| w) = x.
Proof. intros. apply Z.eqb_eq. by_check3 y x w 16%nat 256%nat 8%nat. Qed.
Lemma byte32_4_enc y x : 0 <= y < 4 → is_byte x → byte32_4 (y << 3 .| x >> 5) (x .& 31) = x.
Proof. intros. apply Z.eqb_eq. by_check2 y x 4%nat 256%nat. Qed.

Ltac range_check2 x y n m := lazymatch goal with |- 0 <= ?e < ?k =>
  cut ((0 <=? e) && (e <? k) = true); [lia | by_check2 x y n m] end.

(** Quintets, and the zero bits the decoder checks at the end of the input. *)
Lemma quintet_2 y w : 0 <= y < 8 → 0 <= w < 4 → 0 <= y << 2 .| w < 32.
Proof. intros. range_check2 y w 8%nat 4%nat. Qed.
Lemma quintet_4 y w : 0 <= y < 2 → 0 <= w < 16 → 0 <= y << 4 .| w < 32.
Proof. intros. range_check2 y w 2%nat 16%nat. Qed.
Lemma quintet_1 y w : 0 <= y < 16 → 0 <= w < 2 → 0 <= y << 1 .| w < 32.
Proof. intros. range_check2 y w 16%nat 2%nat. Qed.
Lemma quintet_3 y w : 0 <= y < 4 → 0 <= w < 8 → 0 <= y << 3 .| w < 32.
Proof. intros. range_check2 y w 4%nat 8%nat. Qed.
Lemma quintet_mid x : is_byte x → 0 <= (x .& 63) >> 1 < 32 ∧ 0 <= (x .& 127) >> 2 < 32.
Proof.
  intros. cut ((0 <=? (x .& 63) >> 1) && ((x .& 63) >> 1 <? 32) &&
    (0 <=? (x .& 127) >> 2) && ((x .& 127) >> 2 <? 32) = true); [lia|]. by_check1 x 256%nat.
Qed.
(** The last quintet of a short group: its unused bits are zero. *)
Lemma tail_2 y : 0 <= y < 8 → 0 <= y << 2 < 32 ∧ (y << 2) .& 3 = 0.
Proof.
  intros. cut ((0 <=? y << 2) && (y << 2 <? 32) && ((y << 2) .& 3 =? 0) = true); [lia|].
  by_check1 y 8%nat.
Qed.
Lemma tail_4 y : 0 <= y < 2 → 0 <= y << 4 < 32 ∧ (y << 4) .& 15 = 0.
Proof.
  intros. cut ((0 <=? y << 4) && (y << 4 <? 32) && ((y << 4) .& 15 =? 0) = true); [lia|].
  by_check1 y 2%nat.
Qed.
Lemma tail_1 y : 0 <= y < 16 → 0 <= y << 1 < 32 ∧ (y << 1) .& 1 = 0.
Proof.
  intros. cut ((0 <=? y << 1) && (y << 1 <? 32) && ((y << 1) .& 1 =? 0) = true); [lia|].
  by_check1 y 16%nat.
Qed.
Lemma tail_3 y : 0 <= y < 4 → 0 <= y << 3 < 32 ∧ (y << 3) .& 7 = 0.
Proof.
  intros. cut ((0 <=? y << 3) && (y << 3 <? 32) && ((y << 3) .& 7 =? 0) = true); [lia|].
  by_check1 y 4%nat.
Qed.

(** Encoding what was decoded. *)
Lemma byte32_0_dec a b : 0 <= a < 32 → 0 <= b < 32 →
  byte32_0 a b >> 3 = a ∧ byte32_0 a b .& 7 = b >> 2.
Proof. intros. split; apply Z.eqb_eq; by_check2 a b 32%nat 32%nat. Qed.
Lemma byte32_1_dec b c d : 0 <= b < 32 → 0 <= c < 32 → 0 <= d < 32 →
  byte32_1 b c d >> 6 = b .& 3 ∧ (byte32_1 b c d .& 63) >> 1 = c ∧ byte32_1 b c d .& 1 = d >> 4.
Proof. intros. split_and!; apply Z.eqb_eq; by_check3 b c d 32%nat 32%nat 32%nat. Qed.
Lemma byte32_2_dec d e : 0 <= d < 32 → 0 <= e < 32 →
  byte32_2 d e >> 4 = d .& 15 ∧ byte32_2 d e .& 15 = e >> 1.
Proof. intros. split; apply Z.eqb_eq; by_check2 d e 32%nat 32%nat. Qed.
Lemma byte32_3_dec e f g : 0 <= e < 32 → 0 <= f < 32 → 0 <= g < 32 →
  byte32_3 e f g >> 7 = e .& 1 ∧ (byte32_3 e f g .& 127) >> 2 = f ∧ byte32_3 e f g .& 3 = g >> 3.
Proof. intros. split_and!; apply Z.eqb_eq; by_check3 e f g 32%nat 32%nat 32%nat. Qed.
Lemma byte32_4_dec g h : 0 <= g < 32 → 0 <= h < 32 →
  byte32_4 g h >> 5 = g .& 7 ∧ byte32_4 g h .& 31 = h.
Proof. intros. split; apply Z.eqb_eq; by_check2 g h 32%nat 32%nat. Qed.
Lemma quintet_split v : 0 <= v < 32 →
  (v >> 2) << 2 .| v .& 3 = v ∧ (v >> 4) << 4 .| v .& 15 = v ∧
  (v >> 1) << 1 .| v .& 1 = v ∧ (v >> 3) << 3 .| v .& 7 = v.
Proof. intros. split_and!; apply Z.eqb_eq; by_check1 v 32%nat. Qed.


(** ** Sizes of the buffers *)

Lemma base64mem_loop_plain x z : base64mem_loop SIZE_MAX x z = z ++ enc64 x.
Proof.
  revert z. induction x as [|x0|x0 x1|x0 x1 x2 x IH] using list_triple_ind; intros z;
    cbn [base64mem_loop enc64 base64_group base64_tail2 base64_tail1 foldl];
    unfold put64, maybe_line_break; rewrite ?Z.eqb_refl, ?IH, <- ?app_assoc, ?app_nil_r; done.
Qed.

Lemma len_enc64 x : len (enc64 x) = 4 * ((len x + 2) / 3).
Proof.
  induction x as [|x0|x0 x1|x0 x1 x2 x IH] using list_triple_ind; [done..|].
  cbn [enc64]. rewrite len_app, IH. unfold len; simpl length. rewrite !Nat2Z.inj_succ.
  Z.div_mod_to_equations. lia.
Qed.

(** The length of the output after [k] characters with a break every [lb]. *)
Definition broken_len (lb k : Z) : Z := if k =? 0 then 0 else k + (k - 1) / lb.

Lemma len_put64 lb z c k :
  0 < lb → lb ≠ SIZE_MAX → 0 <= k → len z = broken_len lb k →
  len (put64 lb z c) = broken_len lb (k + 1).
Proof.
  intros Hlb Hmax Hk Hz. unfold put64, maybe_line_break, broken_len in *. rewrite len_app.
  replace (lb =? SIZE_MAX) with false by lia. replace (k + 1 =? 0) with false by lia.
  replace (k + 1 - 1) with k by lia. rewrite len_cons, len_nil.
  destruct (k =? 0) eqn:Ek.
  { assert (k = 0) as -> by lia. rewrite Hz, Z.mod_0_l, Z.div_0_l by lia.
    replace (0 =? lb) with false by lia. lia. }
  pose proof (Z.div_mod (k - 1) lb ltac:(lia)) as Hd.
  pose proof (Z.mod_pos_bound (k - 1) lb Hlb) as Hm.
  set (q := (k - 1) / lb) in *. set (r := (k - 1) mod lb) in *.
  assert (Hmod : len z mod (lb + 1) = r + 1).
  { rewrite Hz. replace (k + q) with (r + 1 + q * (lb + 1)) by lia.
    rewrite Z.mod_add by lia. apply Z.mod_small. lia. }
  rewrite Hmod. destruct (r + 1 =? lb) eqn:Er.
  - rewrite len_app, len_cons, len_nil.
    assert (k / lb = q + 1) as -> by (symmetry; apply (Z.div_unique_pos _ _ _ 0); lia). lia.
  - assert (k / lb = q) as -> by (symmetry; apply (Z.div_unique_pos _ _ _ (r + 1)); lia). lia.
Qed.

Lemma len_foldl_put64 lb l z k :
  0 < lb → lb ≠ SIZE_MAX → 0 <= k → len z = broken_len lb k →
  len (foldl (put64 lb) z l) = broken_len lb (k + len l).
Proof.
  intros Hlb Hmax. revert z k. induction l as [|c l IH]; intros z k Hk Hz; simpl.
  - by rewrite len_nil, Z.add_0_r.
  - rewrite (IH _ (k + 1)) by (lia || by apply len_put64). f_equal. rewrite len_cons. lia.
Qed.

Lemma len_base64mem_loop lb x z k :
  0 < lb → lb ≠ SIZE_MAX → 0 <= k → len z = broken_len lb k →
  len (base64mem_loop lb x z) = broken_len lb (k + len (enc64 x)).
Proof.
  intros Hlb Hmax. revert z k.
  induction x as [|x0|x0 x1|x0 x1 x2 x IH] using list_triple_ind; intros z k Hk Hz;
    cbn [base64mem_loop enc64]; [by rewrite Z.add_0_r|by apply len_foldl_put64..|].
  rewrite (IH _ (k + len (base64_group x0 x1 x2))), len_app.
  - f_equal. lia.
  - pose proof (len_nonneg (base64_group x0 x1 x2)). lia.
  - by apply len_foldl_put64.
Qed.

Lemma dec64_len x b : dec64 x = Ok b → len b <= unbase64mem_len (len x) ∧ len x mod 4 = 0.
Proof.
  intros [_ ->]%dec64_canonical. rewrite len_enc64. unfold unbase64mem_len.
  rewrite (Z.mul_comm 4), Z.mod_mul, Z.div_mul by lia. simpl.
  pose proof (len_nonneg b). split; [|done]. Z.div_mod_to_equations. lia.
Qed.

Lemma strip_len x : len (strip x) <= len x.
Proof.
  unfold len, strip. pose proof (length_filter (λ c, in_whitespace c = false) x). lia.
Qed.

Lemma hexmem_len b : len (hexmem b) = 2 * len b.
Proof. induction b as [|x b IH]; [done|]. cbn [hexmem]. rewrite !len_cons, IH. lia. Qed.

(** ** Properties *)

(** [unbase64mem_full] succeeds exactly on the strings that, whitespace aside, are
    what [base64mem_full] writes without line breaks, and returns the encoded block.
    In particular unused bits and misplaced padding are refused. *)
Theorem unbase64mem_iff (p b : list Z) :
  unbase64mem_full p true = Some (Ok b) ↔
  bytes b ∧ base64mem_full b SIZE_MAX true = Ok (strip p).
Proof.
  unfold unbase64mem_full, base64mem_full.
  rewrite unbase64mem_loop_dec64, base64mem_loop_plain by lia. split.
  - destruct (dec64 (strip p)) as [r|] eqn:E; [|done]. intros [= <-].
    apply dec64_canonical in E as [Hb Hp]. split; [done|]. by rewrite Hp.
  - intros [Hb [= Hs]]. simpl in Hs. by rewrite <- Hs, dec64_enc64.
Qed.

(** Whatever the line length, a block encoded with line breaks decodes to itself:
    [unbase64mem_full] inverts [base64mem_full]. *)
Theorem base64_roundtrip (b : list Z) (line_break : Z) :
  bytes b → ∃ s, base64mem_full b line_break true = Ok s ∧ unbase64mem_full s true = Some (Ok b).
Proof.
  intros Hb. eexists. split; [done|]. unfold unbase64mem_full.
  rewrite unbase64mem_loop_dec64, strip_base64mem_loop by lia. simpl. by rewrite dec64_enc64.
Qed.

(** The buffers [base64mem_full] and [unbase64mem_full] allocate are large enough
    for what they write, the NUL included, for blocks below 2^59 bytes. *)
Theorem base64_buffers (p : list Z) (line_break : Z) :
  len p < 2 ^ 59 → 0 < line_break <= SIZE_MAX →
  (∀ s, base64mem_full p line_break true = Ok s → len s + 1 <= base64mem_alloc (len p) line_break) ∧
  (∀ b, unbase64mem_full p true = Some (Ok b) → len b + 1 <= unbase64mem_len (len p) + 1).
Proof.
  intros Hp Hlb. pose proof (len_nonneg p) as Hp0. split.
  - intros s [= <-]. unfold base64mem_alloc.
    rewrite (u64_small (len p + 2)), (u64_small (4 * _)) by lia.
    assert (Hm : 0 <= 4 * (len p + 2) / 3 < 2 ^ 62) by (Z.div_mod_to_equations; lia).
    rewrite (u64_small (_ / 3 + 1)) by lia.
    assert (Hn : 4 * ((len p + 2) / 3) <= 4 * (len p + 2) / 3)
      by (apply Z.div_le_lower_bound; Z.div_mod_to_equations; lia).
    destruct (line_break =? SIZE_MAX) eqn:E.
    + assert (line_break = SIZE_MAX) as -> by lia.
      rewrite base64mem_loop_plain. simpl. rewrite len_enc64. lia.
    + rewrite (len_base64mem_loop _ _ _ 0), Z.add_0_l, len_enc64 by (done || lia).
      set (n := 4 * ((len p + 2) / 3)) in *. set (m := 4 * (len p + 2) / 3) in *.
      assert (0 <= n) by (unfold n; Z.div_mod_to_equations; lia).
      assert (0 <= (m + 1) / line_break <= m + 1)
        by (split; [apply Z.div_pos; lia|apply Z.div_le_upper_bound; nia]).
      rewrite u64_small by lia. unfold broken_len. destruct (n =? 0); [lia|].
      assert ((n - 1) / line_break <= (m + 1) / line_break) by (apply Z.div_le_mono; lia). lia.
  - intros b. unfold unbase64mem_full. rewrite unbase64mem_loop_dec64 by lia. intros H.
    destruct (dec64 (strip p)) as [r|] eqn:E; [|done]. simplify_eq/=.
    apply dec64_len in E as [E1 E2]. pose proof (strip_len p).
    unfold unbase64mem_len in *. rewrite E2 in E1. simpl in E1.
    destruct (len p mod 4 =? 0) eqn:Em; Z.div_mod_to_equations; lia.
Qed.

(** [unhexmem_full] succeeds exactly on the strings that, whitespace and the case
    of digits aside, are what [hexmem] writes, returns the encoded block and stays
    within the buffer it allocated. *)
Theorem unhexmem_iff (p b : list Z) :
  len p < 2 ^ 62 →
  unhexmem_full p true = Some (Ok b) ↔
  bytes b ∧ hexmem b = lower_hex <$> strip p ∧ len b + 1 <= unhexmem_buf_size (len p).
Proof.
  intros Hp. unfold unhexmem_full. rewrite unhexmem_loop_dec16 by lia. split.
  - destruct (dec16 (strip p)) as [r|] eqn:E; [|done]. intros [= <-].
    apply dec16_canonical in E as [Hb Hs]. split_and!; [done..|].
    apply (f_equal len) in Hs. rewrite len_fmap, hexmem_len in Hs.
    pose proof (strip_len p). pose proof (len_nonneg p). simpl. unfold unhexmem_buf_size.
    rewrite (u64_small (len p + 1)) by lia.
    rewrite u64_small; Z.div_mod_to_equations; lia.
  - intros (Hb & Hs & _). rewrite <- dec16_lower, <- Hs, dec16_hexmem; done.
Qed.

(** The decoders always come back: with a result, or one of the documented errors
    (-EINVAL for a character or padding that cannot be there, -EPIPE for a string that
    ends inside a group, -ENAMETOOLONG for text after the padding, -ENOMEM). *)
Theorem decoders_total (p : list Z) (alloc_ok : bool) :
  (∃ r, unhexmem_full p alloc_ok = Some r ∧
     ∀ e, r = Err e → e ∈ [-ENOMEM; -EINVAL; -EPIPE]) ∧
  (∃ r, unbase64mem_full p alloc_ok = Some r ∧
     ∀ e, r = Err e → e ∈ [-ENOMEM; -EINVAL; -EPIPE; -ENAMETOOLONG]).
Proof.
  assert (Hn : ∀ c e, nibble c = Err e → e = -EINVAL).
  { intros c e. unfold nibble. destruct (unhexchar_range c) as [->|E].
    - intros [= <-]. done.
    - by replace (unhexchar c <? 0) with false by lia. }
  assert (Hs : ∀ c e, sextet c = Err e → e = -EINVAL).
  { intros c e. unfold sextet. destruct (c =? ch "="); [done|].
    destruct (unbase64char_range c) as [->|E]; [intros [= <-]; done|].
    by replace (unbase64char c <? 0) with false by lia. }
  split; destruct alloc_ok; try (eexists; split; [done|]; intros e [= <-]; set_solver).
  - unfold unhexmem_full. rewrite unhexmem_loop_dec16 by lia. eexists; split; [done|]. intros e.
    induction (strip p) as [|c0|c0 c1 x IH] using list_pair_ind; cbn [dec16]; [done|..].
    + destruct (nibble c0) eqn:E; intros [= <-]; [|apply Hn in E as ->]; set_solver.
    + destruct (nibble c0) eqn:E; [|intros [= <-]; apply Hn in E as ->; set_solver]. simpl.
      destruct (nibble c1) eqn:E'; [|intros [= <-]; apply Hn in E' as ->; set_solver]. simpl.
      destruct (dec16 x); [done|]. intros [= ->]. by apply IH.
  - unfold unbase64mem_full. rewrite unbase64mem_loop_dec64 by lia. eexists; split; [done|].
    assert (Hd : ∀ c e, sextet c ≫= no_padding = Err e → e = -EINVAL).
    { intros c e. destruct (sextet c) eqn:E; simpl; [|intros [= <-]; eauto].
      unfold no_padding. case_match; [intros [= <-]; done|done]. }
    induction (strip p) as [x IH] using list_len_ind. intros e.
    destruct x as [|c0 [|c1 [|c2 [|c3 x]]]]; cbn [dec64]; [done|..].
    all: destruct (sextet c0 ≫= no_padding) eqn:E0; [|intros [= <-]; apply Hd in E0 as ->; set_solver].
    { intros [= <-]. set_solver. }
    all: cbn [mbind res_bind].
    all: destruct (sextet c1 ≫= no_padding) eqn:E1; [|intros [= <-]; apply Hd in E1 as ->; set_solver].
    { intros [= <-]. set_solver. }
    all: cbn [mbind res_bind].
    all: destruct (sextet c2) eqn:E2; [|intros [= <-]; apply Hs in E2 as ->; set_solver].
    { intros [= <-]. set_solver. }
    cbn [mbind res_bind].
    destruct (sextet c3) eqn:E3; [|intros [= <-]; apply Hs in E3 as ->; set_solver].
    cbn [mbind res_bind].
    repeat case_match; try done; try (intros [= <-]; set_solver).
    specialize (IH x ltac:(simpl; lia)). destruct (dec64 x); [done|]. simpl in *.
    intros [= ->]. by apply IH.
Qed.

Lemma base64_roundtrip_witness :
  bytes (str "systemd") ∧ unbase64mem_full (str "c3lz" ++ [10] ++ str "dGVt" ++ [10] ++ str "ZA==") true
    = Some (Ok (str "systemd")).
Proof.
  assert (Hb : bytes (str "systemd")) by by_decide.
  split; [exact Hb|]. destruct (base64_roundtrip (str "systemd") 4 Hb) as (s & Hs & Hd).
  vm_compute in Hs. injection Hs as <-. exact Hd.
Defined.

Lemma base64_buffers_witness :
  len (str "systemd") < 2 ^ 59 ∧
  len (str "c3lzdGVtZA==") + 1 <= base64mem_alloc (len (str "systemd")) SIZE_MAX.
Proof.
  split; [done|]. destruct (base64_buffers (str "systemd") SIZE_MAX) as [H _]; [done..|].
  by apply H.
Defined.

Lemma unhexmem_iff_witness :
  unhexmem_full (str "0a FF") true = Some (Ok [10; 255]) ∧
  hexmem [10; 255] = lower_hex <$> strip (str "0a FF").
Proof.
  split; [reflexivity|].
  by apply (proj1 (unhexmem_iff (str "0a FF") [10; 255] ltac:(done)) ltac:(reflexivity)).
Defined.
