(* ===== verification/Base32hex.v ===== *)
(** * base32hex: the decoder and the encoder are inverse

    Proofs about [base32hexmem] and [unbase32hexmem] of src/basic/hexdecoct.c,
    modelled in Hexdecoct. *)

From S2P Require Import Prelude Hexdecoct.

(** The bounds of a byte's pieces, in the context. *)
Ltac pieces x := match goal with H : is_byte x |- _ =>
  pose proof (byte_pieces x H); pose proof (byte_masks x H); pose proof (quintet_mid x H) end.

(** Discharge the range of a quintet. *)
Ltac quintet := first [done | lia | apply quintet_2; lia | apply quintet_4; lia |
  apply quintet_1; lia | apply quintet_3; lia | apply tail_2; lia | apply tail_4; lia |
  apply tail_1; lia | apply tail_3; lia].

(** The bytes of a short group: the last quintet carries no neighbour's bits. *)
Lemma byte32_0_short x : is_byte x → byte32_0 (x >> 3) ((x .& 7) << 2) = x.
Proof. intros. apply Z.eqb_eq. by_check1 x 256%nat. Qed.
Lemma byte32_1_short y x : 0 <= y < 8 → is_byte x →
  byte32_1 (y << 2 .| x >> 6) ((x .& 63) >> 1) ((x .& 1) << 4) = x.
Proof. intros. apply Z.eqb_eq. by_check2 y x 8%nat 256%nat. Qed.
Lemma byte32_2_short y x : 0 <= y < 2 → is_byte x →
  byte32_2 (y << 4 .| x >> 4) ((x .& 15) << 1) = x.
Proof. intros. apply Z.eqb_eq. by_check2 y x 2%nat 256%nat. Qed.
Lemma byte32_3_short y x : 0 <= y < 16 → is_byte x →
  byte32_3 (y << 1 .| x >> 7) ((x .& 127) >> 2) ((x .& 3) << 3) = x.
Proof. intros. apply Z.eqb_eq. by_check2 y x 16%nat 256%nat. Qed.

(** Split a list of bytes into its bytes. *)
Ltac split_bytes := repeat match goal with
  | H : bytes (?x :: _) |- _ => inversion_clear H as [|?? ? ?]; pieces x
  | H : Forall is_byte (?x :: _) |- _ => inversion_clear H as [|?? ? ?]; pieces x end.

Lemma unbase32_groups_enc b : bytes b → unbase32hexmem_groups (base32hexmem b false) = Ok b.
Proof.
  induction b as [b IH] using list_len_ind. intros Hb.
  destruct b as [|x0 [|x1 [|x2 [|x3 [|x4 b]]]]]; [done|..]; split_bytes;
    cbn [base32hexmem unbase32hexmem_groups app pad32];
    rewrite !un32_char by quintet; cbn [mbind res_bind].
  - destruct (tail_2 (x0 .& 7)) as [_ ->]; [lia|]. by rewrite byte32_0_short.
  - destruct (tail_4 (x1 .& 1)) as [_ ->]; [lia|].
    by rewrite byte32_0_enc, byte32_1_short by quintet.
  - destruct (tail_1 (x2 .& 15)) as [_ ->]; [lia|].
    by rewrite byte32_0_enc, byte32_1_enc, byte32_2_short by quintet.
  - destruct (tail_3 (x3 .& 3)) as [_ ->]; [lia|].
    by rewrite byte32_0_enc, byte32_1_enc, byte32_2_enc, byte32_3_short by quintet.
  - rewrite IH by (done || simpl; lia). cbn [mbind res_bind].
    by rewrite byte32_0_enc, byte32_1_enc, byte32_2_enc, byte32_3_enc, byte32_4_enc by quintet.
Qed.

(** Encoding what was decoded: a quintet spread over two bytes is joined again. *)
Section Join.
Context (a b c d e f g h : Z).
Context (Ha : 0 <= a < 32) (Hb : 0 <= b < 32) (Hc : 0 <= c < 32) (Hd : 0 <= d < 32)
  (He : 0 <= e < 32) (Hf : 0 <= f < 32) (Hg : 0 <= g < 32) (Hh : 0 <= h < 32).

Lemma join_b : (byte32_0 a b .& 7) << 2 .| byte32_1 b c d >> 6 = b.
Proof.
  destruct (byte32_0_dec a b Ha Hb) as [_ ->], (byte32_1_dec b c d Hb Hc Hd) as [-> _].
  by apply quintet_split.
Qed.
Lemma join_d : (byte32_1 b c d .& 1) << 4 .| byte32_2 d e >> 4 = d.
Proof.
  destruct (byte32_1_dec b c d Hb Hc Hd) as (_ & _ & ->), (byte32_2_dec d e Hd He) as [-> _].
  by apply quintet_split.
Qed.
Lemma join_e : (byte32_2 d e .& 15) << 1 .| byte32_3 e f g >> 7 = e.
Proof.
  destruct (byte32_2_dec d e Hd He) as [_ ->], (byte32_3_dec e f g He Hf Hg) as [-> _].
  by apply quintet_split.
Qed.
Lemma join_g : (byte32_3 e f g .& 3) << 3 .| byte32_4 g h >> 5 = g.
Proof.
  destruct (byte32_3_dec e f g He Hf Hg) as (_ & _ & ->), (byte32_4_dec g h Hg Hh) as [-> _].
  by apply quintet_split.
Qed.

Lemma join_b_tail : b .& 3 = 0 → (byte32_0 a b .& 7) << 2 = b.
Proof.
  intros E. destruct (byte32_0_dec a b Ha Hb) as [_ ->].
  rewrite <- (Z.lor_0_r (_ << _)), <- E. by apply quintet_split.
Qed.
Lemma join_d_tail : d .& 15 = 0 → (byte32_1 b c d .& 1) << 4 = d.
Proof.
  intros E. destruct (byte32_1_dec b c d Hb Hc Hd) as (_ & _ & ->).
  rewrite <- (Z.lor_0_r (_ << _)), <- E. by apply quintet_split.
Qed.
Lemma join_e_tail : e .& 1 = 0 → (byte32_2 d e .& 15) << 1 = e.
Proof.
  intros E. destruct (byte32_2_dec d e Hd He) as [_ ->].
  rewrite <- (Z.lor_0_r (_ << _)), <- E. by apply quintet_split.
Qed.
Lemma join_g_tail : g .& 7 = 0 → (byte32_3 e f g .& 3) << 3 = g.
Proof.
  intros E. destruct (byte32_3_dec e f g He Hf Hg) as (_ & _ & ->).
  rewrite <- (Z.lor_0_r (_ << _)), <- E. by apply quintet_split.
Qed.

(** The quintets within one byte. *)
Lemma whole_a : byte32_0 a b >> 3 = a.
Proof. by apply byte32_0_dec. Qed.
Lemma whole_c : (byte32_1 b c d .& 63) >> 1 = c.
Proof. by apply byte32_1_dec. Qed.
Lemma whole_f : (byte32_3 e f g .& 127) >> 2 = f.
Proof. by apply byte32_3_dec. Qed.
Lemma whole_h : byte32_4 g h .& 31 = h.
Proof. by apply byte32_4_dec. Qed.
End Join.

Ltac rejoin := rewrite ?whole_a, ?whole_c, ?whole_f, ?whole_h, ?join_b, ?join_d, ?join_e, ?join_g,
  ?join_b_tail, ?join_d_tail, ?join_e_tail, ?join_g_tail by done.

Lemma unbase32_groups_canonical x b :
  unbase32hexmem_groups x = Ok b → bytes b ∧ x = base32hexmem b false.
Proof.
  revert b. induction x as [x IH] using list_len_ind. intros b.
  assert (Hbytes : ∀ z l, bytes l → bytes (u8 z :: l)) by (intros; constructor; [apply u8_byte|done]).
  assert (Hz : ∀ v m (l : list Z), (if v .& m =? 0 then Ok l else Err (-EINVAL)) = Ok b →
                 v .& m = 0 ∧ l = b).
  { intros v m l. destruct (v .& m =? 0) eqn:E; [|done]. intros [= ->]. split; [lia|done]. }
  destruct x as [|x0 [|x1 [|x2 [|x3 [|x4 [|x5 [|x6 [|x7 x]]]]]]]];
    cbn [unbase32hexmem_groups]; intros H; repeat (res_step H; []); try done;
    repeat match goal with E : un32 _ = Ok _ |- _ => apply un32_Ok in E as [? <-] end.
  { simplify_eq. by split; [constructor|]. }
  5:{ apply IH in E7 as [Hr ->]; [|simpl; lia]. simplify_eq.
      split; [by repeat apply Hbytes|]. cbn [base32hexmem app]. by rejoin. }
  all: apply Hz in H as [Hz0 <-]; split; [by repeat apply Hbytes; constructor|];
    cbn [base32hexmem app pad32]; by rejoin.
Qed.

(** ** Padding *)

Lemma strip_padding_prefix n r :
  ∃ k, (k <= n)%nat ∧ r = replicate k (ch "=") ++ strip_padding n r.
Proof.
  revert r. induction n as [|n IH]; intros r; [by exists 0%nat|].
  destruct r as [|c r]; [exists 0%nat; split; [lia|done]|]. simpl.
  destruct (c =? ch "=") eqn:E; [|exists 0%nat; split; [lia|done]].
  destruct (IH r) as (k & Hk & Hr). exists (S k). split; [lia|].
  simpl. rewrite <- Hr. f_equal. lia.
Qed.

Lemma strip_padding_replicate n k r :
  (k <= n)%nat → head r ≠ Some (ch "=") → strip_padding n (replicate k (ch "=") ++ r) = r.
Proof.
  revert k. induction n as [|n IH]; intros [|k] Hk Hr; simpl; try done; [lia|..].
  - destruct r as [|c r]; [done|]. destruct (c =? ch "=") eqn:E; [|done].
    exfalso. apply Hr. simpl. f_equal. lia.
  - apply IH; [lia|done].
Qed.

(** How many padding characters end the encoding of a block. *)
Definition pad_count (l : Z) : nat :=
  Z.to_nat (match l mod 5 with 1 => 6 | 2 => 4 | 3 => 3 | 4 => 1 | _ => 0 end).

Lemma base32hexchar_not_pad v : base32hexchar v ≠ ch "=".
Proof.
  unfold base32hexchar. assert (0 <= v .& 31 < 32).
  { change 31 with (Z.ones 5). rewrite Z.land_ones by lia. by apply Z.mod_pos_bound. }
  generalize dependent (v .& 31). intros k Hk. apply Z.eqb_neq, negb_true_iff. by_check1 k 32%nat.
Qed.

(** The padded encoding is the plain one and the padding; the plain one ends in a digit. *)
Lemma base32hexmem_padded b :
  base32hexmem b true = base32hexmem b false ++ replicate (pad_count (len b)) (ch "=") ∧
  list.last (base32hexmem b false) ≠ Some (ch "=") ∧
  len (base32hexmem b false) = 8 * (len b / 5) + nth (Z.to_nat (len b mod 5)) [0; 2; 4; 5; 7] 0.
Proof.
  induction b as [b IH] using list_len_ind.
  destruct b as [|x0 [|x1 [|x2 [|x3 [|x4 b]]]]];
    try (split_and!; [done| |done]; cbn; intros [= E]; by eapply base32hexchar_not_pad).
  destruct (IH b) as (E1 & E2 & E3); [simpl; lia|].
  assert (El : len (x0 :: x1 :: x2 :: x3 :: x4 :: b) = len b + 1 * 5) by (unfold len; simpl; lia).
  rewrite El. cbn [base32hexmem]. split_and!.
  - rewrite E1. unfold pad_count. rewrite Z.mod_add, <- app_assoc by lia. done.
  - rewrite last_app. destruct (list.last (base32hexmem b false)); [done|].
    cbn. intros [= E]. by eapply base32hexchar_not_pad.
  - rewrite len_app, E3, Z.div_add, Z.mod_add by lia. unfold len at 1. simpl length. lia.
Qed.

(** The length of an encoding determines its padding. *)
Lemma pad_count_spec b (l := len (base32hexmem b false)) :
  bool_decide (l mod 8 ∈ [0; 2; 4; 5; 7]) = true ∧
  Z.of_nat (pad_count (len b)) = (- l) mod 8 ∧ (pad_count (len b) <= 7)%nat.
Proof.
  destruct (base32hexmem_padded b) as (_ & _ & E). subst l. rewrite E. unfold pad_count.
  assert (Hr : 0 <= len b mod 5 < 5) by (apply Z.mod_pos_bound; lia).
  assert (len b mod 5 = 0 ∨ len b mod 5 = 1 ∨ len b mod 5 = 2 ∨ len b mod 5 = 3 ∨ len b mod 5 = 4)
    as H by lia. clear E Hr.
  destruct H as [->|[->|[->|[->| ->]]]]; simpl nth; rewrite (Z.add_comm (8 * _)), (Z.mul_comm 8);
    rewrite Z.mod_add by lia; (split; [done|]); split; try (simpl; lia);
    rewrite Z.opp_add_distr, <- Z.mul_opp_l, Z.mod_add by lia; done.
Qed.

Lemma unbase32hexmem_padded p b :
  len p mod 8 = 0 →
  unbase32hexmem_groups (reverse (strip_padding 7 (reverse p))) = Ok b →
  bytes b ∧ p = base32hexmem b true.
Proof.
  intros E8 [Hb Eq]%unbase32_groups_canonical. split; [done|].
  destruct (strip_padding_prefix 7 (reverse p)) as (k & Hk & Ek).
  apply (f_equal reverse) in Ek. rewrite reverse_involutive, reverse_app, reverse_replicate, Eq in Ek.
  destruct (base32hexmem_padded b) as (-> & _). destruct (pad_count_spec b) as (_ & Hp & Hp7).
  rewrite Ek. do 2 f_equal. rewrite Ek, len_app in E8. unfold len in E8 at 2.
  rewrite length_replicate in E8. Z.div_mod_to_equations. lia.
Qed.

(** ** Properties *)

(** [unbase32hexmem] accepts exactly the encodings [base32hexmem] writes, with or
    without padding, and returns the block that was encoded: decoding is the inverse
    of encoding and no two strings decode to the same block. *)
Theorem unbase32hexmem_iff (p b : list Z) (padding : bool) :
  unbase32hexmem p padding true = Ok b ↔ bytes b ∧ p = base32hexmem b padding.
Proof.
  destruct (pad_count_spec b) as (Hset & Hp & Hp7).
  destruct (base32hexmem_padded b) as (Epad & Elast & _). unfold unbase32hexmem. split.
  - destruct padding; simpl.
    + destruct (len p mod 8 =? 0) eqn:E8; [|done]. simpl. case_match; [done|].
      apply unbase32hexmem_padded. lia.
    + case_match; [done|]. apply unbase32_groups_canonical.
  - intros [Hb ->]. destruct padding; cbn [andb].
    + rewrite Epad, len_app. unfold len at 2. rewrite length_replicate, Hp.
      rewrite reverse_app, reverse_replicate, strip_padding_replicate, reverse_involutive by
        (done || by rewrite head_reverse).
      replace (_ =? 0) with true by (Z.div_mod_to_equations; lia).
      rewrite Hset. by apply unbase32_groups_enc.
    + rewrite Hset. by apply unbase32_groups_enc.
Qed.
