(* ===== verification/JobType.v ===== *)
(** * Job types and how they merge (src/core/job.c, src/core/job.h)

    The job types with their numbering, the merging table and its lookup, the
    predicates built on it, the collapse of state-dependent types and the ordering
    of two jobs. [option] results are [None] where an [assert()] fires. *)

From stdpp Require Import finite.
From S2P Require Import Prelude.

Inductive JobType :=
  | JOB_START | JOB_VERIFY_ACTIVE | JOB_STOP | JOB_RELOAD | JOB_RESTART
  | JOB_NOP | JOB_TRY_RESTART | JOB_TRY_RELOAD | JOB_RELOAD_OR_START.

#[global] Instance JobType_eq_dec : EqDecision JobType.
Proof. solve_decision. Defined.

Inductive JobState := JOB_WAITING | JOB_RUNNING.
#[global] Instance JobState_eq_dec : EqDecision JobState.
Proof. solve_decision. Defined.

Inductive JobMode :=
  | JOB_FAIL | JOB_REPLACE | JOB_REPLACE_IRREVERSIBLY | JOB_ISOLATE | JOB_FLUSH
  | JOB_IGNORE_DEPENDENCIES | JOB_IGNORE_REQUIREMENTS | JOB_TRIGGERING.
#[global] Instance JobMode_eq_dec : EqDecision JobMode.
Proof. solve_decision. Defined.

Inductive JobResult :=
  | JOB_DONE | JOB_CANCELED | JOB_TIMEOUT | JOB_FAILED | JOB_DEPENDENCY | JOB_SKIPPED
  | JOB_INVALID | JOB_ASSERT | JOB_UNSUPPORTED | JOB_COLLECTED | JOB_ONCE.
#[global] Instance JobResult_eq_dec : EqDecision JobResult.
Proof. solve_decision. Defined.

Inductive UnitActiveState :=
  | UNIT_ACTIVE | UNIT_RELOADING | UNIT_INACTIVE | UNIT_FAILED | UNIT_ACTIVATING
  | UNIT_DEACTIVATING | UNIT_MAINTENANCE.
#[global] Instance UnitActiveState_eq_dec : EqDecision UnitActiveState.
Proof. solve_decision. Defined.

Definition UNIT_IS_ACTIVE_OR_RELOADING (t : UnitActiveState) : bool :=
  bool_decide (t ∈ [UNIT_ACTIVE; UNIT_RELOADING]).
Definition UNIT_IS_ACTIVE_OR_ACTIVATING (t : UnitActiveState) : bool :=
  bool_decide (t ∈ [UNIT_ACTIVE; UNIT_ACTIVATING; UNIT_RELOADING]).
Definition UNIT_IS_INACTIVE_OR_DEACTIVATING (t : UnitActiveState) : bool :=
  bool_decide (t ∈ [UNIT_INACTIVE; UNIT_FAILED; UNIT_DEACTIVATING]).
Definition UNIT_IS_INACTIVE_OR_FAILED (t : UnitActiveState) : bool :=
  bool_decide (t ∈ [UNIT_INACTIVE; UNIT_FAILED]).

(** The value of the enumerator. *)
Definition job_type_num (t : JobType) : Z :=
  match t with
  | JOB_START => 0 | JOB_VERIFY_ACTIVE => 1 | JOB_STOP => 2 | JOB_RELOAD => 3 | JOB_RESTART => 4
  | JOB_NOP => 5 | JOB_TRY_RESTART => 6 | JOB_TRY_RELOAD => 7 | JOB_RELOAD_OR_START => 8
  end.

Definition _JOB_TYPE_MAX_MERGING : Z := 5.
Definition _JOB_TYPE_MAX_IN_TRANSACTION : Z := 6.

(** The lower triangle of the merging matrix; -1 is [None]. *)
Definition job_merging_table : list (option JobType) :=
  [ Some JOB_START;
    None; None;
    Some JOB_RELOAD_OR_START; Some JOB_RELOAD; None;
    Some JOB_RESTART; Some JOB_RESTART; None; Some JOB_RESTART ].

(** Outer option: the assertions on the arguments; inner option: -1. *)
Definition job_type_lookup_merge (a b : JobType) : option (option JobType) :=
  let na := job_type_num a in
  let nb := job_type_num b in
  assert_ (na <? _JOB_TYPE_MAX_MERGING);;
  assert_ (nb <? _JOB_TYPE_MAX_MERGING);;
  if na =? nb then Some (Some a)
  else
    let '(na, nb) := if na <? nb then (nb, na) else (na, nb) in
    get job_merging_table ((na - 1) * na / 2 + nb).

Definition job_type_is_mergeable (a b : JobType) : option bool :=
  r ← job_type_lookup_merge a b; Some (bool_decide (is_Some r)).

Definition job_type_is_conflicting (a b : JobType) : option bool :=
  if bool_decide (a = JOB_NOP) then Some false
  else if bool_decide (b = JOB_NOP) then Some false
  else r ← job_type_is_mergeable a b; Some (negb r).

Definition job_type_is_superset (a b : JobType) : option bool :=
  if bool_decide (b = JOB_NOP) then Some true
  else if bool_decide (a = JOB_NOP) then Some false
  else r ← job_type_lookup_merge a b; Some (bool_decide (r = Some a)).

Definition job_type_is_redundant (a : JobType) (b : UnitActiveState) : option bool :=
  match a with
  | JOB_START => Some (bool_decide (b ∈ [UNIT_ACTIVE; UNIT_RELOADING]))
  | JOB_STOP => Some (bool_decide (b ∈ [UNIT_INACTIVE; UNIT_FAILED]))
  | JOB_VERIFY_ACTIVE => Some (bool_decide (b ∈ [UNIT_ACTIVE; UNIT_RELOADING]))
  | JOB_RELOAD | JOB_RESTART => Some false
  | JOB_NOP => Some true
  | _ => None
  end.

(** The unit enters through its active state. *)
Definition job_type_collapse (t : JobType) (s : UnitActiveState) : JobType :=
  match t with
  | JOB_TRY_RESTART => if negb (UNIT_IS_ACTIVE_OR_ACTIVATING s) then JOB_NOP else JOB_RESTART
  | JOB_TRY_RELOAD => if negb (UNIT_IS_ACTIVE_OR_RELOADING s) then JOB_NOP else JOB_RELOAD
  | JOB_RELOAD_OR_START => if negb (UNIT_IS_ACTIVE_OR_RELOADING s) then JOB_START else JOB_RELOAD
  | _ => t
  end.

(** [Ok t]: returned 0 and set [*a = t]. *)
Definition job_type_merge_and_collapse (a b : JobType) (s : UnitActiveState)
    : option (res JobType) :=
  r ← job_type_lookup_merge a b;
  match r with
  | None => Some (Err (-EEXIST))
  | Some t => Some (Ok (job_type_collapse t s))
  end.

Definition job_type_allows_late_merge (t : JobType) : bool := negb (bool_decide (t = JOB_RELOAD)).

(** What a dependency between two units means (src/core/unit-dependency-atom.h), in the order of
    the bits. *)
Inductive UnitDependencyAtom :=
  | UNIT_ATOM_PULL_IN_START | UNIT_ATOM_PULL_IN_START_IGNORED | UNIT_ATOM_PULL_IN_VERIFY
  | UNIT_ATOM_PULL_IN_STOP | UNIT_ATOM_PULL_IN_STOP_IGNORED
  | UNIT_ATOM_ADD_STOP_WHEN_UNNEEDED_QUEUE | UNIT_ATOM_PINS_STOP_WHEN_UNNEEDED
  | UNIT_ATOM_CANNOT_BE_ACTIVE_WITHOUT | UNIT_ATOM_ADD_CANNOT_BE_ACTIVE_WITHOUT_QUEUE
  | UNIT_ATOM_START_STEADILY | UNIT_ATOM_ADD_START_WHEN_UPHELD_QUEUE
  | UNIT_ATOM_RETROACTIVE_START_REPLACE | UNIT_ATOM_RETROACTIVE_START_FAIL
  | UNIT_ATOM_RETROACTIVE_STOP_ON_START | UNIT_ATOM_RETROACTIVE_STOP_ON_STOP
  | UNIT_ATOM_PROPAGATE_START_FAILURE | UNIT_ATOM_PROPAGATE_STOP_FAILURE
  | UNIT_ATOM_PROPAGATE_INACTIVE_START_AS_FAILURE | UNIT_ATOM_PROPAGATE_STOP
  | UNIT_ATOM_PROPAGATE_RESTART | UNIT_ATOM_ADD_DEFAULT_TARGET_DEPENDENCY_QUEUE
  | UNIT_ATOM_DEFAULT_TARGET_DEPENDENCIES | UNIT_ATOM_ON_FAILURE | UNIT_ATOM_ON_SUCCESS
  | UNIT_ATOM_ON_FAILURE_OF | UNIT_ATOM_ON_SUCCESS_OF | UNIT_ATOM_BEFORE | UNIT_ATOM_AFTER
  | UNIT_ATOM_TRIGGERS | UNIT_ATOM_TRIGGERED_BY | UNIT_ATOM_PROPAGATES_RELOAD_TO
  | UNIT_ATOM_JOINS_NAMESPACE_OF | UNIT_ATOM_REFERENCES | UNIT_ATOM_REFERENCED_BY
  | UNIT_ATOM_IN_SLICE | UNIT_ATOM_SLICE_OF.
#[global] Instance UnitDependencyAtom_eq_dec : EqDecision UnitDependencyAtom.
Proof. solve_decision. Defined.

(** A job enters through its type and its [ignore_order] flag. With UNIT_ATOM_AFTER the
    code swaps the jobs and asks about UNIT_ATOM_BEFORE. *)
Definition job_compare_before (a b : JobType * bool) : Z :=
  if bool_decide (fst a = JOB_NOP) || bool_decide (fst b = JOB_NOP) then 0
  else if snd a || snd b then 0
  else if bool_decide (fst b ∈ [JOB_STOP; JOB_RESTART]) then 1 else -1.

Definition job_compare (a b : JobType * bool) (assume_dep : UnitDependencyAtom) : option Z :=
  assert_ (job_type_num (fst a) <? _JOB_TYPE_MAX_IN_TRANSACTION);;
  assert_ (job_type_num (fst b) <? _JOB_TYPE_MAX_IN_TRANSACTION);;
  assert_ (bool_decide (assume_dep ∈ [UNIT_ATOM_AFTER; UNIT_ATOM_BEFORE]));;
  if bool_decide (fst a = JOB_NOP) || bool_decide (fst b = JOB_NOP) then Some 0
  else if snd a || snd b then Some 0
  else if bool_decide (assume_dep = UNIT_ATOM_AFTER) then Some (- job_compare_before b a)
  else Some (job_compare_before a b).

(** ** Lemmas *)

(** The types that can be merged, and the ones that can be in a transaction. *)
Definition merging_type (t : JobType) : Prop := job_type_num t < _JOB_TYPE_MAX_MERGING.
Definition transaction_type (t : JobType) : Prop := job_type_num t < _JOB_TYPE_MAX_IN_TRANSACTION.

#[global] Instance merging_type_dec t : Decision (merging_type t).
Proof. unfold merging_type. apply _. Defined.
#[global] Instance transaction_type_dec t : Decision (transaction_type t).
Proof. unfold transaction_type. apply _. Defined.

(** Two jobs of one unit whose types merge, and into what. *)
Definition merge (s : UnitActiveState) (a b : JobType) : option JobType :=
  r ← job_type_merge_and_collapse a b s; match r with Ok t => Some t | Err _ => None end.

#[global] Program Instance JobType_finite : Finite JobType := {|
  enum := [JOB_START; JOB_VERIFY_ACTIVE; JOB_STOP; JOB_RELOAD; JOB_RESTART; JOB_NOP;
           JOB_TRY_RESTART; JOB_TRY_RELOAD; JOB_RELOAD_OR_START] |}.
Next Obligation. by_decide. Qed.
Next Obligation. intros []; by_decide. Qed.

#[global] Program Instance UnitActiveState_finite : Finite UnitActiveState := {|
  enum := [UNIT_ACTIVE; UNIT_RELOADING; UNIT_INACTIVE; UNIT_FAILED; UNIT_ACTIVATING;
           UNIT_DEACTIVATING; UNIT_MAINTENANCE] |}.
Next Obligation. by_decide. Qed.
Next Obligation. intros []; by_decide. Qed.

(** The laws for one choice of types, in decidable form. *)
Definition merging_laws_at (s : UnitActiveState) (a b c : JobType) : bool :=
  let m := merge s in
  negb (bool_decide (merging_type a ∧ merging_type b ∧ merging_type c)) ||
  bool_decide (m a a = Some a) && bool_decide (m a b = m b a) &&
  match m a b, m b c with
  | Some ab, Some bc => bool_decide (m ab c = m a bc) && bool_decide (is_Some (m a c))
  | _, _ => true
  end &&
  match m a b with
  | Some ab => bool_decide (is_Some (m ab c)) || bool_decide (m a c = None) || bool_decide (m b c = None)
  | None => true
  end.

Lemma merging_laws_all s a b c : merging_laws_at s a b c = true.
Proof.
  cut (∀ s a b c, merging_laws_at s a b c = true); [auto|].
  by_decide.
Qed.

Lemma merge_and_collapse_defined a b s :
  merging_type a → merging_type b →
  job_type_merge_and_collapse a b s = Some (Err (-EEXIST)) ∨
  ∃ t, job_type_merge_and_collapse a b s = Some (Ok t) ∧ merging_type t.
Proof.
  unfold merging_type, _JOB_TYPE_MAX_MERGING.
  destruct a, b, s; simpl; intros; try lia;
    first [by left | right; eexists; split; [reflexivity|simpl; lia]].
Qed.

Lemma job_type_is_conflicting_defined a b :
  transaction_type a → merging_type b → is_Some (job_type_is_conflicting a b).
Proof.
  unfold merging_type, transaction_type, _JOB_TYPE_MAX_MERGING, _JOB_TYPE_MAX_IN_TRANSACTION.
  destruct a, b; simpl; intros; try lia; eexists; reflexivity.
Qed.

Lemma job_type_is_conflicting_defined_sym a b :
  merging_type a → transaction_type b → is_Some (job_type_is_conflicting a b).
Proof.
  unfold merging_type, transaction_type, _JOB_TYPE_MAX_MERGING, _JOB_TYPE_MAX_IN_TRANSACTION.
  destruct a, b; simpl; intros; try lia; eexists; reflexivity.
Qed.

Lemma job_compare_defined a b d :
  transaction_type (fst a) → transaction_type (fst b) → d = UNIT_ATOM_BEFORE ∨ d = UNIT_ATOM_AFTER →
  is_Some (job_compare a b d).
Proof.
  unfold transaction_type, job_compare. intros Ha Hb Hd.
  rewrite !assert_bind; [|apply bool_decide_eq_true|lia..].
  - destruct (_ || _); [eauto|]. destruct (_ || _); [eauto|]. case_bool_decide; eauto.
  - set_solver.
Qed.

Lemma job_type_is_redundant_defined a s :
  transaction_type a → is_Some (job_type_is_redundant a s).
Proof.
  unfold transaction_type, _JOB_TYPE_MAX_IN_TRANSACTION.
  destruct a; simpl; intros; try lia; eauto.
Qed.

(** ** What a request may end up as *)

(** The types of the installed job that does what a job of type [t] was to do for a unit in state
    [s]: the type itself, or one that it was merged into. What is only to be done for a unit that
    is up comes to nothing otherwise. *)
Definition answers (s : UnitActiveState) (t : JobType) : list JobType :=
  let up := bool_decide (s = UNIT_ACTIVE ∨ s = UNIT_RELOADING) in
  match t with
  | JOB_START => if up then [JOB_START; JOB_RELOAD; JOB_RESTART] else [JOB_START; JOB_RESTART]
  | JOB_VERIFY_ACTIVE => [JOB_VERIFY_ACTIVE; JOB_START; JOB_RELOAD; JOB_RESTART]
  | JOB_STOP => [JOB_STOP]
  | JOB_RELOAD => if up then [JOB_RELOAD; JOB_RESTART] else [JOB_RELOAD; JOB_START; JOB_RESTART]
  | JOB_RESTART => [JOB_RESTART]
  | JOB_NOP => [JOB_NOP]
  | JOB_TRY_RESTART => if up || bool_decide (s = UNIT_ACTIVATING) then [JOB_RESTART] else [JOB_NOP]
  | JOB_TRY_RELOAD => if up then [JOB_RELOAD; JOB_RESTART] else [JOB_NOP]
  | JOB_RELOAD_OR_START => if up then [JOB_RELOAD; JOB_RESTART] else [JOB_START; JOB_RESTART]
  end.

Lemma answers_refl s t : transaction_type t → t ∈ answers s t.
Proof. unfold transaction_type, _JOB_TYPE_MAX_IN_TRANSACTION. destruct t; cbn; intros; try lia; destruct s; by_decide. Qed.

Lemma answers_trans s t1 t2 t3 : t2 ∈ answers s t1 → t3 ∈ answers s t2 → t3 ∈ answers s t1.
Proof.
  assert (H : ∀ s t1 t2 t3, bool_decide (t2 ∈ answers s t1) && bool_decide (t3 ∈ answers s t2) = true → bool_decide (t3 ∈ answers s t1) = true) by by_decide.
  intros H1 H2. apply (bool_decide_eq_true_1 _), (H s t1 t2 t3).
  rewrite !bool_decide_eq_true_2 by done. done.
Qed.

Lemma answers_collapse s t : answers s (job_type_collapse t s) = answers s t.
Proof. by destruct s, t. Qed.

Lemma merge_answers s a b t :
  job_type_merge_and_collapse a b s = Some (Ok t) → t ∈ answers s a ∧ t ∈ answers s b.
Proof. destruct s, a, b; cbn; try done; intros [= <-]; split; by_decide. Qed.

(** What became of the type of a job. *)
Definition becomes (s : UnitActiveState) (t t' : JobType) : Prop := t' = t ∨ t' ∈ answers s t.

Lemma becomes_trans s t1 t2 t3 : becomes s t1 t2 → becomes s t2 t3 → becomes s t1 t3.
Proof. intros [->|H1] [->|H2]; [by left|by right..|]. right. by apply (answers_trans s t1 t2). Qed.

Lemma becomes_answers s t t' : transaction_type t → becomes s t t' → t' ∈ answers s t.
Proof. intros Ht [->|?]; [by apply answers_refl|done]. Qed.

(** ** Properties *)

(** The comment on [job_merging_table]: followed by the collapse, merging is
    commutative and associative with itself as diagonal, mergeability is transitive,
    and if a merged with b does not merge with c, then a or b does not merge with c
    either. All for one unit in one active state. *)
Theorem job_merging_laws (s : UnitActiveState) (a b c : JobType) :
  merging_type a → merging_type b → merging_type c →
  merge s a a = Some a ∧
  merge s a b = merge s b a ∧
  (∀ ab bc, merge s a b = Some ab → merge s b c = Some bc → merge s ab c = merge s a bc) ∧
  (is_Some (merge s a b) → is_Some (merge s b c) → is_Some (merge s a c)) ∧
  (∀ ab, merge s a b = Some ab → merge s ab c = None → merge s a c = None ∨ merge s b c = None).
Proof.
  intros Ha Hb Hc. pose proof (merging_laws_all s a b c) as H. unfold merging_laws_at in H.
  rewrite (bool_decide_eq_true_2 (_ ∧ _)) in H by done. cbn [negb orb] in H.
  apply andb_true_iff in H as [[[H1 H2]%andb_true_iff H3]%andb_true_iff H4].
  apply bool_decide_eq_true in H1, H2. split_and!; [done..| | |].
  - intros ab bc E1 E2. rewrite E1, E2 in H3. apply andb_true_iff in H3 as [H3 _].
    by apply bool_decide_eq_true in H3.
  - intros [ab E1] [bc E2]. rewrite E1, E2 in H3. apply andb_true_iff in H3 as [_ H3].
    by apply bool_decide_eq_true in H3.
  - intros ab E1 E2. rewrite E1, E2 in H4. simpl in H4.
    apply orb_true_iff in H4 as [H4|H4]; apply bool_decide_eq_true in H4; auto.
Qed.

(** [job_compare] is antisymmetric and a swap of the assumed dependency swaps the
    result: a runs before b exactly when b runs after a, and asking with AFTER from the
    other side gives the same answer. It never depends on anything but NOP jobs,
    [ignore_order] and whether the later unit is being stopped. *)
Theorem job_compare_swap (a b : JobType * bool) :
  transaction_type (fst a) → transaction_type (fst b) →
  ∃ r, job_compare a b UNIT_ATOM_BEFORE = Some r ∧ job_compare b a UNIT_ATOM_AFTER = Some (- r) ∧
    r ∈ [-1; 0; 1] ∧
    (r = 0 ↔ fst a = JOB_NOP ∨ fst b = JOB_NOP ∨ snd a = true ∨ snd b = true) ∧
    (r = 1 → fst b = JOB_STOP ∨ fst b = JOB_RESTART).
Proof.
  destruct a as [a ia], b as [b ib]. unfold transaction_type, _JOB_TYPE_MAX_IN_TRANSACTION. simpl.
  intros Ha Hb. destruct a; try (simpl in Ha; lia); destruct b; try (simpl in Hb; lia);
    destruct ia, ib;
    match goal with |- ∃ r, job_compare ?a ?b _ = _ ∧ _ =>
      let r := eval vm_compute in (job_compare_before a b) in exists r end;
    (split; [reflexivity|]); (split; [reflexivity|]);
    (split; [by_decide|]); split; simpl; intuition congruence.
Qed.

Lemma job_merging_laws_witness :
  merge UNIT_ACTIVE JOB_START JOB_RELOAD = Some JOB_RELOAD ∧
  merge UNIT_ACTIVE JOB_RELOAD JOB_RESTART = Some JOB_RESTART ∧
  merge UNIT_ACTIVE JOB_RELOAD JOB_RESTART = merge UNIT_ACTIVE JOB_START JOB_RESTART.
Proof.
  split; [reflexivity|]. split; [reflexivity|].
  apply (job_merging_laws UNIT_ACTIVE JOB_START JOB_RELOAD JOB_RESTART); reflexivity.
Defined.

Lemma job_compare_swap_witness :
  ∃ r, job_compare (JOB_START, false) (JOB_STOP, false) UNIT_ATOM_BEFORE = Some r ∧ r = 1.
Proof.
  destruct (job_compare_swap (JOB_START, false) (JOB_STOP, false)) as (r & H1 & _);
    [reflexivity..|].
  exists r. split; [exact H1|]. vm_compute in H1. congruence.
Defined.
