(* ===== verification/RunQueue.v ===== *)
(** * The run queue of the manager: interface and implementation

    The job code (src/core/job.c, src/core/manager.c) keeps the jobs that are ready
    to be looked at in a priority queue. What it relies on is stated as the class
    [RunQueue]; the theorems on jobs are proved against the class, and the queue of
    src/basic/prioq.c discharges it. A job is its own index cell
    ([&j->run_queue_idx]). *)

From S2P Require Import Prelude Prioq.

Class RunQueue := {
  rq : Type;
  (** [prioq_put]; the flag says whether growing the array succeeds *)
  rq_put : rq → positive → bool → option (Z * rq);
  (** [prioq_remove] *)
  rq_remove : rq → positive → option rq;
  (** [prioq_peek] *)
  rq_peek : rq → option positive;
  rq_empty : rq;

  (** the jobs in the queue, and the validity of its representation *)
  rq_jobs : rq → list positive;
  rq_ok : rq → Prop;

  rq_empty_ok : rq_ok rq_empty ∧ rq_jobs rq_empty = [];
  rq_put_ok q j a : rq_ok q → j ∉ rq_jobs q → len (rq_jobs q) < PRIOQ_MAX →
    ∃ r q', rq_put q j a = Some (r, q') ∧ rq_ok q' ∧
      (r = 0 ∧ rq_jobs q' ≡ₚ j :: rq_jobs q ∨ r = -ENOMEM ∧ a = false ∧ q' = q);
  rq_remove_ok q j : rq_ok q → j ∈ rq_jobs q →
    ∃ q', rq_remove q j = Some q' ∧ rq_ok q' ∧ rq_jobs q ≡ₚ j :: rq_jobs q';
  rq_peek_ok q j : rq_ok q → rq_peek q = Some j → j ∈ rq_jobs q;
  rq_peek_none q : rq_ok q → rq_peek q = None → rq_jobs q = [];
}.

(** ** The implementation by prioq.c *)

Section PrioqRunQueue.
Context (cmp : positive → positive → Z) `{!CompareFunc cmp}.

(** Every item is registered with its own cell. *)
Definition self_registered (q : pstate positive) : Prop :=
  ∀ x, x ∈ items (fst q) → idx x = Some (data x).

Definition prq_ok (q : pstate positive) : Prop := prioq_inv cmp q ∧ self_registered q.

Definition prq_remove (q : pstate positive) (j : positive) : option (pstate positive) :=
  r ← prioq_remove cmp (Some (fst q)) (snd q) j (Some j);
  match r with (_, Some q', m) => Some (q', m) | _ => None end.

Lemma elem_of_keys (q : Prioq positive) j : j ∈ keys q ↔ ∃ x, x ∈ items q ∧ data x = j.
Proof. unfold keys. rewrite list_elem_of_fmap. split; intros (x & ? & ?); eauto. Qed.

Lemma prq_put_ok q j a :
  prq_ok q → j ∉ keys (fst q) → len (keys (fst q)) < PRIOQ_MAX →
  ∃ r q', prioq_put cmp q j (Some j) a = Some (r, q') ∧ prq_ok q' ∧
    (r = 0 ∧ keys (fst q') ≡ₚ j :: keys (fst q) ∨ r = -ENOMEM ∧ a = false ∧ q' = q).
Proof.
  intros [Hinv Hself] Hj Hlen. unfold keys in Hlen. rewrite len_fmap in Hlen.
  pose proof Hinv as [(Hn & _) _].
  assert (Hfresh : ∀ x c, x ∈ items (fst q) → Some j = Some c → idx x ≠ Some c).
  { intros x c Hx [= <-] E. rewrite (Hself x Hx) in E. injection E as E.
    apply Hj, elem_of_keys. eauto. }
  destruct ((n_allocated (fst q) <=? n_items (fst q)) && negb a) eqn:E.
  - exists (-ENOMEM), q. unfold prioq_put. destruct q as [q m]. cbn [fst] in E. rewrite E.
    split_and!; [done..|]. right. split_and!; [done| |done].
    by destruct a; [destruct (n_allocated q <=? n_items q)|].
  - destruct (prioq_put_spec cmp q j (Some j) a) as (q' & Hput & Hi & Hp & _); [done|lia| |done|].
    { destruct a; [by right|]. left. lia. }
    exists 0, q'. split_and!; [done| |].
    + split; [done|]. intros x. rewrite Hp, elem_of_cons. intros [->|Hx]; [done|by apply Hself].
    + left. split; [done|]. unfold keys. by rewrite Hp.
Qed.

Lemma prq_remove_ok q j :
  prq_ok q → j ∈ keys (fst q) →
  ∃ q', prq_remove q j = Some q' ∧ prq_ok q' ∧ keys (fst q) ≡ₚ j :: keys (fst q').
Proof.
  intros [Hinv Hself] (x & Hx & <-)%elem_of_keys. pose proof (Hself x Hx) as Hp.
  destruct (elem_of_get _ _ Hx) as [i Hi].
  unfold prq_remove, prioq_remove. destruct q as [q m].
  cbn [fst snd] in *. rewrite (find_item_registered cmp (q, m) i x) by done. cbn [mbind option_bind].
  destruct (remove_item_spec cmp (q, m) i x) as ([q' m'] & -> & Hi' & Hpm & _); [done..|].
  exists (q', m'). cbn [mbind option_bind fst snd] in *. split_and!; [done| |].
  - split; [done|]. intros y Hy. apply Hself. cbn [fst]. rewrite Hpm. by apply elem_of_cons; right.
  - unfold keys. by rewrite Hpm.
Qed.

Definition prioq_run_queue : RunQueue.
Proof.
  refine {| rq := pstate positive;
            rq_put q j a := prioq_put cmp q j (Some j) a;
            rq_remove := prq_remove;
            rq_peek q := prioq_peek_by_index (Some (fst q)) 0;
            rq_empty := (prioq_new, ∅);
            rq_jobs q := keys (fst q);
            rq_ok := prq_ok |}.
  - split; [|done]. split; [apply prioq_new_inv|]. intros x Hx. by apply elem_of_nil in Hx.
  - apply prq_put_ok.
  - apply prq_remove_ok.
  - intros [q m] j _. unfold prioq_peek_by_index. cbn [fst]. destruct (_ <=? _); [done|].
    destruct (get (items q) 0) as [x|] eqn:E; [|done]. intros [= <-].
    apply elem_of_keys. eauto using get_elem_of.
  - intros [q m] [[(Hn & _) _] _]. unfold prioq_peek_by_index. cbn [fst] in *.
    destruct (n_items q <=? 0) eqn:E.
    + intros _. unfold keys, len in *. destruct (items q); [done|]. simpl in Hn. lia.
    + destruct (get_is_Some (items q) 0) as [x ->]; [lia|done].
Defined.
End PrioqRunQueue.
