(* ===== verification/JobData.v ===== *)
(** * Jobs, their links and the state they live in (src/core/job.h, src/core/job.c)

    Jobs and units are pointers ([positive]); jobs live in a heap. A transaction
    keeps, per unit, the chain of its jobs ([transaction_next]) in a hash map; links
    between jobs ([JobDependency]) say which job pulled in which.

    Every link is on the [subject_list] of its subject and on the [object_list] of its
    object. The model has one list of all links; the two lists of a job are the links
    with that subject or object. The order in which a list is walked is not modelled
    beyond this: what the code computes from the lists does not depend on it. The
    order in which a hash map is walked is a parameter ([iter]). *)

From S2P Require Import Prelude Prioq JobType RunQueue.

Inductive UnitLoadState :=
  | UNIT_STUB | UNIT_LOADED | UNIT_NOT_FOUND | UNIT_BAD_SETTING | UNIT_ERROR | UNIT_MERGED
  | UNIT_MASKED.
#[global] Instance UnitLoadState_eq_dec : EqDecision UnitLoadState.
Proof. solve_decision. Defined.

Record Job := MkJob {
  j_unit : positive;
  j_id : Z;
  j_type : JobType;
  j_state : JobState;
  j_result : JobResult;
  j_installed : bool;
  j_in_run_queue : bool;
  j_in_dbus_queue : bool;
  j_in_gc_queue : bool;
  j_marker : option positive;
  j_generation : Z;
  j_matters_to_anchor : bool;
  j_ignore_order : bool;
  j_irreversible : bool;
}.

Definition set_j_type (x : JobType) (j : Job) : Job :=
  MkJob (j_unit j) (j_id j) x (j_state j) (j_result j) (j_installed j) (j_in_run_queue j) (j_in_dbus_queue j) (j_in_gc_queue j) (j_marker j) (j_generation j) (j_matters_to_anchor j) (j_ignore_order j) (j_irreversible j).
Definition set_j_state (x : JobState) (j : Job) : Job :=
  MkJob (j_unit j) (j_id j) (j_type j) x (j_result j) (j_installed j) (j_in_run_queue j) (j_in_dbus_queue j) (j_in_gc_queue j) (j_marker j) (j_generation j) (j_matters_to_anchor j) (j_ignore_order j) (j_irreversible j).
Definition set_j_result (x : JobResult) (j : Job) : Job :=
  MkJob (j_unit j) (j_id j) (j_type j) (j_state j) x (j_installed j) (j_in_run_queue j) (j_in_dbus_queue j) (j_in_gc_queue j) (j_marker j) (j_generation j) (j_matters_to_anchor j) (j_ignore_order j) (j_irreversible j).
Definition set_j_installed (x : bool) (j : Job) : Job :=
  MkJob (j_unit j) (j_id j) (j_type j) (j_state j) (j_result j) x (j_in_run_queue j) (j_in_dbus_queue j) (j_in_gc_queue j) (j_marker j) (j_generation j) (j_matters_to_anchor j) (j_ignore_order j) (j_irreversible j).
Definition set_j_in_run_queue (x : bool) (j : Job) : Job :=
  MkJob (j_unit j) (j_id j) (j_type j) (j_state j) (j_result j) (j_installed j) x (j_in_dbus_queue j) (j_in_gc_queue j) (j_marker j) (j_generation j) (j_matters_to_anchor j) (j_ignore_order j) (j_irreversible j).
Definition set_j_in_dbus_queue (x : bool) (j : Job) : Job :=
  MkJob (j_unit j) (j_id j) (j_type j) (j_state j) (j_result j) (j_installed j) (j_in_run_queue j) x (j_in_gc_queue j) (j_marker j) (j_generation j) (j_matters_to_anchor j) (j_ignore_order j) (j_irreversible j).
Definition set_j_in_gc_queue (x : bool) (j : Job) : Job :=
  MkJob (j_unit j) (j_id j) (j_type j) (j_state j) (j_result j) (j_installed j) (j_in_run_queue j) (j_in_dbus_queue j) x (j_marker j) (j_generation j) (j_matters_to_anchor j) (j_ignore_order j) (j_irreversible j).
Definition set_j_marker (x : option positive) (j : Job) : Job :=
  MkJob (j_unit j) (j_id j) (j_type j) (j_state j) (j_result j) (j_installed j) (j_in_run_queue j) (j_in_dbus_queue j) (j_in_gc_queue j) x (j_generation j) (j_matters_to_anchor j) (j_ignore_order j) (j_irreversible j).
Definition set_j_generation (x : Z) (j : Job) : Job :=
  MkJob (j_unit j) (j_id j) (j_type j) (j_state j) (j_result j) (j_installed j) (j_in_run_queue j) (j_in_dbus_queue j) (j_in_gc_queue j) (j_marker j) x (j_matters_to_anchor j) (j_ignore_order j) (j_irreversible j).
Definition set_j_matters_to_anchor (x : bool) (j : Job) : Job :=
  MkJob (j_unit j) (j_id j) (j_type j) (j_state j) (j_result j) (j_installed j) (j_in_run_queue j) (j_in_dbus_queue j) (j_in_gc_queue j) (j_marker j) (j_generation j) x (j_ignore_order j) (j_irreversible j).
Definition set_j_ignore_order (x : bool) (j : Job) : Job :=
  MkJob (j_unit j) (j_id j) (j_type j) (j_state j) (j_result j) (j_installed j) (j_in_run_queue j) (j_in_dbus_queue j) (j_in_gc_queue j) (j_marker j) (j_generation j) (j_matters_to_anchor j) x (j_irreversible j).
Definition set_j_irreversible (x : bool) (j : Job) : Job :=
  MkJob (j_unit j) (j_id j) (j_type j) (j_state j) (j_result j) (j_installed j) (j_in_run_queue j) (j_in_dbus_queue j) (j_in_gc_queue j) (j_marker j) (j_generation j) (j_matters_to_anchor j) (j_ignore_order j) x.

Record JobDependency := MkDep {
  subject : option positive;
  object : positive;
  matters : bool;
  conflicts : bool;
}.

(** What the job code reads from units and never writes. The calls through the unit's
    vtable and the unit cache are functions of the unit. *)
Class Env := {
  unit_active_state : positive → UnitActiveState;
  unit_dependencies : positive → UnitDependencyAtom → list positive;
  unit_following_set : positive → list positive;
  ignore_on_isolate : positive → bool;
  allow_isolate : positive → bool;
  perpetual : positive → bool;
  unit_can_start : positive → bool;
  unit_can_stop : positive → bool;
  unit_can_reload : positive → bool;
  gc_jobs : positive → bool;            (* UNIT_VTABLE(u)->gc_jobs *)
  load_error : positive → Z;            (* u->load_error, negative *)
  manager_unit_cache_should_retry_load : positive → bool;
  unit_load : positive → Z * UnitLoadState;  (* result, load_state afterwards *)
  bus_referenced : positive → bool;     (* a client tracks the job, or it is [ref_by_private_bus] and there is a private bus *)
  rq_alloc_ok : positive → bool;        (* growing the run queue for this job succeeds *)
  units : list positive;                (* m->units without aliases *)
  (** the order in which HASHMAP_FOREACH visits tr->jobs *)
  iter : gmap positive (list positive) → list (positive * list positive);
  iter_perm m : iter m ≡ₚ map_to_list m;
  (** ... and m->jobs *)
  iter_ids : gmap Z positive → list positive;
  iter_ids_perm m : iter_ids m ≡ₚ (map_to_list m).*2;
}.

(** Calls of the job code into parts that are not modelled (bus, event loop, unit types).
    They are recorded in the order they are made; what they do in turn is not. *)
Inductive Call :=
  | bus_job_send_removed_signal (j : positive)
  | unit_add_to_gc_queue (u : positive)
  | unit_add_to_dbus_queue (u : positive)
  | disable_jobs_in_progress
  | manager_trigger_run_queue
  | job_start_timer (j : positive) (running : bool)
  | job_shutdown_magic (j : positive)
  | unit_start_on_failure (u : positive)
  | unit_trigger_notify (u : positive)
  | unit_cgroup_freezer_action (u : positive)  (* FREEZER_THAW *)
  | unit_submit_queues (u : positive)
  | manager_check_finished
  | manager_varlink_send_managed_oom_update (u : positive)
  | bus_manager_send_change_signal
  | unit_prune_cgroup (u : positive)
  | unit_unlink_state_files (u : positive)
  | unit_update_on_console (u : positive)
  | unit_emit_audit_start (u : positive)
  | manager_send_unit_plymouth (u : positive)
  | unit_emit_audit_stop (u : positive) (s : UnitActiveState)
  | unit_log_resources (u : positive)
  | manager_recheck_journal
  | manager_recheck_dbus
  | emergency_action (u : positive) (failure : bool)
  | bus_job_coldplug_bus_track (j : positive)
  | add_job_timer (j : positive) (usec : Z)  (* sd_event_add_time with job_dispatch_timer *)
  | release_resources (u : positive).  (* UNIT_VTABLE(u)->release_resources *)

Section State.
Context {RQ : RunQueue}.

Record Manager := MkManager {
  unit_job : gmap positive positive;  (* u->job *)
  unit_nop_job : gmap positive positive;  (* u->nop_job *)
  m_jobs : gmap Z positive;  (* m->jobs, by job id *)
  current_job_id : Z;
  n_installed_jobs : Z;
  n_running_jobs : Z;
  n_failed_jobs : Z;
  run_queue : rq;
  dbus_job_queue : list positive;
  gc_job_queue : list positive;
  load_state : positive → UnitLoadState;  (* u->load_state *)
  trace : list Call;  (* calls into other subsystems, last first *)
}.

Definition set_unit_job (x : gmap positive positive) (m : Manager) : Manager :=
  MkManager x (unit_nop_job m) (m_jobs m) (current_job_id m) (n_installed_jobs m) (n_running_jobs m) (n_failed_jobs m) (run_queue m) (dbus_job_queue m) (gc_job_queue m) (load_state m) (trace m).
Definition set_unit_nop_job (x : gmap positive positive) (m : Manager) : Manager :=
  MkManager (unit_job m) x (m_jobs m) (current_job_id m) (n_installed_jobs m) (n_running_jobs m) (n_failed_jobs m) (run_queue m) (dbus_job_queue m) (gc_job_queue m) (load_state m) (trace m).
Definition set_m_jobs (x : gmap Z positive) (m : Manager) : Manager :=
  MkManager (unit_job m) (unit_nop_job m) x (current_job_id m) (n_installed_jobs m) (n_running_jobs m) (n_failed_jobs m) (run_queue m) (dbus_job_queue m) (gc_job_queue m) (load_state m) (trace m).
Definition set_current_job_id (x : Z) (m : Manager) : Manager :=
  MkManager (unit_job m) (unit_nop_job m) (m_jobs m) x (n_installed_jobs m) (n_running_jobs m) (n_failed_jobs m) (run_queue m) (dbus_job_queue m) (gc_job_queue m) (load_state m) (trace m).
Definition set_n_installed_jobs (x : Z) (m : Manager) : Manager :=
  MkManager (unit_job m) (unit_nop_job m) (m_jobs m) (current_job_id m) x (n_running_jobs m) (n_failed_jobs m) (run_queue m) (dbus_job_queue m) (gc_job_queue m) (load_state m) (trace m).
Definition set_n_running_jobs (x : Z) (m : Manager) : Manager :=
  MkManager (unit_job m) (unit_nop_job m) (m_jobs m) (current_job_id m) (n_installed_jobs m) x (n_failed_jobs m) (run_queue m) (dbus_job_queue m) (gc_job_queue m) (load_state m) (trace m).
Definition set_n_failed_jobs (x : Z) (m : Manager) : Manager :=
  MkManager (unit_job m) (unit_nop_job m) (m_jobs m) (current_job_id m) (n_installed_jobs m) (n_running_jobs m) x (run_queue m) (dbus_job_queue m) (gc_job_queue m) (load_state m) (trace m).
Definition set_run_queue (x : rq) (m : Manager) : Manager :=
  MkManager (unit_job m) (unit_nop_job m) (m_jobs m) (current_job_id m) (n_installed_jobs m) (n_running_jobs m) (n_failed_jobs m) x (dbus_job_queue m) (gc_job_queue m) (load_state m) (trace m).
Definition set_dbus_job_queue (x : list positive) (m : Manager) : Manager :=
  MkManager (unit_job m) (unit_nop_job m) (m_jobs m) (current_job_id m) (n_installed_jobs m) (n_running_jobs m) (n_failed_jobs m) (run_queue m) x (gc_job_queue m) (load_state m) (trace m).
Definition set_gc_job_queue (x : list positive) (m : Manager) : Manager :=
  MkManager (unit_job m) (unit_nop_job m) (m_jobs m) (current_job_id m) (n_installed_jobs m) (n_running_jobs m) (n_failed_jobs m) (run_queue m) (dbus_job_queue m) x (load_state m) (trace m).
Definition set_load_state (x : positive → UnitLoadState) (m : Manager) : Manager :=
  MkManager (unit_job m) (unit_nop_job m) (m_jobs m) (current_job_id m) (n_installed_jobs m) (n_running_jobs m) (n_failed_jobs m) (run_queue m) (dbus_job_queue m) (gc_job_queue m) x (trace m).
Definition set_trace (x : list Call) (m : Manager) : Manager :=
  MkManager (unit_job m) (unit_nop_job m) (m_jobs m) (current_job_id m) (n_installed_jobs m) (n_running_jobs m) (n_failed_jobs m) (run_queue m) (dbus_job_queue m) (gc_job_queue m) (load_state m) x.

Record State := MkState {
  heap : gmap positive Job;
  links : list JobDependency;
  jobs : gmap positive (list positive);  (* tr->jobs *)
  anchor_job : option positive;  (* tr->anchor_job *)
  irreversible : bool;  (* tr->irreversible *)
  mgr : Manager;
}.

Definition set_heap (x : gmap positive Job) (st : State) : State :=
  MkState x (links st) (jobs st) (anchor_job st) (irreversible st) (mgr st).
Definition set_links (x : list JobDependency) (st : State) : State :=
  MkState (heap st) x (jobs st) (anchor_job st) (irreversible st) (mgr st).
Definition set_jobs (x : gmap positive (list positive)) (st : State) : State :=
  MkState (heap st) (links st) x (anchor_job st) (irreversible st) (mgr st).
Definition set_anchor_job (x : option positive) (st : State) : State :=
  MkState (heap st) (links st) (jobs st) x (irreversible st) (mgr st).
Definition set_mgr (x : Manager) (st : State) : State :=
  MkState (heap st) (links st) (jobs st) (anchor_job st) (irreversible st) x.

End State.

(** Two lists of a job. *)
Definition subject_list {RQ : RunQueue} (st : State) (j : positive) : list JobDependency :=
  filter (λ l, subject l = Some j) (links st).
Definition object_list {RQ : RunQueue} (st : State) (j : positive) : list JobDependency :=
  filter (λ l, object l = j) (links st).

Section Ops.
Context {RQ : RunQueue}.
Implicit Types (st : State) (j k u : positive).

(** Overwrite a job through a pointer to it. *)
Definition alter_job (f : Job → Job) (j : positive) (st : State) : State :=
  set_heap (alter f j (heap st)) st.

Definition alter_mgr (f : Manager → Manager) (st : State) : State := set_mgr (f (mgr st)) st.

(** [u->job] *)
Definition installed_job st u : option positive := unit_job (mgr st) !! u.

(** [job_new]: the new pointer is one that is not in use. *)
Definition job_new (u : positive) (t : JobType) (st : State) : positive * State :=
  let p := fresh (dom (heap st)) in
  let id := current_job_id (mgr st) in
  let j := MkJob u id t JOB_WAITING JOB_DONE false false false false None 0 false false false in
  (p, alter_mgr (set_current_job_id (u32 (id + 1))) (set_heap (<[p := j]> (heap st)) st)).

(** Whether the job is on the chain of its unit, so [transaction_prev] or
    [transaction_next] may be set. *)
Definition on_chain st (j : positive) (jb : Job) : bool :=
  match jobs st !! j_unit jb with Some c => bool_decide (j ∈ c) | None => false end.

Definition job_unlinked st (j : positive) (jb : Job) : bool :=
  negb (j_installed jb) && negb (on_chain st j jb) &&
  bool_decide (subject_list st j = []) && bool_decide (object_list st j = []).

Definition job_unlink (j : positive) (st : State) : option State :=
  jb ← heap st !! j;
  assert_ (job_unlinked st j jb);;
  st ← (if j_in_run_queue jb then
          q ← rq_remove (run_queue (mgr st)) j;
          Some (alter_job (set_j_in_run_queue false) j (alter_mgr (set_run_queue q) st))
        else Some st);
  let st := if j_in_dbus_queue jb then
      alter_job (set_j_in_dbus_queue false) j
        (alter_mgr (λ m, set_dbus_job_queue (filter (.≠ j) (dbus_job_queue m)) m) st)
    else st in
  let st := if j_in_gc_queue jb then
      alter_job (set_j_in_gc_queue false) j
        (alter_mgr (λ m, set_gc_job_queue (filter (.≠ j) (gc_job_queue m)) m) st)
    else st in
  Some st.

Definition job_free (j : positive) (st : State) : option State :=
  jb ← heap st !! j;
  assert_ (job_unlinked st j jb);;
  st ← job_unlink j st;
  Some (set_heap (delete j (heap st)) st).

Definition job_dependency_new (s : option positive) (o : positive) (m c : bool) (st : State) : State :=
  set_links (MkDep s o m c :: links st) st.

End Ops.

(** Read a field through a chain of updates, without unfolding anything else. *)
Ltac st_simpl_in H :=
  unfold set_heap, set_links, set_jobs, set_anchor_job, set_mgr, alter_mgr in H;
  cbn [heap links jobs anchor_job irreversible mgr] in H.
Ltac st_simpl :=
  unfold set_heap, set_links, set_jobs, set_anchor_job, set_mgr, alter_mgr;
  cbn [heap links jobs anchor_job irreversible mgr].

(** ** A small system to run the definitions on *)

Definition ex_cmp (_ _ : positive) : Z := 0.
#[global] Instance ex_cmp_compare : CompareFunc ex_cmp.
Proof. split; unfold ex_cmp; intros; lia. Qed.

(** The run queue is the one of prioq.c. *)
Definition ex_rq : RunQueue := prioq_run_queue ex_cmp.

(** Units with given dependencies and states, all loaded, startable, stoppable and
    reloadable. *)
Definition ex_env (deps : positive → UnitDependencyAtom → list positive)
    (active : positive → UnitActiveState) (us : list positive) : Env := {|
  unit_active_state := active;
  unit_dependencies := deps;
  unit_following_set _ := [];
  ignore_on_isolate _ := false;
  allow_isolate _ := true;
  perpetual _ := false;
  unit_can_start _ := true;
  unit_can_stop _ := true;
  unit_can_reload _ := true;
  gc_jobs _ := false;
  load_error _ := -EINVAL;
  manager_unit_cache_should_retry_load _ := false;
  unit_load _ := (0, UNIT_LOADED);
  bus_referenced _ := false;
  rq_alloc_ok _ := true;
  units := us;
  iter := map_to_list;
  iter_perm _ := reflexivity _;
  iter_ids m := (map_to_list m).*2;
  iter_ids_perm _ := reflexivity _;
|}.

(** Dependencies given as a list of triples. *)
Definition ex_deps (ds : list (positive * UnitDependencyAtom * positive))
    (u : positive) (a : UnitDependencyAtom) : list positive :=
  omap (λ d, let '(u', a', v) := d in
             if decide (u' = u ∧ a' = a) then Some v else None) ds.

Lemma elem_of_ex_deps ds u a v : v ∈ ex_deps ds u a → (u, a, v) ∈ ds.
Proof.
  unfold ex_deps. rewrite list_elem_of_omap. intros ([[u' a'] v'] & Hd & Hv).
  case_decide as H; [|done]. destruct H as [-> ->]. by injection Hv as ->.
Qed.

Definition ex_mgr : @Manager ex_rq :=
  @MkManager ex_rq ∅ ∅ ∅ 1 0 0 0 (@rq_empty ex_rq) [] [] (λ _, UNIT_LOADED) [].

Definition ex_job (u : positive) (id : Z) (t : JobType) : Job :=
  MkJob u id t JOB_WAITING JOB_DONE false false false false None 0 false false false.

(** The empty transaction. *)
Definition ex_state : @State ex_rq := @MkState ex_rq ∅ [] ∅ None false ex_mgr.
