(* ===== verification/TrDelete.v ===== *)
(** * Deleting jobs from a transaction (src/core/transaction.c)

    [transaction_unlink_job], [transaction_delete_job], [transaction_delete_unit] and
    [transaction_abort]. Deletion is recursive: a job that needs (over a link that
    matters) a deleted job is deleted as well. The proofs describe the outcome without
    the recursion: [cut] removes a set of jobs at once, and the set is a closure. *)

From S2P Require Import Prelude JobType RunQueue JobData.

Section Delete.
Context {RQ : RunQueue}.
Implicit Types (st : State) (j k u o : positive) (l : JobDependency) (dd : bool).

(** ** The code *)

(** The first part of [transaction_unlink_job]: take [j] off the chain of its unit;
    an empty chain leaves the hash map. *)
Definition unlink_chain (j : positive) (st : State) : option State :=
  jb ← heap st !! j;
  let u := j_unit jb in
  Some match jobs st !! u with
  | None => st
  | Some c =>
      match filter (.≠ j) c with
      | [] => set_jobs (delete u (jobs st)) st
      | c' => set_jobs (<[u := c']> (jobs st)) st
      end
  end.

(** [while (j->subject_list) job_dependency_free(j->subject_list);] *)
Definition free_subject_list (j : positive) (st : State) : State :=
  set_links (filter (λ l, subject l ≠ Some j) (links st)) st.

(** The head of [j->object_list] and the links that remain when it is freed. *)
Fixpoint pop_object (j : positive) (ls : list JobDependency)
    : option (JobDependency * list JobDependency) :=
  match ls with
  | [] => None
  | l :: ls =>
      if decide (object l = j) then Some (l, ls)
      else '(l', ls') ← pop_object j ls; Some (l', l :: ls')
  end.

Definition unlink_start (j : positive) (st : State) : option State :=
  st ← unlink_chain j st; Some (free_subject_list j st).

(** The loop over [j->object_list], in which [transaction_delete_job] calls itself on
    the subjects of links that matter. Every round frees a link, so a fuel above the
    number of links is enough. *)
Fixpoint unlink_objects (fuel : nat) (dd : bool) (j : positive) (st : State) : option State :=
  match fuel with
  | O => None
  | S fuel =>
      match pop_object j (links st) with
      | None => Some st
      | Some (l, ls) =>
          let other := if matters l then subject l else None in
          let st := set_links ls st in
          st ← match other with
               | Some o =>
                   if dd then
                     st ← unlink_start o st;
                     st ← unlink_objects fuel dd o st;
                     job_free o st
                   else Some st
               | None => Some st
               end;
          unlink_objects fuel dd j st
      end
  end.

Definition transaction_unlink_job (j : positive) (dd : bool) (st : State) : option State :=
  st ← unlink_start j st;
  unlink_objects (S (length (links st))) dd j st.

Definition transaction_delete_job (j : positive) (dd : bool) (st : State) : option State :=
  st ← transaction_unlink_job j dd st;
  job_free j st.

(** [while ((j = hashmap_get(tr->jobs, u))) ...]: every round removes a job. *)
Fixpoint delete_unit_loop (fuel : nat) (u : positive) (st : State) : option State :=
  match fuel with
  | O => None
  | S fuel =>
      match jobs st !! u with
      | None => Some st
      | Some [] => None
      | Some (j :: _) => st ← transaction_delete_job j true st; delete_unit_loop fuel u st
      end
  end.

Definition transaction_delete_unit (u : positive) (st : State) : option State :=
  delete_unit_loop (S (size (heap st))) u st.

(** [while ((j = hashmap_first(tr->jobs))) ...] *)
Fixpoint abort_loop {E : Env} (fuel : nat) (st : State) : option State :=
  match fuel with
  | O => None
  | S fuel =>
      match iter (jobs st) with
      | [] => Some st
      | (_, []) :: _ => None
      | (_, j :: _) :: _ => st ← transaction_delete_job j false st; abort_loop fuel st
      end
  end.

Definition transaction_abort {E : Env} (st : State) : option State :=
  st ← abort_loop (S (size (heap st))) st;
  assert_ (bool_decide (jobs st = ∅));;
  Some st.

Lemma heap_alter_job f j st k :
  heap (alter_job f j st) !! k = if decide (k = j) then f <$> heap st !! k else heap st !! k.
Proof.
  unfold alter_job. st_simpl. case_decide as H; [subst; apply lookup_alter_eq|by rewrite lookup_alter_ne].
Qed.

(** ** Cutting sets of jobs out of a state *)

Definition touches (L : gset positive) (l : JobDependency) : Prop :=
  object l ∈ L ∨ ∃ k, subject l = Some k ∧ k ∈ L.

#[global] Instance touches_dec L l : Decision (touches L l).
Proof.
  unfold touches. destruct (decide (object l ∈ L)); [left; by left|].
  destruct (subject l) as [k|]; [|right; by intros [?|(? & ? & ?)]].
  destruct (decide (k ∈ L)); [left; right; eauto|right; by intros [?|(? & [= <-] & ?)]].
Defined.

Definition nonempty (c : list positive) : option (list positive) :=
  match c with [] => None | _ => Some c end.

Definition cut_jobs (L : gset positive) (m : gmap positive (list positive))
    : gmap positive (list positive) :=
  omap (λ c, nonempty (filter (.∉ L) c)) m.

(** Free the jobs [D]; unlink the jobs [L]. *)
Definition cut (D L : gset positive) (st : State) : State :=
  set_jobs (cut_jobs L (jobs st))
    (set_links (filter (λ l, ¬ touches L l) (links st))
      (set_heap (filter (λ kv, kv.1 ∉ D) (heap st)) st)).

(** A job that is not installed and on no queue of the manager. *)
Definition idle (jb : Job) : Prop :=
  j_installed jb = false ∧ j_in_run_queue jb = false ∧ j_in_dbus_queue jb = false ∧
  j_in_gc_queue jb = false.

Definition idle_job st k : Prop := ∃ jb, heap st !! k = Some jb ∧ idle jb.

(** What deletion relies on: chains and links hold jobs of the transaction. *)
Definition linked_ok st : Prop :=
  (∀ u c, jobs st !! u = Some c → c ≠ [] ∧
     ∀ k, k ∈ c → ∃ jb, heap st !! k = Some jb ∧ j_unit jb = u ∧ idle jb) ∧
  (∀ l, l ∈ links st → idle_job st (object l) ∧ ∀ k, subject l = Some k → idle_job st k).

(** [k] needs [i]. *)
Definition needs (ls : list JobDependency) (k i : positive) : Prop :=
  ∃ l, l ∈ ls ∧ subject l = Some k ∧ object l = i ∧ matters l = true.

(** The jobs that go when [j] is deleted. *)
Definition goes dd (ls : list JobDependency) (j k : positive) : Prop :=
  if dd then rtc (needs ls) k j else k = j.

(** ** Facts about [cut] *)

Lemma cut_jobs_union L1 L2 m : cut_jobs L1 (cut_jobs L2 m) = cut_jobs (L1 ∪ L2) m.
Proof.
  unfold cut_jobs. apply map_eq. intros u. rewrite !lookup_omap.
  destruct (m !! u) as [c|]; [|done]. simpl.
  assert (filter (.∉ L1 ∪ L2) c = filter (.∉ L1) (filter (.∉ L2) c)) as ->.
  { rewrite list_filter_filter. apply list_filter_iff. set_solver. }
  by destruct (filter (.∉ L2) c).
Qed.

Lemma cut_cut D1 L1 D2 L2 st : cut D1 L1 (cut D2 L2 st) = cut (D1 ∪ D2) (L1 ∪ L2) st.
Proof.
  unfold cut. st_simpl. f_equal.
  - rewrite map_filter_filter. apply map_filter_ext. intros i x _. cbn. set_solver.
  - rewrite list_filter_filter. apply list_filter_iff. unfold touches. set_solver.
  - apply cut_jobs_union.
Qed.

Lemma heap_cut D L st k : heap (cut D L st) !! k = if decide (k ∈ D) then None else heap st !! k.
Proof.
  unfold cut. st_simpl. rewrite map_lookup_filter. case_decide as Hk.
  - destruct (heap st !! k); [|done]. cbn. by rewrite option_guard_False by tauto.
  - destruct (heap st !! k); [|done]. cbn. by rewrite option_guard_True by done.
Qed.

Lemma links_cut D L st l : l ∈ links (cut D L st) ↔ ¬ touches L l ∧ l ∈ links st.
Proof. unfold cut. st_simpl. by rewrite list_elem_of_filter. Qed.

Lemma jobs_cut D L st u c :
  jobs (cut D L st) !! u = Some c ↔
  c ≠ [] ∧ ∃ c0, jobs st !! u = Some c0 ∧ c = filter (.∉ L) c0.
Proof.
  unfold cut. st_simpl. unfold cut_jobs. rewrite lookup_omap. destruct (jobs st !! u) as [c0|]; cbn; [|naive_solver].
  unfold nonempty. destruct (filter (.∉ L) c0) as [|x c'] eqn:E; split.
  - done.
  - intros (Hne & ? & [= <-] & ->). by rewrite E in Hne.
  - intros [= <-]. eauto.
  - intros (_ & ? & [= <-] & ->). by rewrite E.
Qed.

Lemma idle_job_cut D L st k : idle_job (cut D L st) k ↔ (k ∉ D) ∧ idle_job st k.
Proof. unfold idle_job. rewrite heap_cut. case_decide; naive_solver. Qed.

Lemma linked_ok_cut D L st : D ⊆ L → linked_ok st → linked_ok (cut D L st).
Proof.
  intros HDL [Hc Hl]. split.
  - intros u c (Hne & c0 & Hu & ->)%jobs_cut. split; [done|].
    intros k [Hk Hin]%list_elem_of_filter. rewrite heap_cut, decide_False by set_solver.
    by apply (Hc u c0).
  - intros l [Hnt Hin]%links_cut. destruct (Hl l Hin) as [Ho Hs]. unfold touches in Hnt. split.
    + apply idle_job_cut. set_solver.
    + intros k Hk. apply idle_job_cut. split; [|by apply Hs]. intros ?. apply Hnt. right. set_solver.
Qed.

(** Nothing changes if the unlinked jobs are on no link and on no chain. *)
Lemma cut_none L st :
  linked_ok st → (∀ l, l ∈ links st → ¬ touches L l) →
  (∀ u c k, jobs st !! u = Some c → k ∈ c → k ∉ L) →
  cut ∅ L st = st.
Proof.
  intros [Hc _] Hl Hj. destruct st as [h ls js a i m]. unfold cut. st_simpl. st_simpl_in Hl.
  f_equal.
  - apply map_filter_id. set_solver.
  - by apply filter_all.
  - apply map_eq. intros u. unfold cut_jobs. rewrite lookup_omap.
    destruct (js !! u) as [c|] eqn:E; [|done]. cbn. rewrite filter_all by eauto.
    destruct (Hc u c E) as [Hne _]. by destruct c.
Qed.

Lemma cut_empty st : linked_ok st → cut ∅ ∅ st = st.
Proof. intros Hok. apply cut_none; [done|unfold touches; set_solver|set_solver]. Qed.

Lemma cut_id j st :
  linked_ok st → (∀ l, l ∈ links st → object l ≠ j ∧ subject l ≠ Some j) →
  (∀ u c, jobs st !! u = Some c → j ∉ c) →
  cut ∅ {[j]} st = st.
Proof.
  intros Hok Hl Hj. apply cut_none; [done| |].
  - intros l Hin. destruct (Hl l Hin). unfold touches. set_solver.
  - intros u c k Hu Hk ->%elem_of_singleton. by apply (Hj u c).
Qed.

Lemma pop_object_spec j ls :
  match pop_object j ls with
  | None => ∀ l, l ∈ ls → object l ≠ j
  | Some (l, ls') => object l = j ∧ ∃ ls1 ls2, ls = ls1 ++ l :: ls2 ∧ ls' = ls1 ++ ls2
  end.
Proof.
  induction ls as [|l ls IH]; cbn [pop_object]; [by intros l ?%elem_of_nil|].
  case_decide as Ho; [split; [done|]; by exists [], ls|].
  destruct (pop_object j ls) as [[l' ls']|]; cbn [mbind option_bind].
  - destruct IH as (? & ls1 & ls2 & -> & ->). split; [done|]. by exists (l :: ls1), ls2.
  - intros l' [->|?]%elem_of_cons; auto.
Qed.

(** Taking a job off its chain is cutting it from the hash map. *)
Lemma unlink_chain_jobs j jb st :
  linked_ok st → heap st !! j = Some jb →
  unlink_chain j st = Some (set_jobs (cut_jobs {[j]} (jobs st)) st).
Proof.
  intros [Hc _] Hjb. unfold unlink_chain. rewrite Hjb. cbn [mbind option_bind].
  assert (Hne : ∀ u, u ≠ j_unit jb → cut_jobs {[j]} (jobs st) !! u = jobs st !! u).
  { intros u Hu. unfold cut_jobs. rewrite lookup_omap.
    destruct (jobs st !! u) as [c|] eqn:E; [|done]. cbn. destruct (Hc u c E) as [Hnil Hk].
    rewrite filter_all; [by destruct c|]. intros k Hin. destruct (Hk k Hin) as (? & ? & ? & _).
    intros ->%elem_of_singleton. congruence. }
  assert (Hf : ∀ c : list positive, filter (.∉ ({[j]} : gset positive)) c = filter (.≠ j) c).
  { intros c. apply list_filter_iff. set_solver. }
  assert (Heq : cut_jobs {[j]} (jobs st) !! j_unit jb =
    jobs st !! j_unit jb ≫= λ c, nonempty (filter (.≠ j) c)).
  { unfold cut_jobs. rewrite lookup_omap. destruct (jobs st !! j_unit jb); cbn; [by rewrite Hf|done]. }
  f_equal. destruct (jobs st !! j_unit jb) as [c|] eqn:E; cbn in Heq.
  - destruct (filter (.≠ j) c) as [|x c']; f_equal; apply map_eq; intros u;
      (destruct (decide (u = j_unit jb)) as [->|]; [|rewrite Hne by done]).
    + by rewrite lookup_delete_eq, Heq.
    + by rewrite lookup_delete_ne.
    + by rewrite lookup_insert_eq, Heq.
    + by rewrite lookup_insert_ne.
  - assert (cut_jobs {[j]} (jobs st) = jobs st) as ->; [|by destruct st].
    apply map_eq. intros u. destruct (decide (u = j_unit jb)) as [->|]; [congruence|by rewrite Hne].
Qed.

Lemma unlink_start_spec j st :
  linked_ok st → idle_job st j →
  ∃ st', unlink_start j st = Some st' ∧ linked_ok st' ∧ heap st' = heap st ∧
    links st' = filter (λ l, subject l ≠ Some j) (links st) ∧
    (∀ u c, jobs st' !! u = Some c → j ∉ c) ∧
    ∀ D L, j ∈ L → cut D L st' = cut D L st.
Proof.
  intros Hok (jb & Hjb & _). unfold unlink_start. rewrite (unlink_chain_jobs j jb) by done.
  cbn [mbind option_bind]. eexists. split; [done|]. unfold free_subject_list. st_simpl.
  destruct (linked_ok_cut ∅ {[j]} st) as [Hc _]; [set_solver|done|].
  destruct Hok as [_ Hl]. split_and!; [split|done..| |].
  - intros u c Hu. destruct (Hc u c Hu) as [? Hk]. split; [done|]. intros k Hin.
    destruct (Hk k Hin) as (jb' & Hh & ?). rewrite heap_cut, decide_False in Hh by set_solver. eauto.
  - intros l [_ Hin]%list_elem_of_filter. by apply Hl.
  - intros u c Hu. apply (jobs_cut ∅ {[j]} st) in Hu as (_ & c0 & _ & ->).
    rewrite list_elem_of_filter. set_solver.
  - intros D L HL. unfold cut. st_simpl. f_equal.
    + rewrite list_filter_filter. apply list_filter_iff. intros l. unfold touches.
      split; [tauto|]. intros Hn. split; [done|]. intros Hs. apply Hn. right. eauto.
    + rewrite cut_jobs_union. f_equal. set_solver.
Qed.

Lemma job_free_spec j st :
  linked_ok st → idle_job st j →
  (∀ l, l ∈ links st → object l ≠ j ∧ subject l ≠ Some j) →
  (∀ u c, jobs st !! u = Some c → j ∉ c) →
  job_free j st = Some (cut {[j]} {[j]} st).
Proof.
  intros Hok (jb & Hjb & Hi & Hr & Hd & Hg) Hl Hc.
  assert (job_unlinked st j jb = true) as Hu.
  { unfold job_unlinked, on_chain. rewrite Hi.
    assert (subject_list st j = [] ∧ object_list st j = []) as [-> ->].
    { unfold subject_list, object_list.
      split; apply filter_none; intros l Hin; destruct (Hl l Hin); done. }
    destruct (jobs st !! j_unit jb) as [c|] eqn:E; [|done].
    rewrite bool_decide_eq_false_2 by eauto. done. }
  unfold job_free, job_unlink. rewrite Hjb. cbn [mbind option_bind].
  rewrite Hu, !assert_bind by done. rewrite Hr, Hd, Hg. cbn [mbind option_bind].
  f_equal. replace (cut {[j]} {[j]} st) with (cut {[j]} ∅ (cut ∅ {[j]} st))
    by (rewrite cut_cut; f_equal; set_solver).
  rewrite cut_id by done. destruct st as [h ls js a i m]. unfold cut. st_simpl. f_equal.
  - apply map_eq. intros k. rewrite map_lookup_filter. destruct (decide (k = j)) as [->|].
    + rewrite lookup_delete_eq. destruct (h !! j); [|done]. cbn. by rewrite option_guard_False by set_solver.
    + rewrite lookup_delete_ne by done. destruct (h !! k); [|done]. cbn.
      by rewrite option_guard_True by set_solver.
  - symmetry. apply filter_all. unfold touches. set_solver.
  - apply map_eq. intros u. unfold cut_jobs. rewrite lookup_omap.
    destruct (js !! u) as [c|] eqn:E; [|done]. cbn. rewrite filter_all by set_solver.
    destruct Hok as [H _]. destruct (H u c E) as [Hne _]. by destruct c.
Qed.

Lemma needs_mono ls ls' k i : ls ⊆ ls' → needs ls k i → needs ls' k i.
Proof. intros Hs (l & Hl & H). exists l. auto. Qed.

(** The links of [o] itself do not matter for who reaches [o]. *)
Lemma rtc_needs_drop ls k o :
  rtc (needs ls) k o ↔ k = o ∨ tc (needs (filter (λ l, subject l ≠ Some o) ls)) k o.
Proof.
  split.
  - induction 1 as [|k x o (l & Hl & Hs & Ho & Hm) _ IH]; [by left|].
    destruct (decide (k = o)) as [->|Hne]; [by left|right].
    assert (Hk : needs (filter (λ l, subject l ≠ Some o) ls) k x).
    { exists l. rewrite list_elem_of_filter. split_and!; [congruence|done..]. }
    destruct IH as [->|IH]; [by apply tc_once|by eapply tc_l].
  - intros [->|H]; [done|]. apply tc_rtc. eapply tc_congruence with (f := id); [|exact H].
    intros x y. apply needs_mono. intros l [_ Hl]%list_elem_of_filter. done.
Qed.

(** ** The outcome of the recursion *)

Lemma linked_ok_links ls st : ls ⊆ links st → linked_ok st → linked_ok (set_links ls st).
Proof. intros Hs [Hc Hl]. split; [exact Hc|]. intros l Hin. apply (Hl l). auto. Qed.

(** Freeing one link of [j] first does not change what a cut that unlinks [j] leaves. *)
Lemma cut_pop D L ls1 l ls2 j st :
  links st = ls1 ++ l :: ls2 → object l = j → j ∈ L →
  cut D L (set_links (ls1 ++ ls2) st) = cut D L st.
Proof.
  intros Hls Ho HL. unfold cut. st_simpl. f_equal. rewrite Hls, !list.filter_app, filter_cons_False; [done|].
  unfold touches. rewrite Ho. tauto.
Qed.

Definition no_subject (j : positive) (ls : list JobDependency) : Prop :=
  ∀ l, l ∈ ls → subject l ≠ Some j.

(** The jobs that reach [j] are those that reach the popped subject [o], and those that
    reach [j] once the former are gone. *)
Lemma needs_split ls1 l ls2 o j (D1 : gset positive) k :
  no_subject j (ls1 ++ l :: ls2) → subject l = Some o → object l = j → matters l = true →
  (∀ k, k ∈ D1 ↔ rtc (needs (ls1 ++ ls2)) k o) →
  tc (needs (ls1 ++ l :: ls2)) k j ↔
  k ∈ D1 ∨ tc (needs (filter (λ l, ¬ touches D1 l) (ls1 ++ ls2))) k j.
Proof.
  intros Hns Hs Ho Hm HD.
  assert (Hsub : ls1 ++ ls2 ⊆ ls1 ++ l :: ls2) by (intros x; rewrite !elem_of_app, elem_of_cons; tauto).
  assert (Hj : j ∉ D1).
  { rewrite HD. intros Hr. apply rtc_inv in Hr as [->|(x & (l' & Hl' & Hs' & _) & _)].
    - apply (Hns l); [|done]. apply elem_of_app. right. apply list_elem_of_here.
    - by apply (Hns l'); [apply Hsub|]. }
  split.
  - (* a step into [k]: over the popped link, from D1, or over a link that stays *)
    assert (Hstep : ∀ k x, needs (ls1 ++ l :: ls2) k x → k ∉ D1 → (x ∉ D1) ∧
      needs (filter (λ l, ¬ touches D1 l) (ls1 ++ ls2)) k x).
    { intros k' x (l' & Hl' & Hs' & Ho' & Hm') Hk'.
      assert (Hl2 : l' ∈ ls1 ++ ls2).
      { rewrite elem_of_app, elem_of_cons in Hl'. rewrite elem_of_app.
        destruct Hl' as [?|[->|?]]; [tauto| |tauto]. exfalso. apply Hk', HD.
        assert (k' = o) as -> by congruence. done. }
      assert (Hx : x ∉ D1).
      { rewrite HD. intros Hx. apply Hk', HD. eapply rtc_l; [|exact Hx]. by exists l'. }
      split; [done|]. exists l'. rewrite list_elem_of_filter. split_and!; [|done..].
      unfold touches. rewrite Ho'. intros [?|(? & ? & ?)]; [done|]. by simplify_eq. }
    induction 1 as [k x Hk|k x y Hk _ IH].
    + destruct (decide (k ∈ D1)); [by left|right]. apply tc_once. by apply Hstep.
    + destruct (decide (k ∈ D1)) as [|Hk']; [by left|right].
      destruct (Hstep _ _ Hk Hk') as [Hx Hk2]. destruct IH as [?|IH]; [done..|].
      by eapply tc_l.
  - intros [Hk%HD|Hk].
    + eapply tc_rtc_l; [|apply tc_once; exists l; split_and!; [|done..]].
      * eapply rtc_congruence with (f := id); [|exact Hk]. intros ??. by apply needs_mono.
      * apply elem_of_app. right. apply list_elem_of_here.
    + eapply tc_congruence with (f := id); [|exact Hk]. intros ??. apply needs_mono.
      intros l' [_ ?]%list_elem_of_filter. by apply Hsub.
Qed.

Definition off_chains (j : positive) (st : State) : Prop :=
  ∀ u c, jobs st !! u = Some c → j ∉ c.

Lemma off_chains_cut j D L st : j ∈ L → off_chains j (cut D L st).
Proof. intros HL u c (_ & c0 & _ & ->)%jobs_cut. rewrite list_elem_of_filter. tauto. Qed.

(** Unlinking a job and freeing it is cutting it out with what goes with it. *)
Lemma delete_step (n : State → nat) dd j st :
  linked_ok st → idle_job st j →
  (∀ st', linked_ok st' → length (links st') <= length (links st) →
     no_subject j (links st') → off_chains j st' →
     links st' = filter (λ l, subject l ≠ Some j) (links st) →
     ∃ D, unlink_objects (n st') dd j st' = Some (cut D ({[j]} ∪ D) st') ∧
       ∀ k, k ∈ D ↔ dd = true ∧ tc (needs (links st')) k j)%nat →
  ∃ D, (st ← unlink_start j st; st ← unlink_objects (n st) dd j st; job_free j st) =
       Some (cut D D st) ∧
    ∀ k, k ∈ D ↔ goes dd (links st) j k.
Proof.
  intros Hok Hj Hrec.
  destruct (unlink_start_spec j st) as (st' & -> & Hok' & Hh & Hls & Hoff & Hcut); [done..|].
  cbn [mbind option_bind].
  assert (Hns : no_subject j (links st')).
  { rewrite Hls. by intros l [? _]%list_elem_of_filter. }
  destruct (Hrec st') as (D' & -> & HD'); [done| |done..|].
  { rewrite Hls. apply length_filter. }
  assert (HjD : j ∉ D').
  { rewrite HD'. intros [_ (x & l & ? & ? & _)%tc_first]. by apply (Hns l). }
  cbn [mbind option_bind]. exists ({[j]} ∪ D'). split.
  - rewrite job_free_spec.
    + rewrite cut_cut, <- Hcut by set_solver. f_equal. f_equal; set_solver.
    + apply linked_ok_cut; [set_solver|done].
    + apply idle_job_cut. split; [done|]. destruct Hj as (jb & ? & ?). exists jb. by rewrite Hh.
    + intros l [Hnt _]%links_cut. unfold touches in Hnt. set_solver.
    + apply off_chains_cut. set_solver.
  - intros k. rewrite elem_of_union, elem_of_singleton, HD'. unfold goes. destruct dd; [|naive_solver].
    rewrite rtc_needs_drop, <- Hls. naive_solver.
Qed.

Lemma unlink_objects_spec n dd j st :
  linked_ok st → (length (links st) < n)%nat → no_subject j (links st) → off_chains j st →
  ∃ D, unlink_objects n dd j st = Some (cut D ({[j]} ∪ D) st) ∧
    ∀ k, k ∈ D ↔ dd = true ∧ tc (needs (links st)) k j.
Proof.
  revert j st. induction n as [|n IH]; intros j st Hok Hn Hns Hoff; [lia|].
  cbn [unlink_objects]. pose proof (pop_object_spec j (links st)) as Hpop.
  destruct (pop_object j (links st)) as [[l ls]|].
  2:{ exists ∅. rewrite (right_id_L ∅ (∪) {[j]}), cut_id; [|done| |done].
      - split; [done|]. intros k. split; [set_solver|]. intros [_ (x & l & Hl & _ & Hx & _)%tc_last].
        by destruct (Hpop l Hl).
      - intros l Hl. split; [by apply Hpop|by apply Hns]. }
  destruct Hpop as (Ho & ls1 & ls2 & Hls & ->).
  assert (Hsub : ls1 ++ ls2 ⊆ links st).
  { intros x. rewrite Hls, !elem_of_app, elem_of_cons. tauto. }
  assert (Hlen : (length (ls1 ++ ls2) < n)%nat).
  { rewrite Hls, length_app in Hn. cbn in Hn. rewrite length_app. lia. }
  set (st1 := set_links (ls1 ++ ls2) st).
  assert (Hok1 : linked_ok st1) by by apply linked_ok_links.
  assert (Hns1 : no_subject j (links st1)) by (intros x ?; apply Hns, Hsub; done).
  destruct (decide (dd = true ∧ matters l = true ∧ is_Some (subject l))) as [Hrec|Hskip].
  - (* the subject goes first *)
    destruct Hrec as (-> & Hm & o & Hs). rewrite Hm, Hs.
    assert (Hlo : l ∈ links st) by (rewrite Hls; apply elem_of_app; right; apply list_elem_of_here).
    assert (Hidle : idle_job st1 o) by (by apply (proj2 Hok l)).
    destruct (delete_step (λ _, n) true o st1) as (D1 & E & HD1); [done..| |].
    { intros st' ? Hl ? ? _. apply IH; [done| |done..]. cbn in Hl. lia. }
    rewrite E. cbn [mbind option_bind]. clear E.
    destruct (IH j (cut D1 D1 st1)) as (D2 & -> & HD2).
    { by apply linked_ok_cut. }
    { cbn. pose proof (length_filter (λ l, ¬ touches D1 l) (ls1 ++ ls2)). lia. }
    { intros x [_ ?]%links_cut. by apply Hns1. }
    { intros u c (_ & c0 & Hu & ->)%jobs_cut. rewrite list_elem_of_filter. intros [_ ?].
      by apply (Hoff u c0). }
    exists (D1 ∪ D2). split.
    + rewrite cut_cut. unfold st1. f_equal. rewrite (cut_pop _ _ ls1 l ls2 j) by (done || set_solver).
      f_equal; set_solver.
    + intros k. rewrite elem_of_union, HD2, Hls.
      rewrite (needs_split ls1 l ls2 o j D1) by (done || by rewrite <- Hls). naive_solver.
  - assert ((match (if matters l then subject l else None) with
             | Some o => if dd then st ← unlink_start o st1; st ← unlink_objects n dd o st; job_free o st
                         else Some st1
             | None => Some st1 end) = Some st1) as ->.
    { destruct (matters l) eqn:?, (subject l) as [o|] eqn:?, dd; try done. exfalso. eauto. }
    cbn [mbind option_bind]. destruct (IH j st1) as (D & -> & HD); [done..|].
    exists D. split; [f_equal; apply (cut_pop _ _ ls1 l ls2 j); [done..|set_solver]|].
    intros k. rewrite HD. destruct dd; [|naive_solver].
    assert (Heq : ∀ a b, needs (ls1 ++ ls2) a b ↔ needs (links st) a b).
    { intros a b. split; [by apply needs_mono|]. intros (l' & Hl' & Hs' & Ho' & Hm').
      exists l'. rewrite Hls, elem_of_app, elem_of_cons in Hl'. rewrite elem_of_app.
      destruct Hl' as [?|[->|?]]; [tauto| |tauto]. exfalso. eauto 10. }
    split; (intros [_ Ht]; split; [done|]; eapply tc_congruence with (f := id); [|exact Ht]);
      intros a b; apply Heq.
Qed.

(** The specification of [transaction_delete_job]: the job goes together with exactly
    the jobs that need it, directly or indirectly. *)
Lemma transaction_delete_job_spec j dd st :
  linked_ok st → idle_job st j →
  ∃ D, transaction_delete_job j dd st = Some (cut D D st) ∧ ∀ k, k ∈ D ↔ goes dd (links st) j k.
Proof.
  intros Hok Hj.
  destruct (delete_step (λ st, S (length (links st))) dd j st) as (D & E & HD); [done..| |].
  - intros st' ?????. apply unlink_objects_spec; [done|lia|done..].
  - exists D. split; [|done]. rewrite <- E. unfold transaction_delete_job, transaction_unlink_job.
    by destruct (unlink_start j st).
Qed.

(** ** The invariant of a transaction *)

Definition in_tr st k : Prop := ∃ u c, jobs st !! u = Some c ∧ k ∈ c.

Definition tr_ok st : Prop :=
  linked_ok st ∧ (∀ u c, jobs st !! u = Some c → NoDup c) ∧
  (∀ l, l ∈ links st → in_tr st (object l) ∧ ∀ k, subject l = Some k → in_tr st k).

Lemma in_tr_cut D L st k : in_tr (cut D L st) k ↔ in_tr st k ∧ (k ∉ L).
Proof.
  unfold in_tr. split.
  - intros (u & c & (_ & c0 & Hu & ->)%jobs_cut & Hk). apply list_elem_of_filter in Hk as [? ?]. eauto.
  - intros [(u & c & Hu & Hk) HL]. exists u, (filter (.∉ L) c).
    assert (Hf : k ∈ filter (.∉ L) c) by by apply list_elem_of_filter.
    split; [|done]. apply jobs_cut. split; [|eauto]. intros E. rewrite E in Hf. by apply elem_of_nil in Hf.
Qed.

Lemma tr_ok_cut D st : tr_ok st → tr_ok (cut D D st).
Proof.
  intros (Hok & Hnd & Hl). split_and!.
  - by apply linked_ok_cut.
  - intros u c (_ & c0 & Hu & ->)%jobs_cut. apply NoDup_filter. eauto.
  - intros l [Hnt Hin]%links_cut. destruct (Hl l Hin) as [Ho Hs]. unfold touches in Hnt.
    split; [apply in_tr_cut; split; [done|tauto]|].
    intros k Hk. apply in_tr_cut. split; [by apply Hs|]. intros ?. apply Hnt. eauto.
Qed.

Lemma in_tr_idle st k : linked_ok st → in_tr st k → idle_job st k.
Proof.
  intros [Hc _] (u & c & Hu & Hk). destruct (Hc u c Hu) as [_ H]. destruct (H k Hk) as (jb & ? & _ & ?).
  by exists jb.
Qed.

(** Cutting out a job that is there makes the heap smaller. *)
Lemma size_cut D L st j : j ∈ D → is_Some (heap st !! j) → (size (heap (cut D L st)) < size (heap st))%nat.
Proof.
  intros HD [jb Hj]. apply map_subset_size, map_subset_alt. split.
  - apply map_filter_subseteq.
  - exists j. split; [by rewrite heap_cut, decide_True|eauto].
Qed.

(** A set of jobs that contains whoever needs one of it. *)
Definition closed ls (D : gset positive) : Prop := ∀ k i, needs ls k i → i ∈ D → k ∈ D.

Lemma closed_rtc ls D k i : closed ls D → rtc (needs ls) k i → i ∈ D → k ∈ D.
Proof. intros HD. induction 1; eauto. Qed.

(** Outside of a closed set, cutting it changes nothing about who needs whom. *)
Lemma rtc_needs_cut ls D k i :
  closed ls D → k ∉ D →
  rtc (needs ls) k i ↔ rtc (needs (filter (λ l, ¬ touches D l) ls)) k i ∧ (i ∉ D).
Proof.
  intros HD Hk. split.
  - intros Hr. assert (Hi : i ∉ D) by (intros Hi; by apply Hk, (closed_rtc ls D k i)).
    split; [|done]. revert Hk. induction Hr as [|k x i Hkx Hr IH]; [done|]. intros Hk.
    assert (Hx : x ∉ D) by (intros ?; apply Hk; eauto).
    eapply rtc_l; [|by apply IH]. destruct Hkx as (l & Hl & Hs & Ho & Hm). exists l.
    rewrite list_elem_of_filter. split_and!; [|done..]. unfold touches. rewrite Ho, Hs.
    intros [?|(? & [= <-] & ?)]; done.
  - intros [Hr _]. eapply rtc_congruence with (f := id); [|exact Hr]. intros ??. apply needs_mono.
    by intros l [_ ?]%list_elem_of_filter.
Qed.

Lemma closed_goes ls j (D : gset positive) : (∀ k, k ∈ D ↔ goes true ls j k) → closed ls D.
Proof. intros HD k i Hk Hi. apply HD. apply HD in Hi. cbn in *. by eapply rtc_l. Qed.

Lemma delete_unit_loop_spec n u st :
  tr_ok st → (size (heap st) < n)%nat →
  ∃ D, delete_unit_loop n u st = Some (cut D D st) ∧ closed (links st) D ∧
    ∀ k, k ∈ D ↔ ∃ c i, jobs st !! u = Some c ∧ i ∈ c ∧ rtc (needs (links st)) k i.
Proof.
  revert st. induction n as [|n IH]; intros st Hok Hn; [lia|]. cbn [delete_unit_loop].
  destruct (jobs st !! u) as [[|j c]|] eqn:Eu.
  - destruct Hok as ((Hc & _) & _). by destruct (Hc u [] Eu).
  - assert (Hj : in_tr st j) by (exists u, (j :: c); split; [done|apply list_elem_of_here]).
    pose proof (in_tr_idle st j (proj1 Hok) Hj) as Hidle.
    destruct (transaction_delete_job_spec j true st) as (D1 & -> & HD1); [apply Hok|done|].
    cbn [mbind option_bind]. pose proof (closed_goes _ _ _ HD1) as Hcl1.
    destruct (IH (cut D1 D1 st)) as (D2 & -> & Hcl2 & HD2); [by apply tr_ok_cut| |].
    { destruct Hidle as (jb & Hjb & _).
      pose proof (size_cut D1 D1 st j) as Hs. cut (size (heap (cut D1 D1 st)) < size (heap st))%nat; [lia|].
      apply Hs; [apply HD1; cbn; done|by rewrite Hjb]. }
    exists (D2 ∪ D1). split; [by rewrite cut_cut|].
    assert (Hchar : ∀ k, k ∈ D2 ∪ D1 ↔ ∃ i, i ∈ j :: c ∧ rtc (needs (links st)) k i).
    { intros k. rewrite elem_of_union. destruct (decide (k ∈ D1)) as [Hk|Hk].
      { split; [intros _|by right]. exists j. split; [apply list_elem_of_here|by apply HD1 in Hk]. }
      rewrite HD2. split.
      - intros [(c' & i & (_ & c0 & Hu & ->)%jobs_cut & Hi & Hr)|?]; [|done].
        apply list_elem_of_filter in Hi as [? Hi]. exists i. split; [congruence|].
        by apply (rtc_needs_cut _ D1).
      - intros (i & Hi & Hr). left. apply (rtc_needs_cut _ D1) in Hr as [Hr Hi2]; [|done..].
        assert (Hf : i ∈ filter (.∉ D1) (j :: c)) by by apply list_elem_of_filter.
        exists (filter (.∉ D1) (j :: c)), i. split_and!; [|done..]. apply jobs_cut.
        split; [|eauto]. intros E. rewrite E in Hf. by apply elem_of_nil in Hf. }
    split.
    + intros k i Hki (i' & ? & Hr)%Hchar. apply Hchar. exists i'. split; [done|]. by eapply rtc_l.
    + intros k. rewrite Hchar. split.
      * intros (i & ? & ?). eauto 10.
      * intros (c' & i & [= <-] & ? & ?). eauto.
  - exists ∅. split; [|split].
    + f_equal. symmetry. apply cut_empty, Hok.
    + intros ??. set_solver.
    + intros k. split; [set_solver|]. by intros (? & ? & ? & _).
Qed.

(** Deleting without dependencies removes one job. *)
Lemma abort_loop_spec {E : Env} n st :
  tr_ok st → (size (heap st) < n)%nat →
  ∃ D, abort_loop n st = Some (cut D D st) ∧ ∀ k, k ∈ D ↔ in_tr st k.
Proof.
  revert st. induction n as [|n IH]; intros st Hok Hn; [lia|]. cbn [abort_loop].
  destruct (iter (jobs st)) as [|[u c] rest] eqn:Ei.
  - exists ∅. rewrite cut_empty by apply Hok. split; [done|]. intros k. split; [set_solver|].
    intros (u & c & Hu & _). exfalso. pose proof (iter_perm (jobs st)) as Hp. rewrite Ei in Hp.
    apply elem_of_map_to_list in Hu. rewrite <- Hp in Hu. by apply elem_of_nil in Hu.
  - assert (Hu : jobs st !! u = Some c).
    { apply elem_of_map_to_list. rewrite <- iter_perm, Ei. apply list_elem_of_here. }
    destruct c as [|j c].
    { destruct Hok as ((Hc & _) & _). by destruct (Hc u [] Hu). }
    assert (Hj : in_tr st j) by (exists u, (j :: c); split; [done|apply list_elem_of_here]).
    pose proof (in_tr_idle st j (proj1 Hok) Hj) as Hidle.
    destruct (transaction_delete_job_spec j false st) as (D1 & -> & HD1); [apply Hok|done|].
    cbn [mbind option_bind].
    destruct (IH (cut D1 D1 st)) as (D2 & -> & HD2); [by apply tr_ok_cut| |].
    { destruct Hidle as (jb & Hjb & _).
      cut (size (heap (cut D1 D1 st)) < size (heap st))%nat; [lia|].
      apply (size_cut D1 D1 st j); [by apply HD1|by rewrite Hjb]. }
    exists (D2 ∪ D1). split; [by rewrite cut_cut|]. intros k.
    rewrite elem_of_union, HD2, in_tr_cut. destruct (decide (k ∈ D1)) as [Hk|Hk]; [|tauto].
    split; [intros _|by right]. apply HD1 in Hk. cbn in Hk. by subst.
Qed.

Lemma cut_all_jobs D st : (∀ k, in_tr st k → k ∈ D) → jobs (cut D D st) = ∅.
Proof.
  intros HD. apply map_empty. intros u. destruct (jobs (cut D D st) !! u) as [c|] eqn:E; [|done].
  pose proof E as (Hne & _)%jobs_cut. destruct c as [|k c]; [done|].
  assert (in_tr (cut D D st) k) as [? ?]%in_tr_cut.
  { exists u, (k :: c). split; [done|apply list_elem_of_here]. }
  naive_solver.
Qed.

(** The invariant in decidable form. *)
Definition job_at (P : Job → Prop) st k : Prop :=
  match heap st !! k with Some jb => P jb | None => False end.
Definition on_a_chain st k : Prop :=
  match heap st !! k with
  | Some jb => match jobs st !! j_unit jb with Some c => k ∈ c | None => False end
  | None => False
  end.
Definition tr_ok_dec_form st : Prop :=
  map_Forall (λ u c, c ≠ [] ∧ NoDup c ∧ Forall (job_at (λ jb, j_unit jb = u ∧ idle jb) st) c) (jobs st) ∧
  Forall (λ l, on_a_chain st (object l) ∧
               match subject l with Some k => on_a_chain st k | None => True end) (links st).

#[global] Instance tr_ok_dec_form_dec st : Decision (tr_ok_dec_form st).
Proof.
  unfold tr_ok_dec_form, job_at, on_a_chain, idle.
  apply and_dec; [apply map_Forall_dec; intros u c; repeat apply and_dec; try apply _|].
  - apply Forall_dec. intros k. destruct (heap st !! k); apply _.
  - apply Forall_dec. intros l. apply and_dec.
    + destruct (heap st !! object l) as [jb|]; [destruct (jobs st !! j_unit jb)|]; apply _.
    + destruct (subject l) as [k|]; [|apply _].
      destruct (heap st !! k) as [jb|]; [destruct (jobs st !! j_unit jb)|]; apply _.
Defined.

Lemma on_a_chain_in_tr st k : on_a_chain st k → in_tr st k.
Proof.
  unfold on_a_chain. destruct (heap st !! k) as [jb|]; [|done].
  destruct (jobs st !! j_unit jb) as [c|] eqn:E; [|done]. intros ?. by exists (j_unit jb), c.
Qed.

Lemma tr_ok_check st : tr_ok_dec_form st → tr_ok st.
Proof.
  intros [Hc Hl]. rewrite Forall_forall in Hl.
  assert (Hlk : ∀ l, l ∈ links st → in_tr st (object l) ∧ ∀ k, subject l = Some k → in_tr st k).
  { intros l Hin. destruct (Hl l Hin) as [Ho Hs]. split; [by apply on_a_chain_in_tr|].
    intros k Hk. rewrite Hk in Hs. by apply on_a_chain_in_tr. }
  assert (Hc' : ∀ u c, jobs st !! u = Some c → c ≠ [] ∧
     ∀ k, k ∈ c → ∃ jb, heap st !! k = Some jb ∧ j_unit jb = u ∧ idle jb).
  { intros u c Hu. destruct (Hc u c Hu) as (Hne & _ & Hf). split; [done|]. rewrite Forall_forall in Hf.
    intros k Hk. specialize (Hf k Hk). unfold job_at in Hf. destruct (heap st !! k); [eauto|done]. }
  split_and!; [split; [done|]|..].
  - intros l Hin. destruct (Hlk l Hin) as [Ho Hs].
    assert (H : ∀ k, in_tr st k → idle_job st k).
    { intros k (u & c & Hu & Hk). destruct (Hc' u c Hu) as [_ H]. destruct (H k Hk) as (jb & ? & _ & ?).
      by exists jb. }
    split; [by apply H|]. intros k Hk. apply H. by apply Hs.
  - intros u c Hu. by destruct (Hc u c Hu) as (_ & ? & _).
  - done.
Qed.

(** ** Properties *)

(** C18: [transaction_delete_job] never fails an assertion, terminates, and removes
    exactly the job and (with [delete_dependencies]) every job that needs it directly
    or indirectly over links that matter: from the heap, from the chains and with all
    their links; every other job, chain and link is left as it was, and so is the rest
    of the manager. The transaction's invariant is kept. *)
Theorem transaction_delete_job_closure (st : State) (j : positive) (dd : bool) :
  tr_ok st → in_tr st j →
  ∃ D, transaction_delete_job j dd st = Some (cut D D st) ∧
    (∀ k, k ∈ D ↔ if dd then rtc (needs (links st)) k j else k = j) ∧
    tr_ok (cut D D st) ∧ (∀ k, in_tr (cut D D st) k ↔ in_tr st k ∧ (k ∉ D)).
Proof.
  intros Hok Hj.
  destruct (transaction_delete_job_spec j dd st) as (D & HD & Hk);
    [apply Hok|apply in_tr_idle; [apply Hok|done]|].
  exists D. split_and!; [done..|by apply tr_ok_cut|]. intros k. apply in_tr_cut.
Qed.

(** [transaction_delete_unit] terminates, leaves no job of the unit in the
    transaction and removes, besides, exactly the jobs that need one of them. *)
Lemma transaction_delete_unit_closure (st : State) (u : positive) :
  tr_ok st →
  ∃ D, transaction_delete_unit u st = Some (cut D D st) ∧ tr_ok (cut D D st) ∧
    jobs (cut D D st) !! u = None ∧
    ∀ k, k ∈ D ↔ ∃ c i, jobs st !! u = Some c ∧ i ∈ c ∧ rtc (needs (links st)) k i.
Proof.
  intros Hok. destruct (delete_unit_loop_spec (S (size (heap st))) u st) as (D & HD & _ & Hk);
    [done|lia|].
  exists D. split_and!; [done|by apply tr_ok_cut| |done].
  destruct (jobs (cut D D st) !! u) as [c|] eqn:E; [|done].
  apply jobs_cut in E as (Hne & c0 & Hu & ->). destruct Hne. apply filter_none.
  intros k Hin HnD. apply HnD, Hk. exists c0, k. split_and!; [done..|apply rtc_refl].
Qed.

(** [transaction_abort] terminates without failing its final assertion: the jobs
    of the transaction and all links are gone, and everything else (the installed jobs,
    the manager) is untouched. *)
Theorem transaction_abort_empties {E : Env} (st : State) :
  tr_ok st →
  ∃ st', transaction_abort st = Some st' ∧ jobs st' = ∅ ∧ links st' = [] ∧ mgr st' = mgr st ∧
    ∀ k, heap st' !! k = None ↔ heap st !! k = None ∨ in_tr st k.
Proof.
  intros Hok. destruct (abort_loop_spec (S (size (heap st))) st) as (D & HD & Hk); [done|lia|].
  exists (cut D D st). unfold transaction_abort. rewrite HD. cbn [mbind option_bind].
  assert (Hj : jobs (cut D D st) = ∅) by (apply cut_all_jobs; intros; by apply Hk).
  rewrite assert_bind by by apply bool_decide_eq_true. split_and!; [done..| |done|].
  - unfold cut. st_simpl. apply filter_none. intros l Hl Hnt. apply Hnt. left. apply Hk.
    by apply (proj2 (proj2 Hok)).
  - intros k. rewrite heap_cut. case_decide as Hin; rewrite Hk in Hin; tauto.
Qed.

End Delete.

(** ** Witnesses *)

(** Unit 1 needs unit 2, which needs unit 3; unit 4 only wants unit 3. *)
Definition ex_tr : @State ex_rq :=
  set_links [MkDep (Some 1%positive) 2 true false; MkDep (Some 2%positive) 3 true false;
             MkDep (Some 4%positive) 3 false false]
  (set_jobs (list_to_map [(1, [1]); (2, [2]); (3, [3]); (4, [4])]%positive)
  (set_heap (list_to_map [(1, ex_job 1 1 JOB_START); (2, ex_job 2 2 JOB_START);
                          (3, ex_job 3 3 JOB_START); (4, ex_job 4 4 JOB_START)]%positive) ex_state)).

Lemma ex_tr_ok : tr_ok ex_tr.
Proof. apply tr_ok_check. by_decide. Qed.

Lemma transaction_delete_job_closure_witness :
  ∃ D, transaction_delete_job 3 true ex_tr = Some (cut D D ex_tr) ∧ tr_ok (cut D D ex_tr) ∧
    ∀ k, k ∈ D ↔ rtc (needs (links ex_tr)) k 3%positive.
Proof.
  destruct (transaction_delete_job_closure ex_tr 3 true) as (D & H1 & H2 & H3 & _).
  - apply ex_tr_ok.
  - exists 3%positive, [3%positive]. split; [reflexivity|apply list_elem_of_here].
  - exists D. split_and!; [exact H1|exact H3|exact H2].
Defined.

Lemma transaction_abort_empties_witness :
  let E := ex_env (λ _ _, []) (λ _, UNIT_INACTIVE) [] in
  ∃ st', transaction_abort ex_tr = Some st' ∧ jobs st' = ∅ ∧ links st' = [].
Proof.
  intros E. destruct (transaction_abort_empties ex_tr) as (st' & H1 & H2 & H3 & _); [apply ex_tr_ok|].
  exists st'. split_and!; [exact H1|exact H2|exact H3].
Defined.

(** Deleting the job of unit 3 takes 1 and 2 along and keeps 4. *)
Example ex_delete : (λ st, (map_to_list (heap st)).*1) <$> transaction_delete_job 3 true ex_tr
  = Some [4%positive].
Proof. vm_compute. reflexivity. Qed.
