(* ===== verification/TrFix.v ===== *)
(** * Trimming a transaction (src/core/transaction.c)

    The steps of [transaction_activate] that mark and drop jobs:
    [transaction_find_jobs_that_matter_to_anchor], [transaction_minimize_impact],
    [transaction_drop_redundant] and [transaction_collect_garbage]. *)

From S2P Require Import Prelude JobType RunQueue JobData TrDelete.

Section Fix.
Context {RQ : RunQueue}.
Implicit Types (st : State) (j k u o : positive) (l : JobDependency).

(** ** The code *)

(** The recursive sweep. A link is followed when it matters and its object does not
    have the generation yet; every call marks one more job, so a fuel above the number
    of jobs is enough. *)
Fixpoint find_matter (fuel : nat) (generation : Z) (j : positive) (st : State) : option State :=
  match fuel with
  | O => None
  | S fuel =>
      jb ← heap st !! j;
      let st := alter_job (λ jb, set_j_generation generation (set_j_matters_to_anchor true jb)) j st in
      foldl (λ acc l,
               st ← acc;
               if matters l then
                 ob ← heap st !! object l;
                 if j_generation ob =? generation then Some st
                 else find_matter fuel generation (object l) st
               else Some st)
            (Some st) (subject_list st j)
  end.

Definition transaction_find_jobs_that_matter_to_anchor (j : positive) (generation : Z) (st : State)
    : option State :=
  find_matter (S (size (heap st))) generation j st.

Section Steps.
Context {E : Env}.

(** Three of the steps scan the transaction, delete the first job they find and start
    over ([goto rescan], [do ... while (again)]). A deletion removes a job, so a fuel
    above the number of jobs is enough. *)
Fixpoint delete_while (pick : State → option (option positive)) (dd : bool) (fuel : nat)
    (st : State) : option State :=
  match fuel with
  | O => None
  | S fuel =>
      r ← pick st;
      match r with
      | None => Some st
      | Some j => st ← transaction_delete_job j dd st; delete_while pick dd fuel st
      end
  end.

(** Whether [transaction_minimize_impact] drops this job. *)
Definition drops_for_impact (j : positive) (st : State) : option bool :=
  jb ← heap st !! j;
  if j_matters_to_anchor jb then Some false
  else
    let stops_running_service :=
      bool_decide (j_type jb = JOB_STOP) &&
      UNIT_IS_ACTIVE_OR_ACTIVATING (unit_active_state (j_unit jb)) in
    changes_existing_job ←
      match installed_job st (j_unit jb) with
      | None => Some false
      | Some i => ib ← heap st !! i; job_type_is_conflicting (j_type jb) (j_type ib)
      end;
    Some (stops_running_service || changes_existing_job).

(** The first entry of a list on which a fallible test answers yes. *)
Fixpoint find_first {A} (p : A → option bool) (xs : list A) : option (option A) :=
  match xs with
  | [] => Some None
  | x :: xs => b ← p x; if b : bool then Some (Some x) else find_first p xs
  end.

(** The jobs in the order in which HASHMAP_FOREACH and LIST_FOREACH visit them. *)
Definition all_jobs (st : State) : list positive := iter (jobs st) ≫= snd.

(** The heads of the chains, as HASHMAP_FOREACH gives them. *)
Definition heads (st : State) : list positive := omap (λ uc, head (snd uc)) (iter (jobs st)).

Definition transaction_minimize_impact (st : State) : option State :=
  delete_while (λ st, find_first (λ j, drops_for_impact j st) (all_jobs st)) true
    (S (size (heap st))) st.

(** The condition under which [transaction_drop_redundant] keeps the jobs of a unit
    because of the job [k]. *)
Definition keeps_unit (st : State) (k : positive) : option bool :=
  if bool_decide (anchor_job st = Some k) then Some true
  else
    kb ← heap st !! k;
    r ← job_type_is_redundant (j_type kb) (unit_active_state (j_unit kb));
    if negb r then Some true
    else match installed_job st (j_unit kb) with
    | None => Some false
    | Some i => ib ← heap st !! i; job_type_is_conflicting (j_type kb) (j_type ib)
    end.

Definition unit_redundant (st : State) (c : list positive) : option bool :=
  r ← find_first (keeps_unit st) c;
  Some (match r with None => true | Some _ => false end).

(** The head of the first chain that has no job to keep. *)
Definition pick_redundant (st : State) : option (option positive) :=
  r ← find_first (λ uc, unit_redundant st (snd uc)) (iter (jobs st));
  match r with
  | None => Some None
  | Some uc => j ← head (snd uc); Some (Some j)
  end.

Definition transaction_drop_redundant (st : State) : option State :=
  delete_while pick_redundant false (S (size (heap st))) st.

(** Whether [transaction_collect_garbage] deletes the job at the head of a chain. *)
Definition is_garbage (st : State) (j : positive) : bool :=
  negb (bool_decide (anchor_job st = Some j)) && bool_decide (object_list st j = []).

Definition transaction_collect_garbage (st : State) : option State :=
  delete_while (λ st, find_first (λ j, Some (is_garbage st j)) (heads st)) true
    (S (size (heap st))) st.

(** ** The invariants of the steps *)

(** Jobs have types that may be in a transaction; [u->job] is an installed job of [u]
    that is not a NOP. *)
Definition types_ok st : Prop := ∀ k jb, heap st !! k = Some jb → transaction_type (j_type jb).
Definition installed_ok st : Prop := ∀ u i, installed_job st u = Some i →
  ∃ ib, heap st !! i = Some ib ∧ j_installed ib = true ∧ j_unit ib = u ∧ merging_type (j_type ib).

Definition st_ok st : Prop := tr_ok st ∧ types_ok st ∧ installed_ok st.

Lemma st_ok_cut D st : st_ok st → (∀ k, k ∈ D → in_tr st k) → st_ok (cut D D st).
Proof.
  intros (Hok & Ht & Hi) HD. split_and!.
  - by apply tr_ok_cut.
  - intros k jb. rewrite heap_cut. case_decide; [done|apply Ht].
  - intros u i Hu. destruct (Hi u i Hu) as (ib & Hib & Hinst & H). exists ib.
    rewrite heap_cut, decide_False; [done|]. intros Hin.
    destruct (in_tr_idle st i (proj1 Hok) (HD i Hin)) as (ib' & ? & ? & _). congruence.
Qed.

(** Who needs a job of the transaction is in the transaction. *)
Lemma goes_in_tr dd st j k : tr_ok st → in_tr st j → goes dd (links st) j k → in_tr st k.
Proof.
  intros (_ & _ & Hl) Hj. destruct dd; cbn; [|by intros ->].
  intros Hr. apply rtc_tc in Hr as [->|(i & l & Hin & Hs & _)%tc_first]; [done|].
  by apply (Hl l).
Qed.

(** The loop deletes jobs with property [Q] until nothing is picked. *)
Lemma delete_while_spec pick dd (Inv : State → Prop) (Q : positive → Prop) :
  (∀ st, st_ok st → Inv st → ∃ r, pick st = Some r ∧ ∀ j, r = Some j →
     in_tr st j ∧ ∀ D, (∀ k, k ∈ D ↔ goes dd (links st) j k) →
       Inv (cut D D st) ∧ ∀ k, k ∈ D → Q k) →
  ∀ n st, st_ok st → Inv st → (size (heap st) < n)%nat →
  ∃ D, delete_while pick dd n st = Some (cut D D st) ∧ st_ok (cut D D st) ∧ Inv (cut D D st) ∧
    pick (cut D D st) = Some None ∧ ∀ k, k ∈ D → Q k ∧ in_tr st k.
Proof.
  intros Hpick. induction n as [|n IH]; intros st Hok HI Hn; [lia|]. cbn [delete_while].
  destruct (Hpick st Hok HI) as (r & Hr & Hj). rewrite Hr. cbn [mbind option_bind].
  destruct r as [j|].
  - destruct (Hj j eq_refl) as [Hin HD]. pose proof Hok as ((Hlo & Htr) & _).
    pose proof (in_tr_idle st j Hlo Hin) as Hidle.
    destruct (transaction_delete_job_spec j dd st Hlo Hidle) as (D1 & -> & HD1).
    cbn [mbind option_bind]. destruct (HD D1 HD1) as [HI1 HQ1].
    assert (Hin1 : ∀ k, k ∈ D1 → in_tr st k).
    { intros k Hk. apply HD1 in Hk. eapply goes_in_tr; [apply Hok|exact Hin|exact Hk]. }
    destruct (IH (cut D1 D1 st)) as (D2 & -> & Hok2 & HI2 & Hp2 & HQ2); [by apply st_ok_cut|done| |].
    { cut (size (heap (cut D1 D1 st)) < size (heap st))%nat; [lia|]. destruct Hidle as (jb & Hjb & _).
      apply (size_cut D1 D1 st j); [|by rewrite Hjb]. apply HD1. destruct dd; [apply rtc_refl|done]. }
    rewrite cut_cut in *. exists (D2 ∪ D1). split_and!; [done..|].
    intros k [Hk|Hk]%elem_of_union; [|auto]. destruct (HQ2 k Hk) as [? [? _]%in_tr_cut]. done.
  - exists ∅. rewrite cut_empty by apply Hok. split_and!; [done..|]. set_solver.
Qed.

(** ** Facts about scanning *)

Lemma find_first_None {A} (p : A → option bool) xs :
  find_first p xs = Some None ↔ ∀ x, x ∈ xs → p x = Some false.
Proof.
  induction xs as [|y xs IH]; cbn [find_first].
  - split; [by intros _ x ?%elem_of_nil|done].
  - destruct (p y) as [[]|] eqn:Ey; cbn [mbind option_bind].
    + split; [done|]. intros H. specialize (H y (list_elem_of_here _ _)). congruence.
    + rewrite IH. split; [|intros H x ?; apply H; by apply list_elem_of_further].
      intros H x [->|?]%elem_of_cons; auto.
    + split; [done|]. intros H. specialize (H y (list_elem_of_here _ _)). congruence.
Qed.

Lemma find_first_Some {A} (p : A → option bool) xs x :
  find_first p xs = Some (Some x) → x ∈ xs ∧ p x = Some true.
Proof.
  induction xs as [|y xs IH]; cbn [find_first]; [done|].
  destruct (p y) as [[]|] eqn:Ey; cbn [mbind option_bind]; [| |done].
  - intros [= <-]. split; [apply list_elem_of_here|done].
  - intros [? ?]%IH. split; [by apply list_elem_of_further|done].
Qed.

Lemma find_first_defined {A} (p : A → option bool) xs :
  (∀ x, x ∈ xs → is_Some (p x)) → is_Some (find_first p xs).
Proof.
  induction xs as [|y xs IH]; intros H; cbn [find_first]; [eauto|].
  destruct (H y (list_elem_of_here _ _)) as [[] ->]; cbn [mbind option_bind]; [eauto|].
  apply IH. intros x ?. apply H. by apply list_elem_of_further.
Qed.

Lemma elem_of_iter st u c : (u, c) ∈ iter (jobs st) ↔ jobs st !! u = Some c.
Proof. rewrite iter_perm. apply elem_of_map_to_list. Qed.

Lemma elem_of_all_jobs st k : k ∈ all_jobs st ↔ in_tr st k.
Proof.
  unfold all_jobs, in_tr. rewrite list_elem_of_bind. split.
  - intros ([u c] & Hk & Hu%elem_of_iter). eauto.
  - intros (u & c & Hu & Hk). exists (u, c). split; [done|by apply elem_of_iter].
Qed.

Lemma elem_of_heads st k : k ∈ heads st ↔ ∃ u c, jobs st !! u = Some (k :: c).
Proof.
  unfold heads. rewrite list_elem_of_omap. split.
  - intros ([u [|x c]] & Hu%elem_of_iter & [= ->]). eauto.
  - intros (u & c & Hu). exists (u, k :: c). split; [by apply elem_of_iter|done].
Qed.

Lemma heads_in_tr st k : k ∈ heads st → in_tr st k.
Proof. intros (u & c & Hu)%elem_of_heads. exists u, (k :: c). split; [done|apply list_elem_of_here]. Qed.

(** The installed job of a unit, seen from a job of the transaction. *)
Lemma conflicting_defined st (jb : Job) :
  st_ok st → transaction_type (j_type jb) →
  is_Some (match installed_job st (j_unit jb) with
           | None => Some false
           | Some i => ib ← heap st !! i; job_type_is_conflicting (j_type jb) (j_type ib)
           end).
Proof.
  intros (_ & _ & Hi) Ht. destruct (installed_job st (j_unit jb)) as [i|] eqn:Ei; [|eauto].
  destruct (Hi _ _ Ei) as (ib & -> & _ & _ & Hm). cbn [mbind option_bind].
  by apply job_type_is_conflicting_defined.
Qed.

Lemma in_tr_job st k : st_ok st → in_tr st k →
  ∃ jb, heap st !! k = Some jb ∧ transaction_type (j_type jb) ∧ j_installed jb = false.
Proof.
  intros (Hok & Ht & _) Hk. destruct (in_tr_idle st k (proj1 Hok) Hk) as (jb & Hjb & Hid & _).
  exists jb. eauto.
Qed.

(** ** [transaction_minimize_impact] *)

(** Marks spread along links that matter. *)
Definition marks_closed st : Prop := ∀ k i kb, needs (links st) k i →
  heap st !! k = Some kb → j_matters_to_anchor kb = true →
  ∃ ib, heap st !! i = Some ib ∧ j_matters_to_anchor ib = true.

(** Every job of the transaction is as it was in [st0]. *)
Definition heap_within st0 st : Prop := ∀ k jb, heap st !! k = Some jb → heap st0 !! k = Some jb.

Lemma drops_for_impact_defined st k : st_ok st → in_tr st k → is_Some (drops_for_impact k st).
Proof.
  intros Hok Hk. destruct (in_tr_job st k Hok Hk) as (jb & Hjb & Ht & _).
  unfold drops_for_impact. rewrite Hjb. cbn [mbind option_bind].
  destruct (j_matters_to_anchor jb); [eauto|].
  destruct (conflicting_defined st jb Hok Ht) as [b ->]. cbn [mbind option_bind]. eauto.
Qed.

Lemma drops_for_impact_true st k : drops_for_impact k st = Some true →
  ∃ jb, heap st !! k = Some jb ∧ j_matters_to_anchor jb = false.
Proof.
  unfold drops_for_impact. destruct (heap st !! k) as [jb|]; cbn [mbind option_bind]; [|done].
  intros H. exists jb. split; [done|]. by destruct (j_matters_to_anchor jb).
Qed.

Lemma heap_cut_within D L st k jb : heap (cut D L st) !! k = Some jb → heap st !! k = Some jb.
Proof. rewrite heap_cut. by case_decide. Qed.

Lemma marks_closed_cut D st : marks_closed st → marks_closed (cut D D st).
Proof.
  intros H k i kb (l & [Hnt Hl]%links_cut & Hs & Ho & Hm) Hk Hmark. apply heap_cut_within in Hk.
  destruct (H k i kb) as (ib & Hib & ?); [by exists l|done..|]. exists ib.
  rewrite heap_cut, decide_False; [done|]. intros Hi. apply Hnt. left. by rewrite Ho.
Qed.

(** Who needs an unmarked job is unmarked. *)
Lemma marks_closed_rtc st k i ib :
  marks_closed st → rtc (needs (links st)) k i → heap st !! i = Some ib → j_matters_to_anchor ib = false →
  ∀ kb, heap st !! k = Some kb → j_matters_to_anchor kb = false.
Proof.
  intros H. induction 1 as [i|k x i Hkx Hr IH]; intros Hi Hib kb Hk; [congruence|].
  destruct (j_matters_to_anchor kb) eqn:E'; [|done].
  destruct (H k x kb Hkx Hk E') as (xb & Hx & ?). specialize (IH Hi Hib xb Hx). congruence.
Qed.

Lemma minimize_impact_spec st :
  st_ok st → marks_closed st →
  ∃ D, transaction_minimize_impact st = Some (cut D D st) ∧ st_ok (cut D D st) ∧
    (∀ k, k ∈ D → in_tr st k ∧ ∀ kb, heap st !! k = Some kb → j_matters_to_anchor kb = false) ∧
    ∀ k, in_tr (cut D D st) k → drops_for_impact k (cut D D st) = Some false.
Proof.
  intros Hok Hmc.
  destruct (delete_while_spec (λ st, find_first (λ j, drops_for_impact j st) (all_jobs st)) true
    (λ s, marks_closed s ∧ heap_within st s)
    (λ k, ∀ kb, heap st !! k = Some kb → j_matters_to_anchor kb = false)) with
    (n := S (size (heap st))) (st := st) as (D & HD & Hok' & _ & Hp & HQ); [|done| |lia|].
  - intros s Hs [Hm Hw]. destruct (find_first_defined (λ j, drops_for_impact j s) (all_jobs s)) as [r Hr].
    { intros k Hk%elem_of_all_jobs. by apply drops_for_impact_defined. }
    exists r. split; [done|]. intros j ->. apply find_first_Some in Hr as [Hj%elem_of_all_jobs Hd].
    split; [done|]. intros D HD. split; [split|].
    + by apply marks_closed_cut.
    + intros k jb Hk%heap_cut_within. by apply Hw.
    + intros k Hk kb Hkb. apply HD in Hk. cbn in Hk.
      destruct (drops_for_impact_true s j Hd) as (jb & Hjb & Hf).
      assert (in_tr s k) as Hin by by apply (goes_in_tr true s j k (proj1 Hs) Hj).
      destruct (in_tr_job s k Hs Hin) as (kb' & Hkb' & _).
      pose proof (Hw k kb' Hkb') as Hkb2. assert (kb' = kb) as -> by congruence.
      by eapply marks_closed_rtc.
  - split; [done|]. by intros ??.
  - exists D. split_and!; [done|done| |].
    + intros k Hk. destruct (HQ k Hk). done.
    + intros k Hk. rewrite find_first_None in Hp. by apply Hp, elem_of_all_jobs.
Qed.

(** ** [transaction_collect_garbage] *)

(** [k] pulled in [i], whether it matters or not. *)
Definition pulls (ls : list JobDependency) (k i : positive) : Prop :=
  ∃ l, l ∈ ls ∧ subject l = Some k ∧ object l = i.

Lemma is_garbage_true st j : is_garbage st j = true →
  anchor_job st ≠ Some j ∧ ∀ l, l ∈ links st → object l ≠ j.
Proof.
  unfold is_garbage. intros [Ha Ho]%andb_true_iff. apply negb_true_iff, bool_decide_eq_false in Ha.
  apply bool_decide_eq_true in Ho. split; [done|]. intros l Hl Hj.
  assert (Hin : l ∈ object_list st j) by by apply list_elem_of_filter.
  rewrite Ho in Hin. by apply elem_of_nil in Hin.
Qed.

(** Nobody needs a job without object links: it goes alone. *)
Lemma garbage_goes_alone st j k :
  (∀ l, l ∈ links st → object l ≠ j) → goes true (links st) j k → k = j.
Proof.
  intros Hno Hr. cbn in Hr. apply rtc_tc in Hr as [?|(x & l & Hl & _ & Ho & _)%tc_last]; [done|].
  by destruct (Hno l Hl).
Qed.

Lemma pulls_cut_garbage st j a k (D : gset positive) :
  (∀ l, l ∈ links st → object l ≠ j) → a ≠ j → (∀ k, k ∈ D ↔ k = j) →
  rtc (pulls (links st)) a k → k ≠ j ∧ rtc (pulls (links (cut D D st))) a k.
Proof.
  intros Hno Ha HD Hr. revert Ha. induction Hr as [a|a x k (l & Hl & Hs & Ho) _ IH]; intros Ha.
  - split; [done|apply rtc_refl].
  - destruct IH as [Hk IH]; [intros ->; by apply (Hno l)|]. split; [done|]. eapply rtc_l; [|exact IH].
    exists l. rewrite links_cut. split_and!; [|done..]. unfold touches. rewrite Ho, Hs.
    intros [->%HD|(? & [= <-] & ->%HD)]; [by apply (Hno l)|done].
Qed.

Lemma collect_garbage_spec st a :
  st_ok st → anchor_job st = Some a →
  ∃ D, transaction_collect_garbage st = Some (cut D D st) ∧ st_ok (cut D D st) ∧
    (∀ k, k ∈ D → in_tr st k ∧ ¬ rtc (pulls (links st)) a k) ∧
    ∀ k, k ∈ heads (cut D D st) → is_garbage (cut D D st) k = false.
Proof.
  intros Hok Ha.
  destruct (delete_while_spec (λ st, find_first (λ j, Some (is_garbage st j)) (heads st)) true
    (λ s, anchor_job s = Some a ∧ ∀ k, rtc (pulls (links st)) a k → rtc (pulls (links s)) a k)
    (λ k, ¬ rtc (pulls (links st)) a k)) with
    (n := S (size (heap st))) (st := st) as (D & HD & Hok' & _ & Hp & HQ); [|done| |lia|].
  - intros s Hs [Hsa Hr]. destruct (find_first_defined (λ j, Some (is_garbage s j)) (heads s)) as [r Hf];
      [eauto|].
    exists r. split; [done|]. intros j ->. apply find_first_Some in Hf as [Hj [= Hg]].
    split; [by apply heads_in_tr|]. intros D HD.
    destruct (is_garbage_true s j Hg) as [Hne Hno].
    assert (HD' : ∀ k, k ∈ D ↔ k = j).
    { intros k. rewrite HD. split; [by apply garbage_goes_alone|]. intros ->. apply rtc_refl. }
    assert (Haj : a ≠ j) by congruence. split; [split; [done|]|].
    + intros k Hk. by eapply pulls_cut_garbage; [..|apply Hr].
    + intros k ->%HD' Hk. by destruct (pulls_cut_garbage s j a j D) as [? _]; [..|apply Hr|].
  - split; [done|auto].
  - exists D. split_and!; [done|done| |].
    + intros k Hk. destruct (HQ k Hk). done.
    + intros k Hk. rewrite find_first_None in Hp. specialize (Hp k Hk). congruence.
Qed.

(** ** [transaction_drop_redundant] *)

Lemma keeps_unit_defined st k : st_ok st → in_tr st k → is_Some (keeps_unit st k).
Proof.
  intros Hok Hk. destruct (in_tr_job st k Hok Hk) as (jb & Hjb & Ht & _).
  unfold keeps_unit. case_bool_decide; [eauto|]. rewrite Hjb. cbn [mbind option_bind].
  destruct (job_type_is_redundant_defined (j_type jb) (unit_active_state (j_unit jb)) Ht) as [r ->].
  cbn [mbind option_bind]. destruct r; [|eauto]. by apply conflicting_defined.
Qed.

(** Dropping other jobs does not change whether a job is worth keeping. *)
Lemma keeps_unit_cut D st k :
  st_ok st → (∀ k, k ∈ D → in_tr st k) → k ∉ D → keeps_unit (cut D D st) k = keeps_unit st k.
Proof.
  intros Hok HD Hk. unfold keeps_unit. rewrite heap_cut, decide_False by done.
  change (anchor_job (cut D D st)) with (anchor_job st). case_bool_decide; [done|].
  destruct (heap st !! k) as [kb|]; [|done]. cbn [mbind option_bind].
  destruct (job_type_is_redundant _ _) as [[]|]; [|done..]. cbn [mbind option_bind negb].
  change (installed_job (cut D D st)) with (installed_job st).
  destruct (installed_job st (j_unit kb)) as [i|] eqn:Ei; [|done]. rewrite heap_cut, decide_False; [done|].
  intros Hi%HD. destruct (in_tr_job st i Hok Hi) as (jb & Hjb & _ & Hn).
  destruct (proj2 (proj2 Hok) _ _ Ei) as (ib & ? & ? & _). congruence.
Qed.

(** All jobs of the unit of [k] can be dropped. *)
Definition redundant st k : Prop :=
  ∃ u c, jobs st !! u = Some c ∧ k ∈ c ∧ ∀ i, i ∈ c → keeps_unit st i = Some false.

Lemma unit_redundant_true st c :
  unit_redundant st c = Some true ↔ ∀ i, i ∈ c → keeps_unit st i = Some false.
Proof.
  unfold unit_redundant. rewrite <- find_first_None.
  by destruct (find_first (keeps_unit st) c) as [[?|]|].
Qed.

Lemma pick_redundant_spec st : st_ok st →
  (pick_redundant st = Some None ∧ ∀ k, ¬ redundant st k) ∨
  ∃ j, pick_redundant st = Some (Some j) ∧ redundant st j.
Proof.
  intros Hok. unfold pick_redundant.
  destruct (find_first_defined (λ uc, unit_redundant st (snd uc)) (iter (jobs st))) as [r Hr].
  { intros [u c] Hu%elem_of_iter. cbn. unfold unit_redundant.
    destruct (find_first_defined (keeps_unit st) c) as [r ->]; [|cbn; eauto].
    intros k Hk. apply keeps_unit_defined; [done|]. by exists u, c. }
  rewrite Hr. cbn [mbind option_bind]. destruct r as [[u c]|].
  - right. apply find_first_Some in Hr as [Hu%elem_of_iter Hc]. cbn in *.
    destruct (proj1 (proj1 Hok)) as [Hch _]. destruct (Hch u c Hu) as [Hne _].
    destruct c as [|j c]; [done|]. exists j. split; [done|]. exists u, (j :: c).
    split_and!; [done|apply list_elem_of_here|]. by apply unit_redundant_true.
  - left. split; [done|]. intros k (u & c & Hu & _ & Hc). rewrite find_first_None in Hr.
    specialize (Hr (u, c) (proj2 (elem_of_iter st u c) Hu)). cbn beta iota delta [snd] in Hr.
    apply unit_redundant_true in Hc. congruence.
Qed.

Lemma redundant_cut D st k :
  st_ok st → (∀ k, k ∈ D → redundant st k) →
  redundant (cut D D st) k ↔ redundant st k ∧ (k ∉ D).
Proof.
  intros Hok HD.
  assert (HDin : ∀ k, k ∈ D → in_tr st k).
  { intros x Hx. destruct (HD x Hx) as (u & c & ? & ? & _). by exists u, c. }
  split.
  - intros (u & c & (_ & c0 & Hu & ->)%jobs_cut & Hk & Hall). apply list_elem_of_filter in Hk as [Hk Hc].
    split; [|done]. exists u, c0. split_and!; [done..|]. intros i Hi.
    destruct (decide (i ∈ D)) as [Hd|Hd].
    + destruct (HD i Hd) as (u' & c' & Hu' & Hi' & Hall'). by apply Hall'.
    + rewrite <- (keeps_unit_cut D) by done. apply Hall. by apply list_elem_of_filter.
  - intros [(u & c & Hu & Hk & Hall) Hd]. exists u, (filter (.∉ D) c).
    assert (Hf : k ∈ filter (.∉ D) c) by by apply list_elem_of_filter.
    split_and!; [|done|].
    + apply jobs_cut. split; [|eauto]. intros E'. rewrite E' in Hf. by apply elem_of_nil in Hf.
    + intros i [? ?]%list_elem_of_filter. rewrite keeps_unit_cut by done. auto.
Qed.

Lemma drop_redundant_spec st :
  st_ok st →
  ∃ D, transaction_drop_redundant st = Some (cut D D st) ∧ st_ok (cut D D st) ∧
    ∀ k, k ∈ D ↔ redundant st k.
Proof.
  intros Hok.
  destruct (delete_while_spec pick_redundant false
    (λ s, ∃ D, s = cut D D st ∧ ∀ k, k ∈ D → redundant st k) (redundant st)) with
    (n := S (size (heap st))) (st := st) as (D & HD & Hok' & _ & Hp & HQ); [|done| |lia|].
  - intros s Hs (D & -> & HD). destruct (pick_redundant_spec (cut D D st) Hs) as [[-> _]|(j & -> & Hj)].
    { by exists None. }
    exists (Some j). split; [done|]. intros ? [= <-]. split.
    { destruct Hj as (u & c & ? & ? & _). by exists u, c. }
    apply redundant_cut in Hj as [Hj _]; [|done..].
    intros D' HD'. cbn in HD'. split.
    + exists (D' ∪ D). rewrite cut_cut. split; [done|]. intros k [->%HD'|?]%elem_of_union; auto.
    + by intros k ->%HD'.
  - exists ∅. rewrite cut_empty by apply Hok. split; [done|set_solver].
  - exists D. split_and!; [done..|]. intros k. split; [by intros [? _]%HQ|]. intros Hk.
    destruct (decide (k ∈ D)) as [|Hd]; [done|exfalso].
    destruct (pick_redundant_spec (cut D D st) Hok') as [[_ Hn]|(j & Hj & _)]; [|congruence].
    apply (Hn k), redundant_cut; [done| |done]. by intros x [? _]%HQ.
Qed.

End Steps.

(** ** [transaction_find_jobs_that_matter_to_anchor] *)

Definition mark_job (g : Z) (jb : Job) : Job := set_j_generation g (set_j_matters_to_anchor true jb).

(** The state with exactly the jobs [M] marked. *)
Definition mark (g : Z) (M : gset positive) (st : State) : State :=
  set_heap (map_imap (λ k jb, Some (if decide (k ∈ M) then mark_job g jb else jb)) (heap st)) st.

Lemma heap_mark g M st k :
  heap (mark g M st) !! k = (λ jb, if decide (k ∈ M) then mark_job g jb else jb) <$> heap st !! k.
Proof. unfold mark. st_simpl. rewrite map_lookup_imap. by destruct (heap st !! k). Qed.

Lemma mark_alter g M st j :
  alter_job (mark_job g) j (mark g M st) = mark g ({[j]} ∪ M) st.
Proof.
  unfold alter_job, mark. st_simpl. f_equal. apply map_eq. intros k. rewrite map_lookup_imap.
  destruct (decide (k = j)) as [->|Hne].
  - rewrite lookup_alter_eq, map_lookup_imap. destruct (heap st !! j) as [jb|]; [|done]. cbn.
    rewrite (decide_True (P := j ∈ {[j]} ∪ M)) by set_solver. by case_decide.
  - rewrite lookup_alter_ne, map_lookup_imap by done. destruct (heap st !! k); [|done]. cbn.
    destruct (decide (k ∈ M)); [rewrite decide_True|rewrite decide_False]; set_solver.
Qed.

Section Mark.
Context (g : Z) (st : State).
Hypothesis fresh_generation : ∀ k jb, heap st !! k = Some jb → j_generation jb ≠ g.
Hypothesis objects_valid : ∀ l, l ∈ links st → is_Some (heap st !! object l).

(** Jobs that are not marked yet. *)
Definition unmarked (M : gset positive) : nat := size (dom (heap st) ∖ M).

Lemma unmarked_lt j (M : gset positive) : is_Some (heap st !! j) → j ∉ M →
  (unmarked ({[j]} ∪ M) < unmarked M)%nat.
Proof. intros Hj HM. unfold unmarked. apply subset_size. apply elem_of_dom in Hj. set_solver. Qed.

Lemma unmarked_le (M M' : gset positive) : M ⊆ M' → (unmarked M' <= unmarked M)%nat.
Proof. intros. unfold unmarked. apply subseteq_size. set_solver. Qed.

(** What a sweep from [j] adds to the marked jobs: jobs reachable from [j], with all
    they need. *)
Definition swept (j : positive) (M M' : gset positive) : Prop :=
  M ⊆ M' ∧ ∀ x, x ∈ M' → x ∉ M →
    rtc (needs (links st)) j x ∧ ∀ y, needs (links st) x y → y ∈ M'.

Definition sweep_link (fuel : nat) (acc : option State) (l : JobDependency) : option State :=
  st ← acc;
  if matters l then
    ob ← heap st !! object l;
    if j_generation ob =? g then Some st else find_matter fuel g (object l) st
  else Some st.

Lemma sweep_links n j (M : gset positive) ls :
  (∀ i (M : gset positive), is_Some (heap st !! i) → i ∉ M → (unmarked M < n)%nat →
     ∃ M', find_matter n g i (mark g M st) = Some (mark g M' st) ∧ i ∈ M' ∧ swept i M M') →
  (∀ l, l ∈ ls → l ∈ links st ∧ subject l = Some j) → (unmarked M < n)%nat →
  ∃ M', foldl (sweep_link n) (Some (mark g M st)) ls = Some (mark g M' st) ∧ swept j M M' ∧
    ∀ l, l ∈ ls → matters l = true → object l ∈ M'.
Proof.
  intros IH. revert M. induction ls as [|l ls IHls]; intros M Hls Hn.
  { exists M. split_and!; [done|split; [done|naive_solver]|by intros l ?%elem_of_nil]. }
  cbn [foldl]. destruct (Hls l (list_elem_of_here _ _)) as [Hl Hsub].
  assert (Hls' : ∀ l, l ∈ ls → l ∈ links st ∧ subject l = Some j).
  { intros l' ?. apply Hls. by apply list_elem_of_further. }
  assert (∃ M1, sweep_link n (Some (mark g M st)) l = Some (mark g M1 st) ∧ swept j M M1 ∧
    (matters l = true → object l ∈ M1)) as (M1 & -> & [Hsub1 Hsw1] & Ho1).
  { unfold sweep_link. cbn [mbind option_bind].
    destruct (matters l) eqn:Hm; [|exists M; split_and!; [done|split; [done|naive_solver]|done]].
    destruct (objects_valid l Hl) as [ob Hob]. rewrite heap_mark, Hob. cbn [fmap option_fmap option_map].
    cbn [mbind option_bind]. destruct (decide (object l ∈ M)) as [HM|HM].
    - unfold mark_job at 1, set_j_generation. cbn. rewrite Z.eqb_refl.
      exists M. split_and!; [done|split; [done|naive_solver]|done].
    - rewrite (proj2 (Z.eqb_neq _ _)) by eauto.
      destruct (IH (object l) M) as (M1 & -> & Hin & Hs1 & Hs2); [eauto|done..|].
      exists M1. split_and!; [done|split; [done|]|done]. intros x Hx HxM.
      destruct (Hs2 x Hx HxM) as [Hr ?]. split; [|done]. eapply rtc_l; [|exact Hr]. by exists l. }
  destruct (IHls M1 Hls') as (M2 & -> & [Hsub2 Hsw2] & Ho2).
  { pose proof (unmarked_le M M1 Hsub1). lia. }
  exists M2. split_and!; [done|split; [set_solver|]|].
  - intros x Hx HxM. destruct (decide (x ∈ M1)) as [Hx1|Hx1]; [|by apply Hsw2].
    destruct (Hsw1 x Hx1 HxM) as [? Hy]. split; [done|]. intros y ?. by apply Hsub2, Hy.
  - intros l' [->|?]%elem_of_cons ?; auto.
Qed.

Lemma find_matter_spec n j (M : gset positive) :
  is_Some (heap st !! j) → j ∉ M → (unmarked M < n)%nat →
  ∃ M', find_matter n g j (mark g M st) = Some (mark g M' st) ∧ j ∈ M' ∧ swept j M M'.
Proof.
  revert j M. induction n as [|n IH]; intros j M Hj HM Hn; [lia|].
  cbn [find_matter]. destruct Hj as [jb Hjb]. rewrite heap_mark, Hjb. cbn [fmap option_fmap option_map].
  cbn [mbind option_bind]. change (λ jb, set_j_generation g _) with (mark_job g). rewrite mark_alter.
  change (λ acc l, _) with (sweep_link n).
  destruct (sweep_links n j ({[j]} ∪ M) (subject_list (mark g ({[j]} ∪ M) st) j))
    as (M' & -> & [Hsub Hsw] & Ho); [done| | |].
  { unfold subject_list. intros l [? ?]%list_elem_of_filter. done. }
  { pose proof (unmarked_lt j M). rewrite Hjb in H. specialize (H (mk_is_Some _ _ eq_refl) HM). lia. }
  exists M'. split_and!; [done|set_solver|split; [set_solver|]].
  intros x Hx HxM. destruct (decide (x = j)) as [->|Hne].
  - split; [apply rtc_refl|]. intros y (l & Hl & Hs & <- & Hm). apply Ho; [|done].
    by apply list_elem_of_filter.
  - apply Hsw; [done|set_solver].
Qed.
End Mark.

Lemma mark_empty g st : mark g ∅ st = st.
Proof.
  destruct st as [h ls js a i m]. unfold mark. st_simpl. f_equal. apply map_eq. intros k.
  rewrite map_lookup_imap. by destruct (h !! k).
Qed.

(** The sweep marks exactly what the anchor needs. *)
Lemma find_jobs_that_matter_spec g st a :
  (∀ k jb, heap st !! k = Some jb → j_generation jb ≠ g) → linked_ok st → is_Some (heap st !! a) →
  ∃ M, transaction_find_jobs_that_matter_to_anchor a g st = Some (mark g M st) ∧
    ∀ k, k ∈ M ↔ rtc (needs (links st)) a k.
Proof.
  intros Hg [_ Hl] Ha. unfold transaction_find_jobs_that_matter_to_anchor.
  destruct (find_matter_spec g st Hg) with (n := S (size (heap st))) (j := a) (M := (∅ : gset positive))
    as (M & HM & Hin & _ & Hsw).
  - intros l Hin. destruct (Hl l Hin) as [(jb & -> & _) _]. eauto.
  - done.
  - set_solver.
  - unfold unmarked. rewrite difference_empty_L, size_dom. lia.
  - rewrite mark_empty in HM. exists M. split; [done|]. intros k. split.
    + intros Hk. apply (Hsw k Hk). set_solver.
    + clear HM. intros Hr. revert k Hr. apply rtc_ind_r; [done|].
      intros x k _ Hxk IH. by apply (Hsw x IH); [set_solver|].
Qed.

(** Jobs of the same unit, in the same place. *)
Definition same_shape (a b : Job) : Prop :=
  j_unit a = j_unit b ∧ j_installed a = j_installed b ∧
  j_in_run_queue a = j_in_run_queue b ∧ j_in_dbus_queue a = j_in_dbus_queue b ∧
  j_in_gc_queue a = j_in_gc_queue b ∧ (j_installed a = true → j_type a = j_type b).

(** Rewriting jobs in place keeps the invariant. *)
Lemma st_ok_heap h st :
  (∀ k, option_Forall2 same_shape (heap st !! k) (h !! k)) →
  (∀ k jb, h !! k = Some jb → transaction_type (j_type jb)) →
  st_ok st → st_ok (set_heap h st).
Proof.
  intros Hsame Htypes.
  assert (Hh : ∀ k jb, heap st !! k = Some jb → ∃ jb', h !! k = Some jb' ∧ same_shape jb jb').
  { intros k jb Hk. specialize (Hsame k). rewrite Hk in Hsame. inversion Hsame; subst. eauto. }
  assert (Hid : ∀ a b, same_shape a b → idle a → idle b).
  { unfold same_shape, idle. intros a b. intuition congruence. }
  intros (((Hc & Hl) & Hnd & Hlt) & Ht & Hi). split_and!.
  - split_and!; [split|exact Hnd|exact Hlt].
    + intros u c Hu. destruct (Hc u c Hu) as [? Hk]. split; [done|]. intros k Hin.
      destruct (Hk k Hin) as (jb & Hjb & <- & ?). destruct (Hh k jb Hjb) as (jb' & ? & Hs).
      exists jb'. split_and!; [done|symmetry; apply Hs|eauto].
    + assert (Hij : ∀ k, idle_job st k → idle_job (set_heap h st) k).
      { intros k (jb & Hjb & ?). destruct (Hh k jb Hjb) as (jb' & ? & ?). exists jb'. eauto. }
      intros l Hin. destruct (Hl l Hin) as [? Hs]. split; [by apply Hij|]. intros k Hk. by apply Hij, Hs.
  - exact Htypes.
  - intros u i Hu. destruct (Hi u i Hu) as (ib & Hib & Hinst & ? & ?).
    destruct (Hh i ib Hib) as (ib' & ? & Hs1 & Hs2 & _ & _ & _ & Hs3). exists ib'.
    rewrite <- (Hs3 Hinst). split_and!; [done|congruence|congruence|done].
Qed.

(** In particular when types stay. *)
Lemma st_ok_same h st :
  (∀ k, option_Forall2 (λ a b, same_shape a b ∧ j_type a = j_type b) (heap st !! k) (h !! k)) →
  st_ok st → st_ok (set_heap h st).
Proof.
  intros Hsame Hok. apply st_ok_heap; [| |done].
  - intros k. specialize (Hsame k). inversion Hsame as [? ? []|]; by constructor.
  - intros k jb' Hk. specialize (Hsame k). rewrite Hk in Hsame. inversion Hsame as [a ? [_ Heq] Ha|]; subst.
    rewrite <- Heq. by apply (proj1 (proj2 Hok) k).
Qed.

(** New links between jobs of the transaction. *)
Lemma st_ok_links ls st :
  (∀ l, l ∈ ls → in_tr st (object l) ∧ ∀ k, subject l = Some k → in_tr st k) →
  st_ok st → st_ok (set_links ls st).
Proof.
  intros Hls (((Hc & Hl) & Hnd & Hlt) & Ht & Hi). split_and!; [split_and!; [split|..]|..]; try done.
  intros l Hin. destruct (Hls l Hin) as [Ho Hs].
  assert (Hid : ∀ k, in_tr st k → idle_job st k) by (intros k; by apply in_tr_idle).
  split; [by apply (Hid (object l))|]. intros k Hk. by apply (Hid k), Hs.
Qed.

(** The sweep keeps the invariant and establishes what minimizing relies on. *)
Lemma mark_st_ok g M st : st_ok st → st_ok (mark g M st).
Proof.
  apply st_ok_same. intros k. rewrite map_lookup_imap. destruct (heap st !! k); constructor.
  by case_decide.
Qed.

Lemma mark_marks_closed g M st :
  linked_ok st → (∀ k i, k ∈ M → needs (links st) k i → i ∈ M) →
  (∀ k jb, heap st !! k = Some jb → idle jb → j_matters_to_anchor jb = false) →
  marks_closed (mark g M st).
Proof.
  intros [_ Hl] HM Hun k i kb Hki. rewrite heap_mark. destruct (heap st !! k) as [jb|] eqn:Ek; [|done].
  cbn [fmap option_fmap option_map]. intros [= <-] Hmk. destruct (decide (k ∈ M)) as [Hk|Hk].
  - pose proof (HM k i Hk Hki) as Hi. destruct Hki as (l & Hin & Hs & <- & _).
    destruct (Hl l Hin) as [(ib & Hib & _) _]. rewrite heap_mark, Hib. cbn. rewrite decide_True by done. eauto.
  - destruct Hki as (l & Hin & Hs & _). destruct (Hl l Hin) as [_ H]. destruct (H k Hs) as (jb' & Hjb' & Hid).
    rewrite Ek in Hjb'. injection Hjb' as <-. rewrite (Hun k jb Ek Hid) in Hmk. done.
Qed.

(** The invariant in decidable form. *)
Lemma st_ok_check st :
  tr_ok_dec_form st → map_Forall (λ _ jb, transaction_type (j_type jb)) (heap st) →
  map_Forall (λ u i, job_at (λ ib, j_installed ib = true ∧ j_unit ib = u ∧ merging_type (j_type ib)) st i)
    (unit_job (mgr st)) →
  st_ok st.
Proof.
  intros H1 H2 H3. split_and!; [by apply tr_ok_check|exact H2|].
  intros u i Hi. specialize (H3 u i Hi). unfold job_at in H3.
  destruct (heap st !! i) as [ib|]; [by exists ib|done].
Qed.

(** ** Properties *)

(** [transaction_find_jobs_that_matter_to_anchor] terminates on any link graph,
    cyclic or not, and marks exactly the jobs the anchor needs, directly or indirectly,
    over links that matter; nothing else of the state changes. *)
Theorem find_jobs_that_matter_exact (st : State) (a : positive) (g : Z) :
  st_ok st → in_tr st a → (∀ k jb, heap st !! k = Some jb → j_generation jb ≠ g) →
  ∃ M, transaction_find_jobs_that_matter_to_anchor a g st = Some (mark g M st) ∧
    (∀ k, k ∈ M ↔ rtc (needs (links st)) a k) ∧ st_ok (mark g M st) ∧
    ((∀ k jb, heap st !! k = Some jb → idle jb → j_matters_to_anchor jb = false) →
     marks_closed (mark g M st)).
Proof.
  intros Hok Ha Hg. pose proof Hok as ((Hlo & _) & _).
  destruct (find_jobs_that_matter_spec g st a) as (M & HM & Hk); [done..| |].
  { destruct (in_tr_job st a Hok Ha) as (jb & -> & _). eauto. }
  exists M. split_and!; [done..|by apply mark_st_ok|]. intros Hun. apply mark_marks_closed; [done| |done].
  intros k i Hkm Hki. apply Hk. apply Hk in Hkm. by eapply rtc_r.
Qed.

(** [transaction_minimize_impact] terminates without failing an assertion. It
    deletes no job that matters to the anchor, and of the jobs that remain, one that
    does not matter neither stops a running unit nor conflicts with the job installed
    for its unit. *)
Theorem minimize_impact_correct {E : Env} (st : State) :
  st_ok st → marks_closed st →
  ∃ D, transaction_minimize_impact st = Some (cut D D st) ∧ st_ok (cut D D st) ∧
    (∀ k kb, k ∈ D → heap st !! k = Some kb → j_matters_to_anchor kb = false) ∧
    ∀ k kb, in_tr (cut D D st) k → heap (cut D D st) !! k = Some kb → j_matters_to_anchor kb = false →
      ¬ (j_type kb = JOB_STOP ∧ UNIT_IS_ACTIVE_OR_ACTIVATING (unit_active_state (j_unit kb)) = true) ∧
      ∀ i ib, installed_job st (j_unit kb) = Some i → heap st !! i = Some ib →
        job_type_is_conflicting (j_type kb) (j_type ib) = Some false.
Proof.
  intros Hok Hmc. destruct (minimize_impact_spec st Hok Hmc) as (D & HD & Hok' & Hun & Hpost).
  exists D. split_and!; [done..|by intros k kb [_ H]%Hun; eauto|].
  intros k kb Hk Hkb Hm. specialize (Hpost k Hk). unfold drops_for_impact in Hpost.
  rewrite Hkb in Hpost. cbn [mbind option_bind] in Hpost. rewrite Hm in Hpost.
  change (installed_job (cut D D st)) with (installed_job st) in Hpost.
  destruct (installed_job st (j_unit kb)) as [i|] eqn:Ei.
  - destruct (proj2 (proj2 Hok') _ _ Ei) as (ib & Hib & _). rewrite Hib in Hpost.
    cbn [mbind option_bind] in Hpost. apply heap_cut_within in Hib.
    destruct (job_type_is_conflicting (j_type kb) (j_type ib)) as [b|] eqn:Eb; [|done].
    cbn [mbind option_bind] in Hpost. injection Hpost as [H1 ->]%orb_false_iff. split.
    + intros [Ht Hact]. rewrite Ht, Hact in H1. done.
    + intros ? ib' [= <-] ?. by simplify_eq.
  - cbn [mbind option_bind] in Hpost. injection Hpost as [H1 _]%orb_false_iff. split; [|done].
    intros [Ht Hact]. rewrite Ht, Hact in H1. done.
Qed.

(** [transaction_drop_redundant] terminates without failing an assertion and drops
    exactly the jobs of the units all of whose jobs are redundant: none is the anchor,
    would do anything in the unit's current state, or conflicts with the job installed
    for the unit. *)
Theorem drop_redundant_exact {E : Env} (st : State) :
  st_ok st →
  ∃ D, transaction_drop_redundant st = Some (cut D D st) ∧ st_ok (cut D D st) ∧
    (∀ k, k ∈ D ↔ ∃ u c, jobs st !! u = Some c ∧ k ∈ c ∧ ∀ i, i ∈ c → keeps_unit st i = Some false) ∧
    ∀ a, anchor_job st = Some a → a ∉ D.
Proof.
  intros Hok. destruct (drop_redundant_spec st Hok) as (D & HD & Hok' & Hk). exists D.
  split_and!; [done..|]. intros a Ha Hin. apply Hk in Hin as (u & c & _ & Hc & Hall).
  specialize (Hall a Hc). unfold keeps_unit in Hall. by rewrite bool_decide_eq_true_2 in Hall.
Qed.

(** [transaction_collect_garbage] terminates. It never deletes the anchor or a job
    that the anchor pulled in, directly or indirectly; afterwards the first job of every
    unit is the anchor or is pulled in by some job. *)
Theorem collect_garbage_correct {E : Env} (st : State) (a : positive) :
  st_ok st → anchor_job st = Some a →
  ∃ D, transaction_collect_garbage st = Some (cut D D st) ∧ st_ok (cut D D st) ∧
    (∀ k, rtc (pulls (links st)) a k → k ∉ D) ∧
    ∀ u k c, jobs (cut D D st) !! u = Some (k :: c) → k ≠ a → object_list (cut D D st) k ≠ [].
Proof.
  intros Hok Ha. destruct (collect_garbage_spec st a Hok Ha) as (D & HD & Hok' & Hk & Hpost).
  exists D. split_and!; [done..| |].
  - intros k Hr Hin. by destruct (Hk k Hin) as [_ ?].
  - intros u k c Hu Hne Hnil. assert (Hh : k ∈ heads (cut D D st)) by (apply elem_of_heads; eauto).
    specialize (Hpost k Hh). unfold is_garbage in Hpost.
    change (anchor_job (cut D D st)) with (anchor_job st) in Hpost.
    rewrite bool_decide_eq_false_2, bool_decide_eq_true_2 in Hpost by congruence. done.
Qed.

End Fix.

(** ** Witnesses *)

(** Unit 1 (the anchor) needs 2, which wants 4; 1 also wants 3 stopped, nobody asked for
    5. Units 3 and 4 are active. *)
Definition fix_tr : @State ex_rq :=
  set_anchor_job (Some 1%positive)
  (set_links [MkDep (Some 1%positive) 2 true false; MkDep (Some 1%positive) 3 false false;
              MkDep (Some 2%positive) 4 false false]
  (set_jobs (list_to_map [(1, [1]); (2, [2]); (3, [3]); (4, [4]); (5, [5])]%positive)
  (set_heap (list_to_map [(1, ex_job 1 1 JOB_START); (2, ex_job 2 2 JOB_START);
                          (3, ex_job 3 3 JOB_STOP); (4, ex_job 4 4 JOB_START);
                          (5, ex_job 5 5 JOB_START)]%positive) ex_state))).

Definition fix_env : Env :=
  ex_env (λ _ _, []) (λ u, if decide (u = 3 ∨ u = 4)%positive then UNIT_ACTIVE else UNIT_INACTIVE) [].

Lemma fix_tr_jobs k jb : heap fix_tr !! k = Some jb →
  j_generation jb = 0 ∧ j_matters_to_anchor jb = false.
Proof.
  assert (H : map_Forall (λ _ jb, j_generation jb = 0 ∧ j_matters_to_anchor jb = false) (heap fix_tr))
    by by_decide.
  apply H.
Qed.

Lemma fix_tr_ok : st_ok fix_tr.
Proof.
  apply st_ok_check; [by_decide|by_decide|]. by intros u i Hu.
Qed.

Lemma find_jobs_that_matter_exact_witness :
  ∃ M, transaction_find_jobs_that_matter_to_anchor 1 1 fix_tr = Some (mark 1 M fix_tr) ∧
    marks_closed (mark 1 M fix_tr).
Proof.
  destruct (find_jobs_that_matter_exact fix_tr 1 1) as (M & H1 & _ & _ & H2).
  - apply fix_tr_ok.
  - exists 1%positive, [1%positive]. split; [reflexivity|apply list_elem_of_here].
  - intros k jb [-> _]%fix_tr_jobs. discriminate.
  - exists M. split; [exact H1|]. apply H2. by intros k jb [_ ?]%fix_tr_jobs.
Defined.

Lemma fix_tr_marks : marks_closed fix_tr.
Proof.
  intros k i kb _ [_ ?]%fix_tr_jobs Hm. congruence.
Qed.

Lemma minimize_impact_correct_witness :
  let E := fix_env in
  ∃ D, transaction_minimize_impact fix_tr = Some (cut D D fix_tr) ∧ st_ok (cut D D fix_tr).
Proof.
  intros E. destruct (minimize_impact_correct fix_tr) as (D & H1 & H2 & _).
  - apply fix_tr_ok.
  - apply fix_tr_marks.
  - exists D. split; [exact H1|exact H2].
Defined.

Lemma drop_redundant_exact_witness :
  let E := fix_env in
  ∃ D, transaction_drop_redundant fix_tr = Some (cut D D fix_tr) ∧ 1%positive ∉ D.
Proof.
  intros E. destruct (drop_redundant_exact fix_tr) as (D & H1 & _ & _ & H2); [apply fix_tr_ok|].
  exists D. split; [exact H1|]. apply H2. reflexivity.
Defined.

Lemma collect_garbage_correct_witness :
  let E := fix_env in
  ∃ D, transaction_collect_garbage fix_tr = Some (cut D D fix_tr) ∧ 4%positive ∉ D.
Proof.
  intros E. destruct (collect_garbage_correct fix_tr 1) as (D & H1 & _ & H2 & _).
  - apply fix_tr_ok.
  - reflexivity.
  - exists D. split; [exact H1|]. apply H2.
    apply rtc_l with 2%positive; [|apply rtc_once].
    + exists (MkDep (Some 1%positive) 2 true false). split_and!; [|reflexivity..].
      apply list_elem_of_In. left. reflexivity.
    + exists (MkDep (Some 2%positive) 4 false false). split_and!; [|reflexivity..].
      apply list_elem_of_In. right; right; left. reflexivity.
Defined.

(** Which jobs are left after each step. *)
Example fix_runs :
  let E := fix_env in
  let left st := (λ st, (map_to_list (heap st)).*1) <$> st in
  left (transaction_minimize_impact fix_tr) = Some [5; 4; 2; 1]%positive ∧
  left (transaction_drop_redundant fix_tr) = Some [5; 3; 2; 1]%positive ∧
  left (transaction_collect_garbage fix_tr) = Some [3; 4; 2; 1]%positive.
Proof. vm_compute. split_and!; reflexivity. Qed.

(** Unit 2 has two jobs; the restart, further down the chain, is pulled in by nobody. *)
Definition second_job_tr : @State ex_rq :=
  set_anchor_job (Some 1%positive)
  (set_links [MkDep (Some 1%positive) 2 true false]
  (set_jobs (list_to_map [(1, [1]); (2, [2; 3])]%positive)
  (set_heap (list_to_map [(1, ex_job 1 1 JOB_START); (2, ex_job 2 2 JOB_START);
                          (3, ex_job 2 3 JOB_RESTART)]%positive) ex_state))).

(** The comment on [transaction_collect_garbage] says "Drop jobs that are not required by
    any other job". The code only looks at the first job of each unit: the second one
    stays although it has no object link. *)
Example second_job_is_not_collected :
  let E := fix_env in
  match transaction_collect_garbage second_job_tr with
  | Some st => in_tr st 3%positive ∧ anchor_job st ≠ Some 3%positive ∧ object_list st 3 = []
  | None => False
  end.
Proof.
  vm_compute. split_and!; [|discriminate|reflexivity].
  exists 2%positive, [2%positive; 3%positive]. split; [reflexivity|].
  apply list_elem_of_further, list_elem_of_here.
Qed.
