(* ===== verification/TrOrder.v ===== *)
(** * Ordering cycles (src/core/transaction.c)

    [transaction_verify_order_one] walks the ordering graph depth first, leaving in
    each job the generation of the walk and, while the job is on the current path, a
    marker that points to where the walk came from. A job with the generation and a
    marker closes a cycle; the walk then follows the markers back and deletes a unit
    that does not matter to the anchor. *)

From S2P Require Import Prelude JobType RunQueue JobData TrDelete TrFix.

Section Order.
Context {RQ : RunQueue} {E : Env}.
Implicit Types (st : State) (j k u o : positive) (g : Z).

(** ** The code *)

Definition directions : list UnitDependencyAtom := [UNIT_ATOM_BEFORE; UNIT_ATOM_AFTER].

(** What the two nested loops go through, in their order. *)
Definition order_edges (u : positive) : list (UnitDependencyAtom * positive) :=
  directions ≫= λ d, (d,.) <$> unit_dependencies u d.

(** The job that stands for a unit: one of the transaction, or the installed one. *)
Definition order_target st u : option positive :=
  match jobs st !! u with
  | Some (o :: _) => Some o
  | _ => installed_job st u
  end.

Definition compare_key (jb : Job) : JobType * bool := (j_type jb, j_ignore_order jb).

(** The job to visit next over one dependency, if [j] really runs before it. *)
Definition order_next st (j : positive) (e : UnitDependencyAtom * positive) : option (option positive) :=
  match order_target st (snd e) with
  | None => Some None
  | Some o =>
      jb ← heap st !! j;
      ob ← heap st !! o;
      c ← job_compare (compare_key jb) (compare_key ob) (fst e);
      Some (if 0 <=? c then None else Some o)
  end.

(** [j->transaction_prev] *)
Definition has_prev st (j : positive) (jb : Job) : bool :=
  match jobs st !! j_unit jb with
  | Some (_ :: c) => bool_decide (j ∈ c)
  | _ => false
  end.

(** The jobs from [k] on along [transaction_next]. *)
Fixpoint chain_from (k : positive) (c : list positive) : list positive :=
  match c with
  | [] => [k]
  | x :: c' => if decide (x = k) then c else chain_from k c'
  end.

Definition unit_matters_to_anchor st (k : positive) : option bool :=
  kb ← heap st !! k;
  assert_ (negb (has_prev st k kb));;
  r ← find_first (λ i, j_matters_to_anchor <$> heap st !! i)
        (chain_from k (default [] (jobs st !! j_unit kb)));
  Some (bool_decide (is_Some r)).

(** The walk back along the markers, from [k] to the start [j] of the cycle. *)
Fixpoint find_on_cycle (fuel : nat) st g (j k : positive) (del : option positive)
    : option (option positive) :=
  match fuel with
  | O => None
  | S fuel =>
      kb ← heap st !! k;
      del ← match del, jobs st !! j_unit kb with
            | None, Some _ =>
                m ← unit_matters_to_anchor st k; Some (if m : bool then None else Some k)
            | _, _ => Some del
            end;
      if decide (k = j) then Some del
      else if (j_generation kb =? g) && negb (bool_decide (j_marker kb = Some k)) then
        match j_marker kb with
        | Some k' => find_on_cycle fuel st g j k' del
        | None => Some del
        end
      else Some del
  end.

(** The loops over the dependencies of [j]; [rec o st] is the recursive call. *)
Fixpoint visit_edges (rec : positive → State → option (Z * State)) (j : positive)
    (es : list (UnitDependencyAtom * positive)) st : option (Z * State) :=
  match es with
  | [] => Some (0, st)
  | e :: es =>
      n ← order_next st j e;
      match n with
      | None => visit_edges rec j es st
      | Some o =>
          '(r, st) ← rec o st;
          if r <? 0 then Some (r, st) else visit_edges rec j es st
      end
  end.

(** The return value (0 or a negative errno) and the state. *)
Fixpoint verify_order_one (fuel : nat) g (j : positive) (from : option positive) st
    : option (Z * State) :=
  match fuel with
  | O => None
  | S fuel =>
      jb ← heap st !! j;
      assert_ (negb (has_prev st j jb));;
      if j_generation jb =? g then
        match j_marker jb with
        | None => Some (0, st)
        | Some _ =>
            del ← match from with
                  | None => Some None
                  | Some k => find_on_cycle (S (size (heap st))) st g j k None
                  end;
            match del with
            | Some d =>
                db ← heap st !! d;
                st ← transaction_delete_unit (j_unit db) st;
                Some (-EAGAIN, st)
            | None => Some (-EDEADLK, st)
            end
        end
      else
        let st := alter_job (λ jb, set_j_generation g (set_j_marker (Some (default j from)) jb)) j st in
        '(r, st) ← visit_edges (λ o st, verify_order_one fuel g o (Some j) st) j
                     (order_edges (j_unit jb)) st;
        if r <? 0 then Some (r, st)
        else Some (0, alter_job (set_j_marker None) j st)
  end.

(** Every nested call enters a job that is not on the path yet, or returns at once. *)
Definition transaction_verify_order_one g j from st : option (Z * State) :=
  verify_order_one (S (S (size (heap st)))) g j from st.

Fixpoint verify_heads g (hs : list positive) st : option (Z * State) :=
  match hs with
  | [] => Some (0, st)
  | j :: hs =>
      '(r, st) ← transaction_verify_order_one g j None st;
      if r <? 0 then Some (r, st) else verify_heads g hs st
  end.

(** The generation counter is a C [unsigned]. *)
Definition transaction_verify_order (generation : Z) st : option (Z * State * Z) :=
  '(r, st) ← verify_heads generation (heads st) st;
  Some (r, st, u32 (generation + 1)).

(** ** The ordering graph *)

(** [j] has to run before [o]. *)
Definition before st (j o : positive) : Prop :=
  ∃ jb e, heap st !! j = Some jb ∧ e ∈ order_edges (j_unit jb) ∧ order_next st j e = Some (Some o).

(** The jobs the graph is made of. *)
Definition target st k : Prop := ∃ u, order_target st u = Some k.

Lemma target_job st k : st_ok st → target st k →
  ∃ kb, heap st !! k = Some kb ∧ transaction_type (j_type kb) ∧ has_prev st k kb = false ∧
    ((∃ c, jobs st !! j_unit kb = Some (k :: c)) ∨ jobs st !! j_unit kb = None).
Proof.
  intros (((Hc & _) & Hnd & _) & Ht & Hi) (u & Hu). unfold order_target in Hu.
  destruct (jobs st !! u) as [[|k' c]|] eqn:Eu.
  - by destruct (Hc u [] Eu).
  - injection Hu as ->. destruct (Hc u _ Eu) as [_ Hk].
    destruct (Hk k (list_elem_of_here _ _)) as (kb & Hkb & <- & _). exists kb.
    split_and!; [done|by apply (Ht k)| |left; eauto].
    unfold has_prev. rewrite Eu. apply bool_decide_eq_false.
    specialize (Hnd _ _ Eu). by apply NoDup_cons in Hnd as [? _].
  - destruct (Hi u k Hu) as (kb & Hkb & _ & <- & _). exists kb.
    split_and!; [done|by apply (Ht k)| |by right]. unfold has_prev. by rewrite Eu.
Qed.

Lemma head_target st k : k ∈ heads st → target st k.
Proof. intros (u & c & Hu)%elem_of_heads. exists u. unfold order_target. by rewrite Hu. Qed.

Lemma order_edges_direction u e : e ∈ order_edges u → fst e ∈ directions.
Proof.
  unfold order_edges. rewrite list_elem_of_bind. intros (d & He & Hd).
  apply list_elem_of_fmap in He as (v & -> & _). done.
Qed.

Lemma order_next_spec st j jb e :
  st_ok st → heap st !! j = Some jb → e ∈ order_edges (j_unit jb) →
  ∃ r, order_next st j e = Some r ∧ ∀ o, r = Some o → target st o ∧ before st j o.
Proof.
  intros Hok Hj He. destruct (order_next st j e) as [r|] eqn:Er.
  - exists r. split; [done|]. intros o ->. split; [|by exists jb, e].
    unfold order_next in Er. destruct (order_target st e.2) as [o'|] eqn:Eo; [|done].
    exists (e.2). destruct (heap st !! j); [|done]. cbn in Er.
    destruct (heap st !! o'); [|done]. cbn in Er. destruct (job_compare _ _ _) as [c|]; [|done].
    cbn in Er. destruct (0 <=? c); congruence.
  - exfalso. unfold order_next in Er. destruct (order_target st e.2) as [o|] eqn:Eo; [|done].
    destruct (target_job st o Hok) as (ob & Hob & Hto & _); [by exists e.2|].
    rewrite Hj, Hob in Er. cbn [mbind option_bind] in Er.
    destruct (job_compare_defined (compare_key jb) (compare_key ob) e.1) as [c Hc].
    + destruct Hok as (_ & Ht & _). by apply (Ht j).
    + done.
    + apply order_edges_direction, list_elem_of_In in He. cbn in He. intuition.
    + rewrite Hc in Er. done.
Qed.

(** ** What the walk writes

    [M] holds the jobs visited so far with their markers: [Some None] once a job is
    done, [Some (Some f)] while it is on the path and was reached from [f]. *)

Definition paint_job (g : Z) (m : option (option positive)) (jb : Job) : Job :=
  match m with Some m => set_j_generation g (set_j_marker m jb) | None => jb end.

Definition paint (g : Z) (M : gmap positive (option positive)) (st : State) : State :=
  set_heap (map_imap (λ k jb, Some (paint_job g (M !! k) jb)) (heap st)) st.

Lemma heap_paint g M st k : heap (paint g M st) !! k = paint_job g (M !! k) <$> heap st !! k.
Proof. unfold paint. st_simpl. rewrite map_lookup_imap. by destruct (heap st !! k). Qed.

Lemma paint_st_ok g M st : st_ok st → st_ok (paint g M st).
Proof.
  apply st_ok_same. intros k. rewrite map_lookup_imap. destruct (heap st !! k); constructor.
  by destruct (M !! k).
Qed.

Lemma paint_key g m jb :
  compare_key (paint_job g m jb) = compare_key jb ∧ j_unit (paint_job g m jb) = j_unit jb ∧
  j_matters_to_anchor (paint_job g m jb) = j_matters_to_anchor jb.
Proof. by destruct m. Qed.

Lemma order_next_paint g M st j e : order_next (paint g M st) j e = order_next st j e.
Proof.
  unfold order_next. change (order_target (paint g M st)) with (order_target st).
  destruct (order_target st e.2) as [o|]; [|done]. rewrite !heap_paint.
  destruct (heap st !! j) as [jb|]; [|done]. cbn [fmap option_fmap option_map mbind option_bind].
  destruct (heap st !! o) as [ob|]; [|done]. cbn [fmap option_fmap option_map mbind option_bind].
  by rewrite (proj1 (paint_key g (M !! j) jb)), (proj1 (paint_key g (M !! o) ob)).
Qed.

Lemma has_prev_paint g M st j m jb : has_prev (paint g M st) j (paint_job g m jb) = has_prev st j jb.
Proof. unfold has_prev. by rewrite (proj1 (proj2 (paint_key g m jb))). Qed.

Lemma find_first_ext {A} (p q : A → option bool) xs : (∀ x, p x = q x) → find_first p xs = find_first q xs.
Proof. intros H. induction xs as [|x xs IH]; [done|]. cbn. by rewrite H, IH. Qed.

Lemma unit_matters_paint g M st k :
  unit_matters_to_anchor (paint g M st) k = unit_matters_to_anchor st k.
Proof.
  unfold unit_matters_to_anchor. rewrite heap_paint. destruct (heap st !! k) as [kb|]; [|done].
  cbn [fmap option_fmap option_map mbind option_bind]. rewrite has_prev_paint.
  rewrite (proj1 (proj2 (paint_key g (M !! k) kb))).
  rewrite (find_first_ext _ (λ i, j_matters_to_anchor <$> heap st !! i)); [done|].
  intros i. rewrite heap_paint. destruct (heap st !! i); [|done]. cbn. f_equal. apply paint_key.
Qed.

Lemma paint_enter g M st j f :
  alter_job (λ jb, set_j_generation g (set_j_marker (Some f) jb)) j (paint g M st) =
  paint g (<[j := Some f]> M) st.
Proof.
  unfold alter_job, paint. st_simpl. f_equal. apply map_eq. intros k.
  rewrite map_lookup_imap. destruct (decide (k = j)) as [->|Hne].
  - rewrite lookup_alter_eq, map_lookup_imap, lookup_insert_eq. destruct (heap st !! j); [|done]. cbn.
    by destruct (M !! j).
  - rewrite lookup_alter_ne, map_lookup_imap, lookup_insert_ne by done. done.
Qed.

Lemma paint_leave g M st j m :
  M !! j = Some m → alter_job (set_j_marker None) j (paint g M st) = paint g (<[j := None]> M) st.
Proof.
  intros Hj. unfold alter_job, paint. st_simpl. f_equal. apply map_eq. intros k.
  rewrite map_lookup_imap. destruct (decide (k = j)) as [->|Hne].
  - rewrite lookup_alter_eq, map_lookup_imap, lookup_insert_eq, Hj. by destruct (heap st !! j).
  - rewrite lookup_alter_ne, map_lookup_imap, lookup_insert_ne by done. done.
Qed.

(** ** Walking back along the markers *)

(** The unit of [d] has jobs in the transaction, [d] first, and none matters. *)
Definition droppable st d : Prop := ∃ db c, heap st !! d = Some db ∧
  jobs st !! j_unit db = Some (d :: c) ∧
  ∀ i ib, i ∈ d :: c → heap st !! i = Some ib → j_matters_to_anchor ib = false.

Lemma chain_from_head k c : chain_from k (k :: c) = k :: c.
Proof. cbn. by rewrite decide_True. Qed.

Lemma unit_matters_spec st k kb :
  st_ok st → target st k → heap st !! k = Some kb → is_Some (jobs st !! j_unit kb) →
  ∃ b, unit_matters_to_anchor st k = Some b ∧ (b = false ↔ droppable st k).
Proof.
  intros Hok Hk Hkb [c Hc]. destruct (target_job st k Hok Hk) as (kb' & Hkb' & _ & Hp & [[c' Hc']|?]);
    [|congruence].
  assert (kb' = kb) as -> by congruence. unfold unit_matters_to_anchor. rewrite Hkb. cbn [mbind option_bind].
  rewrite Hp. cbn [negb]. rewrite assert_bind by done. rewrite Hc'. cbn [from_option id].
  rewrite chain_from_head.
  destruct (find_first_defined (λ i, j_matters_to_anchor <$> heap st !! i) (k :: c')) as [r Hr].
  { intros i Hi. destruct (in_tr_job st i Hok) as (ib & -> & _); [by exists (j_unit kb), (k :: c')|].
    cbn. eauto. }
  rewrite Hr. cbn [mbind option_bind]. eexists. split; [done|]. rewrite bool_decide_eq_false. split.
  - intros Hn. destruct r; [by destruct Hn|]. rewrite find_first_None in Hr. exists kb, c'.
    split_and!; [done..|]. intros i ib Hi Hib. specialize (Hr i Hi). rewrite Hib in Hr. cbn in Hr. congruence.
  - intros (db & c2 & Hdb & Hc2 & Hall) [d ->]. apply find_first_Some in Hr as [Hd Hm].
    assert (db = kb) as -> by congruence. assert (c2 = c') as -> by congruence.
    destruct (heap st !! d) as [ib|] eqn:Ei; [|done]. specialize (Hall d ib Hd Ei). cbn in Hm. congruence.
Qed.

(** The path of the walk, from the current job back to where it started. *)
Inductive gray (st : State) (M : gmap positive (option positive)) : list positive → Prop :=
  | gray_nil : gray st M []
  | gray_root r : M !! r = Some (Some r) → target st r → gray st M [r]
  | gray_cons p q P : M !! p = Some (Some q) → target st p → before st q p → p ∉ q :: P →
      gray st M (q :: P) → gray st M (p :: q :: P).

(** The part of the path that is a cycle when the walk comes back to [j]. *)
Fixpoint upto (j : positive) (P : list positive) : list positive :=
  match P with
  | [] => []
  | p :: P => if decide (p = j) then [p] else p :: upto j P
  end.

Lemma upto_cons j p P : upto j (p :: P) = if decide (p = j) then [p] else p :: upto j P.
Proof. done. Qed.

Lemma gray_tail st M p P : gray st M (p :: P) → gray st M P.
Proof. inversion 1; subst; [constructor|done]. Qed.

Lemma gray_target st M P k : gray st M P → k ∈ P → target st k.
Proof.
  induction 1 as [|r ? ?|p q P ? ? ? ? ? IH]; [by intros ?%elem_of_nil|set_solver|].
  intros [->|?]%elem_of_cons; auto.
Qed.

Lemma gray_NoDup st M P : gray st M P → NoDup P.
Proof. induction 1; [constructor|apply NoDup_singleton|by apply NoDup_cons]. Qed.

(** From the start of the cycle to each job on it, and on to the current job. *)
Lemma upto_before st M p P j d :
  gray st M (p :: P) → j ∈ p :: P → d ∈ upto j (p :: P) →
  rtc (before st) j d ∧ rtc (before st) d p.
Proof.
  revert p d. induction P as [|q P IH]; intros p d Hg Hj Hd; rewrite upto_cons in Hd.
  - assert (j = p) as -> by set_solver. rewrite decide_True in Hd by done.
    assert (d = p) as -> by set_solver. done.
  - case_decide as Hpj.
    + subst. assert (d = j) as -> by set_solver. done.
    + inversion Hg as [| |? ? ? ? ? Hqp ? Hg']; subst.
      assert (Hj' : j ∈ q :: P) by set_solver.
      apply elem_of_cons in Hd as [->|Hd].
      * destruct (IH q q Hg' Hj') as [Hr _].
        { rewrite upto_cons. case_decide; set_solver. }
        split; [by eapply rtc_r|done].
      * destruct (IH q d Hg' Hj' Hd) as [? ?]. split; [done|by eapply rtc_r].
Qed.

Lemma find_on_cycle_spec n g st M j p P del :
  st_ok st → gray st M (p :: P) → j ∈ p :: P → (length P < n)%nat →
  ∃ r, find_on_cycle n (paint g M st) g j p del = Some r ∧
    match del, r with
    | Some d, _ => r = Some d
    | None, Some d => d ∈ upto j (p :: P) ∧ droppable st d
    | None, None => ∀ d, d ∈ upto j (p :: P) → ¬ droppable st d
    end.
Proof.
  intros Hok. revert p P del. induction n as [|n IH]; intros p P del Hg Hj Hn; [lia|].
  assert (Htp : target st p) by (eapply gray_target; [exact Hg|apply list_elem_of_here]).
  destruct (target_job st p Hok Htp) as (kb & Hkb & _ & _ & Hch).
  cbn [find_on_cycle]. rewrite heap_paint, Hkb. cbn [fmap option_fmap option_map mbind option_bind].
  rewrite (proj1 (proj2 (paint_key g (M !! p) kb))).
  assert (∃ del', (match del, jobs st !! j_unit kb with
      | None, Some _ => m ← unit_matters_to_anchor (paint g M st) p; Some (if m : bool then None else Some p)
      | _, _ => Some del end) = Some del' ∧
      match del, del' with
      | Some d, _ => del' = Some d
      | None, Some d => d = p ∧ droppable st p
      | None, None => ¬ droppable st p end) as (del' & Hdel & Hdel').
  { destruct del as [d|]; [eauto|]. rewrite unit_matters_paint.
    destruct (jobs st !! j_unit kb) as [c|] eqn:Ec.
    - destruct (unit_matters_spec st p kb) as ([] & -> & Hb); [done..|rewrite Ec; eauto| |];
        cbn [mbind option_bind]; eexists; (split; [done|]); naive_solver.
    - eexists. split; [done|]. intros (db & ? & ? & ? & _). congruence. }
  change (jobs (paint g M st)) with (jobs st).
  rewrite Hdel. cbn [mbind option_bind]. clear Hdel. rewrite upto_cons.
  destruct (decide (p = j)) as [->|Hne].
  { exists del'. split; [done|]. destruct del as [d|], del' as [d'|]; try done.
    - destruct Hdel' as [-> ?]. split; [apply list_elem_of_here|done].
    - intros d ->%list_elem_of_singleton. done. }
  inversion Hg as [|? Hroot|? q P' Hp ? Hqp Hnin Hg']; subst; [set_solver|].
  assert (q ≠ p) by set_solver.
  rewrite Hp. cbn [paint_job]. unfold set_j_generation, set_j_marker. cbn [j_generation j_marker].
  rewrite Z.eqb_refl, bool_decide_eq_false_2 by congruence. cbn [negb andb].
  destruct (IH q P' del') as (r & -> & Hr); [done|set_solver|cbn in Hn; lia|].
  exists r. split; [done|].
  destruct del as [d|]; [by destruct del'; simplify_eq|].
  destruct del' as [d'|].
  - destruct Hdel' as [-> ?]. rewrite Hr. split; [apply list_elem_of_here|done].
  - destruct r as [d|].
    + destruct Hr. split; [by apply list_elem_of_further|done].
    + intros d [->|?]%elem_of_cons; [done|]. by apply Hr.
Qed.

(** ** The walk *)

Section Walk.
Context (g : Z) (st : State).
Hypothesis ok : st_ok st.
Hypothesis fresh_generation : ∀ k jb, heap st !! k = Some jb → j_generation jb ≠ g.

(** Finished jobs are on no cycle and lead to none: nothing runs before itself. *)
Definition finished (M : gmap positive (option positive)) : Prop :=
  ∀ k, M !! k = Some None → Acc (flip (before st)) k.

Definition on_path (M : gmap positive (option positive)) (P : list positive) : Prop :=
  gray st M P ∧ ∀ k f, M !! k = Some (Some f) → k ∈ P.

(** Only finished jobs are added. *)
Definition extends (M M' : gmap positive (option positive)) : Prop :=
  (∀ k x, M !! k = Some x → M' !! k = Some x) ∧
  (∀ k, M !! k = None → M' !! k = None ∨ M' !! k = Some None).

Definition unvisited (M : gmap positive (option positive)) : nat := size (dom (heap st) ∖ dom M).

(** How a walk fails: a cycle through a unit that could be dropped was found and the
    unit was, or there is a cycle of which no unit can be dropped. *)
Definition failed (rs : Z * State) : Prop :=
  (fst rs = -EAGAIN ∧ ∃ M d db D, snd rs = cut D D (paint g M st) ∧
     tc (before st) d d ∧ droppable st d ∧ heap st !! d = Some db ∧
     ∀ k, k ∈ D ↔ ∃ c i, jobs st !! j_unit db = Some c ∧ i ∈ c ∧ rtc (needs (links st)) k i) ∨
  (fst rs = -EDEADLK ∧ ∃ M ks, snd rs = paint g M st ∧ ks ≠ [] ∧
     ∀ d, d ∈ ks → tc (before st) d d ∧ ¬ droppable st d).

Definition outcome (M : gmap positive (option positive)) (j : positive) (rs : Z * State) : Prop :=
  (fst rs = 0 ∧ ∃ M', snd rs = paint g M' st ∧ extends M M' ∧ M' !! j = Some None ∧ finished M') ∨
  failed rs.

Lemma failed_negative rs : failed rs → fst rs < 0.
Proof. intros [[-> _]|[-> _]]; unfold EAGAIN, EDEADLK; lia. Qed.

Lemma extends_refl M : extends M M.
Proof. split; auto. Qed.

Lemma extends_trans M1 M2 M3 : extends M1 M2 → extends M2 M3 → extends M1 M3.
Proof.
  intros [H1 H1'] [H2 H2']. split; [auto|]. intros k Hk. destruct (H1' k Hk) as [?|?]; auto.
Qed.

Lemma extends_unvisited M M' : extends M M' → (unvisited M' <= unvisited M)%nat.
Proof.
  intros [H _]. unfold unvisited. apply subseteq_size.
  assert (dom M ⊆ dom M'); [|set_solver]. intros k [x Hx]%elem_of_dom. apply elem_of_dom. eauto.
Qed.

Lemma extends_on_path M M' P : extends M M' → on_path M P → on_path M' P.
Proof.
  intros [H1 H2] [Hg Hall]. split.
  - clear Hall. induction Hg; constructor; auto.
  - intros k f Hk. destruct (M !! k) as [x|] eqn:E'.
    + pose proof (H1 k x E'). apply (Hall k f). congruence.
    + destruct (H2 k E'); congruence.
Qed.

(** Entering a job puts it on the path. *)
Lemma enter_on_path M P j :
  target st j → M !! j = None → on_path M P → (∀ p P', P = p :: P' → before st p j) →
  on_path (<[j := Some (default j (head P))]> M) (j :: P).
Proof.
  intros Ht Hj [Hg Hall] Hb.
  assert (HjP : j ∉ P).
  { intros Hin. clear Hall Hb. induction Hg as [|r Hr|p q P Hp ? ? ? ? IH]; [by apply elem_of_nil in Hin|..].
    - apply list_elem_of_singleton in Hin as ->. congruence.
    - apply elem_of_cons in Hin as [->|?]; [congruence|auto]. }
  assert (Hg' : gray st (<[j := Some (default j (head P))]> M) P).
  { clear Hall Hb. revert HjP. generalize (default j (head P)). intros f HjP.
    induction Hg; constructor; rewrite ?lookup_insert_ne by set_solver; try done. apply IHHg. set_solver. }
  split.
  - destruct P as [|p P]; constructor; try done; [apply lookup_insert_eq..|by apply (Hb p P)].
  - intros k f. destruct (decide (k = j)) as [->|]; [intros _; apply list_elem_of_here|].
    rewrite lookup_insert_ne by done. intros ?. apply list_elem_of_further. eauto.
Qed.

(** Coming back to a job that was visited. *)
Lemma revisit n M P j jb :
  target st j → on_path M P → finished M → (∀ p P', P = p :: P' → before st p j) →
  heap st !! j = Some jb → is_Some (M !! j) → (size (heap st) < n)%nat →
  ∃ rs, (match j_marker (paint_job g (M !! j) jb) with
         | None => Some (0, paint g M st)
         | Some _ =>
             del ← match head P with
                   | None => Some None
                   | Some k => find_on_cycle n (paint g M st) g j k None
                   end;
             match del with
             | Some d =>
                 db ← heap (paint g M st) !! d;
                 st ← transaction_delete_unit (j_unit db) (paint g M st);
                 Some (-EAGAIN, st)
             | None => Some (-EDEADLK, paint g M st)
             end
         end) = Some rs ∧ outcome M j rs.
Proof.
  intros Ht [Hg Hall] Hfin Hb Hjb [m Hm] Hn. rewrite Hm. cbn [paint_job].
  unfold set_j_generation, set_j_marker. cbn [j_marker]. destruct m as [f|].
  2:{ eexists. split; [done|]. left. split; [done|]. exists M. eauto using extends_refl. }
  pose proof (Hall j f Hm) as HjP. destruct P as [|p P]; [by apply elem_of_nil in HjP|]. cbn [head].
  assert (Hlen : (length P < n)%nat).
  { enough (length (p :: P) <= size (heap st))%nat by (cbn in *; lia).
    rewrite <- size_dom, <- (size_list_to_set (C := gset positive) (p :: P)) by by eapply gray_NoDup.
    apply subseteq_size. intros k Hk%elem_of_list_to_set. apply elem_of_dom.
    destruct (target_job st k ok) as (kb & -> & _); [by eapply gray_target|eauto]. }
  destruct (find_on_cycle_spec n g st M j p P None) as (r & -> & Hr); [done..|].
  assert (Hcyc : ∀ d, d ∈ upto j (p :: P) → tc (before st) d d).
  { intros d Hd. destruct (upto_before st M p P j d) as [H1 H2]; [done..|].
    eapply tc_rtc_l; [exact H2|]. eapply tc_rtc_r; [|exact H1]. apply tc_once. by apply (Hb p P). }
  cbn [mbind option_bind]. destruct r as [d|].
  - destruct Hr as [Hd Hdrop]. pose proof Hdrop as (db & c & Hdb & Hc & _).
    rewrite heap_paint, Hdb. cbn [fmap option_fmap option_map mbind option_bind].
    rewrite (proj1 (proj2 (paint_key g (M !! d) db))).
    destruct (delete_unit_loop_spec (S (size (heap (paint g M st)))) (j_unit db) (paint g M st))
      as (D & HD & _ & Hk); [apply (paint_st_ok g M st ok)|lia|].
    unfold transaction_delete_unit. rewrite HD. cbn [mbind option_bind]. eexists. split; [done|].
    right. left. split; [done|]. exists M, d, db, D. split_and!; auto.
  - eexists. split; [done|]. right. right. split; [done|]. exists M, (upto j (p :: P)).
    split_and!; [done| |auto]. rewrite upto_cons. by case_decide.
Qed.

Lemma size_paint M : size (heap (paint g M st)) = size (heap st).
Proof.
  rewrite <- !(size_dom (D := gset positive)). f_equal. apply set_eq. intros k.
  rewrite !elem_of_dom, heap_paint. by destruct (heap st !! k).
Qed.

Definition walks (n : nat) : Prop := ∀ j P M,
  target st j → on_path M P → finished M → (∀ p P', P = p :: P' → before st p j) →
  (unvisited M < n)%nat →
  ∃ rs, verify_order_one n g j (head P) (paint g M st) = Some rs ∧ outcome M j rs.

Lemma visit_edges_spec n j jb P es M :
  walks n → heap st !! j = Some jb → (∀ e, e ∈ es → e ∈ order_edges (j_unit jb)) →
  on_path M (j :: P) → finished M → (unvisited M < n)%nat →
  ∃ rs, visit_edges (λ o st, verify_order_one n g o (Some j) st) j es (paint g M st) = Some rs ∧
    ((fst rs = 0 ∧ ∃ M', snd rs = paint g M' st ∧ extends M M' ∧ finished M' ∧
        ∀ e o, e ∈ es → order_next st j e = Some (Some o) → M' !! o = Some None) ∨ failed rs).
Proof.
  intros Hw Hjb. revert M. induction es as [|e es IH]; intros M Hes Hpath Hfin Hn; cbn [visit_edges].
  { eexists. split; [done|]. left. split; [done|]. exists M. split_and!; [done|apply extends_refl|done|].
    by intros e o ?%elem_of_nil. }
  rewrite order_next_paint.
  destruct (order_next_spec st j jb e ok Hjb) as (r & Hr & Ho); [apply Hes, list_elem_of_here|].
  rewrite Hr. cbn [mbind option_bind].
  assert (Hes' : ∀ e, e ∈ es → e ∈ order_edges (j_unit jb)).
  { intros e' ?. apply Hes. by apply list_elem_of_further. }
  destruct r as [o|].
  - destruct (Ho o eq_refl) as [Hto Hbo].
    destruct (Hw o (j :: P) M) as ([r s] & Hv & Hout); [done..|by intros ? ? [= <- _]|done|].
    cbn [head] in Hv. rewrite Hv. cbn [mbind option_bind]. clear Hv. destruct Hout as [[Hr0 (M1 & Hs & Hext & Hin & Hfin1)]|Hf].
    + cbn in Hr0, Hs. subst r s. cbn [Z.ltb Z.compare].
      destruct (IH M1 Hes') as (rs & -> & Hrs).
      { by eapply extends_on_path. } { done. } { pose proof (extends_unvisited M M1 Hext). lia. }
      eexists. split; [done|]. destruct Hrs as [[? (M2 & ? & Hext2 & ? & Hall)]|?]; [left|by right].
      split; [done|]. exists M2. split_and!; [done|by eapply extends_trans|done|].
      intros e' o' [->|?]%elem_of_cons Ho'; [|by eapply Hall].
      rewrite Hr in Ho'. injection Ho' as <-. by apply Hext2.
    + pose proof (failed_negative _ Hf) as Hneg. cbn in Hneg. rewrite (proj2 (Z.ltb_lt r 0)) by done.
      eexists. split; [done|by right].
  - destruct (IH M Hes') as (rs & -> & Hrs); [done..|]. eexists. split; [done|].
    destruct Hrs as [[? (M2 & ? & ? & ? & Hall)]|?]; [left|by right].
    split; [done|]. exists M2. split_and!; [done..|].
    intros e' o' [->|?]%elem_of_cons Ho'; [congruence|by eapply Hall].
Qed.

Lemma verify_order_one_walks n : walks n.
Proof.
  induction n as [|n IH]; intros j P M Ht Hpath Hfin Hb Hn; [lia|]. cbn [verify_order_one].
  destruct (target_job st j ok Ht) as (jb & Hjb & _ & Hprev & _).
  rewrite heap_paint, Hjb. cbn [fmap option_fmap option_map mbind option_bind].
  rewrite has_prev_paint, Hprev. cbn [negb]. rewrite assert_bind by done.
  destruct (M !! j) as [m|] eqn:Em.
  - assert (j_generation (paint_job g (Some m) jb) = g) as -> by done. rewrite Z.eqb_refl.
    destruct (revisit (S (size (heap (paint g M st)))) M P j jb) as (rs & Hrs & Hout); [done..| | |].
    { rewrite Em. eauto. } { rewrite size_paint. lia. }
    rewrite Em in Hrs. eauto.
  - cbn [paint_job]. rewrite (proj2 (Z.eqb_neq _ _)) by eauto. rewrite paint_enter.
    set (M1 := <[j := Some (default j (head P))]> M).
    assert (Hpath1 : on_path M1 (j :: P)) by by apply enter_on_path.
    assert (Hfin1 : finished M1).
    { intros k. unfold M1. destruct (decide (k = j)) as [->|]; [by rewrite lookup_insert_eq|].
      rewrite lookup_insert_ne by done. apply Hfin. }
    destruct (visit_edges_spec n j jb P (order_edges (j_unit jb)) M1) as ([r s] & -> & Hrs); [done..| |].
    { enough (unvisited M1 < unvisited M)%nat by lia. unfold unvisited, M1. apply subset_size.
      assert (j ∈ dom (heap st)) by (apply elem_of_dom; eauto).
      assert (j ∉ dom M) by (by apply not_elem_of_dom). rewrite dom_insert_L. set_solver. }
    cbn [mbind option_bind]. destruct Hrs as [[Hr (M' & Hs & Hext & Hfin' & Hall)]|Hf].
    + cbn in Hr, Hs. subst r s. cbn [Z.ltb Z.compare].
      assert (Hj' : M' !! j = Some (Some (default j (head P)))) by (apply Hext, lookup_insert_eq).
      rewrite (paint_leave _ _ _ _ _ Hj'). eexists. split; [done|]. left. split; [done|].
      exists (<[j := None]> M'). split_and!; [done| |apply lookup_insert_eq|].
      * destruct Hext as [He1 He2]. split; intros k; (destruct (decide (k = j)) as [->|Hne];
          [rewrite ?lookup_insert_eq; naive_solver|rewrite lookup_insert_ne by done]).
        -- intros x Hk. apply He1. unfold M1. by rewrite lookup_insert_ne.
        -- intros Hk. apply He2. unfold M1. by rewrite lookup_insert_ne.
      * intros k. destruct (decide (k = j)) as [->|Hne]; [intros _|rewrite lookup_insert_ne by done; apply Hfin'].
        constructor. intros o (jb' & e & Hjb' & He & Ho). apply Hfin', (Hall e); [|done].
        by assert (jb' = jb) as -> by congruence.
    + pose proof (failed_negative _ Hf) as Hneg. cbn in Hneg. rewrite (proj2 (Z.ltb_lt r 0)) by done.
      eexists. split; [done|by right].
Qed.

(** The loop over the units of the transaction. *)
Lemma verify_heads_spec hs M :
  (∀ h, h ∈ hs → target st h) → on_path M [] → finished M →
  ∃ rs, verify_heads g hs (paint g M st) = Some rs ∧
    ((fst rs = 0 ∧ ∃ M', snd rs = paint g M' st ∧ extends M M' ∧ finished M' ∧ on_path M' [] ∧
        ∀ h, h ∈ hs → M' !! h = Some None) ∨ failed rs).
Proof.
  revert M. induction hs as [|h hs IH]; intros M Hh Hpath Hfin; cbn [verify_heads].
  { eexists. split; [done|]. left. split; [done|]. exists M.
    split_and!; [done|apply extends_refl|done..|by intros ? ?%elem_of_nil]. }
  unfold transaction_verify_order_one. rewrite size_paint.
  destruct (verify_order_one_walks (S (S (size (heap st)))) h [] M) as ([r s] & Hv & Hout); [|done..| |].
  { apply Hh, list_elem_of_here. }
  { unfold unvisited. rewrite <- (size_dom (D := gset positive)).
    enough (size (dom (heap st) ∖ dom M) <= size (dom (heap st)))%nat by lia. apply subseteq_size. set_solver. }
  cbn [head] in Hv. rewrite Hv. cbn [mbind option_bind]. clear Hv.
  destruct Hout as [[Hr0 (M1 & Hs & Hext & Hin & Hfin1)]|Hf].
  - cbn in Hr0, Hs. subst r s. cbn [Z.ltb Z.compare].
    destruct (IH M1) as (rs & -> & Hrs).
    { intros ? ?. apply Hh. by apply list_elem_of_further. } { by eapply extends_on_path. } { done. }
    eexists. split; [done|]. destruct Hrs as [[? (M2 & ? & Hext2 & ? & ? & Hall)]|?]; [left|by right].
    split; [done|]. exists M2. split_and!; [done|by eapply extends_trans|done..|].
    intros h' [->|?]%elem_of_cons; [|auto]. by apply Hext2.
  - pose proof (failed_negative _ Hf) as Hneg. cbn in Hneg. rewrite (proj2 (Z.ltb_lt r 0)) by done.
    eexists. split; [done|by right].
Qed.

End Walk.

Lemma paint_empty g st : paint g ∅ st = st.
Proof.
  destruct st as [h ls js a i m]. unfold paint. st_simpl. f_equal. apply map_eq. intros k.
  rewrite map_lookup_imap, lookup_empty. by destruct (h !! k).
Qed.

(** The outcome of a whole pass over the transaction. *)
Lemma verify_order_spec g st :
  st_ok st → (∀ k jb, heap st !! k = Some jb → j_generation jb ≠ g) →
  ∃ r st', transaction_verify_order g st = Some (r, st', u32 (g + 1)) ∧
    ((r = 0 ∧ (∃ M, st' = paint g M st) ∧ ∀ h, h ∈ heads st → Acc (flip (before st)) h) ∨
     failed g st (r, st')).
Proof.
  intros Hok Hg. unfold transaction_verify_order.
  destruct (verify_heads_spec g st Hok Hg (heads st) ∅) as ([r st'] & Hv & Hout).
  { apply head_target. } { split; [constructor|done]. } { done. }
  rewrite paint_empty in Hv. rewrite Hv. cbn [mbind option_bind]. exists r, st'. split; [done|].
  destruct Hout as [[? (M & ? & ? & Hfin & ? & Hall)]|?]; [left|by right].
  split_and!; [done|eauto|]. intros h Hh. apply Hfin. auto.
Qed.

(** ** Properties *)

(** C6: [transaction_verify_order] terminates without failing an assertion on any
    ordering graph. If it returns 0, no job that is in the transaction, or that one of
    them has to wait for or be waited for by, is part of an ordering cycle, and only
    markers and generations were written. If it returns an error, there is a cycle;
    the error is -EAGAIN after a unit was dropped, or -EDEADLK if no unit on the cycle
    can be. *)
Theorem verify_order_acyclic (st : State) (g : Z) :
  st_ok st → (∀ k jb, heap st !! k = Some jb → j_generation jb ≠ g) →
  ∃ r st', transaction_verify_order g st = Some (r, st', u32 (g + 1)) ∧
    (r = 0 ∨ r = -EAGAIN ∨ r = -EDEADLK) ∧
    (r = 0 → (∃ M, st' = paint g M st) ∧
       ∀ h k, h ∈ heads st → rtc (before st) h k → ¬ tc (before st) k k) ∧
    (r < 0 → ∃ k, tc (before st) k k) ∧
    (r = -EDEADLK → (∃ M, st' = paint g M st) ∧
       ∃ ks, ks ≠ [] ∧ ∀ d, d ∈ ks → tc (before st) d d ∧ ¬ droppable st d).
Proof.
  intros Hok Hg. destruct (verify_order_spec g st Hok Hg) as (r & st' & Hv & Hout).
  exists r, st'. split; [done|]. unfold EAGAIN, EDEADLK in *.
  destruct Hout as [(-> & HM & Hacc)|[[Hr (M & d & db & D & ? & Hcyc & _)]|[Hr (M & ks & Hs & Hne & Hks)]]].
  - split_and!; [by left|by intros _; split; [done|]; intros; eapply Acc_no_cycle; eauto|intros; lia..].
  - cbn [fst] in Hr. unfold EAGAIN in Hr.
    split_and!; [right; left; done|intros; lia|eauto|intros; lia].
  - cbn [fst snd] in Hr, Hs. unfold EDEADLK in Hr. split_and!; [right; right; done|intros; lia| |eauto].
    intros _. destruct ks as [|d ks]; [done|]. exists d. apply Hks, list_elem_of_here.
Qed.

(** C22: when [transaction_verify_order] returns -EAGAIN, it has deleted a unit that is
    on an ordering cycle and none of whose jobs matters to the anchor, together with
    exactly the jobs that need one of its jobs. No deleted job matters to the anchor,
    the invariant is kept, and the transaction has become smaller, so trying again ends. *)
Theorem verify_order_breaks_cycle (st : State) (g : Z) (st' : State) (g' : Z) :
  st_ok st → marks_closed st → (∀ k jb, heap st !! k = Some jb → j_generation jb ≠ g) →
  transaction_verify_order g st = Some (-EAGAIN, st', g') →
  ∃ M d db D, st' = cut D D (paint g M st) ∧ tc (before st) d d ∧ heap st !! d = Some db ∧
    (∀ k, k ∈ D ↔ ∃ c i, jobs st !! j_unit db = Some c ∧ i ∈ c ∧ rtc (needs (links st)) k i) ∧
    (∀ k kb, k ∈ D → heap st !! k = Some kb → j_matters_to_anchor kb = false) ∧
    st_ok st' ∧ (size (heap st') < size (heap st))%nat.
Proof.
  intros Hok Hmc Hg Hv. destruct (verify_order_spec g st Hok Hg) as (r & st2 & Hv2 & Hout).
  rewrite Hv in Hv2. injection Hv2 as <- <- ->.
  destruct Hout as [[? _]|[[_ (M & d & db & D & Hs & Hcyc & Hdrop & Hdb & HD)]|[? _]]]; [done| |done].
  cbn in Hs. subst st'. exists M, d, db, D.
  destruct Hdrop as (db' & c & Hdb' & Hc & Hall). assert (db' = db) as -> by congruence.
  assert (Hin : ∀ k, k ∈ D → in_tr st k).
  { intros k (c' & i & Hc' & Hi & Hr)%HD. apply (goes_in_tr true st i k (proj1 Hok)); [by exists (j_unit db), c'|done]. }
  assert (Hd : d ∈ D).
  { apply HD. exists (d :: c), d. split_and!; [done|apply list_elem_of_here|apply rtc_refl]. }
  split_and!; [done..| | |].
  - intros k kb (c' & i & Hc' & Hi & Hr)%HD Hk. assert (c' = d :: c) as -> by congruence.
    destruct (in_tr_job st i Hok) as (ib & Hib & _); [by exists (j_unit db), (d :: c)|].
    eapply marks_closed_rtc; [done|exact Hr|exact Hib|by apply (Hall i)|done].
  - apply st_ok_cut; [by apply paint_st_ok|]. intros k Hk. apply (Hin k Hk).
  - rewrite <- (size_paint g st M). apply (size_cut D D _ d Hd). rewrite heap_paint, Hdb. cbn. eauto.
Qed.

End Order.

(** ** Witnesses *)

(** Units 1, 2 and 3 are ordered in a cycle; 1 needs 2 and wants 3. *)
Definition cycle_env : Env :=
  ex_env (ex_deps [(1, UNIT_ATOM_BEFORE, 2); (2, UNIT_ATOM_AFTER, 1);
                   (2, UNIT_ATOM_BEFORE, 3); (3, UNIT_ATOM_AFTER, 2);
                   (3, UNIT_ATOM_BEFORE, 1); (1, UNIT_ATOM_AFTER, 3)]%positive)
    (λ _, UNIT_INACTIVE) [].

Definition cycle_tr : @State ex_rq :=
  set_anchor_job (Some 1%positive)
  (set_links [MkDep (Some 1%positive) 2 true false; MkDep (Some 1%positive) 3 false false]
  (set_jobs (list_to_map [(1, [1]); (2, [2]); (3, [3])]%positive)
  (set_heap (list_to_map [(1, set_j_matters_to_anchor true (ex_job 1 1 JOB_START));
                          (2, set_j_matters_to_anchor true (ex_job 2 2 JOB_START));
                          (3, ex_job 3 3 JOB_START)]%positive) ex_state))).

Lemma cycle_tr_ok : st_ok cycle_tr.
Proof. apply st_ok_check; [by_decide|by_decide|]. by intros u i Hu. Qed.

Lemma cycle_tr_fresh k jb : heap cycle_tr !! k = Some jb → j_generation jb ≠ 2.
Proof.
  assert (H : map_Forall (λ _ jb, j_generation jb ≠ 2) (heap cycle_tr)) by by_decide. apply H.
Qed.

Lemma cycle_tr_marks : marks_closed cycle_tr.
Proof.
  intros k i kb (l & Hl & Hs & Ho & Hm) _ _. apply list_elem_of_In in Hl.
  destruct Hl as [<-|[<-|[]]]; [|discriminate Hm]. cbn in Ho. subst i.
  eexists. split; reflexivity.
Qed.

Lemma verify_order_acyclic_witness :
  let E := cycle_env in
  ∃ r st', transaction_verify_order 2 cycle_tr = Some (r, st', 3) ∧ r = -EAGAIN.
Proof.
  intros E. destruct (verify_order_acyclic cycle_tr 2) as (r & st' & H & _).
  - apply cycle_tr_ok.
  - apply cycle_tr_fresh.
  - exists r, st'. split; [exact H|].
    assert (Hr : (λ x, fst (fst x)) <$> transaction_verify_order 2 cycle_tr = Some (-EAGAIN))
      by (vm_compute; reflexivity).
    rewrite H in Hr. injection Hr as ->. reflexivity.
Defined.

Lemma verify_order_breaks_cycle_witness :
  let E := cycle_env in
  ∃ st', transaction_verify_order 2 cycle_tr = Some (-EAGAIN, st', 3) ∧ st_ok st' ∧
    (size (heap st') < 3)%nat.
Proof.
  intros E.
  assert (Hr : (λ x, (fst (fst x), snd x)) <$> transaction_verify_order 2 cycle_tr = Some (-EAGAIN, 3))
    by (vm_compute; reflexivity).
  destruct (transaction_verify_order 2 cycle_tr) as [[[r st'] g']|] eqn:H; [|discriminate Hr].
  injection Hr as -> ->. exists st'. split; [reflexivity|].
  destruct (verify_order_breaks_cycle cycle_tr 2 st' 3) as (M & d & db & D & _ & _ & _ & _ & _ & H1 & H2).
  - apply cycle_tr_ok.
  - apply cycle_tr_marks.
  - apply cycle_tr_fresh.
  - exact H.
  - split; [exact H1|exact H2].
Defined.

(** The cycle is broken at unit 3, which the anchor only wants. *)
Example cycle_run :
  let E := cycle_env in
  (λ x, (map_to_list (heap (snd (fst x)))).*1) <$> transaction_verify_order 2 cycle_tr
  = Some [2; 1]%positive.
Proof. vm_compute. reflexivity. Qed.

