(* ===== verification/TrMerge.v ===== *)
(** * Merging the jobs of a unit (src/core/transaction.c)

    [transaction_merge_jobs] leaves one job per unit: it drops jobs that cannot be
    merged with others of their unit, or fails, and then merges the rest;
    [transaction_is_destructive] checks the result against the installed jobs. *)

From S2P Require Import Prelude JobType RunQueue JobData TrDelete TrFix.

Section Merge.
Context {RQ : RunQueue} {E : Env}.
Implicit Types (st : State) (j k u : positive) (l : JobDependency) (c : list positive).

(** ** The code *)

(** [other] becomes [j] at both ends of the links. *)
Definition repl (j other k : positive) : positive := if decide (k = other) then j else k.
Definition relabel (f : positive → positive) (l : JobDependency) : JobDependency :=
  MkDep (f <$> subject l) (f (object l)) (matters l) (conflicts l).

Definition absorb (t : JobType) (ob jb : Job) : Job :=
  set_j_matters_to_anchor (j_matters_to_anchor jb || j_matters_to_anchor ob)
    (set_j_irreversible (j_irreversible jb || j_irreversible ob)
      (set_j_state JOB_WAITING (set_j_type t jb))).

Definition transaction_merge_and_delete_job (j other : positive) (t : JobType) st : option State :=
  jb ← heap st !! j;
  ob ← heap st !! other;
  assert_ (bool_decide (j_unit jb = j_unit ob));;
  assert_ (negb (j_installed jb));;
  let st := alter_job (absorb t ob) j st in
  let st := set_links (relabel (repl j other) <$> links st) st in
  transaction_delete_job other true st.

Definition job_is_conflicted_by st (j : positive) : bool := existsb conflicts (object_list st j).

(** The pairs the two nested loops over a chain go through. *)
Fixpoint chain_pairs (c : list positive) : list (positive * positive) :=
  match c with
  | [] => []
  | j :: c => ((j,.) <$> c) ++ chain_pairs c
  end.

Definition unmergeable st (p : positive * positive) : option bool :=
  jb ← heap st !! fst p;
  kb ← heap st !! snd p;
  m ← job_type_is_mergeable (j_type jb) (j_type kb);
  Some (negb m).

(** Which of two unmergeable jobs to drop, if any. *)
Definition choose_drop st (j k : positive) (jb kb : Job) : option positive :=
  if negb (j_matters_to_anchor jb) && negb (j_matters_to_anchor kb) then
    Some (if bool_decide (j_type jb = JOB_STOP) then
            if job_is_conflicted_by st j then k else j
          else if bool_decide (j_type kb = JOB_STOP) then
            if job_is_conflicted_by st k then j else k
          else j)
  else if negb (j_matters_to_anchor jb) then Some j
  else if negb (j_matters_to_anchor kb) then Some k
  else None.

Definition delete_one_unmergeable_job (c : list positive) st : option (Z * State) :=
  p ← find_first (unmergeable st) (chain_pairs c);
  match p with
  | None => Some (-EINVAL, st)
  | Some (j, k) =>
      jb ← heap st !! j;
      kb ← heap st !! k;
      match choose_drop st j k jb kb with
      | None => Some (-ENOEXEC, st)
      | Some d => st ← transaction_delete_job d true st; Some (0, st)
      end
  end.

(** Merge a list of types into [t], for a unit in state [s]; stops at a failure. *)
Fixpoint merge_types (s : UnitActiveState) (t : JobType) (ts : list JobType) : option (res JobType) :=
  match ts with
  | [] => Some (Ok t)
  | k :: ts =>
      r ← job_type_merge_and_collapse t k s;
      match r with Ok t => merge_types s t ts | Err e => Some (Err e) end
  end.

Definition merge_chain_type st (c : list positive) : option (res JobType) :=
  match c with
  | [] => None
  | j :: rest =>
      jb ← heap st !! j;
      ts ← mapM (λ k, j_type <$> heap st !! k) rest;
      merge_types (unit_active_state (j_unit jb)) (j_type jb) ts
  end.

(** [while ((k = j->transaction_next))]: the anchor survives, otherwise the first. *)
Fixpoint merge_rest (t : JobType) (j : positive) (rest : list positive) st
    : option (positive * State) :=
  match rest with
  | [] => Some (j, st)
  | k :: rest =>
      if bool_decide (anchor_job st = Some k) then
        st ← transaction_merge_and_delete_job k j t st; merge_rest t k rest st
      else
        st ← transaction_merge_and_delete_job j k t st; merge_rest t j rest st
  end.

(** The second step for one unit. *)
Definition merge_unit (u : positive) (c : list positive) st : option State :=
  r ← merge_chain_type st c;
  match r, c with
  | Ok t, j :: rest =>
      '(j, st) ← merge_rest t j rest st;
      assert_ (bool_decide (jobs st !! u = Some [j]));;
      Some st
  | _, _ => None
  end.

Fixpoint merge_units (cs : list (positive * list positive)) st : option State :=
  match cs with
  | [] => Some st
  | (u, c) :: cs => st ← merge_unit u c st; merge_units cs st
  end.

Definition transaction_merge_jobs st : option (Z * State) :=
  bad ← find_first (λ uc, r ← merge_chain_type st (snd uc);
                          Some (match r with Ok _ => false | Err _ => true end)) (iter (jobs st));
  match bad with
  | Some (_, c) =>
      '(r, st) ← delete_one_unmergeable_job c st;
      if 0 <=? r then Some (-EAGAIN, st) else Some (-EDEADLK, st)
  | None => st ← merge_units (iter (jobs st)) st; Some (0, st)
  end.

(** The check of one unit by [transaction_is_destructive]. *)
Definition destroys (mode : JobMode) st (uc : positive * list positive) : option bool :=
  match snd uc with
  | [j] =>
      jb ← heap st !! j;
      match installed_job st (j_unit jb) with
      | None => Some false
      | Some i =>
          ib ← heap st !! i;
          if bool_decide (mode = JOB_FAIL) || j_irreversible ib
          then job_type_is_conflicting (j_type ib) (j_type jb)
          else Some false
      end
  | _ => None (* not merged: an assertion fails *)
  end.

Definition transaction_is_destructive (mode : JobMode) st : option Z :=
  r ← find_first (destroys mode st) (iter (jobs st));
  Some (match r with Some _ => -EDEADLK | None => 0 end).

(** ** Merging two jobs *)

Definition merge_step (j other : positive) (t : JobType) (ob : Job) st : State :=
  set_links (relabel (repl j other) <$> links st) (alter_job (absorb t ob) j st).

Lemma repl_ne j other k : j ≠ other → repl j other k ≠ other.
Proof. unfold repl. by case_decide. Qed.

Lemma relabel_in_tr st (f : positive → positive) l' :
  tr_ok st → (∀ k, in_tr st k → in_tr st (f k)) → l' ∈ relabel f <$> links st →
  in_tr st (object l') ∧ ∀ k, subject l' = Some k → in_tr st k.
Proof.
  intros (_ & _ & Hl) Hf (l & -> & Hin)%list_elem_of_fmap. destruct (Hl l Hin) as [Ho Hs]. cbn.
  split; [by apply Hf|]. destruct (subject l) as [k|]; [|done]. intros ? [= <-]. by apply Hf, Hs.
Qed.

Lemma merge_step_ok j other t ob st :
  st_ok st → in_tr st j → transaction_type t → st_ok (merge_step j other t ob st).
Proof.
  intros Hok Hj Ht. unfold merge_step, alter_job.
  assert (Hh : st_ok (set_heap (alter (absorb t ob) j (heap st)) st)).
  { destruct (in_tr_job st j Hok Hj) as (jb & Hjb & _ & Hni). apply st_ok_heap; [| |done].
    - intros k. destruct (decide (k = j)) as [->|Hne].
      + rewrite lookup_alter_eq, Hjb. constructor. unfold same_shape. cbn. split_and!; try done. congruence.
      + rewrite lookup_alter_ne by done. destruct (heap st !! k); by constructor.
    - intros k kb. destruct (decide (k = j)) as [->|Hne].
      + rewrite lookup_alter_eq, Hjb. by intros [= <-].
      + rewrite lookup_alter_ne by done. apply (proj1 (proj2 Hok)). }
  apply st_ok_links; [|done]. intros l Hl. apply (relabel_in_tr st (repl j other) l); [apply Hok| |done].
  intros k Hk. unfold repl. by case_decide.
Qed.

Lemma merge_and_delete_spec j other u c t st :
  st_ok st → jobs st !! u = Some c → j ∈ c → other ∈ c → j ≠ other → transaction_type t →
  ∃ ob, heap st !! other = Some ob ∧
    transaction_merge_and_delete_job j other t st =
      Some (cut {[other]} {[other]} (merge_step j other t ob st)) ∧
    st_ok (cut {[other]} {[other]} (merge_step j other t ob st)).
Proof.
  intros Hok Hu Hj Ho Hne Ht.
  assert (Hij : in_tr st j) by (by exists u, c). assert (Hio : in_tr st other) by (by exists u, c).
  pose proof Hok as (((Hc & _) & _) & _). destruct (Hc u c Hu) as [_ Hm].
  destruct (Hm j Hj) as (jb & Hjb & Hju & Hjid). destruct (Hm other Ho) as (ob & Hob & Hou & Hoid).
  exists ob. split; [done|].
  pose proof (merge_step_ok j other t ob st Hok Hij Ht) as Hok'.
  assert (Hin' : in_tr (merge_step j other t ob st) other) by exact Hio.
  destruct (transaction_delete_job_spec other true (merge_step j other t ob st)) as (D & HD & Hk).
  { apply Hok'. } { apply in_tr_idle; [apply Hok'|done]. }
  assert (D = {[other]}) as ->.
  { apply set_eq. intros k. rewrite Hk, elem_of_singleton. split; [|intros ->; apply rtc_refl].
    apply garbage_goes_alone. intros l (l0 & -> & _)%list_elem_of_fmap. by apply repl_ne. }
  split.
  - unfold transaction_merge_and_delete_job. rewrite Hjb, Hob. cbn [mbind option_bind].
    rewrite assert_bind by (apply bool_decide_eq_true; congruence).
    rewrite assert_bind by (destruct Hjid as (-> & _); done). exact HD.
  - apply st_ok_cut; [done|]. by intros k ->%elem_of_singleton.
Qed.

(** ** Merging a chain *)

(** [s] stands for all of the chain [c]. *)
Definition to_survivor (c : list positive) (s k : positive) : positive := if decide (k ∈ c) then s else k.

(** Some job of the chain has the flag. *)
Definition any_job (p : Job → bool) st c : Prop := ∃ k kb, k ∈ c ∧ heap st !! k = Some kb ∧ p kb = true.

Record merged (u : positive) (c : list positive) (s : positive) (t : JobType) (st st' : State) : Prop := {
  merged_in : s ∈ c;
  merged_anchor a : anchor_job st = Some a → a ∈ c → s = a;
  merged_jobs : jobs st' = <[u := [s]]> (jobs st);
  merged_links : links st' = relabel (to_survivor c s) <$> links st;
  merged_mgr : mgr st' = mgr st ∧ anchor_job st' = anchor_job st ∧ irreversible st' = irreversible st;
  merged_others k : k ∉ c → heap st' !! k = heap st !! k;
  merged_gone k : k ∈ c → k ≠ s → heap st' !! k = None;
  merged_job : ∃ sb sb', heap st !! s = Some sb ∧ heap st' !! s = Some sb' ∧
    j_unit sb' = j_unit sb ∧ j_id sb' = j_id sb ∧ j_type sb' = t ∧
    (j_matters_to_anchor sb' = true ↔ any_job j_matters_to_anchor st c) ∧
    (j_irreversible sb' = true ↔ any_job j_irreversible st c) ∧
    (j_state sb = JOB_WAITING → j_state sb' = JOB_WAITING);
}.

Lemma relabel_ext (f g : positive → positive) (ls : list JobDependency) :
  (∀ k, f k = g k) → relabel f <$> ls = relabel g <$> ls.
Proof.
  intros H. apply list_fmap_ext. intros _ l _. unfold relabel. rewrite H. f_equal.
  destruct (subject l); [|done]. cbn. by rewrite H.
Qed.

Lemma relabel_compose (f g : positive → positive) (ls : list JobDependency) :
  relabel f <$> (relabel g <$> ls) = relabel (λ k, f (g k)) <$> ls.
Proof.
  rewrite <- list_fmap_compose. apply list_fmap_ext. intros _ l _. unfold relabel. cbn.
  f_equal. by destruct (subject l).
Qed.

Lemma relabel_id (f : positive → positive) (ls : list JobDependency) : (∀ k, f k = k) → relabel f <$> ls = ls.
Proof.
  intros H. rewrite <- (list_fmap_id ls) at 2. apply list_fmap_ext. intros _ [s o m c] _. unfold relabel. cbn.
  rewrite H. f_equal. destruct s; [|done]. cbn. by rewrite H.
Qed.

(** The state after one of two jobs at the front of a chain absorbed the other. *)
Lemma merge_step_front j k rest u t st s o ob :
  st_ok st → jobs st !! u = Some (j :: k :: rest) →
  (s = j ∧ o = k ∨ s = k ∧ o = j) → heap st !! o = Some ob →
  let st1 := cut {[o]} {[o]} (merge_step s o t ob st) in
  jobs st1 = <[u := s :: rest]> (jobs st) ∧ links st1 = relabel (repl s o) <$> links st ∧
  mgr st1 = mgr st ∧ anchor_job st1 = anchor_job st ∧ irreversible st1 = irreversible st ∧
  (∀ i, i ≠ s → i ≠ o → heap st1 !! i = heap st !! i) ∧ heap st1 !! o = None ∧
  heap st1 !! s = absorb t ob <$> heap st !! s.
Proof.
  intros Hok Hu Hso Hob st1.
  pose proof Hok as (((Hc & _) & Hnd & _) & _). specialize (Hnd _ _ Hu).
  apply NoDup_cons in Hnd as [Hj [Hk _]%NoDup_cons].
  assert (Hne : s ≠ o) by (destruct Hso as [[-> ->]|[-> ->]]; set_solver).
  assert (Hf : filter (.∉ ({[o]} : gset positive)) (j :: k :: rest) = s :: rest).
  { destruct Hso as [[-> ->]|[-> ->]].
    - rewrite filter_cons_True, filter_cons_False, filter_all by set_solver. done.
    - rewrite filter_cons_False, filter_cons_True, filter_all by set_solver. done. }
  split_and!; try done.
  - unfold st1, cut, merge_step, alter_job. st_simpl. apply map_eq. intros u'. unfold cut_jobs.
    rewrite lookup_omap. destruct (decide (u' = u)) as [->|Hu'].
    + rewrite lookup_insert_eq, Hu. cbn [mbind option_bind]. by rewrite Hf.
    + rewrite lookup_insert_ne by done. destruct (jobs st !! u') as [c'|] eqn:E'; [|done].
      cbn [mbind option_bind]. destruct (Hc u' c' E') as [Hnil Hall]. rewrite filter_all; [by destruct c'|].
      intros i Hi ->%elem_of_singleton. destruct (Hall o Hi) as (ob1 & ? & <- & _).
      destruct (Hc u _ Hu) as [_ Hall2]. destruct (Hall2 o) as (ob2 & ? & ? & _); [|congruence].
      destruct Hso as [[-> ->]|[-> ->]]; set_solver.
  - unfold st1, cut, merge_step. st_simpl. apply filter_all. intros l (l0 & -> & _)%list_elem_of_fmap.
    unfold touches. cbn. intros [H%elem_of_singleton|(x & Hx & H%elem_of_singleton)].
    + by apply (repl_ne s o (object l0)).
    + subst x. destruct (subject l0) as [y|]; [|done]. cbn in Hx. injection Hx as Hx. by apply (repl_ne s o y).
  - intros i His Hio. unfold st1. rewrite heap_cut, decide_False by set_solver.
    cbn. by rewrite lookup_alter_ne.
  - unfold st1. by rewrite heap_cut, decide_True by set_solver.
  - unfold st1. rewrite heap_cut, decide_False by set_solver. cbn. by rewrite lookup_alter_eq.
Qed.

Lemma any_job_absorb (p : Job → bool) t (ob sb : Job) st st1 s o j k rest :
  (s = j ∧ o = k ∨ s = k ∧ o = j) → NoDup (j :: k :: rest) →
  heap st !! o = Some ob → heap st !! s = Some sb →
  (∀ i, i ≠ s → i ≠ o → heap st1 !! i = heap st !! i) → heap st1 !! s = Some (absorb t ob sb) →
  p (absorb t ob sb) = p sb || p ob →
  any_job p st1 (s :: rest) ↔ any_job p st (j :: k :: rest).
Proof.
  intros Hso Hnd Ho Hs Hsame Hs1 Hp. apply NoDup_cons in Hnd as [Hj [Hk _]%NoDup_cons].
  assert (Hrest : ∀ i, i ∈ rest → heap st1 !! i = heap st !! i).
  { intros i Hi. apply Hsame; intros ->; destruct Hso as [[-> ->]|[-> ->]]; set_solver. }
  split.
  - intros (i & ib & [->|Hi]%elem_of_cons & Hib & Hpi).
    + assert (ib = absorb t ob sb) as -> by congruence. rewrite Hp in Hpi.
      apply orb_true_iff in Hpi as [?|?]; [exists s, sb|exists o, ob]; split_and!; try done;
        destruct Hso as [[-> ->]|[-> ->]]; set_solver.
    + rewrite Hrest in Hib by done. exists i, ib. split_and!; [set_solver|done..].
  - intros (i & ib & Hi & Hib & Hpi). destruct (decide (i ∈ rest)) as [Hr|Hr].
    + exists i, ib. rewrite Hrest by done. split_and!; [set_solver|done..].
    + exists s, (absorb t ob sb). split_and!; [set_solver|done|]. rewrite Hp.
      assert (Hcase : i = s ∨ i = o) by (destruct Hso as [[-> ->]|[-> ->]]; set_solver).
      destruct Hcase as [->| ->]; simplify_eq; rewrite Hpi; [done|apply orb_true_r].
Qed.

Lemma merge_rest_spec t u j rest st :
  st_ok st → jobs st !! u = Some (j :: rest) → transaction_type t →
  (rest = [] → ∀ jb, heap st !! j = Some jb → j_type jb = t) →
  ∃ s st', merge_rest t j rest st = Some (s, st') ∧ merged u (j :: rest) s t st st' ∧ st_ok st'.
Proof.
  revert j st. induction rest as [|k rest IH]; intros j st Hok Hu Ht Hty; cbn [merge_rest].
  - exists j, st. split_and!; [done| |done].
    destruct (in_tr_job st j Hok) as (jb & Hjb & _); [exists u, [j]; split; [done|set_solver]|].
    assert (Hany : ∀ p : Job → bool, p jb = true ↔ any_job p st [j]).
    { intros p. split; [intros ?; exists j, jb; split_and!; [set_solver|done..]|].
      intros (i & ib & ->%list_elem_of_singleton & ? & ?). congruence. }
    split; try done.
    + set_solver.
    + set_solver.
    + by rewrite insert_id.
    + symmetry. apply relabel_id. intros i. unfold to_survivor. case_decide; set_solver.
    + set_solver.
    + exists jb, jb. split_and!; auto.
  - pose proof Hok as ((_ & Hnd & _) & _). specialize (Hnd _ _ Hu).
    set (a := bool_decide (anchor_job st = Some k)).
    set (s := if a then k else j). set (o := if a then j else k).
    assert (Hso : s = j ∧ o = k ∨ s = k ∧ o = j) by (unfold s, o; destruct a; auto).
    assert (Hne : j ≠ k) by (apply NoDup_cons in Hnd; set_solver).
    destruct (merge_and_delete_spec s o u (j :: k :: rest) t st) as (ob & Hob & Hmd & Hok1);
      [done..| | | |done|]; [destruct Hso as [[-> ->]|[-> ->]]; set_solver..|].
    destruct (merge_step_front j k rest u t st s o ob Hok Hu Hso Hob)
      as (Hj1 & Hl1 & Hm1 & Ha1 & Hi1 & Hsame & Hgone & Hs1).
    set (st1 := cut {[o]} {[o]} (merge_step s o t ob st)) in *.
    assert (∃ sb, heap st !! s = Some sb) as [sb Hsb].
    { destruct (in_tr_job st s Hok) as (sb & ? & _); [|eauto]. exists u, (j :: k :: rest).
      split; [done|]. destruct Hso as [[-> ->]|[-> ->]]; set_solver. }
    rewrite Hsb in Hs1. cbn [fmap option_fmap option_map] in Hs1.
    destruct (IH s st1) as (s' & st' & Hrec & Hmer & Hok'); [done| |done| |].
    { rewrite Hj1. apply lookup_insert_eq. }
    { intros _ b Hb. by assert (b = absorb t ob sb) as -> by congruence. }
    exists s', st'. split_and!; [|clear Hrec|done].
    { rewrite <- Hrec. unfold s, o in Hmd. destruct a; by rewrite Hmd. }
    destruct Hmer as [Hin Hanc Hjobs Hlinks (Hm & Han & Hir) Hoth Hgo (sb1 & sb' & H1 & H2 & H3 & H4 & H5 & H6 & H7 & H8)].
    assert (Hsc : ∀ i, i ∈ s :: rest → i ∈ j :: k :: rest).
    { intros i. destruct Hso as [[-> ->]|[-> ->]]; set_solver. }
    assert (Hcs : ∀ i, i ∈ j :: k :: rest → i ≠ o → i ∈ s :: rest).
    { intros i. destruct Hso as [[-> ->]|[-> ->]]; set_solver. }
    assert (Hoc : o ∈ j :: k :: rest) by (destruct Hso as [[-> ->]|[-> ->]]; set_solver).
    assert (Hos : o ∉ s :: rest).
    { apply NoDup_cons in Hnd as [? [? _]%NoDup_cons]. destruct Hso as [[-> ->]|[-> ->]]; set_solver. }
    split.
    + auto.
    + intros x Hx Hxc. apply Hanc; [by rewrite Ha1|]. apply Hcs; [done|]. intros ->.
      unfold o, a in Hx. destruct (bool_decide_reflect (anchor_job st = Some k)); congruence.
    + rewrite Hjobs, Hj1. by rewrite insert_insert_eq.
    + rewrite Hlinks, Hl1, relabel_compose. apply relabel_ext. intros i. unfold to_survivor, repl.
      destruct (decide (i = o)) as [->|Hio].
      * rewrite !decide_True; [done|done|apply list_elem_of_here].
      * destruct (decide (i ∈ j :: k :: rest)) as [Hic|Hic];
          [rewrite decide_True by auto|rewrite decide_False by auto]; done.
    + split_and!; congruence.
    + intros i Hi. rewrite Hoth by auto. apply Hsame; intros ->; apply Hi; [apply Hsc; set_solver|done].
    + intros i Hi His. destruct (decide (i = o)) as [->|]; [|by apply Hgo; auto]. by rewrite Hoth.
    + destruct (decide (s' = s)) as [->|Hs's].
      * assert (sb1 = absorb t ob sb) as -> by congruence. exists sb, sb'. split_and!; try done.
        -- rewrite H6. by eapply any_job_absorb.
        -- rewrite H7. by eapply any_job_absorb.
        -- intros _. by apply H8.
      * assert (s' ≠ o) by (intros ->; done).
        exists sb1, sb'. rewrite <- (Hsame s') by done. split_and!; try done.
        -- rewrite H6. by eapply any_job_absorb.
        -- rewrite H7. by eapply any_job_absorb.
Qed.

(** ** Merging all units *)

Lemma mapM_types st c :
  (∀ k, k ∈ c → ∃ kb, heap st !! k = Some kb) →
  ∃ ts, mapM (λ k, j_type <$> heap st !! k) c = Some ts ∧
    ∀ t, t ∈ ts ↔ ∃ k kb, k ∈ c ∧ heap st !! k = Some kb ∧ j_type kb = t.
Proof.
  induction c as [|k c IH]; intros Hc.
  - exists []. split; [done|]. intros t. split; [by intros ?%elem_of_nil|].
    by intros (? & ? & ?%elem_of_nil & _).
  - destruct (Hc k (list_elem_of_here _ _)) as [kb Hk].
    destruct IH as (ts & Hts & Hel); [intros; apply Hc; by apply list_elem_of_further|].
    exists (j_type kb :: ts). cbn [mapM]. rewrite Hk. cbn [fmap option_fmap option_map mbind option_bind].
    rewrite Hts. split; [done|]. intros t. rewrite elem_of_cons, Hel. split.
    + intros [->|(i & ib & ? & ? & ?)]; [exists k, kb|exists i, ib]; split_and!; try done; set_solver.
    + intros (i & ib & [->|?]%elem_of_cons & ? & ?); [left; congruence|right; eauto].
Qed.

Lemma merge_types_merging (s : UnitActiveState) (t : JobType) (ts : list JobType) :
  merging_type t → (∀ b, b ∈ ts → merging_type b) →
  ∃ r, merge_types s t ts = Some r ∧ ∀ t', r = Ok t' → merging_type t'.
Proof.
  revert t. induction ts as [|k ts IH]; intros t Ht Hts; cbn [merge_types].
  - exists (Ok t). split; [done|]. by intros ? [= <-].
  - destruct (merge_and_collapse_defined t k s) as [->|(t' & -> & Ht')]; [done| | |];
      [apply Hts, list_elem_of_here|..]; cbn [mbind option_bind].
    + by eexists.
    + apply IH; [done|]. intros. apply Hts. by apply list_elem_of_further.
Qed.

(** A unit with several jobs has no NOP among them: only a lone anchor is one. *)
Definition no_nop_chains st : Prop := ∀ u c k kb, jobs st !! u = Some c → (1 < length c)%nat →
  k ∈ c → heap st !! k = Some kb → merging_type (j_type kb).

Lemma merge_chain_type_defined st u c :
  st_ok st → no_nop_chains st → jobs st !! u = Some c →
  ∃ r, merge_chain_type st c = Some r ∧ (∀ t, r = Ok t → transaction_type t) ∧
    (∀ j jb, c = [j] → heap st !! j = Some jb → r = Ok (j_type jb)).
Proof.
  intros Hok Hnop Hu. pose proof Hok as (((Hc & _) & _) & Ht & _).
  destruct (Hc u c Hu) as [Hne Hall]. destruct c as [|j rest]; [done|].
  destruct (Hall j (list_elem_of_here _ _)) as (jb & Hjb & _). cbn [merge_chain_type]. rewrite Hjb.
  cbn [mbind option_bind].
  destruct (mapM_types st rest) as (ts & Hts & Hel).
  { intros k Hk. destruct (Hall k) as (kb & ? & _); [by apply list_elem_of_further|eauto]. }
  rewrite Hts. cbn [mbind option_bind]. destruct rest as [|k rest].
  - cbn in Hts. injection Hts as <-. exists (Ok (j_type jb)). split_and!; [done| |].
    + intros t [= <-]. by apply (Ht j).
    + intros ? ? [= ->] ?. congruence.
  - destruct (merge_types_merging (unit_active_state (j_unit jb)) (j_type jb) ts) as (r & -> & Hr).
    + apply (Hnop u _ j jb Hu); [cbn; lia|apply list_elem_of_here|done].
    + intros t (i & ib & Hi & Hib & <-)%Hel.
      apply (Hnop u _ i ib Hu); [cbn; lia|by apply list_elem_of_further|done].
    + exists r. split_and!; [done| |done]. intros t ->. specialize (Hr t eq_refl).
      unfold merging_type, transaction_type, _JOB_TYPE_MAX_MERGING, _JOB_TYPE_MAX_IN_TRANSACTION in *. lia.
Qed.

Lemma merge_unit_spec u c t st :
  st_ok st → no_nop_chains st → jobs st !! u = Some c → merge_chain_type st c = Some (Ok t) →
  ∃ s st', merge_unit u c st = Some st' ∧ merged u c s t st st' ∧ st_ok st'.
Proof.
  intros Hok Hnop Hu Hty. destruct (merge_chain_type_defined st u c Hok Hnop Hu) as (r & Hr & Htt & Hone).
  assert (r = Ok t) as -> by congruence. unfold merge_unit. rewrite Hty. cbn [mbind option_bind].
  destruct c as [|j rest]; [by destruct (proj1 (proj1 (proj1 Hok)) u [] Hu)|].
  destruct (merge_rest_spec t u j rest st) as (s & st' & -> & Hm & Hok'); [done|done|by apply Htt| |].
  { intros -> jb Hjb. specialize (Hone j jb eq_refl Hjb). congruence. }
  cbn [mbind option_bind]. exists s, st'. split_and!; [|done..].
  rewrite assert_bind; [done|]. apply bool_decide_eq_true. rewrite (merged_jobs _ _ _ _ _ _ Hm).
  apply lookup_insert_eq.
Qed.

(** What became of the jobs of one unit. *)
Definition merged_at (u : positive) (c : list positive) (s : positive) (st st' : State) : Prop :=
  s ∈ c ∧ (∀ a, anchor_job st = Some a → a ∈ c → s = a) ∧ jobs st' !! u = Some [s] ∧
  (∀ k, k ∈ c → k ≠ s → heap st' !! k = None) ∧
  ∃ sb sb', heap st !! s = Some sb ∧ heap st' !! s = Some sb' ∧
    j_unit sb' = j_unit sb ∧ j_id sb' = j_id sb ∧ merge_chain_type st c = Some (Ok (j_type sb')) ∧
    (j_matters_to_anchor sb' = true ↔ any_job j_matters_to_anchor st c) ∧
    (j_irreversible sb' = true ↔ any_job j_irreversible st c) ∧
    (j_state sb = JOB_WAITING → j_state sb' = JOB_WAITING).

Lemma merged_merged_at u c s t st st' :
  merged u c s t st st' → merge_chain_type st c = Some (Ok t) → merged_at u c s st st'.
Proof.
  intros [Hin Ha Hj _ _ _ Hgo (sb & sb' & H1 & H2 & H3 & H4 & H5 & H6 & H7 & H8)] Ht.
  split_and!; [done|done|by rewrite Hj, lookup_insert_eq|done|].
  exists sb, sb'. split_and!; try done. congruence.
Qed.

(** Merging answers all the jobs that are merged. *)
Lemma merge_types_becomes s t ts t' :
  merge_types s t ts = Some (Ok t') → becomes s t t' ∧ ∀ b, b ∈ ts → becomes s b t'.
Proof.
  revert t. induction ts as [|b ts IH]; intros t; cbn [merge_types].
  - intros [= <-]. split; [by left|by intros k ?%elem_of_nil].
  - destruct (job_type_merge_and_collapse t b s) as [[tb|e]|] eqn:Em; [|done..]. cbn [mbind option_bind].
    intros H. destruct (IH tb H) as [Ht Hts], (merge_answers s t b tb Em) as [Ha Hb].
    split; [by eapply becomes_trans; [right|]|]. intros k [->|Hk]%elem_of_cons; [by eapply becomes_trans; [right|]|by apply Hts].
Qed.

Lemma merge_chain_answers st u c k kb t :
  st_ok st → jobs st !! u = Some c → k ∈ c → heap st !! k = Some kb → merge_chain_type st c = Some (Ok t) →
  becomes (unit_active_state (j_unit kb)) (j_type kb) t.
Proof.
  intros Hok Hu Hk Hkb. destruct (proj1 (proj1 (proj1 Hok)) u c Hu) as [_ Hc].
  assert (Hku : j_unit kb = u) by (destruct (Hc k Hk) as (? & ? & ? & _); congruence).
  destruct c as [|j rest]; [done|]. cbn [merge_chain_type]. destruct (Hc j (list_elem_of_here _ _)) as (jb & Hjb & Hju & _).
  rewrite Hjb. cbn [mbind option_bind]. destruct (mapM _ rest) as [ts|] eqn:Ets; [|done]. cbn [mbind option_bind].
  intros Hm. apply merge_types_becomes in Hm as [H1 H2]. rewrite Hju, <- Hku in H1, H2.
  apply elem_of_cons in Hk as [->|Hk]; [by assert (jb = kb) as <- by congruence|]. apply H2.
  apply mapM_Some_1 in Ets. apply list_elem_of_lookup in Hk as [n Hn]. destruct (Forall2_lookup_l _ _ _ _ _ Ets Hn) as (t0 & Ht0 & Hx).
  rewrite Hkb in Hx. injection Hx as <-. by eapply list_elem_of_lookup_2.
Qed.

(** The parts of the state that [merged_at] reads. *)
Lemma any_job_same (p : Job → bool) st1 st2 c :
  (∀ k, k ∈ c → heap st1 !! k = heap st2 !! k) → any_job p st1 c ↔ any_job p st2 c.
Proof.
  intros H. unfold any_job. split; intros (k & kb & Hk & Hkb & ?); exists k, kb;
    [rewrite <- H by done|rewrite H by done]; done.
Qed.

Lemma merge_chain_type_same st1 st2 c :
  (∀ k, k ∈ c → heap st1 !! k = heap st2 !! k) → merge_chain_type st1 c = merge_chain_type st2 c.
Proof.
  intros H. destruct c as [|j rest]; [done|]. cbn [merge_chain_type].
  rewrite (H j (list_elem_of_here _ _)). destruct (heap st2 !! j); [|done]. cbn [mbind option_bind].
  assert (mapM (λ k, j_type <$> heap st1 !! k) rest = mapM (λ k, j_type <$> heap st2 !! k) rest) as ->; [|done].
  assert (H' : ∀ k, k ∈ rest → heap st1 !! k = heap st2 !! k) by (intros; apply H; by apply list_elem_of_further).
  clear H. induction rest as [|k rest IH]; [done|]. cbn [mapM].
  rewrite (H' k (list_elem_of_here _ _)), IH; [done|]. intros. apply H'. by apply list_elem_of_further.
Qed.

Lemma chains_disjoint st u1 u2 c1 c2 k :
  st_ok st → jobs st !! u1 = Some c1 → jobs st !! u2 = Some c2 → u1 ≠ u2 → k ∈ c1 → k ∉ c2.
Proof.
  intros (((Hc & _) & _) & _) H1 H2 Hne Hk1 Hk2.
  destruct (Hc u1 c1 H1) as [_ Ha1]. destruct (Hc u2 c2 H2) as [_ Ha2].
  destruct (Ha1 k Hk1) as (? & ? & ? & _). destruct (Ha2 k Hk2) as (? & ? & ? & _). congruence.
Qed.

(** What became of the whole state when the units of [cs] were merged. *)
Definition all_merged (cs : list (positive * list positive)) (f : positive → positive) (st st' : State) : Prop :=
  (∀ u c k, (u, c) ∈ cs → k ∈ c → merged_at u c (f k) st st') ∧
  (∀ u, u ∉ cs.*1 → jobs st' !! u = jobs st !! u) ∧
  (∀ k, (∀ u c, (u, c) ∈ cs → k ∉ c) → heap st' !! k = heap st !! k ∧ f k = k) ∧
  links st' = relabel f <$> links st ∧
  mgr st' = mgr st ∧ anchor_job st' = anchor_job st ∧ irreversible st' = irreversible st.

Definition mergeable_unit st (uc : positive * list positive) : Prop :=
  jobs st !! fst uc = Some (snd uc) ∧ ∃ t, merge_chain_type st (snd uc) = Some (Ok t).

(** Merging one unit does not disturb the others. *)
Lemma merged_keeps u c s t st st1 :
  merged u c s t st st1 → st_ok st → st_ok st1 → jobs st !! u = Some c → no_nop_chains st →
  no_nop_chains st1 ∧ ∀ uc, fst uc ≠ u → mergeable_unit st uc →
    mergeable_unit st1 uc ∧ ∀ k, k ∈ snd uc → heap st1 !! k = heap st !! k.
Proof.
  intros Hm Hok Hok1 Hu Hnop. pose proof (merged_jobs _ _ _ _ _ _ Hm) as Hj.
  assert (Hsame : ∀ u' c' k, u' ≠ u → jobs st !! u' = Some c' → k ∈ c' → heap st1 !! k = heap st !! k).
  { intros u' c' k Hne Hu' Hk. apply (merged_others _ _ _ _ _ _ Hm).
    exact (chains_disjoint st u' u c' c k Hok Hu' Hu Hne Hk). }
  split.
  - intros u' c' k kb Hu' Hlen Hk Hkb. rewrite Hj in Hu'. destruct (decide (u' = u)) as [->|Hne].
    + rewrite lookup_insert_eq in Hu'. injection Hu' as <-. cbn in Hlen. lia.
    + rewrite lookup_insert_ne in Hu' by done. rewrite (Hsame u' c') in Hkb by done. by eapply Hnop.
  - intros [u' c'] Hne [Hu' [t' Ht']]. cbn [fst snd] in *. split; [split|].
    + cbn [fst snd]. by rewrite Hj, lookup_insert_ne.
    + exists t'. cbn [snd]. rewrite <- Ht'. apply merge_chain_type_same. intros k Hk. by apply (Hsame u' c').
    + intros k Hk. by apply (Hsame u' c').
Qed.

Lemma merge_units_spec cs st :
  st_ok st → no_nop_chains st → NoDup cs.*1 → (∀ uc, uc ∈ cs → mergeable_unit st uc) →
  ∃ f st', merge_units cs st = Some st' ∧ st_ok st' ∧ all_merged cs f st st'.
Proof.
  revert st. induction cs as [|[u c] cs IH]; intros st Hok Hnop Hnd Hcs; cbn [merge_units].
  - exists (λ k, k), st. split_and!; [done..|]. split_and!; try done.
    + by intros u c k ?%elem_of_nil.
    + symmetry. by apply relabel_id.
  - cbn in Hnd. apply NoDup_cons in Hnd as [Hnin Hnd].
    destruct (Hcs (u, c) (list_elem_of_here _ _)) as [Hu [t Ht]]. cbn [fst snd] in Hu, Ht.
    destruct (merge_unit_spec u c t st Hok Hnop Hu Ht) as (s & st1 & -> & Hm & Hok1). cbn [mbind option_bind].
    destruct (merged_keeps _ _ _ _ _ _ Hm Hok Hok1 Hu Hnop) as [Hnop1 Hkeep].
    assert (Hkeep' : ∀ uc, uc ∈ cs → mergeable_unit st1 uc ∧ ∀ k, k ∈ snd uc → heap st1 !! k = heap st !! k).
    { intros uc Huc. apply Hkeep; [|apply Hcs; by apply list_elem_of_further].
      intros <-. apply Hnin. apply list_elem_of_fmap. eauto. }
    destruct (IH st1 Hok1 Hnop1 Hnd) as (f & st' & -> & Hok' & Hat & Hjo & Hhe & Hli & Hmg & Han & Hir).
    { intros uc Huc. by apply Hkeep'. }
    pose proof Hm as [Hin Hanc Hj1 Hl1 (Hmg1 & Han1 & Hir1) Hoth Hgo _].
    assert (Hdis : ∀ k u' c', k ∈ c → (u', c') ∈ cs → k ∉ c').
    { intros k u' c' Hk Huc. apply (chains_disjoint st u u' c c' k Hok Hu); [|intros <-|exact Hk].
      - apply (Hcs (u', c')). by apply list_elem_of_further.
      - apply Hnin. apply list_elem_of_fmap. by exists (u, c'). }
    exists (λ k, f (to_survivor c s k)), st'. split_and!; [done..|]. split_and!.
    + intros u' c' k [[= -> ->]|Huc]%elem_of_cons Hk; unfold to_survivor.
      * rewrite decide_True by done.
        destruct (Hhe s) as [Hs' Hfs]; [intros u2 c2 H2; by apply (Hdis s u2 c2 Hin)|]. rewrite Hfs.
        pose proof (merged_merged_at _ _ _ _ _ _ Hm Ht) as (? & ? & H3 & H4 & sb & sb' & H5 & H6 & H7).
        split_and!; [done|done|by rewrite Hjo| |exists sb, sb'; split_and!; try done; [congruence|apply H7..]].
        intros k' Hk' Hks. destruct (Hhe k') as [-> _]; [intros u2 c2 H2; by apply (Hdis k' u2 c2 Hk')|auto].
      * rewrite decide_False by (intros Hkc; by apply (Hdis k u' c')).
        destruct (Hkeep' (u', c') Huc) as [_ Hsame]. cbn [snd] in Hsame.
        destruct (Hat u' c' k Huc Hk) as (H1 & H2 & H3 & H4 & sb & sb' & H5 & H6 & H7 & H8 & H9 & H10 & H11).
        split_and!; [done|by rewrite Han1 in H2|done|done|]. exists sb, sb'.
        rewrite <- Hsame by done. rewrite <- (merge_chain_type_same st1 st c') by done.
        rewrite <- !(any_job_same _ st1 st c') by done. done.
    + intros u' Hu'. cbn in Hu'. rewrite Hjo by set_solver. rewrite Hj1, lookup_insert_ne; [done|set_solver].
    + intros k Hk. assert (Hkc : k ∉ c) by (apply (Hk u c), list_elem_of_here).
      unfold to_survivor. rewrite decide_False by done.
      destruct (Hhe k) as [-> ?]; [intros u2 c2 ?; apply (Hk u2 c2); by apply list_elem_of_further|].
      by rewrite Hoth.
    + by rewrite Hli, Hl1, relabel_compose.
    + congruence.
    + congruence.
    + congruence.
Qed.

(** ** Jobs that do not merge *)

Fixpoint pairwise {A} (m : A → A → Prop) (xs : list A) : Prop :=
  match xs with [] => True | x :: xs => (∀ y, y ∈ xs → m x y) ∧ pairwise m xs end.

Lemma merge_some s a b : merging_type a → merging_type b →
  (∃ t, job_type_merge_and_collapse a b s = Some (Ok t) ∧ merge s a b = Some t ∧ merging_type t) ∨
  (job_type_merge_and_collapse a b s = Some (Err (-EEXIST)) ∧ merge s a b = None).
Proof.
  intros Ha Hb. unfold merge. destruct (merge_and_collapse_defined a b s Ha Hb) as [->|(t & -> & ?)]; eauto.
Qed.

(** "If a merged with b does not merge with c, either a or b merge with c neither." *)
Lemma merge_types_pairwise s t ts :
  merging_type t → (∀ b, b ∈ ts → merging_type b) →
  pairwise (λ a b, is_Some (merge s a b)) (t :: ts) → ∃ t', merge_types s t ts = Some (Ok t').
Proof.
  revert t. induction ts as [|b ts IH]; intros t Ht Hts Hp; cbn [merge_types]; [eauto|].
  assert (Hb : merging_type b) by (apply Hts, list_elem_of_here).
  destruct Hp as [Htp [Hbp Hp]].
  destruct (merge_some s t b Ht Hb) as [(tb & -> & Hm & Htb)|[_ Hm]].
  2:{ destruct (Htp b (list_elem_of_here _ _)); congruence. }
  cbn [mbind option_bind]. apply IH; [done|intros; apply Hts; by apply list_elem_of_further|].
  split; [|done]. intros x Hx. destruct (merge s tb x) eqn:Ex; [eauto|exfalso].
  pose proof (merging_laws_all s t b x) as H. unfold merging_laws_at in H.
  rewrite (bool_decide_eq_true_2 (_ ∧ _)) in H.
  2:{ split_and!; [done..|]. apply Hts. by apply list_elem_of_further. }
  cbn [negb orb] in H. apply andb_true_iff in H as [_ H]. rewrite Hm in H.
  rewrite Ex in H. destruct (Htp x (list_elem_of_further _ _ _ Hx)) as [? E1].
  destruct (Hbp x Hx) as [? E2]. rewrite E1, E2 in H. done.
Qed.

Lemma elem_of_chain_pairs p c : p ∈ chain_pairs c → fst p ∈ c ∧ snd p ∈ c.
Proof.
  induction c as [|j c IH]; cbn [chain_pairs]; [by intros ?%elem_of_nil|].
  rewrite elem_of_app. intros [(k & -> & Hk)%list_elem_of_fmap|Hp].
  - cbn. set_solver.
  - destruct (IH Hp). set_solver.
Qed.

Lemma chain_pairs_length p c : p ∈ chain_pairs c → (1 < length c)%nat.
Proof.
  destruct c as [|j [|k c]]; cbn; [by intros ?%elem_of_nil|by intros ?%elem_of_nil|lia].
Qed.

Lemma mergeable_merge s a b : merging_type a → merging_type b →
  job_type_is_mergeable a b = Some (bool_decide (is_Some (merge s a b))).
Proof.
  intros Ha Hb. unfold merge, job_type_is_mergeable, job_type_merge_and_collapse.
  destruct (merge_and_collapse_defined a b s Ha Hb) as [H|(t & H & _)];
    unfold job_type_merge_and_collapse in H;
    destruct (job_type_lookup_merge a b) as [[t'|]|]; try done;
    cbn [mbind option_bind]; f_equal; by repeat case_bool_decide; naive_solver.
Qed.

(** A chain on which no pair is unmergeable merges. *)
Lemma merge_chain_pairwise st u c :
  st_ok st → no_nop_chains st → jobs st !! u = Some c →
  (∀ p, p ∈ chain_pairs c → unmergeable st p = Some false) →
  ∃ t, merge_chain_type st c = Some (Ok t).
Proof.
  intros Hok Hnop Hu Hp. pose proof Hok as (((Hc & _) & _) & _). destruct (Hc u c Hu) as [Hne Hall].
  destruct c as [|j [|k rest]]; [done| |].
  { destruct (Hall j (list_elem_of_here _ _)) as (jb & Hjb & _). cbn. rewrite Hjb. cbn. eauto. }
  set (c := j :: k :: rest) in *.
  assert (Hmt : ∀ i ib, i ∈ c → heap st !! i = Some ib → merging_type (j_type ib)).
  { intros i ib Hi Hib. apply (Hnop u c i ib Hu); [cbn; lia|done..]. }
  assert (Hpw : ∀ d ts, (∀ p, p ∈ chain_pairs d → unmergeable st p = Some false) → (∀ i, i ∈ d → i ∈ c) →
    mapM (λ k, j_type <$> heap st !! k) d = Some ts →
    pairwise (λ a b, is_Some (merge (unit_active_state u) a b)) ts).
  { clear -Hall Hmt. induction d as [|x d IH]; intros ts Hp Hd Hts.
    { cbn in Hts. by injection Hts as <-. }
    destruct (Hall x) as (xb & Hxb & _); [apply Hd, list_elem_of_here|]. cbn [mapM] in Hts.
    rewrite Hxb in Hts. cbn [fmap option_fmap option_map mbind option_bind] in Hts.
    destruct (mapM_types st d) as (ts' & Hts' & Hel).
    { intros i Hi. destruct (Hall i) as (ib & ? & _); [apply Hd; by apply list_elem_of_further|eauto]. }
    rewrite Hts' in Hts. cbn in Hts. injection Hts as <-. split.
    - intros b (i & ib & Hi & Hib & <-)%Hel.
      assert (Hxi : (x, i) ∈ chain_pairs (x :: d)).
      { cbn [chain_pairs]. apply elem_of_app. left. apply list_elem_of_fmap. eauto. }
      specialize (Hp _ Hxi). unfold unmergeable in Hp. cbn [fst snd] in Hp. rewrite Hxb, Hib in Hp.
      cbn [mbind option_bind] in Hp.
      rewrite (mergeable_merge (unit_active_state u)) in Hp.
      + cbn in Hp. injection Hp as Hp. apply negb_false_iff, bool_decide_eq_true in Hp. done.
      + apply (Hmt x); [apply Hd, list_elem_of_here|done].
      + apply (Hmt i); [apply Hd; by apply list_elem_of_further|done].
    - apply (IH ts'); [|intros; apply Hd; by apply list_elem_of_further|done].
      intros p Hpd. apply Hp. cbn [chain_pairs]. apply elem_of_app. by right. }
  destruct (Hall j (list_elem_of_here _ _)) as (jb & Hjb & Hju & _).
  destruct (mapM_types st (k :: rest)) as (ts & Hts & Hel).
  { intros i Hi. destruct (Hall i) as (ib & ? & _); [by apply list_elem_of_further|eauto]. }
  unfold c at 1. cbn [merge_chain_type]. rewrite Hjb, Hts. cbn [mbind option_bind]. rewrite Hju.
  apply merge_types_pairwise.
  - by apply (Hmt j); [apply list_elem_of_here|].
  - intros b (i & ib & Hi & Hib & <-)%Hel. apply (Hmt i); [by apply list_elem_of_further|done].
  - apply (Hpw c); [done..|]. unfold c. cbn [mapM] in *. rewrite Hjb.
    cbn [fmap option_fmap option_map mbind option_bind] in *. by rewrite Hts.
Qed.

Lemma choose_drop_spec st j k jb kb :
  match choose_drop st j k jb kb with
  | Some d => (d = j ∧ j_matters_to_anchor jb = false) ∨ (d = k ∧ j_matters_to_anchor kb = false)
  | None => j_matters_to_anchor jb = true ∧ j_matters_to_anchor kb = true
  end.
Proof.
  unfold choose_drop. destruct (j_matters_to_anchor jb), (j_matters_to_anchor kb); cbn; auto.
  destruct (bool_decide _), (job_is_conflicted_by st j); auto; destruct (bool_decide _), (job_is_conflicted_by st k); auto.
Qed.

(** Two jobs of a unit that cannot be merged. *)
Definition conflict st (c : list positive) (j k : positive) (jb kb : Job) : Prop :=
  j ∈ c ∧ k ∈ c ∧ heap st !! j = Some jb ∧ heap st !! k = Some kb ∧
  job_type_is_mergeable (j_type jb) (j_type kb) = Some false.

(** [s] is to stop a unit for which [o] wants something else. *)
Definition clash st (u s : positive) (sb : Job) (o : positive) (ob : Job) : Prop :=
  ∃ c, jobs st !! u = Some c ∧ s ∈ c ∧ o ∈ c ∧ heap st !! s = Some sb ∧ heap st !! o = Some ob ∧
    j_type sb = JOB_STOP ∧ j_type ob ≠ JOB_STOP.

(** A job is asked to stop the unit because it conflicts with another. *)
Definition conflicted st (s : positive) : Prop := ∃ l, l ∈ links st ∧ object l = s ∧ conflicts l = true.

(** Which of the two has to go. A job that matters to the anchor stays. If neither matters, a
    stop job that stands for a Conflicts= wins, any other stop job loses. *)
Inductive yields st (s : positive) (sb : Job) (o : positive) (ob : Job) : positive → Prop :=
  | yields_stop : j_matters_to_anchor sb = false → j_matters_to_anchor ob = true → yields st s sb o ob s
  | yields_other : j_matters_to_anchor sb = true → j_matters_to_anchor ob = false → yields st s sb o ob o
  | yields_conflicted : j_matters_to_anchor sb = false → j_matters_to_anchor ob = false → conflicted st s →
      yields st s sb o ob o
  | yields_plain : j_matters_to_anchor sb = false → j_matters_to_anchor ob = false → ¬ conflicted st s →
      yields st s sb o ob s.

Lemma conflicted_by_iff st s : job_is_conflicted_by st s = true ↔ conflicted st s.
Proof.
  unfold job_is_conflicted_by, conflicted, object_list. rewrite existsb_exists. split.
  - intros (l & Hl%list_elem_of_In & Hc). apply list_elem_of_filter in Hl as [? ?]. eauto.
  - intros (l & Hl & Ho & Hc). exists l. split; [|done]. apply list_elem_of_In, list_elem_of_filter. done.
Qed.

Lemma two_in_chain st c j k jb kb :
  j ∈ c → k ∈ c → heap st !! j = Some jb → heap st !! k = Some kb → job_type_is_mergeable (j_type jb) (j_type kb) = Some false →
  (1 < length c)%nat.
Proof.
  intros Hj Hk Hjb Hkb Hm. destruct c as [|x [|y c]]; [by apply elem_of_nil in Hj| |cbn; lia].
  apply list_elem_of_singleton in Hj as ->. apply list_elem_of_singleton in Hk as ->. assert (jb = kb) as <- by congruence.
  by destruct (j_type jb).
Qed.

Lemma conflict_clash st u c j k jb kb :
  jobs st !! u = Some c → conflict st c j k jb kb → merging_type (j_type jb) → merging_type (j_type kb) →
  clash st u j jb k kb ∨ clash st u k kb j jb.
Proof.
  intros Hu (Hj & Hk & Hjb & Hkb & Hm) H1 H2. unfold clash.
  destruct (decide (j_type jb = JOB_STOP)) as [Hs|Hs], (decide (j_type kb = JOB_STOP)) as [Hs'|Hs'].
  - by rewrite Hs, Hs' in Hm.
  - left. by exists c.
  - right. by exists c.
  - exfalso. revert Hm H1 H2 Hs Hs'. by destruct (j_type jb), (j_type kb).
Qed.

Lemma choose_drop_clash st u s sb o ob :
  clash st u s sb o ob →
  (∀ d, choose_drop st s o sb ob = Some d → yields st s sb o ob d) ∧
  (∀ d, choose_drop st o s ob sb = Some d → yields st s sb o ob d).
Proof.
  intros (c & _ & _ & _ & _ & _ & Hs & Ho). unfold choose_drop.
  rewrite (bool_decide_eq_true_2 (j_type sb = JOB_STOP)), (bool_decide_eq_false_2 (j_type ob = JOB_STOP)) by done.
  pose proof (conflicted_by_iff st s) as Hc. destruct (j_matters_to_anchor sb) eqn:Es, (j_matters_to_anchor ob) eqn:Eo; cbn [negb andb];
    split; intros d; try done; try (intros [= <-]; by constructor);
    (destruct (job_is_conflicted_by st s); intros [= <-]; [apply yields_conflicted|apply yields_plain]; try done; [by apply Hc|]; intros Hx%Hc; done).
Qed.

(** A chain with such a pair does not merge. *)
Lemma clash_unmerged st u s sb o ob c t :
  st_ok st → clash st u s sb o ob → jobs st !! u = Some c → merge_chain_type st c ≠ Some (Ok t).
Proof.
  intros Hok (c' & Hu' & Hs & Ho & Hsb & Hob & Ht & Hne) Hu Hm. assert (c' = c) as -> by congruence.
  pose proof (merge_chain_answers st u c s sb t Hok Hu Hs Hsb Hm) as H1.
  pose proof (merge_chain_answers st u c o ob t Hok Hu Ho Hob Hm) as H2. rewrite Ht in H1.
  assert (t = JOB_STOP) as -> by (destruct H1 as [?|H1]; [done|by apply list_elem_of_singleton in H1]).
  destruct H2 as [?|H2]; [congruence|]. revert H2 Hne. clear. generalize (unit_active_state (j_unit ob)). intros s Hin Hne.
  assert (Hno : ∀ s t, t ≠ JOB_STOP → bool_decide (JOB_STOP ∈ answers s t) = false) by (intros [] []; try done; intros _; vm_compute; reflexivity).
  specialize (Hno s (j_type ob) Hne). by apply bool_decide_eq_false in Hno.
Qed.

Lemma delete_one_unmergeable_spec st u c e :
  st_ok st → no_nop_chains st → jobs st !! u = Some c → merge_chain_type st c = Some (Err e) →
  ∃ j k jb kb, conflict st c j k jb kb ∧
    ((∃ d db D, choose_drop st j k jb kb = Some d ∧ heap st !! d = Some db ∧ d ∈ c ∧ j_matters_to_anchor db = false ∧
        (∀ i, i ∈ D ↔ rtc (needs (links st)) i d) ∧
        delete_one_unmergeable_job c st = Some (0, cut D D st)) ∨
     (j_matters_to_anchor jb = true ∧ j_matters_to_anchor kb = true ∧
        delete_one_unmergeable_job c st = Some (-ENOEXEC, st))).
Proof.
  intros Hok Hnop Hu Herr. pose proof Hok as (((Hc & _) & _) & _). destruct (Hc u c Hu) as [_ Hall].
  unfold delete_one_unmergeable_job.
  destruct (find_first_defined (unmergeable st) (chain_pairs c)) as [r Hr].
  { intros [j k] Hp. pose proof (elem_of_chain_pairs _ _ Hp) as [Hj Hk]. cbn [fst snd] in *.
    pose proof (chain_pairs_length _ _ Hp) as Hlen.
    destruct (Hall j Hj) as (jb & Hjb & _). destruct (Hall k Hk) as (kb & Hkb & _).
    unfold unmergeable. cbn [fst snd]. rewrite Hjb, Hkb. cbn [mbind option_bind].
    rewrite (mergeable_merge UNIT_ACTIVE) by eauto. cbn. eauto. }
  rewrite Hr. cbn [mbind option_bind]. destruct r as [[j k]|].
  2:{ rewrite find_first_None in Hr. destruct (merge_chain_pairwise st u c) as [t ?]; [done..|congruence]. }
  apply find_first_Some in Hr as [Hp Hum]. pose proof (elem_of_chain_pairs _ _ Hp) as [Hj Hk]. cbn [fst snd] in *.
  destruct (Hall j Hj) as (jb & Hjb & _). destruct (Hall k Hk) as (kb & Hkb & _).
  exists j, k, jb, kb. split.
  { unfold unmergeable in Hum. cbn [fst snd] in Hum. rewrite Hjb, Hkb in Hum. cbn [mbind option_bind] in Hum.
    destruct (job_type_is_mergeable (j_type jb) (j_type kb)) as [[]|] eqn:Em; try done. }
  rewrite Hjb, Hkb. cbn [mbind option_bind]. pose proof (choose_drop_spec st j k jb kb) as Hch.
  destruct (choose_drop st j k jb kb) as [d|] eqn:Ech; [left|right; by destruct Hch].
  assert (∃ db, heap st !! d = Some db ∧ d ∈ c ∧ j_matters_to_anchor db = false) as (db & Hdb & Hd & Hm).
  { destruct Hch as [[-> ?]|[-> ?]]; eauto. }
  destruct (transaction_delete_job_spec d true st) as (D & -> & HD).
  { apply Hok. } { apply in_tr_idle; [apply Hok|by exists u, c]. }
  exists d, db, D. split_and!; done.
Qed.

Lemma iter_NoDup st : NoDup (iter (jobs st)).*1.
Proof. rewrite iter_perm. apply NoDup_fst_map_to_list. Qed.

Lemma merge_jobs_spec st :
  st_ok st → no_nop_chains st →
  ∃ r st', transaction_merge_jobs st = Some (r, st') ∧ st_ok st' ∧
    ((r = 0 ∧ ∃ f, all_merged (iter (jobs st)) f st st') ∨
     (r = -EAGAIN ∧ ∃ d db D, st' = cut D D st ∧ in_tr st d ∧ heap st !! d = Some db ∧
        j_matters_to_anchor db = false ∧ (∀ i, i ∈ D ↔ rtc (needs (links st)) i d) ∧
        ∃ u s sb o ob, clash st u s sb o ob ∧ yields st s sb o ob d) ∨
     (r = -EDEADLK ∧ st' = st ∧ ∃ u s sb o ob, clash st u s sb o ob ∧
        j_matters_to_anchor sb = true ∧ j_matters_to_anchor ob = true)).
Proof.
  intros Hok Hnop. unfold transaction_merge_jobs.
  set (bad := λ uc, r ← merge_chain_type st (snd uc); Some (match r with Ok _ => false | Err _ => true end)).
  destruct (find_first_defined bad (iter (jobs st))) as [r Hr].
  { intros [u c] Hu%elem_of_iter. unfold bad. cbn [snd].
    destruct (merge_chain_type_defined st u c Hok Hnop Hu) as (r & -> & _). cbn. eauto. }
  rewrite Hr. cbn [mbind option_bind]. destruct r as [[u c]|].
  - apply find_first_Some in Hr as [Hu%elem_of_iter Hb]. unfold bad in Hb. cbn [snd] in Hb.
    destruct (merge_chain_type st c) as [[t|e]|] eqn:Em; try done.
    destruct (delete_one_unmergeable_spec st u c e Hok Hnop Hu Em)
      as (j & k & jb & kb & Hcf & [(d & db & D & Hch & Hdb & Hd & Hm & HD & ->)|(Hj & Hk & ->)]);
      (assert (Hcl : clash st u j jb k kb ∨ clash st u k kb j jb) by
        (pose proof Hcf as (Hjc & Hkc & Hjb & Hkb & Hmm); pose proof (two_in_chain st c j k jb kb Hjc Hkc Hjb Hkb Hmm) as Hlen;
         apply (conflict_clash st u c); [done|done|by apply (Hnop u c j)|by apply (Hnop u c k)]));
      cbn [mbind option_bind]; eexists _, _; (split; [done|]).
    + assert (Hin : in_tr st d) by (by exists u, c). split.
      * apply st_ok_cut; [done|]. intros i Hi%HD. by apply (goes_in_tr true st d i (proj1 Hok)).
      * right. left. split; [done|]. exists d, db, D. split_and!; [done..|].
        destruct Hcl as [Hcl|Hcl]; [exists u, j, jb, k, kb|exists u, k, kb, j, jb]; (split; [done|]); destruct (choose_drop_clash _ _ _ _ _ _ Hcl) as [H1 H2]; auto.
    + split; [done|]. right. right. split_and!; [done..|]. destruct Hcl as [Hcl|Hcl]; [exists u, j, jb, k, kb|exists u, k, kb, j, jb]; done.
  - rewrite find_first_None in Hr.
    destruct (merge_units_spec (iter (jobs st)) st Hok Hnop (iter_NoDup st)) as (f & st' & -> & Hok' & Hall).
    + intros [u c] Huc. pose proof Huc as Hu%elem_of_iter. split; [done|]. cbn [snd].
      specialize (Hr _ Huc). unfold bad in Hr. cbn [snd] in Hr.
      destruct (merge_chain_type st c) as [[t|e]|]; try done. eauto.
    + cbn [mbind option_bind]. exists 0, st'. split_and!; [done..|]. left. eauto.
Qed.

(** After a successful merge every unit has one job. *)
Lemma all_merged_single f st st' u c :
  st_ok st → all_merged (iter (jobs st)) f st st' → jobs st' !! u = Some c →
  ∃ c0 s, jobs st !! u = Some c0 ∧ c = [s] ∧ merged_at u c0 s st st'.
Proof.
  intros Hok (Hat & Hjo & _) Hu. destruct (jobs st !! u) as [c0|] eqn:E0.
  - destruct (proj1 (proj1 (proj1 Hok)) u c0 E0) as [Hne _]. destruct c0 as [|j c0]; [done|].
    assert (Hm : merged_at u (j :: c0) (f j) st st') by (apply Hat; [by apply elem_of_iter|apply list_elem_of_here]).
    exists (j :: c0), (f j). split_and!; [done| |done]. destruct Hm as (_ & _ & ? & _). congruence.
  - exfalso. rewrite Hjo in Hu; [congruence|]. intros ([u' c'] & -> & Hu'%elem_of_iter)%list_elem_of_fmap.
    cbn in *. congruence.
Qed.

(** ** Properties *)

(** C8: [transaction_merge_jobs] always returns, without failing an assertion. On
    success every unit has exactly one job left: one of its jobs, the anchor if it is
    among them, with the merged type of all of them, mattering if any of them did,
    irreversible if any of them was; all links lead to the survivors and no job is
    lost or invented. *)
Theorem merge_jobs_success (st : State) :
  st_ok st → no_nop_chains st →
  ∃ r st', transaction_merge_jobs st = Some (r, st') ∧ st_ok st' ∧
    (r = 0 ∨ r = -EAGAIN ∨ r = -EDEADLK) ∧
    (r = 0 → ∃ f, links st' = relabel f <$> links st ∧ mgr st' = mgr st ∧
       (∀ u, is_Some (jobs st' !! u) ↔ is_Some (jobs st !! u)) ∧
       (∀ u c k, jobs st !! u = Some c → k ∈ c → merged_at u c (f k) st st') ∧
       (∀ a, anchor_job st = Some a → in_tr st a → in_tr st' a)).
Proof.
  intros Hok Hnop. destruct (merge_jobs_spec st Hok Hnop) as (r & st' & Hm & Hok' & Hout).
  exists r, st'. split_and!; [done..| |].
  { destruct Hout as [[-> _]|[[-> _]|[-> _]]]; auto. }
  intros ->. destruct Hout as [[_ (f & Hall)]|[[? _]|[? _]]]; [|done..].
  exists f. pose proof Hall as (Hat & Hjo & _ & Hli & Hmg & _).
  assert (Hat' : ∀ u c k, jobs st !! u = Some c → k ∈ c → merged_at u c (f k) st st').
  { intros u c k Hu Hk. apply Hat; [by apply elem_of_iter|done]. }
  split_and!; [done..| |done|].
  - intros u. split.
    + intros [c Hu]. destruct (all_merged_single f st st' u c Hok Hall Hu) as (c0 & _ & -> & _). eauto.
    + intros [c Hu]. destruct (proj1 (proj1 (proj1 Hok)) u c Hu) as [Hne _]. destruct c as [|k c]; [done|].
      destruct (Hat' u _ k Hu (list_elem_of_here _ _)) as (_ & _ & -> & _). eauto.
  - intros a Ha (u & c & Hu & Hc). destruct (Hat' u c a Hu Hc) as (_ & Hs & Hj & _).
    rewrite (Hs a Ha Hc) in Hj. exists u, [a]. split; [done|apply list_elem_of_here].
Qed.


(** On a merged transaction the check of every unit is defined. *)
Lemma merged_unit_job st u j :
  st_ok st → jobs st !! u = Some [j] → ∃ jb, heap st !! j = Some jb ∧ j_unit jb = u ∧ transaction_type (j_type jb).
Proof.
  intros Hok Hu. destruct (proj1 (proj1 (proj1 Hok)) u [j] Hu) as [_ Hall].
  destruct (Hall j (list_elem_of_here _ _)) as (jb & Hjb & ? & _). exists jb.
  split_and!; [done..|]. by apply (proj1 (proj2 Hok) j).
Qed.

Lemma destroys_defined mode st uc :
  st_ok st → (∀ u c, jobs st !! u = Some c → ∃ j, c = [j]) → uc ∈ iter (jobs st) → is_Some (destroys mode st uc).
Proof.
  intros Hok Hone. destruct uc as [u c]. intros Hu%elem_of_iter. destruct (Hone u c Hu) as [j ->].
  destruct (merged_unit_job st u j Hok Hu) as (jb & Hjb & Hju & Htt).
  unfold destroys. cbn [snd]. rewrite Hjb. cbn [mbind option_bind]. rewrite Hju.
  destruct (installed_job st u) as [i|] eqn:Ei; [|eauto].
  destruct (proj2 (proj2 Hok) u i Ei) as (ib & -> & _ & _ & Hmt). cbn [mbind option_bind].
  destruct (_ || _); [|eauto]. by apply job_type_is_conflicting_defined_sym.
Qed.

Lemma is_destructive_defined mode st :
  st_ok st → (∀ u c, jobs st !! u = Some c → ∃ j, c = [j]) →
  ∃ r, transaction_is_destructive mode st = Some r ∧ (r = 0 ∨ r = -EDEADLK).
Proof.
  intros Hok Hone. unfold transaction_is_destructive.
  destruct (find_first_defined (destroys mode st) (iter (jobs st))) as [r ->]; [intros; by apply destroys_defined|].
  cbn [mbind option_bind]. destruct r; eauto.
Qed.

(** On a merged transaction [transaction_is_destructive] returns without failing an
    assertion, 0 exactly if for every unit with an installed job that is irreversible,
    or with any installed job in mode "fail", the installed job and the job in the
    transaction do not conflict. *)
Theorem is_destructive_exact (mode : JobMode) (st : State) :
  st_ok st → (∀ u c, jobs st !! u = Some c → ∃ j, c = [j]) →
  ∃ r, transaction_is_destructive mode st = Some r ∧ (r = 0 ∨ r = -EDEADLK) ∧
    (r = 0 ↔ ∀ u j jb i ib, jobs st !! u = Some [j] → heap st !! j = Some jb →
       installed_job st u = Some i → heap st !! i = Some ib →
       mode = JOB_FAIL ∨ j_irreversible ib = true →
       job_type_is_conflicting (j_type ib) (j_type jb) = Some false).
Proof.
  intros Hok Hone. unfold transaction_is_destructive.
  assert (Hd : ∀ u j, jobs st !! u = Some [j] → ∃ jb, heap st !! j = Some jb ∧ j_unit jb = u ∧
    transaction_type (j_type jb)) by (intros; by apply merged_unit_job).
  assert (Hdef : ∀ uc, uc ∈ iter (jobs st) → is_Some (destroys mode st uc)) by (intros; by apply destroys_defined).
  destruct (find_first_defined (destroys mode st) (iter (jobs st)) Hdef) as [r Hr].
  rewrite Hr. cbn [mbind option_bind]. eexists. split; [done|].
  assert (Hiff : r = None ↔ ∀ uc, uc ∈ iter (jobs st) → destroys mode st uc = Some false).
  { rewrite <- find_first_None, Hr. split; [by intros ->|by intros [= ->]]. }
  split; [destruct r; auto|]. transitivity (r = None); [destruct r; split; done|]. rewrite Hiff. split.
  - intros H u j jb i ib Hu Hjb Hi Hib Hmode. specialize (H (u, [j]) (proj2 (elem_of_iter st u [j]) Hu)).
    unfold destroys in H. cbn [snd] in H. rewrite Hjb in H. cbn [mbind option_bind] in H.
    destruct (Hd u j Hu) as (jb' & ? & Hju & _). assert (jb' = jb) as -> by congruence.
    rewrite Hju, Hi, Hib in H. cbn [mbind option_bind] in H.
    assert (bool_decide (mode = JOB_FAIL) || j_irreversible ib = true) as Hb; [|by rewrite Hb in H].
    apply orb_true_iff. destruct Hmode; [left; by apply bool_decide_eq_true|by right].
  - intros H [u c] Huc. pose proof Huc as Hu%elem_of_iter. destruct (Hdef _ Huc) as [b Hb].
    destruct (Hone u c Hu) as [j ->]. destruct (Hd u j Hu) as (jb & Hjb & Hju & _).
    unfold destroys in *. cbn [snd] in *. rewrite Hjb in *. cbn [mbind option_bind] in *. rewrite Hju in *.
    destruct (installed_job st u) as [i|] eqn:Ei; [|done].
    destruct (heap st !! i) as [ib|] eqn:Eib; [|done]. cbn [mbind option_bind] in *.
    destruct (bool_decide (mode = JOB_FAIL) || j_irreversible ib) eqn:Eb; [|done].
    apply (H u j jb i ib); try done. apply orb_true_iff in Eb as [?%bool_decide_eq_true|?]; auto.
Qed.

End Merge.

(** ** Witnesses *)

(** Unit 2 has two jobs; the anchor, on unit 1, needs the first. *)
Definition two_jobs_tr (t1 t2 : JobType) : @State ex_rq :=
  set_anchor_job (Some 1%positive)
  (set_links [MkDep (Some 1%positive) 2 true false; MkDep (Some 1%positive) 3 false false]
  (set_jobs (list_to_map [(1, [1]); (2, [2; 3])]%positive)
  (set_heap (list_to_map [(1, set_j_matters_to_anchor true (ex_job 1 1 JOB_START));
                          (2, set_j_matters_to_anchor true (ex_job 2 2 t1));
                          (3, ex_job 2 3 t2)]%positive) ex_state))).

Definition merge_env : Env := ex_env (λ _ _, []) (λ _, UNIT_ACTIVE) [].

(** The hypotheses of the theorems, for types that may be merged. *)
Lemma two_jobs_ok t1 t2 : merging_type t1 → merging_type t2 →
  st_ok (two_jobs_tr t1 t2) ∧ no_nop_chains (two_jobs_tr t1 t2) ∧ marks_closed (two_jobs_tr t1 t2).
Proof.
  intros H1 H2. split_and!.
  - apply st_ok_check; [| |by intros u i Hu]; destruct t1, t2; try discriminate H1; try discriminate H2; by_decide.
  - assert (H : map_Forall (λ u c, (length c <= 1)%nat ∨
        Forall (job_at (λ jb, merging_type (j_type jb)) (two_jobs_tr t1 t2)) c) (jobs (two_jobs_tr t1 t2))).
    { intros u c Hu. apply elem_of_list_to_map_2 in Hu.
      apply list_elem_of_In in Hu. destruct Hu as [[= <- <-]|[[= <- <-]|[]]]; [left; cbn; lia|right].
      repeat constructor; done. }
    intros u c k kb Hu Hlen Hk Hkb. destruct (H u c Hu) as [?|Hf]; [lia|].
    rewrite Forall_forall in Hf. specialize (Hf k Hk). unfold job_at in Hf. by rewrite Hkb in Hf.
  - intros k i kb (l & Hl & Hs & Ho & Hm) _ _. apply list_elem_of_In in Hl.
    destruct Hl as [<-|[<-|[]]]; [|discriminate Hm]. cbn in Ho. subst i. eexists. split; reflexivity.
Qed.

Lemma merge_jobs_success_witness :
  let E := merge_env in
  ∃ r st', transaction_merge_jobs (two_jobs_tr JOB_START JOB_RESTART) = Some (r, st') ∧ r = 0 ∧
    in_tr st' 1%positive.
Proof.
  intros E. destruct (two_jobs_ok JOB_START JOB_RESTART) as (H1 & H2 & _); [reflexivity..|].
  destruct (merge_jobs_success _ H1 H2) as (r & st' & H & _ & _ & H0).
  exists r, st'. split; [exact H|].
  assert (Hr : fst <$> transaction_merge_jobs (two_jobs_tr JOB_START JOB_RESTART) = Some 0)
    by (vm_compute; reflexivity).
  rewrite H in Hr. injection Hr as ->. split; [reflexivity|].
  destruct (H0 eq_refl) as (f & _ & _ & _ & _ & Ha). apply Ha; [reflexivity|].
  exists 1%positive, [1%positive]. split; [reflexivity|apply list_elem_of_here].
Defined.


Lemma is_destructive_exact_witness :
  let E := merge_env in
  ∃ r, transaction_is_destructive JOB_FAIL ex_tr = Some r ∧ r = 0.
Proof.
  intros E. destruct (is_destructive_exact JOB_FAIL ex_tr) as (r & H & _ & H0).
  - apply st_ok_check; [by_decide|by_decide|]. by intros u i Hu.
  - assert (Hl : map_Forall (λ _ c, length c = 1%nat) (jobs ex_tr)) by by_decide.
    intros u c Hu. specialize (Hl u c Hu). destruct c as [|j [|]]; [discriminate Hl|by exists j|discriminate Hl].
  - exists r. split; [exact H|]. apply H0. intros u j jb i ib _ _ Hi. discriminate Hi.
Defined.

(** The survivor of a merge, and what is left of a conflict. *)
Example merge_runs :
  let E := merge_env in
  (λ x, (fst x, (λ jb, (j_unit jb, j_type jb)) <$> (map_to_list (heap (snd x))).*2))
    <$> transaction_merge_jobs (two_jobs_tr JOB_START JOB_RESTART)
    = Some (0, [(2%positive, JOB_RESTART); (1%positive, JOB_START)]) ∧
  (λ x, (fst x, (λ jb, (j_unit jb, j_type jb)) <$> (map_to_list (heap (snd x))).*2))
    <$> transaction_merge_jobs (two_jobs_tr JOB_START JOB_STOP)
    = Some (-EAGAIN, [(2%positive, JOB_START); (1%positive, JOB_START)]).
Proof. vm_compute. split; reflexivity. Qed.
