(* ===== verification/TrBuild.v ===== *)
(** * Building a transaction (src/core/transaction.c, src/core/unit.c, src/core/dbus-unit.c)

    [transaction_add_job_and_dependencies] adds a job and, recursively, the jobs its
    dependencies pull in; [transaction_add_isolate_jobs] and
    [transaction_add_triggering_jobs] add stop jobs. Allocation of jobs and links is
    assumed to succeed, and the manager not to be reloading (so that [unit_coldplug] is
    not called). *)

From S2P Require Import Prelude JobType RunQueue JobData TrDelete TrFix.

Definition UNIT_IS_LOAD_COMPLETE (t : UnitLoadState) : bool :=
  negb (bool_decide (t = UNIT_STUB)) && negb (bool_decide (t = UNIT_MERGED)).

Section Build.
Context {RQ : RunQueue} {E : Env}.
Implicit Types (st : State) (j k u v : positive) (t : JobType).

(** ** The code *)

Definition unit_job_is_applicable (u : positive) (t : JobType) : bool :=
  match t with
  | JOB_VERIFY_ACTIVE | JOB_START | JOB_NOP => true
  | JOB_STOP => negb (perpetual u)
  | JOB_RESTART | JOB_TRY_RESTART => unit_can_stop u && unit_can_start u
  | JOB_RELOAD | JOB_TRY_RELOAD => unit_can_reload u
  | JOB_RELOAD_OR_START => unit_can_reload u && unit_can_start u
  end.

Definition bus_unit_validate_load_state (u : positive) (s : UnitLoadState) : Z :=
  match s with
  | UNIT_LOADED => 0
  | UNIT_NOT_FOUND => -ENOENT
  | UNIT_BAD_SETTING => -ENOEXEC
  | UNIT_ERROR => load_error u
  | UNIT_MASKED => -ERFKILL
  | UNIT_STUB | UNIT_MERGED => -ENOENT
  end.

Definition set_load_state_of (u : positive) (s : UnitLoadState) st : State :=
  alter_mgr (λ m, set_load_state (λ v, if decide (v = u) then s else load_state m v) m) st.

(** The check of the load state for jobs other than stop, with one attempt to load the
    unit again. *)
Definition validate_unit (u : positive) st : Z * State :=
  let r := bus_unit_validate_load_state u (load_state (mgr st) u) in
  if (r <? 0) && manager_unit_cache_should_retry_load u then
    let '(r, s) := unit_load u in
    let s := if (r <? 0) || bool_decide (s = UNIT_STUB) then UNIT_NOT_FOUND else s in
    let st := set_load_state_of u s st in
    (bus_unit_validate_load_state u s, st)
  else (r, st).

(** The first job of the chain with this type. *)
Fixpoint find_type st (t : JobType) (c : list positive) : option (option positive) :=
  match c with
  | [] => Some None
  | i :: c => ib ← heap st !! i; if decide (j_type ib = t) then Some (Some i) else find_type st t c
  end.

(** The job and whether it is new. *)
Definition transaction_add_one_job (t : JobType) (u : positive) st : option (positive * bool * State) :=
  let f := default [] (jobs st !! u) in
  r ← find_type st t f;
  match r with
  | Some i => Some (i, false, st)
  | None =>
      let '(j, st) := job_new u t st in
      let st := alter_job (set_j_irreversible (irreversible st)) j st in
      Some (j, true, set_jobs (<[u := j :: f]> (jobs st)) st)
  end.

(** What one round of the loops over dependencies asks for: the unit, the type of the
    job, the flags of the link, and whether any error is ignored (otherwise only
    -EBADR is). *)
Record request := Request {
  rq_unit : positive; rq_type : JobType; rq_matters : bool; rq_conflicts : bool; rq_ignore : bool;
}.

(** [nt = job_type_collapse(ptype, dep); if (nt == JOB_NOP) continue;] *)
Definition collapsed (pt : JobType) (m i : bool) (vs : list positive) : list request :=
  omap (λ v, let nt := job_type_collapse pt (unit_active_state v) in
             if bool_decide (nt = JOB_NOP) then None else Some (Request v nt m false i)) vs.

Definition reload_requests (u : positive) : list request :=
  collapsed JOB_TRY_RELOAD false true (unit_dependencies u UNIT_ATOM_PROPAGATES_RELOAD_TO).

(** The rounds of all loops for a new job, in their order. *)
Definition requests (u : positive) (t : JobType) : list request :=
  let pull a nt m c i := (λ v, Request v nt m c i) <$> unit_dependencies u a in
  ((λ v, Request v t false false true) <$> unit_following_set u) ++
  (if bool_decide (t ∈ [JOB_START; JOB_RESTART]) then
     pull UNIT_ATOM_PULL_IN_START JOB_START true false false ++
     pull UNIT_ATOM_PULL_IN_START_IGNORED JOB_START false false true ++
     pull UNIT_ATOM_PULL_IN_VERIFY JOB_VERIFY_ACTIVE true false false ++
     pull UNIT_ATOM_PULL_IN_STOP JOB_STOP true true false ++
     pull UNIT_ATOM_PULL_IN_STOP_IGNORED JOB_STOP false false true
   else []) ++
  (if bool_decide (t = JOB_RESTART) then
     collapsed JOB_TRY_RESTART true false (unit_dependencies u UNIT_ATOM_PROPAGATE_RESTART)
   else if bool_decide (t = JOB_STOP) then
     collapsed JOB_STOP true false (unit_dependencies u UNIT_ATOM_PROPAGATE_STOP)
   else []) ++
  (if bool_decide (t = JOB_RELOAD) then reload_requests u else []).

(** Go through the rounds; [goto fail] on an error that is not ignored. *)
Fixpoint add_requests (rec : request → State → option (Z * State)) (rs : list request) st
    : option (Z * State) :=
  match rs with
  | [] => Some (0, st)
  | q :: rs =>
      '(r, st) ← rec q st;
      if (r <? 0) && negb (rq_ignore q) && negb (r =? -EBADR) then Some (r, st)
      else add_requests rec rs st
  end.

Fixpoint add_job (fuel : nat) (t : JobType) (u : positive) (by_ : option positive)
    (mat conf ignore_requirements ignore_order : bool) st : option (Z * State) :=
  match fuel with
  | O => None
  | S fuel =>
      assert_ (job_type_num t <? _JOB_TYPE_MAX_IN_TRANSACTION);;
      if negb (UNIT_IS_LOAD_COMPLETE (load_state (mgr st) u)) then Some (-EIO, st)
      else
        let '(r, st) := if bool_decide (t ≠ JOB_STOP) then validate_unit u st else (0, st) in
        if r <? 0 then Some (r, st)
        else if negb (unit_job_is_applicable u t) then Some (-EBADR, st)
        else
          '(ret, is_new, st) ← transaction_add_one_job t u st;
          let st := alter_job (λ jb, set_j_ignore_order (j_ignore_order jb || ignore_order) jb) ret st in
          st ← match by_ with
               | Some b => Some (job_dependency_new (Some b) ret mat conf st)
               | None =>
                   assert_ (bool_decide (anchor_job st = None));;
                   Some (set_anchor_job (Some ret) st)
               end;
          if is_new && negb ignore_requirements && bool_decide (t ≠ JOB_NOP) then
            add_requests
              (λ q st, add_job fuel (rq_type q) (rq_unit q) (Some ret) (rq_matters q) (rq_conflicts q)
                         false ignore_order st)
              (requests u t) st
          else Some (0, st)
  end.

(** Every nested call that does not return at once has created a job for a unit and a
    type that had none; the manager knows finitely many units. *)
Definition build_fuel : nat := S (S (6 * length units)).

Definition transaction_add_job_and_dependencies := add_job build_fuel.

(** [transaction_add_propagate_reload_jobs] *)
Definition transaction_add_propagate_reload_jobs (u : positive) (b : positive) (ignore_order : bool) st
    : option State :=
  '(_, st) ← add_requests
    (λ q st, transaction_add_job_and_dependencies (rq_type q) (rq_unit q) (Some b) (rq_matters q)
               (rq_conflicts q) false ignore_order st)
    (reload_requests u) st;
  Some st.

Definition shall_stop_on_isolate st (u : positive) : bool :=
  if ignore_on_isolate u then false
  else if bool_decide (is_Some (jobs st !! u)) then false
  else true.

(** No need to stop a unit that is inactive and has no job. *)
Definition nothing_to_stop st (u : positive) : bool :=
  UNIT_IS_INACTIVE_OR_FAILED (unit_active_state u) && bool_decide (installed_job st u = None).

(** Whether the loop of [transaction_add_isolate_jobs] adds a stop job. *)
Definition isolate_stops st (u : positive) : bool :=
  negb (nothing_to_stop st u) && shall_stop_on_isolate st u &&
  forallb (shall_stop_on_isolate st) (unit_dependencies u UNIT_ATOM_TRIGGERED_BY).

Definition triggering_stops st (u : positive) : bool :=
  negb (nothing_to_stop st u) && negb (bool_decide (is_Some (jobs st !! u))).

(** Add stop jobs for the units of a list that pass a test at their turn. *)
Fixpoint add_stops (test : State → positive → bool) (us : list positive) st : option State :=
  match us with
  | [] => Some st
  | u :: us =>
      if test st u then
        a ← anchor_job st;
        '(_, st) ← transaction_add_job_and_dependencies JOB_STOP u (Some a) true false false false st;
        add_stops test us st
      else add_stops test us st
  end.

Definition transaction_add_isolate_jobs st : option State := add_stops isolate_stops units st.

Definition transaction_add_triggering_jobs (u : positive) st : option State :=
  add_stops triggering_stops (unit_dependencies u UNIT_ATOM_TRIGGERED_BY) st.

(** ** What a job asks for *)

(** A job of type [t] for [u] asks for one of type [t'] for [v], with a link that [matters] and
    [conflicts] as given; an error may be ignored or not. The rules are those of the manual:
    Requires= and BindsTo=, Wants=, Requisite=, Conflicts= and what propagates. *)
Inductive pulls_in u : JobType → positive → JobType → bool → bool → bool → Prop :=
  | pi_following t v : v ∈ unit_following_set u → pulls_in u t v t false false true
  | pi_start t v : t = JOB_START ∨ t = JOB_RESTART → v ∈ unit_dependencies u UNIT_ATOM_PULL_IN_START →
      pulls_in u t v JOB_START true false false
  | pi_start_ignored t v : t = JOB_START ∨ t = JOB_RESTART → v ∈ unit_dependencies u UNIT_ATOM_PULL_IN_START_IGNORED →
      pulls_in u t v JOB_START false false true
  | pi_verify t v : t = JOB_START ∨ t = JOB_RESTART → v ∈ unit_dependencies u UNIT_ATOM_PULL_IN_VERIFY →
      pulls_in u t v JOB_VERIFY_ACTIVE true false false
  | pi_stop t v : t = JOB_START ∨ t = JOB_RESTART → v ∈ unit_dependencies u UNIT_ATOM_PULL_IN_STOP →
      pulls_in u t v JOB_STOP true true false
  | pi_stop_ignored t v : t = JOB_START ∨ t = JOB_RESTART → v ∈ unit_dependencies u UNIT_ATOM_PULL_IN_STOP_IGNORED →
      pulls_in u t v JOB_STOP false false true
  | pi_propagate_restart v : v ∈ unit_dependencies u UNIT_ATOM_PROPAGATE_RESTART →
      unit_active_state v ∈ [UNIT_ACTIVE; UNIT_RELOADING; UNIT_ACTIVATING] →
      pulls_in u JOB_RESTART v JOB_RESTART true false false
  | pi_propagate_stop v : v ∈ unit_dependencies u UNIT_ATOM_PROPAGATE_STOP →
      pulls_in u JOB_STOP v JOB_STOP true false false
  | pi_propagate_reload v : v ∈ unit_dependencies u UNIT_ATOM_PROPAGATES_RELOAD_TO →
      unit_active_state v ∈ [UNIT_ACTIVE; UNIT_RELOADING] →
      pulls_in u JOB_RELOAD v JOB_RELOAD false false true.

(** [v] is loaded, as far as that is needed, and knows jobs of this type. *)
Definition takes (ls : positive → UnitLoadState) v t : Prop :=
  (ls v = UNIT_LOADED ∨ t = JOB_STOP) ∧ unit_job_is_applicable v t = true.

(** Nothing is left to be loaded for a job of type [t] for [u], and what it cannot do without is
    there. What is only wanted may be missing or masked, and any unit may not know a job type. *)
Record settled (ls : positive → UnitLoadState) u t : Prop := {
  se_complete : ls u ≠ UNIT_STUB ∧ ls u ≠ UNIT_MERGED;
  se_error : ls u = UNIT_ERROR → load_error u < 0;
  se_retry : ls u ≠ UNIT_LOADED → manager_unit_cache_should_retry_load u = false;
  se_needs v t' m c : takes ls u t → pulls_in u t v t' m c false → ls v = UNIT_LOADED ∨ t' = JOB_STOP;
}.

Definition asks (ls : positive → UnitLoadState) (p q : positive * JobType) : Prop :=
  takes ls (fst p) (snd p) ∧ ∃ m c i, pulls_in (fst p) (snd p) (fst q) (snd q) m c i.

(** All that a request comes to ask for is settled. *)
Definition ready (ls : positive → UnitLoadState) u t : Prop :=
  ∀ q, rtc (asks ls) (u, t) q → settled ls (fst q) (snd q).

Lemma collapsed_iff pt m i vs q :
  q ∈ collapsed pt m i vs ↔ ∃ v, v ∈ vs ∧ job_type_collapse pt (unit_active_state v) ≠ JOB_NOP ∧
    q = Request v (job_type_collapse pt (unit_active_state v)) m false i.
Proof.
  unfold collapsed. rewrite list_elem_of_omap. split.
  - intros (v & Hv & Hq). case_bool_decide; [done|]. injection Hq as <-. eauto.
  - intros (v & Hv & Hn & ->). exists v. split; [done|]. by rewrite bool_decide_eq_false_2.
Qed.

(** The loops ask for what the rules say. *)
Lemma requests_iff u t q :
  q ∈ requests u t ↔ pulls_in u t (rq_unit q) (rq_type q) (rq_matters q) (rq_conflicts q) (rq_ignore q).
Proof.
  destruct q as [v t' m c i]. cbn [rq_unit rq_type rq_matters rq_conflicts rq_ignore].
  unfold requests, reload_requests. rewrite !elem_of_app. split.
  - intros [(? & [= -> -> -> -> ->] & ?)%list_elem_of_fmap|[Hq|[Hq|Hq]]]; [by constructor|..].
    + case_bool_decide as Ht; [|by apply elem_of_nil in Hq].
      assert (t = JOB_START ∨ t = JOB_RESTART) by (rewrite !elem_of_cons, elem_of_nil in Ht; naive_solver).
      rewrite !elem_of_app in Hq.
      destruct Hq as [Hq|[Hq|[Hq|[Hq|Hq]]]]; apply list_elem_of_fmap in Hq as (? & [= -> -> -> -> ->] & ?); by constructor.
    + case_bool_decide; [|case_bool_decide]; [subst|subst|by apply elem_of_nil in Hq];
        apply collapsed_iff in Hq as (w & ? & Hn & [= -> -> -> -> ->]); [|by constructor].
      unfold job_type_collapse in *. destruct (unit_active_state w) eqn:Ew; try done; constructor; rewrite ?Ew; done || by_decide.
    + case_bool_decide; [subst|by apply elem_of_nil in Hq]. apply collapsed_iff in Hq as (w & ? & Hn & [= -> -> -> -> ->]).
      unfold job_type_collapse in *. destruct (unit_active_state w) eqn:Ew; try done; constructor; rewrite ?Ew; done || by_decide.
  - assert (Hst : ∀ t, t = JOB_START ∨ t = JOB_RESTART → t ∈ [JOB_START; JOB_RESTART]) by (intros ? [->| ->]; by_decide).
    destruct 1 as [|? ? Ht|? ? Ht|? ? Ht|? ? Ht|? ? Ht|? ? Hs| |? ? Hs].
    1: left; apply list_elem_of_fmap; eauto.
    1-5: right; left; rewrite bool_decide_eq_true_2 by auto; rewrite !elem_of_app, !list_elem_of_fmap; eauto 10.
    1-2: right; right; left; cbn; apply collapsed_iff; eexists; split; [done|].
    + unfold job_type_collapse, UNIT_IS_ACTIVE_OR_ACTIVATING. rewrite bool_decide_eq_true_2; [done|].
      revert Hs. rewrite !elem_of_cons. naive_solver.
    + done.
    + right; right; right; cbn; apply collapsed_iff; eexists; split; [done|].
      unfold job_type_collapse, UNIT_IS_ACTIVE_OR_RELOADING. by rewrite bool_decide_eq_true_2.
Qed.

(** A list of requests that is closed under asking. *)
Definition ready_check (ls : positive → UnitLoadState) (ps : list (positive * JobType)) : bool :=
  forallb (λ p, let u := fst p in let rs := requests u (snd p) in
    bool_decide (ls u ≠ UNIT_STUB ∧ ls u ≠ UNIT_MERGED ∧ (ls u = UNIT_ERROR → load_error u < 0) ∧
      (ls u ≠ UNIT_LOADED → manager_unit_cache_should_retry_load u = false)) &&
    (negb (bool_decide (takes ls u (snd p))) ||
     forallb (λ q, bool_decide ((rq_unit q, rq_type q) ∈ ps ∧
       (rq_ignore q = false → ls (rq_unit q) = UNIT_LOADED ∨ rq_type q = JOB_STOP))) rs)) ps.

Lemma ready_check_ok ls ps u t : ready_check ls ps = true → (u, t) ∈ ps → ready ls u t.
Proof.
  unfold ready_check. rewrite forallb_forall. intros H Hin.
  assert (Hq : ∀ p q, p ∈ ps → takes ls (fst p) (snd p) → q ∈ requests (fst p) (snd p) →
    (rq_unit q, rq_type q) ∈ ps ∧ (rq_ignore q = false → ls (rq_unit q) = UNIT_LOADED ∨ rq_type q = JOB_STOP)).
  { intros p q Hp%list_elem_of_In Ht Hq%list_elem_of_In. apply H, andb_true_iff in Hp as [_ Hp].
    rewrite bool_decide_eq_true_2 in Hp by done. cbn [negb orb] in Hp. rewrite forallb_forall in Hp.
    exact (bool_decide_eq_true_1 _ (Hp q Hq)). }
  intros p Hp. assert (Hps : p ∈ ps).
  { revert p Hp. apply rtc_ind_r; [done|]. intros p q _ [Ht (m & c & i & Hpi)] Hp.
    destruct (Hq p (Request (fst q) (snd q) m c i) Hp Ht) as [? _]; [by apply requests_iff|]. by destruct q. }
  pose proof (proj1 (list_elem_of_In _ _) Hps) as Hc. apply H, andb_true_iff in Hc as [(? & ? & ? & ?)%bool_decide_eq_true_1 _].
  split; [done..|]. intros v t' m c Ht Hpi. apply (Hq p (Request v t' m c false) Hps Ht); [by apply requests_iff|done].
Qed.

(** ** The invariant of a transaction under construction *)

Record build_ok st : Prop := {
  bo_st : st_ok st;
  bo_types u c j k jb kb : jobs st !! u = Some c → j ∈ c → k ∈ c →
    heap st !! j = Some jb → heap st !! k = Some kb → j_type jb = j_type kb → j = k;
  bo_supported k : in_tr st k → anchor_job st = Some k ∨ ∃ l, l ∈ links st ∧ object l = k;
  bo_anchor a : anchor_job st = Some a → in_tr st a;
  bo_empty : anchor_job st = None → jobs st = ∅;
  bo_nop k kb : in_tr st k → heap st !! k = Some kb → j_type kb = JOB_NOP → anchor_job st = Some k;
  bo_fresh k kb : in_tr st k → heap st !! k = Some kb →
    j_generation kb = 0 ∧ j_matters_to_anchor kb = false ∧ j_state kb = JOB_WAITING;
  bo_units u : is_Some (jobs st !! u) → u ∈ units;
}.

(** Nothing is taken back while a transaction is built. *)
Record grows st st' : Prop := {
  gr_heap k kb : heap st !! k = Some kb →
    ∃ kb', heap st' !! k = Some kb' ∧ j_unit kb' = j_unit kb ∧ j_type kb' = j_type kb;
  gr_in_tr k : in_tr st k → in_tr st' k;
  gr_links l : l ∈ links st → l ∈ links st';
  gr_anchor a : anchor_job st = Some a → anchor_job st' = Some a;
  gr_mgr : ∃ id ls, mgr st' = set_current_job_id id (set_load_state ls (mgr st));
  gr_outside k : ¬ in_tr st' k → heap st' !! k = heap st !! k;
  gr_irreversible : irreversible st' = irreversible st;
  gr_new k : in_tr st' k → in_tr st k ∨ heap st !! k = None;
}.

Lemma mgr_same (m : Manager) : ∃ id ls, m = set_current_job_id id (set_load_state ls m).
Proof. exists (current_job_id m), (load_state m). by destruct m. Qed.

Lemma grows_refl st : grows st st.
Proof. split; [eauto|done|done|done|apply mgr_same|done|done|by left]. Qed.

Lemma grows_link s o m c st : grows st (job_dependency_new s o m c st).
Proof. split; [eauto|done| |done|apply mgr_same|done|done|by left]. intros l ?. by apply list_elem_of_further. Qed.

Lemma grows_set_anchor a st : anchor_job st = None → grows st (set_anchor_job a st).
Proof. intros Ha. split; [eauto|done|done| |apply mgr_same|done|done|by left]. intros b. by rewrite Ha. Qed.

Lemma grows_trans st1 st2 st3 : grows st1 st2 → grows st2 st3 → grows st1 st3.
Proof.
  intros [H1 H2 H3 H4 (id1 & ls1 & H5) H6 H7 H8] [K1 K2 K3 K4 (id2 & ls2 & K5) K6 K7 K8]. split; auto.
  - intros k kb Hk. destruct (H1 k kb Hk) as (kb' & Hk' & ? & ?).
    destruct (K1 k kb' Hk') as (kb2 & ? & ? & ?). exists kb2. split_and!; congruence.
  - exists id2, ls2. rewrite K5, H5. done.
  - intros k Hk. rewrite K6 by done. apply H6. auto.
  - congruence.
  - intros k Hk. destruct (K8 k Hk) as [?|Hn]; [auto|right]. destruct (heap st1 !! k) as [kb|] eqn:Ek; [|done].
    destruct (H1 k kb Ek) as (? & ? & _). congruence.
Qed.

(** Checking the load state writes nothing else. *)
Lemma set_load_ok ls st :
  build_ok st → build_ok (alter_mgr (set_load_state ls) st) ∧ grows st (alter_mgr (set_load_state ls) st).
Proof.
  intros H. split.
  - destruct H as [Hst ? ? ? ? ? ? ?]. split; try done.
  - split; [eauto|done|done|done| |done|done|by left].
    exists (current_job_id (mgr st)), ls. by destruct st as [? ? ? ? ? []].
Qed.

Lemma validate_unit_spec u st :
  build_ok st →
  build_ok (snd (validate_unit u st)) ∧ grows st (snd (validate_unit u st)) ∧
  heap (snd (validate_unit u st)) = heap st ∧ jobs (snd (validate_unit u st)) = jobs st ∧
  anchor_job (snd (validate_unit u st)) = anchor_job st ∧ links (snd (validate_unit u st)) = links st ∧
  (load_state (mgr st) u = UNIT_LOADED ∨ manager_unit_cache_should_retry_load u = false →
     validate_unit u st = (bus_unit_validate_load_state u (load_state (mgr st) u), st)).
Proof.
  intros Hok. unfold validate_unit.
  destruct ((bus_unit_validate_load_state u (load_state (mgr st) u) <? 0) &&
            manager_unit_cache_should_retry_load u) eqn:Eb.
  - destruct (unit_load u) as [r s]. cbn [snd].
    set (s' := if (r <? 0) || bool_decide (s = UNIT_STUB) then UNIT_NOT_FOUND else s).
    destruct (set_load_ok (λ v, if decide (v = u) then s' else load_state (mgr st) v) st Hok) as [? ?].
    split_and!; try done. apply andb_true_iff in Eb as [Eb1 Eb2]. intros [Hl|Hl]; [by rewrite Hl in Eb1|congruence].
  - cbn [snd]. split_and!; try done. apply grows_refl.
Qed.

(** ** Finding a job of a type *)

Definition chain st u : list positive := default [] (jobs st !! u).

Lemma chain_in_tr st u k : k ∈ chain st u → in_tr st k.
Proof.
  unfold chain. destruct (jobs st !! u) as [c|] eqn:Eu; cbn; [|by intros ?%elem_of_nil]. by exists u, c.
Qed.

Lemma chain_job st u k : st_ok st → k ∈ chain st u →
  ∃ kb, heap st !! k = Some kb ∧ j_unit kb = u ∧ transaction_type (j_type kb).
Proof.
  unfold chain. intros Hok. destruct (jobs st !! u) as [c|] eqn:Eu; cbn; [|by intros ?%elem_of_nil].
  intros Hk. destruct (proj1 (proj1 (proj1 Hok)) u c Eu) as [_ H]. destruct (H k Hk) as (kb & ? & ? & _).
  exists kb. split_and!; [done..|]. by apply (proj1 (proj2 Hok) k).
Qed.

(** A job of the unit with the type. *)
Definition has_job st u t k : Prop := k ∈ chain st u ∧ ∃ kb, heap st !! k = Some kb ∧ j_type kb = t.

Lemma find_type_spec st u t : st_ok st →
  ∃ r, find_type st t (chain st u) = Some r ∧
    match r with Some i => has_job st u t i | None => ∀ k, ¬ has_job st u t k end.
Proof.
  intros Hok. unfold has_job. assert (H : ∀ k, k ∈ chain st u → ∃ kb, heap st !! k = Some kb).
  { intros k Hk. destruct (chain_job st u k Hok Hk) as (kb & ? & _). eauto. }
  revert H. generalize (chain st u). induction l as [|i c IH]; intros Hc; cbn [find_type].
  - exists None. split; [done|]. by intros k [?%elem_of_nil _].
  - destruct (Hc i (list_elem_of_here _ _)) as [ib Hib]. rewrite Hib. cbn [mbind option_bind].
    case_decide as Ht.
    + exists (Some i). split; [done|]. split; [apply list_elem_of_here|eauto].
    + destruct IH as (r & -> & Hr); [intros; apply Hc; by apply list_elem_of_further|].
      exists r. split; [done|]. destruct r as [k|].
      * destruct Hr as [? ?]. split; [by apply list_elem_of_further|done].
      * intros k [[->|Hk]%elem_of_cons (kb & Hkb & ?)]; [congruence|]. apply (Hr k). eauto.
Qed.

(** ** How much is missing *)

Definition transaction_types : list JobType :=
  [JOB_START; JOB_VERIFY_ACTIVE; JOB_STOP; JOB_RELOAD; JOB_RESTART; JOB_NOP].

Definition missing st (p : positive * JobType) : Prop :=
  find_type st (snd p) (chain st (fst p)) = Some None.

#[global] Instance missing_dec st p : Decision (missing st p).
Proof. unfold missing. apply _. Defined.

Definition all_missing st : nat := length (filter (missing st) (list_prod units transaction_types)).

Lemma missing_iff st u t : st_ok st → missing st (u, t) ↔ ∀ k, ¬ has_job st u t k.
Proof.
  intros Hok. unfold missing. cbn [fst snd]. destruct (find_type_spec st u t Hok) as (r & -> & Hr).
  destruct r as [i|]; [|done]. split; [done|]. intros H. by destruct (H i).
Qed.

Lemma grows_has_job st st' u t k :
  st_ok st' → grows st st' → has_job st u t k → st_ok st → has_job st' u t k.
Proof.
  intros Hok' Hg [Hk (kb & Hkb & Ht)] Hok. destruct (gr_heap _ _ Hg k kb Hkb) as (kb' & Hkb' & Hu & Ht').
  split; [|exists kb'; split; [done|congruence]].
  destruct (gr_in_tr _ _ Hg k (chain_in_tr _ _ _ Hk)) as (u' & c & Hu' & Hkc).
  destruct (proj1 (proj1 (proj1 Hok')) u' c Hu') as [_ H]. destruct (H k Hkc) as (kb2 & ? & ? & _).
  destruct (chain_job st u k Hok Hk) as (kb3 & ? & ? & _).
  unfold chain. assert (u' = u) as -> by congruence. by rewrite Hu'.
Qed.

Lemma grows_missing st st' : st_ok st → st_ok st' → grows st st' → (all_missing st' <= all_missing st)%nat.
Proof.
  intros Hok Hok' Hg. apply length_filter_le. intros [u t] _. rewrite !missing_iff by done.
  intros H k Hk. apply (H k). by eapply grows_has_job.
Qed.

Lemma all_missing_bound st : (all_missing st <= 6 * length units)%nat.
Proof.
  unfold all_missing. etransitivity; [apply length_filter|]. rewrite length_prod. cbn. lia.
Qed.

(** ** Adding one job *)

(** The state with a new job at the head of its unit's chain. *)
Definition with_job (p u : positive) (nb : Job) (id : Z) st : State :=
  set_jobs (<[u := p :: chain st u]> (jobs st))
    (set_heap (<[p := nb]> (heap st)) (alter_mgr (set_current_job_id id) st)).

Lemma in_tr_with_job p u nb id st k : in_tr (with_job p u nb id st) k ↔ k = p ∨ in_tr st k.
Proof.
  unfold in_tr, with_job. st_simpl. split.
  - intros (v & c & Hv & Hk). destruct (decide (v = u)) as [->|Hne].
    + rewrite lookup_insert_eq in Hv. injection Hv as <-. apply elem_of_cons in Hk as [->|Hk]; [by left|right].
      by apply chain_in_tr in Hk.
    + rewrite lookup_insert_ne in Hv by done. right. eauto.
  - intros [->|(v & c & Hv & Hk)].
    + exists u, (p :: chain st u). split; [apply lookup_insert_eq|apply list_elem_of_here].
    + destruct (decide (v = u)) as [->|Hne].
      * exists u, (p :: chain st u). split; [apply lookup_insert_eq|]. apply list_elem_of_further.
        unfold chain. by rewrite Hv.
      * exists v, c. by rewrite lookup_insert_ne.
Qed.

Lemma with_job_ok p u nb id st :
  st_ok st → heap st !! p = None → j_unit nb = u → idle nb → transaction_type (j_type nb) →
  st_ok (with_job p u nb id st).
Proof.
  intros Hok Hp Hu Hid Ht. pose proof Hok as (((Hc & Hl) & Hnd & Hlt) & Htt & Hi).
  assert (Hheap : ∀ k kb, heap st !! k = Some kb → heap (with_job p u nb id st) !! k = Some kb).
  { intros k kb Hk. cbn. rewrite lookup_insert_ne; [done|congruence]. }
  assert (Hch : ∀ k, k ∈ chain st u → ∃ kb, heap st !! k = Some kb ∧ j_unit kb = u ∧ idle kb).
  { intros k. unfold chain. destruct (jobs st !! u) as [c|] eqn:Eu; cbn; [|by intros ?%elem_of_nil].
    apply (Hc u c Eu). }
  assert (Hidle : ∀ k, idle_job st k → idle_job (with_job p u nb id st) k).
  { intros k (kb & ? & ?). exists kb. eauto. }
  split_and!; [split_and!; [split|..]|..].
  - intros v c. cbn. destruct (decide (v = u)) as [->|Hne].
    + rewrite lookup_insert_eq. intros [= <-]. split; [done|]. intros k [->|Hk]%elem_of_cons.
      * exists nb. by rewrite lookup_insert_eq.
      * destruct (Hch k Hk) as (kb & Hkb & ? & ?). exists kb. split_and!; [by apply Hheap|done..].
    + rewrite lookup_insert_ne by done. intros Hv. destruct (Hc v c Hv) as [? Hall]. split; [done|].
      intros k Hk. destruct (Hall k Hk) as (kb & Hkb & ? & ?). exists kb. split_and!; [by apply Hheap|done..].
  - intros l Hin. destruct (Hl l Hin) as [? Hs]. split; [by apply Hidle|]. intros k Hk. by apply Hidle, Hs.
  - intros v c. cbn. destruct (decide (v = u)) as [->|Hne].
    + rewrite lookup_insert_eq. intros [= <-]. apply NoDup_cons. split.
      * intros Hk. destruct (Hch p Hk) as (? & ? & _). congruence.
      * unfold chain. destruct (jobs st !! u) as [c|] eqn:Eu; cbn; [by apply (Hnd u)|constructor].
    + rewrite lookup_insert_ne by done. apply Hnd.
  - intros l Hin. destruct (Hlt l Hin) as [Ho Hs]. rewrite in_tr_with_job. split; [by right|].
    intros k Hk. apply in_tr_with_job. right. by apply Hs.
  - intros k kb. cbn. destruct (decide (k = p)) as [->|Hne].
    + rewrite lookup_insert_eq. by intros [= <-].
    + rewrite lookup_insert_ne by done. apply Htt.
  - intros v i Hv. destruct (Hi v i Hv) as (ib & Hib & ? & ? & ?). exists ib. split_and!; [by apply Hheap|done..].
Qed.

Lemma with_job_grows p u nb id st :
  heap st !! p = None → grows st (with_job p u nb id st).
Proof.
  intros Hp. split.
  - intros k kb Hk. exists kb. split_and!; try done. cbn. rewrite lookup_insert_ne; [done|congruence].
  - intros k Hk. apply in_tr_with_job. by right.
  - done.
  - done.
  - exists id, (load_state (mgr st)). by destruct st as [? ? ? ? ? []].
  - intros k Hk. cbn. rewrite lookup_insert_ne; [done|]. intros <-. apply Hk, in_tr_with_job. by left.
  - done.
  - intros k [->|?]%in_tr_with_job; [by right|by left].
Qed.

(** The last step of adding a job: a link to it, or it becomes the anchor. *)
Definition hook (by_ : option positive) (ret : positive) (mat conf : bool) st : option State :=
  match by_ with
  | Some b => Some (job_dependency_new (Some b) ret mat conf st)
  | None => assert_ (bool_decide (anchor_job st = None));; Some (set_anchor_job (Some ret) st)
  end.

(** What [transaction_add_one_job] and the link achieve. *)
Definition hooked t u (by_ : option positive) (mat conf : bool) ret (is_new : bool) st st' : Prop :=
  build_ok st' ∧ grows st st' ∧ has_job st' u t ret ∧
  (∀ b, by_ = Some b → MkDep (Some b) ret mat conf ∈ links st') ∧
  (by_ = None → anchor_job st' = Some ret ∧ is_new = true) ∧
  (is_new = true → missing st (u, t)) ∧
  (∀ k, in_tr st' k → in_tr st k ∨ is_new = true ∧ k = ret) ∧
  load_state (mgr st') = load_state (mgr st) ∧
  (∀ l, l ∈ links st' → l ∈ links st ∨ ∃ b, by_ = Some b ∧ l = MkDep (Some b) ret mat conf).

Lemma hook_new t u by_ mat conf io st p :
  build_ok st → transaction_type t → u ∈ units → (t = JOB_NOP → by_ = None) →
  (∀ b, by_ = Some b → in_tr st b) → (by_ = None → anchor_job st = None) →
  missing st (u, t) → heap st !! p = None →
  let nb := MkJob u (current_job_id (mgr st)) t JOB_WAITING JOB_DONE false false false false None 0
              false io (irreversible st) in
  ∃ st', hook by_ p mat conf (with_job p u nb (u32 (current_job_id (mgr st) + 1)) st) = Some st' ∧
    hooked t u by_ mat conf p true st st'.
Proof.
  intros Hok Ht Hunit Hnop Hby Hanc Hmiss Hp nb.
  pose proof (bo_st _ Hok) as Hst. rewrite missing_iff in Hmiss by done.
  set (st1 := with_job p u nb (u32 (current_job_id (mgr st) + 1)) st).
  assert (Hok1 : st_ok st1) by (by apply with_job_ok).
  assert (Hg1 : grows st st1) by (by apply with_job_grows).
  assert (Hin : ∀ k, in_tr st1 k ↔ k = p ∨ in_tr st k) by apply in_tr_with_job.
  assert (Hold : ∀ k, in_tr st k → k ≠ p).
  { intros k Hk ->. destruct (in_tr_job st p Hst Hk) as (? & ? & _). congruence. }
  assert (Hh1 : ∀ k, heap st1 !! k = if decide (k = p) then Some nb else heap st !! k).
  { intros k. unfold st1, with_job. st_simpl. case_decide as Hd; [subst; apply lookup_insert_eq|].
    by rewrite lookup_insert_ne. }
  assert (Hhj : has_job st1 u t p).
  { split; [|exists nb; by rewrite Hh1, decide_True]. unfold chain, st1, with_job. st_simpl.
    rewrite lookup_insert_eq. apply list_elem_of_here. }
  assert (Htypes : ∀ v c j k jb kb, jobs st1 !! v = Some c → j ∈ c → k ∈ c →
    heap st1 !! j = Some jb → heap st1 !! k = Some kb → j_type jb = j_type kb → j = k).
  { intros v c j k jb kb Hv Hj Hk Hjb Hkb Heq. rewrite Hh1 in Hjb, Hkb.
    unfold st1, with_job in Hv. st_simpl_in Hv. destruct (decide (v = u)) as [->|Hne].
    - rewrite lookup_insert_eq in Hv. injection Hv as <-.
      assert (Hx : ∀ x xb, x ∈ chain st u → heap st !! x = Some xb → j_type xb ≠ t).
      { intros x xb Hx Hxb E1. apply (Hmiss x). split; [done|eauto]. }
      apply elem_of_cons in Hj as [->|Hj], Hk as [->|Hk]; [done|..].
      + exfalso. rewrite decide_True in Hjb by done. rewrite decide_False in Hkb by (apply Hold; by eapply chain_in_tr).
        injection Hjb as <-. by apply (Hx k kb).
      + exfalso. rewrite decide_True in Hkb by done. rewrite decide_False in Hjb by (apply Hold; by eapply chain_in_tr).
        injection Hkb as <-. by apply (Hx j jb).
      + rewrite decide_False in Hjb by (apply Hold; by eapply chain_in_tr).
        rewrite decide_False in Hkb by (apply Hold; by eapply chain_in_tr).
        unfold chain in Hj, Hk. destruct (jobs st !! u) as [c|] eqn:Eu; [|by apply elem_of_nil in Hj].
        by eapply (bo_types _ Hok u c).
    - rewrite lookup_insert_ne in Hv by done.
      rewrite decide_False in Hjb by (apply Hold; by exists v, c).
      rewrite decide_False in Hkb by (apply Hold; by exists v, c).
      by eapply (bo_types _ Hok v c). }
  assert (Hfresh : ∀ k kb, in_tr st1 k → heap st1 !! k = Some kb →
    j_generation kb = 0 ∧ j_matters_to_anchor kb = false ∧ j_state kb = JOB_WAITING).
  { intros k kb Hk%Hin Hkb. rewrite Hh1 in Hkb. case_decide; [by injection Hkb as <-|].
    destruct Hk as [?|Hk]; [done|]. by apply (bo_fresh _ Hok k). }
  assert (Hunits : ∀ v, is_Some (jobs st1 !! v) → v ∈ units).
  { intros v. unfold st1, with_job. st_simpl. destruct (decide (v = u)) as [->|Hne]; [done|].
    rewrite lookup_insert_ne by done. apply (bo_units _ Hok). }
  unfold hook. destruct by_ as [b|].
  - eexists. split; [done|]. split_and!.
    + split; try done.
      * apply (st_ok_links (MkDep (Some b) p mat conf :: links st1) st1); [|done].
        intros l [->|Hl]%elem_of_cons; cbn; [|by apply (proj2 (proj2 (proj1 Hok1)))].
        split; [apply Hin; by left|]. intros k [= <-]. apply Hin. right. by apply Hby.
      * intros k Hk. apply Hin in Hk as [->|Hk].
        -- right. exists (MkDep (Some b) p mat conf). split; [apply list_elem_of_here|done].
        -- destruct (bo_supported _ Hok k Hk) as [?|(l & ? & ?)]; [by left|right]. exists l.
           split; [by apply list_elem_of_further|done].
      * intros a Ha. apply Hin. right. by apply (bo_anchor _ Hok).
      * intros Ha. pose proof (bo_empty _ Hok Ha) as He. destruct (Hby b eq_refl) as (v & c & Hv & _).
        by rewrite He in Hv.
      * intros k kb Hk%Hin Hkb Hty. cbn in Hkb. rewrite Hh1 in Hkb. case_decide.
        -- injection Hkb as <-. cbn in Hty. by specialize (Hnop Hty).
        -- destruct Hk as [?|Hk]; [done|]. by apply (bo_nop _ Hok k kb).
    + eapply grows_trans; [exact Hg1|]. apply grows_link.
    + done.
    + intros ? [= <-]. apply list_elem_of_here.
    + done.
    + intros _. apply missing_iff; done.
    + intros k [->|?]%Hin; auto.
    + done.
    + intros l [->|Hl]%elem_of_cons; [right; eauto|by left].
  - assert (He : jobs st = ∅) by (apply (bo_empty _ Hok); auto).
    assert (Hnone : ∀ k, ¬ in_tr st k) by (intros k (v & c & Hv & _); by rewrite He in Hv).
    rewrite assert_bind by (apply bool_decide_eq_true; apply Hanc; done).
    eexists. split; [done|]. split_and!.
    + split; try done.
      * intros k [->|Hk]%Hin; [by left|by destruct (Hnone k)].
      * intros a [= <-]. apply Hin. by left.
      * intros k kb [->|Hk]%Hin _ _; [done|by destruct (Hnone k)].
    + eapply grows_trans; [exact Hg1|]. apply grows_set_anchor. by apply Hanc.
    + done.
    + done.
    + done.
    + intros _. apply missing_iff; done.
    + intros k [->|?]%Hin; auto.
    + done.
    + intros l Hl. by left.
Qed.

Definition or_ignore_order (io : bool) (jb : Job) : Job := set_j_ignore_order (j_ignore_order jb || io) jb.

(** The flag is of no concern to the invariant. *)
Lemma ignore_order_ok io j st :
  build_ok st → in_tr st j →
  build_ok (alter_job (or_ignore_order io) j st) ∧ grows st (alter_job (or_ignore_order io) j st).
Proof.
  intros Hok Hjt.
  assert (Hh : ∀ k kb, heap (alter_job (or_ignore_order io) j st) !! k = Some kb →
    ∃ kb0, heap st !! k = Some kb0 ∧ (kb = kb0 ∨ kb = or_ignore_order io kb0)).
  { intros k kb. rewrite heap_alter_job. case_decide; [|eauto]. destruct (heap st !! k); [|done].
    intros [= <-]. eauto. }
  assert (Hsame : ∀ k, option_Forall2 (λ a b, same_shape a b ∧ j_type a = j_type b)
    (heap st !! k) (heap (alter_job (or_ignore_order io) j st) !! k)).
  { intros k. rewrite heap_alter_job. case_decide; destruct (heap st !! k); by constructor. }
  split.
  - split.
    + apply (st_ok_same _ st Hsame), Hok.
    + intros u c i k ib kb Hu Hi Hk Hib Hkb Heq. destruct (Hh i ib Hib) as (ib0 & ? & Hi0).
      destruct (Hh k kb Hkb) as (kb0 & ? & Hk0). eapply (bo_types _ Hok u c i k ib0 kb0); try done.
      destruct Hi0 as [->| ->], Hk0 as [->| ->]; done.
    + apply (bo_supported _ Hok).
    + apply (bo_anchor _ Hok).
    + apply (bo_empty _ Hok).
    + intros k kb Hk Hkb Ht. destruct (Hh k kb Hkb) as (kb0 & ? & Hk0). apply (bo_nop _ Hok k kb0); [done..|].
      destruct Hk0 as [->| ->]; done.
    + intros k kb Hk Hkb. destruct (Hh k kb Hkb) as (kb0 & ? & Hk0).
      pose proof (bo_fresh _ Hok k kb0). destruct Hk0 as [->| ->]; auto.
    + apply (bo_units _ Hok).
  - split; try done; [|apply mgr_same| |by left].
    + intros k kb Hk. rewrite heap_alter_job. case_decide; [|eauto]. rewrite Hk. cbn. eauto.
    + intros k Hk. rewrite heap_alter_job, decide_False; [done|]. by intros ->.
Qed.

Lemma hook_old t u b mat conf io ret st :
  build_ok st → has_job st u t ret → in_tr st b →
  hooked t u (Some b) mat conf ret false st
    (job_dependency_new (Some b) ret mat conf (alter_job (or_ignore_order io) ret st)).
Proof.
  intros Hok Hret Hb. assert (Hri : in_tr st ret) by (eapply chain_in_tr; apply Hret).
  destruct (ignore_order_ok io ret st Hok Hri) as [Hok1 Hg1].
  set (st1 := alter_job (or_ignore_order io) ret st) in *.
  assert (Hst2 : st_ok (job_dependency_new (Some b) ret mat conf st1)).
  { apply st_ok_links; [|apply Hok1]. intros l [->|Hl]%elem_of_cons; cbn.
    - split; [done|]. by intros k [= <-].
    - by apply (proj2 (proj2 (proj1 (bo_st _ Hok1)))). }
  split_and!; try done.
  - split; [done|apply (bo_types _ Hok1)| |apply (bo_anchor _ Hok1)|apply (bo_empty _ Hok1)|
      apply (bo_nop _ Hok1)|apply (bo_fresh _ Hok1)|apply (bo_units _ Hok1)].
    intros k Hk. destruct (bo_supported _ Hok1 k Hk) as [?|(l & ? & ?)]; [by left|right]. exists l.
    split; [by apply list_elem_of_further|done].
  - eapply grows_trans; [exact Hg1|apply grows_link].
  - eapply grows_has_job; [done| |exact Hret|apply Hok]. eapply grows_trans; [exact Hg1|apply grows_link].
  - intros ? [= <-]. apply list_elem_of_here.
  - auto.
  - intros l [->|Hl]%elem_of_cons; [right; eauto|by left].
Qed.

Lemma add_one_spec t u by_ mat conf io st :
  build_ok st → transaction_type t → u ∈ units → (t = JOB_NOP → by_ = None) →
  (∀ b, by_ = Some b → in_tr st b) → (by_ = None → anchor_job st = None) →
  ∃ ret is_new st1 st', transaction_add_one_job t u st = Some (ret, is_new, st1) ∧
    hook by_ ret mat conf (alter_job (or_ignore_order io) ret st1) = Some st' ∧
    hooked t u by_ mat conf ret is_new st st'.
Proof.
  intros Hok Ht Hunit Hnop Hby Hanc. unfold transaction_add_one_job. fold (chain st u).
  destruct (find_type_spec st u t (bo_st _ Hok)) as (r & Hr & Hj). rewrite Hr. cbn [mbind option_bind].
  destruct r as [i|].
  - destruct by_ as [b|].
    + eexists i, false, st, _. split_and!; [done|done|]. apply hook_old; auto.
    + exfalso. assert (He : jobs st = ∅) by (apply (bo_empty _ Hok); auto).
      destruct Hj as [(v & c & Hv & _)%chain_in_tr _]. by rewrite He in Hv.
  - unfold job_new. set (p := fresh (dom (heap st))).
    assert (Hp : heap st !! p = None) by (apply not_elem_of_dom, is_fresh).
    destruct (hook_new t u by_ mat conf io st p) as (st' & Hst' & Hh); [done..|by rewrite missing_iff by apply Hok|done|].
    eexists p, true, _, st'. split_and!; [done| |done]. rewrite <- Hst'. f_equal.
    unfold with_job, alter_job, alter_mgr. st_simpl. f_equal. by rewrite !alter_insert_eq.
Qed.

(** ** The recursion *)

(** The manager knows every unit that is a dependency of one it knows. *)
Definition deps_closed : Prop := ∀ u v, u ∈ units →
  (∃ a, v ∈ unit_dependencies u a) ∨ v ∈ unit_following_set u → v ∈ units.

(** Every job that [k] asks for and that can be added is there, with a link from [k]. *)
Definition complete (ls : positive → UnitLoadState) st k : Prop := ∀ kb v t m c i, heap st !! k = Some kb →
  pulls_in (j_unit kb) (j_type kb) v t m c i → takes ls v t →
  ∃ o, has_job st v t o ∧ MkDep (Some k) o m c ∈ links st.

(** The link is there because the one job asks for the other. *)
Definition justified st (l : JobDependency) : Prop :=
  ∃ k kb ob i, subject l = Some k ∧ heap st !! k = Some kb ∧ heap st !! object l = Some ob ∧
    pulls_in (j_unit kb) (j_type kb) (j_unit ob) (j_type ob) (matters l) (conflicts l) i.

Lemma justified_grows st st' l : grows st st' → justified st l → justified st' l.
Proof.
  intros Hg (k & kb & ob & i & Hs & Hk & Ho & Hp). destruct (gr_heap _ _ Hg k kb Hk) as (kb' & ? & Hu & Ht).
  destruct (gr_heap _ _ Hg _ ob Ho) as (ob' & ? & Hu' & Ht'). exists k, kb', ob', i. by rewrite Hu, Ht, Hu', Ht'.
Qed.

Lemma elem_of_collapsed q pt m i vs : q ∈ collapsed pt m i vs →
  rq_unit q ∈ vs ∧ rq_type q ≠ JOB_NOP ∧ ∃ s, rq_type q = job_type_collapse pt s.
Proof.
  unfold collapsed. rewrite list_elem_of_omap. intros (v & Hv & Hq).
  case_bool_decide as Hn; [done|]. injection Hq as <-. cbn. eauto.
Qed.

Lemma requests_ok u t q :
  transaction_type t → t ≠ JOB_NOP → q ∈ requests u t →
  transaction_type (rq_type q) ∧ rq_type q ≠ JOB_NOP ∧
  ((∃ a, rq_unit q ∈ unit_dependencies u a) ∨ rq_unit q ∈ unit_following_set u).
Proof.
  intros Ht Hn. unfold requests, reload_requests. rewrite !elem_of_app.
  assert (Hcol : ∀ pt m i a, pt ∈ [JOB_TRY_RESTART; JOB_STOP; JOB_TRY_RELOAD] →
    q ∈ collapsed pt m i (unit_dependencies u a) →
    transaction_type (rq_type q) ∧ rq_type q ≠ JOB_NOP ∧
    ((∃ a, rq_unit q ∈ unit_dependencies u a) ∨ rq_unit q ∈ unit_following_set u)).
  { intros pt m i a Hpt (? & ? & s & Hs)%elem_of_collapsed. split_and!; [|done|left; eauto].
    apply list_elem_of_In in Hpt. destruct Hpt as [<-|[<-|[<-|[]]]]; rewrite Hs; by destruct s. }
  assert (Hpull : ∀ a nt m c i, nt ≠ JOB_NOP → transaction_type nt →
    q ∈ (λ v, Request v nt m c i) <$> unit_dependencies u a →
    transaction_type (rq_type q) ∧ rq_type q ≠ JOB_NOP ∧
    ((∃ a, rq_unit q ∈ unit_dependencies u a) ∨ rq_unit q ∈ unit_following_set u)).
  { intros a nt m c i Hnt Htt (v & -> & Hv)%list_elem_of_fmap. cbn. eauto. }
  intros [(v & -> & Hv)%list_elem_of_fmap|[Hq|[Hq|Hq]]].
  - cbn. auto.
  - case_bool_decide; [|by apply elem_of_nil in Hq]. rewrite !elem_of_app in Hq.
    destruct Hq as [Hq|[Hq|[Hq|[Hq|Hq]]]]; (eapply Hpull; [| |exact Hq]; done).
  - repeat case_bool_decide; [..|by apply elem_of_nil in Hq]; (eapply Hcol; [|exact Hq]; by_decide).
  - case_bool_decide; [|by apply elem_of_nil in Hq]. eapply Hcol; [|exact Hq]. by_decide.
Qed.

Lemma transaction_types_all t : transaction_type t → t ∈ transaction_types.
Proof.
  unfold transaction_type, transaction_types, _JOB_TYPE_MAX_IN_TRANSACTION.
  destruct t; cbn; intros; try lia; by_decide.
Qed.

Lemma complete_grows ls st st' k :
  st_ok st → st_ok st' → grows st st' → is_Some (heap st !! k) → complete ls st k → complete ls st' k.
Proof.
  intros Hok Hok' Hg [kb Hk] Hc kb' v t m c i Hk' Hq Hv. destruct (gr_heap _ _ Hg k kb Hk) as (kb2 & ? & Hu & Ht).
  assert (kb2 = kb') as -> by congruence. rewrite Hu, Ht in Hq. destruct (Hc kb v t m c i Hk Hq Hv) as (o & Ho & Hl).
  exists o. split; [by eapply grows_has_job|by apply (gr_links _ _ Hg)].
Qed.

(** Jobs created between two states are complete, except [x]. *)
Definition new_complete ls st st' (x : positive → Prop) : Prop :=
  ∀ k kb, in_tr st' k → ¬ in_tr st k → heap st' !! k = Some kb → j_type kb ≠ JOB_NOP →
    complete ls st' k ∨ x k.

Lemma in_tr_dec st k : st_ok st → in_tr st k ∨ ¬ in_tr st k.
Proof.
  intros Hok. destruct (decide (k ∈ all_jobs st)) as [?%elem_of_all_jobs|Hn]; [by left|right].
  by intros ?%elem_of_all_jobs.
Qed.

Lemma new_complete_refl ls st x : new_complete ls st st x.
Proof. by intros k kb ? ?. Qed.

Lemma new_complete_trans ls st1 st2 st3 x :
  st_ok st2 → st_ok st3 → grows st2 st3 → new_complete ls st1 st2 x → new_complete ls st2 st3 x →
  new_complete ls st1 st3 x.
Proof.
  intros Hok2 Hok3 Hg H12 H23 k kb Hk Hn Hkb Ht.
  destruct (in_tr_dec st2 k Hok2) as [H2|H2]; [|by eapply H23].
  destruct (in_tr_job st2 k Hok2 H2) as (kb2 & Hkb2 & _).
  destruct (gr_heap _ _ Hg k kb2 Hkb2) as (kb' & ? & _ & Ht'). assert (kb' = kb) as -> by congruence.
  destruct (H12 k kb2) as [Hc|?]; [done..|congruence| |by right].
  left. eapply complete_grows; [exact Hok2|done..|by rewrite Hkb2|done].
Qed.

Section Recursion.
Hypothesis closed_deps : deps_closed.

(** What a call achieves, whatever it returns, and what it returns if all it asks for is settled. *)
Definition added t u (by_ : option positive) (mat conf ir : bool) st (r : Z) st' : Prop :=
  build_ok st' ∧ grows st st' ∧ r <= 0 ∧
  (r = 0 → ∃ ret, has_job st' u t ret ∧ (by_ = None → anchor_job st' = Some ret) ∧
     ∀ b, by_ = Some b → MkDep (Some b) ret mat conf ∈ links st') ∧
  (ready (load_state (mgr st)) u t → load_state (mgr st') = load_state (mgr st) ∧
     (takes (load_state (mgr st)) u t → r = 0) ∧
     (load_state (mgr st) u = UNIT_LOADED ∨ t = JOB_STOP → r = 0 ∨ r = -EBADR) ∧
     new_complete (load_state (mgr st)) st st' (λ k, ir = true ∧ has_job st' u t k)) ∧
  (∀ l, l ∈ links st' → l ∈ links st ∨ justified st' l ∨
     ∃ b ret, by_ = Some b ∧ l = MkDep (Some b) ret mat conf ∧ has_job st' u t ret) ∧
  (t = JOB_NOP → by_ = None → r = 0 → ∀ k, in_tr st' k → anchor_job st' = Some k).

Definition adds (n : nat) : Prop := ∀ t u by_ mat conf ir io st,
  build_ok st → transaction_type t → u ∈ units → (t = JOB_NOP → by_ = None) →
  (∀ b, by_ = Some b → in_tr st b) → (by_ = None → anchor_job st = None) →
  (all_missing st < n)%nat →
  ∃ r st', add_job n t u by_ mat conf ir io st = Some (r, st') ∧ added t u by_ mat conf ir st r st'.

(** What one round asks for. *)
Definition asked st ret (q : request) : Prop := ∃ o, has_job st (rq_unit q) (rq_type q) o ∧
  MkDep (Some ret) o (rq_matters q) (rq_conflicts q) ∈ links st.

Lemma asked_grows st st' ret q : build_ok st → build_ok st' → grows st st' → asked st ret q → asked st' ret q.
Proof.
  intros Hok Hok' Hg (o & Ho & Hl). exists o. split; [|by apply (gr_links _ _ Hg)].
  eapply grows_has_job; [apply Hok'|exact Hg|exact Ho|apply Hok].
Qed.

Lemma add_requests_spec n ret io rs st :
  adds n → build_ok st → in_tr st ret →
  (∀ q, q ∈ rs → rq_unit q ∈ units ∧ transaction_type (rq_type q) ∧ rq_type q ≠ JOB_NOP) →
  (all_missing st < n)%nat →
  ∃ r st', add_requests (λ q st, add_job n (rq_type q) (rq_unit q) (Some ret) (rq_matters q)
                                   (rq_conflicts q) false io st) rs st = Some (r, st') ∧
    build_ok st' ∧ grows st st' ∧ r <= 0 ∧
    ((∀ q, q ∈ rs → ready (load_state (mgr st)) (rq_unit q) (rq_type q) ∧
        (rq_ignore q = false → load_state (mgr st) (rq_unit q) = UNIT_LOADED ∨ rq_type q = JOB_STOP)) →
     r = 0 ∧ load_state (mgr st') = load_state (mgr st) ∧ new_complete (load_state (mgr st)) st st' (λ _, False) ∧
       ∀ q, q ∈ rs → takes (load_state (mgr st)) (rq_unit q) (rq_type q) → asked st' ret q) ∧
    (∀ l, l ∈ links st' → l ∈ links st ∨ justified st' l ∨
       ∃ q o, q ∈ rs ∧ l = MkDep (Some ret) o (rq_matters q) (rq_conflicts q) ∧ has_job st' (rq_unit q) (rq_type q) o).
Proof.
  intros Hadd. revert st. induction rs as [|q rs IH]; intros st Hok Hret Hrs Hn; cbn [add_requests].
  - exists 0, st. split_and!; [done|done|apply grows_refl|lia| |by left]. intros Hcl.
    split_and!; [done|done|apply new_complete_refl|]. by intros q ?%elem_of_nil.
  - destruct (Hrs q (list_elem_of_here _ _)) as (Hqu & Hqt & Hqn).
    destruct (Hadd (rq_type q) (rq_unit q) (Some ret) (rq_matters q) (rq_conflicts q) false io st)
      as (r & st1 & Hr & Hok1 & Hg1 & Hr0 & Hdone & Hcl1 & Hl1 & _); [done..|by intros ? [= <-]|done|done|].
    rewrite Hr. cbn [mbind option_bind]. clear Hr.
    destruct ((r <? 0) && negb (rq_ignore q) && negb (r =? - EBADR)) eqn:Efail.
    + exists r, st1. split_and!; [done..| |].
      * intros Hcl. exfalso. destruct (Hcl q (list_elem_of_here _ _)) as [Hrd Hneed].
        apply andb_true_iff in Efail as [[Hlt Hig%negb_true_iff]%andb_true_iff Hne%negb_true_iff].
        destruct (Hcl1 Hrd) as (_ & _ & Hres & _). destruct (Hres (Hneed Hig)) as [->| ->]; [done|by rewrite Z.eqb_refl in Hne].
      * intros l Hl. destruct (Hl1 l Hl) as [?|[?|(b & o & [= <-] & ? & ?)]]; [by left|by right; left|right; right].
        exists q, o. split_and!; [apply list_elem_of_here|done..].
    + destruct (IH st1) as (r2 & st2 & -> & Hok2 & Hg2 & Hr2 & Hcl2 & Hl2).
      * done.
      * by apply (gr_in_tr _ _ Hg1).
      * intros q' ?. apply Hrs. by apply list_elem_of_further.
      * pose proof (grows_missing st st1 (bo_st _ Hok) (bo_st _ Hok1) Hg1). lia.
      * exists r2, st2. split_and!; [done|done|by eapply grows_trans|done| |].
        -- intros Hcl. destruct (Hcl q (list_elem_of_here _ _)) as [Hrd _].
           destruct (Hcl1 Hrd) as (Hls1 & Htakes & _ & Hnew1). rewrite Hls1 in Hcl2.
           destruct Hcl2 as (-> & Hls2 & Hnew2 & Hall); [intros q' Hq'; apply Hcl; by apply list_elem_of_further|].
           split_and!; [done..| |].
           ++ eapply new_complete_trans; [apply Hok1|apply Hok2|done| |done].
              intros k kb H1 H2 H3 H4. destruct (Hnew1 k kb H1 H2 H3 H4) as [?|[? _]]; [by left|done].
           ++ intros q' [->|?]%elem_of_cons Hq; [|by apply Hall]. destruct (Hdone (Htakes Hq)) as (i & Hi & _ & Hl).
              apply (asked_grows st1); [done..|]. exists i. split; [done|by apply Hl].
        -- intros l Hl. destruct (Hl2 l Hl) as [H1|[?|(q' & o & ? & ? & ?)]]; [|by right; left|right; right].
           ++ destruct (Hl1 l H1) as [?|[?|(b & o & [= <-] & ? & ?)]]; [by left|right; left; by apply (justified_grows st1)|right; right].
              exists q, o. split_and!; [apply list_elem_of_here|done|]. eapply grows_has_job; [apply Hok2|done..|apply Hok1].
           ++ exists q', o. split_and!; [by apply list_elem_of_further|done..].
Qed.

Lemma hooked_missing t u by_ mat conf ret st st' :
  build_ok st → transaction_type t → u ∈ units →
  hooked t u by_ mat conf ret true st st' → (all_missing st' < all_missing st)%nat.
Proof.
  intros Hok Ht Hu (Hok' & Hg & Hj & _ & _ & Hm & _). apply length_filter_lt with (u, t).
  - intros [v t'] _. rewrite !missing_iff by apply Hok || apply Hok'. intros H k Hk. apply (H k).
    eapply grows_has_job; [apply Hok'|done..|apply Hok].
  - apply list_elem_of_In, in_prod; apply list_elem_of_In; [done|by apply transaction_types_all].
  - by apply Hm.
  - rewrite missing_iff by apply Hok'. intros H. by apply (H ret).
Qed.

(** A new job with all it asked for is complete. *)
Lemma hooked_complete t u by_ mat conf ret ls st st1 st2 :
  hooked t u by_ mat conf ret true st st1 → build_ok st → build_ok st2 → grows st1 st2 →
  (∀ q, q ∈ requests u t → takes ls (rq_unit q) (rq_type q) → asked st2 ret q) →
  complete ls st2 ret.
Proof.
  intros (Hok1 & _ & [Hj (rb & Hrb & Hrt)] & _) Hok Hok2 Hg Hq kb v t' m c i Hkb Hin Hv.
  destruct (gr_heap _ _ Hg ret rb Hrb) as (kb' & Hkb' & Hku & Hkt).
  assert (kb' = kb) as -> by congruence.
  destruct (chain_job st1 u ret (bo_st _ Hok1) Hj) as (rb2 & ? & ? & _).
  apply (Hq (Request v t' m c i)); [|done]. apply requests_iff. cbn. congruence.
Qed.

(** A link that was asked for is justified. *)
Lemma asked_justified st u t ret o q :
  build_ok st → has_job st u t ret → q ∈ requests u t → has_job st (rq_unit q) (rq_type q) o →
  justified st (MkDep (Some ret) o (rq_matters q) (rq_conflicts q)).
Proof.
  intros Hok [Hr (rb & Hrb & Hrt)] Hq%requests_iff [Ho (ob & Hob & Hot)].
  destruct (chain_job st _ ret (bo_st _ Hok) Hr) as (rb' & ? & Hru & _), (chain_job st _ o (bo_st _ Hok) Ho) as (ob' & ? & Hou & _).
  assert (rb' = rb) as -> by congruence. assert (ob' = ob) as -> by congruence.
  exists ret, rb, ob, (rq_ignore q). cbn. by rewrite Hru, Hrt, Hou, Hot.
Qed.

(** What the load state comes to if nothing is to be loaded. *)
Lemma settled_validate u t st :
  settled (load_state (mgr st)) u t →
  (if bool_decide (t ≠ JOB_STOP) then
     (load_state (mgr st) u = UNIT_LOADED ∨ manager_unit_cache_should_retry_load u = false →
        validate_unit u st = (bus_unit_validate_load_state u (load_state (mgr st) u), st)) else True) →
  ∃ r, (if bool_decide (t ≠ JOB_STOP) then validate_unit u st else (0, st)) = (r, st) ∧
    (r < 0 ↔ ¬ (load_state (mgr st) u = UNIT_LOADED ∨ t = JOB_STOP)).
Proof.
  intros [[Hs Hm] He Hr _] Hv. case_bool_decide as Ht.
  2:{ exists 0. split; [done|]. split; [lia|tauto]. }
  rewrite Hv; [|destruct (decide (load_state (mgr st) u = UNIT_LOADED)); auto]. eexists. split; [done|].
  destruct (load_state (mgr st) u) eqn:El; cbn; try done; split; try tauto; try (intros _; intros [?|?]; done); try (intros _; done); try lia.
Qed.

Lemma ready_asked ls u t q :
  ready ls u t → takes ls u t → q ∈ requests u t →
  ready ls (rq_unit q) (rq_type q) ∧ (rq_ignore q = false → ls (rq_unit q) = UNIT_LOADED ∨ rq_type q = JOB_STOP).
Proof.
  intros Hrd Ht Hq%requests_iff. split.
  - intros p Hp. apply Hrd. eapply rtc_l; [|exact Hp]. split; [done|]. cbn. eauto.
  - intros Hi. rewrite Hi in Hq. exact (se_needs _ _ _ (Hrd (u, t) (rtc_refl _ _)) _ _ _ _ Ht Hq).
Qed.

Lemma add_job_adds n : adds n.
Proof.
  induction n as [|n IH]; intros t u by_ mat conf ir io st Hok Ht Hu Hnop Hby Hanc Hn; [lia|].
  cbn [add_job]. rewrite assert_bind by (unfold transaction_type in Ht; lia).
  set (ls := load_state (mgr st)) in *.
  assert (Herr : ∀ r st1, build_ok st1 → grows st st1 → r < 0 → links st1 = links st →
    (ready ls u t → st1 = st ∧ ¬ takes ls u t ∧ (ls u = UNIT_LOADED ∨ t = JOB_STOP → r = -EBADR)) →
    added t u by_ mat conf ir st r st1).
  { intros r st1 ? ? ? Hl Hno. split_and!; [done..|lia|lia| |rewrite Hl; auto|lia].
    intros Hrd. destruct (Hno Hrd) as (-> & ? & ?). split_and!; [done|done|auto|apply new_complete_refl]. }
  destruct (UNIT_IS_LOAD_COMPLETE (ls u)) eqn:Eload; cbn [negb].
  2:{ eexists _, _. split; [done|]. apply Herr; [done|apply grows_refl|done|done|].
      intros Hrd. destruct (se_complete _ _ _ (Hrd (u, t) (rtc_refl _ _))) as [H1 H2]. cbn in H1, H2.
      unfold UNIT_IS_LOAD_COMPLETE in Eload. by rewrite !bool_decide_eq_false_2 in Eload. }
  pose proof (settled_validate u t st) as Hset. fold ls in Hset.
  set (v := if bool_decide (t ≠ JOB_STOP) then validate_unit u st else (0, st)) in *.
  assert (Hv : build_ok (snd v) ∧ grows st (snd v) ∧ heap (snd v) = heap st ∧ jobs (snd v) = jobs st ∧
    anchor_job (snd v) = anchor_job st ∧ links (snd v) = links st ∧
    (ready ls u t → ∃ r, v = (r, st) ∧ (r < 0 ↔ ¬ (ls u = UNIT_LOADED ∨ t = JOB_STOP)))).
  { destruct (validate_unit_spec u st Hok) as (? & ? & ? & ? & ? & ? & Hval).
    assert (Hrd : ready ls u t → ∃ r, v = (r, st) ∧ (r < 0 ↔ ¬ (ls u = UNIT_LOADED ∨ t = JOB_STOP))).
    { intros Hrd. apply Hset; [exact (Hrd (u, t) (rtc_refl _ _))|]. by case_bool_decide. }
    unfold v. case_bool_decide; [by split_and!|]. split_and!; try done; apply grows_refl. }
  clear Hset. destruct v as [r st1]. cbn [snd] in Hv. destruct Hv as (Hok1 & Hg1 & Hh1 & Hj1 & Ha1 & Hl1 & Hrd1).
  destruct (r <? 0) eqn:Er.
  { eexists _, _. split; [done|]. apply Herr; [done..|lia|done|]. intros Hrd. destruct (Hrd1 Hrd) as (r' & [= -> ->] & Hneg).
    assert (¬ (ls u = UNIT_LOADED ∨ t = JOB_STOP)) by (apply Hneg; lia). split_and!; [done|by intros [? _]|done]. }
  assert (Htake : ready ls u t → unit_job_is_applicable u t = true → takes ls u t ∧ st1 = st).
  { intros Hrd Happ. destruct (Hrd1 Hrd) as (r' & [= -> ->] & Hneg). split; [split|done]; [|done].
    destruct (decide (ls u = UNIT_LOADED ∨ t = JOB_STOP)) as [?|Hx]; [done|]. apply Hneg in Hx. lia. }
  destruct (unit_job_is_applicable u t) eqn:Eapp; cbn [negb].
  2:{ eexists _, _. split; [done|]. apply Herr; [done..|]. intros Hrd. destruct (Hrd1 Hrd) as (r' & [= -> ->] & _).
      split_and!; [done|intros [_ ?]; congruence|done]. }
  destruct (add_one_spec t u by_ mat conf io st1) as (ret & is_new & st2 & st3 & -> & Hhook & Hh); [done..| | |].
  { intros b Hb. apply (gr_in_tr _ _ Hg1). auto. } { intros Hb. rewrite Ha1. auto. }
  cbn [mbind option_bind]. unfold hook in Hhook. unfold or_ignore_order in Hhook. rewrite Hhook.
  cbn [mbind option_bind]. clear Hhook st2.
  pose proof Hh as (Hok3 & Hg3 & Hret & Hlink & Hanchor & Hmiss & Hnew & Hload & Hlk).
  assert (Hg13 : grows st st3) by by eapply grows_trans.
  assert (Hlk3 : ∀ l, l ∈ links st3 → l ∈ links st ∨ ∃ b, by_ = Some b ∧ l = MkDep (Some b) ret mat conf) by (intros l; rewrite <- Hl1; apply Hlk).
  assert (Hnew3 : ready ls u t → new_complete ls st st3 (λ k, k = ret ∧ is_new = true)).
  { intros Hrd. destruct (Htake Hrd eq_refl) as [_ Heq]. rewrite Heq in Hnew. intros k kb Hk Hn' _ _.
    destruct (Hnew k Hk) as [?|[? ?]]; [done|by right]. }
  destruct (is_new && negb ir && bool_decide (t ≠ JOB_NOP)) eqn:Erec.
  - apply andb_true_iff in Erec as [[-> ->%negb_true_iff]%andb_true_iff Htn%bool_decide_eq_true].
    destruct (add_requests_spec n ret io (requests u t) st3) as (r4 & st4 & -> & Hok4 & Hg4 & Hr4 & Hcl4 & Hl4).
    + done.
    + done.
    + eapply chain_in_tr. apply Hret.
    + intros q Hq. destruct (requests_ok u t q Ht Htn Hq) as (? & ? & ?).
      split_and!; [by eapply closed_deps|done..].
    + pose proof (hooked_missing _ _ _ _ _ _ _ _ Hok1 Ht Hu Hh).
      pose proof (grows_missing st st1 (bo_st _ Hok) (bo_st _ Hok1) Hg1). lia.
    + assert (Hret4 : has_job st4 u t ret) by (eapply grows_has_job; [apply Hok4|done..|apply Hok3]).
      exists r4, st4. split; [done|]. split_and!; [done|by eapply grows_trans|done| | | |done].
      * intros _. exists ret. split_and!; [done| |].
        -- intros Hb. by apply (gr_anchor _ _ Hg4), Hanchor.
        -- intros b Hb. by apply (gr_links _ _ Hg4), Hlink.
      * fold ls. intros Hrd. destruct (Htake Hrd eq_refl) as [Htk Heq].
        assert (Hls3 : load_state (mgr st3) = ls) by (rewrite Hload, Heq; done). rewrite Hls3 in Hcl4.
        destruct Hcl4 as (-> & Hls4 & Hnew4 & Hall); [intros q Hq; by apply (ready_asked ls u t)|].
        split_and!; [done|done|by left|]. intros k kb Hk Hnk Hkb Hkt. left.
        destruct (decide (k = ret)) as [->|Hne].
        { by eapply hooked_complete. }
        destruct (in_tr_dec st3 k (bo_st _ Hok3)) as [H3|H3].
        { destruct (Hnew k H3) as [H1|[_ ?]]; [|done]. rewrite Heq in H1. done. }
        by destruct (Hnew4 k kb Hk H3 Hkb Hkt).
      * intros l Hl. destruct (Hl4 l Hl) as [H3|[?|(q & o & Hq & -> & Ho)]]; [|by right; left|right; left].
        -- destruct (Hlk3 l H3) as [?|(b & ? & ?)]; [by left|right; right]. exists b, ret. done.
        -- by apply (asked_justified st4 u t).
  - exists 0, st3. split; [done|]. split_and!; [done|done|lia| | | |].
    + intros _. exists ret. split_and!; [done|intros Hb; by apply Hanchor|done].
    + fold ls. intros Hrd. destruct (Htake Hrd eq_refl) as [Htk Heq]. split_and!; [rewrite Hload, Heq; done|done|by left|].
      intros k kb Hk Hnk Hkb Hkt. destruct (Hnew3 Hrd k kb Hk Hnk Hkb Hkt) as [?|[-> Hisn]]; [by left|].
      right. split; [|done]. rewrite Hisn in Erec. destruct ir; [done|exfalso].
      apply bool_decide_eq_false in Erec. destruct Hret as (_ & rb & Hrb & Hrt).
      apply Erec. congruence.
    + intros l Hl. destruct (Hlk3 l Hl) as [?|(b & ? & ?)]; [by left|right; right]. exists b, ret. done.
    + intros _ Hb _ k Hk. destruct (Hanchor Hb) as [-> _]. destruct (Hnew k Hk) as [(v & c & Hv & _)|[_ ->]]; [|done].
      rewrite Hj1, (bo_empty _ Hok (Hanc Hb)) in Hv. done.
Qed.

(** Adding stop jobs unit by unit. *)
Lemma add_stops_spec test us a st :
  build_ok st → anchor_job st = Some a → (∀ u, u ∈ us → u ∈ units) →
  ∃ st', add_stops test us st = Some st' ∧ build_ok st' ∧ grows st st' ∧
    ((∀ u, u ∈ us → ready (load_state (mgr st)) u JOB_STOP) → ∀ u, u ∈ us → ∃ s, grows st s ∧ grows s st' ∧ build_ok s ∧
       (test s u = true → unit_job_is_applicable u JOB_STOP = true → ∃ k, has_job st' u JOB_STOP k)).
Proof.
  revert st. induction us as [|u us IH]; intros st Hok Ha Hus; cbn [add_stops].
  - exists st. split_and!; [done|done|apply grows_refl|]. by intros _ u ?%elem_of_nil.
  - assert (Hus' : ∀ u, u ∈ us → u ∈ units) by (intros; apply Hus; by apply list_elem_of_further).
    assert (∃ st1, (if test st u then
        a ← anchor_job st;
        '(_, st) ← transaction_add_job_and_dependencies JOB_STOP u (Some a) true false false false st;
        add_stops test us st else add_stops test us st) = add_stops test us st1 ∧
        build_ok st1 ∧ grows st st1 ∧
        (ready (load_state (mgr st)) u JOB_STOP → load_state (mgr st1) = load_state (mgr st) ∧
           (test st u = true → unit_job_is_applicable u JOB_STOP = true → ∃ k, has_job st1 u JOB_STOP k)))
      as (st1 & -> & Hok1 & Hg1 & Hcl1).
    { destruct (test st u) eqn:Et.
      - rewrite Ha. cbn [mbind option_bind].
        destruct (add_job_adds build_fuel JOB_STOP u (Some a) true false false false st)
          as (r & st1 & Hr & Hok1 & Hg1 & _ & Hret & Hcl & _).
        { done. } { done. } { apply Hus, list_elem_of_here. } { done. }
        { intros ? [= <-]. by apply (bo_anchor _ Hok). } { done. }
        { pose proof (all_missing_bound st). unfold build_fuel. lia. }
        exists st1. unfold transaction_add_job_and_dependencies. rewrite Hr. split_and!; [done..|].
        intros Hc. destruct (Hcl Hc) as (Hls & Htk & _). split; [done|]. intros _ Happ.
        destruct (Hret (Htk (conj (or_intror eq_refl) Happ))) as (k & ? & _). eauto.
      - exists st. split_and!; [done|done|apply grows_refl|]. done. }
    destruct (IH st1 Hok1 (gr_anchor _ _ Hg1 a Ha) Hus') as (st2 & -> & Hok2 & Hg2 & Hcl2).
    exists st2. split_and!; [done|done|by eapply grows_trans|]. intros Hc v Hv.
    destruct (Hcl1 (Hc u (list_elem_of_here _ _))) as [Hls Hstop]. rewrite Hls in Hcl2.
    apply elem_of_cons in Hv as [->|Hv].
    + exists st. split_and!; [apply grows_refl|by eapply grows_trans|done|]. intros Ht Happ.
      destruct (Hstop Ht Happ) as [k Hk]. exists k. eapply grows_has_job; [apply Hok2|done..|apply Hok1].
    + destruct (Hcl2 (λ w Hw, Hc w (list_elem_of_further _ _ _ Hw)) v Hv) as (s & ? & ? & ? & ?).
      exists s. split_and!; [by eapply grows_trans|done..].
Qed.

(** ** Properties *)

(** C19: [transaction_add_job_and_dependencies] terminates on any dependency graph,
    cyclic or not, and never fails an assertion. Whatever it returns, the transaction
    keeps its invariant: one job per unit and type, each in its unit's chain, each the
    anchor or pulled in by another job of the transaction; nothing that was there is
    lost. On success the job is there, with the requested link or as the anchor. *)
Theorem add_job_and_dependencies_ok (t : JobType) (u : positive) (by_ : option positive)
    (mat conf ir io : bool) (st : State) :
  build_ok st → transaction_type t → u ∈ units → (t = JOB_NOP → by_ = None) →
  (∀ b, by_ = Some b → in_tr st b) → (by_ = None → anchor_job st = None) →
  ∃ r st', transaction_add_job_and_dependencies t u by_ mat conf ir io st = Some (r, st') ∧
    build_ok st' ∧ grows st st' ∧ r <= 0 ∧
    (r = 0 → ∃ ret, has_job st' u t ret ∧ (by_ = None → anchor_job st' = Some ret) ∧
       ∀ b, by_ = Some b → MkDep (Some b) ret mat conf ∈ links st').
Proof.
  intros. destruct (add_job_adds build_fuel t u by_ mat conf ir io st)
    as (r & st' & Hr & Hok & Hg & Hr0 & Hret & _); [done..| |].
  - pose proof (all_missing_bound st). unfold build_fuel. lia.
  - exists r, st'. split_and!; done.
Qed.


(** [transaction_add_isolate_jobs] terminates and keeps the invariant; if nothing that the
    stop jobs need is missing, afterwards every unit that is active or has a job
    installed has a job in the transaction, unless it cannot be stopped, is exempt from isolation
    or is triggered by a unit that is exempt or has a job itself. *)
Theorem add_isolate_jobs_covers (a : positive) (st : State) :
  build_ok st → anchor_job st = Some a →
  ∃ st', transaction_add_isolate_jobs st = Some st' ∧ build_ok st' ∧ grows st st' ∧
    ((∀ u, u ∈ units → ready (load_state (mgr st)) u JOB_STOP) → ∀ u, u ∈ units →
       perpetual u = true ∨ nothing_to_stop st u = true ∨ ignore_on_isolate u = true ∨ is_Some (jobs st' !! u) ∨
       ∃ o, o ∈ unit_dependencies u UNIT_ATOM_TRIGGERED_BY ∧
         (ignore_on_isolate o = true ∨ is_Some (jobs st' !! o))).
Proof.
  intros Hok Ha. destruct (add_stops_spec isolate_stops units a st) as (st' & Hst & Hok' & Hg & Hcl); [done..|].
  exists st'. split_and!; [done..|]. intros Hc u Hu. destruct (perpetual u) eqn:Ep; [by left|right].
  destruct (Hcl Hc u Hu) as (s & Hgs & Hgs' & Hoks & Hstop).
  assert (Hmono : ∀ o, is_Some (jobs s !! o) → is_Some (jobs st' !! o)).
  { intros o [c Ho]. destruct (proj1 (proj1 (proj1 (bo_st _ Hoks))) o c Ho) as [Hne Hm].
    destruct c as [|k c]; [done|]. destruct (Hm k (list_elem_of_here _ _)) as (kb & Hkb & Hku & _).
    assert (Hj : has_job s o (j_type kb) k).
    { split; [|eauto]. unfold chain. rewrite Ho. apply list_elem_of_here. }
    destruct (grows_has_job s st' o _ k (bo_st _ Hok') Hgs' Hj (bo_st _ Hoks)) as [Hin _].
    unfold chain in Hin. destruct (jobs st' !! o); [eauto|by apply elem_of_nil in Hin]. }
  assert (Hns : nothing_to_stop s u = nothing_to_stop st u).
  { unfold nothing_to_stop, installed_job. destruct (gr_mgr _ _ Hgs) as (id & ls & ->). done. }
  assert (Hsh : ∀ o, shall_stop_on_isolate s o = false → ignore_on_isolate o = true ∨ is_Some (jobs st' !! o)).
  { intros o. unfold shall_stop_on_isolate. destruct (ignore_on_isolate o); [by left|].
    case_bool_decide; [auto|done]. }
  destruct (isolate_stops s u) eqn:Et.
  - destruct (Hstop eq_refl) as (k & Hin & _); [cbn; by rewrite Ep|]. right. right. left. unfold chain in Hin.
    destruct (jobs st' !! u); [eauto|by apply elem_of_nil in Hin].
  - unfold isolate_stops in Et. rewrite Hns in Et. destruct (nothing_to_stop st u); [by left|right].
    cbn [negb andb] in Et. destruct (shall_stop_on_isolate s u) eqn:Eu; cbn [andb] in Et.
    + right. right. apply not_true_iff_false in Et. rewrite forallb_forall in Et.
      destruct (decide (Exists (λ o, shall_stop_on_isolate s o = false)
        (unit_dependencies u UNIT_ATOM_TRIGGERED_BY))) as [Hex|Hex].
      * apply Exists_exists in Hex as (o & Ho & Hf). exists o. split; [done|auto].
      * exfalso. apply Et. intros o Ho%list_elem_of_In. apply not_false_iff_true. intros Hf.
        apply Hex, Exists_exists. eauto.
    + destruct (Hsh u Eu); auto.
Qed.

End Recursion.
End Build.

(** ** Witnesses *)

Lemma empty_build_ok {RQ : RunQueue} {E : Env} (st : State) :
  jobs st = ∅ → links st = [] → anchor_job st = None → types_ok st → installed_ok st → build_ok st.
Proof.
  intros Hj Hl Ha Ht Hi. assert (Hno : ∀ k, ¬ in_tr st k) by (intros k (v & c & Hv & _); by rewrite Hj in Hv).
  split.
  - split_and!; [split_and!; [split|..]|..]; try done.
    + intros u c Hu. by rewrite Hj in Hu.
    + intros l. rewrite Hl. by intros ?%elem_of_nil.
    + intros u c Hu. by rewrite Hj in Hu.
    + intros l. rewrite Hl. by intros ?%elem_of_nil.
  - intros u c j k jb kb Hu. by rewrite Hj in Hu.
  - intros k Hk. by destruct (Hno k).
  - intros a. by rewrite Ha.
  - done.
  - intros k kb Hk. by destruct (Hno k).
  - intros k kb Hk. by destruct (Hno k).
  - intros u. rewrite Hj, lookup_empty. by intros [? ?].
Qed.

(** Unit 1 requires 2 and wants 3; 2 and 3 require each other. *)
Definition build_env : Env :=
  ex_env (ex_deps [(1, UNIT_ATOM_PULL_IN_START, 2); (1, UNIT_ATOM_PULL_IN_START_IGNORED, 3);
                   (2, UNIT_ATOM_PULL_IN_START, 3); (3, UNIT_ATOM_PULL_IN_START, 2)]%positive)
    (λ _, UNIT_INACTIVE) [1; 2; 3]%positive.

Lemma ex_env_closed ds active us :
  Forall (λ d, snd d ∈ us) ds → let E := ex_env (ex_deps ds) active us in deps_closed.
Proof.
  intros Hds E u v _ [[a Ha%elem_of_ex_deps]|Hf]; [|by apply elem_of_nil in Hf].
  rewrite Forall_forall in Hds. by apply (Hds (u, a, v)).
Qed.

Lemma build_env_closed : let E := build_env in deps_closed.
Proof. apply ex_env_closed. by_decide. Qed.

Lemma ex_state_build_ok (E : Env) : build_ok ex_state.
Proof. apply empty_build_ok; try reflexivity; [intros k kb Hk|intros u i Hi]; discriminate. Qed.

Lemma add_job_and_dependencies_ok_witness :
  let E := build_env in
  ∃ r st', transaction_add_job_and_dependencies JOB_START 1 None true false false false ex_state = Some (r, st')
    ∧ build_ok st'.
Proof.
  intros E. destruct (add_job_and_dependencies_ok build_env_closed JOB_START 1 None true false false false ex_state)
    as (r & st' & H1 & H2 & _).
  - apply ex_state_build_ok.
  - reflexivity.
  - by_decide.
  - discriminate.
  - discriminate.
  - reflexivity.
  - exists r, st'. split; [exact H1|exact H2].
Defined.

(** The anchor alone, as [transaction_add_isolate_jobs] finds it. *)
Definition isolate_tr : @State ex_rq :=
  set_anchor_job (Some 1%positive)
  (set_jobs (list_to_map [(1, [1])]%positive)
  (set_heap (list_to_map [(1, ex_job 1 1 JOB_START)]%positive) ex_state)).

Lemma isolate_tr_ok : let E := build_env in build_ok isolate_tr.
Proof.
  intros E. assert (Hin : ∀ k, in_tr isolate_tr k → k = 1%positive).
  { intros k (u & c & Hu & Hk). apply elem_of_list_to_map_2, list_elem_of_In in Hu.
    destruct Hu as [[= <- <-]|[]]. by apply list_elem_of_singleton in Hk. }
  split.
  - apply st_ok_check; [by_decide|by_decide|]. by intros u i Hu.
  - intros u c j k jb kb Hu Hj Hk _ _ _. rewrite (Hin j), (Hin k); [done|by exists u, c..].
  - intros k ->%Hin. by left.
  - intros a [= <-]. exists 1%positive, [1%positive]. split; [done|apply list_elem_of_here].
  - discriminate.
  - intros k kb ->%Hin. done.
  - intros k kb ->%Hin [= <-]. done.
  - intros u [c Hu]. apply elem_of_list_to_map_2, list_elem_of_In in Hu. destruct Hu as [[= <- <-]|[]]. by_decide.
Qed.

Lemma add_isolate_jobs_covers_witness :
  let E := build_env in
  ∃ st', transaction_add_isolate_jobs isolate_tr = Some st' ∧ build_ok st'.
Proof.
  intros E. destruct (add_isolate_jobs_covers build_env_closed 1 isolate_tr) as (st' & H1 & H2 & _).
  - apply isolate_tr_ok.
  - reflexivity.
  - exists st'. split; [exact H1|exact H2].
Defined.


(** Units 1 wants 2, and 2 requires 3, which is masked. *)
Definition masked_env : Env :=
  ex_env (ex_deps [(1, UNIT_ATOM_PULL_IN_START_IGNORED, 2); (2, UNIT_ATOM_PULL_IN_START, 3)]%positive)
    (λ _, UNIT_INACTIVE) [1; 2; 3]%positive.

Definition masked_state : @State ex_rq :=
  set_mgr (set_load_state (λ u, if decide (u = 3)%positive then UNIT_MASKED else UNIT_LOADED) ex_mgr) ex_state.

(** Unit 1 requires 2 and wants 3, which is masked; 2 requires 1. *)
Definition wants_env : Env :=
  ex_env (ex_deps [(1, UNIT_ATOM_PULL_IN_START, 2); (1, UNIT_ATOM_PULL_IN_START_IGNORED, 3);
                   (2, UNIT_ATOM_PULL_IN_START, 1); (3, UNIT_ATOM_PULL_IN_START, 2)]%positive)
    (λ _, UNIT_INACTIVE) [1; 2; 3]%positive.

Lemma wants_env_closed : let E := wants_env in deps_closed.
Proof. apply ex_env_closed. by_decide. Qed.


(** When a dependency whose errors are ignored fails half-way, what was added for it
    stays: unit 2 is going to be started although its requirement, unit 3, cannot be.
    Asking for unit 2 alone fails with -ERFKILL. *)
Example failed_dependency_stays :
  let E := masked_env in
  (λ x, (fst x, (λ jb, (j_unit jb, j_type jb)) <$> (map_to_list (heap (snd x))).*2))
    <$> transaction_add_job_and_dependencies JOB_START 1 None true false false false masked_state
    = Some (0, [(2%positive, JOB_START); (1%positive, JOB_START)]) ∧
  fst <$> transaction_add_job_and_dependencies JOB_START 2 None true false false false masked_state
    = Some (-ERFKILL).
Proof. vm_compute. split; reflexivity. Qed.
