(* ===== verification/JobOps.v ===== *)
(** * Installed jobs (src/core/job.c)

    Installing, merging, finishing and freeing jobs, the queues they are on and the
    counters of the manager. A unit has at most one installed job and one NOP job. *)

From S2P Require Import Prelude JobType Prioq RunQueue JobData TrDelete TrFix.

Section JobOps.
Context {RQ : RunQueue} {E : Env}.
Implicit Types (st : State) (j k u i : positive) (t : JobType).

(** ** The code *)

Definition call (c : Call) st : State := alter_mgr (λ m, set_trace (c :: trace m) m) st.

Definition job_set_state (j : positive) (s : JobState) st : option State :=
  jb ← heap st !! j;
  if bool_decide (j_state jb = s) then Some st
  else
    let st := alter_job (set_j_state s) j st in
    if negb (j_installed jb) then Some st
    else match s with
    | JOB_RUNNING =>
        Some (alter_mgr (λ m, set_n_running_jobs (u32 (n_running_jobs m + 1)) m) st)
    | JOB_WAITING =>
        assert_ (0 <? n_running_jobs (mgr st));;
        let st := alter_mgr (λ m, set_n_running_jobs (n_running_jobs m - 1) m) st in
        Some (if n_running_jobs (mgr st) <=? 0 then call disable_jobs_in_progress st else st)
    end.

(** [pj = j->type == JOB_NOP ? &j->unit->nop_job : &j->unit->job] *)
Definition slot st (jb : Job) : option positive :=
  if bool_decide (j_type jb = JOB_NOP) then unit_nop_job (mgr st) !! j_unit jb
  else unit_job (mgr st) !! j_unit jb.

Definition set_slot (jb : Job) (v : option positive) st : State :=
  let upd m := match v with Some j => <[j_unit jb := j]> m | None => delete (j_unit jb) m end in
  if bool_decide (j_type jb = JOB_NOP)
  then alter_mgr (λ m, set_unit_nop_job (upd (unit_nop_job m)) m) st
  else alter_mgr (λ m, set_unit_job (upd (unit_job m)) m) st.

(** [hashmap_remove_value(m->jobs, id, j)] *)
Definition remove_id (id : Z) (j : positive) st : State :=
  if bool_decide (m_jobs (mgr st) !! id = Some j)
  then alter_mgr (λ m, set_m_jobs (delete id (m_jobs m)) m) st
  else st.

Definition job_uninstall (j : positive) st : option State :=
  jb ← heap st !! j;
  assert_ (j_installed jb);;
  st ← job_set_state j JOB_WAITING st;
  assert_ (bool_decide (slot st jb = Some j));;
  let st := call (bus_job_send_removed_signal j) st in
  let st := set_slot jb None st in
  let st := call (unit_add_to_dbus_queue (j_unit jb)) (call (unit_add_to_gc_queue (j_unit jb)) st) in
  let st := remove_id (j_id jb) j st in
  Some (alter_job (set_j_installed false) j st).

Definition job_merge_into_installed (j other : positive) st : option State :=
  jb ← heap st !! j;
  ob ← heap st !! other;
  assert_ (j_installed jb);;
  assert_ (bool_decide (j_unit jb = j_unit ob));;
  t ← (if bool_decide (j_type jb ≠ JOB_NOP) then
         r ← job_type_merge_and_collapse (j_type jb) (j_type ob) (unit_active_state (j_unit jb));
         match r with Ok t => Some t | Err _ => None end
       else assert_ (bool_decide (j_type ob = JOB_NOP));; Some (j_type jb));
  Some (alter_job (λ jb, set_j_ignore_order (j_ignore_order jb || j_ignore_order ob)
                          (set_j_irreversible (j_irreversible jb || j_irreversible ob)
                            (set_j_type t jb))) j st).

Definition job_add_to_run_queue (j : positive) st : option State :=
  jb ← heap st !! j;
  assert_ (j_installed jb);;
  if j_in_run_queue jb then Some st
  else
    '(r, q) ← rq_put (run_queue (mgr st)) j (rq_alloc_ok j);
    let st := alter_mgr (set_run_queue q) st in
    let st := if r <? 0 then st else alter_job (set_j_in_run_queue true) j st in
    Some (call manager_trigger_run_queue st).

Definition job_add_to_dbus_queue (j : positive) st : option State :=
  jb ← heap st !! j;
  assert_ (j_installed jb);;
  if j_in_dbus_queue jb then Some st
  else Some (alter_job (set_j_in_dbus_queue true) j
               (alter_mgr (λ m, set_dbus_job_queue (j :: dbus_job_queue m) m) st)).

(** Whether one of the units ordered in direction [d] has an installed job that compares
    to [j] in the given way. *)
Definition blocks (test : Z → bool) (j : positive) (jb : Job) (d : UnitDependencyAtom) st : option bool :=
  r ← find_first (λ v, match installed_job st v with
                       | None => Some false
                       | Some o =>
                           ob ← heap st !! o;
                           c ← job_compare (j_type jb, j_ignore_order jb) (j_type ob, j_ignore_order ob) d;
                           Some (test c)
                       end) (unit_dependencies (j_unit jb) d);
  Some (bool_decide (is_Some r)).

Definition job_is_runnable (j : positive) st : option bool :=
  jb ← heap st !! j;
  assert_ (j_installed jb);;
  if j_ignore_order jb then Some true
  else if bool_decide (j_type jb = JOB_NOP) then Some true
  else
    a ← blocks (λ c, 0 <? c) j jb UNIT_ATOM_AFTER st;
    if a : bool then Some false
    else
      b ← blocks (λ c, 0 <? c) j jb UNIT_ATOM_BEFORE st;
      Some (negb b).

Definition job_may_gc (j : positive) st : option bool :=
  jb ← heap st !! j;
  if negb (gc_jobs (j_unit jb)) then Some false
  else if bus_referenced j then Some false
  else if bool_decide (j_type jb = JOB_NOP) then Some false
  else
    a ← blocks (λ c, c <? 0) j jb UNIT_ATOM_BEFORE st;
    if a : bool then Some false
    else
      b ← blocks (λ c, c <? 0) j jb UNIT_ATOM_AFTER st;
      Some (negb b).

Definition job_add_to_gc_queue (j : positive) st : option State :=
  jb ← heap st !! j;
  if j_in_gc_queue jb then Some st
  else
    g ← job_may_gc j st;
    if negb g then Some st
    else Some (alter_job (set_j_in_gc_queue true) j
                 (alter_mgr (λ m, set_gc_job_queue (j :: gc_job_queue m) m) st)).

(** The installed jobs of the units ordered after or before [u] get another look. *)
Fixpoint requeue_jobs (us : list positive) st : option State :=
  match us with
  | [] => Some st
  | v :: us =>
      match installed_job st v with
      | None => requeue_jobs us st
      | Some o =>
          st ← job_add_to_run_queue o st;
          st ← job_add_to_gc_queue o st;
          requeue_jobs us st
      end
  end.

(** The end of [job_finish_and_invalidate], from the label [finish]. *)
Definition finish_tail (u : positive) st : option State :=
  st ← requeue_jobs (unit_dependencies u UNIT_ATOM_AFTER ++ unit_dependencies u UNIT_ATOM_BEFORE) st;
  Some (call manager_check_finished (call (unit_submit_queues u) st)).

(** [job_fail_dependencies]; [rec] finishes one job. *)
Fixpoint fail_dependencies (rec : positive → State → option State) (vs : list positive) st
    : option State :=
  match vs with
  | [] => Some st
  | v :: vs =>
      match installed_job st v with
      | None => fail_dependencies rec vs st
      | Some o =>
          ob ← heap st !! o;
          if bool_decide (j_type ob ∈ [JOB_START; JOB_VERIFY_ACTIVE])
          then st ← rec o st; fail_dependencies rec vs st
          else fail_dependencies rec vs st
      end
  end.

(** The dependency along which the end of a job of type [t] with this result fails
    other jobs: the check on the result, then the check on the unit's state. *)
Definition failure_atoms (u : positive) (t : JobType) (result : JobResult) : list UnitDependencyAtom :=
  (if bool_decide (result ≠ JOB_DONE) then
     if bool_decide (t ∈ [JOB_START; JOB_VERIFY_ACTIVE]) then [UNIT_ATOM_PROPAGATE_START_FAILURE]
     else if bool_decide (t = JOB_STOP) then [UNIT_ATOM_PROPAGATE_STOP_FAILURE]
     else []
   else []) ++
  (if bool_decide (result = JOB_DONE) && bool_decide (t ∈ [JOB_START; JOB_RELOAD]) &&
      negb (UNIT_IS_ACTIVE_OR_RELOADING (unit_active_state u))
   then [UNIT_ATOM_PROPAGATE_INACTIVE_START_AS_FAILURE] else []).

(** A finished job is freed before the recursion, so a fuel above the number of jobs is
    enough. What the end of a job sets off in other units ([unit_start_on_failure] and
    [unit_trigger_notify]) is left to [hook]. *)
Fixpoint finish_job (hook : Call → State → option State) (fuel : nat) (j : positive) (result : JobResult) (recursive : bool) st
    : option State :=
  match fuel with
  | O => None
  | S fuel =>
      jb ← heap st !! j;
      assert_ (j_installed jb);;
      assert_ (job_type_num (j_type jb) <? _JOB_TYPE_MAX_IN_TRANSACTION);;
      let u := j_unit jb in
      let t := j_type jb in
      let st := alter_job (set_j_result result) j st in
      if bool_decide (result = JOB_DONE) && bool_decide (t = JOB_RESTART) then
        let st := alter_job (set_j_type JOB_START) j st in
        st ← job_set_state j JOB_WAITING st;
        st ← job_add_to_dbus_queue j st;
        st ← job_add_to_run_queue j st;
        st ← job_add_to_gc_queue j st;
        finish_tail u st
      else
        let st := if bool_decide (result ∈ [JOB_FAILED; JOB_INVALID])
                  then alter_mgr (λ m, set_n_failed_jobs (u32 (n_failed_jobs m + 1)) m) st else st in
        st ← job_uninstall j st;
        st ← job_free j st;
        st ← (if recursive then
                fail_dependencies (λ o st, finish_job hook fuel o JOB_DEPENDENCY true st)
                  (failure_atoms u t result ≫= unit_dependencies u) st
              else Some st);
        st ← (if bool_decide (result ∈ [JOB_TIMEOUT; JOB_DEPENDENCY])
              then hook (unit_start_on_failure u) st else Some st);
        st ← hook (unit_trigger_notify u) st;
        finish_tail u st
  end.

(** The call is recorded; JobOnFailure.v makes it. *)
Definition record (c : Call) st : option State := Some (call c st).

(** The flag [already] only suppresses a log message. *)
Definition job_finish_and_invalidate (j : positive) (result : JobResult) (recursive : bool) st
    : option State :=
  finish_job record (S (size (heap st))) j result recursive st.

(** The job that is installed afterwards. *)
Definition job_install (j : positive) st : option (positive * State) :=
  jb ← heap st !! j;
  assert_ (negb (j_installed jb));;
  assert_ (job_type_num (j_type jb) <? _JOB_TYPE_MAX_IN_TRANSACTION);;
  assert_ (bool_decide (j_state jb = JOB_WAITING));;
  let install st :=
    let st := alter_job (set_j_installed true) j (set_slot jb (Some j) st) in
    let st := alter_mgr (λ m, set_n_installed_jobs (u32 (n_installed_jobs m + 1)) m) st in
    st ← job_add_to_gc_queue j st;
    st ← job_add_to_dbus_queue j st;
    Some (j, call (unit_add_to_dbus_queue (j_unit jb)) st) in
  match slot st jb with
  | None => install st
  | Some uj =>
      ub ← heap st !! uj;
      c ← job_type_is_conflicting (j_type ub) (j_type jb);
      if c : bool then
        st ← job_finish_and_invalidate uj JOB_CANCELED false st;
        install st
      else
        s ← job_type_is_superset (j_type ub) (j_type jb);
        st' ← job_merge_into_installed uj j st;
        if bool_decide (j_state ub = JOB_WAITING) || (job_type_allows_late_merge (j_type jb) && s)
        then Some (uj, st')
        else st'' ← job_set_state uj JOB_WAITING st'; Some (uj, st'')
  end.

(** ** The invariant of the manager's jobs *)

(** A queue holds exactly the jobs whose flag says so, once each. *)
Definition queue_ok (flag : Job → bool) (q : list positive) (h : gmap positive Job) : Prop :=
  NoDup q ∧ ∀ i, i ∈ q ↔ ∃ ib, h !! i = Some ib ∧ flag ib = true.

Definition is_running (jb : Job) : bool := j_installed jb && bool_decide (j_state jb = JOB_RUNNING).

Definition count_running (h : gmap positive Job) : Z :=
  Z.of_nat (size (filter (λ kv, is_running kv.2 = true) h)).

Definition queued (jb : Job) : bool := j_in_run_queue jb || j_in_dbus_queue jb || j_in_gc_queue jb.

Record mgr_ok st : Prop := {
  mo_types k kb : heap st !! k = Some kb → transaction_type (j_type kb);
  mo_job u i : unit_job (mgr st) !! u = Some i →
    ∃ ib, heap st !! i = Some ib ∧ j_installed ib = true ∧ j_unit ib = u ∧ j_type ib ≠ JOB_NOP;
  mo_nop u i : unit_nop_job (mgr st) !! u = Some i →
    ∃ ib, heap st !! i = Some ib ∧ j_installed ib = true ∧ j_unit ib = u ∧ j_type ib = JOB_NOP;
  mo_slot i ib : heap st !! i = Some ib → j_installed ib = true → slot st ib = Some i;
  mo_id i ib : heap st !! i = Some ib → j_installed ib = true → m_jobs (mgr st) !! j_id ib = Some i;
  mo_rq : rq_ok (run_queue (mgr st));
  mo_run : queue_ok j_in_run_queue (rq_jobs (run_queue (mgr st))) (heap st);
  mo_dbus : queue_ok j_in_dbus_queue (dbus_job_queue (mgr st)) (heap st);
  mo_gc : queue_ok j_in_gc_queue (gc_job_queue (mgr st)) (heap st);
  mo_queued i ib : heap st !! i = Some ib → queued ib = true → j_installed ib = true;
  mo_running : n_running_jobs (mgr st) = count_running (heap st);
}.

(** The jobs of the transaction and the installed jobs. *)
Definition sys_ok st : Prop := tr_ok st ∧ mgr_ok st.

(** Fewer jobs than the run queue has indices for. *)
Definition few st : Prop := Z.of_nat (size (heap st)) < PRIOQ_MAX.

Lemma sys_ok_st_ok st : sys_ok st → st_ok st.
Proof.
  intros [Ht Hm]. split_and!; [done|by intros k kb; apply (mo_types _ Hm)|].
  intros u i Hu. destruct (mo_job _ Hm u i Hu) as (ib & Hib & ? & ? & Hn). exists ib. split_and!; try done.
  pose proof (mo_types _ Hm i ib Hib) as Hty. unfold transaction_type, merging_type in *.
  unfold _JOB_TYPE_MAX_IN_TRANSACTION, _JOB_TYPE_MAX_MERGING in *. destruct (j_type ib); cbn in *; (done || lia).
Qed.

(** ** Queues and the counter as functions of the heap *)

Lemma queue_alter (flag : Job → bool) (q : list positive) (h : gmap positive Job) (f : Job → Job) (j : positive) :
  (∀ jb, h !! j = Some jb → flag (f jb) = flag jb) → queue_ok flag q h → queue_ok flag q (alter f j h).
Proof.
  intros Hf [Hnd Hq]. split; [done|]. intros i. rewrite Hq. destruct (decide (i = j)) as [->|Hne].
  - rewrite lookup_alter_eq. destruct (h !! j) as [jb|]; cbn; [|split; by intros (? & ? & _)].
    specialize (Hf jb eq_refl). split; intros (ib & [= <-] & ?); eexists; (split; [done|congruence]).
  - by rewrite lookup_alter_ne.
Qed.

Lemma queue_push (flag : Job → bool) (q q' : list positive) (h : gmap positive Job) (f : Job → Job) (j : positive) jb :
  h !! j = Some jb → flag jb = false → flag (f jb) = true → q' ≡ₚ j :: q →
  queue_ok flag q h → queue_ok flag q' (alter f j h).
Proof.
  intros Hj Hf Hf' Hq' [Hnd Hq]. split.
  - rewrite Hq'. apply NoDup_cons. split; [|done]. rewrite Hq. intros (ib & ? & ?). congruence.
  - intros i. rewrite Hq', elem_of_cons, Hq. destruct (decide (i = j)) as [->|Hne].
    + rewrite lookup_alter_eq, Hj. cbn. naive_solver.
    + rewrite lookup_alter_ne by done. naive_solver.
Qed.

Lemma queue_delete (flag : Job → bool) (q q' : list positive) (h : gmap positive Job) (j : positive) :
  NoDup q' → (∀ i, i ∈ q' ↔ i ∈ q ∧ i ≠ j) → queue_ok flag q h → queue_ok flag q' (delete j h).
Proof.
  intros Hnd' Hq' [_ Hq]. split; [done|]. intros i. rewrite Hq', Hq. destruct (decide (i = j)) as [->|Hne].
  - rewrite lookup_delete_eq. naive_solver.
  - rewrite lookup_delete_ne by done. naive_solver.
Qed.

Definition run_bit (jb : Job) : Z := if is_running jb then 1 else 0.

Lemma count_running_insert (h : gmap positive Job) j jb :
  h !! j = None → count_running (<[j := jb]> h) = count_running h + run_bit jb.
Proof.
  intros Hj. unfold count_running, run_bit. destruct (is_running jb) eqn:Er.
  - rewrite map_filter_insert_True by done. rewrite map_size_insert_None; [lia|].
    rewrite map_lookup_filter, Hj. done.
  - rewrite map_filter_insert_False by (cbn; congruence). rewrite delete_id by done. lia.
Qed.

Lemma count_running_delete (h : gmap positive Job) j jb :
  h !! j = Some jb → count_running (delete j h) = count_running h - run_bit jb.
Proof.
  intros Hj. rewrite <- (insert_delete_id h j jb Hj) at 2.
  rewrite count_running_insert by apply lookup_delete_eq. lia.
Qed.

Lemma count_running_alter (h : gmap positive Job) (f : Job → Job) j jb :
  h !! j = Some jb → count_running (alter f j h) = count_running h - run_bit jb + run_bit (f jb).
Proof.
  intros Hj. rewrite <- (insert_delete_id h j jb Hj) at 1. rewrite alter_insert_eq.
  rewrite count_running_insert by apply lookup_delete_eq. rewrite (count_running_delete h j jb) by done. lia.
Qed.

Lemma count_running_le h : 0 <= count_running h <= Z.of_nat (size h).
Proof. unfold count_running. pose proof (map_size_filter (λ kv, is_running kv.2 = true) h). lia. Qed.

Lemma run_bit_le h j jb : h !! j = Some jb → run_bit jb <= count_running h.
Proof.
  intros Hj. pose proof (count_running_delete h j jb Hj). pose proof (count_running_le (delete j h)). lia.
Qed.

(** ** What finishing jobs leaves alone *)

Lemma tr_ok_frame st st' :
  jobs st' = jobs st → links st' = links st → (∀ k, in_tr st k → heap st' !! k = heap st !! k) →
  tr_ok st → tr_ok st'.
Proof.
  intros Hj Hl Hh ((Hc & Hli) & Hnd & Hlt).
  assert (Hin : ∀ k, in_tr st' k ↔ in_tr st k) by (intros k; unfold in_tr; by rewrite Hj).
  assert (Hid : ∀ k, in_tr st k → idle_job st k → idle_job st' k).
  { intros k Hk (kb & Hkb & ?). exists kb. by rewrite Hh. }
  split_and!; [split|..].
  - intros u c Hu. rewrite Hj in Hu. destruct (Hc u c Hu) as [? Hall]. split; [done|]. intros k Hk.
    rewrite Hh by (by exists u, c). by apply Hall.
  - intros l. rewrite Hl. intros Hin'. destruct (Hli l Hin') as [Ho Hs]. destruct (Hlt l Hin') as [Ho' Hs'].
    split; [by apply Hid|]. intros k Hk. apply Hid; [by apply Hs'|by apply Hs].
  - intros u c. rewrite Hj. apply Hnd.
  - intros l. rewrite Hl. intros Hin'. destruct (Hlt l Hin') as [Ho Hs]. split; [by apply Hin|].
    intros k Hk. by apply Hin, Hs.
Qed.

(** Jobs of the transaction are not installed. *)
Lemma in_tr_not_installed st k kb : tr_ok st → in_tr st k → heap st !! k = Some kb → j_installed kb = false.
Proof.
  intros Hok Hk Hkb. destruct (in_tr_idle st k (proj1 Hok) Hk) as (kb' & ? & ? & _). congruence.
Qed.

(** From [st] to [st'] installed jobs may have been finished and queued, and nothing else. *)
Record shrinks st st' : Prop := {
  sh_tr : jobs st' = jobs st ∧ links st' = links st ∧ anchor_job st' = anchor_job st ∧
    irreversible st' = irreversible st;
  sh_heap k kb' : heap st' !! k = Some kb' → ∃ kb, heap st !! k = Some kb ∧
    j_unit kb' = j_unit kb ∧ j_id kb' = j_id kb ∧ j_installed kb' = j_installed kb ∧
    j_type kb' = j_type kb ∧ (j_in_run_queue kb = true → j_in_run_queue kb' = true) ∧ j_state kb' = j_state kb;
  sh_idle k kb : heap st !! k = Some kb → j_installed kb = false → heap st' !! k = Some kb;
  sh_slots u i : unit_job (mgr st') !! u = Some i → unit_job (mgr st) !! u = Some i;
  sh_ids id i : m_jobs (mgr st) !! id = Some i → m_jobs (mgr st') !! id = Some i ∨ heap st' !! i = None;
  sh_env : current_job_id (mgr st') = current_job_id (mgr st) ∧ load_state (mgr st') = load_state (mgr st);
  sh_back id i : m_jobs (mgr st') !! id = Some i → m_jobs (mgr st) !! id = Some i;
  sh_gone k kb : heap st !! k = Some kb → heap st' !! k = None → m_jobs (mgr st') !! j_id kb ≠ Some k;
}.

Lemma shrinks_refl st : shrinks st st.
Proof. split; try done; [|by left|]; intros k kb Hk; [exists kb; split_and!; done|congruence]. Qed.

Lemma shrinks_trans st1 st2 st3 : shrinks st1 st2 → shrinks st2 st3 → shrinks st1 st3.
Proof.
  intros [(A1 & A2 & A3 & A4) A5 A6 A7 A8 [A9 A10] A11 A12] [(B1 & B2 & B3 & B4) B5 B6 B7 B8 [B9 B10] B11 B12]. split.
  - split_and!; congruence.
  - intros k kb3 Hk. destruct (B5 k kb3 Hk) as (kb2 & Hk2 & ? & ? & ? & Ht2 & Hr2 & ?).
    destruct (A5 k kb2 Hk2) as (kb1 & Hk1 & ? & ? & ? & Ht1 & Hr1 & ?). exists kb1. split_and!; try congruence. auto.
  - eauto.
  - eauto.
  - intros id i Hi. destruct (A8 id i Hi) as [H2|H2].
    + by apply B8.
    + right. destruct (heap st3 !! i) as [b|] eqn:E3; [|done]. destruct (B5 i b E3) as (? & ? & _). congruence.
  - split; congruence.
  - auto.
  - intros k kb Hk Hn. destruct (heap st2 !! k) as [kb2|] eqn:E2.
    + destruct (A5 k kb2 E2) as (kb1 & ? & _ & Hid & _). assert (kb1 = kb) by congruence. subst kb1.
      rewrite <- Hid. by apply B12.
    + intros Hx. by apply (A12 k kb Hk E2), B11.
Qed.

Lemma shrinks_size st st' : shrinks st st' → (size (heap st') <= size (heap st))%nat.
Proof.
  intros H. rewrite <- !(size_dom (D := gset positive)). apply subseteq_size. intros k [kb Hk]%elem_of_dom.
  destruct (sh_heap _ _ H k kb Hk) as (? & ? & _). apply elem_of_dom. eauto.
Qed.

Lemma shrinks_few st st' : shrinks st st' → few st → few st'.
Proof. intros H. pose proof (shrinks_size _ _ H). unfold few. lia. Qed.

Lemma shrinks_tr_ok st st' : shrinks st st' → tr_ok st → tr_ok st'.
Proof.
  intros H Hok. destruct (sh_tr _ _ H) as (Hj & Hl & _). apply (tr_ok_frame st st'); try done.
  intros k Hk. destruct (in_tr_idle st k (proj1 Hok) Hk) as (kb & Hkb & Hi & _). rewrite Hkb.
  by apply (sh_idle _ _ H).
Qed.

(** Recording a call. *)
Lemma call_ok c st : sys_ok st → sys_ok (call c st) ∧ shrinks st (call c st).
Proof.
  intros [Ht [? ? ? ? ? ? ? ? ? ? ?]]. split; [split; [done|]|].
  - split; done.
  - split; try done; [|by left|]; intros k kb Hk; [exists kb; split_and!; done|]. cbn. congruence.
Qed.

(** An update of an installed job that keeps its unit, id and slot. *)
Record in_place (f : Job → Job) (jb : Job) : Prop := {
  ip_unit : j_unit (f jb) = j_unit jb;
  ip_id : j_id (f jb) = j_id jb;
  ip_installed : j_installed (f jb) = j_installed jb;
  ip_type : transaction_type (j_type (f jb));
  ip_nop : j_type (f jb) = JOB_NOP ↔ j_type jb = JOB_NOP;
}.

(** The manager may change its queues and count along with it. *)
Lemma update_ok f j jb st m' :
  sys_ok st → heap st !! j = Some jb → j_installed jb = true → in_place f jb →
  unit_job m' = unit_job (mgr st) → unit_nop_job m' = unit_nop_job (mgr st) → m_jobs m' = m_jobs (mgr st) →
  n_running_jobs m' = n_running_jobs (mgr st) - run_bit jb + run_bit (f jb) →
  rq_ok (run_queue m') →
  queue_ok j_in_run_queue (rq_jobs (run_queue m')) (alter f j (heap st)) →
  queue_ok j_in_dbus_queue (dbus_job_queue m') (alter f j (heap st)) →
  queue_ok j_in_gc_queue (gc_job_queue m') (alter f j (heap st)) →
  sys_ok (alter_job f j (set_mgr m' st)).
Proof.
  intros [Htr Hm] Hj Hinst [Hu Hid Hin Ht Hn] Huj Hnj Hmj Hnr Hrq Hq1 Hq2 Hq3.
  set (st' := alter_job f j (set_mgr m' st)). split.
  { apply (tr_ok_frame st); [done..| |done]. intros k Hk. unfold st'. rewrite heap_alter_job, decide_False; [done|].
    intros ->. pose proof (in_tr_not_installed st j jb Htr Hk Hj). congruence. }
  assert (Hh : ∀ k kb, heap st' !! k = Some kb → ∃ kb0, heap st !! k = Some kb0 ∧
    j_unit kb = j_unit kb0 ∧ j_id kb = j_id kb0 ∧ j_installed kb = j_installed kb0 ∧
    transaction_type (j_type kb) ∧ (j_type kb = JOB_NOP ↔ j_type kb0 = JOB_NOP) ∧ (k ≠ j → kb = kb0)).
  { intros k kb. unfold st'. rewrite heap_alter_job. st_simpl. case_decide as Hk.
    - subst k. rewrite Hj. intros [= <-]. by exists jb.
    - intros Hkb. exists kb. split_and!; try done. by apply (mo_types _ Hm k). }
  assert (Hh' : ∀ k kb0, heap st !! k = Some kb0 → ∃ kb, heap st' !! k = Some kb ∧
    j_unit kb = j_unit kb0 ∧ j_installed kb = j_installed kb0 ∧ (j_type kb = JOB_NOP ↔ j_type kb0 = JOB_NOP)).
  { intros k kb0 Hk. unfold st'. rewrite heap_alter_job. st_simpl. case_decide as Hkj; [subst k; rewrite Hj in Hk|eauto].
    injection Hk as <-. rewrite Hj. cbn. eauto. }
  split; try done.
  - intros k kb Hk. by destruct (Hh k kb Hk) as (_ & _ & _ & _ & _ & ? & _).
  - intros u i Hi. unfold st', alter_job in Hi. st_simpl_in Hi. rewrite Huj in Hi.
    destruct (mo_job _ Hm u i Hi) as (ib & Hib & ? & ? & ?).
    destruct (Hh' i ib Hib) as (ib' & ? & ? & ? & Hnop). exists ib'. split_and!; [done|congruence|congruence|tauto].
  - intros u i Hi. unfold st', alter_job in Hi. st_simpl_in Hi. rewrite Hnj in Hi.
    destruct (mo_nop _ Hm u i Hi) as (ib & Hib & ? & ? & ?).
    destruct (Hh' i ib Hib) as (ib' & ? & ? & ? & Hnop). exists ib'. split_and!; [done|congruence|congruence|tauto].
  - intros i ib Hi Hins. destruct (Hh i ib Hi) as (ib0 & Hi0 & Hu0 & _ & Hins0 & _ & Hnop & _).
    rewrite <- (mo_slot _ Hm i ib0 Hi0) by congruence. unfold slot, st', alter_job. st_simpl.
    by rewrite Hu0, Huj, Hnj, (bool_decide_ext _ _ Hnop).
  - intros i ib Hi Hins. destruct (Hh i ib Hi) as (ib0 & Hi0 & _ & Hid0 & Hins0 & _).
    unfold st', alter_job. st_simpl. rewrite Hid0, Hmj. apply (mo_id _ Hm i ib0 Hi0). congruence.
  - intros i ib Hi Hq. destruct (Hh i ib Hi) as (ib0 & Hi0 & _ & _ & Hins0 & _ & _ & Hne).
    destruct (decide (i = j)) as [->|Hij]; [congruence|]. rewrite (Hne Hij) in *. by apply (mo_queued _ Hm i ib0).
  - unfold st', alter_job. st_simpl. rewrite Hnr, (mo_running _ Hm), (count_running_alter _ _ _ _ Hj). lia.
Qed.

(** The queues of a job that stays on them. *)
Definition same_queues (f : Job → Job) : Prop := ∀ jb,
  j_in_run_queue (f jb) = j_in_run_queue jb ∧ j_in_dbus_queue (f jb) = j_in_dbus_queue jb ∧
  j_in_gc_queue (f jb) = j_in_gc_queue jb.

Lemma update_keeping_queues f j jb st n tr :
  sys_ok st → heap st !! j = Some jb → j_installed jb = true → in_place f jb → same_queues f →
  n = n_running_jobs (mgr st) - run_bit jb + run_bit (f jb) →
  sys_ok (alter_job f j (alter_mgr (λ m, set_trace tr (set_n_running_jobs n m)) st)).
Proof.
  intros Hok Hj Hi Hf Hq ->. pose proof (proj2 Hok) as Hm.
  apply (update_ok f j jb); try done; try apply (mo_rq _ Hm); apply queue_alter; try (intros ? _; apply Hq);
    [apply (mo_run _ Hm)|apply (mo_dbus _ Hm)|apply (mo_gc _ Hm)].
Qed.

Lemma alter_in_place f j jb st :
  sys_ok st → heap st !! j = Some jb → j_installed jb = true → in_place f jb → same_queues f →
  j_state (f jb) = j_state jb → sys_ok (alter_job f j st).
Proof.
  intros Hok Hj Hi Hf Hq Hs.
  assert (st = alter_mgr (λ m, set_trace (trace (mgr st)) (set_n_running_jobs (n_running_jobs (mgr st)) m)) st) as ->
    by (by destruct st as [? ? ? ? ? []]).
  apply (update_keeping_queues f j jb); try done. cbn. unfold run_bit, is_running. rewrite Hs, (ip_installed _ _ Hf). lia.
Qed.

(** An installed job that only changes its place on the queues. *)
Definition only_queues (f : Job → Job) : Prop := ∀ jb,
  j_unit (f jb) = j_unit jb ∧ j_id (f jb) = j_id jb ∧ j_installed (f jb) = j_installed jb ∧
  j_state (f jb) = j_state jb ∧ j_type (f jb) = j_type jb ∧ (j_in_run_queue jb = true → j_in_run_queue (f jb) = true).

Lemma requeue_ok f j jb st m' :
  sys_ok st → heap st !! j = Some jb → j_installed jb = true → only_queues f →
  unit_job m' = unit_job (mgr st) → unit_nop_job m' = unit_nop_job (mgr st) →
  m_jobs m' = m_jobs (mgr st) → n_running_jobs m' = n_running_jobs (mgr st) →
  current_job_id m' = current_job_id (mgr st) → load_state m' = load_state (mgr st) →
  rq_ok (run_queue m') →
  queue_ok j_in_run_queue (rq_jobs (run_queue m')) (alter f j (heap st)) →
  queue_ok j_in_dbus_queue (dbus_job_queue m') (alter f j (heap st)) →
  queue_ok j_in_gc_queue (gc_job_queue m') (alter f j (heap st)) →
  sys_ok (alter_job f j (set_mgr m' st)) ∧ shrinks st (alter_job f j (set_mgr m' st)).
Proof.
  intros Hok Hj Hinst Hf Huj Hnj Hmj Hnr Hci Hls Hrq Hq1 Hq2 Hq3. destruct (Hf jb) as (Hu & Hid & Hin & Hs & Ht & Hr). split.
  - apply (update_ok f j jb); try done.
    + split; try done; rewrite Ht; [by apply (mo_types _ (proj2 Hok) j)|done].
    + unfold run_bit, is_running. rewrite Hs, Hin. lia.
  - split; try done.
    + intros k kb. rewrite heap_alter_job. st_simpl. case_decide as Hk; [subst k; rewrite Hj; intros [= <-]|]; eauto 12.
    + intros k kb Hk Hni. rewrite heap_alter_job, decide_False; [done|]. intros ->. congruence.
    + intros u i. unfold alter_job. st_simpl. by rewrite Huj.
    + intros id i. unfold alter_job. st_simpl. rewrite Hmj. by left.
    + intros id i. unfold alter_job. st_simpl. by rewrite Hmj.
    + intros k kb Hk. rewrite heap_alter_job. st_simpl. rewrite Hk. by case_decide.
Qed.

Lemma add_to_dbus_queue_spec j jb st :
  sys_ok st → heap st !! j = Some jb → j_installed jb = true →
  ∃ st', job_add_to_dbus_queue j st = Some st' ∧ sys_ok st' ∧ shrinks st st'.
Proof.
  intros Hok Hj Hi. unfold job_add_to_dbus_queue. rewrite Hj. cbn [mbind option_bind].
  rewrite assert_bind by done. destruct (j_in_dbus_queue jb) eqn:Ef.
  { eexists. split_and!; [done|done|apply shrinks_refl]. }
  eexists. split; [done|]. pose proof Hok as [_ Hm]. unfold alter_mgr.
  apply (requeue_ok _ _ jb); try done.
  - apply (mo_rq _ Hm).
  - apply queue_alter; [done|apply (mo_run _ Hm)].
  - apply (queue_push _ (dbus_job_queue (mgr st)) _ _ _ _ jb); [done..|apply (mo_dbus _ Hm)].
  - apply queue_alter; [done|apply (mo_gc _ Hm)].
Qed.

(** The run queue has room for every job. *)
Lemma run_queue_room st : sys_ok st → few st → len (rq_jobs (run_queue (mgr st))) < PRIOQ_MAX.
Proof.
  intros [_ Hm] Hfew. destruct (mo_run _ Hm) as [Hnd Hq]. unfold few, len in *.
  enough (length (rq_jobs (run_queue (mgr st))) <= size (heap st))%nat by lia.
  rewrite <- (size_dom (D := gset positive)), <- (size_list_to_set (C := gset positive)) by done.
  apply subseteq_size. intros i Hin%elem_of_list_to_set. apply Hq in Hin as (ib & ? & _).
  apply elem_of_dom. eauto.
Qed.

Lemma add_to_run_queue_spec j jb st :
  sys_ok st → few st → heap st !! j = Some jb → j_installed jb = true →
  ∃ st', job_add_to_run_queue j st = Some st' ∧ sys_ok st' ∧ shrinks st st'.
Proof.
  intros Hok Hfew Hj Hi. unfold job_add_to_run_queue. rewrite Hj. cbn [mbind option_bind].
  rewrite assert_bind by done. destruct (j_in_run_queue jb) eqn:Ef.
  { eexists. split_and!; [done|done|apply shrinks_refl]. }
  pose proof Hok as [_ Hm]. pose proof (mo_run _ Hm) as [Hnd Hq].
  assert (Hnin : j ∉ rq_jobs (run_queue (mgr st))) by (rewrite Hq; intros (? & ? & ?); congruence).
  destruct (rq_put_ok (run_queue (mgr st)) j (rq_alloc_ok j)) as (r & q & Hput & Hrq & Hcase).
  { apply (mo_rq _ Hm). } { done. }
  { by apply run_queue_room. }
  rewrite Hput. cbn [mbind option_bind]. eexists. split; [done|].
  destruct Hcase as [[-> Hp]|(-> & _ & ->)].
  - cbn [Z.ltb Z.compare]. unfold alter_mgr at 1.
    destruct (requeue_ok (set_j_in_run_queue true) j jb st (set_run_queue q (mgr st))) as [Hok' Hsh]; try done.
    + apply (queue_push _ (rq_jobs (run_queue (mgr st))) _ _ _ _ jb); [done..|apply (mo_run _ Hm)].
    + apply queue_alter; [done|apply (mo_dbus _ Hm)].
    + apply queue_alter; [done|apply (mo_gc _ Hm)].
    + destruct (call_ok manager_trigger_run_queue _ Hok') as [? ?]. split; [done|by eapply shrinks_trans].
  - assert (alter_mgr (set_run_queue (run_queue (mgr st))) st = st) as -> by (by destruct st as [? ? ? ? ? []]).
    by apply call_ok.
Qed.

Lemma blocks_defined test j jb d st :
  sys_ok st → heap st !! j = Some jb → d = UNIT_ATOM_BEFORE ∨ d = UNIT_ATOM_AFTER →
  is_Some (blocks test j jb d st).
Proof.
  intros [_ Hm] Hj Hd. unfold blocks.
  match goal with |- context [find_first ?p ?xs] => destruct (find_first_defined p xs) as [r ->] end; [|eauto].
  intros v _. destruct (installed_job st v) as [o|] eqn:Eo; [|eauto].
  destruct (mo_job _ Hm v o Eo) as (ob & Hob & _). rewrite Hob. cbn [mbind option_bind].
  destruct (job_compare_defined (j_type jb, j_ignore_order jb) (j_type ob, j_ignore_order ob) d) as [c ->];
    [by apply (mo_types _ Hm j)|by apply (mo_types _ Hm o)|done|]. eauto.
Qed.

Lemma may_gc_defined j jb st : sys_ok st → heap st !! j = Some jb → is_Some (job_may_gc j st).
Proof.
  intros Hok Hj. unfold job_may_gc. rewrite Hj. cbn [mbind option_bind].
  destruct (negb _); [eauto|]. destruct (bus_referenced j); [eauto|]. case_bool_decide; [eauto|].
  destruct (blocks_defined (λ c, c <? 0) j jb UNIT_ATOM_BEFORE st) as [a ->]; [done..|by left|].
  cbn [mbind option_bind]. destruct a; [eauto|].
  destruct (blocks_defined (λ c, c <? 0) j jb UNIT_ATOM_AFTER st) as [b ->]; [done..|by right|].
  cbn [mbind option_bind]. eauto.
Qed.

Lemma add_to_gc_queue_spec j jb st :
  sys_ok st → heap st !! j = Some jb → j_installed jb = true →
  ∃ st', job_add_to_gc_queue j st = Some st' ∧ sys_ok st' ∧ shrinks st st'.
Proof.
  intros Hok Hj Hi. unfold job_add_to_gc_queue. rewrite Hj. cbn [mbind option_bind].
  destruct (j_in_gc_queue jb) eqn:Ef.
  { eexists. split_and!; [done|done|apply shrinks_refl]. }
  destruct (may_gc_defined j jb st Hok Hj) as [g ->]. cbn [mbind option_bind]. destruct g; cbn [negb].
  2:{ eexists. split_and!; [done|done|apply shrinks_refl]. }
  eexists. split; [done|]. pose proof Hok as [_ Hm]. unfold alter_mgr.
  apply (requeue_ok _ _ jb); try done.
  - apply (mo_rq _ Hm).
  - apply queue_alter; [done|apply (mo_run _ Hm)].
  - apply queue_alter; [done|apply (mo_dbus _ Hm)].
  - apply (queue_push _ (gc_job_queue (mgr st)) _ _ _ _ jb); [done..|apply (mo_gc _ Hm)].
Qed.

(** Installed jobs stay installed while other jobs are finished or not at all. *)
Lemma shrinks_installed st st' j jb :
  shrinks st st' → heap st' !! j = Some jb → j_installed jb = true →
  ∃ jb0, heap st !! j = Some jb0 ∧ j_installed jb0 = true.
Proof. intros H Hj Hi. destruct (sh_heap _ _ H j jb Hj) as (jb0 & ? & _ & _ & ? & _). exists jb0. split; congruence. Qed.

(** The queue operations do not free anything. *)
Lemma add_to_run_queue_keeps j st st' k :
  job_add_to_run_queue j st = Some st' →
  j_installed <$> heap st' !! k = j_installed <$> heap st !! k ∧ unit_job (mgr st') = unit_job (mgr st).
Proof.
  unfold job_add_to_run_queue. destruct (heap st !! j) as [jb|]; [|done]. cbn [mbind option_bind].
  unfold assert_. destruct (j_installed jb); [|done]. cbn [mbind option_bind].
  destruct (j_in_run_queue jb); [by intros [= <-]|].
  destruct (rq_put _ j _) as [[r q]|]; [|done]. cbn [mbind option_bind]. intros [= <-].
  destruct (r <? 0); [done|]. split; [|done].
  match goal with |- context [heap (call _ ?s)] => change (heap (call manager_trigger_run_queue s)) with (heap s) end.
  rewrite heap_alter_job. unfold alter_mgr, set_mgr. cbn [heap]. case_decide; [|done]. by destruct (heap st !! k).
Qed.

Lemma requeue_jobs_spec us st :
  sys_ok st → few st → ∃ st', requeue_jobs us st = Some st' ∧ sys_ok st' ∧ shrinks st st'.
Proof.
  revert st. induction us as [|v us IH]; intros st Hok Hfew; cbn [requeue_jobs].
  - eexists. split_and!; [done|done|apply shrinks_refl].
  - destruct (installed_job st v) as [o|] eqn:Eo; [|by apply IH].
    destruct (mo_job _ (proj2 Hok) v o Eo) as (ob & Hob & Hoi & _).
    destruct (add_to_run_queue_spec o ob st Hok Hfew Hob Hoi) as (st1 & H1 & Hok1 & Hsh1).
    pose proof (proj1 (add_to_run_queue_keeps o st st1 o H1)) as Hk. rewrite H1. cbn [mbind option_bind].
    rewrite Hob in Hk. destruct (heap st1 !! o) as [ob1|] eqn:Eob; [|done]. cbn in Hk.
    destruct (add_to_gc_queue_spec o ob1 st1 Hok1 Eob) as (st2 & -> & Hok2 & Hsh2); [congruence|].
    cbn [mbind option_bind]. pose proof (shrinks_trans _ _ _ Hsh1 Hsh2) as Hsh.
    destruct (IH st2 Hok2 (shrinks_few _ _ Hsh Hfew)) as (st3 & -> & Hok3 & Hsh3).
    exists st3. split_and!; [done|done|by eapply shrinks_trans].
Qed.

Lemma finish_tail_spec u st :
  sys_ok st → few st → ∃ st', finish_tail u st = Some st' ∧ sys_ok st' ∧ shrinks st st'.
Proof.
  intros Hok Hfew. unfold finish_tail.
  destruct (requeue_jobs_spec (unit_dependencies u UNIT_ATOM_AFTER ++ unit_dependencies u UNIT_ATOM_BEFORE) st)
    as (st1 & -> & Hok1 & Hsh1); [done..|]. cbn [mbind option_bind]. eexists. split; [done|].
  destruct (call_ok (unit_submit_queues u) st1 Hok1) as [Hok2 Hsh2].
  destruct (call_ok manager_check_finished _ Hok2) as [Hok3 Hsh3]. split; [done|].
  eapply shrinks_trans; [|exact Hsh3]. by eapply shrinks_trans.
Qed.

(** ** Removing an installed job *)

Lemma set_waiting_spec j jb st :
  mgr_ok st → heap st !! j = Some jb → j_installed jb = true →
  ∃ tr, job_set_state j JOB_WAITING st =
    Some (alter_job (set_j_state JOB_WAITING) j
      (alter_mgr (λ m, set_trace tr (set_n_running_jobs (n_running_jobs m - run_bit jb) m)) st)).
Proof.
  intros Hm Hj Hi. unfold job_set_state. rewrite Hj. cbn [mbind option_bind].
  case_bool_decide as Hs.
  - exists (trace (mgr st)). f_equal.
    assert (run_bit jb = 0) as -> by (unfold run_bit, is_running; by rewrite Hi, Hs).
    destruct st as [h ls js a ir m]. unfold alter_job, alter_mgr. st_simpl. st_simpl_in Hj. f_equal.
    + symmetry. apply map_eq. intros k. destruct (decide (k = j)) as [->|]; [|by rewrite lookup_alter_ne].
      rewrite lookup_alter_eq, Hj. cbn. f_equal. destruct jb; cbn in *. by subst.
    + destruct m. unfold set_trace, set_n_running_jobs. cbn. f_equal. lia.
  - assert (Hr : run_bit jb = 1).
    { unfold run_bit, is_running. rewrite Hi. destruct (j_state jb); [done|]. by rewrite bool_decide_eq_true_2. }
    rewrite Hi. cbn [negb]. pose proof (run_bit_le (heap st) j jb Hj) as Hle.
    rewrite <- (mo_running _ Hm) in Hle.
    rewrite assert_bind by (unfold alter_job; st_simpl; lia). rewrite Hr.
    destruct (n_running_jobs _ <=? 0); eexists; f_equal; destruct st as [h ls js a ir []]; reflexivity.
Qed.

(** The manager without the installed job [j]. *)
Definition without_job (j : positive) (jb : Job) (q : rq) (dq gq : list positive) (tr : list Call) (m : Manager)
    : Manager :=
  MkManager
    (if bool_decide (j_type jb = JOB_NOP) then unit_job m else delete (j_unit jb) (unit_job m))
    (if bool_decide (j_type jb = JOB_NOP) then delete (j_unit jb) (unit_nop_job m) else unit_nop_job m)
    (delete (j_id jb) (m_jobs m)) (current_job_id m) (n_installed_jobs m)
    (n_running_jobs m - run_bit jb) (n_failed_jobs m) q dq gq (load_state m) tr.

Lemma delete_alter_id {A} (f : A → A) (j : positive) (h : gmap positive A) : delete j (alter f j h) = delete j h.
Proof.
  apply map_eq. intros k. destruct (decide (k = j)) as [->|];
    [by rewrite !lookup_delete_eq|by rewrite !lookup_delete_ne, lookup_alter_ne].
Qed.

Lemma uninstall_spec j jb st :
  mgr_ok st → heap st !! j = Some jb → j_installed jb = true →
  ∃ tr, job_uninstall j st =
    Some (alter_job (λ jb, set_j_installed false (set_j_state JOB_WAITING jb)) j
      (set_mgr (without_job j jb (run_queue (mgr st)) (dbus_job_queue (mgr st)) (gc_job_queue (mgr st)) tr
                  (mgr st)) st)).
Proof.
  intros Hm Hj Hi. unfold job_uninstall. rewrite Hj. cbn [mbind option_bind]. rewrite assert_bind by done.
  destruct (set_waiting_spec j jb st Hm Hj Hi) as [tr ->]. cbn [mbind option_bind].
  pose proof (mo_slot _ Hm j jb Hj Hi) as Hslot. pose proof (mo_id _ Hm j jb Hj Hi) as Hid.
  rewrite assert_bind by (by apply bool_decide_eq_true).
  eexists. f_equal. unfold remove_id, set_slot, without_job, call, alter_job, alter_mgr. clear Hslot Hm Hj.
  destruct st as [h ls js a ir [m1 m2 m3 m4 m5 m6 m7 m8 m9 m10 m11 m12]]. cbn [mgr m_jobs] in Hid.
  destruct (bool_decide (j_type jb = JOB_NOP));
    cbv [set_heap set_mgr set_trace set_unit_job set_unit_nop_job set_m_jobs set_n_running_jobs heap links jobs
         anchor_job irreversible mgr unit_job unit_nop_job m_jobs current_job_id n_installed_jobs n_running_jobs
         n_failed_jobs run_queue dbus_job_queue gc_job_queue load_state trace];
    rewrite (bool_decide_eq_true_2 _ Hid), alter_alter_eq; reflexivity.
Qed.

(** Taking a job off a queue if its flag says it is on it. *)
Lemma filter_queue (flag : Job → bool) (q : list positive) (h : gmap positive Job) j jb :
  queue_ok flag q h → h !! j = Some jb →
  queue_ok flag (if flag jb then filter (.≠ j) q else q) (delete j h).
Proof.
  intros Hq Hj. pose proof Hq as [Hnd Hel]. apply (queue_delete flag q); [| |done].
  - destruct (flag jb); [by apply NoDup_filter|done].
  - intros i. destruct (flag jb) eqn:Ef; [rewrite list_elem_of_filter; tauto|].
    split; [|tauto]. intros Hi. split; [done|]. intros ->. apply Hel in Hi as (ib & ? & ?). congruence.
Qed.

(** Removing the installed job [j] from the heap, its slot, its id and the queues. *)
Definition removed (j : positive) (jb : Job) (q : rq) (dq gq : list positive) (tr : list Call) st : State :=
  set_heap (delete j (heap st)) (set_mgr (without_job j jb q dq gq tr (mgr st)) st).

Lemma remove_shrinks j jb q dq gq tr st :
  mgr_ok st → heap st !! j = Some jb → j_installed jb = true → shrinks st (removed j jb q dq gq tr st).
Proof.
  intros Hm Hj Hi. split; unfold removed; st_simpl; cbn [unit_job m_jobs current_job_id load_state without_job]; try done.
  - intros k kb' [_ Hk]%lookup_delete_Some. exists kb'. split_and!; done.
  - intros k kb Hk Hki. rewrite lookup_delete_ne; [done|]. intros ->. congruence.
  - intros u i. case_bool_decide; [done|]. by intros [_ ?]%lookup_delete_Some.
  - intros id i Hid. destruct (decide (id = j_id jb)) as [->|Hne].
    + right. rewrite (mo_id _ Hm j jb Hj Hi) in Hid. injection Hid as <-. apply lookup_delete_eq.
    + left. by rewrite lookup_delete_ne.
  - by intros id i [_ ?]%lookup_delete_Some.
  - intros k kb Hk Hn. apply lookup_delete_None in Hn as [<-|?]; [|congruence].
    assert (kb = jb) by congruence. subst. by rewrite lookup_delete_eq.
Qed.

Lemma remove_ok j jb q dq gq tr st :
  sys_ok st → heap st !! j = Some jb → j_installed jb = true →
  rq_ok q → queue_ok j_in_run_queue (rq_jobs q) (delete j (heap st)) →
  queue_ok j_in_dbus_queue dq (delete j (heap st)) → queue_ok j_in_gc_queue gq (delete j (heap st)) →
  sys_ok (removed j jb q dq gq tr st).
Proof.
  intros [Htr Hm] Hj Hi Hrq Hq1 Hq2 Hq3. split; [by eapply shrinks_tr_ok, Htr; apply remove_shrinks|].
  pose proof (mo_slot _ Hm j jb Hj Hi) as Hslot. pose proof (mo_id _ Hm j jb Hj Hi) as Hid.
  split; unfold removed; st_simpl; cbn [unit_job unit_nop_job m_jobs n_running_jobs run_queue
    dbus_job_queue gc_job_queue without_job]; try done.
  - intros k kb [_ Hk]%lookup_delete_Some. by apply (mo_types _ Hm k).
  - intros u i Hu. assert (unit_job (mgr st) !! u = Some i ∧ (j_type jb = JOB_NOP ∨ u ≠ j_unit jb)) as [Hu' Hc].
    { case_bool_decide; [by auto|]. apply lookup_delete_Some in Hu as [? ?]. auto. }
    destruct (mo_job _ Hm u i Hu') as (ib & Hib & ? & ? & ?). exists ib. split; [|done].
    rewrite lookup_delete_ne; [done|]. intros ->. destruct Hc; congruence.
  - intros u i Hu. assert (unit_nop_job (mgr st) !! u = Some i ∧ (j_type jb ≠ JOB_NOP ∨ u ≠ j_unit jb)) as [Hu' Hc].
    { case_bool_decide; [|by auto]. apply lookup_delete_Some in Hu as [? ?]. auto. }
    destruct (mo_nop _ Hm u i Hu') as (ib & Hib & ? & ? & ?). exists ib. split; [|done].
    rewrite lookup_delete_ne; [done|]. intros ->. destruct Hc; congruence.
  - intros i ib [Hne Hib]%lookup_delete_Some Hii. pose proof (mo_slot _ Hm i ib Hib Hii) as Hsi.
    unfold slot in *. st_simpl. cbn [unit_job unit_nop_job without_job].
    destruct (decide (j_type ib = JOB_NOP)) as [Ei|Ei]; [rewrite !(bool_decide_eq_true_2 _ Ei) in *|rewrite !(bool_decide_eq_false_2 _ Ei) in *];
      (destruct (decide (j_type jb = JOB_NOP)) as [Ej|Ej]; [rewrite !(bool_decide_eq_true_2 _ Ej) in *|rewrite !(bool_decide_eq_false_2 _ Ej) in *]); try done;
      (rewrite lookup_delete_ne; [done|intros Hx; congruence]).
  - intros i ib [Hne Hib]%lookup_delete_Some Hii. pose proof (mo_id _ Hm i ib Hib Hii) as Hidi.
    rewrite lookup_delete_ne; [done|]. intros Hx. congruence.
  - intros i ib [_ Hib]%lookup_delete_Some. by apply (mo_queued _ Hm i).
  - rewrite (mo_running _ Hm), (count_running_delete _ _ _ Hj). done.
Qed.

(** [job_free] of a job that is on no list takes it off the queues. *)
Lemma free_form j jb st q :
  heap st !! j = Some jb → job_unlinked st j jb = true →
  (if j_in_run_queue jb then rq_remove (run_queue (mgr st)) j else Some (run_queue (mgr st))) = Some q →
  job_free j st = Some (set_heap (delete j (heap st)) (set_mgr
    (MkManager (unit_job (mgr st)) (unit_nop_job (mgr st)) (m_jobs (mgr st)) (current_job_id (mgr st))
      (n_installed_jobs (mgr st)) (n_running_jobs (mgr st)) (n_failed_jobs (mgr st)) q
      (if j_in_dbus_queue jb then filter (.≠ j) (dbus_job_queue (mgr st)) else dbus_job_queue (mgr st))
      (if j_in_gc_queue jb then filter (.≠ j) (gc_job_queue (mgr st)) else gc_job_queue (mgr st))
      (load_state (mgr st)) (trace (mgr st))) st)).
Proof.
  intros Hj Hun Hrq. unfold job_free, job_unlink. rewrite Hj. cbn [mbind option_bind].
  rewrite Hun, !assert_bind by done. clear Hun Hj. destruct st as [h ls js a ir [m1 m2 m3 m4 m5 m6 m7 m8 m9 m10 m11 m12]].
  cbn [mgr run_queue] in Hrq |- *.
  destruct (j_in_run_queue jb); [rewrite Hrq|injection Hrq as ->]; cbn [mbind option_bind];
    destruct (j_in_dbus_queue jb), (j_in_gc_queue jb);
    cbv [alter_job alter_mgr set_heap set_mgr set_run_queue set_dbus_job_queue set_gc_job_queue heap links jobs
         anchor_job irreversible mgr unit_job unit_nop_job m_jobs current_job_id n_installed_jobs n_running_jobs
         n_failed_jobs run_queue dbus_job_queue gc_job_queue load_state trace];
    rewrite ?delete_alter_id; reflexivity.
Qed.

Lemma remove_job_spec j jb st :
  sys_ok st → heap st !! j = Some jb → j_installed jb = true →
  ∃ st1 st', job_uninstall j st = Some st1 ∧ job_free j st1 = Some st' ∧ sys_ok st' ∧ shrinks st st' ∧
    heap st' = delete j (heap st).
Proof.
  intros [Htr Hm] Hj Hi. destruct (uninstall_spec j jb st Hm Hj Hi) as [tr Hun].
  set (f := λ jb, set_j_installed false (set_j_state JOB_WAITING jb)) in *.
  set (st1 := alter_job f j (set_mgr _ st)) in *.
  (* the run queue without the job *)
  assert (∃ q, (if j_in_run_queue jb then rq_remove (run_queue (mgr st)) j else Some (run_queue (mgr st))) = Some q ∧
    rq_ok q ∧ queue_ok j_in_run_queue (rq_jobs q) (delete j (heap st))) as (q & Hrq & Hrqok & Hqok).
  { pose proof (mo_run _ Hm) as [Hnd Hel]. destruct (j_in_run_queue jb) eqn:Ef.
    - destruct (rq_remove_ok (run_queue (mgr st)) j) as (q & Hq & ? & Hp); [apply (mo_rq _ Hm)|apply Hel; eauto|].
      exists q. split_and!; [done..|]. apply (queue_delete _ (rq_jobs (run_queue (mgr st)))); [| |done].
      + rewrite Hp in Hnd. by apply NoDup_cons in Hnd as [_ ?].
      + intros i. rewrite Hp, elem_of_cons. rewrite Hp in Hnd. apply NoDup_cons in Hnd as [Hn _]. naive_solver.
    - exists (run_queue (mgr st)). split_and!; [done|apply (mo_rq _ Hm)|].
      apply (queue_delete _ (rq_jobs (run_queue (mgr st)))); [done| |done]. intros i. split; [|tauto].
      intros Hin. split; [done|]. intros ->. apply Hel in Hin as (ib & ? & ?). congruence. }
  set (dq := if j_in_dbus_queue jb then filter (.≠ j) (dbus_job_queue (mgr st)) else dbus_job_queue (mgr st)).
  set (gq := if j_in_gc_queue jb then filter (.≠ j) (gc_job_queue (mgr st)) else gc_job_queue (mgr st)).
  set (st' := removed j jb q dq gq tr st).
  assert (Hnt : ¬ in_tr st j).
  { intros Hin. pose proof (in_tr_not_installed st j jb Htr Hin Hj). congruence. }
  assert (Hfree : job_free j st1 = Some st').
  { assert (Hj1 : heap st1 !! j = Some (f jb)).
    { unfold st1. rewrite heap_alter_job, decide_True by done. st_simpl. by rewrite Hj. }
    assert (Hun1 : job_unlinked st1 j (f jb) = true).
    { unfold job_unlinked, on_chain, subject_list, object_list. cbn [j_installed f set_j_installed negb andb].
      assert (∀ ls, ls = links st → filter (λ l, subject l = Some j) ls = [] ∧
        filter (λ l, object l = j) ls = []) as Hnil.
      { intros ls ->. split; apply filter_none; intros l Hl Hx; apply Hnt;
          destruct (proj2 (proj2 Htr) l Hl) as [Ho Hs]; [by apply Hs|by rewrite <- Hx]. }
      destruct (Hnil (links st1) eq_refl) as [-> ->].
      destruct (jobs st1 !! _) as [c|] eqn:Ec; [|done].
      rewrite bool_decide_eq_false_2; [done|]. intros Hc. apply Hnt. by exists (j_unit (f jb)), c. }
    rewrite (free_form j (f jb) st1 q Hj1 Hun1 Hrq). unfold st', st1, removed, alter_job. f_equal.
    st_simpl. rewrite delete_alter_id. reflexivity. }
  exists st1, st'. split_and!; [done|done| |by apply remove_shrinks|done].
  apply remove_ok; [by split|done|done|done|done| |].
  - apply filter_queue; [apply (mo_dbus _ Hm)|done].
  - apply filter_queue; [apply (mo_gc _ Hm)|done].
Qed.

End JobOps.
