(* ===== verification/JobFinish.v ===== *)
(** * Finishing jobs (src/core/job.c)

    [job_finish_and_invalidate] terminates without an assertion failure, takes the job and
    exactly the jobs that depend on its success out of the system, and gives the jobs that
    are ordered against it another look. *)

From S2P Require Import Prelude JobType Prioq RunQueue JobData TrDelete TrFix JobOps.

Section JobFinish.
Context {RQ : RunQueue} {E : Env}.
Implicit Types (st : State) (j k u i o v : positive) (t : JobType).

(** ** Lemmas *)

Lemma n_failed_ok n st :
  sys_ok st → sys_ok (alter_mgr (set_n_failed_jobs n) st) ∧ shrinks st (alter_mgr (set_n_failed_jobs n) st).
Proof.
  intros [Ht [? ? ? ? ? ? ? ? ? ? ?]]. split; [split; [done|]|].
  - split; done.
  - split; try done; [|by left|]; intros k kb Hk; [exists kb; split_and!; done|]. cbn. congruence.
Qed.

Lemma set_result_ok r j jb st :
  sys_ok st → heap st !! j = Some jb → j_installed jb = true →
  sys_ok (alter_job (set_j_result r) j st) ∧ shrinks st (alter_job (set_j_result r) j st) ∧
  heap (alter_job (set_j_result r) j st) !! j = Some (set_j_result r jb).
Proof.
  intros Hok Hj Hi. split_and!.
  - apply (alter_in_place _ _ jb); try done. split; try done. exact (mo_types _ (proj2 Hok) j jb Hj).
  - split; try done; [| |by left|].
    + intros k kb'. rewrite heap_alter_job. case_decide as Hk; [subst k; rewrite Hj; intros [= <-]|]; eauto 12.
    + intros k kb Hk Hki. rewrite heap_alter_job, decide_False; [done|]. intros ->. congruence.
    + intros k kb Hk. rewrite heap_alter_job, Hk. by case_decide.
  - by rewrite heap_alter_job, decide_True, Hj.
Qed.

(** The jobs that depend on the success of a unit, by the atoms in question. *)
Definition waits_for (atoms : list UnitDependencyAtom) st u o : Prop :=
  ∃ ob, heap st !! o = Some ob ∧ j_installed ob = true ∧ j_type ob ∈ [JOB_START; JOB_VERIFY_ACTIVE] ∧
    j_unit ob ∈ atoms ≫= unit_dependencies u.

(** One failed job fails the next. *)
Definition fails st k o : Prop :=
  ∃ kb, heap st !! k = Some kb ∧ waits_for [UNIT_ATOM_PROPAGATE_START_FAILURE] st (j_unit kb) o.

(** What happens to the jobs from [st] to [st'], apart from [j]: whoever has gone has been
    failed by [start] or by another job that has gone, and nobody who has gone leaves a job
    behind that waits for it. *)
Record cascade (start : positive → Prop) st st' : Prop := {
  ca_ok : sys_ok st';
  ca_shrinks : shrinks st st';
  ca_sound k : is_Some (heap st !! k) → heap st' !! k = None →
    ∃ o, start o ∧ rtc (fails st) o k;
  ca_closed k kb o : heap st !! k = Some kb → heap st' !! k = None →
    waits_for [UNIT_ATOM_PROPAGATE_START_FAILURE] st (j_unit kb) o → heap st' !! o = None;
}.

Lemma waits_for_shrinks atoms st st' u o : shrinks st st' → waits_for atoms st' u o → waits_for atoms st u o.
Proof.
  intros H (ob' & Ho & ? & ? & ?). destruct (sh_heap _ _ H o ob' Ho) as (ob & ? & ? & ? & ? & ? & ?).
  exists ob. split_and!; congruence.
Qed.

Lemma waits_for_kept atoms st st' u o :
  shrinks st st' → waits_for atoms st u o → heap st' !! o = None ∨ waits_for atoms st' u o.
Proof.
  intros H (ob & Ho & ? & ? & ?). destruct (heap st' !! o) as [ob'|] eqn:Eo; [right|by left].
  destruct (sh_heap _ _ H o ob' Eo) as (ob0 & ? & ? & ? & ? & ? & ?). exists ob'.
  assert (ob0 = ob) by congruence. subst. split_and!; congruence.
Qed.

Lemma fails_shrinks st st' k o : shrinks st st' → fails st' k o → fails st k o.
Proof.
  intros H (kb' & Hk & Hw). destruct (sh_heap _ _ H k kb' Hk) as (kb & ? & Hu & _).
  exists kb. split; [done|]. rewrite <- Hu. by eapply waits_for_shrinks.
Qed.

Lemma shrinks_gone st st' k : shrinks st st' → heap st !! k = None → heap st' !! k = None.
Proof.
  intros H Hk. destruct (heap st' !! k) as [kb|] eqn:E'; [|done].
  destruct (sh_heap _ _ H k kb E') as (? & ? & _). congruence.
Qed.

Lemma cascade_refl st : sys_ok st → cascade (λ _, False) st st.
Proof. intros Hok. split; [done|apply shrinks_refl| |]; [intros k [? ?] ?|intros k kb o ? ?]; congruence. Qed.

Lemma cascade_quiet P st st' :
  sys_ok st' → shrinks st st' → (∀ k, is_Some (heap st !! k) → is_Some (heap st' !! k)) → cascade P st st'.
Proof.
  intros Hok Hsh Hk. split; [done..| |].
  - intros k Hs Hn. destruct (Hk k Hs). congruence.
  - intros k kb o Hs Hn. destruct (Hk k); [eauto|congruence].
Qed.

Lemma cascade_weaken (P Q : positive → Prop) st st' :
  (∀ o, P o → Q o) → cascade P st st' → cascade Q st st'.
Proof. intros HPQ [? ? Hs ?]. split; [done..| |done]. intros k ? ?. destruct (Hs k) as (o & ? & ?); eauto. Qed.

Lemma cascade_trans P Q st1 st2 st3 :
  cascade P st1 st2 → cascade Q st2 st3 → cascade (λ o, P o ∨ Q o) st1 st3.
Proof.
  intros [A1 A2 A3 A4] [B1 B2 B3 B4]. pose proof (shrinks_trans _ _ _ A2 B2) as Hsh. split; [done..| |].
  - intros k Hk Hn. destruct (heap st2 !! k) as [kb|] eqn:E2.
    + destruct (B3 k) as (o & ? & Hr); [by rewrite E2|done|]. exists o. split; [by right|].
      eapply (rtc_subrel (fails st2)); [|done]. intros ? ?. by apply fails_shrinks.
    + destruct (A3 k Hk E2) as (o & ? & ?). exists o. split; [by left|done].
  - intros k kb o Hk Hn Hw. destruct (heap st2 !! k) as [kb2|] eqn:E2.
    + destruct (sh_heap _ _ A2 k kb2 E2) as (kb' & ? & Hu & _). assert (kb' = kb) by congruence. subst kb'.
      destruct (waits_for_kept _ _ _ _ _ A2 Hw) as [?|Hw2]; [by apply (shrinks_gone st2)|].
      rewrite <- Hu in Hw2. by apply (B4 k kb2).
    + apply (shrinks_gone st2); [done|]. by apply (A4 k kb).
Qed.

(** ** The loop over the depending units *)

Definition rec_ok (A : State → positive → Prop) (n : nat) (rec : positive → State → option State) : Prop := ∀ o ob st,
  sys_ok st → few st → A st o → heap st !! o = Some ob → j_installed ob = true → j_type ob ∈ [JOB_START; JOB_VERIFY_ACTIVE] →
  (size (heap st) <= n)%nat → ∃ st', rec o st = Some st' ∧ heap st' !! o = None ∧ cascade (.= o) st st'.

(** A job of this kind sits in the slot of its unit. *)
Lemma starting_slot o ob st :
  sys_ok st → heap st !! o = Some ob → j_installed ob = true → j_type ob ∈ [JOB_START; JOB_VERIFY_ACTIVE] →
  installed_job st (j_unit ob) = Some o.
Proof.
  intros [_ Hm] Ho Hi Ht. pose proof (mo_slot _ Hm o ob Ho Hi) as Hs. unfold slot in Hs.
  rewrite bool_decide_eq_false_2 in Hs; [done|]. intros Hx. rewrite Hx in Ht. set_solver.
Qed.

Lemma fail_dependencies_spec (A : State → positive → Prop) n rec vs st :
  (∀ st st' o, shrinks st st' → A st o → A st' o) → rec_ok A n rec →
  (∀ o ob, heap st !! o = Some ob → j_installed ob = true → j_type ob ∈ [JOB_START; JOB_VERIFY_ACTIVE] → j_unit ob ∈ vs → A st o) →
  sys_ok st → few st → (size (heap st) <= n)%nat →
  ∃ st', fail_dependencies rec vs st = Some st' ∧
    cascade (λ o, ∃ ob, heap st !! o = Some ob ∧ j_installed ob = true ∧
                        j_type ob ∈ [JOB_START; JOB_VERIFY_ACTIVE] ∧ j_unit ob ∈ vs) st st' ∧
    ∀ o ob, heap st !! o = Some ob → j_installed ob = true → j_type ob ∈ [JOB_START; JOB_VERIFY_ACTIVE] →
      j_unit ob ∈ vs → heap st' !! o = None.
Proof.
  intros HA Hrec. revert st. induction vs as [|v vs IH]; intros st Hvs Hok Hfew Hsz; cbn [fail_dependencies].
  { exists st. split_and!; [done| |set_solver]. eapply cascade_weaken, cascade_refl; done. }
  assert (Hskip : (∀ o ob, heap st !! o = Some ob → j_installed ob = true →
      j_type ob ∈ [JOB_START; JOB_VERIFY_ACTIVE] → j_unit ob ≠ v) →
    ∃ st', fail_dependencies rec vs st = Some st' ∧
      cascade (λ o, ∃ ob, heap st !! o = Some ob ∧ j_installed ob = true ∧
                        j_type ob ∈ [JOB_START; JOB_VERIFY_ACTIVE] ∧ j_unit ob ∈ v :: vs) st st' ∧
      ∀ o ob, heap st !! o = Some ob → j_installed ob = true → j_type ob ∈ [JOB_START; JOB_VERIFY_ACTIVE] →
        j_unit ob ∈ v :: vs → heap st' !! o = None).
  { intros Hno. destruct (IH st) as (st' & -> & Hc & Hall); [|done..|].
    { intros o ob ? ? ? ?. apply (Hvs o ob); [done..|]. apply elem_of_cons. by right. } exists st'. split_and!; [done| |].
    - eapply cascade_weaken, Hc. cbn. intros o (ob & ? & ? & ? & ?). exists ob. split_and!; [done..|]. apply elem_of_cons. by right.
    - intros o ob ? ? ? [?|?]%elem_of_cons; [|by eauto]. exfalso. by eapply Hno. }
  destruct (installed_job st v) as [o|] eqn:Eo.
  2:{ apply Hskip. intros o ob Ho Hi Ht Hv. pose proof (starting_slot o ob st Hok Ho Hi Ht). congruence. }
  destruct (mo_job _ (proj2 Hok) v o Eo) as (ob & Hob & Hoi & Huo & _). rewrite Hob. cbn [mbind option_bind].
  case_bool_decide as Ht.
  2:{ apply Hskip. intros o' ob' Ho Hi Ht' Hv. pose proof (starting_slot o' ob' st Hok Ho Hi Ht'). congruence. }
  destruct (Hrec o ob st Hok Hfew (Hvs o ob Hob Hoi Ht ltac:(rewrite Huo; apply list_elem_of_here)) Hob Hoi Ht Hsz) as (st1 & -> & Hgone & Hc1). cbn [mbind option_bind].
  pose proof (ca_shrinks _ _ _ Hc1) as Hsh1.
  destruct (IH st1) as (st2 & -> & Hc2 & Hall2);
    [|apply (ca_ok _ _ _ Hc1)|by eapply shrinks_few|pose proof (shrinks_size _ _ Hsh1); lia|].
  { intros i ib Hib ? ? ?. destruct (sh_heap _ _ Hsh1 i ib Hib) as (ib0 & ? & ? & ? & ? & ? & ?). apply (HA st); [done|].
    apply (Hvs i ib0); [done|congruence..|]. apply elem_of_cons. right. congruence. }
  exists st2. split_and!; [done| |].
  - eapply cascade_weaken, cascade_trans; [|exact Hc1|exact Hc2]. cbn. intros i [->|(ib & Hib & ? & ? & ?)].
    + exists ob. split_and!; [done..|]. apply elem_of_cons. by left.
    + destruct (sh_heap _ _ Hsh1 i ib Hib) as (ib0 & ? & ? & ? & ? & ? & ?). exists ib0.
      split_and!; try congruence. apply elem_of_cons. right. congruence.
  - intros i ib Hib Hii Hit Hin. destruct (heap st1 !! i) as [ib1|] eqn:E1.
    2:{ by apply (shrinks_gone st1); [apply (ca_shrinks _ _ _ Hc2)|]. }
    destruct (sh_heap _ _ Hsh1 i ib1 E1) as (ib0 & ? & ? & ? & ? & ? & ?). assert (ib0 = ib) by congruence. subst ib0.
    apply elem_of_cons in Hin as [Hv|Hin].
    + pose proof (starting_slot i ib st Hok Hib Hii Hit). congruence.
    + apply (Hall2 i ib1); congruence.
Qed.

(** ** The jobs ordered against the unit *)

Definition keeps st st' : Prop :=
  (∀ k, is_Some (heap st !! k) → is_Some (heap st' !! k)) ∧ unit_job (mgr st') = unit_job (mgr st).

Lemma add_to_run_queue_queued j st st' :
  job_add_to_run_queue j st = Some st' → keeps st st' ∧
  (sys_ok st → few st → rq_alloc_ok j = true →
   ∃ jb', heap st' !! j = Some jb' ∧ j_in_run_queue jb' = true).
Proof.
  intros Hadd. split.
  { split; [|apply (add_to_run_queue_keeps j st st' j Hadd)]. intros k [kb Hk].
    pose proof (proj1 (add_to_run_queue_keeps j st st' k Hadd)) as H. rewrite Hk in H.
    by destruct (heap st' !! k). }
  intros Hok Hfew Hal. revert Hadd. unfold job_add_to_run_queue.
  destruct (heap st !! j) as [jb|] eqn:Ej; [|done]. cbn [mbind option_bind].
  unfold assert_. destruct (j_installed jb); [|done]. cbn [mbind option_bind].
  destruct (j_in_run_queue jb) eqn:Ef; [intros [= <-]; eauto|].
  pose proof (mo_run _ (proj2 Hok)) as [Hnd Hq].
  destruct (rq_put_ok (run_queue (mgr st)) j (rq_alloc_ok j)) as (r & q & Hput & _ & Hcase).
  { apply (mo_rq _ (proj2 Hok)). }
  { rewrite Hq. intros (? & ? & ?). congruence. }
  { by apply run_queue_room. }
  rewrite Hput. cbn [mbind option_bind]. intros [= <-].
  destruct Hcase as [[-> _]|(_ & ? & _)]; [|congruence]. cbn [Z.ltb Z.compare].
  unfold call, alter_mgr at 1. st_simpl. change (mgr (alter_job ?f ?i ?s)) with (mgr s).
  exists (set_j_in_run_queue true jb). split; [|done]. unfold alter_job. st_simpl. by rewrite lookup_alter_eq, Ej.
Qed.

Lemma add_to_gc_queue_keeps j st st' : job_add_to_gc_queue j st = Some st' → keeps st st'.
Proof.
  unfold job_add_to_gc_queue. destruct (heap st !! j) as [jb|]; [|done]. cbn [mbind option_bind].
  destruct (j_in_gc_queue jb); [by intros [= <-]|]. destruct (job_may_gc j st) as [[]|]; [| |done];
    cbn [mbind option_bind negb]; intros [= <-]; [|done].
  split; [|done]. intros k Hk. rewrite heap_alter_job. st_simpl. case_decide; [|done]. by rewrite fmap_is_Some.
Qed.

Lemma keeps_refl st : keeps st st.
Proof. done. Qed.

Lemma keeps_trans st1 st2 st3 : keeps st1 st2 → keeps st2 st3 → keeps st1 st3.
Proof. intros [A1 A2] [B1 B2]. split; [naive_solver|congruence]. Qed.

(** A job on the run queue stays there while nothing is finished. *)
Lemma queued_later j st st' :
  keeps st st' → shrinks st st' → (∃ jb, heap st !! j = Some jb ∧ j_in_run_queue jb = true) →
  ∃ jb, heap st' !! j = Some jb ∧ j_in_run_queue jb = true.
Proof.
  intros [Hk _] Hsh (jb & Hj & Hr). destruct (Hk j) as [jb' Hj']; [eauto|].
  destruct (sh_heap _ _ Hsh j jb' Hj') as (jb0 & ? & _ & _ & _ & _ & Himp & _). exists jb'. split; [done|].
  apply Himp. congruence.
Qed.

Lemma requeue_jobs_queued us st st' :
  requeue_jobs us st = Some st' → sys_ok st → few st → keeps st st' ∧
  ∀ v o, v ∈ us → installed_job st v = Some o → rq_alloc_ok o = true →
    ∃ ob, heap st' !! o = Some ob ∧ j_in_run_queue ob = true.
Proof.
  revert st. induction us as [|v us IH]; intros st; cbn [requeue_jobs].
  { intros [= <-] _ _. split; [apply keeps_refl|set_solver]. }
  intros H Hok Hfew. destruct (installed_job st v) as [o|] eqn:Eo.
  2:{ destruct (IH st H Hok Hfew) as [Hk Hall]. split; [done|]. intros w i [->|Hw]%elem_of_cons Hi; [congruence|eauto]. }
  destruct (mo_job _ (proj2 Hok) v o Eo) as (ob & Hob & Hoi & _).
  destruct (add_to_run_queue_spec o ob st Hok Hfew Hob Hoi) as (st1 & H1 & Hok1 & Hsh1).
  rewrite H1 in H. cbn [mbind option_bind] in H. destruct (add_to_run_queue_queued o st st1 H1) as [Hk1 Hq1].
  destruct (proj1 Hk1 o) as [ob1 Hob1]; [eauto|].
  destruct (add_to_gc_queue_spec o ob1 st1 Hok1 Hob1) as (st2 & H2 & Hok2 & Hsh2).
  { destruct (sh_heap _ _ Hsh1 o ob1 Hob1) as (? & ? & _ & _ & ? & _). congruence. }
  rewrite H2 in H. cbn [mbind option_bind] in H. pose proof (add_to_gc_queue_keeps o st1 st2 H2) as Hk2.
  pose proof (keeps_trans _ _ _ Hk1 Hk2) as Hk12. pose proof (shrinks_trans _ _ _ Hsh1 Hsh2) as Hsh12.
  destruct (IH st2 H Hok2 (shrinks_few _ _ Hsh12 Hfew)) as [Hk3 Hall].
  destruct (requeue_jobs_spec us st2 Hok2 (shrinks_few _ _ Hsh12 Hfew)) as (st3 & H3 & _ & Hsh3).
  assert (st3 = st') by congruence. subst st3. split; [by eapply keeps_trans|].
  intros w i [->|Hw]%elem_of_cons Hi Hal.
  - assert (i = o) by congruence. subst i. apply (queued_later _ st1); [by eapply keeps_trans|by eapply shrinks_trans|].
    by apply Hq1.
  - apply (Hall w i Hw); [|done]. unfold installed_job in *. by rewrite (proj2 Hk12).
Qed.

Lemma finish_tail_queued u st st' :
  finish_tail u st = Some st' → sys_ok st → few st → keeps st st' ∧
  ∀ v o, v ∈ unit_dependencies u UNIT_ATOM_AFTER ++ unit_dependencies u UNIT_ATOM_BEFORE →
    installed_job st' v = Some o → rq_alloc_ok o = true → o ∈ rq_jobs (run_queue (mgr st')).
Proof.
  intros H Hok Hfew. destruct (finish_tail_spec u st Hok Hfew) as (st2 & H2 & Hok' & _).
  assert (st2 = st') by congruence. subst st2. clear H2. revert H. unfold finish_tail.
  destruct (requeue_jobs _ st) as [st1|] eqn:E1; [|done]. cbn [mbind option_bind]. intros [= <-].
  destruct (requeue_jobs_queued _ _ _ E1 Hok Hfew) as [Hk Hall]. split; [done|].
  intros v o Hv Ho Hal. apply (mo_run _ (proj2 Hok')). apply (Hall v o Hv); [|done].
  unfold installed_job in *. by rewrite <- (proj2 Hk).
Qed.

(** ** A job that ends *)

(** Finishing [j] frees it, then fails what waits for it, then requeues. *)
Record ended (j : positive) (jb : Job) (result : JobResult) (recursive : bool) st st' : Prop := {
  fi_free : ∃ st1, heap st1 = delete j (heap st) ∧ sys_ok st1 ∧ shrinks st st1 ∧
    cascade (λ o, recursive = true ∧ waits_for (failure_atoms (j_unit jb) (j_type jb) result) st1 (j_unit jb) o) st1 st' ∧
    (recursive = true → ∀ o, waits_for (failure_atoms (j_unit jb) (j_type jb) result) st1 (j_unit jb) o →
       heap st' !! o = None);
  fi_queue v o :
    v ∈ unit_dependencies (j_unit jb) UNIT_ATOM_AFTER ++ unit_dependencies (j_unit jb) UNIT_ATOM_BEFORE →
    installed_job st' v = Some o → rq_alloc_ok o = true → o ∈ rq_jobs (run_queue (mgr st'));
}.

Lemma calls_quiet cs st :
  sys_ok st → sys_ok (foldr call st cs) ∧ shrinks st (foldr call st cs) ∧ keeps st (foldr call st cs).
Proof.
  intros Hok. induction cs as [|c cs (IH1 & IH2 & IH3)]; cbn [foldr].
  { split_and!; [done|apply shrinks_refl|apply keeps_refl]. }
  destruct (call_ok c _ IH1) as [? ?]. split_and!; [done|by eapply shrinks_trans|exact IH3].
Qed.

Lemma delete_size (h : gmap positive Job) j jb n :
  h !! j = Some jb → (size h <= S n)%nat → (size (delete j h) <= n)%nat.
Proof. intros Hj Hn. rewrite map_size_delete, Hj. lia. Qed.

Lemma waits_for_delete j st st1 atoms u o :
  heap st1 = delete j (heap st) → waits_for atoms st1 u o ↔ o ≠ j ∧ waits_for atoms st u o.
Proof.
  intros Hh. unfold waits_for. rewrite Hh. setoid_rewrite lookup_delete_Some. naive_solver.
Qed.

Lemma fails_delete j st st1 a b : heap st1 = delete j (heap st) → fails st1 a b ↔ a ≠ j ∧ b ≠ j ∧ fails st a b.
Proof.
  intros Hh. unfold fails. rewrite Hh. setoid_rewrite (waits_for_delete j st st1); [|done]. setoid_rewrite lookup_delete_Some. naive_solver.
Qed.

(** The calls that the end of a job of [u] makes leave the jobs alone. *)
Definition hook_quiet (hook : Call → State → option State) u (result : JobResult) : Prop := ∀ st, sys_ok st →
  (result ∈ [JOB_TIMEOUT; JOB_DEPENDENCY] →
     ∃ st', hook (unit_start_on_failure u) st = Some st' ∧ sys_ok st' ∧ shrinks st st' ∧ keeps st st') ∧
  ∃ st', hook (unit_trigger_notify u) st = Some st' ∧ sys_ok st' ∧ shrinks st st' ∧ keeps st st'.

(** So do those of all jobs that [o] takes along when it fails. *)
Definition quiet_cascade hook st o : Prop := ∀ k kb,
  rtc (fails st) o k → heap st !! k = Some kb → hook_quiet hook (j_unit kb) JOB_DEPENDENCY.

Lemma quiet_cascade_shrinks hook st st' o : shrinks st st' → quiet_cascade hook st o → quiet_cascade hook st' o.
Proof.
  intros Hsh Hq k kb' Hr Hk. destruct (sh_heap _ _ Hsh k kb' Hk) as (kb & Hkb & -> & _). apply (Hq k kb); [|done].
  eapply rtc_subrel, Hr. intros ? ?. by apply fails_shrinks.
Qed.

Lemma record_quiet u result : hook_quiet record u result.
Proof. intros st Hok. split; [intros _|]; eexists; (split; [done|]); apply (calls_quiet [_] st Hok). Qed.

Lemma finish_core hook fuel j jb result recursive st :
  rec_ok (quiet_cascade hook) fuel (λ o st, finish_job hook fuel o JOB_DEPENDENCY true st) →
  hook_quiet hook (j_unit jb) result →
  (recursive = true → ∀ st1, heap st1 = delete j (heap st) →
     ∀ o, waits_for (failure_atoms (j_unit jb) (j_type jb) result) st1 (j_unit jb) o → quiet_cascade hook st1 o) →
  sys_ok st → few st → heap st !! j = Some jb → j_installed jb = true → (size (heap st) <= S fuel)%nat →
  ¬ (result = JOB_DONE ∧ j_type jb = JOB_RESTART) →
  ∃ st', finish_job hook (S fuel) j result recursive st = Some st' ∧ ended j jb result recursive st st'.
Proof.
  intros Hrec Hquiet Hcas Hok Hfew Hj Hi Hsz Hnr. cbn [finish_job]. rewrite Hj. cbn [mbind option_bind].
  rewrite !assert_bind by (done || by apply Z.ltb_lt, (mo_types _ (proj2 Hok) j jb Hj)).
  rewrite <- bool_decide_and, bool_decide_eq_false_2 by done.
  destruct (set_result_ok result j jb st Hok Hj Hi) as (Hok1 & Hsh1 & Hj1).
  set (st1 := alter_job (set_j_result result) j st) in *.
  set (st2 := if bool_decide _ then alter_mgr _ st1 else st1).
  assert (sys_ok st2 ∧ shrinks st st2 ∧ heap st2 = heap st1) as (Hok2 & Hsh2 & Hh2).
  { unfold st2. case_bool_decide; [|done]. destruct (n_failed_ok (u32 (n_failed_jobs (mgr st1) + 1)) st1 Hok1) as [? ?].
    split_and!; [done|by eapply shrinks_trans|done]. }
  destruct (remove_job_spec j (set_j_result result jb) st2 Hok2) as (st3 & st4 & H3 & H4 & Hok4 & Hsh4 & Hh4);
    [by rewrite Hh2|done|]. rewrite H3. cbn [mbind option_bind]. rewrite H4. cbn [mbind option_bind].
  pose proof (shrinks_trans _ _ _ Hsh2 Hsh4) as Hsh.
  assert (Hh : heap st4 = delete j (heap st)).
  { rewrite Hh4, Hh2. unfold st1, alter_job. st_simpl. apply delete_alter_id. }
  pose proof (delete_size _ _ _ _ Hj Hsz) as Hsz4. rewrite <- Hh in Hsz4.
  pose proof (shrinks_few _ _ Hsh Hfew) as Hfew4.
  set (atoms := failure_atoms (j_unit jb) (j_type jb) result).
  assert (∃ st5, (if recursive then
      fail_dependencies (λ o st, finish_job hook fuel o JOB_DEPENDENCY true st) (atoms ≫= unit_dependencies (j_unit jb)) st4
      else Some st4) = Some st5 ∧
    cascade (λ o, recursive = true ∧ waits_for atoms st4 (j_unit jb) o) st4 st5 ∧
    (recursive = true → ∀ o, waits_for atoms st4 (j_unit jb) o → heap st5 !! o = None)) as (st5 & H5 & Hc5 & Hall5).
  { destruct recursive.
    - destruct (fail_dependencies_spec (quiet_cascade hook) fuel _ (atoms ≫= unit_dependencies (j_unit jb)) st4 (quiet_cascade_shrinks hook) Hrec)
        as (st5 & H5 & Hc5 & Hall5); [|done..|].
      { intros o ob Hob Hoi Hot Hou. apply (Hcas eq_refl); [done|]. by exists ob. }
      exists st5. split_and!; [done| |].
      + eapply cascade_weaken, Hc5. intros o ?. split; [done|]. done.
      + intros _ o (ob & ? & ? & ? & ?). by apply (Hall5 o ob).
    - exists st4. split_and!; [done| |done]. eapply cascade_weaken, cascade_refl; done. }
  rewrite H5. cbn [mbind option_bind]. pose proof (ca_ok _ _ _ Hc5) as Hok5. pose proof (ca_shrinks _ _ _ Hc5) as Hsh5.
  assert (∃ stf, (if bool_decide (result ∈ [JOB_TIMEOUT; JOB_DEPENDENCY]) then hook (unit_start_on_failure (j_unit jb)) st5 else Some st5) = Some stf ∧
    sys_ok stf ∧ shrinks st5 stf ∧ keeps st5 stf) as (stf & Hf & Hokf & Hshf & Hkf).
  { case_bool_decide as Hr; [by apply (Hquiet st5 Hok5)|]. exists st5. split_and!; [done..|apply shrinks_refl|apply keeps_refl]. }
  rewrite Hf. cbn [mbind option_bind]. destruct (Hquiet stf Hokf) as [_ (st6 & H6 & Hok6 & Hsh6' & Hk6')].
  rewrite H6. cbn [mbind option_bind]. pose proof (shrinks_trans _ _ _ Hshf Hsh6') as Hsh6. pose proof (keeps_trans _ _ _ Hkf Hk6') as Hk6.
  assert (Hfew6 : few st6) by (eapply shrinks_few; [exact Hsh6|]; by eapply shrinks_few).
  destruct (finish_tail_spec (j_unit jb) st6 Hok6 Hfew6) as (st7 & H7 & Hok7 & Hsh7).
  destruct (finish_tail_queued _ _ _ H7 Hok6 Hfew6) as [Hk7 Hq7]. exists st7. split; [done|]. split; [|done].
  assert (Hc7 : cascade (λ _, False) st5 st7).
  { apply cascade_quiet; [done|by eapply shrinks_trans|]. by apply (keeps_trans _ st6). }
  exists st4. split_and!; [done..| |].
  - eapply cascade_weaken, cascade_trans; [|exact Hc5|exact Hc7]. by intros o [?|[]].
  - intros Hr o Hw. apply (shrinks_gone st5); [apply (ca_shrinks _ _ _ Hc7)|by apply Hall5].
Qed.

Lemma cascade_of_finished j jb result st st' :
  heap st !! j = Some jb → failure_atoms (j_unit jb) (j_type jb) result = [UNIT_ATOM_PROPAGATE_START_FAILURE] →
  ended j jb result true st st' → heap st' !! j = None ∧ cascade (.= j) st st'.
Proof.
  intros Hj Ha [(st1 & Hh & Hok1 & Hsh1 & Hc & Hall) _]. rewrite Ha in *.
  assert (Hj' : heap st' !! j = None).
  { apply (shrinks_gone st1); [apply (ca_shrinks _ _ _ Hc)|]. rewrite Hh. apply lookup_delete_eq. }
  split; [done|]. split; [apply (ca_ok _ _ _ Hc)|eapply shrinks_trans, Hc; done| |].
  - intros k Hk Hn. exists j. split; [done|]. destruct (decide (k = j)) as [->|Hne]; [done|].
    destruct (ca_sound _ _ _ Hc k) as (o & [_ Ho] & Hr); [by rewrite Hh, lookup_delete_ne|done|].
    eapply rtc_l; [|eapply rtc_subrel, Hr; intros ? ?; by apply fails_shrinks].
    exists jb. split; [done|]. by eapply waits_for_shrinks.
  - intros k kb o Hk Hn Hw. destruct (decide (o = j)) as [->|Ho]; [done|].
    assert (Hw1 : waits_for [UNIT_ATOM_PROPAGATE_START_FAILURE] st1 (j_unit kb) o).
    { destruct (waits_for_kept _ _ _ _ _ Hsh1 Hw) as [Hx|?]; [|done]. rewrite Hh, lookup_delete_ne in Hx by done.
      destruct Hw as (? & ? & _). congruence. }
    destruct (decide (k = j)) as [->|Hne].
    + assert (kb = jb) by congruence. subst. by apply Hall.
    + apply (ca_closed _ _ _ Hc k kb); [|done..]. by rewrite Hh, lookup_delete_ne.
Qed.

Lemma start_atoms u t result :
  t ∈ [JOB_START; JOB_VERIFY_ACTIVE] → result ≠ JOB_DONE → failure_atoms u t result = [UNIT_ATOM_PROPAGATE_START_FAILURE].
Proof.
  intros Ht Hr. unfold failure_atoms. rewrite bool_decide_eq_true_2 by done. rewrite (bool_decide_eq_true_2 _ Ht).
  by rewrite bool_decide_eq_false_2.
Qed.

Lemma rec_finish hook fuel : rec_ok (quiet_cascade hook) fuel (λ o st, finish_job hook fuel o JOB_DEPENDENCY true st).
Proof.
  induction fuel as [|fuel IH]; intros o ob st Hok Hfew Hq Ho Hi Ht Hsz.
  { apply Nat.le_0_r, map_size_empty_inv in Hsz. rewrite Hsz in Ho. by rewrite lookup_empty in Ho. }
  destruct (finish_core hook fuel o ob JOB_DEPENDENCY true st IH) as (st' & H & Hf); [by apply (Hq o)| |done..|by intros [? _]|].
  { intros _ st1 Hh i Hi' k kb Hr Hk. rewrite start_atoms in Hi' by done. apply (waits_for_delete o st) in Hi' as [_ Hi']; [|done].
    apply (Hq k kb); [|rewrite Hh in Hk; by apply lookup_delete_Some in Hk as [_ ?]].
    eapply rtc_l; [exists ob; done|]. eapply rtc_subrel, Hr. intros a b Hab. by apply (fails_delete o st) in Hab as (_ & _ & ?). }
  exists st'. split; [done|]. apply (cascade_of_finished o ob JOB_DEPENDENCY); [done|by apply start_atoms|done].
Qed.

Lemma job_finish_spec j jb result recursive st :
  sys_ok st → few st → heap st !! j = Some jb → j_installed jb = true →
  ¬ (result = JOB_DONE ∧ j_type jb = JOB_RESTART) →
  ∃ st', job_finish_and_invalidate j result recursive st = Some st' ∧ ended j jb result recursive st st'.
Proof.
  intros Hok Hfew Hj Hi Hnr. unfold job_finish_and_invalidate. apply finish_core; try done; [apply rec_finish|apply record_quiet|by intros ? ? ? ? ? ? ? ? ?; apply record_quiet|lia].
Qed.

(** A job is announced and queued. *)
Definition announce (j : positive) st : option State :=
  st ← job_add_to_dbus_queue j st;
  st ← job_add_to_run_queue j st;
  job_add_to_gc_queue j st.

Lemma add_to_dbus_queue_keeps j st st' : job_add_to_dbus_queue j st = Some st' → keeps st st'.
Proof.
  unfold job_add_to_dbus_queue. destruct (heap st !! j) as [jb|]; [|done]. cbn [mbind option_bind].
  unfold assert_. destruct (j_installed jb); [|done]. cbn [mbind option_bind].
  destruct (j_in_dbus_queue jb); [by intros [= <-]|]. intros [= <-].
  split; [|done]. intros k Hk. rewrite heap_alter_job. st_simpl. case_decide; [|done]. by rewrite fmap_is_Some.
Qed.

(** A job that is still there is still installed. *)
Lemma still_installed j jb st st' :
  heap st !! j = Some jb → j_installed jb = true → keeps st st' → shrinks st st' →
  ∃ jb', heap st' !! j = Some jb' ∧ j_installed jb' = true.
Proof.
  intros Hj Hi [Hk _] Hsh. destruct (Hk j) as [jb' Hj']; [eauto|]. exists jb'. split; [done|].
  destruct (sh_heap _ _ Hsh j jb' Hj') as (? & ? & _ & _ & ? & _). congruence.
Qed.

Lemma announce_spec j jb st :
  sys_ok st → few st → heap st !! j = Some jb → j_installed jb = true →
  ∃ st', announce j st = Some st' ∧ sys_ok st' ∧ shrinks st st' ∧ keeps st st' ∧
    (rq_alloc_ok j = true → ∃ jb', heap st' !! j = Some jb' ∧ j_in_run_queue jb' = true).
Proof.
  intros Hok Hfew Hj Hi. unfold announce.
  destruct (add_to_dbus_queue_spec j jb st Hok Hj Hi) as (st1 & H1 & Hok1 & Hsh1).
  pose proof (add_to_dbus_queue_keeps _ _ _ H1) as Hk1. rewrite H1. cbn [mbind option_bind].
  destruct (still_installed j jb st st1 Hj Hi Hk1 Hsh1) as (jb1 & Hj1 & Hi1).
  pose proof (shrinks_few _ _ Hsh1 Hfew) as Hfew1.
  destruct (add_to_run_queue_spec j jb1 st1 Hok1 Hfew1 Hj1 Hi1) as (st2 & H2 & Hok2 & Hsh2).
  destruct (add_to_run_queue_queued _ _ _ H2) as [Hk2 Hq2]. rewrite H2. cbn [mbind option_bind].
  destruct (still_installed j jb1 st1 st2 Hj1 Hi1 Hk2 Hsh2) as (jb2 & Hj2 & Hi2).
  destruct (add_to_gc_queue_spec j jb2 st2 Hok2 Hj2 Hi2) as (st3 & H3 & Hok3 & Hsh3).
  pose proof (add_to_gc_queue_keeps _ _ _ H3) as Hk3. exists st3. split_and!; try done.
  - eapply shrinks_trans, Hsh3. by eapply shrinks_trans.
  - eapply keeps_trans, Hk3. by eapply keeps_trans.
  - intros Hal. apply (queued_later _ st2); [done..|]. by apply Hq2.
Qed.

(** The job of a restart that is done, before it is queued again. *)
Lemma restart_waits j jb st :
  sys_ok st → heap st !! j = Some jb → j_installed jb = true → j_type jb = JOB_RESTART →
  ∃ st' jb', job_set_state j JOB_WAITING (alter_job (set_j_type JOB_START) j (alter_job (set_j_result JOB_DONE) j st)) = Some st' ∧
    sys_ok st' ∧ heap st' !! j = Some jb' ∧ j_installed jb' = true ∧ j_type jb' = JOB_START ∧
    j_state jb' = JOB_WAITING ∧ j_unit jb' = j_unit jb ∧ j_id jb' = j_id jb ∧
    (∀ k, k ≠ j → heap st' !! k = heap st !! k) ∧ jobs st' = jobs st ∧ m_jobs (mgr st') = m_jobs (mgr st).
Proof.
  intros Hok Hj Hi Ht. destruct (set_result_ok JOB_DONE j jb st Hok Hj Hi) as (Hok1 & _ & Hj1).
  set (st1 := alter_job (set_j_result JOB_DONE) j st) in *.
  assert (Hok2 : sys_ok (alter_job (set_j_type JOB_START) j st1)).
  { apply (alter_in_place _ _ (set_j_result JOB_DONE jb)); try done. split; try done; cbn; rewrite ?Ht; try done. }
  assert (Hj2 : heap (alter_job (set_j_type JOB_START) j st1) !! j = Some (set_j_type JOB_START (set_j_result JOB_DONE jb)))
    by (by rewrite heap_alter_job, decide_True, Hj1).
  set (st2 := alter_job (set_j_type JOB_START) j st1) in *.
  set (jb2 := set_j_type JOB_START (set_j_result JOB_DONE jb)) in *.
  destruct (set_waiting_spec j jb2 st2 (proj2 Hok2) Hj2 Hi) as [tr ->].
  eexists _, (set_j_state JOB_WAITING jb2). split; [done|]. split_and!; try done.
  - apply (update_keeping_queues (set_j_state JOB_WAITING) j jb2 st2 (n_running_jobs (mgr st2) - run_bit jb2)); try done.
    unfold run_bit at 3, is_running. cbn. rewrite andb_false_r. lia.
  - rewrite heap_alter_job, decide_True by done. change (heap (alter_mgr ?f ?s)) with (heap s). by rewrite Hj2.
  - intros k Hk. change (alter (set_j_state JOB_WAITING) j (alter (set_j_type JOB_START) j
      (alter (set_j_result JOB_DONE) j (heap st))) !! k = heap st !! k). by rewrite !lookup_alter_ne.
Qed.

(** A restart that is done waits as a start job of the same unit, in [stw], and is then
    queued again. *)
Lemma finish_restart_spec j jb recursive st :
  sys_ok st → few st → heap st !! j = Some jb → j_installed jb = true → j_type jb = JOB_RESTART →
  ∃ stw jbw st', job_finish_and_invalidate j JOB_DONE recursive st = Some st' ∧ sys_ok st' ∧
    heap stw !! j = Some jbw ∧ j_installed jbw = true ∧ j_type jbw = JOB_START ∧ j_state jbw = JOB_WAITING ∧
    j_unit jbw = j_unit jb ∧ j_id jbw = j_id jb ∧ (∀ k, k ≠ j → heap stw !! k = heap st !! k) ∧
    jobs stw = jobs st ∧ m_jobs (mgr stw) = m_jobs (mgr st) ∧
    shrinks stw st' ∧ keeps stw st' ∧ (rq_alloc_ok j = true → j ∈ rq_jobs (run_queue (mgr st'))).
Proof.
  intros Hok Hfew Hj Hi Ht. unfold job_finish_and_invalidate. cbn [finish_job]. rewrite Hj. cbn [mbind option_bind].
  rewrite !assert_bind by (done || by apply Z.ltb_lt, (mo_types _ (proj2 Hok) j jb Hj)).
  rewrite (bool_decide_eq_true_2 _ Ht). cbn [bool_decide andb].
  destruct (restart_waits j jb st Hok Hj Hi Ht) as (st1 & jb1 & -> & Hok1 & Hj1 & Hi1 & Ht1 & Hs1 & Hu1 & Hd1 & Hk1 & Hjo1 & Hm1).
  cbn [mbind option_bind].
  assert (Hfew1 : few st1).
  { unfold few in *. enough (size (heap st1) <= size (heap st))%nat by lia. rewrite <- !(size_dom (D := gset positive)).
    apply subseteq_size. intros k. rewrite !elem_of_dom. destruct (decide (k = j)) as [->|Hne]; [eauto|by rewrite Hk1]. }
  destruct (announce_spec j jb1 st1 Hok1 Hfew1 Hj1 Hi1) as (st2 & H2 & Hok2 & Hsh2 & Hk2 & Hq2).
  unfold announce in H2.
  destruct (job_add_to_dbus_queue j st1) as [sta|]; [|done]. cbn [mbind option_bind] in H2 |- *.
  destruct (job_add_to_run_queue j sta) as [stb|]; [|done]. cbn [mbind option_bind] in H2 |- *. rewrite H2.
  cbn [mbind option_bind]. pose proof (shrinks_few _ _ Hsh2 Hfew1) as Hfew2.
  destruct (finish_tail_spec (j_unit jb) st2 Hok2 Hfew2) as (st3 & H3 & Hok3 & Hsh3).
  destruct (finish_tail_queued _ _ _ H3 Hok2 Hfew2) as [Hk3 _].
  exists st1, jb1, st3. split_and!; [done..|by eapply shrinks_trans|by eapply keeps_trans|].
  intros Hal. apply (mo_run _ (proj2 Hok3)). apply (queued_later _ st2); [done..|]. by apply Hq2.
Qed.

(** The invariant in decidable form, for a system whose queues are empty. *)
Definition sys_ok_dec_form st : Prop :=
  tr_ok_dec_form st ∧
  map_Forall (λ i ib, transaction_type (j_type ib) ∧ queued ib = false ∧
    (j_installed ib = true → slot st ib = Some i ∧ m_jobs (mgr st) !! j_id ib = Some i)) (heap st) ∧
  map_Forall (λ u i, job_at (λ ib, j_installed ib = true ∧ j_unit ib = u ∧ j_type ib ≠ JOB_NOP) st i) (unit_job (mgr st)) ∧
  map_Forall (λ u i, job_at (λ ib, j_installed ib = true ∧ j_unit ib = u ∧ j_type ib = JOB_NOP) st i) (unit_nop_job (mgr st)) ∧
  n_running_jobs (mgr st) = count_running (heap st) ∧ dbus_job_queue (mgr st) = [] ∧ gc_job_queue (mgr st) = [].

#[global] Instance sys_ok_dec_form_dec st : Decision (sys_ok_dec_form st).
Proof.
  unfold sys_ok_dec_form. apply and_dec; [apply _|]. unfold job_at, transaction_type, slot.
  repeat apply and_dec; try apply _; apply map_Forall_dec; intros i x;
    destruct (heap st !! x); apply _.
Defined.

Lemma empty_queue_ok (flag : Job → bool) (h : gmap positive Job) :
  map_Forall (λ _ ib, flag ib = false) h → queue_ok flag [] h.
Proof.
  intros H. split; [constructor|]. intros i. split; [by intros ?%elem_of_nil|].
  intros (ib & Hi & Hf). pose proof (H i ib Hi). cbn in *. congruence.
Qed.

Lemma sys_ok_check st : sys_ok_dec_form st → run_queue (mgr st) = rq_empty → sys_ok st.
Proof.
  intros (H1 & H2 & H3 & H4 & H5 & H6 & H7) Hrq. split; [by apply tr_ok_check|].
  assert (Hq : ∀ i ib, heap st !! i = Some ib →
    j_in_run_queue ib = false ∧ j_in_dbus_queue ib = false ∧ j_in_gc_queue ib = false).
  { intros i ib Hi. destruct (H2 i ib Hi) as (_ & Hq & _). unfold queued in Hq.
    by apply orb_false_iff in Hq as [[? ?]%orb_false_iff ?]. }
  destruct rq_empty_ok as [Hro Hrj]. split; rewrite ?Hrq, ?H6, ?H7, ?Hrj; try done;
    try (apply empty_queue_ok; intros i ib Hi; apply (Hq i ib Hi)).
  - intros k kb Hk. by destruct (H2 k kb Hk).
  - intros u i Hi. specialize (H3 u i Hi). unfold job_at in H3. destruct (heap st !! i) as [ib|]; [by exists ib|done].
  - intros u i Hi. specialize (H4 u i Hi). unfold job_at in H4. destruct (heap st !! i) as [ib|]; [by exists ib|done].
  - intros i ib Hi Hins. by destruct (H2 i ib Hi) as (_ & _ & [? ?]).
  - intros i ib Hi Hins. by destruct (H2 i ib Hi) as (_ & _ & [? ?]).
  - intros i ib Hi Hqd. destruct (H2 i ib Hi) as (_ & ? & _). congruence.
Qed.

(** ** Which jobs go *)

(** The end of a job of type [t] with this result is passed on to the jobs of [v]: a start that
    failed to what requires it, a stop that failed to what waits for it, and a start that was done
    without the unit being up to what has it as a requisite. *)
Inductive passes_on u t (result : JobResult) v : Prop :=
  | passes_start : t ∈ [JOB_START; JOB_VERIFY_ACTIVE] → result ≠ JOB_DONE →
      v ∈ unit_dependencies u UNIT_ATOM_PROPAGATE_START_FAILURE → passes_on u t result v
  | passes_stop : t = JOB_STOP → result ≠ JOB_DONE →
      v ∈ unit_dependencies u UNIT_ATOM_PROPAGATE_STOP_FAILURE → passes_on u t result v
  | passes_inactive : t ∈ [JOB_START; JOB_RELOAD] → result = JOB_DONE → unit_active_state u ∉ [UNIT_ACTIVE; UNIT_RELOADING] →
      v ∈ unit_dependencies u UNIT_ATOM_PROPAGATE_INACTIVE_START_AS_FAILURE → passes_on u t result v.

(** The jobs that end with [j], and with which result. *)
Inductive goes (j : positive) (result : JobResult) (recursive : bool) st : positive → JobResult → Prop :=
  | goes_self : goes j result recursive st j result
  | goes_on k kb r o ob : goes j result recursive st k r → recursive = true → heap st !! k = Some kb →
      passes_on (j_unit kb) (j_type kb) r (j_unit ob) →
      heap st !! o = Some ob → j_installed ob = true → j_type ob ∈ [JOB_START; JOB_VERIFY_ACTIVE] → o ≠ j →
      goes j result recursive st o JOB_DEPENDENCY.

Lemma passes_on_iff u t result v : v ∈ failure_atoms u t result ≫= unit_dependencies u ↔ passes_on u t result v.
Proof.
  assert (Hb : ∀ a l, v ∈ (a :: l) ≫= unit_dependencies u ↔ v ∈ unit_dependencies u a ∨ v ∈ l ≫= unit_dependencies u)
    by (intros; by rewrite bind_cons, elem_of_app).
  assert (H0 : v ∈ ([] : list UnitDependencyAtom) ≫= unit_dependencies u ↔ False) by (cbn; by rewrite elem_of_nil).
  unfold failure_atoms. rewrite bind_app, elem_of_app. split.
  - intros [Hv|Hv].
    + case_bool_decide; [|by apply H0 in Hv]. case_bool_decide; [apply Hb in Hv as [?|Hv]; [by apply passes_start|by apply H0 in Hv]|].
      case_bool_decide; [apply Hb in Hv as [?|Hv]; [by apply passes_stop|by apply H0 in Hv]|by apply H0 in Hv].
    + destruct (bool_decide (result = JOB_DONE) && bool_decide (t ∈ [JOB_START; JOB_RELOAD]) && negb (UNIT_IS_ACTIVE_OR_RELOADING (unit_active_state u))) eqn:Ea;
        [|by apply H0 in Hv]. apply andb_true_iff in Ea as [[?%bool_decide_eq_true ?%bool_decide_eq_true]%andb_true_iff Ea%negb_true_iff].
      apply Hb in Hv as [?|Hv]; [|by apply H0 in Hv]. apply passes_inactive; [done..| |done]. by apply bool_decide_eq_false in Ea.
  - destruct 1 as [Ht Hr Hv|Ht Hr Hv|Ht Hr Ha Hv].
    + left. rewrite (bool_decide_eq_true_2 (result ≠ _)), (bool_decide_eq_true_2 (t ∈ _)) by done. rewrite Hb. by left.
    + left. rewrite (bool_decide_eq_true_2 (result ≠ _)), (bool_decide_eq_false_2 (t ∈ _)), bool_decide_eq_true_2; [rewrite Hb; by left|done|subst; by_decide|done].
    + right. unfold UNIT_IS_ACTIVE_OR_RELOADING. rewrite !(bool_decide_eq_true_2 (result = _)), (bool_decide_eq_true_2 (t ∈ _)), bool_decide_eq_false_2 by done.
      cbn [andb negb]. rewrite Hb. by left.
Qed.

Lemma waits_for_passes j jb result st o :
  waits_for (failure_atoms (j_unit jb) (j_type jb) result) st (j_unit jb) o ↔
  ∃ ob, passes_on (j_unit jb) (j_type jb) result (j_unit ob) ∧ heap st !! o = Some ob ∧ j_installed ob = true ∧
    j_type ob ∈ [JOB_START; JOB_VERIFY_ACTIVE].
Proof. unfold waits_for. setoid_rewrite passes_on_iff. naive_solver. Qed.

Lemma goes_inv j result recursive st k r :
  goes j result recursive st k r →
  k = j ∧ r = result ∨ k ≠ j ∧ r = JOB_DEPENDENCY ∧ ∃ kb, heap st !! k = Some kb ∧ j_type kb ∈ [JOB_START; JOB_VERIFY_ACTIVE].
Proof. destruct 1; [by left|right]. eauto 10. Qed.

(** The same as a walk. *)
Lemma goes_iff j jb result recursive st k :
  heap st !! j = Some jb →
  (∃ r, goes j result recursive st k r) ↔
  k = j ∨ recursive = true ∧ ∃ o, o ≠ j ∧
    waits_for (failure_atoms (j_unit jb) (j_type jb) result) st (j_unit jb) o ∧ rtc (λ a b, b ≠ j ∧ fails st a b) o k.
Proof.
  intros Hj. split.
  - intros (r & H). induction H as [|k kb r o ob Hg IH Hr Hk Hp Ho Hoi Hot Hne]; [by left|right]. split; [done|].
    destruct (goes_inv _ _ _ _ _ _ Hg) as [[-> ->]|(Hkj & -> & kb' & Hk' & Ht)].
    + assert (kb = jb) as -> by congruence. exists o. split_and!; [done| |apply rtc_refl]. apply waits_for_passes; [done|]. by exists ob.
    + destruct IH as [?|(_ & o0 & H1 & H2 & H3)]; [done|]. exists o0. split_and!; [done..|]. eapply rtc_r; [exact H3|]. split; [done|].
      assert (kb' = kb) as -> by congruence. exists kb. split; [done|]. rewrite <- (start_atoms (j_unit kb) (j_type kb) JOB_DEPENDENCY) by done.
      apply waits_for_passes; [done|]. by exists ob.
  - intros [->|(Hr & o & Hoj & Ho & Hreach)]; [eexists; constructor|].
    assert (Hstart : ∃ r, goes j result recursive st o r).
    { apply waits_for_passes in Ho as (ob & Hp & Hob & Hoi & Hot); [|done]. exists JOB_DEPENDENCY. by eapply goes_on; [constructor|..]. }
    clear Ho. revert Hoj Hstart. induction Hreach as [|a b c [Hbj (ab & Hab & Hb)] _ IH]; intros Haj (r & Hg); [by exists r|].
    apply IH; [done|]. exists JOB_DEPENDENCY. destruct (goes_inv _ _ _ _ _ _ Hg) as [[? _]|(_ & -> & kb & Hk & Ht)]; [done|].
    assert (kb = ab) as -> by congruence. rewrite <- (start_atoms (j_unit ab) (j_type ab) JOB_DEPENDENCY) in Hb by done.
    apply waits_for_passes in Hb as (bb & Hp & Hbb & Hbi & Hbt); [|done]. by eapply goes_on.
Qed.

(** Finishing a job, where what its end sets off in other units leaves the jobs alone, frees
    exactly these jobs. *)
Lemma finish_frees hook j jb result recursive st :
  sys_ok st → few st → heap st !! j = Some jb → j_installed jb = true → ¬ (result = JOB_DONE ∧ j_type jb = JOB_RESTART) →
  (∀ k kb r, goes j result recursive st k r → heap st !! k = Some kb → hook_quiet hook (j_unit kb) r) →
  ∃ st', finish_job hook (S (size (heap st))) j result recursive st = Some st' ∧ sys_ok st' ∧
    ∀ k, is_Some (heap st' !! k) ↔ is_Some (heap st !! k) ∧ ∀ r, ¬ goes j result recursive st k r.
Proof.
  intros Hok Hfew Hj Hi Hnr Hq.
  destruct (finish_core hook (size (heap st)) j jb result recursive st) as (st' & H & [(st1 & Hh & Hok1 & Hsh1 & Hc & Hall) _]);
    [apply rec_finish|by apply (Hq j); [constructor|]| |done..|lia|done|].
  { intros Hr s1 Hh1 o Ho k kb Hreach Hk. apply (waits_for_delete j st) in Ho as [Hoj Ho]; [|done].
    rewrite Hh1 in Hk. apply lookup_delete_Some in Hk as [Hkj Hk].
    destruct (proj2 (goes_iff j jb result recursive st k Hj)) as [r Hg].
    - right. split; [done|]. exists o. split_and!; [done..|]. eapply rtc_subrel, Hreach. intros a b Hab.
      by apply (fails_delete j st) in Hab as (_ & ? & ?).
    - destruct (goes_inv _ _ _ _ _ _ Hg) as [[-> _]|(_ & -> & _)]; [done|]. by apply (Hq k). }
  exists st'. split_and!; [done|apply (ca_ok _ _ _ Hc)|]. intros k.
  assert (Hw : ∀ atoms u o, waits_for atoms st1 u o ↔ o ≠ j ∧ waits_for atoms st u o) by (intros; by apply waits_for_delete).
  assert (Hgone : is_Some (heap st !! k) → heap st' !! k = None ↔ ∃ r, goes j result recursive st k r).
  { intros Hk. rewrite (goes_iff j jb) by done. split.
    - intros Hn. destruct (decide (k = j)) as [->|Hne]; [by left|right].
      destruct (ca_sound _ _ _ Hc k) as (o & [Hr Ho] & Hreach); [by rewrite Hh, lookup_delete_ne|done|].
      split; [done|]. exists o. apply Hw in Ho as [? ?]. split_and!; [done..|].
      eapply rtc_subrel, Hreach. intros a b Hab. by apply (fails_delete j st) in Hab as (_ & ? & ?).
    - intros [->|(Hr & o & Hoj & Ho & Hreach)].
      { apply (shrinks_gone st1); [apply (ca_shrinks _ _ _ Hc)|]. rewrite Hh. apply lookup_delete_eq. }
      assert (Hgone : o ≠ j ∧ heap st' !! o = None) by (split; [done|by apply Hall, Hw]). clear Ho Hoj Hk.
      revert Hgone. induction Hreach as [|a b c [Hbj (ab & Hab & Hb)] _ IH]; intros [Haj Hgone]; [done|].
      apply IH. split; [done|]. apply (ca_closed _ _ _ Hc a ab b); [by rewrite Hh, lookup_delete_ne|done|]. by apply Hw. }
  split.
  - intros Hs. assert (Hk : is_Some (heap st !! k)).
    { destruct Hs as [kb' Hkb']. destruct (heap st !! k) eqn:Ek; [eauto|]. by rewrite (shrinks_gone st st' k) in Hkb' by (done || by eapply shrinks_trans, Hc). }
    split; [done|]. intros r Hg. destruct Hs as [kb' Hkb']. assert (heap st' !! k = None) by (apply Hgone; eauto). congruence.
  - intros [Hk Hn]. destruct (heap st' !! k) eqn:Ek; [eauto|]. destruct (proj1 (Hgone Hk) eq_refl) as [r Hg]. by destruct (Hn r).
Qed.

(** ** Properties *)

(** When a restart job is done it is not freed: it becomes a waiting start job of the
    same unit, is put back on the run queue, and every other job stays. *)
Theorem finish_restart_starts (j : positive) (jb : Job) (recursive : bool) (st : State) :
  sys_ok st → few st → heap st !! j = Some jb → j_installed jb = true → j_type jb = JOB_RESTART →
  ∃ st' jb', job_finish_and_invalidate j JOB_DONE recursive st = Some st' ∧ sys_ok st' ∧
    heap st' !! j = Some jb' ∧ j_type jb' = JOB_START ∧ j_state jb' = JOB_WAITING ∧ j_unit jb' = j_unit jb ∧
    installed_job st' (j_unit jb) = Some j ∧ (∀ k, is_Some (heap st' !! k) ↔ is_Some (heap st !! k)) ∧
    (rq_alloc_ok j = true → j ∈ rq_jobs (run_queue (mgr st'))).
Proof.
  intros Hok Hfew Hj Hi Ht. destruct (finish_restart_spec j jb recursive st Hok Hfew Hj Hi Ht)
    as (stw & jbw & st' & H & Hok' & Hjw & Hiw & Htw & Hsw & Huw & _ & Hkw & _ & _ & Hsh & Hk & Hq).
  destruct (proj1 Hk j) as [jb' Hj']; [eauto|].
  destruct (sh_heap _ _ Hsh j jb' Hj') as (jbw' & ? & ? & ? & ? & ? & ? & ?). assert (jbw' = jbw) by congruence. subst jbw'.
  exists st', jb'. split_and!; try done; try congruence.
  - rewrite <- Huw. replace (j_unit jbw) with (j_unit jb') by congruence. apply starting_slot; try done; [congruence|].
    replace (j_type jb') with JOB_START by congruence. apply list_elem_of_here.
  - intros k. transitivity (is_Some (heap stw !! k)).
    + split; [|apply Hk]. intros [kb Hkb]. destruct (sh_heap _ _ Hsh k kb Hkb) as (? & ? & _). eauto.
    + destruct (decide (k = j)) as [->|Hne]; [by rewrite Hjw, Hj|by rewrite Hkw].
Qed.

(** C29: after [job_finish_and_invalidate] every installed job of a unit that is ordered
    before or after the job's unit is on the run queue (unless memory ran out for it), so
    that a job that was waiting for this one is looked at again. *)
Theorem finish_requeues_ordered (j : positive) (jb : Job) (result : JobResult) (recursive : bool) (st : State)
    (v o : positive) :
  sys_ok st → few st → heap st !! j = Some jb → j_installed jb = true →
  ¬ (result = JOB_DONE ∧ j_type jb = JOB_RESTART) →
  v ∈ unit_dependencies (j_unit jb) UNIT_ATOM_AFTER ∨ v ∈ unit_dependencies (j_unit jb) UNIT_ATOM_BEFORE →
  rq_alloc_ok o = true →
  ∃ st', job_finish_and_invalidate j result recursive st = Some st' ∧
    (installed_job st' v = Some o → o ∈ rq_jobs (run_queue (mgr st'))).
Proof.
  intros Hok Hfew Hj Hi Hnr Hv Hal. destruct (job_finish_spec j jb result recursive st) as (st' & H & Hf); [done..|].
  exists st'. split; [done|]. intros Ho. apply (fi_queue _ _ _ _ _ _ Hf v o); [|done..]. by apply elem_of_app.
Qed.

End JobFinish.

(** ** Four installed jobs

    The job of unit 1 runs; units 2 and then 3 require it, unit 4 is only ordered after
    it. Unit 5 is being restarted. *)

Definition fin_env : Env := ex_env
  (ex_deps [(1, UNIT_ATOM_PROPAGATE_START_FAILURE, 2); (2, UNIT_ATOM_PROPAGATE_START_FAILURE, 3);
            (1, UNIT_ATOM_BEFORE, 4)]%positive) (λ _, UNIT_INACTIVE) [].

Definition fin_job (u : positive) (t : JobType) (s : JobState) : Job :=
  MkJob u (Zpos u) t s JOB_DONE true false false false None 0 false false false.

Definition fin_state : @State ex_rq :=
  @MkState ex_rq
    (list_to_map [(1%positive, fin_job 1 JOB_START JOB_RUNNING); (2%positive, fin_job 2 JOB_START JOB_WAITING);
                  (3%positive, fin_job 3 JOB_VERIFY_ACTIVE JOB_WAITING); (4%positive, fin_job 4 JOB_START JOB_WAITING);
                  (5%positive, fin_job 5 JOB_RESTART JOB_RUNNING)])
    [] ∅ None false
    (@MkManager ex_rq (list_to_map [(1, 1); (2, 2); (3, 3); (4, 4); (5, 5)]%positive) ∅
       (list_to_map [(1, 1%positive); (2, 2%positive); (3, 3%positive); (4, 4%positive); (5, 5%positive)])
       6 5 2 0 (@rq_empty ex_rq) [] [] (λ _, UNIT_LOADED) []).

Lemma fin_state_ok : sys_ok fin_state.
Proof. apply sys_ok_check; [|done]. by_decide. Qed.

Lemma finish_restart_starts_witness :
  let E := fin_env in
  ∃ st' jb', job_finish_and_invalidate 5 JOB_DONE true fin_state = Some st' ∧
    heap st' !! 5%positive = Some jb' ∧ j_type jb' = JOB_START ∧ 5%positive ∈ rq_jobs (run_queue (mgr st')).
Proof.
  intros E. destruct (@finish_restart_starts ex_rq E 5 (fin_job 5 JOB_RESTART JOB_RUNNING) true fin_state)
    as (st' & jb' & H1 & H2 & H3 & H4 & _ & _ & _ & _ & H5).
  - exact fin_state_ok.
  - by vm_compute.
  - reflexivity.
  - reflexivity.
  - reflexivity.
  - exists st', jb'. split_and!; [exact H1|exact H3|exact H4|by apply H5].
Defined.

Lemma finish_requeues_ordered_witness :
  let E := fin_env in
  ∃ st', job_finish_and_invalidate 1 JOB_FAILED true fin_state = Some st' ∧
    (installed_job st' 4 = Some 4%positive → 4%positive ∈ rq_jobs (run_queue (mgr st'))).
Proof.
  intros E. apply (@finish_requeues_ordered ex_rq E 1 (fin_job 1 JOB_START JOB_RUNNING)).
  - exact fin_state_ok.
  - by vm_compute.
  - reflexivity.
  - reflexivity.
  - by intros [? _].
  - right. by_decide.
  - reflexivity.
Defined.

(** The run of the first example: 1, 2 and 3 are gone, 4 is queued. *)
Example finish_fails_dependents :
  let E := fin_env in
  (λ st, (map_to_list (heap st)).*1) <$> job_finish_and_invalidate 1 JOB_FAILED true fin_state
    = Some [5; 4]%positive ∧
  (λ st, rq_jobs (run_queue (mgr st))) <$> job_finish_and_invalidate 1 JOB_FAILED true fin_state
    = Some [4]%positive.
Proof. split; vm_compute; reflexivity. Qed.
