(* ===== verification/JobInstall.v ===== *)
(** * Installing jobs (src/core/job.c)

    [job_install] puts a job into the slot of its unit. A job that is already there is
    cancelled if the two conflict, and otherwise absorbs the new one. *)

From S2P Require Import Prelude JobType Prioq RunQueue JobData TrDelete TrFix JobOps JobFinish.

Section JobInstall.
Context {RQ : RunQueue} {E : Env}.
Implicit Types (st : State) (j k u i o v : positive) (t : JobType).

(** ** Steps that change the jobs of one unit only *)

Record moves (u : positive) st st' : Prop := {
  mv_tr : jobs st' = jobs st ∧ links st' = links st ∧ irreversible st' = irreversible st;
  mv_dom k : is_Some (heap st' !! k) → is_Some (heap st !! k);
  mv_other k kb : heap st !! k = Some kb → j_unit kb ≠ u → ∃ kb', heap st' !! k = Some kb' ∧
    j_unit kb' = j_unit kb ∧ j_id kb' = j_id kb ∧ j_installed kb' = j_installed kb ∧ j_type kb' = j_type kb ∧
    j_state kb' = j_state kb ∧ (j_in_run_queue kb = true → j_in_run_queue kb' = true) ∧
    (j_installed kb = false → kb' = kb);
  mv_unit k kb' : heap st' !! k = Some kb' → ∃ kb, heap st !! k = Some kb ∧ j_unit kb' = j_unit kb ∧ j_id kb' = j_id kb;
  mv_ids id i : m_jobs (mgr st) !! id = Some i → m_jobs (mgr st') !! id = Some i ∨ heap st' !! i = None;
  mv_env : current_job_id (mgr st') = current_job_id (mgr st) ∧ load_state (mgr st') = load_state (mgr st);
  mv_back id i : m_jobs (mgr st') !! id = Some i → m_jobs (mgr st) !! id = Some i;
  mv_gone k kb : heap st !! k = Some kb → heap st' !! k = None → m_jobs (mgr st') !! j_id kb ≠ Some k;
  mv_stays k kb kb' : heap st !! k = Some kb → heap st' !! k = Some kb' → j_installed kb = true → j_installed kb' = true;
}.

Lemma moves_refl u st : moves u st st.
Proof.
  split; try done; [| |by left| |]; [intros k kb Hk _; exists kb; split_and!; done|intros k kb Hk; exists kb; done|..];
    intros; congruence.
Qed.

Lemma moves_trans u st1 st2 st3 : moves u st1 st2 → moves u st2 st3 → moves u st1 st3.
Proof.
  intros [(A1 & A2 & A3) A4 A5 A6 A7 [A8 A9] A10 A11 A12] [(B1 & B2 & B3) B4 B5 B6 B7 [B8 B9] B10 B11 B12]. split.
  - split_and!; congruence.
  - auto.
  - intros k kb Hk Hu. destruct (A5 k kb Hk Hu) as (kb2 & Hk2 & ? & ? & ? & ? & ? & ? & Hi2).
    destruct (B5 k kb2 Hk2) as (kb3 & Hk3 & ? & ? & ? & ? & ? & ? & Hi3); [congruence|].
    exists kb3. split_and!; try congruence; [by auto|]. intros Hi. rewrite Hi3 by congruence. by apply Hi2.
  - intros k kb3 Hk3. destruct (B6 k kb3 Hk3) as (kb2 & Hk2 & ? & ?).
    destruct (A6 k kb2 Hk2) as (kb1 & ? & ? & ?). exists kb1. split_and!; congruence.
  - intros id i Hi. destruct (A7 id i Hi) as [H2|H2]; [by apply B7|right].
    destruct (heap st3 !! i) eqn:E3; [|done]. destruct (B4 i) as [? ?]; [by rewrite E3|congruence].
  - split; congruence.
  - auto.
  - intros k kb Hk Hn. destruct (heap st2 !! k) as [kb2|] eqn:E2.
    + destruct (A6 k kb2 E2) as (kb1 & ? & _ & Hid). assert (kb1 = kb) by congruence. subst kb1.
      rewrite <- Hid. by apply B11.
    + intros Hx. by apply (A11 k kb Hk E2), B10.
  - intros k kb kb3 Hk Hk3 Hi. destruct (B4 k) as [kb2 Hk2]; [by rewrite Hk3|]. eauto.
Qed.

Lemma moves_size u st st' : moves u st st' → (size (heap st') <= size (heap st))%nat.
Proof.
  intros H. rewrite <- !(size_dom (D := gset positive)). apply subseteq_size. intros k Hk%elem_of_dom.
  apply elem_of_dom. by apply (mv_dom _ _ _ H).
Qed.

Lemma moves_few u st st' : moves u st st' → few st → few st'.
Proof. intros H. pose proof (moves_size _ _ _ H). unfold few. lia. Qed.

(** Only jobs of [u] are gone. *)
Lemma shrinks_moves u st st' :
  shrinks st st' → (∀ k kb, heap st !! k = Some kb → heap st' !! k = None → j_unit kb = u) → moves u st st'.
Proof.
  intros H Hg. destruct (sh_tr _ _ H) as (? & ? & ? & ?). split.
  - done.
  - intros k [kb Hk]. destruct (sh_heap _ _ H k kb Hk) as (? & ? & _). eauto.
  - intros k kb Hk Hu. destruct (heap st' !! k) as [kb'|] eqn:E'; [|by destruct Hu; apply (Hg k)].
    destruct (sh_heap _ _ H k kb' E') as (kb0 & ? & ? & ? & ? & ? & ? & ?).
    assert (kb0 = kb) by congruence. subst kb0. exists kb'. split_and!; try done.
    intros Hi. pose proof (sh_idle _ _ H k kb Hk Hi). congruence.
  - intros k kb' Hk. destruct (sh_heap _ _ H k kb' Hk) as (kb & ? & ? & ? & _). eauto.
  - apply (sh_ids _ _ H).
  - apply (sh_env _ _ H).
  - apply (sh_back _ _ H).
  - apply (sh_gone _ _ H).
  - intros k kb kb' Hk Hk' Hi. destruct (sh_heap _ _ H k kb' Hk') as (? & ? & _ & _ & ? & _). congruence.
Qed.

Lemma keeps_moves u st st' : shrinks st st' → keeps st st' → moves u st st'.
Proof.
  intros H [Hk _]. apply shrinks_moves; [done|]. intros k kb Hkb Hn. destruct (Hk k); [eauto|congruence].
Qed.

(** Cancelling a job takes only this job away. *)
Lemma cancel_spec j jb st :
  sys_ok st → few st → heap st !! j = Some jb → j_installed jb = true →
  ∃ st', job_finish_and_invalidate j JOB_CANCELED false st = Some st' ∧ sys_ok st' ∧ shrinks st st' ∧ moves (j_unit jb) st st' ∧
    heap st' !! j = None ∧ ∀ k, k ≠ j → is_Some (heap st !! k) → is_Some (heap st' !! k).
Proof.
  intros Hok Hfew Hj Hi.
  destruct (job_finish_spec j jb JOB_CANCELED false st) as (st' & H & [(st1 & Hh & Hok1 & Hsh1 & Hc & _) _]);
    [done..|by intros [? _]|].
  pose proof (shrinks_trans _ _ _ Hsh1 (ca_shrinks _ _ _ Hc)) as Hsh.
  assert (Hk : ∀ k, k ≠ j → is_Some (heap st !! k) → is_Some (heap st' !! k)).
  { intros k Hne Hk. destruct (heap st' !! k) eqn:E'; [done|]. exfalso.
    destruct (ca_sound _ _ _ Hc k) as (? & [? _] & _); [by rewrite Hh, lookup_delete_ne|done|done]. }
  exists st'. split_and!; [done|apply (ca_ok _ _ _ Hc)|done| | |done].
  - apply shrinks_moves; [done|]. intros k kb Hkb Hn. destruct (decide (k = j)) as [->|Hne]; [congruence|].
    destruct (Hk k Hne) as [? ?]; [eauto|congruence].
  - apply (shrinks_gone st1); [apply (ca_shrinks _ _ _ Hc)|]. rewrite Hh. apply lookup_delete_eq.
Qed.

(** ** Putting a job into an empty slot *)

(** A job on its way from the transaction to its slot. *)
Record pending (j : positive) (jb : Job) st : Prop := {
  pe_heap : heap st !! j = Some jb;
  pe_idle : idle jb;
  pe_state : j_state jb = JOB_WAITING;
  pe_tr : ¬ in_tr st j;
  pe_id : m_jobs (mgr st) !! j_id jb = Some j;
}.

Definition put_in_slot (j : positive) (jb : Job) st : State :=
  alter_mgr (λ m, set_n_installed_jobs (u32 (n_installed_jobs m + 1)) m)
    (alter_job (set_j_installed true) j (set_slot jb (Some j) st)).

Lemma put_in_slot_ok j jb st :
  sys_ok st → pending j jb st → slot st jb = None → sys_ok (put_in_slot j jb st).
Proof.
  intros [Htr Hm] [Hj (Hi & Hr & Hd & Hg) Hs Hnt Hid] Hslot.
  assert (Hh : heap (put_in_slot j jb st) = alter (set_j_installed true) j (heap st))
    by (unfold put_in_slot, set_slot; by case_bool_decide).
  assert (Hjobs : jobs (put_in_slot j jb st) = jobs st ∧ links (put_in_slot j jb st) = links st)
    by (unfold put_in_slot, set_slot; by case_bool_decide).
  split.
  { apply (tr_ok_frame st); [apply Hjobs..| |done]. intros k Hk. rewrite Hh, lookup_alter_ne; [done|].
    intros ->. done. }
  assert (Hother : ∀ k kb, heap (put_in_slot j jb st) !! k = Some kb →
    (k = j ∧ kb = set_j_installed true jb) ∨ (k ≠ j ∧ heap st !! k = Some kb)).
  { intros k kb. rewrite Hh. destruct (decide (k = j)) as [->|Hne].
    - rewrite lookup_alter_eq, Hj. intros [= <-]. by left.
    - rewrite lookup_alter_ne by done. by right. }
  assert (Hself : heap (put_in_slot j jb st) !! j = Some (set_j_installed true jb))
    by (rewrite Hh, lookup_alter_eq, Hj; done).
  assert (Hkept : ∀ k kb, heap st !! k = Some kb → j_installed kb = true → heap (put_in_slot j jb st) !! k = Some kb).
  { intros k kb Hk Hki. rewrite Hh, lookup_alter_ne; [done|]. intros ->. congruence. }
  assert (Hq : ∀ (flag : Job → bool) q, flag jb = false → (∀ b, flag (set_j_installed true b) = flag b) →
    queue_ok flag q (heap st) → queue_ok flag q (heap (put_in_slot j jb st))).
  { intros flag q _ Hf Hq. rewrite Hh. apply queue_alter; [by intros|done]. }
  assert (Hm' : run_queue (mgr (put_in_slot j jb st)) = run_queue (mgr st) ∧
    dbus_job_queue (mgr (put_in_slot j jb st)) = dbus_job_queue (mgr st) ∧
    gc_job_queue (mgr (put_in_slot j jb st)) = gc_job_queue (mgr st) ∧
    m_jobs (mgr (put_in_slot j jb st)) = m_jobs (mgr st) ∧
    n_running_jobs (mgr (put_in_slot j jb st)) = n_running_jobs (mgr st)).
  { unfold put_in_slot, set_slot. by case_bool_decide. }
  destruct Hm' as (Hrq & Hdq & Hgq & Hmj & Hnr). unfold slot in Hslot. split.
  - intros k kb [[-> ->]|[_ Hk]]%Hother; [exact (mo_types _ Hm j jb Hj)|by apply (mo_types _ Hm k)].
  - intros u i Hu. unfold put_in_slot, set_slot in Hu. case_bool_decide as Hn.
    + destruct (mo_job _ Hm u i Hu) as (ib & Hib & Hii & ?). eauto.
    + cbn in Hu. apply lookup_insert_Some in Hu as [[<- <-]|[_ Hu]].
      * eexists. split; [exact Hself|done].
      * destruct (mo_job _ Hm u i Hu) as (ib & Hib & Hii & ?). eauto.
  - intros u i Hu. unfold put_in_slot, set_slot in Hu. case_bool_decide as Hn.
    + cbn in Hu. apply lookup_insert_Some in Hu as [[<- <-]|[_ Hu]].
      * eexists. split; [exact Hself|done].
      * destruct (mo_nop _ Hm u i Hu) as (ib & Hib & Hii & ?). eauto.
    + destruct (mo_nop _ Hm u i Hu) as (ib & Hib & Hii & ?). eauto.
  - intros k kb [[-> ->]|[Hne Hk]]%Hother Hki.
    + unfold slot, put_in_slot, set_slot. cbn [j_type j_unit set_j_installed]. case_bool_decide; cbn; apply lookup_insert_eq.
    + pose proof (mo_slot _ Hm k kb Hk Hki) as Hsk. unfold slot, put_in_slot, set_slot in *.
      do 2 case_bool_decide; try done; cbn; (rewrite lookup_insert_ne; [done|congruence]).
  - intros k kb [[-> ->]|[Hne Hk]]%Hother Hki; rewrite Hmj; [done|by apply (mo_id _ Hm)].
  - rewrite Hrq. apply (mo_rq _ Hm).
  - rewrite Hrq. apply Hq; [done..|apply (mo_run _ Hm)].
  - rewrite Hdq. apply Hq; [done..|apply (mo_dbus _ Hm)].
  - rewrite Hgq. apply Hq; [done..|apply (mo_gc _ Hm)].
  - intros k kb [[-> ->]|[Hne Hk]]%Hother Hki; [done|by apply (mo_queued _ Hm k)].
  - rewrite Hnr, Hh, (mo_running _ Hm), (count_running_alter _ _ _ _ Hj). unfold run_bit, is_running. cbn. rewrite Hs, Hi.
    rewrite !bool_decide_eq_false_2 by done. cbn [andb]. lia.
Qed.

(** The new job is announced; it stays in its slot. *)
Lemma install_new_spec j jb st :
  sys_ok st → few st → pending j jb st → slot st jb = None →
  ∃ st' jb', (st ← job_add_to_gc_queue j (put_in_slot j jb st);
              st ← job_add_to_dbus_queue j st;
              Some (j, call (unit_add_to_dbus_queue (j_unit jb)) st)) = Some (j, st') ∧
    sys_ok st' ∧ moves (j_unit jb) st st' ∧ anchor_job st' = anchor_job st ∧
    heap st' !! j = Some jb' ∧ j_installed jb' = true ∧ j_unit jb' = j_unit jb ∧ j_type jb' = j_type jb ∧
    ∀ k, is_Some (heap st !! k) → is_Some (heap st' !! k).
Proof.
  intros Hok Hfew Hp Hslot. pose proof (put_in_slot_ok j jb st Hok Hp Hslot) as Hok1.
  destruct Hp as [Hj Hidle Hs Hnt Hid]. set (st1 := put_in_slot j jb st) in *.
  assert (Hh1 : heap st1 = alter (set_j_installed true) j (heap st))
    by (unfold st1, put_in_slot, set_slot; by case_bool_decide).
  assert (Hj1 : heap st1 !! j = Some (set_j_installed true jb)) by (rewrite Hh1, lookup_alter_eq, Hj; done).
  assert (Hmv1 : moves (j_unit jb) st st1 ∧ anchor_job st1 = anchor_job st).
  { split; [|unfold st1, put_in_slot, set_slot; by case_bool_decide]. split.
    - unfold st1, put_in_slot, set_slot; by case_bool_decide.
    - intros k. rewrite Hh1. by rewrite lookup_alter_is_Some.
    - intros k kb Hk Hu. rewrite Hh1, lookup_alter_ne; [|intros ->; congruence]. exists kb. split_and!; done.
    - intros k kb'. rewrite Hh1. destruct (decide (k = j)) as [->|Hne].
      + rewrite lookup_alter_eq, Hj. intros [= <-]. eauto.
      + rewrite lookup_alter_ne by done. eauto.
    - intros id i Hi. left. unfold st1, put_in_slot, set_slot; by case_bool_decide.
    - unfold st1, put_in_slot, set_slot; by case_bool_decide.
    - intros id i. unfold st1, put_in_slot, set_slot; by case_bool_decide.
    - intros k kb Hk Hn. rewrite Hh1 in Hn. apply lookup_alter_None in Hn. congruence.
    - intros k kb kb' Hk Hk' Hi. rewrite Hh1 in Hk'. destruct (decide (k = j)) as [->|Hne].
      + rewrite lookup_alter_eq, Hk in Hk'. by injection Hk' as <-.
      + rewrite lookup_alter_ne in Hk' by done. congruence. }
  destruct Hmv1 as [Hmv1 Ha1].
  destruct (add_to_gc_queue_spec j _ st1 Hok1 Hj1 eq_refl) as (st2 & H2 & Hok2 & Hsh2).
  pose proof (add_to_gc_queue_keeps _ _ _ H2) as Hk2. rewrite H2. cbn [mbind option_bind].
  destruct (still_installed j _ st1 st2 Hj1 eq_refl Hk2 Hsh2) as (jb2 & Hj2 & Hi2).
  destruct (add_to_dbus_queue_spec j jb2 st2 Hok2 Hj2 Hi2) as (st3 & H3 & Hok3 & Hsh3).
  pose proof (add_to_dbus_queue_keeps _ _ _ H3) as Hk3. rewrite H3. cbn [mbind option_bind].
  destruct (call_ok (unit_add_to_dbus_queue (j_unit jb)) st3 Hok3) as [Hok4 Hsh4].
  set (st4 := call _ st3) in *. assert (Hk4 : keeps st3 st4) by done.
  pose proof (keeps_trans _ _ _ (keeps_trans _ _ _ Hk2 Hk3) Hk4) as Hk.
  pose proof (shrinks_trans _ _ _ (shrinks_trans _ _ _ Hsh2 Hsh3) Hsh4) as Hsh.
  destruct (proj1 Hk j) as [jb4 Hj4]; [eauto|].
  destruct (sh_heap _ _ Hsh j jb4 Hj4) as (jb1 & Hjb1 & ? & ? & ? & ? & _).
  rewrite Hj1 in Hjb1. injection Hjb1 as <-.
  exists st4, jb4. split_and!; try done.
  - eapply moves_trans; [exact Hmv1|by apply keeps_moves].
  - rewrite <- Ha1. apply (sh_tr _ _ Hsh).
  - intros k Hkk. apply Hk. rewrite Hh1. by rewrite lookup_alter_is_Some.
Qed.

(** ** Merging into the installed job *)

(** The type a unit's job has afterwards. *)
Definition installed_type st (jb : Job) : option JobType :=
  match slot st jb with
  | None => Some (j_type jb)
  | Some i =>
      ib ← heap st !! i;
      c ← job_type_is_conflicting (j_type ib) (j_type jb);
      if c : bool then Some (j_type jb)
      else if bool_decide (j_type jb = JOB_NOP) then Some JOB_NOP
      else r ← job_type_merge_and_collapse (j_type ib) (j_type jb) (unit_active_state (j_unit jb));
           match r with Ok t => Some t | Err _ => None end
  end.

Lemma installed_type_becomes st jb t :
  installed_type st jb = Some t → becomes (unit_active_state (j_unit jb)) (j_type jb) t.
Proof.
  unfold installed_type. destruct (slot st jb) as [i|]; [|intros [= <-]; by left].
  destruct (heap st !! i) as [ib|]; [|done]. cbn [mbind option_bind].
  destruct (job_type_is_conflicting _ _) as [[]|]; [intros [= <-]; by left| |done]. cbn [mbind option_bind].
  case_bool_decide as Hn; [intros [= <-]; left; by rewrite Hn|].
  destruct (job_type_merge_and_collapse _ _ _) as [[t'|]|] eqn:Em; [|done..]. intros [= <-]. right. by apply merge_answers in Em as [_ ?].
Qed.

Lemma conflicting_or_merges a b s :
  transaction_type a → transaction_type b → (a = JOB_NOP ↔ b = JOB_NOP) →
  job_type_is_conflicting a b = Some true ∨
  (job_type_is_conflicting a b = Some false ∧ is_Some (job_type_is_superset a b) ∧
   (a = JOB_NOP ∨ a ≠ JOB_NOP ∧ ∃ t, job_type_merge_and_collapse a b s = Some (Ok t) ∧ merging_type t)).
Proof.
  unfold transaction_type, _JOB_TYPE_MAX_IN_TRANSACTION. intros Ha Hb Hn.
  destruct a; cbn in Ha; try lia; destruct b; cbn in Hb; try lia; try (exfalso; naive_solver);
    try (left; reflexivity); right; (split; [reflexivity|]); (split; [eexists; reflexivity|]);
    first [by left|right; split; [done|destruct s; eexists; (split; [reflexivity|done])]].
Qed.

(** The job in the slot is of the same kind as the new one. *)
Lemma slot_job j jb st i :
  sys_ok st → pending j jb st → slot st jb = Some i →
  ∃ ib, heap st !! i = Some ib ∧ j_installed ib = true ∧ j_unit ib = j_unit jb ∧
    (j_type ib = JOB_NOP ↔ j_type jb = JOB_NOP) ∧ i ≠ j.
Proof.
  intros [_ Hm] [Hj [Hi _] _ _ _] Hs. unfold slot in Hs. case_bool_decide as Hn.
  - destruct (mo_nop _ Hm _ i Hs) as (ib & ? & ? & ? & ?). exists ib. split_and!; [done..|intros ->; congruence].
  - destruct (mo_job _ Hm _ i Hs) as (ib & ? & ? & ? & ?). exists ib. split_and!; [done..|intros ->; congruence].
Qed.

(** After the job in the slot is gone the new one is still pending, and the slot is empty. *)
Lemma pending_shrinks j jb st st1 i :
  sys_ok st → sys_ok st1 → pending j jb st → slot st jb = Some i → shrinks st st1 → heap st1 !! i = None →
  pending j jb st1 ∧ slot st1 jb = None.
Proof.
  intros Hok Hok1 [Hj Hidle Hs Hnt Hid] Hslot Hsh Hgone. pose proof (sh_idle _ _ Hsh j jb Hj (proj1 Hidle)) as Hj1.
  split.
  - split; try done.
    + unfold in_tr. by rewrite (proj1 (sh_tr _ _ Hsh)).
    + destruct (sh_ids _ _ Hsh _ _ Hid); [done|congruence].
  - destruct (slot st1 jb) as [o|] eqn:Eo; [|done]. exfalso.
    assert (∃ ob, heap st1 !! o = Some ob ∧ j_installed ob = true ∧ j_unit ob = j_unit jb ∧
      (j_type ob = JOB_NOP ↔ j_type jb = JOB_NOP)) as (ob & Hob & Hoi & Hou & Hon).
    { unfold slot in Eo. case_bool_decide.
      - destruct (mo_nop _ (proj2 Hok1) _ o Eo) as (ob & ? & ? & ? & ?). by exists ob.
      - destruct (mo_job _ (proj2 Hok1) _ o Eo) as (ob & ? & ? & ? & ?). by exists ob. }
    destruct (sh_heap _ _ Hsh o ob Hob) as (ob0 & Hob0 & Hu0 & _ & Hi0 & Ht0 & _).
    pose proof (mo_slot _ (proj2 Hok) o ob0 Hob0) as Hs0. rewrite <- Hi0, Hoi in Hs0. specialize (Hs0 eq_refl).
    unfold slot in Hs0, Hslot. rewrite <- Ht0, <- Hu0, Hou, (bool_decide_ext _ _ Hon) in Hs0. congruence.
Qed.

Definition absorb_installed (t : JobType) (jb : Job) (ub : Job) : Job :=
  set_j_ignore_order (j_ignore_order ub || j_ignore_order jb)
    (set_j_irreversible (j_irreversible ub || j_irreversible jb) (set_j_type t ub)).

(** Changing a job of the unit in place. *)
Lemma alter_moves f i ib st tr n :
  heap st !! i = Some ib → j_unit (f ib) = j_unit ib → j_id (f ib) = j_id ib → j_installed (f ib) = j_installed ib →
  moves (j_unit ib) st (alter_job f i (alter_mgr (λ m, set_trace tr (set_n_running_jobs n m)) st)).
Proof.
  intros Hi Hu Hid Hinst. split; try done.
  - intros k. unfold alter_job. st_simpl. by rewrite lookup_alter_is_Some.
  - intros k kb Hk Hne. rewrite heap_alter_job, decide_False; [|intros ->; congruence].
    exists kb. split_and!; done.
  - intros k kb'. rewrite heap_alter_job. change (heap (alter_mgr ?f ?s)) with (heap s). case_decide; [subst; rewrite Hi; intros [= <-]|]; eauto.
  - intros id k Hk. by left.
  - intros k kb Hk. rewrite heap_alter_job. change (heap (alter_mgr ?f ?s)) with (heap s). rewrite Hk. by case_decide.
  - intros k kb kb' Hk. rewrite heap_alter_job. change (heap (alter_mgr ?f ?s)) with (heap s). rewrite Hk.
    case_decide; [subst k|congruence]. intros [= <-]. congruence.
Qed.

Lemma merge_installed_spec i ib j jb st t :
  sys_ok st → heap st !! i = Some ib → j_installed ib = true → transaction_type t →
  (t = JOB_NOP ↔ j_type ib = JOB_NOP) →
  let st' := alter_job (absorb_installed t jb) i st in
  sys_ok st' ∧ moves (j_unit ib) st st' ∧ anchor_job st' = anchor_job st ∧
  heap st' !! i = Some (absorb_installed t jb ib) ∧
  ∃ st'', job_set_state i JOB_WAITING st' = Some st'' ∧ sys_ok st'' ∧ moves (j_unit ib) st st'' ∧
    anchor_job st'' = anchor_job st ∧
    heap st'' !! i = Some (set_j_state JOB_WAITING (absorb_installed t jb ib)) ∧
    ∀ k, k ≠ i → heap st'' !! k = heap st !! k.
Proof.
  intros Hok Hi Hii Ht Hn st'.
  assert (Hok' : sys_ok st') by (by apply (alter_in_place _ _ ib)).
  assert (Hmv : moves (j_unit ib) st st').
  { replace st' with (alter_job (absorb_installed t jb) i (alter_mgr (λ m, set_trace (trace (mgr st))
      (set_n_running_jobs (n_running_jobs (mgr st)) m)) st)) by (by destruct st as [? ? ? ? ? []]).
    by apply alter_moves. }
  assert (Hi' : heap st' !! i = Some (absorb_installed t jb ib))
    by (unfold st'; by rewrite heap_alter_job, decide_True, Hi).
  split_and!; [done..|]. set (ib' := absorb_installed t jb ib) in *.
  destruct (set_waiting_spec i ib' st' (proj2 Hok') Hi' Hii) as [tr Hw]. eexists. split; [exact Hw|].
  split_and!; try done.
  - apply (update_keeping_queues (set_j_state JOB_WAITING) i ib' st' (n_running_jobs (mgr st') - run_bit ib')); try done.
    unfold run_bit at 3, is_running. cbn. rewrite andb_false_r. lia.
  - eapply moves_trans; [exact Hmv|].
    apply (alter_moves (set_j_state JOB_WAITING) i ib' st' tr (n_running_jobs (mgr st') - run_bit ib')); done.
  - rewrite heap_alter_job, decide_True by done. change (heap (alter_mgr ?f ?s)) with (heap s). by rewrite Hi'.
  - intros k Hk. rewrite heap_alter_job, decide_False by done. change (heap (alter_mgr ?f ?s)) with (heap s).
    unfold st'. by rewrite heap_alter_job, decide_False.
Qed.

(** ** [job_install] *)

Record installs (j : positive) (jb : Job) st i st' : Prop := {
  in_ok : sys_ok st';
  in_moves : moves (j_unit jb) st st';
  in_anchor : anchor_job st' = anchor_job st;
  in_job : ∃ ib, heap st' !! i = Some ib ∧ j_installed ib = true ∧ j_unit ib = j_unit jb ∧
    installed_type st jb = Some (j_type ib);
  in_merged : i ≠ j → slot st jb = Some i ∧ heap st' !! j = Some jb;
  in_new : i = j → ∀ o, slot st jb = Some o → heap st' !! o = None;
}.

Lemma job_install_spec j jb st :
  sys_ok st → few st → pending j jb st → ∃ i st', job_install j st = Some (i, st') ∧ installs j jb st i st'.
Proof.
  intros Hok Hfew Hp. pose proof Hp as [Hj [Hi _] Hs Hnt Hid]. unfold job_install. rewrite Hj. cbn [mbind option_bind].
  rewrite !assert_bind by
    (done || (by rewrite Hi) || (by apply Z.ltb_lt, (mo_types _ (proj2 Hok) j jb Hj)) || by apply bool_decide_eq_true_2).
  destruct (slot st jb) as [i|] eqn:Es.
  2:{ destruct (install_new_spec j jb st Hok Hfew Hp Es) as (st' & jb' & H & Hok' & Hmv & Ha & Hj' & Hi' & Hu' & Ht' & _).
      exists j, st'. split; [exact H|]. split; try done; [|intros _ o ?; congruence].
      exists jb'. unfold installed_type. rewrite Es. by rewrite Ht'. }
  destruct (slot_job j jb st i Hok Hp Es) as (ib & Hib & Hii & Hiu & Hin & Hne). rewrite Hib. cbn [mbind option_bind].
  destruct (conflicting_or_merges (j_type ib) (j_type jb) (unit_active_state (j_unit jb))) as [Hc|(Hc & [s Hsup] & Hcase)];
    [by apply (mo_types _ (proj2 Hok) i)|by apply (mo_types _ (proj2 Hok) j)|done|..]; rewrite Hc; cbn [mbind option_bind].
  - destruct (cancel_spec i ib st Hok Hfew Hib Hii) as (st1 & -> & Hok1 & Hsh1 & Hmv1 & Hgone & _).
    cbn [mbind option_bind]. rewrite Hiu in Hmv1.
    destruct (pending_shrinks j jb st st1 i) as [Hp1 Hs1]; [done..|].
    destruct (install_new_spec j jb st1 Hok1 (moves_few _ _ _ Hmv1 Hfew) Hp1 Hs1)
      as (st' & jb' & H & Hok' & Hmv & Ha & Hj' & Hi' & Hu' & Ht' & _).
    exists j, st'. split; [exact H|]. split; try done.
    + by eapply moves_trans.
    + destruct (sh_tr _ _ Hsh1) as (_ & _ & ? & _). congruence.
    + exists jb'. unfold installed_type. rewrite Es, Hib. cbn [mbind option_bind]. rewrite Hc. cbn [mbind option_bind].
      by rewrite Ht'.
    + intros _ o Ho. assert (o = i) by congruence. subst o. destruct (heap st' !! i) as [b|] eqn:Eb; [|done].
      destruct (mv_dom _ _ _ Hmv i) as [? ?]; [by rewrite Eb|congruence].
  - rewrite Hsup. cbn [mbind option_bind].
    assert (∃ t, job_merge_into_installed i j st = Some (alter_job (absorb_installed t jb) i st) ∧
      transaction_type t ∧ (t = JOB_NOP ↔ j_type ib = JOB_NOP) ∧ installed_type st jb = Some t) as (t & Hm & Ht & Hn & Hty).
    { unfold job_merge_into_installed, installed_type. rewrite Es, Hib, Hj. cbn [mbind option_bind]. rewrite Hc.
      rewrite !assert_bind by (done || by apply bool_decide_eq_true_2). cbn [mbind option_bind].
      destruct Hcase as [Hnop|(Hnop & t & Hmt & Hmm)].
      - exists JOB_NOP. rewrite (bool_decide_eq_false_2 (j_type ib ≠ JOB_NOP)) by (intros ?; done).
        rewrite !(bool_decide_eq_true_2 (j_type jb = JOB_NOP)) by (by apply Hin).
        unfold assert_. cbn [mbind option_bind]. rewrite Hnop. done.
      - exists t. rewrite (bool_decide_eq_true_2 (j_type ib ≠ JOB_NOP)) by done. rewrite Hiu, Hmt. cbn [mbind option_bind].
        rewrite bool_decide_eq_false_2 by (intros ?; by apply Hnop, Hin). split_and!; [done| | |done].
        + unfold transaction_type, merging_type, _JOB_TYPE_MAX_IN_TRANSACTION, _JOB_TYPE_MAX_MERGING in *. lia.
        + split; [intros ->|done]. done. }
    rewrite Hm. cbn [mbind option_bind].
    destruct (merge_installed_spec i ib j jb st t Hok Hib Hii Ht Hn)
      as (Hok1 & Hmv1 & Ha1 & Hi1 & st2 & H2 & Hok2 & Hmv2 & Ha2 & Hi2 & Hk2). rewrite Hiu in *.
    set (st1 := alter_job (absorb_installed t jb) i st) in *.
    destruct (bool_decide (j_state ib = JOB_WAITING) || (job_type_allows_late_merge (j_type jb) && s)).
    + exists i, st1. split; [done|]. split; try done.
      * eexists. split; [exact Hi1|]. done.
      * intros _. split; [done|]. unfold st1. by rewrite heap_alter_job, decide_False.
    + rewrite H2. cbn [mbind option_bind]. exists i, st2. split; [done|]. split; try done.
      * eexists. split; [exact Hi2|]. done.
      * intros _. split; [done|]. by rewrite Hk2.
Qed.

End JobInstall.
