(* ===== verification/TrApply.v ===== *)
(** * Applying a transaction (src/core/transaction.c)

    [transaction_apply] moves the jobs of a merged transaction to their units: their ids
    are registered first, with a rollback if one is taken, then every job is unlinked,
    installed and queued. *)

From S2P Require Import Prelude JobType Prioq RunQueue JobData TrDelete TrFix JobOps JobFinish JobInstall.

Section Apply.
Context {RQ : RunQueue} {E : Env}.
Implicit Types (st : State) (j k u i : positive).

(** ** The code *)

(** Isolating: cancel the installed jobs of units that are not in the transaction. *)
Fixpoint cancel_jobs (js : list positive) st : option State :=
  match js with
  | [] => Some st
  | j :: js =>
      jb ← heap st !! j;
      assert_ (j_installed jb);;
      if ignore_on_isolate (j_unit jb) then cancel_jobs js st
      else if bool_decide (is_Some (jobs st !! j_unit jb)) then cancel_jobs js st
      else st ← job_finish_and_invalidate j JOB_CANCELED false st; cancel_jobs js st
  end.

(** [hashmap_put(m->jobs, j->id, j)]: the same entry may be put again. *)
Definition put_id (id : Z) (j : positive) st : Z * State :=
  match m_jobs (mgr st) !! id with
  | None => (0, alter_mgr (λ m, set_m_jobs (<[id := j]> (m_jobs m)) m) st)
  | Some i => (if bool_decide (i = j) then 0 else -EEXIST, st)
  end.

Fixpoint put_ids (cs : list (positive * list positive)) st : option (Z * State) :=
  match cs with
  | [] => Some (0, st)
  | (_, [j]) :: cs =>
      jb ← heap st !! j;
      let '(r, st) := put_id (j_id jb) j st in
      if r <? 0 then Some (r, st) else put_ids cs st
  | _ => None (* not merged: an assertion fails *)
  end.

(** The rollback. *)
Fixpoint remove_ids (cs : list (positive * list positive)) st : option State :=
  match cs with
  | [] => Some st
  | (_, j :: _) :: cs => jb ← heap st !! j; remove_ids cs (remove_id (j_id jb) j st)
  | (_, []) :: _ => None
  end.

(** When [j] was merged into the installed job [i]: [i] takes its place as the anchor and
    [j] is freed. *)
Definition forget_merged (i j : positive) st : option State :=
  if bool_decide (i = j) then Some st
  else
    let st := if bool_decide (anchor_job st = Some j) then set_anchor_job (Some i) st else st in
    jb ← heap st !! j;
    job_free j (remove_id (j_id jb) j st).

(** One round of the loop, for the job [j] taken from the hash map; the job that is
    installed for the unit afterwards. *)
Definition apply_one (u j : positive) st : option (positive * State) :=
  st ← transaction_unlink_job j false (set_jobs (delete u (jobs st)) st);
  '(i, st) ← job_install j st;
  st ← forget_merged i j st;
  st ← job_add_to_run_queue i st;
  st ← job_add_to_dbus_queue i st;
  Some (i, call (job_shutdown_magic i) (call (job_start_timer i false) st)).

(** [while ((j = hashmap_steal_first(tr->jobs)))]: every round takes a unit out. *)
Fixpoint apply_loop (fuel : nat) (affected : gset positive) st : option (State * gset positive) :=
  match fuel with
  | O => None
  | S fuel =>
      match iter (jobs st) with
      | [] => Some (st, affected)
      | (u, [j]) :: _ => '(i, st) ← apply_one u j st; apply_loop fuel ({[i]} ∪ affected) st
      | _ => None
      end
  end.

Definition transaction_apply (mode : JobMode) st : option (Z * State * gset positive) :=
  st ← (if bool_decide (mode ∈ [JOB_ISOLATE; JOB_FLUSH]) then cancel_jobs (iter_ids (m_jobs (mgr st))) st
        else Some st);
  '(r, st) ← put_ids (iter (jobs st)) st;
  if r <? 0 then
    st ← remove_ids (iter (jobs st)) st;
    Some (r, st, ∅)
  else
    '(st, affected) ← apply_loop (S (size (jobs st))) ∅ st;
    Some (0, st, affected).

(** ** Parts of the state the invariant reads *)

Lemma mgr_ok_ext st st' : heap st' = heap st → mgr st' = mgr st → mgr_ok st → mgr_ok st'.
Proof.
  intros Hh Hm [? ? ? ? ? ? ? ? ? ? ?]. split; unfold slot in *; rewrite ?Hh, ?Hm; done.
Qed.

(** Every id belongs to an installed job, or to one of the transaction. *)
Definition ids_known st : Prop := ∀ id i, m_jobs (mgr st) !! id = Some i →
  ∃ ib, heap st !! i = Some ib ∧ j_id ib = id ∧ (j_installed ib = true ∨ in_tr st i).

(** Between transactions. *)
Definition ids_installed st : Prop := ∀ id i, m_jobs (mgr st) !! id = Some i →
  ∃ ib, heap st !! i = Some ib ∧ j_id ib = id ∧ j_installed ib = true.

(** No job is neither installed nor part of the transaction. *)
Definition no_strays st : Prop := ∀ k kb, heap st !! k = Some kb → j_installed kb = true ∨ in_tr st k.

Lemma moves_in_tr u st st' k : moves u st st' → in_tr st' k ↔ in_tr st k.
Proof. intros H. unfold in_tr. by rewrite (proj1 (mv_tr _ _ _ H)). Qed.

(** ** Taking a job out of the transaction *)

Lemma heap_cut_none L st : heap (cut ∅ L st) = heap st.
Proof. apply map_eq. intros k. by rewrite heap_cut, decide_False by set_solver. Qed.

Lemma steal_spec u j st :
  tr_ok st → jobs st !! u = Some [j] →
  transaction_unlink_job j false (set_jobs (delete u (jobs st)) st) = Some (cut ∅ {[j]} st) ∧
  jobs (cut ∅ {[j]} st) = delete u (jobs st) ∧ tr_ok (cut ∅ {[j]} st).
Proof.
  intros Htr Hu. pose proof Htr as (Hlo & Hnd & Hl). pose proof Hlo as [Hc Hli].
  destruct (Hc u [j] Hu) as [_ Hj]. destruct (Hj j (list_elem_of_here _ _)) as (jb & Hjb & Hju & Hidle).
  assert (Hjobs : jobs (cut ∅ {[j]} st) = delete u (jobs st)).
  { apply map_eq. intros v. unfold cut. st_simpl. unfold cut_jobs. rewrite lookup_omap.
    destruct (decide (v = u)) as [->|Hne].
    - rewrite Hu, lookup_delete_eq. cbn. by rewrite decide_False by set_solver.
    - rewrite lookup_delete_ne by done. destruct (jobs st !! v) as [c|] eqn:Ev; [|done]. cbn.
      rewrite filter_all; [by destruct c; [destruct (Hc v [] Ev)|]|].
      intros k Hk ->%elem_of_singleton. destruct (Hc v c Ev) as [_ Hv]. destruct (Hv j Hk) as (? & ? & ? & _). congruence. }
  set (st0 := set_jobs (delete u (jobs st)) st).
  assert (Hlo0 : linked_ok st0).
  { split; [|done]. intros v c Hv. unfold st0 in Hv. st_simpl_in Hv. apply lookup_delete_Some in Hv as [_ Hv]. by apply Hc. }
  split_and!; [|done|].
  - unfold transaction_unlink_job.
    destruct (unlink_start_spec j st0 Hlo0) as (st1 & -> & Hlo1 & Hh1 & Hl1 & Hoff & Hcut); [by exists jb|].
    cbn [mbind option_bind].
    destruct (unlink_objects_spec (S (length (links st1))) false j st1) as (D & -> & HD); [done|lia| |done|].
    { intros l Hin. rewrite Hl1 in Hin. by apply list_elem_of_filter in Hin as [? _]. }
    f_equal. assert (D = ∅) as -> by (apply set_eq; intros k; rewrite HD; set_solver).
    rewrite union_empty_r_L, Hcut by set_solver. unfold cut, st0. st_simpl. f_equal.
    rewrite <- Hjobs. unfold cut. st_simpl. by rewrite cut_jobs_union, union_idemp_L.
  - split_and!.
    + apply linked_ok_cut; [set_solver|done].
    + intros v c (_ & c0 & Hv & ->)%jobs_cut. apply NoDup_filter. eauto.
    + intros l [Hnt Hin]%links_cut. destruct (Hl l Hin) as [Ho Hs]. unfold touches in Hnt. rewrite !in_tr_cut.
      split; [split; [done|]; tauto|]. intros k Hk. apply in_tr_cut. split; [by apply Hs|]. intros ?. apply Hnt. eauto.
Qed.

(** ** One round *)

(** A merged transaction whose jobs are waiting and have their ids. *)
Record ready st : Prop := {
  rd_ok : sys_ok st;
  rd_few : few st;
  rd_merged u c : jobs st !! u = Some c → ∃ j, c = [j];
  rd_job k kb : in_tr st k → heap st !! k = Some kb →
    j_state kb = JOB_WAITING ∧ m_jobs (mgr st) !! j_id kb = Some k;
  rd_ids : ids_known st;
  rd_strays : no_strays st;
}.

(** Freeing a job that was merged into the installed one. *)
Lemma drop_pending j jb st :
  sys_ok st → pending j jb st →
  ∃ st', job_free j (remove_id (j_id jb) j st) = Some st' ∧ sys_ok st' ∧ moves (j_unit jb) st st' ∧
    anchor_job st' = anchor_job st ∧ heap st' = delete j (heap st).
Proof.
  intros [Htr Hm] [Hj Hidle Hs Hnt Hid]. pose proof Hidle as (Hi & Hr & Hd & Hg).
  unfold remove_id. rewrite bool_decide_eq_true_2 by done. set (st1 := alter_mgr _ st).
  assert (Hun : job_unlinked st1 j jb = true).
  { unfold job_unlinked, on_chain, subject_list, object_list. rewrite Hi. cbn [negb andb].
    assert (filter (λ l, subject l = Some j) (links st) = [] ∧ filter (λ l, object l = j) (links st) = []) as [Hs1 Ho1].
    { split; apply filter_none; intros l Hl Hx; apply Hnt;
        destruct (proj2 (proj2 Htr) l Hl) as [Ho Hsu]; [by apply Hsu|by rewrite <- Hx]. }
    change (links st1) with (links st). rewrite Hs1, Ho1. change (jobs st1) with (jobs st).
    destruct (jobs st !! _) as [c|] eqn:Ec; [|done].
    rewrite bool_decide_eq_false_2; [done|]. intros Hc. apply Hnt. by exists (j_unit jb), c. }
  rewrite (free_form j jb st1 (run_queue (mgr st1)) Hj Hun) by (by rewrite Hr). rewrite Hd, Hg.
  set (st' := set_heap _ _). exists st'. split; [done|].
  assert (Hh : heap st' = delete j (heap st)) by done.
  assert (Hother : ∀ k kb, heap st' !! k = Some kb → k ≠ j ∧ heap st !! k = Some kb).
  { intros k kb. rewrite Hh, lookup_delete_Some. naive_solver. }
  assert (Hinst : ∀ k kb, heap st !! k = Some kb → j_installed kb = true → heap st' !! k = Some kb).
  { intros k kb Hk Hki. rewrite Hh, lookup_delete_ne; [done|]. intros ->. congruence. }
  assert (Hq : ∀ (flag : Job → bool) q, flag jb = false → queue_ok flag q (heap st) → queue_ok flag q (heap st')).
  { intros flag q Hf Hq. pose proof (filter_queue flag q (heap st) j jb Hq Hj) as H. by rewrite Hf in H. }
  split_and!; [split| |done|done].
  - apply (tr_ok_frame st); [done..| |done]. intros k Hk. rewrite Hh, lookup_delete_ne; [done|]. by intros ->.
  - split.
    + intros k kb [_ Hk]%Hother. by apply (mo_types _ Hm k).
    + intros u i Hu. destruct (mo_job _ Hm u i Hu) as (ib & ? & ? & ?). eauto.
    + intros u i Hu. destruct (mo_nop _ Hm u i Hu) as (ib & ? & ? & ?). eauto.
    + intros i ib [_ Hib]%Hother Hii. by apply (mo_slot _ Hm).
    + intros i ib [Hne Hib]%Hother Hii. pose proof (mo_id _ Hm i ib Hib Hii) as Hidi.
      unfold st', st1. cbn. rewrite lookup_delete_ne; [done|]. congruence.
    + apply (mo_rq _ Hm).
    + apply Hq; [done|apply (mo_run _ Hm)].
    + apply Hq; [done|apply (mo_dbus _ Hm)].
    + apply Hq; [done|apply (mo_gc _ Hm)].
    + intros i ib [_ Hib]%Hother. by apply (mo_queued _ Hm i).
    + rewrite Hh, (count_running_delete _ _ _ Hj), <- (mo_running _ Hm). unfold run_bit, is_running. rewrite Hi. cbn. lia.
  - split; try done.
    + intros k [kb Hk]. destruct (Hother k kb Hk). eauto.
    + intros k kb Hk Hu. rewrite Hh, lookup_delete_ne by (intros ->; congruence). exists kb. split_and!; done.
    + intros k kb [_ Hk]%Hother. eauto.
    + intros id i Hi'. destruct (decide (id = j_id jb)) as [->|Hne].
      * right. rewrite Hid in Hi'. injection Hi' as <-. rewrite Hh. apply lookup_delete_eq.
      * left. unfold st', st1. cbn. by rewrite lookup_delete_ne.
    + intros id i Hi'. unfold st', st1 in Hi'. cbn in Hi'. by apply lookup_delete_Some in Hi' as [_ ?].
    + intros k kb Hk Hn. rewrite Hh in Hn. apply lookup_delete_None in Hn as [<-|?]; [|congruence].
      assert (kb = jb) by congruence. subst. unfold st', st1. cbn. by rewrite lookup_delete_eq.
    + intros k kb kb' Hk [_ Hk']%Hother. congruence.
Qed.

(** What one round does, seen from the state without the job in the transaction. *)
Record applied (j : positive) (jb : Job) st i st' : Prop := {
  ap_ok : sys_ok st';
  ap_moves : moves (j_unit jb) (cut ∅ {[j]} st) st';
  ap_anchor : anchor_job st' = if decide (anchor_job st = Some j) then Some i else anchor_job st;
  ap_job : ∃ ib, heap st' !! i = Some ib ∧ j_installed ib = true ∧ j_unit ib = j_unit jb ∧
    installed_type st jb = Some (j_type ib) ∧ (rq_alloc_ok i = true → j_in_run_queue ib = true);
  ap_gone : i ≠ j → heap st' !! j = None;
}.

Lemma apply_one_spec u j jb st :
  ready st → jobs st !! u = Some [j] → heap st !! j = Some jb →
  ∃ i st', apply_one u j st = Some (i, st') ∧ applied j jb st i st'.
Proof.
  intros [Hok Hfew _ Hjob _ _] Hu Hj. destruct (steal_spec u j st (proj1 Hok) Hu) as (Hsteal & Hjobs & Htr1).
  unfold apply_one. rewrite Hsteal. cbn [mbind option_bind]. set (st1 := cut ∅ {[j]} st) in *.
  assert (Hh1 : heap st1 = heap st) by apply heap_cut_none.
  assert (Hok1 : sys_ok st1) by (split; [done|by apply (mgr_ok_ext st); [..|apply Hok]]).
  assert (Hin : in_tr st j) by (exists u, [j]; split; [done|apply list_elem_of_here]).
  destruct (in_tr_idle st j (proj1 (proj1 Hok)) Hin) as (jb' & Hjb' & Hidle). assert (jb' = jb) by congruence. subst jb'.
  destruct (Hjob j jb Hin Hj) as [Hw Hid].
  assert (Hp1 : pending j jb st1).
  { split; try done; [by rewrite Hh1|]. unfold st1. rewrite in_tr_cut. set_solver. }
  assert (Hfew1 : few st1) by (unfold few; by rewrite Hh1).
  destruct (job_install_spec j jb st1 Hok1 Hfew1 Hp1) as (i & st2 & -> & [Hok2 Hmv2 Ha2 (ib & Hib & Hii & Hiu & Hty) Hme Hnew]).
  cbn [mbind option_bind]. assert (Hty' : installed_type st jb = installed_type st1 jb).
  { unfold installed_type, slot. by rewrite Hh1. }
  (* the job that was merged is freed *)
  assert (∃ st3, forget_merged i j st2 = Some st3 ∧ sys_ok st3 ∧ moves (j_unit jb) st1 st3 ∧
      anchor_job st3 = (if decide (anchor_job st = Some j) then Some i else anchor_job st) ∧
      heap st3 !! i = Some ib ∧ (i ≠ j → heap st3 !! j = None)) as (st3 & H3 & Hok3 & Hmv3 & Ha3 & Hi3 & Hgone3).
  { unfold forget_merged. case_bool_decide as Hij.
    - exists st2. split_and!; try done. rewrite Ha2. case_decide as Hd; [|done]. by rewrite Hij.
    - destruct (Hme Hij) as [Hsl Hj2].
      set (st2' := if bool_decide (anchor_job st2 = Some j) then set_anchor_job (Some i) st2 else st2).
      assert (Hsame : heap st2' = heap st2 ∧ mgr st2' = mgr st2 ∧ jobs st2' = jobs st2 ∧ links st2' = links st2 ∧
        irreversible st2' = irreversible st2) by (unfold st2'; by case_bool_decide).
      destruct Hsame as (Hh' & Hm' & Hj' & Hl' & Hir').
      assert (Hok2' : sys_ok st2').
      { split; [|by apply (mgr_ok_ext st2); [..|apply Hok2]]. apply (tr_ok_frame st2); [done..| |apply Hok2].
        intros k _. by rewrite Hh'. }
      assert (Hmv2' : moves (j_unit jb) st1 st2').
      { eapply moves_trans; [exact Hmv2|]. destruct (moves_refl (j_unit jb) st2) as [? ? ? ? ? ? ? ? ?].
        split; rewrite ?Hh', ?Hm', ?Hj', ?Hl'; done. }
      assert (Hp2 : pending j jb st2').
      { split; try done.
        - by rewrite Hh'.
        - intros Hx. apply (pe_tr _ _ _ Hp1). apply (moves_in_tr _ _ _ j Hmv2'). done.
        - rewrite Hm'. destruct (mv_ids _ _ _ Hmv2 (j_id jb) j); [apply (pe_id _ _ _ Hp1)|done|congruence]. }
      cbn zeta. rewrite Hh', Hj2. cbn [mbind option_bind].
      destruct (drop_pending j jb st2' Hok2' Hp2) as (st3 & H3 & Hok3 & Hmv3 & Ha3 & Hh3).
      exists st3. split_and!; [done|done|by eapply moves_trans| | |].
      + rewrite Ha3. unfold st2'. rewrite Ha2. change (anchor_job st1) with (anchor_job st).
        case_bool_decide; case_decide; done.
      + rewrite Hh3, lookup_delete_ne by done. by rewrite Hh'.
      + intros _. rewrite Hh3. apply lookup_delete_eq. }
  rewrite H3. cbn [mbind option_bind]. pose proof (moves_few _ _ _ Hmv3 Hfew1) as Hfew3.
  destruct (add_to_run_queue_spec i ib st3 Hok3 Hfew3 Hi3 Hii) as (st4 & H4 & Hok4 & Hsh4).
  destruct (add_to_run_queue_queued _ _ _ H4) as [Hk4 Hq4]. rewrite H4. cbn [mbind option_bind].
  destruct (still_installed i ib st3 st4 Hi3 Hii Hk4 Hsh4) as (ib4 & Hi4 & Hii4).
  destruct (add_to_dbus_queue_spec i ib4 st4 Hok4 Hi4 Hii4) as (st5 & H5 & Hok5 & Hsh5).
  pose proof (add_to_dbus_queue_keeps _ _ _ H5) as Hk5. rewrite H5. cbn [mbind option_bind].
  destruct (calls_quiet [job_shutdown_magic i; job_start_timer i false] st5 Hok5) as (Hok6 & Hsh6 & Hk6).
  cbn [foldr] in Hok6, Hsh6, Hk6. set (st6 := call _ _) in *.
  pose proof (keeps_trans _ _ _ (keeps_trans _ _ _ Hk4 Hk5) Hk6) as Hk.
  pose proof (shrinks_trans _ _ _ (shrinks_trans _ _ _ Hsh4 Hsh5) Hsh6) as Hsh.
  exists i, st6. split; [done|]. split; [done| | | |].
  - eapply moves_trans; [exact Hmv3|by apply keeps_moves].
  - rewrite <- Ha3. apply (sh_tr _ _ Hsh).
  - destruct (proj1 Hk i) as [ib6 Hi6]; [eauto|].
    destruct (sh_heap _ _ Hsh i ib6 Hi6) as (ib' & Hib' & ? & ? & ? & ? & _). assert (ib' = ib) by congruence. subst ib'.
    exists ib6. split_and!; [done|congruence|congruence| |].
    + rewrite Hty'. congruence.
    + intros Hal. destruct (queued_later i st4 st6) as (b & ? & ?); [by eapply keeps_trans|by eapply shrinks_trans|by apply Hq4|].
      congruence.
  - intros Hij. apply (shrinks_gone st3); [done|]. by apply Hgone3.
Qed.

(** ** The loop *)

(** The slot of a unit holds its installed job of the kind in question. *)
Lemma slot_iff st (jb : Job) i :
  sys_ok st → slot st jb = Some i ↔ ∃ ib, heap st !! i = Some ib ∧ j_installed ib = true ∧
    j_unit ib = j_unit jb ∧ (j_type ib = JOB_NOP ↔ j_type jb = JOB_NOP).
Proof.
  intros [_ Hs]. split.
  - unfold slot. case_bool_decide; intros Hi.
    + destruct (mo_nop _ Hs _ i Hi) as (ib & ? & ? & ? & ?). by exists ib.
    + destruct (mo_job _ Hs _ i Hi) as (ib & ? & ? & ? & ?). by exists ib.
  - intros (ib & Hib & Hii & Hiu & Hn). rewrite <- (mo_slot _ Hs i ib Hib Hii). unfold slot.
    by rewrite Hiu, (bool_decide_ext _ _ Hn).
Qed.

(** Two states with the same installed jobs for the unit. *)
Lemma installed_type_same st st' (jb : Job) :
  sys_ok st → sys_ok st' →
  (∀ k kb, heap st !! k = Some kb → j_unit kb = j_unit jb →
     ∃ kb', heap st' !! k = Some kb' ∧ j_unit kb' = j_unit kb ∧ j_installed kb' = j_installed kb ∧ j_type kb' = j_type kb) →
  (∀ k kb', heap st' !! k = Some kb' → ∃ kb, heap st !! k = Some kb ∧ j_unit kb' = j_unit kb) →
  installed_type st' jb = installed_type st jb.
Proof.
  intros Hok Hok' Hfw Hbw. assert (Hslot : slot st' jb = slot st jb).
  { apply option_eq. intros i. rewrite !slot_iff by done. split.
    - intros (ib' & Hib' & Hii & Hiu & Hn). destruct (Hbw i ib' Hib') as (ib & Hib & ?).
      destruct (Hfw i ib Hib) as (ib2 & ? & ? & ? & Ht); [congruence|]. assert (ib2 = ib') by congruence. subst ib2.
      exists ib. rewrite <- Ht. split_and!; try congruence; tauto.
    - intros (ib & Hib & Hii & Hiu & Hn). destruct (Hfw i ib Hib) as (ib2 & ? & ? & ? & Ht); [congruence|].
      exists ib2. rewrite Ht. split_and!; try congruence; tauto. }
  unfold installed_type. rewrite Hslot. destruct (slot st jb) as [i|] eqn:Es; [|done].
  apply slot_iff in Es as (ib & Hib & _ & Hiu & _); [|done]. destruct (Hfw i ib Hib Hiu) as (ib2 & Hib2 & _ & _ & Ht).
  rewrite Hib, Hib2. cbn [mbind option_bind]. by rewrite Ht.
Qed.

(** Jobs of other units do not see a round. *)
Lemma installed_type_moves u st st' (jb : Job) :
  sys_ok st → sys_ok st' → moves u st st' → j_unit jb ≠ u → installed_type st' jb = installed_type st jb.
Proof.
  intros Hok Hok' Hmv Hu. apply installed_type_same; [done..| |].
  - intros k kb Hk Hku. destruct (mv_other _ _ _ Hmv k kb Hk) as (kb' & ? & ? & _ & ? & ? & _); [congruence|]. eauto.
  - intros k kb' Hk. destruct (mv_unit _ _ _ Hmv k kb' Hk) as (kb & ? & ? & _). eauto.
Qed.

(** The next round starts from a transaction without the unit. *)
Lemma applied_ready u j jb st i st' :
  ready st → jobs st !! u = Some [j] → heap st !! j = Some jb → applied j jb st i st' →
  j_unit jb = u ∧ jobs st' = delete u (jobs st) ∧ ready st' ∧
  (∀ k kb, in_tr st' k → heap st !! k = Some kb → heap st' !! k = Some kb ∧ j_unit kb ≠ u).
Proof.
  intros [Hok Hfew Hmer Hjob Hids Hstr] Hu Hj [Hok' Hmv Ha (ib & Hib & Hii & Hiu & _) Hgone].
  destruct (steal_spec u j st (proj1 Hok) Hu) as (_ & Hjobs & _). pose proof (heap_cut_none {[j]} st) as Hh1.
  assert (Hju : j_unit jb = u).
  { destruct (proj1 (proj1 (proj1 Hok)) u [j] Hu) as [_ Hc]. destruct (Hc j (list_elem_of_here _ _)) as (? & ? & ? & _).
    congruence. }
  assert (Hjobs' : jobs st' = delete u (jobs st)) by (rewrite (proj1 (mv_tr _ _ _ Hmv)); done).
  assert (Hin : ∀ k, in_tr st' k → in_tr st k ∧ ∀ kb, heap st !! k = Some kb → j_unit kb ≠ u).
  { intros k (v & c & Hv & Hk). rewrite Hjobs' in Hv. apply lookup_delete_Some in Hv as [Hne Hv].
    split; [by exists v, c|]. intros kb Hkb. destruct (proj1 (proj1 (proj1 Hok)) v c Hv) as [_ Hc].
    destruct (Hc k Hk) as (? & ? & ? & _). congruence. }
  assert (Hsame : ∀ k kb, in_tr st' k → heap st !! k = Some kb → heap st' !! k = Some kb ∧ j_unit kb ≠ u).
  { intros k kb Hk Hkb. destruct (Hin k Hk) as [Hk0 Hku]. specialize (Hku kb Hkb). split; [|done].
    destruct (mv_other _ _ _ Hmv k kb) as (kb' & ? & _ & _ & _ & _ & _ & _ & Heq); [by rewrite Hh1|congruence|].
    rewrite Heq in *; [done|]. by apply (in_tr_not_installed st k kb (proj1 Hok)). }
  assert (Hstays : ∀ k kb kb', heap st !! k = Some kb → heap st' !! k = Some kb' → j_installed kb = true ∨ in_tr st k →
    j_installed kb' = true ∨ in_tr st' k).
  { intros k kb kb' Hkb Ek [Hki|(v & c & Hv & Hkc)].
    - left. apply (mv_stays _ _ _ Hmv k kb kb'); [by rewrite Hh1|done..].
    - destruct (decide (v = u)) as [->|Hne].
      + assert (c = [j]) by congruence. subst c. apply list_elem_of_singleton in Hkc. subst k. left.
        destruct (decide (i = j)) as [->|Hij]; [congruence|]. rewrite (Hgone Hij) in Ek. done.
      + right. exists v, c. split; [|done]. by rewrite Hjobs', lookup_delete_ne. }
  split_and!; [done..| |done]. split; [done| | | | |].
  - apply (moves_few _ _ _ Hmv). unfold few. by rewrite Hh1.
  - intros v c Hv. rewrite Hjobs' in Hv. apply lookup_delete_Some in Hv as [_ Hv]. by apply (Hmer v).
  - intros k kb Hk Hkb. destruct (Hin k Hk) as [Hk0 _].
    destruct (in_tr_idle st k (proj1 (proj1 Hok)) Hk0) as (kb0 & Hkb0 & _). destruct (Hsame k kb0 Hk Hkb0) as [? _].
    assert (kb0 = kb) by congruence. subst kb0. destruct (Hjob k kb Hk0 Hkb0) as [? Hid]. split; [done|].
    destruct (mv_ids _ _ _ Hmv (j_id kb) k Hid); [done|congruence].
  - intros id k Hk. pose proof (mv_back _ _ _ Hmv id k Hk) as Hk0. destruct (Hids id k Hk0) as (kb & Hkb & Hid & Hcase).
    destruct (heap st' !! k) as [kb'|] eqn:Ek.
    2:{ exfalso. apply (mv_gone _ _ _ Hmv k kb); [by rewrite Hh1|done|]. by rewrite Hid. }
    exists kb'. destruct (mv_unit _ _ _ Hmv k kb' Ek) as (kb2 & Hkb2 & _ & ?). rewrite Hh1 in Hkb2.
    split_and!; [done|congruence|]. by apply (Hstays k kb).
  - intros k kb' Hk. destruct (mv_unit _ _ _ Hmv k kb' Hk) as (kb & Hkb & _). rewrite Hh1 in Hkb.
    by apply (Hstays k kb); [..|apply Hstr].
Qed.

(** A job that no later round touches. *)
Definition kept_as (kb kb' : Job) : Prop :=
  j_unit kb' = j_unit kb ∧ j_id kb' = j_id kb ∧ j_installed kb' = j_installed kb ∧ j_type kb' = j_type kb ∧
  j_state kb' = j_state kb ∧ (j_in_run_queue kb = true → j_in_run_queue kb' = true).

(** The unit [u] with the job [j] in the transaction has [i] installed. *)
Definition takes_over (u j : positive) (jb : Job) st (affected : gset positive) i st' : Prop :=
  ∃ ib, heap st' !! i = Some ib ∧ j_installed ib = true ∧ j_unit ib = u ∧ i ∈ affected ∧
    installed_type st jb = Some (j_type ib) ∧ (rq_alloc_ok i = true → j_in_run_queue ib = true) ∧
    (anchor_job st = Some j → anchor_job st' = Some i).

Record apply_done st (aff : gset positive) st' (aff' : gset positive) : Prop := {
  ad_ok : sys_ok st';
  ad_ids : ids_installed st';
  ad_jobs : jobs st' = ∅;
  ad_strays : no_strays st';
  ad_aff : aff ⊆ aff';
  ad_few : (size (heap st') <= size (heap st))%nat;
  ad_units u j jb : jobs st !! u = Some [j] → heap st !! j = Some jb → ∃ i, takes_over u j jb st aff' i st';
  ad_anchor : (∀ a, anchor_job st = Some a → ¬ in_tr st a) → anchor_job st' = anchor_job st;
  ad_frame k kb : heap st !! k = Some kb → jobs st !! j_unit kb = None →
    ∃ kb', heap st' !! k = Some kb' ∧ kept_as kb kb';
  ad_back k kb' : heap st' !! k = Some kb' → ∃ kb, heap st !! k = Some kb ∧ j_unit kb' = j_unit kb;
}.

Lemma apply_loop_spec n aff st :
  ready st → (size (jobs st) < n)%nat →
  ∃ st' aff', apply_loop n aff st = Some (st', aff') ∧ apply_done st aff st' aff'.
Proof.
  revert aff st. induction n as [|n IH]; intros aff st Hrd Hn; [lia|]. cbn [apply_loop].
  destruct (iter (jobs st)) as [|[u c] rest] eqn:Ei.
  - assert (He : jobs st = ∅).
    { apply map_to_list_empty_iff, Permutation_nil_r. by rewrite <- iter_perm, Ei. }
    exists st, aff. split; [done|]. split; try done.
    + apply Hrd.
    + intros id i Hi. destruct (rd_ids _ Hrd id i Hi) as (ib & ? & ? & [?|(v & c & Hv & _)]); [eauto|by rewrite He in Hv].
    + apply Hrd.
    + intros u j jb Hu. by rewrite He in Hu.
    + intros k kb Hk _. exists kb. split; [done|]. unfold kept_as. split_and!; done.
    + eauto.
  - assert (Hu : jobs st !! u = Some c) by (apply elem_of_iter; rewrite Ei; apply list_elem_of_here).
    destruct (rd_merged _ Hrd u c Hu) as [j ->].
    destruct (in_tr_idle st j (proj1 (proj1 (rd_ok _ Hrd)))) as (jb & Hj & _); [exists u, [j]; split; [done|apply list_elem_of_here]|].
    destruct (apply_one_spec u j jb st Hrd Hu Hj) as (i & st1 & -> & Hap). cbn [mbind option_bind].
    destruct (applied_ready u j jb st i st1 Hrd Hu Hj Hap) as (Hju & Hjobs1 & Hrd1 & Hsame1).
    destruct (IH ({[i]} ∪ aff) st1 Hrd1) as (st2 & aff2 & -> & Hdone).
    { rewrite Hjobs1, map_size_delete, Hu. assert (size (jobs st) ≠ 0%nat) by (apply (map_size_ne_0_lookup_2 _ u); by rewrite Hu). lia. }
    exists st2, aff2. split; [done|]. destruct Hdone as [D1 D2 D3 Ds D4 D5 D6 D7 D8 D9].
    destruct Hap as [Hok1 Hmv1 Ha1 (ib & Hib & Hii & Hiu & Hty & Hq) Hgone1].
    pose proof (heap_cut_none {[j]} st) as Hh1. split; [done..| | | | | |].
    + set_solver.
    + pose proof (moves_size _ _ _ Hmv1) as Hsz. rewrite Hh1 in Hsz. lia.
    + intros v k kb Hv Hk. destruct (decide (v = u)) as [->|Hne].
      * assert (k = j) by congruence. subst k. assert (kb = jb) by congruence. subst kb. exists i.
        destruct (D8 i ib Hib) as (ib2 & Hib2 & ? & ? & ? & Ht2 & ? & Hq2); [rewrite Hiu, Hju, Hjobs1; apply lookup_delete_eq|].
        exists ib2. split_and!; [done|congruence|congruence|set_solver|congruence|by auto|].
        intros Ha. rewrite decide_True in Ha1 by done. rewrite D7; [done|]. intros a Haa (v & c & Hv' & Hac).
        assert (a = i) by congruence. subst a.
        pose proof (in_tr_not_installed st1 i ib (proj1 Hok1)) as Hni. rewrite Hni in Hii; [done|by exists v, c|done].
      * assert (Hv1 : jobs st1 !! v = Some [k]) by (by rewrite Hjobs1, lookup_delete_ne).
        destruct (Hsame1 k kb) as [Hk1 Hku]; [exists v, [k]; split; [done|apply list_elem_of_here]|done|].
        destruct (D6 v k kb Hv1 Hk1) as (i2 & ib2 & ? & ? & ? & ? & Hty2 & ? & Hanc).
        exists i2, ib2. split_and!; try done.
        -- rewrite <- Hty2. symmetry. transitivity (installed_type (cut ∅ {[j]} st) kb).
           ++ apply (installed_type_moves u); [|done|by rewrite <- Hju|done].
              split; [apply (steal_spec u j st (proj1 (rd_ok _ Hrd)) Hu)|by apply (mgr_ok_ext st); [..|apply Hrd]].
           ++ unfold installed_type, slot. by rewrite Hh1.
        -- intros Ha. apply Hanc. rewrite Ha1, decide_False; [done|]. intros Hx.
           assert (k = j) by congruence. subst k. congruence.
    + intros Ha. assert (Hane : anchor_job st ≠ Some j).
      { intros Hx. apply (Ha j Hx). exists u, [j]. split; [done|apply list_elem_of_here]. }
      rewrite decide_False in Ha1 by done. rewrite <- Ha1. apply D7. intros a Hax (v & c & Hv & Hac).
      rewrite Hjobs1 in Hv. apply lookup_delete_Some in Hv as [_ Hv]. apply (Ha a); [congruence|by exists v, c].
    + intros k kb Hk Hku. assert (j_unit kb ≠ j_unit jb) by (intros Hx; congruence).
      destruct (mv_other _ _ _ Hmv1 k kb) as (kb1 & Hk1 & ? & ? & ? & ? & ? & ? & _); [by rewrite Hh1|done|].
      destruct (D8 k kb1 Hk1) as (kb2 & ? & ? & ? & ? & ? & ? & ?).
      { replace (j_unit kb1) with (j_unit kb) by congruence. by rewrite Hjobs1, lookup_delete_ne by congruence. }
      exists kb2. split; [done|]. unfold kept_as. split_and!; try congruence. auto.
    + intros k kb2 Hk. destruct (D9 k kb2 Hk) as (kb1 & Hk1 & Hu2). destruct (mv_unit _ _ _ Hmv1 k kb1 Hk1) as (kb & Hkb & Hu1 & _).
      exists kb. rewrite Hh1 in Hkb. split; [done|congruence].
Qed.

(** ** Registering the ids, and taking them back *)

Definition with_ids (M : gmap Z positive) st : State := alter_mgr (set_m_jobs M) st.

Lemma with_ids_same st : with_ids (m_jobs (mgr st)) st = st.
Proof. by destruct st as [? ? ? ? ? []]. Qed.

(** The ids of the jobs in [cs]. *)
Definition id_of (cs : list (positive * list positive)) st (id : Z) i : Prop :=
  ∃ u c ib, (u, i :: c) ∈ cs ∧ heap st !! i = Some ib ∧ j_id ib = id.

Lemma put_ids_spec cs st :
  (∀ u c, (u, c) ∈ cs → ∃ j jb, c = [j] ∧ heap st !! j = Some jb) →
  ∃ r M, put_ids cs st = Some (r, with_ids M st) ∧ (r = 0 ∨ r = -EEXIST) ∧ m_jobs (mgr st) ⊆ M ∧
    (∀ id i, M !! id = Some i → m_jobs (mgr st) !! id = Some i ∨ id_of cs st id i) ∧
    (r = 0 → ∀ u j jb, (u, [j]) ∈ cs → heap st !! j = Some jb → M !! j_id jb = Some j).
Proof.
  revert st. induction cs as [|[u c] cs IH]; intros st Hcs; cbn [put_ids].
  - exists 0, (m_jobs (mgr st)). rewrite with_ids_same. split_and!; [done|by left|done|by left|].
    intros _ u j jb Hx. by apply elem_of_nil in Hx.
  - destruct (Hcs u c (list_elem_of_here _ _)) as (j & jb & -> & Hj). rewrite Hj. cbn [mbind option_bind].
    assert (Hcs' : ∀ u c, (u, c) ∈ cs → ∃ j jb, c = [j] ∧ heap st !! j = Some jb)
      by (intros; apply (Hcs u0); by apply list_elem_of_further).
    assert (Hid : id_of ((u, [j]) :: cs) st (j_id jb) j) by (exists u, [], jb; split_and!; [apply list_elem_of_here|done..]).
    assert (Hmono : ∀ id i, id_of cs st id i → id_of ((u, [j]) :: cs) st id i).
    { intros id i (v & c & ib & ? & ? & ?). exists v, c, ib. split_and!; [by apply list_elem_of_further|done..]. }
    unfold put_id. destruct (m_jobs (mgr st) !! j_id jb) as [i|] eqn:Ei.
    + case_bool_decide as Hij; cbn [Z.ltb Z.compare].
      * subst i. destruct (IH st Hcs') as (r & M & -> & Hr & Hsub & Hback & Hall). exists r, M.
        split_and!; [done..|intros id i Hi; destruct (Hback id i Hi); auto|]. intros -> v k kb [[= -> ->]|Hk]%elem_of_cons Hkb.
        -- assert (kb = jb) by congruence. subst. by eapply lookup_weaken.
        -- by apply (Hall eq_refl v).
      * exists (-EEXIST), (m_jobs (mgr st)). rewrite with_ids_same. split_and!; [done|by right|done|by left|done].
    + cbn [Z.ltb Z.compare]. set (st1 := alter_mgr _ st).
      destruct (IH st1 Hcs') as (r & M & -> & Hr & Hsub & Hback & Hall).
      change (m_jobs (mgr st1)) with (<[j_id jb := j]> (m_jobs (mgr st))) in Hsub, Hback. exists r, M. split_and!; try done.
      * by apply insert_subseteq_l_inv in Hsub as [? ?] || (etransitivity; [by apply insert_subseteq|done]).
      * intros id i Hi. destruct (Hback id i Hi) as [Hx|Hx]; [|by right; apply Hmono].
        apply lookup_insert_Some in Hx as [[<- <-]|[_ ?]]; [by right|by left].
      * intros -> v k kb [[= -> ->]|Hk]%elem_of_cons Hkb; [|by apply (Hall eq_refl v)].
        assert (kb = jb) by congruence. subst. eapply lookup_weaken; [|exact Hsub]. apply lookup_insert_eq.
Qed.

Lemma remove_ids_spec cs st :
  (∀ u c, (u, c) ∈ cs → ∃ j jb, c = [j] ∧ heap st !! j = Some jb) →
  ∃ M, remove_ids cs st = Some (with_ids M st) ∧
    ∀ id i, M !! id = Some i ↔ m_jobs (mgr st) !! id = Some i ∧ ¬ id_of cs st id i.
Proof.
  revert st. induction cs as [|[u c] cs IH]; intros st Hcs; cbn [remove_ids].
  - exists (m_jobs (mgr st)). rewrite with_ids_same. split; [done|]. intros id i. split; [|tauto].
    intros ?. split; [done|]. intros (? & ? & ? & Hx & _). by apply elem_of_nil in Hx.
  - destruct (Hcs u c (list_elem_of_here _ _)) as (j & jb & -> & Hj). rewrite Hj. cbn [mbind option_bind].
    assert (Hcs' : ∀ u c, (u, c) ∈ cs → ∃ j jb, c = [j] ∧ heap st !! j = Some jb)
      by (intros; apply (Hcs u0); by apply list_elem_of_further).
    assert (Hcons : ∀ id i, id_of ((u, [j]) :: cs) st id i ↔ (i = j ∧ id = j_id jb) ∨ id_of cs st id i).
    { intros id i. split.
      - intros (v & c & ib & [[= -> -> ->]|Hv]%elem_of_cons & Hib & Hid); [left; split; congruence|right; by exists v, c, ib].
      - intros [[-> ->]|(v & c & ib & ? & ? & ?)].
        + exists u, [], jb. split_and!; [apply list_elem_of_here|done..].
        + exists v, c, ib. split_and!; [by apply list_elem_of_further|done..]. }
    unfold remove_id. case_bool_decide as Hm.
    + set (st1 := alter_mgr _ st). destruct (IH st1 Hcs') as (M & -> & HM). exists M. split; [done|].
      intros id i. rewrite HM, Hcons. change (m_jobs (mgr st1)) with (delete (j_id jb) (m_jobs (mgr st))).
      change (id_of cs st1 id i) with (id_of cs st id i). rewrite lookup_delete_Some. split.
      * intros [[Hne Hi] Hn]. split; [done|]. intros [[-> ->]|?]; done.
      * intros [Hi Hn]. split_and!; [|done|tauto]. intros <-. apply Hn. left. split; congruence.
    + destruct (IH st Hcs') as (M & -> & HM). exists M. split; [done|]. intros id i. rewrite HM, Hcons. split; [|tauto].
      intros [Hi Hn]. split; [done|]. intros [[-> ->]|?]; done.
Qed.

(** ** Cancelling what isolation does not keep *)

Lemma shrinks_ids_installed st st' : shrinks st st' → ids_installed st → ids_installed st'.
Proof.
  intros Hsh Hids id i Hi. pose proof (sh_back _ _ Hsh id i Hi) as Hi0. destruct (Hids id i Hi0) as (ib & Hib & Hid & Hii).
  destruct (heap st' !! i) as [ib'|] eqn:Ei.
  - destruct (sh_heap _ _ Hsh i ib' Ei) as (ib2 & ? & _ & ? & ? & _). exists ib'. split_and!; congruence.
  - exfalso. apply (sh_gone _ _ Hsh i ib Hib Ei). by rewrite Hid.
Qed.

(** The jobs isolation cancels. *)
Definition not_isolated st (jb : Job) : Prop := ignore_on_isolate (j_unit jb) = false ∧ jobs st !! j_unit jb = None.

Lemma cancel_jobs_spec js st :
  sys_ok st → few st → NoDup js → (∀ j, j ∈ js → ∃ jb, heap st !! j = Some jb ∧ j_installed jb = true) →
  ∃ st', cancel_jobs js st = Some st' ∧ sys_ok st' ∧ shrinks st st' ∧
    ∀ k kb, heap st !! k = Some kb → heap st' !! k = None ↔ k ∈ js ∧ not_isolated st kb.
Proof.
  revert st. induction js as [|j js IH]; intros st Hok Hfew Hnd Hjs; cbn [cancel_jobs].
  - exists st. split_and!; [done|done|apply shrinks_refl|]. intros k kb Hk. split; [congruence|].
    by intros [?%elem_of_nil _].
  - destruct (Hjs j (list_elem_of_here _ _)) as (jb & Hj & Hi). rewrite Hj. cbn [mbind option_bind].
    rewrite assert_bind by done. apply NoDup_cons in Hnd as [Hjn Hnd].
    assert (Hjs' : ∀ k, k ∈ js → ∃ kb, heap st !! k = Some kb ∧ j_installed kb = true)
      by (intros; apply Hjs; by apply list_elem_of_further).
    assert (Hskip : ¬ not_isolated st jb → ∃ st', cancel_jobs js st = Some st' ∧ sys_ok st' ∧ shrinks st st' ∧
      ∀ k kb, heap st !! k = Some kb → heap st' !! k = None ↔ k ∈ j :: js ∧ not_isolated st kb).
    { intros Hno. destruct (IH st Hok Hfew Hnd Hjs') as (st' & -> & Hok' & Hsh' & Hgone). exists st'.
      split_and!; [done..|]. intros k kb Hk. rewrite (Hgone k kb Hk), elem_of_cons. split; [tauto|].
      intros [[->|?] Hn]; [|done]. assert (kb = jb) by congruence. by subst. }
    destruct (ignore_on_isolate (j_unit jb)) eqn:Eig; [apply Hskip; intros [? _]; congruence|].
    case_bool_decide as Ejo; [apply Hskip; intros [_ Hx]; rewrite Hx in Ejo; by destruct Ejo|].
    apply eq_None_not_Some in Ejo.
    destruct (cancel_spec j jb st Hok Hfew Hj Hi) as (st1 & -> & Hok1 & Hsh1 & _ & Hgone1 & Hkeep1). cbn [mbind option_bind].
    destruct (IH st1 Hok1 (shrinks_few _ _ Hsh1 Hfew) Hnd) as (st2 & -> & Hok2 & Hsh2 & Hgone2).
    { intros k Hk. destruct (Hjs' k Hk) as (kb & Hkb & Hki). destruct (Hkeep1 k) as [kb1 Hkb1]; [by intros ->|eauto|].
      destruct (sh_heap _ _ Hsh1 k kb1 Hkb1) as (? & ? & _ & _ & ? & _). exists kb1. split; [done|congruence]. }
    exists st2. split_and!; [done|done|by eapply shrinks_trans|]. intros k kb Hk. rewrite elem_of_cons.
    destruct (decide (k = j)) as [->|Hne].
    + split; [|intros _; by apply (shrinks_gone st1)]. intros _. split; [by left|].
      assert (kb = jb) by congruence. by subst.
    + destruct (Hkeep1 k Hne) as [kb1 Hkb1]; [eauto|]. rewrite (Hgone2 k kb1 Hkb1).
      destruct (sh_heap _ _ Hsh1 k kb1 Hkb1) as (? & ? & Hu & _). assert (x = kb) by congruence. subst x.
      unfold not_isolated. rewrite Hu, (proj1 (sh_tr _ _ Hsh1)). tauto.
Qed.

Lemma iter_ids_installed st :
  sys_ok st → ids_installed st → NoDup (iter_ids (m_jobs (mgr st))) ∧
  ∀ j, j ∈ iter_ids (m_jobs (mgr st)) ↔ ∃ jb, heap st !! j = Some jb ∧ j_installed jb = true.
Proof.
  intros Hok Hids. split.
  - rewrite iter_ids_perm. apply NoDup_fmap_2_strong; [|apply NoDup_map_to_list].
    intros [id1 i1] [id2 i2] H1%elem_of_map_to_list H2%elem_of_map_to_list Heq. cbn in Heq. subst i2.
    destruct (Hids id1 i1 H1) as (? & ? & ? & _). destruct (Hids id2 i1 H2) as (? & ? & ? & _). congruence.
  - intros j. rewrite iter_ids_perm, list_elem_of_fmap. split.
    + intros ([id i] & -> & Hi%elem_of_map_to_list). destruct (Hids id i Hi) as (ib & ? & _ & ?). eauto.
    + intros (jb & Hj & Hi). exists (j_id jb, j). split; [done|]. apply elem_of_map_to_list. by apply (mo_id _ (proj2 Hok)).
Qed.

(** ** The whole operation *)

Record appliable st : Prop := {
  al_ok : sys_ok st;
  al_few : few st;
  al_merged u c : jobs st !! u = Some c → ∃ j, c = [j];
  al_waiting k kb : in_tr st k → heap st !! k = Some kb → j_state kb = JOB_WAITING;
  al_ids : ids_installed st;
  al_strays : no_strays st;
}.

(** What isolation takes away first. *)
Definition cancelled (mode : JobMode) st st1 : Prop :=
  if bool_decide (mode ∈ [JOB_ISOLATE; JOB_FLUSH]) then
    shrinks st st1 ∧ ∀ k kb, heap st !! k = Some kb →
      heap st1 !! k = None ↔ j_installed kb = true ∧ not_isolated st kb
  else st1 = st.

Lemma cancelled_shrinks mode st st1 : cancelled mode st st1 → shrinks st st1.
Proof. unfold cancelled. case_bool_decide; [by intros [? _]|intros ->; apply shrinks_refl]. Qed.

Lemma ready_with_ids M st :
  appliable st → m_jobs (mgr st) ⊆ M →
  (∀ id i, M !! id = Some i → m_jobs (mgr st) !! id = Some i ∨ id_of (iter (jobs st)) st id i) →
  (∀ u j jb, (u, [j]) ∈ iter (jobs st) → heap st !! j = Some jb → M !! j_id jb = Some j) →
  ready (with_ids M st).
Proof.
  intros [[Htr Hm] Hfew Hmer Hw Hids Hstr] Hsub Hback Hall. split; try done.
  - split; [done|]. destruct Hm as [? ? ? ? Hid ? ? ? ? ? ?]. split; try done.
    intros i ib Hib Hii. cbn. eapply lookup_weaken; [|exact Hsub]. by apply Hid.
  - intros k kb Hk Hkb. split; [by apply (Hw k)|]. destruct Hk as (u & c & Hu & Hk).
    destruct (Hmer u c Hu) as [j ->]. apply list_elem_of_singleton in Hk. subst j.
    apply (Hall u k kb); [by apply elem_of_iter|done].
  - intros id i Hi. destruct (Hback id i Hi) as [Hx|(u & c & ib & Hu%elem_of_iter & Hib & Hid)].
    + destruct (Hids id i Hx) as (ib & ? & ? & ?). exists ib. split_and!; [done..|by left].
    + exists ib. split_and!; [done..|right]. exists u, (i :: c). split; [done|apply list_elem_of_here].
Qed.

Lemma cancel_phase mode st :
  appliable st →
  ∃ st1, (if bool_decide (mode ∈ [JOB_ISOLATE; JOB_FLUSH]) then cancel_jobs (iter_ids (m_jobs (mgr st))) st
          else Some st) = Some st1 ∧ cancelled mode st st1 ∧ appliable st1.
Proof.
  intros Hal. pose proof Hal as [Hok Hfew Hmer Hw Hids Hstr]. unfold cancelled. case_bool_decide; [|by exists st].
  destruct (iter_ids_installed st Hok Hids) as [Hnd Hel].
  destruct (cancel_jobs_spec (iter_ids (m_jobs (mgr st))) st Hok Hfew Hnd) as (st1 & -> & Hok1 & Hsh & Hgone); [by intros j ?%Hel|].
  exists st1. split_and!; [done|done| |].
  - intros k kb Hk. rewrite (Hgone k kb Hk), Hel. naive_solver.
  - pose proof (proj1 (sh_tr _ _ Hsh)) as Hj. split; [done|by eapply shrinks_few| | |by eapply shrinks_ids_installed|].
    + intros u c. rewrite Hj. apply Hmer.
    + intros k kb Hk Hkb. destruct (sh_heap _ _ Hsh k kb Hkb) as (kb0 & ? & _ & _ & _ & _ & _ & ->).
      apply (Hw k); [|done]. destruct Hk as (u & c & Hu & ?). exists u, c. by rewrite <- Hj.
    + intros k kb Hkb. destruct (sh_heap _ _ Hsh k kb Hkb) as (kb0 & Hk0 & _ & _ & Hi & _). unfold in_tr. rewrite Hi, Hj.
      by apply (Hstr k).
Qed.

(** The units of the transaction are not among those isolation cancels. *)
Lemma cancelled_type mode st st1 u j (jb : Job) :
  appliable st → appliable st1 → cancelled mode st st1 → jobs st !! u = Some [j] → j_unit jb = u →
  installed_type st1 jb = installed_type st jb.
Proof.
  intros Hal Hal1 Hca Hu Hju. pose proof (cancelled_shrinks _ _ _ Hca) as Hsh.
  apply installed_type_same; [apply Hal|apply Hal1| |].
  - intros k kb Hk Hku. destruct (heap st1 !! k) as [kb1|] eqn:E1.
    + destruct (sh_heap _ _ Hsh k kb1 E1) as (kb2 & ? & ? & _ & ? & ? & _). assert (kb2 = kb) by congruence. subst. eauto.
    + exfalso. unfold cancelled in Hca. case_bool_decide; [|by subst; congruence].
      destruct Hca as [_ Hg]. apply (Hg k kb Hk) in E1 as [_ [_ Hn]]. rewrite Hku, Hju in Hn. congruence.
  - intros k kb' Hk. destruct (sh_heap _ _ Hsh k kb' Hk) as (kb & ? & ? & _). eauto.
Qed.

Lemma transaction_apply_spec mode st :
  appliable st → ∃ r st' aff st1, transaction_apply mode st = Some (r, st', aff) ∧ cancelled mode st st1 ∧ appliable st1 ∧
    (r = 0 ∧ (∃ M, apply_done (with_ids M st1) ∅ st' aff) ∨ r = -EEXIST ∧ st' = st1).
Proof.
  intros Hal. unfold transaction_apply. destruct (cancel_phase mode st Hal) as (st1 & -> & Hca & Hal1). cbn [mbind option_bind].
  assert (Hcs : ∀ u c, (u, c) ∈ iter (jobs st1) → ∃ j jb, c = [j] ∧ heap st1 !! j = Some jb).
  { intros u c Hu%elem_of_iter. destruct (al_merged _ Hal1 u c Hu) as [j ->].
    destruct (in_tr_idle st1 j (proj1 (proj1 (al_ok _ Hal1)))) as (jb & ? & _); [|eauto].
    exists u, [j]. split; [done|apply list_elem_of_here]. }
  destruct (put_ids_spec (iter (jobs st1)) st1 Hcs) as (r & M & -> & Hr & Hsub & Hback & Hall). cbn [mbind option_bind].
  destruct Hr as [->| ->]; cbn [Z.ltb Z.compare].
  - destruct (apply_loop_spec (S (size (jobs (with_ids M st1)))) ∅ (with_ids M st1)) as (st' & aff & -> & Hdone);
      [apply ready_with_ids; [done..|by apply Hall]|lia|]. cbn [mbind option_bind].
    exists 0, st', aff, st1. split_and!; [done..|]. left. eauto.
  - destruct (remove_ids_spec (iter (jobs (with_ids M st1))) (with_ids M st1)) as (M' & HM & Hlk); [done|].
    change (- EEXIST <? 0) with true. cbn iota.
    rewrite HM. cbn [mbind option_bind].
    assert (M' = m_jobs (mgr st1)) as ->.
    { apply map_eq. intros id. apply option_eq. intros i. rewrite Hlk. cbn [with_ids]. split.
      - intros [Hi Hn]. destruct (Hback id i Hi) as [?|?]; [done|by destruct Hn].
      - intros Hi. split; [by eapply lookup_weaken|]. intros (u & c & ib & Hu%elem_of_iter & Hib & _).
        destruct (al_ids _ Hal1 id i Hi) as (ib' & ? & _ & Hii). assert (ib' = ib) by (cbn in Hib; congruence). subst ib'.
        assert (in_tr st1 i) as Hin by (exists u, (i :: c); split; [done|apply list_elem_of_here]).
        rewrite (in_tr_not_installed st1 i ib (proj1 (al_ok _ Hal1)) Hin) in Hii; done. }
    eexists _, _, ∅, st1. split_and!; [done..|]. right. split; [done|]. by destruct st1 as [? ? ? ? ? []].
Qed.

(** ** Properties *)

(** C5: [transaction_apply] never fails an assertion. It succeeds, and then the transaction
    is empty and for every unit of it exactly one job is installed, on the run queue if
    memory allows, with the job's own type, or merged with the type of the job that was
    installed before if the two do not conflict; the anchor becomes the job that took its
    place. Or an id is taken and it fails with -EEXIST: then nothing has changed, except
    that isolating has already cancelled the jobs of units that are not in the
    transaction. *)
Theorem transaction_apply_correct (mode : JobMode) (st : State) :
  appliable st →
  ∃ r st' aff, transaction_apply mode st = Some (r, st', aff) ∧ sys_ok st' ∧ ids_installed st' ∧
    (r = 0 ∧ jobs st' = ∅ ∧
       (∀ u j jb, jobs st !! u = Some [j] → heap st !! j = Some jb → ∃ i, takes_over u j jb st aff i st') ∨
     r = -EEXIST ∧ cancelled mode st st').
Proof.
  intros Hal. destruct (transaction_apply_spec mode st Hal) as (r & st' & aff & st1 & H & Hca & Hal1 & Hcase).
  exists r, st', aff. split; [done|]. destruct Hcase as [[-> [M Hd]]|[-> ->]].
  - split_and!; [apply Hd|apply Hd|]. left. split_and!; [done|apply Hd|]. intros u j jb Hu Hj.
    pose proof (cancelled_shrinks _ _ _ Hca) as Hsh. destruct (sh_tr _ _ Hsh) as (Hjobs & _ & Hanc & _).
    destruct (proj1 (proj1 (proj1 (al_ok _ Hal))) u [j] Hu) as [_ Hc].
    destruct (Hc j (list_elem_of_here _ _)) as (jb' & Hjb' & Hju & Hni & _). assert (jb' = jb) by congruence. subst jb'.
    destruct (ad_units _ _ _ _ Hd u j jb) as (i & ib & H1 & H2 & H3 & H4 & H5 & H6 & H7);
      [by cbn; rewrite Hjobs|by apply (sh_idle _ _ Hsh)|].
    exists i, ib. split_and!; try done.
    + rewrite <- (cancelled_type mode st st1 u j jb); [|done..]. done.
    + intros Ha. apply H7. cbn. congruence.
  - split_and!; [apply Hal1|apply Hal1|]. by right.
Qed.

End Apply.

(** ** Unit 1 has a start job installed and is to be restarted; unit 2 is to be started *)

Definition apply_env : Env := ex_env (ex_deps []) (λ _, UNIT_ACTIVE) [1; 2]%positive.

Definition apply_state : @State ex_rq :=
  @MkState ex_rq
    (list_to_map [(1%positive, fin_job 1 JOB_START JOB_WAITING); (2%positive, ex_job 1 2 JOB_RESTART);
                  (3%positive, ex_job 2 3 JOB_START)])
    [MkDep (Some 2%positive) 3%positive true false] (list_to_map [(1, [2]); (2, [3])]%positive) (Some 2%positive) false
    (@MkManager ex_rq (list_to_map [(1, 1)]%positive) ∅ (list_to_map [(1, 1%positive)])
       4 1 0 0 (@rq_empty ex_rq) [] [] (λ _, UNIT_LOADED) []).

Lemma apply_state_appliable : appliable apply_state.
Proof.
  split.
  - apply sys_ok_check; [by_decide|done].
  - by vm_compute.
  - intros u c Hu. apply elem_of_list_to_map_2, list_elem_of_In in Hu. destruct Hu as [[= _ <-]|[[= _ <-]|[]]]; eauto.
  - intros k kb _ Hk. apply elem_of_list_to_map_2, list_elem_of_In in Hk.
    by destruct Hk as [[= _ <-]|[[= _ <-]|[[= _ <-]|[]]]].
  - intros id i Hi. apply elem_of_list_to_map_2, list_elem_of_In in Hi. destruct Hi as [[= <- <-]|[]].
    eexists. split; [reflexivity|done].
  - intros k kb Hk. apply elem_of_list_to_map_2, list_elem_of_In in Hk.
    destruct Hk as [[= <- <-]|[[= <- <-]|[[= <- <-]|[]]]]; [by left|right..].
    + exists 1%positive, [2%positive]. split; [done|apply list_elem_of_here].
    + exists 2%positive, [3%positive]. split; [done|apply list_elem_of_here].
Qed.

Lemma transaction_apply_correct_witness :
  let E := apply_env in
  ∃ r st' aff, transaction_apply JOB_REPLACE apply_state = Some (r, st', aff) ∧ sys_ok st'.
Proof.
  intros E. destruct (@transaction_apply_correct ex_rq E JOB_REPLACE apply_state) as (r & st' & aff & H1 & H2 & _).
  - exact apply_state_appliable.
  - exists r, st', aff. split; [exact H1|exact H2].
Defined.

(** The restart is merged into the installed job 1; job 3 is installed as it is. *)
Example apply_merges :
  let E := apply_env in
  (λ x, (fst (fst x), (λ kb, (fst kb, j_type (snd kb), j_installed (snd kb))) <$> map_to_list (heap (snd (fst x))),
         anchor_job (snd (fst x)), rq_jobs (run_queue (mgr (snd (fst x))))))
    <$> transaction_apply JOB_REPLACE apply_state
  = Some (0, [(3%positive, JOB_START, true); (1%positive, JOB_RESTART, true)], Some 1%positive, [3; 1]%positive).
Proof. vm_compute. reflexivity. Qed.
