(* ===== verification/TrActivate.v ===== *)
(** * Activating a transaction (src/core/transaction.c)

    [transaction_activate] takes a transaction that was built through all its steps and
    applies it. The creation of the idle pipe at the end is left out. *)

From S2P Require Import Prelude JobType Prioq RunQueue JobData TrDelete TrFix TrOrder TrMerge TrBuild JobOps JobFinish JobInstall TrApply.

Section Activate.
Context {RQ : RunQueue} {E : Env}.
Implicit Types (st : State) (j k u i a : positive) (g : Z).

(** ** The code *)

Definition reset_generations st : State :=
  foldr (alter_job (set_j_generation 0)) st (iter_ids (m_jobs (mgr st))).

Definition collect_unless_isolating (mode : JobMode) st : option State :=
  if bool_decide (mode ≠ JOB_ISOLATE) then transaction_collect_garbage st else Some st.

(** Fourth and fifth step. Every further round has dropped a unit. *)
Fixpoint order_loop (fuel : nat) (mode : JobMode) (generation : Z) st : option (Z * State) :=
  match fuel with
  | O => None
  | S fuel =>
      st ← collect_unless_isolating mode st;
      '(r, st, generation) ← transaction_verify_order generation st;
      if 0 <=? r then Some (r, st)
      else if negb (r =? -EAGAIN) then Some (r, st)
      else order_loop fuel mode generation st
  end.

(** Sixth and seventh step. Every further round has dropped a job. *)
Fixpoint merge_loop (fuel : nat) (mode : JobMode) st : option (Z * State) :=
  match fuel with
  | O => None
  | S fuel =>
      '(r, st) ← transaction_merge_jobs st;
      if 0 <=? r then Some (r, st)
      else if negb (r =? -EAGAIN) then Some (r, st)
      else st ← collect_unless_isolating mode st; merge_loop fuel mode st
  end.

Definition transaction_activate (mode : JobMode) st : option (Z * State * gset positive) :=
  let st := reset_generations st in
  a ← anchor_job st;
  st ← transaction_find_jobs_that_matter_to_anchor a 1 st;
  st ← (if bool_decide (mode = JOB_FAIL) then transaction_minimize_impact st else Some st);
  st ← transaction_drop_redundant st;
  '(r, st) ← order_loop (S (size (heap st))) mode 2 st;
  if r <? 0 then Some (r, st, ∅)
  else
    '(r, st) ← merge_loop (S (size (heap st))) mode st;
    if r <? 0 then Some (r, st, ∅)
    else
      st ← transaction_drop_redundant st;
      r ← transaction_is_destructive mode st;
      if r <? 0 then Some (r, st, ∅)
      else
        '(r, st, affected) ← transaction_apply mode st;
        if r <? 0 then Some (r, st, affected)
        else assert_ (bool_decide (jobs st = ∅));; Some (0, st, affected).

(** ** Steps that leave the installed jobs alone *)

(** The same job up to what the walk over the ordering graph writes. *)
Definition same_but_marks (kb kb' : Job) : Prop :=
  ∃ g m, kb' = set_j_generation g (set_j_marker m kb).

Record frame st st' : Prop := {
  fr_mgr : mgr st' = mgr st;
  fr_out k : ¬ in_tr st k → option_Forall2 same_but_marks (heap st !! k) (heap st' !! k);
  fr_in k kb' : in_tr st k → heap st' !! k = Some kb' → idle kb';
  fr_dom k : is_Some (heap st' !! k) → is_Some (heap st !! k);
  fr_chain u c k : jobs st' !! u = Some c → k ∈ c → ∃ c0, jobs st !! u = Some c0 ∧ k ∈ c0;
  fr_type k kb kb' : in_tr st k → heap st !! k = Some kb → heap st' !! k = Some kb' →
    j_unit kb' = j_unit kb ∧ becomes (unit_active_state (j_unit kb)) (j_type kb) (j_type kb');
}.

Lemma fr_tr st st' k : frame st st' → in_tr st' k → in_tr st k.
Proof. intros Hf (u & c & Hu & Hk). destruct (fr_chain _ _ Hf u c k Hu Hk) as (c0 & ? & ?). by exists u, c0. Qed.

Lemma same_but_marks_refl kb : same_but_marks kb kb.
Proof. exists (j_generation kb), (j_marker kb). by destruct kb. Qed.

Lemma same_but_marks_trans (a b c : Job) : same_but_marks a b → same_but_marks b c → same_but_marks a c.
Proof. intros (g & m & ->) (g' & m' & ->). exists g', m'. by destruct a. Qed.

Lemma frame_refl st : tr_ok st → frame st st.
Proof.
  intros Htr. split; try done; [| |eauto|].
  - intros k _. destruct (heap st !! k); constructor. apply same_but_marks_refl.
  - intros k kb Hk Hkb. destruct (in_tr_idle st k (proj1 Htr) Hk) as (? & ? & ?). congruence.
  - intros k kb kb' _ ? ?. assert (kb' = kb) as -> by congruence. by split; [|left].
Qed.

Lemma frame_trans st1 st2 st3 : frame st1 st2 → frame st2 st3 → frame st1 st3.
Proof.
  intros Hf1 Hf2. pose proof (λ k, fr_tr st1 st2 k Hf1) as Htr. destruct Hf1 as [A1 A2 A3 A4 A5 A6], Hf2 as [B1 B2 B3 B4 B5 B6].
  split; [congruence| | |auto| |].
  - intros k Hk. specialize (A2 k Hk). assert (Hk2 : ¬ in_tr st2 k) by eauto. specialize (B2 k Hk2).
    destruct (heap st1 !! k), (heap st2 !! k), (heap st3 !! k); inversion A2; inversion B2; subst; constructor.
    by eapply same_but_marks_trans.
  - intros k kb3 Hk Hk3. destruct (B4 k) as [kb2 Hk2]; [eauto|].
    destruct (decide (k ∈ all_jobs st2)) as [Hin|Hnin].
    + apply (B3 k); [by apply elem_of_all_jobs|done].
    + assert (Hn : ¬ in_tr st2 k) by (intros Hx; by apply Hnin, elem_of_all_jobs).
      specialize (B2 k Hn). rewrite Hk2, Hk3 in B2. inversion B2 as [? ? (g & m & ->)|]; subst. by apply (A3 k kb2).
  - intros u c k Hu Hk. destruct (B5 u c k Hu Hk) as (c0 & Hu0 & Hk0). by apply (A5 u c0).
  - intros k kb1 kb3 Hk Hk1 Hk3. destruct (B4 k) as [kb2 Hk2]; [eauto|]. destruct (A6 k kb1 kb2) as [Hu Ht]; [done..|].
    destruct (decide (k ∈ all_jobs st2)) as [Hin%elem_of_all_jobs|Hnin].
    + destruct (B6 k kb2 kb3) as [Hu' Ht']; [done..|]. split; [congruence|]. rewrite Hu in Ht'. by eapply becomes_trans.
    + assert (Hn : ¬ in_tr st2 k) by (intros Hx; by apply Hnin, elem_of_all_jobs).
      specialize (B2 k Hn). rewrite Hk2, Hk3 in B2. inversion B2 as [? ? (g & m & ->)|]; subst. done.
Qed.

(** The number of running jobs does not depend on jobs that are not installed. *)
Lemma count_running_ext (h h' : gmap positive Job) :
  (∀ k, (∃ kb, h !! k = Some kb ∧ is_running kb = true) ↔ (∃ kb, h' !! k = Some kb ∧ is_running kb = true)) →
  count_running h = count_running h'.
Proof.
  intros H. unfold count_running. f_equal. rewrite <- !(size_dom (D := gset positive)). f_equal. apply set_eq.
  intros k. rewrite !elem_of_dom. unfold is_Some. setoid_rewrite map_lookup_filter_Some. cbn. naive_solver.
Qed.

Lemma frame_job st st' k kb' :
  frame st st' → heap st' !! k = Some kb' →
  idle kb' ∨ ∃ kb, heap st !! k = Some kb ∧ same_but_marks kb kb'.
Proof.
  intros Hf Hk. destruct (decide (k ∈ all_jobs st)) as [Hin|Hnin].
  - left. apply (fr_in _ _ Hf k); [by apply elem_of_all_jobs|done].
  - right. pose proof (fr_out _ _ Hf k) as H. rewrite Hk in H.
    assert (Hn : ¬ in_tr st k) by (intros Hx; by apply Hnin, elem_of_all_jobs). specialize (H Hn).
    inversion H as [kb ? ? Hkb|]; subst. eauto.
Qed.

Lemma frame_installed st st' k kb :
  tr_ok st → frame st st' → heap st !! k = Some kb → j_installed kb = true →
  ∃ kb', heap st' !! k = Some kb' ∧ same_but_marks kb kb'.
Proof.
  intros Htr Hf Hk Hi. assert (Hn : ¬ in_tr st k) by (intros Hx; pose proof (in_tr_not_installed st k kb Htr Hx Hk); congruence).
  pose proof (fr_out _ _ Hf k Hn) as H. rewrite Hk in H. inversion H; subst. eauto.
Qed.

(** The invariant of the manager looks at installed jobs only. *)
Lemma installed_sys_ok st st' :
  sys_ok st → st_ok st' → (∃ id ls, mgr st' = set_current_job_id id (set_load_state ls (mgr st))) →
  (∀ k kb, heap st !! k = Some kb → j_installed kb = true → ∃ kb', heap st' !! k = Some kb' ∧ same_but_marks kb kb') →
  (∀ k kb', heap st' !! k = Some kb' → idle kb' ∨ ∃ kb, heap st !! k = Some kb ∧ same_but_marks kb kb') →
  sys_ok st'.
Proof.
  intros [Htr Hm] (Htr' & Hty & _) (id & ls & Hmg) Hfw Hjob. split; [done|].
  assert (Hbw : ∀ k kb', heap st' !! k = Some kb' → ¬ idle kb' → ∃ kb, heap st !! k = Some kb ∧ same_but_marks kb kb').
  { intros k kb' Hk Hn. by destruct (Hjob k kb' Hk). }
  assert (Hq : ∀ (flag : Job → bool) q, (∀ b, idle b → flag b = false) → (∀ b, flag b = true → queued b = true) →
    (∀ x y, same_but_marks x y → flag y = flag x) → queue_ok flag q (heap st) → queue_ok flag q (heap st')).
  { intros flag q Hidle Hqd Hsame [Hnd Hel]. split; [done|]. intros i. rewrite Hel. split.
    - intros (ib & Hib & Hfl). destruct (Hfw i ib Hib) as (ib' & ? & Hs); [apply (mo_queued _ Hm i ib Hib), Hqd, Hfl|].
      exists ib'. split; [done|]. by rewrite (Hsame _ _ Hs).
    - intros (ib' & Hib' & Hfl). destruct (Hbw i ib' Hib') as (ib & ? & Hs); [intros Hx; rewrite (Hidle _ Hx) in Hfl; done|].
      exists ib. split; [done|]. by rewrite <- (Hsame _ _ Hs). }
  split; rewrite ?Hmg.
  - exact Hty.
  - intros u i Hu. destruct (mo_job _ Hm u i Hu) as (ib & Hib & Hii & ? & ?).
    destruct (Hfw i ib Hib Hii) as (ib' & ? & (g & m & ->)). eauto.
  - intros u i Hu. destruct (mo_nop _ Hm u i Hu) as (ib & Hib & Hii & ? & ?).
    destruct (Hfw i ib Hib Hii) as (ib' & ? & (g & m & ->)). eauto.
  - intros i ib' Hib' Hii. destruct (Hbw i ib' Hib') as (ib & Hib & (g & m & ->)); [intros [? _]; congruence|].
    rewrite <- (mo_slot _ Hm i ib Hib Hii). unfold slot. by rewrite Hmg.
  - intros i ib' Hib' Hii. destruct (Hbw i ib' Hib') as (ib & Hib & (g & m & ->)); [intros [? _]; congruence|].
    apply (mo_id _ Hm i ib Hib Hii).
  - apply (mo_rq _ Hm).
  - apply Hq; [by intros b (_ & ? & _)|by intros b Hb; unfold queued; rewrite Hb|by intros a b (g & m & ->)|apply (mo_run _ Hm)].
  - apply Hq; [by intros b (_ & _ & ? & _)|by intros b Hb; unfold queued; rewrite Hb, orb_true_r|
      by intros a b (g & m & ->)|apply (mo_dbus _ Hm)].
  - apply Hq; [by intros b (_ & _ & _ & ?)|by intros b Hb; unfold queued; rewrite Hb, !orb_true_r|
      by intros a b (g & m & ->)|apply (mo_gc _ Hm)].
  - intros i ib' Hib' Hqd. destruct (Hjob i ib' Hib') as [(? & Hr & Hd & Hg)|(ib & Hib & (g & m & ->))].
    + unfold queued in Hqd. by rewrite Hr, Hd, Hg in Hqd.
    + by apply (mo_queued _ Hm i ib).
  - change (n_running_jobs (mgr st) = count_running (heap st')). rewrite (mo_running _ Hm). apply count_running_ext. intros k. split.
    + intros (kb & Hk & Hr). pose proof Hr as [Hi _]%andb_true_iff. destruct (Hfw k kb Hk Hi) as (kb' & ? & (g & m & ->)). eauto.
    + intros (kb' & Hk & Hr). pose proof Hr as [Hi _]%andb_true_iff.
      destruct (Hbw k kb' Hk) as (kb & ? & (g & m & ->)); [intros [? _]; congruence|]. eauto.
Qed.

Lemma frame_sys_ok st st' : sys_ok st → st_ok st' → frame st st' → sys_ok st'.
Proof.
  intros Hok Hst' Hf. apply (installed_sys_ok st st'); [done..| | |].
  - rewrite (fr_mgr _ _ Hf). apply mgr_same.
  - intros k kb Hk Hi. exact (frame_installed st st' k kb (proj1 Hok) Hf Hk Hi).
  - intros k kb' Hk. by apply (frame_job st st').
Qed.

Lemma frame_cut D st : tr_ok st → (∀ k, k ∈ D → in_tr st k) → frame st (cut D D st).
Proof.
  intros Htr HD. split; try done.
  - intros k Hk. rewrite heap_cut, decide_False by auto. destruct (heap st !! k); constructor. apply same_but_marks_refl.
  - intros k kb Hk Hkb%heap_cut_within. destruct (in_tr_idle st k (proj1 Htr) Hk) as (? & ? & ?). congruence.
  - intros k [kb Hk%heap_cut_within]. eauto.
  - intros u c k (_ & c0 & Hu & ->)%jobs_cut [_ Hk]%list_elem_of_filter. eauto.
  - intros k kb kb' _ Hk Hk'%heap_cut_within. assert (kb' = kb) as -> by congruence. by split; [|left].
Qed.

Lemma frame_paint g M st : tr_ok st → frame st (paint g M st).
Proof.
  intros Htr. split; try done.
  - intros k _. rewrite heap_paint. destruct (heap st !! k) as [kb|]; [|constructor]. constructor.
    destruct (M !! k) as [m|]; [by exists g, m|apply same_but_marks_refl].
  - intros k kb' Hk. rewrite heap_paint. destruct (in_tr_idle st k (proj1 Htr) Hk) as (kb & -> & Hid).
    intros [= <-]. by destruct (M !! k).
  - intros k. rewrite heap_paint. by rewrite fmap_is_Some.
  - intros u c k Hu Hk. by exists c.
  - intros k kb kb' _ Hk. rewrite heap_paint, Hk. intros [= <-]. by destruct (M !! k); split; [|left| |left].
Qed.

(** ** The state between the steps *)

Record act_ok (a : positive) g st : Prop := {
  ac_sys : sys_ok st;
  ac_few : few st;
  ac_anchor : anchor_job st = Some a;
  ac_in : in_tr st a;
  ac_nop : no_nop_chains st;
  ac_wait k kb : in_tr st k → heap st !! k = Some kb → j_state kb = JOB_WAITING;
  ac_gen k kb : heap st !! k = Some kb → 0 <= j_generation kb < g;
  ac_marks : marks_closed st;
  ac_matters ab : heap st !! a = Some ab → j_matters_to_anchor ab = true;
  ac_ids : ids_installed st;
  ac_strays : no_strays st;
}.

Lemma size_cut_le D L st : (size (heap (cut D L st)) <= size (heap st))%nat.
Proof. unfold cut. st_simpl. apply map_size_filter. Qed.

Lemma frame_ids st st' : sys_ok st → frame st st' → ids_installed st → ids_installed st'.
Proof.
  intros [Htr _] Hf Hids id i. rewrite (fr_mgr _ _ Hf). intros Hi. destruct (Hids id i Hi) as (ib & Hib & Hid & Hii).
  destruct (frame_installed st st' i ib Htr Hf Hib Hii) as (ib' & ? & (g & m & ->)). eauto.
Qed.

Lemma act_ok_cut a g D st :
  act_ok a g st → (∀ k, k ∈ D → in_tr st k) → a ∉ D → act_ok a g (cut D D st) ∧ frame st (cut D D st).
Proof.
  intros [Hsys Hfew Ha Hin Hnop Hw Hg Hmc Hmat Hids Hstr] HD HaD.
  pose proof (frame_cut D st (proj1 Hsys) HD) as Hf. split; [|done]. split.
  - apply (frame_sys_ok st); [done| |done]. apply st_ok_cut; [by apply sys_ok_st_ok|done].
  - pose proof (size_cut_le D D st). unfold few in *. lia.
  - done.
  - by apply in_tr_cut.
  - intros u c k kb (_ & c0 & Hu & ->)%jobs_cut Hlen [_ Hk]%list_elem_of_filter Hkb%heap_cut_within.
    apply (Hnop u c0 k kb); try done. pose proof (length_filter (.∉ D) c0). lia.
  - intros k kb [Hk _]%in_tr_cut Hkb%heap_cut_within. by apply (Hw k).
  - intros k kb Hkb%heap_cut_within. by apply (Hg k).
  - by apply marks_closed_cut.
  - intros ab Hab%heap_cut_within. by apply Hmat.
  - by apply (frame_ids st).
  - intros k kb Hkb. rewrite heap_cut in Hkb. case_decide as Hd; [done|].
    destruct (Hstr k kb Hkb) as [?|?]; [by left|right]. by apply in_tr_cut.
Qed.

Lemma act_ok_paint a g M st : act_ok a g st → 0 <= g → act_ok a (g + 1) (paint g M st) ∧ frame st (paint g M st).
Proof.
  intros [Hsys Hfew Ha Hin Hnop Hw Hg Hmc Hmat Hids Hstr] Hg0. pose proof (frame_paint g M st (proj1 Hsys)) as Hf. split; [|done].
  assert (Hh : ∀ k kb', heap (paint g M st) !! k = Some kb' → ∃ kb, heap st !! k = Some kb ∧ kb' = paint_job g (M !! k) kb).
  { intros k kb'. rewrite heap_paint. destruct (heap st !! k); [|done]. intros [= <-]. eauto. }
  assert (Hfields : ∀ m kb, j_type (paint_job g m kb) = j_type kb ∧ j_state (paint_job g m kb) = j_state kb ∧
    j_matters_to_anchor (paint_job g m kb) = j_matters_to_anchor kb ∧ j_installed (paint_job g m kb) = j_installed kb)
    by (by intros [] ?).
  split; try done.
  - apply (frame_sys_ok st); [done| |done]. by apply paint_st_ok, sys_ok_st_ok.
  - unfold few. by rewrite size_paint.
  - intros u c k kb Hu Hlen Hk Hkb. destruct (Hh k kb Hkb) as (kb0 & ? & ->). rewrite (proj1 (Hfields _ _)). by eapply Hnop.
  - intros k kb Hk Hkb. destruct (Hh k kb Hkb) as (kb0 & ? & ->). rewrite (proj1 (proj2 (Hfields _ _))). by apply (Hw k).
  - intros k kb Hkb. destruct (Hh k kb Hkb) as (kb0 & Hk0 & ->). pose proof (Hg k kb0 Hk0). destruct (M !! k); cbn; lia.
  - intros k i kb Hki Hkb Hm. destruct (Hh k kb Hkb) as (kb0 & Hk0 & ->).
    rewrite (proj1 (proj2 (proj2 (Hfields _ _)))) in Hm. destruct (Hmc k i kb0 Hki Hk0 Hm) as (ib & Hib & Hmi).
    exists (paint_job g (M !! i) ib). rewrite heap_paint, Hib. split; [done|]. by rewrite (proj1 (proj2 (proj2 (Hfields _ _)))).
  - intros ab Hab. destruct (Hh a ab Hab) as (ab0 & ? & ->). rewrite (proj1 (proj2 (proj2 (Hfields _ _)))). by apply Hmat.
  - by apply (frame_ids st).
  - intros k kb Hkb. destruct (Hh k kb Hkb) as (kb0 & Hk0 & ->). rewrite (proj2 (proj2 (proj2 (Hfields _ _)))). by apply (Hstr k).
Qed.

(** ** The two loops *)

Lemma collect_spec mode a g st :
  act_ok a g st → ∃ st', collect_unless_isolating mode st = Some st' ∧ act_ok a g st' ∧ frame st st' ∧
    (size (heap st') <= size (heap st))%nat.
Proof.
  intros Hac. unfold collect_unless_isolating. case_bool_decide.
  - destruct (collect_garbage_spec st a (sys_ok_st_ok _ (ac_sys _ _ _ Hac)) (ac_anchor _ _ _ Hac)) as (D & -> & _ & HD & _).
    destruct (act_ok_cut a g D st Hac) as [? ?]; [by intros k Hk; apply HD|intros Ha; by apply HD in Ha as [_ []]|].
    exists (cut D D st). split_and!; [done..|apply size_cut_le].
  - exists st. split_and!; [done..|apply frame_refl, (ac_sys _ _ _ Hac)|done].
Qed.

(** No ordering cycle among the jobs of the transaction and those they are ordered with. *)
Definition acyclic st : Prop := ∀ h k, h ∈ heads st → rtc (before st) h k → ¬ tc (before st) k k.

Lemma before_paint g M st j o : before (paint g M st) j o ↔ before st j o.
Proof.
  unfold before. split.
  - intros (jb & e & Hj & He & Ho). rewrite heap_paint in Hj. destruct (heap st !! j) as [jb0|] eqn:Ej; [|done].
    injection Hj as <-. exists jb0, e. rewrite order_next_paint in Ho. split_and!; try done. by destruct (M !! j).
  - intros (jb & e & Hj & He & Ho). exists (paint_job g (M !! j) jb), e. rewrite heap_paint, Hj, order_next_paint.
    split_and!; try done. by destruct (M !! j).
Qed.

Lemma acyclic_paint g M st : acyclic st → acyclic (paint g M st).
Proof.
  intros H h k Hh Hr Htc. apply (H h k Hh).
  - eapply rtc_subrel, Hr. by intros x y ?%before_paint.
  - refine (tc_congruence id _ k k _ Htc). intros x y. apply before_paint.
Qed.

Lemma order_loop_spec n mode a g st :
  act_ok a g st → 0 < g → (size (heap st) < n)%nat → g + Z.of_nat n < 2 ^ 32 →
  ∃ r st' g', order_loop n mode g st = Some (r, st') ∧ act_ok a g' st' ∧ frame st st' ∧ g' <= g + Z.of_nat n ∧
    (r = 0 ∧ acyclic st' ∨ r = -EDEADLK) ∧ (size (heap st') <= size (heap st))%nat.
Proof.
  revert g st. induction n as [|n IH]; intros g st Hac Hg0 Hn Hg; [lia|]. cbn [order_loop].
  destruct (collect_spec mode a g st Hac) as (st1 & -> & Hac1 & Hf1 & Hsz1). cbn [mbind option_bind].
  pose proof (sys_ok_st_ok _ (ac_sys _ _ _ Hac1)) as Hst1.
  destruct (verify_order_spec g st1 Hst1) as (r & st2 & -> & Hout).
  { intros k kb Hk. pose proof (ac_gen _ _ _ Hac1 k kb Hk). lia. }
  cbn [mbind option_bind]. destruct Hout as [(-> & [M ->] & Hacc)|[[Hr (M & d & db & D & Hs & Hcyc & Hdrop & Hdb & HD)]|[Hr (M & ks & Hs & _)]]].
  - destruct (act_ok_paint a g M st1 Hac1) as [Hac2 Hf2]; [lia|]. cbn [Z.leb Z.compare]. eexists 0, _, (g + 1).
    split_and!; [done|exact Hac2|by eapply frame_trans|lia| |by rewrite size_paint].
    left. split; [done|]. apply acyclic_paint. intros h k Hh Hr. eapply Acc_no_cycle; eauto.
  - cbn in Hr, Hs. subst r st2. change (0 <=? - EAGAIN) with false. rewrite Z.eqb_refl. cbn [negb].
    destruct (act_ok_paint a g M st1 Hac1) as [Hac2 Hf2]; [lia|].
    destruct Hdrop as (db' & c & Hdb' & Hc & Hall). assert (db' = db) as -> by congruence.
    assert (HDin : ∀ k, k ∈ D → in_tr st1 k).
    { intros k (c' & i & Hc' & Hi & Hrr)%HD. apply (goes_in_tr true st1 i k (proj1 Hst1)); [by exists (j_unit db), c'|done]. }
    assert (HaD : a ∉ D).
    { intros (c' & i & Hc' & Hi & Hrr)%HD. assert (c' = d :: c) as -> by congruence.
      destruct (in_tr_job st1 i Hst1) as (ib & Hib & _); [by exists (j_unit db), (d :: c)|].
      destruct (in_tr_job st1 a Hst1 (ac_in _ _ _ Hac1)) as (ab & Hab & _).
      pose proof (marks_closed_rtc st1 a i ib (ac_marks _ _ _ Hac1) Hrr Hib (Hall i ib Hi Hib) ab Hab) as Hf.
      rewrite (ac_matters _ _ _ Hac1 ab Hab) in Hf. done. }
    destruct (act_ok_cut a (g + 1) D (paint g M st1) Hac2) as [Hac3 Hf3]; [by intros k Hk; apply (HDin k Hk)|done|].
    assert (Hsz : (size (heap (cut D D (paint g M st1))) < size (heap st1))%nat).
    { rewrite <- (size_paint g st1 M). apply (size_cut D D _ d); [|by rewrite heap_paint, Hdb].
      apply HD. exists (d :: c), d. split_and!; [done|apply list_elem_of_here|apply rtc_refl]. }
    assert (Hu : u32 (g + 1) = g + 1) by (unfold u32; apply Z.mod_small; lia). rewrite Hu.
    destruct (IH (g + 1) (cut D D (paint g M st1)) Hac3) as (r & st' & g' & -> & Hac' & Hf' & Hg' & Hr & Hsz'); [lia..|].
    exists r, st', g'. split_and!; [done|done| |lia|done|lia].
    eapply frame_trans; [exact Hf1|]. eapply frame_trans; [exact Hf2|]. by eapply frame_trans.
  - cbn in Hr, Hs. subst r st2. change (0 <=? - EDEADLK) with false. change (- EDEADLK =? - EAGAIN) with false. cbn [negb].
    destruct (act_ok_paint a g M st1 Hac1) as [Hac2 Hf2]; [lia|].
    eexists (-EDEADLK), _, (g + 1). split_and!; [done|exact Hac2|by eapply frame_trans|lia|by right|by rewrite size_paint].
Qed.

Lemma frame_merged f st st' :
  st_ok st → st_ok st' → all_merged (iter (jobs st)) f st st' → frame st st' ∧ ∀ k, in_tr st' k ↔ in_tr st k ∧ is_Some (heap st' !! k).
Proof.
  intros Hok Hok' Hall. pose proof Hall as (Hat & Hjo & Hhe & Hli & Hmg & Han & Hir).
  assert (Hat' : ∀ u c k, jobs st !! u = Some c → k ∈ c → merged_at u c (f k) st st').
  { intros u c k Hu Hk. apply Hat; [by apply elem_of_iter|done]. }
  assert (Hin' : ∀ k, in_tr st' k → in_tr st k).
  { intros k (u & c & Hu & Hk). destruct (all_merged_single f st st' u c Hok Hall Hu) as (c0 & s & H0 & -> & (Hs & _)).
    apply list_elem_of_singleton in Hk as ->. by exists u, c0. }
  assert (Hsurv : ∀ k kb', in_tr st k → heap st' !! k = Some kb' → in_tr st' k).
  { intros k kb' (u & c & Hu & Hk) Hkb. destruct (Hat' u c k Hu Hk) as (_ & _ & Hj & Hgone & _).
    destruct (decide (k = f k)) as [Heq|Hne]; [|rewrite (Hgone k Hk Hne) in Hkb; done].
    exists u, [f k]. split; [done|]. rewrite <- Heq. apply list_elem_of_here. }
  assert (Hout : ∀ k, ¬ in_tr st k → heap st' !! k = heap st !! k).
  { intros k Hk. apply Hhe. intros u c Hu%elem_of_iter Hkc. apply Hk. by exists u, c. }
  split; [split|].
  - done.
  - intros k Hk. rewrite Hout by done. destruct (heap st !! k); constructor. apply same_but_marks_refl.
  - intros k kb' Hk Hkb. pose proof (Hsurv k kb' Hk Hkb) as Hk'.
    destruct (in_tr_idle st' k (proj1 (proj1 Hok')) Hk') as (? & ? & ?). congruence.
  - intros k Hk. destruct (in_tr_dec st k Hok) as [Hin|Hnin]; [|by rewrite <- Hout].
    destruct (in_tr_job st k Hok Hin) as (? & ? & _). eauto.
  - intros u c k Hu Hk. destruct (all_merged_single f st st' u c Hok Hall Hu) as (c0 & s & H0 & -> & (Hs & _)).
    apply list_elem_of_singleton in Hk as ->. by exists c0.
  - intros k kb kb' Hk Hkb Hkb'. destruct (Hsurv k kb' Hk Hkb') as (u & c & Hu & Hkc).
    destruct (all_merged_single f st st' u c Hok Hall Hu) as (c0 & s & H0 & -> & (Hs & _ & _ & _ & sb & sb' & H1 & H2 & H3 & _ & H4 & _)).
    apply list_elem_of_singleton in Hkc as ->. assert (sb = kb) as -> by congruence. assert (sb' = kb') as -> by congruence.
    split; [done|]. by apply (merge_chain_answers st u c0 s kb).
  - intros k. split.
    + intros Hk. split; [by apply Hin'|]. destruct (in_tr_job st' k Hok' Hk) as (? & ? & _). eauto.
    + intros [Hk [kb Hkb]]. by eapply Hsurv.
Qed.

(** A transaction that can be applied, with its anchor. *)
Definition merged_ok (a : positive) st : Prop := appliable st ∧ anchor_job st = Some a ∧ in_tr st a.

Lemma merged_appliable a g f st st' :
  act_ok a g st → st_ok st' → all_merged (iter (jobs st)) f st st' → merged_ok a st' ∧ frame st st'.
Proof.
  intros Hac Hok' Hall. pose proof (sys_ok_st_ok _ (ac_sys _ _ _ Hac)) as Hok.
  destruct (frame_merged f st st' Hok Hok' Hall) as [Hf Hin]. split; [|done].
  pose proof Hall as (Hat & Hjo & Hhe & Hli & Hmg & Han & Hir). split_and!; [split| |].
  - by apply (frame_sys_ok st); [apply Hac|..].
  - pose proof (ac_few _ _ _ Hac) as Hfew. unfold few in *. enough (size (heap st') <= size (heap st))%nat by lia.
    rewrite <- !(size_dom (D := gset positive)). apply subseteq_size. intros k Hk%elem_of_dom. apply elem_of_dom. by apply (fr_dom _ _ Hf).
  - intros u c Hu. destruct (all_merged_single f st st' u c Hok Hall Hu) as (? & s & _ & -> & _). eauto.
  - intros k kb Hk Hkb. destruct Hk as (u & c & Hu & Hk).
    destruct (all_merged_single f st st' u c Hok Hall Hu) as (c0 & s & H0 & -> & (Hs & _ & _ & _ & sb & sb' & H1 & H2 & _ & _ & _ & _ & _ & Hw)).
    apply list_elem_of_singleton in Hk as ->. assert (sb' = kb) by congruence. subst. apply Hw.
    apply (ac_wait _ _ _ Hac s); [by exists u, c0|done].
  - by apply (frame_ids st); [apply Hac|..|apply Hac].
  - intros k kb Hkb. destruct (frame_job st st' k kb Hf Hkb) as [Hidle|(kb0 & Hk0 & (g0 & m0 & ->))].
    + right. apply Hin. split; [|eauto]. destruct (fr_dom _ _ Hf k) as [kb0 Hk0]; [eauto|].
      destruct (ac_strays _ _ _ Hac k kb0 Hk0) as [Hi|?]; [|done].
      destruct (frame_installed st st' k kb0 (proj1 (ac_sys _ _ _ Hac)) Hf Hk0 Hi) as (kb' & ? & (g0 & m0 & ->)).
      destruct Hidle as [Hidle _]. assert (kb = set_j_generation g0 (set_j_marker m0 kb0)) by congruence. subst. cbn in Hidle. congruence.
    + destruct (ac_strays _ _ _ Hac k kb0 Hk0) as [?|?]; [by left|right]. apply Hin. eauto.
  - rewrite Han. apply Hac.
  - destruct (ac_in _ _ _ Hac) as (u & c & Hu & Hc). destruct (Hat u c a) as (_ & Hs & Hj & _); [by apply elem_of_iter|done|].
    exists u, [f a]. split; [done|]. rewrite (Hs a); [apply list_elem_of_here|apply Hac|done].
Qed.

Lemma merge_loop_spec n mode a g st :
  act_ok a g st → (size (heap st) < n)%nat →
  ∃ r st', merge_loop n mode st = Some (r, st') ∧ frame st st' ∧ sys_ok st' ∧
    (r = 0 ∧ merged_ok a st' ∨ r = -EDEADLK ∧ ids_installed st' ∧ no_strays st').
Proof.
  revert st. induction n as [|n IH]; intros st Hac Hn; [lia|]. cbn [merge_loop].
  pose proof (sys_ok_st_ok _ (ac_sys _ _ _ Hac)) as Hst.
  destruct (merge_jobs_spec st Hst (ac_nop _ _ _ Hac)) as (r & st1 & -> & Hok1 & Hout). cbn [mbind option_bind].
  destruct Hout as [[-> [f Hall]]|[(-> & d & db & D & -> & Hdin & Hdb & Hun & HD)|(-> & -> & _)]].
  - destruct (merged_appliable a g f st st1 Hac Hok1 Hall) as [Hm Hf]. exists 0, st1. split_and!; [done|done|apply Hm|]. by left.
  - change (0 <=? - EAGAIN) with false. rewrite Z.eqb_refl. cbn [negb].
    assert (HDin : ∀ k, k ∈ D → in_tr st k) by (intros k Hk%HD; by apply (goes_in_tr true st d k (proj1 Hst))).
    destruct (act_ok_cut a g D st Hac HDin) as [Hac1 Hf1].
    { intros Ha%HD. destruct (in_tr_job st a Hst (ac_in _ _ _ Hac)) as (ab & Hab & _).
      pose proof (marks_closed_rtc st a d db (ac_marks _ _ _ Hac) Ha Hdb Hun ab Hab) as Hx.
      rewrite (ac_matters _ _ _ Hac ab Hab) in Hx. done. }
    destruct (collect_spec mode a g _ Hac1) as (st2 & -> & Hac2 & Hf2 & Hsz2). cbn [mbind option_bind].
    assert (Hsz : (size (heap (cut D D st)) < size (heap st))%nat) by (apply (size_cut D D st d); [apply HD, rtc_refl|by rewrite Hdb]).
    destruct (IH st2 Hac2) as (r & st' & -> & Hf' & Hok' & Hr); [lia|]. exists r, st'. split_and!; [done| |done|done].
    eapply frame_trans; [exact Hf1|]. by eapply frame_trans.
  - change (0 <=? - EDEADLK) with false. change (- EDEADLK =? - EAGAIN) with false. cbn [negb].
    eexists _, st. split_and!; [done|apply frame_refl, Hst|apply Hac|]. right. split_and!; [done|apply Hac..].
Qed.

(** ** The first three steps *)

(** A transaction as it was built. *)
Record as_built (a : positive) st : Prop := {
  fs_sys : sys_ok st;
  fs_few : few st;
  fs_anchor : anchor_job st = Some a;
  fs_in : in_tr st a;
  fs_nop : no_nop_chains st;
  fs_new k kb : in_tr st k → heap st !! k = Some kb →
    j_state kb = JOB_WAITING ∧ j_generation kb = 0 ∧ j_matters_to_anchor kb = false;
  fs_ids : ids_installed st;
  fs_strays : no_strays st;
}.

Lemma reset_paint st :
  ∃ M, reset_generations st = paint 0 M st ∧ ∀ k, is_Some (M !! k) ↔ k ∈ iter_ids (m_jobs (mgr st)) ∧ is_Some (heap st !! k).
Proof.
  unfold reset_generations. generalize (iter_ids (m_jobs (mgr st))) as l. intros l.
  exists (j_marker <$> filter (λ kb, kb.1 ∈ l) (heap st)). split.
  - induction l as [|x l IH]; cbn [foldr].
    + unfold paint. destruct st as [h ls js an ir mg]. unfold set_heap. cbn. f_equal. apply map_eq. intros k.
      rewrite map_lookup_imap. destruct (h !! k) eqn:Ek; [|done]. cbn. rewrite lookup_fmap.
      rewrite map_lookup_filter_None_2; [done|]. right. intros ? _. by intros ?%elem_of_nil.
    + rewrite IH. unfold alter_job, paint. destruct st as [h ls js an ir mg]. unfold set_heap. cbn. f_equal. apply map_eq. intros k.
      rewrite map_lookup_imap, lookup_fmap, map_lookup_filter. destruct (decide (x = k)) as [->|Hne].
      * rewrite lookup_alter_eq, map_lookup_imap, lookup_fmap, map_lookup_filter. destruct (h !! k) as [[]|]; [|done]. cbn.
        rewrite (option_guard_True (k ∈ k :: l)) by apply list_elem_of_here. cbn.
        destruct (decide (k ∈ l)); [rewrite option_guard_True by done|rewrite option_guard_False by done]; done.
      * rewrite lookup_alter_ne by done. rewrite map_lookup_imap, lookup_fmap, map_lookup_filter. destruct (h !! k); [|done]. cbn.
        destruct (decide (k ∈ l)) as [Hk|Hk].
        -- rewrite !option_guard_True; [done|by apply list_elem_of_further|done].
        -- rewrite !option_guard_False; [done|by intros [?|?]%elem_of_cons|done].
  - intros k. rewrite lookup_fmap, fmap_is_Some, map_lookup_filter. destruct (heap st !! k) as [kb|]; cbn.
    + destruct (decide (k ∈ l)); [rewrite option_guard_True by done|rewrite option_guard_False by done].
      * naive_solver.
      * split; [by intros []|naive_solver].
    + split; [by intros []|by intros [_ []]].
Qed.

Lemma reset_fresh a st :
  as_built a st → as_built a (reset_generations st) ∧ frame st (reset_generations st) ∧
    ∀ k kb, heap (reset_generations st) !! k = Some kb → j_generation kb = 0.
Proof.
  intros [Hsys Hfew Ha Hin Hnop Hnew Hids Hstr]. destruct (reset_paint st) as (M & -> & HM).
  pose proof (frame_paint 0 M st (proj1 Hsys)) as Hf.
  assert (Hh : ∀ k kb', heap (paint 0 M st) !! k = Some kb' → ∃ kb, heap st !! k = Some kb ∧ kb' = paint_job 0 (M !! k) kb).
  { intros k kb'. rewrite heap_paint. destruct (heap st !! k); [|done]. intros [= <-]. eauto. }
  assert (Hgen : ∀ k kb, heap (paint 0 M st) !! k = Some kb → j_generation kb = 0).
  { intros k kb' Hk. destruct (Hh k kb' Hk) as (kb & Hkb & ->). destruct (Hstr k kb Hkb) as [Hi|Hi].
    - destruct (proj2 (HM k)) as [m ->]; [|done]. split; [|eauto]. rewrite iter_ids_perm.
      pose proof (mo_id _ (proj2 Hsys) k kb Hkb Hi) as Hid. apply list_elem_of_fmap. exists (j_id kb, k). split; [done|].
      by apply elem_of_map_to_list.
    - destruct (M !! k); [done|]. by apply (Hnew k kb). }
  split_and!; [split|done|done]; try done.
  - apply (frame_sys_ok st); [done| |done]. by apply paint_st_ok, sys_ok_st_ok.
  - unfold few. by rewrite size_paint.
  - intros u c k kb' Hu Hlen Hk Hkb. destruct (Hh k kb' Hkb) as (kb & ? & ->). destruct (M !! k); by apply (Hnop u c k kb).
  - intros k kb' Hk Hkb. split_and!; [|by apply (Hgen k)|]; destruct (Hh k kb' Hkb) as (kb & ? & ->);
      destruct (M !! k); by apply (Hnew k kb).
  - by apply (frame_ids st).
  - intros k kb' Hkb. destruct (Hh k kb' Hkb) as (kb & ? & ->). destruct (M !! k); by apply (Hstr k kb).
Qed.

Lemma rtc_needs_in_tr st a k : st_ok st → in_tr st a → rtc (needs (links st)) a k → in_tr st k.
Proof.
  intros Hok Ha Hr. revert k Hr. apply rtc_ind_r; [done|]. intros x k _ Hn _.
  destruct Hn as (l & Hl & Hs & <- & _). exact (proj1 (proj2 (proj2 (proj1 Hok)) l Hl)).
Qed.

Lemma matter_phase a st :
  as_built a st → (∀ k kb, heap st !! k = Some kb → j_generation kb = 0) →
  ∃ st', transaction_find_jobs_that_matter_to_anchor a 1 st = Some st' ∧ act_ok a 2 st' ∧ frame st st'.
Proof.
  intros [Hsys Hfew Ha Hin Hnop Hnew Hids Hstr] Hgen. pose proof (sys_ok_st_ok _ Hsys) as Hst.
  destruct (find_jobs_that_matter_spec 1 st a) as (M & HM & Hk).
  { intros k kb Hkb. rewrite (Hgen k kb Hkb). lia. }
  { apply Hst. }
  { destruct (in_tr_job st a Hst Hin) as (ab & -> & _). eauto. }
  exists (mark 1 M st). split; [done|]. pose proof (mark_st_ok 1 M st Hst) as Hst'.
  assert (HMin : ∀ k, k ∈ M → in_tr st k) by (intros k Hx%Hk; by apply (rtc_needs_in_tr st a)).
  set (f := λ k kb, if decide (k ∈ M) then mark_job 1 kb else kb).
  assert (Hh : ∀ k kb', heap (mark 1 M st) !! k = Some kb' → ∃ kb, heap st !! k = Some kb ∧ kb' = f k kb).
  { intros k kb'. rewrite heap_mark. destruct (heap st !! k); [|done]. intros [= <-]. eauto. }
  assert (Hfields : ∀ k kb, j_type (f k kb) = j_type kb ∧ j_state (f k kb) = j_state kb ∧ j_installed (f k kb) = j_installed kb)
    by (intros k kb; unfold f; by case_decide).
  assert (Hf : frame st (mark 1 M st)).
  { split; try done.
    - intros k Hn. rewrite heap_mark. destruct (heap st !! k); constructor.
      rewrite decide_False by auto. apply same_but_marks_refl.
    - intros k kb' Hx Hkb. destruct (in_tr_idle (mark 1 M st) k (proj1 (proj1 Hst'))) as (? & ? & ?); [done|congruence].
    - intros k. rewrite heap_mark. by rewrite fmap_is_Some.
    - intros u c k Hu Hx. by exists c.
    - intros k kb kb' _ Hkb Hkb'. destruct (Hh k kb' Hkb') as (kb0 & ? & ->). assert (kb0 = kb) as -> by congruence.
      split; [unfold f; by case_decide|left; apply Hfields]. }
  split; [|done]. split; try done.
  - by apply (frame_sys_ok st).
  - unfold few in *. enough (size (heap (mark 1 M st)) <= size (heap st))%nat by lia.
    rewrite <- !(size_dom (D := gset positive)). apply subseteq_size. intros k ?%elem_of_dom. apply elem_of_dom. by apply (fr_dom _ _ Hf).
  - intros u c k kb' Hu Hlen Hx Hkb. destruct (Hh k kb' Hkb) as (kb & ? & ->). rewrite (proj1 (Hfields k kb)). by apply (Hnop u c k).
  - intros k kb' Hx Hkb. destruct (Hh k kb' Hkb) as (kb & ? & ->). rewrite (proj1 (proj2 (Hfields k kb))). by apply (Hnew k kb).
  - intros k kb' Hkb. destruct (Hh k kb' Hkb) as (kb & Hkb0 & ->). pose proof (Hgen k kb Hkb0). unfold f. case_decide; cbn; lia.
  - apply mark_marks_closed; [apply Hst| |].
    + intros k i Hx Hki. apply Hk. apply Hk in Hx. by eapply rtc_r.
    + intros k kb Hkb [Hni _]. destruct (Hstr k kb Hkb) as [?|?]; [congruence|]. by apply (Hnew k kb).
  - intros ab Hab. destruct (Hh a ab Hab) as (ab0 & ? & ->). unfold f. rewrite decide_True; [done|]. by apply Hk.
  - by apply (frame_ids st).
  - intros k kb' Hkb. destruct (Hh k kb' Hkb) as (kb & ? & ->). rewrite (proj2 (proj2 (Hfields k kb))). by apply (Hstr k kb).
Qed.

Lemma impact_phase mode a g st :
  act_ok a g st → ∃ st', (if bool_decide (mode = JOB_FAIL) then transaction_minimize_impact st else Some st) = Some st' ∧
    act_ok a g st' ∧ frame st st' ∧ (size (heap st') <= size (heap st))%nat.
Proof.
  intros Hac. case_bool_decide; [|exists st; split_and!; [done..|apply frame_refl, Hac|done]].
  destruct (minimize_impact_spec st (sys_ok_st_ok _ (ac_sys _ _ _ Hac)) (ac_marks _ _ _ Hac)) as (D & -> & _ & HD & _).
  destruct (act_ok_cut a g D st Hac) as [? ?].
  { intros k Hk. by apply HD. }
  { intros Hk. destruct (HD a Hk) as [_ Hm]. destruct (in_tr_job st a (sys_ok_st_ok _ (ac_sys _ _ _ Hac)) (ac_in _ _ _ Hac)) as (ab & Hab & _).
    pose proof (Hm ab Hab). rewrite (ac_matters _ _ _ Hac ab Hab) in *. done. }
  exists (cut D D st). split_and!; [done..|apply size_cut_le].
Qed.

Lemma anchor_not_redundant st a : anchor_job st = Some a → ¬ redundant st a.
Proof.
  intros Ha (u & c & _ & Hc & Hall). specialize (Hall a Hc). unfold keeps_unit in Hall. by rewrite bool_decide_eq_true_2 in Hall.
Qed.

Lemma redundant_in_tr st k : redundant st k → in_tr st k.
Proof. intros (u & c & ? & ? & _). by exists u, c. Qed.

Lemma redundant_phase a g st :
  act_ok a g st → ∃ st', transaction_drop_redundant st = Some st' ∧ act_ok a g st' ∧ frame st st' ∧
    (size (heap st') <= size (heap st))%nat.
Proof.
  intros Hac. destruct (drop_redundant_spec st (sys_ok_st_ok _ (ac_sys _ _ _ Hac))) as (D & -> & _ & HD).
  destruct (act_ok_cut a g D st Hac) as [? ?].
  { intros k Hk%HD. by apply redundant_in_tr. }
  { intros Hk%HD. eapply anchor_not_redundant, Hk. apply Hac. }
  exists (cut D D st). split_and!; [done..|apply size_cut_le].
Qed.

(** Dropping redundant jobs once more, after merging. *)
Lemma redundant_again a st :
  merged_ok a st → ∃ st', transaction_drop_redundant st = Some st' ∧ merged_ok a st' ∧ frame st st'.
Proof.
  intros ([Hsys Hfew Hmer Hw Hids Hstr] & Ha & Hin). pose proof (sys_ok_st_ok _ Hsys) as Hst.
  destruct (drop_redundant_spec st Hst) as (D & -> & _ & HD).
  assert (HDin : ∀ k, k ∈ D → in_tr st k) by (intros k Hk%HD; by apply redundant_in_tr).
  pose proof (frame_cut D st (proj1 Hsys) HDin) as Hf. exists (cut D D st). split_and!; [done| |done].
  split_and!; [split|done|].
  - apply (frame_sys_ok st); [done|by apply st_ok_cut|done].
  - pose proof (size_cut_le D D st). unfold few in *. lia.
  - intros u c (Hne & c0 & Hu & ->)%jobs_cut. destruct (Hmer u c0 Hu) as [j ->]. exists j.
    cbn in *. by case_decide.
  - intros k kb [Hk _]%in_tr_cut Hkb%heap_cut_within. by apply (Hw k).
  - by apply (frame_ids st).
  - intros k kb Hkb. rewrite heap_cut in Hkb. case_decide as Hd; [done|].
    destruct (Hstr k kb Hkb) as [?|?]; [by left|right]. by apply in_tr_cut.
  - apply in_tr_cut. split; [done|]. intros Hk%HD. by eapply anchor_not_redundant.
Qed.

(** ** The whole operation *)

(** What a transaction that was applied has done. *)
Record activated (mode : JobMode) (a : positive) st (aff : gset positive) st' : Prop := {
  av_ok : sys_ok st';
  av_ids : ids_installed st';
  av_strays : no_strays st';
  av_jobs : jobs st' = ∅;
  av_anchor u c ab : jobs st !! u = Some c → a ∈ c → heap st !! a = Some ab → ∃ i ib, anchor_job st' = Some i ∧ i ∈ aff ∧ heap st' !! i = Some ib ∧
    j_installed ib = true ∧ j_unit ib = u ∧ j_type ib ∈ answers (unit_active_state u) (j_type ab) ∧
    (rq_alloc_ok i = true → j_in_run_queue ib = true);
  av_others k kb : mode ∉ [JOB_ISOLATE; JOB_FLUSH] → heap st !! k = Some kb → j_installed kb = true →
    jobs st !! j_unit kb = None → ∃ kb', heap st' !! k = Some kb' ∧ kept_as kb kb';
  av_back k kb' : heap st' !! k = Some kb' → ∃ kb, heap st !! k = Some kb ∧ j_unit kb' = j_unit kb;
}.

(** Jobs keep their units. *)
Lemma frame_unit st0 st k kb' :
  tr_ok st0 → tr_ok st → no_strays st → frame st0 st → heap st !! k = Some kb' → ∃ kb, heap st0 !! k = Some kb ∧ j_unit kb' = j_unit kb.
Proof.
  intros Htr0 Htr Hstr Hf Hk. destruct (fr_dom _ _ Hf k) as [kb Hkb]; [eauto|]. exists kb. split; [done|].
  destruct (decide (k ∈ all_jobs st0)) as [Hin%elem_of_all_jobs|Hn].
  - pose proof (fr_in _ _ Hf k kb' Hin Hk) as Hidle. destruct (Hstr k kb' Hk) as [Hi|(u & c & Hu & Hkc)]; [by rewrite (proj1 Hidle) in Hi|].
    destruct (fr_chain _ _ Hf u c k Hu Hkc) as (c0 & Hu0 & Hk0). destruct (proj1 (proj1 Htr0) u c0 Hu0) as [_ H0].
    destruct (proj1 (proj1 Htr) u c Hu) as [_ H1]. destruct (H0 k Hk0) as (? & ? & ? & _), (H1 k Hkc) as (? & ? & ? & _). congruence.
  - assert (Hout : ¬ in_tr st0 k) by (intros Hin; by apply Hn, elem_of_all_jobs). pose proof (fr_out _ _ Hf k Hout) as Hsame.
    rewrite Hkb, Hk in Hsame. inversion Hsame as [? ? (g & m & ->)|]; subst. done.
Qed.

(** What one that was refused has done. *)
Definition refused (mode : JobMode) (r : Z) st st' : Prop :=
  r = -EDEADLK ∧ frame st st' ∨
  r = -EEXIST ∧ ∃ st1, frame st st1 ∧ cancelled mode st1 st'.

Lemma apply_activated mode a st0 st st' aff :
  st_ok st0 → frame st0 st → merged_ok a st → (∃ st1 M, cancelled mode st st1 ∧ apply_done (with_ids M st1) ∅ st' aff) →
  activated mode a st0 aff st'.
Proof.
  intros Hst0 Hf (Hal & Ha & Hin) (st1 & M & Hca & Hdone). pose proof (proj1 Hst0) as Htr0. split; [apply Hdone..| | |].
  3:{ intros k kb2 Hk2. destruct (ad_back _ _ _ _ Hdone k kb2 Hk2) as (kb1 & Hk1 & Hu2). cbn in Hk1.
      destruct (sh_heap _ _ (cancelled_shrinks _ _ _ Hca) k kb1 Hk1) as (kb & Hkb & Hu1 & _).
      destruct (frame_unit st0 st k kb Htr0 (proj1 (al_ok _ Hal)) (al_strays _ Hal) Hf Hkb) as (kb0 & ? & ?). exists kb0. split; [done|congruence]. }
  - intros u c0 ab0 Hu0 Hac0 Hab0. destruct Hin as (v & c & Hv & Hac). destruct (fr_chain _ _ Hf v c a Hv Hac) as (c1 & Hv1 & Hac1).
    assert (v = u) as ->.
    { destruct (proj1 (proj1 Htr0) v c1 Hv1) as [_ H1]. destruct (proj1 (proj1 Htr0) u c0 Hu0) as [_ H2].
      destruct (H1 a Hac1) as (? & ? & ? & _), (H2 a Hac0) as (? & ? & ? & _). congruence. }
    destruct (al_merged _ Hal u c Hv) as [j ->]. apply list_elem_of_singleton in Hac as <-.
    pose proof (cancelled_shrinks _ _ _ Hca) as Hsh. destruct (sh_tr _ _ Hsh) as (Hj & _ & Han & _).
    destruct (in_tr_idle st a (proj1 (proj1 (al_ok _ Hal)))) as (ab & Hab & Hidle); [exists u, [a]; split; [done|apply list_elem_of_here]|].
    pose proof (sh_idle _ _ Hsh a ab Hab (proj1 Hidle)) as Hab1.
    destruct (ad_units _ _ _ _ Hdone u a ab) as (i & ib & Hib & Hii & Hiu & Hia & Hty & Hrq & Hanc); [by cbn; rewrite Hj|done|].
    exists i, ib. split_and!; try done; [apply Hanc; cbn; congruence|].
    destruct (in_tr_job st0 a Hst0) as (x & Hx & Htt & _); [by exists u, c0|]. assert (x = ab0) as -> by congruence.
    assert (Hau0 : j_unit ab0 = u) by (destruct (proj1 (proj1 Htr0) u c0 Hu0) as [_ H0]; destruct (H0 a Hac0) as (? & ? & ? & _); congruence).
    destruct (fr_type _ _ Hf a ab0 ab) as [Hau Hb]; [by exists u, c0|done..|]. apply becomes_answers; [done|].
    rewrite <- Hau0. eapply becomes_trans; [exact Hb|]. rewrite <- Hau. by apply (installed_type_becomes _ _ _ Hty).
  - intros k kb Hm Hk Hi Hnone. destruct (frame_installed st0 st k kb Htr0 Hf Hk Hi) as (kb1 & Hk1 & (g & m & ->)).
    unfold cancelled in Hca. rewrite bool_decide_eq_false_2 in Hca by done. subst st1.
    destruct (ad_frame _ _ _ _ Hdone k _ Hk1) as (kb' & ? & Hkept); [|by exists kb'].
    cbn. apply eq_None_not_Some. intros [c Hc]. destruct (al_merged _ Hal _ c Hc) as [j ->].
    destruct (fr_chain _ _ Hf _ [j] j Hc) as (c0 & ? & _); [apply list_elem_of_here|congruence].
Qed.

Lemma activate_spec mode a st :
  as_built a st → ∃ r st' aff, transaction_activate mode st = Some (r, st', aff) ∧
    (r = 0 ∧ activated mode a st aff st' ∨
     refused mode r st st' ∧ sys_ok st' ∧ ids_installed st' ∧ no_strays st').
Proof.
  intros Hfs. unfold transaction_activate. destruct (reset_fresh a st Hfs) as (Hfs0 & Hf0 & Hgen).
  set (st0 := reset_generations st) in *. rewrite (fs_anchor _ _ Hfs0). cbn [mbind option_bind].
  destruct (matter_phase a st0 Hfs0 Hgen) as (st1 & -> & Hac1 & Hf1). cbn [mbind option_bind].
  destruct (impact_phase mode a 2 st1 Hac1) as (st2 & -> & Hac2 & Hf2 & _). cbn [mbind option_bind].
  destruct (redundant_phase a 2 st2 Hac2) as (st3 & -> & Hac3 & Hf3 & _). cbn [mbind option_bind].
  assert (Hf03 : frame st st3) by (repeat (eapply frame_trans; [eassumption|]); apply frame_refl, Hac3).
  destruct (order_loop_spec (S (size (heap st3))) mode a 2 st3 Hac3) as (r4 & st4 & g4 & -> & Hac4 & Hf4 & _ & Hr4 & _).
  { lia. } { lia. } { pose proof (ac_few _ _ _ Hac3) as Hfew. unfold few, PRIOQ_MAX in Hfew. lia. }
  cbn [mbind option_bind]. pose proof (frame_trans _ _ _ Hf03 Hf4) as Hf04.
  destruct Hr4 as [[-> _]| ->]; cbn [Z.ltb Z.compare Z.opp EDEADLK].
  2: { eexists _, st4, ∅. split; [done|]. right. split_and!; [by left|apply Hac4..]. }
  destruct (merge_loop_spec (S (size (heap st4))) mode a g4 st4 Hac4) as (r5 & st5 & -> & Hf5 & Hok5 & Hr5); [lia|].
  cbn [mbind option_bind]. pose proof (frame_trans _ _ _ Hf04 Hf5) as Hf05.
  destruct Hr5 as [[-> Hm5]|(-> & Hids5 & Hstr5)]; cbn [Z.ltb Z.compare Z.opp EDEADLK].
  2: { eexists _, st5, ∅. split; [done|]. right. split_and!; [by left|done..]. }
  destruct (redundant_again a st5 Hm5) as (st6 & -> & Hm6 & Hf6). cbn [mbind option_bind].
  pose proof (frame_trans _ _ _ Hf05 Hf6) as Hf06. pose proof Hm6 as ([Hok6 Hfew6 Hmer6 Hw6 Hids6 Hstr6] & Ha6 & Hin6).
  destruct (is_destructive_defined mode st6 (sys_ok_st_ok _ Hok6) Hmer6) as (r6 & -> & Hr6). cbn [mbind option_bind].
  destruct Hr6 as [->| ->]; cbn [Z.ltb Z.compare Z.opp EDEADLK].
  2: { eexists _, st6, ∅. split; [done|]. right. split_and!; [by left|done..]. }
  destruct (transaction_apply_spec mode st6 (proj1 Hm6)) as (r7 & st7 & aff & st61 & -> & Hca & Hal1 & Hr7). cbn [mbind option_bind].
  destruct Hr7 as [[-> [M Hdone]]|[-> ->]]; cbn [Z.ltb Z.compare Z.opp EEXIST].
  - unfold assert_. rewrite bool_decide_eq_true_2 by apply Hdone. exists 0, st7, aff. split; [done|]. left. split; [done|].
    apply (apply_activated mode a st st6); [apply sys_ok_st_ok, Hfs|done|done|by exists st61, M].
  - eexists _, st61, aff. split; [done|]. right. split_and!; [|apply Hal1..]. right. eauto.
Qed.

(** ** Properties *)

(** C2: [transaction_activate], on a transaction as it was built, runs through all its
    steps without failing an assertion and returns. If it returns 0, the transaction is
    empty, the anchor is an installed job of the anchor's unit whose type answers the one
    that was asked for, on the run queue if memory allows, and unless jobs are isolated or flushed, the installed jobs of units without a
    job in the transaction are as before. If it fails, the installed jobs are untouched,
    with one exception: with a taken id the jobs that isolating cancels are gone. *)
Theorem transaction_activate_correct (mode : JobMode) (a u : positive) (c : list positive) (st : State) :
  as_built a st → jobs st !! u = Some c → a ∈ c →
  ∃ r st' aff, transaction_activate mode st = Some (r, st', aff) ∧ sys_ok st' ∧ ids_installed st' ∧ no_strays st' ∧
    (r = 0 ∧ jobs st' = ∅ ∧
       (∃ i ib ab, anchor_job st' = Some i ∧ i ∈ aff ∧ heap st' !! i = Some ib ∧ j_installed ib = true ∧ j_unit ib = u ∧
          heap st !! a = Some ab ∧ j_type ib ∈ answers (unit_active_state u) (j_type ab) ∧ (rq_alloc_ok i = true → j_in_run_queue ib = true)) ∧
       (mode ∉ [JOB_ISOLATE; JOB_FLUSH] → ∀ k kb, heap st !! k = Some kb → j_installed kb = true → jobs st !! j_unit kb = None →
          ∃ kb', heap st' !! k = Some kb' ∧ kept_as kb kb') ∨
     r = -EDEADLK ∧ frame st st' ∨
     r = -EEXIST ∧ ∃ st1, frame st st1 ∧ cancelled mode st1 st').
Proof.
  intros Hfs Hu Hc. destruct (in_tr_job st a (sys_ok_st_ok _ (fs_sys _ _ Hfs)) (fs_in _ _ Hfs)) as (ab & Hab & _). destruct (activate_spec mode a st Hfs) as (r & st' & aff & H & Hout). exists r, st', aff. split; [done|].
  destruct Hout as [[-> [? ? ? ? Han Hoth]]|([Hr|Hr] & ? & ? & ?)]; split_and!; try done; [left|by right; left|by right; right].
  split_and!; [done..| |]; [destruct (Han u c ab) as (i & ib & ? & ? & ? & ? & ? & ? & ?); [done..|exists i, ib, ab; done]|]. intros Hm k kb. by apply Hoth.
Qed.

End Activate.

(** ** Units 1 and 2, ordered both ways, are to be started; 1 only wants 2

    The cycle is broken by dropping the job of unit 2. *)

Definition cycle_env : Env :=
  ex_env (ex_deps [(1, UNIT_ATOM_AFTER, 2); (2, UNIT_ATOM_AFTER, 1); (1, UNIT_ATOM_BEFORE, 2); (2, UNIT_ATOM_BEFORE, 1)]%positive)
    (λ _, UNIT_INACTIVE) [1; 2]%positive.

Definition cycle_tr : @State ex_rq :=
  @MkState ex_rq (list_to_map [(1%positive, ex_job 1 1 JOB_START); (2%positive, ex_job 2 2 JOB_START)])
    [MkDep (Some 1%positive) 2%positive false false] (list_to_map [(1, [1]); (2, [2])]%positive) (Some 1%positive) false
    (@MkManager ex_rq ∅ ∅ ∅ 3 0 0 0 (@rq_empty ex_rq) [] [] (λ _, UNIT_LOADED) []).

Lemma cycle_tr_as_built : as_built 1 cycle_tr.
Proof.
  assert (Hjobs : ∀ u c, jobs cycle_tr !! u = Some c → (u, c) = (1, [1])%positive ∨ (u, c) = (2, [2])%positive).
  { intros u c Hu. apply elem_of_list_to_map_2, list_elem_of_In in Hu. destruct Hu as [[= <- <-]|[[= <- <-]|[]]]; auto. }
  assert (Hheap : ∀ k kb, heap cycle_tr !! k = Some kb → (k, kb) = (1%positive, ex_job 1 1 JOB_START) ∨ (k, kb) = (2%positive, ex_job 2 2 JOB_START)).
  { intros k kb Hk. apply elem_of_list_to_map_2, list_elem_of_In in Hk. destruct Hk as [[= <- <-]|[[= <- <-]|[]]]; auto. }
  split.
  - apply sys_ok_check; [by_decide|done].
  - by vm_compute.
  - reflexivity.
  - exists 1%positive, [1%positive]. split; [done|apply list_elem_of_here].
  - intros u c k kb Hu Hlen. destruct (Hjobs u c Hu) as [[= -> ->]|[= -> ->]]; cbn in Hlen; lia.
  - intros k kb _ Hk. by destruct (Hheap k kb Hk) as [[= -> ->]|[= -> ->]].
  - done.
  - intros k kb Hk. right. destruct (Hheap k kb Hk) as [[= -> ->]|[= -> ->]];
      [exists 1%positive, [1%positive]|exists 2%positive, [2%positive]]; (split; [done|apply list_elem_of_here]).
Qed.

Lemma transaction_activate_correct_witness :
  let E := cycle_env in
  ∃ r st' aff, transaction_activate JOB_REPLACE cycle_tr = Some (r, st', aff) ∧ sys_ok st'.
Proof.
  intros E. destruct (@transaction_activate_correct ex_rq E JOB_REPLACE 1 1 [1%positive] cycle_tr) as (r & st' & aff & H1 & H2 & _).
  - exact cycle_tr_as_built.
  - reflexivity.
  - apply list_elem_of_here.
  - exists r, st', aff. split; [exact H1|exact H2].
Defined.

Example cycle_is_broken :
  let E := cycle_env in
  (λ x, (fst (fst x), (λ kb, (fst kb, j_installed (snd kb))) <$> map_to_list (heap (snd (fst x))))) <$>
    transaction_activate JOB_REPLACE cycle_tr = Some (0, [(1%positive, true)]).
Proof. vm_compute. reflexivity. Qed.
