(* ===== verification/AddJob.v ===== *)
(** * From a request to installed jobs (src/core/manager.c, src/core/transaction.c)

    [manager_add_job] builds a transaction for a request and activates it, or takes
    everything back; [manager_propagate_reload] does the same for the units a reload is
    passed on to. Allocation of the transaction is assumed to succeed. *)

From S2P Require Import Prelude JobType Prioq RunQueue JobData TrDelete TrFix TrOrder TrMerge TrBuild JobOps JobFinish JobInstall TrApply TrActivate.

Section AddJob.
Context {RQ : RunQueue} {E : Env}.
Implicit Types (st : State) (j k u v i a : positive).

(** ** The code *)

Definition transaction_new (irr : bool) st : State := MkState (heap st) (links st) ∅ None irr (mgr st).

Definition transaction_free st : option State := assert_ (bool_decide (jobs st = ∅));; Some st.

Definition tr_abort (r : Z) st : option (Z * State * option positive) :=
  st ← transaction_abort st;
  st ← transaction_free st;
  Some (r, st, None).

(** The result, the state and the job that stands for the request. *)
Definition manager_add_job (type : JobType) (u : positive) (mode : JobMode) st
    : option (Z * State * option positive) :=
  if bool_decide (mode = JOB_ISOLATE) && bool_decide (type ≠ JOB_START) then Some (-EINVAL, st, None)
  else if bool_decide (mode = JOB_ISOLATE) && negb (allow_isolate u) then Some (-EPERM, st, None)
  else if bool_decide (mode = JOB_TRIGGERING) && bool_decide (type ≠ JOB_STOP) then Some (-EINVAL, st, None)
  else
    let type := job_type_collapse type (unit_active_state u) in
    let st := transaction_new (bool_decide (mode = JOB_REPLACE_IRREVERSIBLY)) st in
    '(r, st) ← transaction_add_job_and_dependencies type u None true false
                 (bool_decide (mode ∈ [JOB_IGNORE_DEPENDENCIES; JOB_IGNORE_REQUIREMENTS]))
                 (bool_decide (mode = JOB_IGNORE_DEPENDENCIES)) st;
    if r <? 0 then tr_abort r st
    else
      st ← (if bool_decide (mode = JOB_ISOLATE) then transaction_add_isolate_jobs st else Some st);
      st ← (if bool_decide (mode = JOB_TRIGGERING) then transaction_add_triggering_jobs u st else Some st);
      '(r, st, _) ← transaction_activate mode st;
      if r <? 0 then tr_abort r st
      else
        let ret := anchor_job st in
        st ← transaction_free st;
        Some (0, st, ret).

Definition manager_propagate_reload (u : positive) (mode : JobMode) st : option (Z * State) :=
  assert_ (bool_decide (mode ≠ JOB_ISOLATE));;
  let st := transaction_new (bool_decide (mode = JOB_REPLACE_IRREVERSIBLY)) st in
  '(r, st) ← transaction_add_job_and_dependencies JOB_NOP u None false false true true st;
  if r <? 0 then '(r, st, _) ← tr_abort r st; Some (r, st)
  else
    a ← anchor_job st;
    st ← transaction_add_propagate_reload_jobs u a (bool_decide (mode = JOB_IGNORE_DEPENDENCIES)) st;
    '(r, st, _) ← transaction_activate mode st;
    if r <? 0 then '(r, st, _) ← tr_abort r st; Some (r, st)
    else st ← transaction_free st; Some (0, st).

(** ** Between transactions *)

Record at_rest st : Prop := {
  ar_ok : sys_ok st;
  ar_ids : ids_installed st;
  ar_strays : no_strays st;
  ar_jobs : jobs st = ∅;
}.

(** The run queue has an index for every job a transaction can add. *)
Definition room st : Prop := Z.of_nat (size (heap st) + 6 * length units) < PRIOQ_MAX.

Lemma rest_no_tr st k : jobs st = ∅ → ¬ in_tr st k.
Proof. intros He (u & c & Hu & _). by rewrite He in Hu. Qed.

Lemma rest_installed st k kb : at_rest st → heap st !! k = Some kb → j_installed kb = true.
Proof. intros [_ _ Hs He] Hk. destruct (Hs k kb Hk) as [?|H]; [done|]. by destruct (rest_no_tr st k He H). Qed.

Lemma rest_links st : at_rest st → links st = [].
Proof.
  intros [[Htr _] _ _ He]. destruct (links st) as [|l ls] eqn:El; [done|]. exfalso.
  destruct (proj2 (proj2 Htr) l) as [Hin _]; [rewrite El; apply list_elem_of_here|]. by apply (rest_no_tr st _ He Hin).
Qed.

Lemma new_rest irr st : at_rest st → at_rest (transaction_new irr st) ∧ build_ok (transaction_new irr st).
Proof.
  intros Hr. pose proof (rest_links st Hr) as Hl. destruct Hr as [[Htr Hm] Hids Hstr He].
  assert (Htr' : tr_ok (transaction_new irr st)).
  { split_and!; [split|by intros u c Hu|]; cbn; rewrite ?Hl; try done; by intros l ?%elem_of_nil. }
  assert (Hok : sys_ok (transaction_new irr st)) by (split; [done|by apply (mgr_ok_ext st)]).
  split; split; try done.
  - intros k kb Hk. destruct (Hstr k kb Hk) as [?|H]; [by left|]. by destruct (rest_no_tr st k He H).
  - by apply sys_ok_st_ok.
  - intros k H. by destruct (rest_no_tr (transaction_new irr st) k eq_refl H).
  - intros k kb H. by destruct (rest_no_tr (transaction_new irr st) k eq_refl H).
  - intros k kb H. by destruct (rest_no_tr (transaction_new irr st) k eq_refl H).
  - intros u [c Hu]. done.
Qed.

(** ** After building *)

Lemma built_outside st st' k : at_rest st → grows st st' → is_Some (heap st !! k) → ¬ in_tr st' k ∧ heap st' !! k = heap st !! k.
Proof.
  intros Hr Hg [kb Hk]. assert (Hn : ¬ in_tr st' k).
  { intros H. destruct (gr_new _ _ Hg k H) as [Hx|?]; [|congruence]. by apply (rest_no_tr st k (ar_jobs _ Hr)). }
  split; [done|]. by apply (gr_outside _ _ Hg).
Qed.

Lemma in_tr_count st : build_ok st → (size (list_to_set (all_jobs st) : gset positive) <= 6 * length units)%nat.
Proof.
  intros Hok. unfold size, set_size. cbn [compose]. set (key := λ k, match heap st !! k with Some kb => (j_unit kb, j_type kb) | None => (k, JOB_NOP) end).
  rewrite <- (length_fmap key). transitivity (length (list_prod units transaction_types)); [|rewrite length_prod; cbn; lia].
  assert (Hjob : ∀ k, k ∈ elements (list_to_set (all_jobs st) : gset positive) → ∃ c kb, heap st !! k = Some kb ∧
    key k = (j_unit kb, j_type kb) ∧ jobs st !! j_unit kb = Some c ∧ k ∈ c ∧ transaction_type (j_type kb)).
  { intros k. rewrite elem_of_elements, elem_of_list_to_set, elem_of_all_jobs. intros Hk.
    destruct (in_tr_job st k (bo_st _ Hok) Hk) as (kb & Hkb & Ht & _). pose proof Hk as (u & c & Hu & Hkc).
    destruct (proj1 (proj1 (proj1 (bo_st _ Hok))) u c Hu) as [_ Hc]. destruct (Hc k Hkc) as (kb' & ? & <- & _).
    assert (kb' = kb) as -> by congruence. exists c, kb. unfold key. rewrite Hkb. done. }
  apply submseteq_length, NoDup_submseteq.
  - apply NoDup_fmap_2_strong; [|apply NoDup_elements]. intros x y Hx Hy Hk.
    destruct (Hjob x Hx) as (c & xb & Hxb & Kx & Hcx & Hxc & _), (Hjob y Hy) as (d & yb & Hyb & Ky & Hcy & Hyd & _).
    rewrite Kx, Ky in Hk. injection Hk as Hu Ht. rewrite <- Hu in Hcy. assert (d = c) as -> by congruence.
    by apply (bo_types _ Hok (j_unit xb) c x y xb yb).
  - intros p (k & -> & Hk)%list_elem_of_fmap. destruct (Hjob k Hk) as (c & kb & _ & -> & Hc & _ & Ht).
    apply list_elem_of_In, in_prod; apply list_elem_of_In; [apply (bo_units _ Hok); eauto|by apply transaction_types_all].
Qed.

Lemma built_few st st' : room st → build_ok st' → grows st st' → few st'.
Proof.
  intros Hroom Hok Hg. pose proof (in_tr_count st' Hok) as Hc. unfold room, few in *.
  enough (size (heap st') <= size (heap st) + 6 * length units)%nat by lia.
  rewrite <- !(size_dom (D := gset positive)).
  transitivity (size (dom (heap st) ∪ list_to_set (all_jobs st') : gset positive)).
  - apply subseteq_size. intros k Hk%elem_of_dom. apply elem_of_union. rewrite elem_of_list_to_set, elem_of_all_jobs.
    destruct (in_tr_dec st' k (bo_st _ Hok)) as [?|Hn]; [by right|left]. apply elem_of_dom. by rewrite <- (gr_outside _ _ Hg k Hn).
  - rewrite size_union_alt. apply Nat.add_le_mono_l. etransitivity; [|exact Hc].
    apply subseteq_size. set_solver.
Qed.

(** A transaction that was built leaves the installed jobs as they are. *)
Lemma built_rest st st' :
  at_rest st → build_ok st' → grows st st' → sys_ok st' ∧ ids_installed st' ∧ no_strays st'.
Proof.
  intros Hr Hok Hg. destruct (gr_mgr _ _ Hg) as (id & ls & Hmg). split_and!.
  - apply (installed_sys_ok st st'); [apply Hr|apply Hok|eauto| |].
    + intros k kb Hk Hi. exists kb. destruct (built_outside st st' k Hr Hg) as [_ ->]; [eauto|]. split; [done|apply same_but_marks_refl].
    + intros k kb Hk. destruct (in_tr_dec st' k (bo_st _ Hok)) as [Hin|Hn].
      * left. destruct (in_tr_idle st' k (proj1 (proj1 (bo_st _ Hok))) Hin) as (? & ? & ?). congruence.
      * right. exists kb. rewrite <- (gr_outside _ _ Hg k Hn). split; [done|apply same_but_marks_refl].
  - intros i0 i Hi. rewrite Hmg in Hi. destruct (ar_ids _ Hr i0 i Hi) as (ib & Hib & ? & ?).
    destruct (built_outside st st' i Hr Hg) as [_ Heq]; [eauto|]. exists ib. by rewrite Heq.
  - intros k kb Hk. destruct (in_tr_dec st' k (bo_st _ Hok)) as [?|Hn]; [by right|left].
    rewrite (gr_outside _ _ Hg k Hn) in Hk. by apply (rest_installed st k).
Qed.

Lemma built_as_built a st st' :
  at_rest st → room st → build_ok st' → grows st st' → anchor_job st' = Some a → no_nop_chains st' → as_built a st'.
Proof.
  intros Hr Hroom Hok Hg Ha Hnop. destruct (built_rest st st' Hr Hok Hg) as (? & ? & ?). split; try done.
  - by apply (built_few st).
  - by apply (bo_anchor _ Hok).
  - intros k kb Hk Hkb. destruct (bo_fresh _ Hok k kb Hk Hkb) as (? & ? & ?). done.
Qed.

(** Only the anchor can be a NOP job, and it is alone on its chain. *)
Definition alone a st : Prop := ∀ u c, jobs st !! u = Some c → a ∈ c → c = [a].

Lemma built_no_nop st a ab :
  build_ok st → anchor_job st = Some a → heap st !! a = Some ab → j_type ab ≠ JOB_NOP ∨ alone a st → no_nop_chains st.
Proof.
  intros Hok Ha Hab Hcase u c k kb Hu Hlen Hk Hkb. assert (Hin : in_tr st k) by by exists u, c.
  destruct (in_tr_job st k (bo_st _ Hok) Hin) as (kb' & ? & Ht & _). assert (kb' = kb) as -> by congruence.
  assert (j_type kb ≠ JOB_NOP) as Hk0.
  { intros Hx. pose proof (bo_nop _ Hok k kb Hin Hkb Hx) as Hka. assert (k = a) as -> by congruence.
    destruct Hcase as [Hne|Hone]; [congruence|]. rewrite (Hone u c Hu Hk) in Hlen. cbn in Hlen. lia. }
  revert Ht Hk0. by destruct (j_type kb).
Qed.

Lemma all_alone st a : st_ok st → (∀ k, in_tr st k → k = a) → alone a st.
Proof.
  intros Hok Hone u c Hu Ha. assert (Hall : ∀ x, x ∈ c → x = a) by (intros x Hx; apply Hone; by exists u, c).
  pose proof (proj1 (proj2 (proj1 Hok)) u c Hu) as Hnd. destruct c as [|x [|y c]]; [by apply elem_of_nil in Ha| |].
  - f_equal. apply Hall, list_elem_of_here.
  - apply NoDup_cons in Hnd as [Hx _]. destruct Hx. rewrite (Hall x) by apply list_elem_of_here.
    rewrite <- (Hall y); [apply list_elem_of_here|apply list_elem_of_further, list_elem_of_here].
Qed.

(** Every job belongs to a unit of the manager. *)
Definition jobs_known st : Prop := ∀ k kb, heap st !! k = Some kb → j_unit kb ∈ units.

Lemma built_known st st' : at_rest st → build_ok st' → grows st st' → jobs_known st → jobs_known st'.
Proof.
  intros Hr Hok Hg Hkn k kb Hk. destruct (in_tr_dec st' k (bo_st _ Hok)) as [(u & c & Hu & Hkc)|Hn].
  - destruct (proj1 (proj1 (proj1 (bo_st _ Hok))) u c Hu) as [_ Hc]. destruct (Hc k Hkc) as (kb' & ? & <- & _).
    assert (kb' = kb) as -> by congruence. apply (bo_units _ Hok). eauto.
  - rewrite (gr_outside _ _ Hg k Hn) in Hk. by eapply Hkn.
Qed.

(** Installed jobs that are still there after a refusal were there before. *)
Lemma refused_known mode r st st' : refused mode r st st' → jobs_known st → ∀ k kb, heap st' !! k = Some kb → j_installed kb = true → j_unit kb ∈ units.
Proof.
  intros Href Hkn k kb Hk Hi. assert (∃ s kb1, frame st s ∧ heap s !! k = Some kb1 ∧ j_installed kb1 = true ∧ j_unit kb = j_unit kb1) as (s & kb1 & Hf & Hk1 & Hi1 & ->).
  { destruct Href as [[_ Hf]|(_ & s & Hf & Hca)]; [exists st', kb; split_and!; done|].
    destruct (sh_heap _ _ (cancelled_shrinks _ _ _ Hca) k kb Hk) as (kb1 & ? & ? & _ & ? & _). exists s, kb1. split_and!; (done || congruence). }
  assert (Hn : ¬ in_tr st k) by (intros Hin; pose proof (proj1 (fr_in _ _ Hf k kb1 Hin Hk1)); congruence).
  pose proof (fr_out _ _ Hf k Hn) as Hsame. rewrite Hk1 in Hsame. inversion Hsame as [kb0 ? (g & m & ->) Hk0|]; subst. symmetry in Hk0. exact (Hkn k kb0 Hk0).
Qed.

(** ** Taking everything back *)

(** The jobs are as before. *)
Record restored st st' : Prop := {
  re_heap k : option_Forall2 same_but_marks (heap st !! k) (heap st' !! k);
  re_mgr : ∃ id ls, mgr st' = set_current_job_id id (set_load_state ls (mgr st));
}.

Lemma abort_rest st :
  sys_ok st → ids_installed st → no_strays st →
  ∃ st', (st ← transaction_abort st; transaction_free st) = Some st' ∧ at_rest st' ∧ mgr st' = mgr st ∧
    ∀ k, (in_tr st k → heap st' !! k = None) ∧ (¬ in_tr st k → heap st' !! k = heap st !! k).
Proof.
  intros Hok Hids Hstr. unfold transaction_abort.
  destruct (abort_loop_spec (S (size (heap st))) st (proj1 Hok)) as (D & -> & HD); [lia|]. cbn [mbind option_bind].
  assert (He : jobs (cut D D st) = ∅).
  { apply map_eq. intros u. rewrite lookup_empty. apply eq_None_not_Some. intros [c (Hne & c0 & Hu & ->)%jobs_cut].
    destruct (filter (.∉ D) c0) as [|x c] eqn:Ef; [done|]. assert (Hx : x ∈ filter (.∉ D) c0) by (rewrite Ef; apply list_elem_of_here).
    apply list_elem_of_filter in Hx as [Hx Hxc]. apply Hx, HD. by exists u, c0. }
  unfold transaction_free, assert_. rewrite !bool_decide_eq_true_2 by done. exists (cut D D st).
  assert (Hf : frame st (cut D D st)) by (apply frame_cut; [apply Hok|by intros k ?%HD]).
  split_and!; [cbn [mbind option_bind]; by rewrite bool_decide_eq_true_2| |done|].
  - split; [|by apply (frame_ids st)| |done].
    + apply (frame_sys_ok st); [done| |done]. apply st_ok_cut; [by apply sys_ok_st_ok|by intros k ?%HD].
    + intros k kb Hk. rewrite heap_cut in Hk. case_decide as Hd; [done|].
      destruct (Hstr k kb Hk) as [?|?]; [by left|]. by destruct Hd; apply HD.
  - intros k. rewrite heap_cut. split; intros Hk; case_decide as Hd; try done; [by destruct Hd; apply HD|by apply HD in Hd].
Qed.

Lemma tr_abort_spec r st :
  sys_ok st → ids_installed st → no_strays st →
  ∃ st', tr_abort r st = Some (r, st', None) ∧ at_rest st' ∧ mgr st' = mgr st ∧
    ∀ k, (in_tr st k → heap st' !! k = None) ∧ (¬ in_tr st k → heap st' !! k = heap st !! k).
Proof.
  intros H1 H2 H3. destruct (abort_rest st H1 H2 H3) as (st' & Hab & ?). exists st'. split; [|done]. unfold tr_abort.
  destruct (transaction_abort st) as [s|]; [|done]. cbn [mbind option_bind] in *. by rewrite Hab.
Qed.

(** A transaction that was built and refused, taken back. *)
Lemma refused_restored st stb st1 st' :
  at_rest st → build_ok stb → grows st stb → frame stb st1 → no_strays st1 → mgr st' = mgr st1 →
  (∀ k, (in_tr st1 k → heap st' !! k = None) ∧ (¬ in_tr st1 k → heap st' !! k = heap st1 !! k)) →
  restored st st'.
Proof.
  intros Hr Hok Hg Hf Hstr Hm Hh. split; [|rewrite Hm, (fr_mgr _ _ Hf); apply (gr_mgr _ _ Hg)].
  intros k. destruct (in_tr_dec stb k (bo_st _ Hok)) as [Hin|Hn].
  - assert (heap st !! k = None) as ->.
    { destruct (gr_new _ _ Hg k Hin) as [Hx|?]; [|done]. by destruct (rest_no_tr st k (ar_jobs _ Hr)). }
    enough (heap st' !! k = None) as -> by constructor. destruct (decide (k ∈ all_jobs st1)) as [H1|H1].
    { by apply Hh, elem_of_all_jobs. }
    assert (H1' : ¬ in_tr st1 k) by (intros Hx; by apply H1, elem_of_all_jobs). rewrite (proj2 (Hh k) H1').
    destruct (heap st1 !! k) as [kb|] eqn:Ek; [|done]. pose proof (fr_in _ _ Hf k kb Hin Ek) as [Hni _].
    destruct (Hstr k kb Ek); [congruence|done].
  - pose proof (fr_out _ _ Hf k Hn) as Ho. rewrite (gr_outside _ _ Hg k Hn) in Ho.
    rewrite (proj2 (Hh k)); [done|]. intros Hx. apply Hn. by apply (fr_tr stb st1).
Qed.

(** ** The units a request reaches *)

(** A job of some type for [v] asks for one for [w]. *)
Definition pulls v w : Prop := ∃ t t' m c g, pulls_in v t w t' m c g.

Lemma requests_pulls v t q : q ∈ requests v t → pulls v (rq_unit q).
Proof. intros Hq%requests_iff. by exists t, (rq_type q), (rq_matters q), (rq_conflicts q), (rq_ignore q). Qed.

Definition reaches (mode : JobMode) u v : Prop :=
  rtc pulls u v ∨ mode = JOB_TRIGGERING ∧ ∃ w, w ∈ unit_dependencies u UNIT_ATOM_TRIGGERED_BY ∧ rtc pulls w v.

(** Only units in [P] have got jobs. *)
Definition touches (P : positive → Prop) st st' : Prop := ∀ v, ¬ P v → jobs st' !! v = jobs st !! v.

Lemma touches_trans P st1 st2 st3 : touches P st1 st2 → touches P st2 st3 → touches P st1 st3.
Proof. intros H1 H2 v Hv. rewrite H2, H1; done. Qed.

Lemma add_one_jobs t u st j b st' :
  transaction_add_one_job t u st = Some (j, b, st') → ∀ v, v ≠ u → jobs st' !! v = jobs st !! v.
Proof.
  unfold transaction_add_one_job. destruct (find_type st t _) as [[i|]|]; [|cbn|done]; intros [= <- <- <-] v Hv; [done|].
  unfold job_new. cbn. by rewrite lookup_insert_ne.
Qed.

Lemma validate_jobs u st : jobs (snd (validate_unit u st)) = jobs st.
Proof. unfold validate_unit. destruct (_ && _); [by destruct (unit_load u)|done]. Qed.

Lemma hook_jobs by_ ret mat conf st st' :
  match by_ with
  | Some b => Some (job_dependency_new (Some b) ret mat conf st)
  | None => assert_ (bool_decide (anchor_job st = None));; Some (set_anchor_job (Some ret) st)
  end = Some st' → jobs st' = jobs st.
Proof. destruct by_; [by intros [= <-]|]. unfold assert_. case_bool_decide; [|done]. by intros [= <-]. Qed.

Lemma add_requests_touches P rec rs st r st' :
  (∀ q s r' s', q ∈ rs → rec q s = Some (r', s') → touches P s s') →
  add_requests rec rs st = Some (r, st') → touches P st st'.
Proof.
  intros Hrec. revert st. induction rs as [|q rs IH]; intros st; cbn [add_requests]; [by intros [= <- <-]|].
  destruct (rec q st) as [[r1 st1]|] eqn:Eq; [|done]. cbn [mbind option_bind].
  assert (H1 : touches P st st1) by (eapply Hrec, Eq; apply list_elem_of_here). destruct (_ && _); [by intros [= <- <-]|].
  intros H. eapply touches_trans; [exact H1|]. eapply IH, H. intros q' s r' s' Hq. apply Hrec. by apply list_elem_of_further.
Qed.

Lemma add_job_touches P n t u by_ mat conf ir io st r st' :
  (∀ v w, P v → pulls v w → P w) → P u → add_job n t u by_ mat conf ir io st = Some (r, st') → touches P st st'.
Proof.
  intros HP. revert t u by_ mat conf ir st r st'. induction n as [|n IH]; intros t u by_ mat conf ir st r st' Hu; cbn [add_job]; [done|].
  unfold assert_ at 1. destruct (_ <? _); [|done]. cbn [mbind option_bind].
  destruct (negb (UNIT_IS_LOAD_COMPLETE _)); [by intros [= <- <-]|].
  set (v := if bool_decide (t ≠ JOB_STOP) then validate_unit u st else (0, st)).
  assert (Hv : jobs (snd v) = jobs st) by (unfold v; case_bool_decide; [apply validate_jobs|done]).
  destruct v as [r1 st1]. cbn [snd] in Hv. assert (H1 : touches P st st1) by (intros w _; by rewrite Hv).
  destruct (r1 <? 0); [by intros [= <- <-]|]. destruct (negb _); [by intros [= <- <-]|].
  destruct (transaction_add_one_job t u st1) as [[[j b] st2]|] eqn:E1; [|done]. cbn [mbind option_bind].
  destruct (match by_ with Some _ => _ | None => _ end) as [st3|] eqn:E3; [|done]. cbn [mbind option_bind].
  apply hook_jobs in E3. assert (H3 : touches P st st3).
  { eapply touches_trans; [exact H1|]. intros w Hw. rewrite E3. apply (add_one_jobs t u st1 j b st2 E1). by intros ->. }
  destruct (_ && _); [|by intros [= <- <-]]. intros H. eapply touches_trans; [exact H3|]. eapply add_requests_touches, H.
  intros q s r' s' Hq. apply IH. apply (HP u); [done|]. by apply (requests_pulls u t).
Qed.

Lemma add_stops_touches P test us st st' :
  (∀ v w, P v → pulls v w → P w) → (∀ u, u ∈ us → P u) → add_stops test us st = Some st' → touches P st st'.
Proof.
  intros HP. revert st. induction us as [|u us IH]; intros st Hus; cbn [add_stops]; [by intros [= <-]|].
  assert (Hus' : ∀ u, u ∈ us → P u) by (intros; apply Hus; by apply list_elem_of_further).
  destruct (test st u); [|by apply IH]. destruct (anchor_job st) as [a|]; [|done]. cbn [mbind option_bind].
  destruct (transaction_add_job_and_dependencies _ _ _ _ _ _ _ st) as [[r st1]|] eqn:E1; [|done]. cbn [mbind option_bind].
  intros H. eapply touches_trans; [|by eapply IH]. eapply add_job_touches, E1; [done|apply Hus, list_elem_of_here].
Qed.

Lemma reaches_pulls mode u v w : reaches mode u v → pulls v w → reaches mode u w.
Proof.
  intros [H|(Hm & x & Hx & H)] Hp; [left; by eapply rtc_r|right]. split; [done|]. exists x. split; [done|]. by eapply rtc_r.
Qed.

(** ** Requests *)

Hypothesis closed_deps : deps_closed.

(** What a request that was accepted has done. *)
Record enqueued (mode : JobMode) (type : JobType) u st i st' : Prop := {
  en_job : ∃ ib, heap st' !! i = Some ib ∧ j_installed ib = true ∧ j_unit ib = u ∧
    j_type ib ∈ answers (unit_active_state u) type ∧ (rq_alloc_ok i = true → j_in_run_queue ib = true);
  en_others k kb : mode ∉ [JOB_ISOLATE; JOB_FLUSH] → heap st !! k = Some kb → ¬ reaches mode u (j_unit kb) →
    ∃ kb', heap st' !! k = Some kb' ∧ kept_as kb kb';
}.

(** Why a request is refused: the mode does not fit, the job or one it needs cannot be added, or
    the transaction cannot be put in order or applied. *)
Inductive denied (type : JobType) (mode : JobMode) u st : Z → Prop :=
  | denied_isolate : mode = JOB_ISOLATE → type ≠ JOB_START → denied type mode u st (-EINVAL)
  | denied_allow : mode = JOB_ISOLATE → type = JOB_START → allow_isolate u = false → denied type mode u st (-EPERM)
  | denied_triggering : mode = JOB_TRIGGERING → type ≠ JOB_STOP → denied type mode u st (-EINVAL)
  | denied_build r st1 :
      transaction_add_job_and_dependencies (job_type_collapse type (unit_active_state u)) u None true false
        (bool_decide (mode ∈ [JOB_IGNORE_DEPENDENCIES; JOB_IGNORE_REQUIREMENTS])) (bool_decide (mode = JOB_IGNORE_DEPENDENCIES))
        (transaction_new (bool_decide (mode = JOB_REPLACE_IRREVERSIBLY)) st) = Some (r, st1) → r < 0 → denied type mode u st r
  | denied_cycle : denied type mode u st (-EDEADLK)
  | denied_exists : denied type mode u st (-EEXIST).

Lemma stops_phase (b : bool) test us a st0 st :
  build_ok st → grows st0 st → anchor_job st = Some a → (∀ u, u ∈ us → u ∈ units) →
  ∃ st', (if b then add_stops test us st else Some st) = Some st' ∧ build_ok st' ∧ grows st0 st' ∧ anchor_job st' = Some a ∧
    grows st st' ∧ (b = false → st' = st).
Proof.
  intros Hok Hg Ha Hus. destruct b; [|exists st; split_and!; [done..|apply grows_refl|done]].
  destruct (add_stops_spec closed_deps test us a st Hok Ha Hus) as (st' & -> & Hok' & Hg' & _).
  exists st'. split_and!; [done|done|by eapply grows_trans|by apply (gr_anchor _ _ Hg')|done|done].
Qed.

Lemma collapse_transaction_type t s : transaction_type (job_type_collapse t s).
Proof. by destruct t, s. Qed.

(** Activating what was built, and taking it back when it is refused. *)
Definition activate_or_abort (mode : JobMode) st : option (Z * State * option positive) :=
  '(r, st, _) ← transaction_activate mode st;
  if r <? 0 then tr_abort r st
  else
    let ret := anchor_job st in
    st ← transaction_free st;
    Some (0, st, ret).

Lemma activate_or_abort_spec mode type u a ab st stb :
  heap stb !! a = Some ab → j_type ab = job_type_collapse type (unit_active_state u) → at_rest st → room st → build_ok stb → grows st stb → anchor_job stb = Some a → a ∈ chain stb u → no_nop_chains stb →
  (mode ≠ JOB_ISOLATE → touches (reaches mode u) st stb) →
  ∃ r st' ret, activate_or_abort mode stb = Some (r, st', ret) ∧ at_rest st' ∧ (jobs_known st → jobs_known st') ∧
    (r = 0 ∧ (∃ i, ret = Some i ∧ enqueued mode type u st i st') ∨
     r < 0 ∧ r ∈ [-EDEADLK; -EEXIST] ∧ ret = None ∧ (restored st st' ∨ r = -EEXIST ∧ mode ∈ [JOB_ISOLATE; JOB_FLUSH])).
Proof.
  intros Hab Hty Hr Hroom Hok Hg Ha Hac Hnop Hw. unfold activate_or_abort.
  destruct (activate_spec mode a stb) as (r & st1 & aff & -> & Hout); [by apply (built_as_built a st)|]. cbn [mbind option_bind].
  destruct Hout as [[-> Hact]|(Href & Hok1 & Hids1 & Hstr1)]; cbn [Z.ltb Z.compare].
  - unfold chain in Hac. destruct (jobs stb !! u) as [c|] eqn:Eu; [|by apply elem_of_nil in Hac]. cbn in Hac.
    destruct (av_anchor _ _ _ _ _ Hact u c ab Eu Hac Hab) as (i & ib & Hai & _ & Hib & Hii & Hiu & Hans & Hrq).
    rewrite Hty, answers_collapse in Hans.
    unfold transaction_free, assert_. rewrite bool_decide_eq_true_2 by apply Hact. rewrite Hai. exists 0, st1, (Some i).
    split_and!; [done|split; apply Hact|intros Hkn k kb' Hk; destruct (av_back _ _ _ _ _ Hact k kb' Hk) as (kb & Hkb & ->); by eapply (built_known st stb)|].
    left. split; [done|]. exists i. split; [done|]. split; [by exists ib|].
    intros k kb Hm Hk Hn. destruct (built_outside st stb k Hr Hg) as [_ Hkb]; [eauto|]. rewrite Hk in Hkb.
    apply (av_others _ _ _ _ _ Hact k kb Hm Hkb); [by apply (rest_installed st k)|].
    rewrite Hw; [by rewrite (ar_jobs _ Hr)| |done]. intros ->. apply Hm, list_elem_of_here.
  - destruct (tr_abort_spec r st1 Hok1 Hids1 Hstr1) as (st' & Hab' & Hrest & Hmg & Hh). exists r, st', None.
    assert (Hr0 : r < 0) by (destruct Href as [[-> _]|[-> _]]; done). rewrite (proj2 (Z.ltb_lt r 0) Hr0).
    split_and!; [done|done| |].
    { intros Hkn k kb Hk. pose proof (rest_installed st' k kb Hrest Hk) as Hi. destruct (decide (k ∈ all_jobs st1)) as [H1%elem_of_all_jobs|H1].
      - by rewrite (proj1 (Hh k) H1) in Hk.
      - rewrite elem_of_all_jobs in H1. rewrite (proj2 (Hh k) H1) in Hk. eapply (refused_known mode r stb st1); [done|by apply (built_known st)|done|done]. }
    right. split_and!; [done|destruct Href as [[-> _]|[-> _]]; by_decide|done|].
    destruct Href as [[_ Hf]|(-> & s & Hf & Hca)]; [left; by apply (refused_restored st stb st1)|].
    unfold cancelled in Hca. case_bool_decide as Hm; [by right|subst s; left; by apply (refused_restored st stb st1)].
Qed.

(** What adding the requested job to an empty transaction achieves. *)
Lemma request_phase t u mat ir io st mode :
  at_rest st → u ∈ units → transaction_type t → anchor_job st = None → build_ok st →
  ∃ r st1, transaction_add_job_and_dependencies t u None mat false ir io st = Some (r, st1) ∧ build_ok st1 ∧ grows st st1 ∧ r <= 0 ∧
    touches (reaches mode u) st st1 ∧
    (r = 0 → ∃ a ab, anchor_job st1 = Some a ∧ a ∈ chain st1 u ∧ heap st1 !! a = Some ab ∧ j_type ab = t ∧
       (t = JOB_NOP → alone a st1)).
Proof.
  intros Hr Hu Ht Ha Hok. destruct (add_job_adds closed_deps build_fuel t u None mat false ir io st) as (r & st1 & H1 & Hadd); try done.
  { pose proof (all_missing_bound st). unfold build_fuel. lia. }
  destruct Hadd as (Hok1 & Hg1 & Hr1 & Hret & _ & _ & Hnop). exists r, st1. split_and!; try done.
  - eapply add_job_touches, H1; [intros v w; apply reaches_pulls|by left].
  - intros ->. destruct (Hret eq_refl) as (a & [Hc (ab & Hab & Hty)] & Han & _). exists a, ab. split_and!; [by apply Han|done..|].
    intros ->. apply all_alone; [apply Hok1|]. intros k Hk. pose proof (Hnop eq_refl eq_refl eq_refl k Hk). specialize (Han eq_refl). congruence.
Qed.

Lemma restored_new irr st : at_rest st → restored (transaction_new irr st) st ∧ ∀ st', restored (transaction_new irr st) st' → restored st st'.
Proof.
  intros Hr. split; [|by intros st' [? ?]; split]. split; [|apply mgr_same]. intros k. cbn.
  destruct (heap st !! k); constructor. apply same_but_marks_refl.
Qed.

Lemma manager_add_job_spec type u mode st :
  u ∈ units → at_rest st → room st →
  ∃ r st' ret, manager_add_job type u mode st = Some (r, st', ret) ∧ at_rest st' ∧ (jobs_known st → jobs_known st') ∧
    (r = 0 ∧ (∃ i, ret = Some i ∧ enqueued mode type u st i st') ∨
     r < 0 ∧ denied type mode u st r ∧ ret = None ∧ (restored st st' ∨ r = -EEXIST ∧ mode ∈ [JOB_ISOLATE; JOB_FLUSH])).
Proof.
  intros Hu Hr Hroom. assert (Hrefl : restored st st).
  { split; [|apply mgr_same]. intros k. destruct (heap st !! k); constructor. apply same_but_marks_refl. }
  unfold manager_add_job.
  destruct (bool_decide (mode = JOB_ISOLATE) && bool_decide (type ≠ JOB_START)) eqn:E1.
  { apply andb_true_iff in E1 as [?%bool_decide_eq_true ?%bool_decide_eq_true]. eexists _, st, None. split_and!; [done..|]. right. split_and!; [done|by apply denied_isolate|done|by left]. }
  destruct (bool_decide (mode = JOB_ISOLATE) && negb (allow_isolate u)) eqn:E2.
  { apply andb_true_iff in E2 as [Hm%bool_decide_eq_true Ha%negb_true_iff]. eexists _, st, None. split_and!; [done..|]. right. split_and!; [done|apply denied_allow; [done| |done]; rewrite Hm in E1; cbn in E1; by apply bool_decide_eq_false, dec_stable in E1|done|by left]. }
  destruct (bool_decide (mode = JOB_TRIGGERING) && bool_decide (type ≠ JOB_STOP)) eqn:E3.
  { apply andb_true_iff in E3 as [?%bool_decide_eq_true ?%bool_decide_eq_true]. eexists _, st, None. split_and!; [done..|]. right. split_and!; [done|by apply denied_triggering|done|by left]. }
  set (t := job_type_collapse type (unit_active_state u)). set (irr := bool_decide (mode = JOB_REPLACE_IRREVERSIBLY)).
  destruct (new_rest irr st Hr) as [Hr0 Hok0]. set (st0 := transaction_new irr st) in *.
  assert (Hback : ∀ st', restored st0 st' → restored st st') by apply (restored_new irr st Hr).
  destruct (request_phase t u true (bool_decide (mode ∈ [JOB_IGNORE_DEPENDENCIES; JOB_IGNORE_REQUIREMENTS]))
    (bool_decide (mode = JOB_IGNORE_DEPENDENCIES)) st0 mode Hr0 Hu (collapse_transaction_type _ _) eq_refl Hok0)
    as (r & st1 & Hbuild & Hok1 & Hg1 & Hle & Hw1 & Hret). rewrite Hbuild. cbn [mbind option_bind].
  destruct (r <? 0) eqn:Er.
  { destruct (built_rest st0 st1 Hr0 Hok1 Hg1) as (Ha & Hb & Hc). destruct (tr_abort_spec r st1 Ha Hb Hc) as (st' & -> & Hrest & Hmg & Hh).
    exists r, st', None. split_and!; [done|done| |].
    { intros Hkn k kb Hk. destruct (decide (k ∈ all_jobs st1)) as [H1%elem_of_all_jobs|H1]; [by rewrite (proj1 (Hh k) H1) in Hk|].
      rewrite elem_of_all_jobs in H1. rewrite (proj2 (Hh k) H1) in Hk. by eapply (built_known st0 st1). }
    right. split_and!; [lia|by apply (denied_build _ _ _ _ _ st1); [|lia]|done|left]. apply Hback.
    apply (refused_restored st0 st1 st1); try done. apply frame_refl, Ha. }
  destruct (Hret ltac:(lia)) as (a & ab & Ha & Hac & Hab & Hty & Hone).
  destruct (stops_phase (bool_decide (mode = JOB_ISOLATE)) isolate_stops units a st0 st1 Hok1 Hg1 Ha) as (st2 & E4 & Hok2 & Hg2 & Ha2 & Hg12 & Hs2); [done|].
  unfold transaction_add_isolate_jobs. rewrite E4. cbn [mbind option_bind].
  destruct (stops_phase (bool_decide (mode = JOB_TRIGGERING)) triggering_stops (unit_dependencies u UNIT_ATOM_TRIGGERED_BY) a st0 st2 Hok2 Hg2 Ha2)
    as (st3 & E5 & Hok3 & Hg3 & Ha3 & Hg23 & Hs3); [intros v Hv; apply (closed_deps u); eauto|].
  unfold transaction_add_triggering_jobs. rewrite E5. cbn [mbind option_bind].
  pose proof (grows_trans _ _ _ Hg12 Hg23) as Hg13. fold (activate_or_abort mode st3).
  assert (Hj3 : has_job st3 u t a) by (eapply grows_has_job; [apply Hok3|done| |apply Hok1]; split; eauto).
  destruct Hj3 as [Hac3 (ab3 & Hab3 & Hty3)].
  assert (Hw3 : mode ≠ JOB_ISOLATE → touches (reaches mode u) st0 st3).
  { intros Hm. rewrite Hs2 in E5 by by apply bool_decide_eq_false. case_bool_decide as Ht.
    - eapply touches_trans; [exact Hw1|]. eapply add_stops_touches, E5; [intros v w; apply reaches_pulls|]. intros v Hv. right. split; [done|]. exists v. done.
    - by injection E5 as <-. }
  destruct (activate_or_abort_spec mode type u a ab3 st0 st3) as (r' & st' & ret & -> & Hrest & Hkn & Hout); try done.
  { apply (built_no_nop st3 a ab3); [done..|]. destruct (decide (t = JOB_NOP)) as [Ht|Ht]; [right|left; congruence].
    rewrite Hs3, Hs2; [by apply Hone|..].
    - apply bool_decide_eq_false. intros ->. cbn in E1. apply bool_decide_eq_false, dec_stable in E1. subst type. done.
    - apply bool_decide_eq_false. intros ->. cbn in E3. apply bool_decide_eq_false, dec_stable in E3. subst type. done. }
  exists r', st', ret. split_and!; [done..|].
  assert (Hden : r' ∈ [-EDEADLK; -EEXIST] → denied type mode u st r').
  { intros [->|[->|[]%elem_of_nil]%elem_of_cons]%elem_of_cons; constructor. }
  destruct Hout as [(-> & i & -> & [? ?])|(? & ? & ? & [?|?])]; [left|right..]; split_and!; auto.
  exists i. split; [done|]. by split.
Qed.

(** A reload that is passed on does not come back to [u]. *)
Definition reload_returns u v : Prop := ∃ q, q ∈ reload_requests u ∧ rtc pulls (rq_unit q) v.

Lemma reload_pulls u q : q ∈ reload_requests u → pulls u (rq_unit q).
Proof. intros Hq. apply (requests_pulls u JOB_RELOAD). unfold requests. rewrite !elem_of_app. right. right. right. done. Qed.

Lemma reload_phase u a io st :
  u ∈ units → build_ok st → in_tr st a →
  ∃ st', transaction_add_propagate_reload_jobs u a io st = Some st' ∧ build_ok st' ∧ grows st st' ∧ touches (reload_returns u) st st'.
Proof.
  intros Hu Hok Ha. unfold transaction_add_propagate_reload_jobs.
  destruct (add_requests_spec build_fuel a io (reload_requests u) st (add_job_adds closed_deps build_fuel) Hok Ha)
    as (r & st' & Hadd & Hok' & Hg & _).
  - intros q Hq. destruct (requests_ok u JOB_RELOAD q) as (? & ? & ?); [done..| |].
    { unfold requests. rewrite !elem_of_app. right. right. right. done. }
    split_and!; [by eapply closed_deps|done..].
  - pose proof (all_missing_bound st). unfold build_fuel. lia.
  - unfold transaction_add_job_and_dependencies. rewrite Hadd. cbn [mbind option_bind]. exists st'. split_and!; [done..|].
    eapply add_requests_touches, Hadd. intros q s r' s' Hq. apply add_job_touches.
    + intros v w (x & Hx & Hr) Hp. exists x. split; [done|]. by eapply rtc_r.
    + exists q. done.
Qed.

Lemma propagate_reload_spec u mode st :
  u ∈ units → at_rest st → room st → mode ≠ JOB_ISOLATE → ¬ reload_returns u u →
  ∃ r st', manager_propagate_reload u mode st = Some (r, st') ∧ at_rest st' ∧
    (r = 0 ∧ (∃ i, enqueued mode JOB_NOP u st i st') ∨ r < 0 ∧ (restored st st' ∨ r = -EEXIST ∧ mode = JOB_FLUSH)).
Proof.
  intros Hu Hr Hroom Hm Hback. unfold manager_propagate_reload. rewrite assert_bind by by apply bool_decide_eq_true.
  set (irr := bool_decide (mode = JOB_REPLACE_IRREVERSIBLY)).
  destruct (new_rest irr st Hr) as [Hr0 Hok0]. set (st0 := transaction_new irr st) in *.
  assert (Hres : ∀ st', restored st0 st' → restored st st') by apply (restored_new irr st Hr).
  destruct (request_phase JOB_NOP u false true true st0 mode Hr0 Hu ltac:(done) eq_refl Hok0)
    as (r & st1 & -> & Hok1 & Hg1 & Hle & Hw1 & Hret). cbn [mbind option_bind].
  destruct (r <? 0) eqn:Er.
  { destruct (built_rest st0 st1 Hr0 Hok1 Hg1) as (Ha & Hb & Hc). destruct (tr_abort_spec r st1 Ha Hb Hc) as (st' & -> & Hrest & Hmg & Hh).
    exists r, st'. split_and!; [done..|]. right. split_and!; [lia|left]. apply Hres.
    apply (refused_restored st0 st1 st1); try done. apply frame_refl, Ha. }
  destruct (Hret ltac:(lia)) as (a & ab & Ha & Hac & Hab & Hty & Hone). rewrite Ha. cbn [mbind option_bind].
  destruct (reload_phase u a (bool_decide (mode = JOB_IGNORE_DEPENDENCIES)) st1 Hu Hok1) as (st2 & -> & Hok2 & Hg2 & Hw2);
    [by eapply chain_in_tr|]. cbn [mbind option_bind].
  assert (Hj2 : has_job st2 u JOB_NOP a) by (eapply grows_has_job; [apply Hok2|done| |apply Hok1]; split; eauto).
  destruct Hj2 as [Hac2 (ab2 & Hab2 & Hty2)].
  destruct (activate_or_abort_spec mode JOB_NOP u a ab2 st0 st2) as (r' & st' & ret & Hact & Hrest & _ & Hout); try done.
  { by eapply grows_trans. }
  { by apply (gr_anchor _ _ Hg2). }
  { apply (built_no_nop st2 a ab2); [done|by apply (gr_anchor _ _ Hg2)|done|right]. intros v c Hv Hav.
    destruct (chain_job st2 u a (bo_st _ Hok2) Hac2) as (x & Hx & Hxu & _).
    destruct (proj1 (proj1 (proj1 (bo_st _ Hok2))) v c Hv) as [_ Hc]. destruct (Hc a Hav) as (y & Hy & Hyv & _).
    assert (v = u) as -> by congruence. rewrite (Hw2 u Hback) in Hv. by apply (Hone eq_refl u c). }
  { intros _. eapply touches_trans; [exact Hw1|]. intros v Hv. apply Hw2. intros (q & Hq & Hrr). apply Hv. left.
    eapply rtc_l; [by apply reload_pulls|done]. }
  unfold activate_or_abort in Hact. destruct (transaction_activate mode st2) as [[[r2 st3] aff]|]; [|done]. cbn [mbind option_bind] in *.
  assert (Hgoal : ∃ r'' s'', (if r2 <? 0 then '(r, st, _) ← tr_abort r2 st3; Some (r, st) else st ← transaction_free st3; Some (0, st)) = Some (r'', s'')
    ∧ r'' = r' ∧ s'' = st').
  { destruct (r2 <? 0); [by rewrite Hact; exists r', st'|]. destruct (transaction_free st3); [|done]. injection Hact as <- <- <-. eauto. }
  destruct Hgoal as (r'' & s'' & -> & -> & ->). exists r', st'. split_and!; [done..|].
  destruct Hout as [(-> & i & -> & [? ?])|(? & _ & ? & [?|[? Hmm]])]; [left|right..]; split_and!; auto.
  - exists i. by split.
  - right. split; [done|]. apply elem_of_cons in Hmm as [?|Hmm]; [done|]. by apply list_elem_of_singleton in Hmm.
Qed.

(** ** Properties *)

(** C1: [manager_add_job] is all or nothing. On every dependency graph it returns without
    failing an assertion and leaves a manager without a transaction whose invariant holds.
    If it succeeds, the job it returns is installed for the requested unit, its type does
    what was asked for ([answers]: the requested type, or one it was merged into), it is on
    the run queue if memory allows, and (isolating and flushing apart) the jobs of all units
    that the request does not reach are as before. If it fails, it is for one of the reasons of
    [denied], and every job is as before, except
    that a taken id is found only after isolating has cancelled jobs. *)
Theorem manager_add_job_all_or_nothing (type : JobType) (u : positive) (mode : JobMode) (st : State) :
  u ∈ units → at_rest st → room st →
  ∃ r st' ret, manager_add_job type u mode st = Some (r, st', ret) ∧ at_rest st' ∧
    (r = 0 ∧ (∃ i, ret = Some i ∧ enqueued mode type u st i st') ∨
     r < 0 ∧ denied type mode u st r ∧ ret = None ∧ (restored st st' ∨ r = -EEXIST ∧ mode ∈ [JOB_ISOLATE; JOB_FLUSH])).
Proof.
  intros Hu Hr Hroom. destruct (manager_add_job_spec type u mode st Hu Hr Hroom) as (r & st' & ret & ? & ? & _ & ?). by exists r, st', ret.
Qed.

(** [manager_propagate_reload] is all or nothing in the same way, for a unit that the
    reloads it passes on do not reach again. *)
Theorem propagate_reload_all_or_nothing (u : positive) (mode : JobMode) (st : State) :
  u ∈ units → at_rest st → room st → mode ≠ JOB_ISOLATE → ¬ reload_returns u u →
  ∃ r st', manager_propagate_reload u mode st = Some (r, st') ∧ at_rest st' ∧
    (r = 0 ∧ (∃ i, enqueued mode JOB_NOP u st i st') ∨ r < 0 ∧ (restored st st' ∨ r = -EEXIST ∧ mode = JOB_FLUSH)).
Proof. apply propagate_reload_spec. Qed.

End AddJob.

(** ** A manager with one job

    Unit 1 requires 2 and wants 3, 2 and 3 require each other; unit 4 has a job. *)

Definition rest_env : Env :=
  ex_env (ex_deps [(1, UNIT_ATOM_PULL_IN_START, 2); (1, UNIT_ATOM_PULL_IN_START_IGNORED, 3);
                   (2, UNIT_ATOM_PULL_IN_START, 3); (3, UNIT_ATOM_PULL_IN_START, 2);
                   (1, UNIT_ATOM_PROPAGATES_RELOAD_TO, 4)]%positive)
    (λ u, if decide (u = 4%positive) then UNIT_ACTIVE else UNIT_INACTIVE) [1; 2; 3; 4]%positive.

Definition rest_state : @State ex_rq :=
  @MkState ex_rq (list_to_map [(1%positive, fin_job 4 JOB_START JOB_WAITING)]) [] ∅ None false
    (@MkManager ex_rq (list_to_map [(4, 1)]%positive) ∅ (list_to_map [(4, 1%positive)])
       5 1 0 0 (@rq_empty ex_rq) [] [] (λ _, UNIT_LOADED) []).

Lemma rest_state_at_rest : at_rest rest_state.
Proof.
  split.
  - apply sys_ok_check; [by_decide|done].
  - intros id i Hi. apply elem_of_list_to_map_2, list_elem_of_In in Hi. destruct Hi as [[= <- <-]|[]].
    eexists. split; [reflexivity|done].
  - intros k kb Hk. apply elem_of_list_to_map_2, list_elem_of_In in Hk. destruct Hk as [[= <- <-]|[]]. by left.
  - reflexivity.
Qed.

Lemma rest_env_closed : let E := rest_env in deps_closed.
Proof. apply ex_env_closed. by_decide. Qed.

Lemma rest_env_pulls v w : let E := rest_env in pulls v w → v ≠ w ∧ (w = 1%positive → False).
Proof.
  intros E (t & t' & m & c & g & Hp). assert (Hd : ∃ a, w ∈ unit_dependencies v a).
  { destruct Hp as [? ? Hf| | | | | | | |]; [by apply elem_of_nil in Hf|eauto..]. }
  destruct Hd as [a Ha%elem_of_ex_deps]. revert Ha. rewrite !elem_of_cons. intros Ha.
  repeat destruct Ha as [[= -> _ ->]|Ha]; try done. by apply elem_of_nil in Ha.
Qed.

Lemma manager_add_job_all_or_nothing_witness :
  let E := rest_env in
  ∃ st' i ib, manager_add_job JOB_START 1 JOB_REPLACE rest_state = Some (0, st', Some i) ∧ at_rest st' ∧
    heap st' !! i = Some ib ∧ j_unit ib = 1%positive ∧ j_type ib ∈ [JOB_START; JOB_RESTART].
Proof.
  intros E. destruct (@manager_add_job_all_or_nothing ex_rq E rest_env_closed JOB_START 1 JOB_REPLACE rest_state)
    as (r & st' & ret & H1 & H2 & H3).
  - by_decide.
  - exact rest_state_at_rest.
  - by vm_compute.
  - destruct H3 as [(-> & i & -> & [(ib & Hib & _ & Hu & Ht & _) _])|(Hr & _)].
    + exists st', i, ib. split_and!; done.
    + exfalso. assert (Hx : (λ x, 0 <=? fst (fst x)) <$> manager_add_job JOB_START 1 JOB_REPLACE rest_state = Some true) by (vm_compute; reflexivity).
      rewrite H1 in Hx. injection Hx as Hx%Z.leb_le. cbn in Hx. lia.
Defined.

Lemma propagate_reload_all_or_nothing_witness :
  let E := rest_env in
  ∃ r st', manager_propagate_reload 1 JOB_FAIL rest_state = Some (r, st') ∧ at_rest st'.
Proof.
  intros E. destruct (@propagate_reload_all_or_nothing ex_rq E rest_env_closed 1 JOB_FAIL rest_state)
    as (r & st' & H1 & H2 & _).
  - by_decide.
  - exact rest_state_at_rest.
  - by vm_compute.
  - done.
  - intros (q & Hq & Hr). apply rtc_inv_r in Hr as [Hr|(y & _ & Hy)].
    + destruct (rest_env_pulls 1 (rq_unit q)) as [Hne _]; [by apply reload_pulls|]. by apply Hne.
    + by apply (rest_env_pulls y 1).
  - exists r, st'. split; [exact H1|exact H2].
Defined.

(** ** Two active units that pass reloads on to each other

    The comment on [JOB_NOP] in src/core/job.h says that such a job never has to merge
    with a job of another type. Here the reload comes back to the unit of the anchor, a NOP
    job, and [transaction_merge_jobs] fails the assertion of [job_type_lookup_merge]. *)

Definition mutual_env : Env :=
  ex_env (ex_deps [(1, UNIT_ATOM_PROPAGATES_RELOAD_TO, 2); (2, UNIT_ATOM_PROPAGATES_RELOAD_TO, 1)]%positive)
    (λ _, UNIT_ACTIVE) [1; 2]%positive.

Example mutual_reload_fails_assertion :
  let E := mutual_env in fst <$> manager_propagate_reload 1 JOB_FAIL ex_state = None.
Proof. vm_compute. reflexivity. Qed.
