(* ===== verification/JobRun.v ===== *)
(** * Running jobs (src/core/job.c, src/core/manager.c)

    [job_run_and_invalidate] takes a job from the run queue and carries it out;
    [manager_dispatch_run_queue] empties the queue. Starting, stopping and reloading a
    unit belongs to the unit types: these operations are parameters that may change the
    units (the environment) and the jobs. The timer of a job, the message that a job
    starts and the animations for running jobs are left out. *)

From S2P Require Import Prelude JobType Prioq RunQueue JobData TrDelete TrFix TrOrder TrMerge TrBuild JobOps JobFinish JobInstall TrApply TrActivate AddJob.

(** The units and the jobs. *)
Definition World {RQ : RunQueue} : Type := Env * State.

(** The operations of the unit types, with their results. *)
Class UnitOps {RQ : RunQueue} := {
  unit_start : positive → World → Z * World;
  unit_stop : positive → World → Z * World;
  unit_reload : positive → World → Z * World;
}.

Section JobRun.
Context {RQ : RunQueue} {U : UnitOps}.
Implicit Types (E : Env) (st : State) (w : World) (j k u o : positive).

(** ** The code *)

(** The switch on the job type: the result, and whether there is nothing to do but wait. *)
Definition call_unit (t : JobType) (u : positive) w : option (Z * bool * World) :=
  match t with
  | JOB_START => let '(r, w) := unit_start u w in Some (r, r =? -EBADR, w)
  | JOB_RESTART | JOB_STOP => let '(r, w) := unit_stop u w in Some (r, r =? -EBADR, w)
  | JOB_RELOAD => let '(r, w) := unit_reload u w in Some (r, false, w)
  | _ => None
  end.

(** The result, and the job if it is still there. *)
Definition job_perform_on_unit (j : positive) w : option (Z * option positive * World) :=
  jb ← heap (snd w) !! j;
  '(r, wait_only, w) ← call_unit (j_type jb) (j_unit jb) w;
  Some (if wait_only : bool then 0 else r, m_jobs (mgr (snd w)) !! j_id jb, w).

Definition verify_active (s : UnitActiveState) : Z :=
  if UNIT_IS_ACTIVE_OR_RELOADING s then -EALREADY
  else if bool_decide (s = UNIT_ACTIVATING) then -EAGAIN
  else -EBADR.

(** What the job is finished with, if it is. *)
Definition result_of (r : Z) : option JobResult :=
  if r =? -EALREADY then Some JOB_DONE
  else if r =? -ECOMM then Some JOB_DONE
  else if r =? -EBADR then Some JOB_SKIPPED
  else if r =? -ENOEXEC then Some JOB_INVALID
  else if r =? -EPROTO then Some JOB_ASSERT
  else if r =? -EOPNOTSUPP then Some JOB_UNSUPPORTED
  else if r =? -ENOLINK then Some JOB_DEPENDENCY
  else if r =? -ESTALE then Some JOB_ONCE
  else if r <? 0 then Some JOB_FAILED
  else None.

(** The switch of [job_run_and_invalidate]. *)
Definition carry_out (j : positive) (jb : Job) w : option (Z * option positive * World) :=
  match j_type jb with
  | JOB_VERIFY_ACTIVE => Some (verify_active (@unit_active_state (fst w) (j_unit jb)), Some j, w)
  | JOB_START | JOB_STOP | JOB_RESTART | JOB_RELOAD => job_perform_on_unit j w
  | JOB_NOP => Some (-EALREADY, Some j, w)
  | _ => None
  end.

(** What becomes of the job, if it is still there, with the result [r]. *)
Definition settle (oj : option positive) (r : Z) w : option (Z * World) :=
  let '(E, st) := w in
  match oj with
  | None => Some (r, (E, st))
  | Some j =>
      if r =? -EAGAIN then st ← job_set_state j JOB_WAITING st; Some (r, (E, st))
      else match result_of r with
      | Some result => st ← job_finish_and_invalidate j result true st; Some (0, (E, st))
      | None => Some (r, (E, st))
      end
  end.

Definition job_run_and_invalidate (j : positive) w : option (Z * World) :=
  let '(E, st) := w in
  jb ← heap st !! j;
  assert_ (j_installed jb);;
  assert_ (job_type_num (j_type jb) <? _JOB_TYPE_MAX_IN_TRANSACTION);;
  assert_ (j_in_run_queue jb);;
  q ← rq_remove (run_queue (mgr st)) j;
  let st := alter_job (set_j_in_run_queue false) j (alter_mgr (set_run_queue q) st) in
  if bool_decide (j_state jb ≠ JOB_WAITING) then Some (0, (E, st))
  else
    b ← job_is_runnable j st;
    if negb b then Some (-EAGAIN, (E, st))
    else
      st ← job_set_state j JOB_RUNNING st;
      st ← job_add_to_dbus_queue j st;
      '(r, oj, w) ← carry_out j jb (E, st);
      settle oj r w.

Fixpoint dispatch (fuel : nat) w : option World :=
  match rq_peek (run_queue (mgr (snd w))) with
  | None => Some w
  | Some j =>
      match fuel with
      | O => None
      | S fuel =>
          jb ← heap (snd w) !! j;
          assert_ (j_installed jb);;
          assert_ (j_in_run_queue jb);;
          '(_, w) ← job_run_and_invalidate j w;
          dispatch fuel w
      end
  end.

(** ** Steps that keep the jobs *)

(** Only the job [j] changes, and not what it is registered by. *)
Record tweaks j (f : Job → Job) st st' : Prop := {
  tw_heap : heap st' = alter f j (heap st);
  tw_job jb : j_id (f jb) = j_id jb ∧ j_installed (f jb) = j_installed jb ∧ j_type (f jb) = j_type jb ∧ j_unit (f jb) = j_unit jb;
  tw_jobs : jobs st' = jobs st;
  tw_ids : m_jobs (mgr st') = m_jobs (mgr st);
}.

Lemma tweaks_rest j f st st' : at_rest st → sys_ok st' → tweaks j f st st' → at_rest st'.
Proof.
  intros [_ Hids Hstr He] Hok [Hh Hf Hj Hm]. split; [done| | |congruence].
  - intros id i Hi. rewrite Hm in Hi. destruct (Hids id i Hi) as (ib & Hib & Hid & Hii). rewrite Hh.
    destruct (decide (i = j)) as [->|Hne].
    + rewrite lookup_alter_eq, Hib. exists (f ib). destruct (Hf ib) as (? & ? & _). split_and!; [done|congruence..].
    + rewrite lookup_alter_ne by done. eauto.
  - intros k kb Hk. left. rewrite Hh in Hk. assert (Hall : ∀ i ib, heap st !! i = Some ib → j_installed ib = true).
    { intros i ib Hib. destruct (Hstr i ib Hib) as [?|(u & c & Hu & _)]; [done|by rewrite He in Hu]. }
    destruct (decide (k = j)) as [->|Hne].
    + rewrite lookup_alter_eq in Hk. destruct (heap st !! j) as [jb|] eqn:Ej; [|done]. injection Hk as <-.
      destruct (Hf jb) as (_ & -> & _). eauto.
    + rewrite lookup_alter_ne in Hk by done. eauto.
Qed.

Lemma tweaks_few j f st st' : tweaks j f st st' → few st → few st'.
Proof.
  intros [Hh _ _ _] Hfew. unfold few in *. rewrite Hh. rewrite <- (size_dom (D := gset positive)), dom_alter_L, size_dom. done.
Qed.

Lemma tweaks_lookup j f st st' jb : tweaks j f st st' → heap st !! j = Some jb → heap st' !! j = Some (f jb).
Proof. intros [Hh _ _ _] Hj. by rewrite Hh, lookup_alter_eq, Hj. Qed.

Definition dequeue (j : positive) (q : rq) st : State := alter_job (set_j_in_run_queue false) j (alter_mgr (set_run_queue q) st).

Lemma dequeue_spec j jb st :
  at_rest st → heap st !! j = Some jb → j_in_run_queue jb = true →
  ∃ q, rq_remove (run_queue (mgr st)) j = Some q ∧ rq_jobs (run_queue (mgr st)) ≡ₚ j :: rq_jobs q ∧
    at_rest (dequeue j q st) ∧ tweaks j (set_j_in_run_queue false) st (dequeue j q st).
Proof.
  intros Hr Hj Hq. pose proof (ar_ok _ Hr) as [_ Hm]. pose proof (rest_installed st j jb Hr Hj) as Hi.
  pose proof (mo_run _ Hm) as [Hnd Hel].
  destruct (rq_remove_ok (run_queue (mgr st)) j) as (q & Hrm & Hrq & Hp); [apply (mo_rq _ Hm)|apply Hel; eauto|].
  assert (Htw : tweaks j (set_j_in_run_queue false) st (dequeue j q st)) by done.
  exists q. split_and!; [done|done| |done]. apply (tweaks_rest j (set_j_in_run_queue false) st); [done| |done].
  apply (update_ok (set_j_in_run_queue false) j jb st (set_run_queue q (mgr st))); try done.
  - apply Hr.
  - split; try done. apply (mo_types _ Hm j jb Hj).
  - change (run_bit (set_j_in_run_queue false jb)) with (run_bit jb). change (n_running_jobs (set_run_queue q (mgr st))) with (n_running_jobs (mgr st)). lia.
  - cbn. rewrite Hp in Hnd. apply NoDup_cons in Hnd as [Hjn Hnd]. split; [done|]. intros i.
    destruct (decide (i = j)) as [->|Hne].
    + rewrite lookup_alter_eq, Hj. split; [done|]. by intros (? & [= <-] & ?).
    + rewrite lookup_alter_ne by done. rewrite <- Hel, Hp, elem_of_cons. naive_solver.
  - apply queue_alter; [done|apply (mo_dbus _ Hm)].
  - apply queue_alter; [done|apply (mo_gc _ Hm)].
Qed.

Lemma set_running_spec j jb st :
  at_rest st → few st → heap st !! j = Some jb → j_state jb = JOB_WAITING →
  ∃ st', job_set_state j JOB_RUNNING st = Some st' ∧ at_rest st' ∧ tweaks j (set_j_state JOB_RUNNING) st st' ∧
    run_queue (mgr st') = run_queue (mgr st).
Proof.
  intros Hr Hfew Hj Hs. pose proof (rest_installed st j jb Hr Hj) as Hi. pose proof (ar_ok _ Hr) as [Htr Hm].
  unfold job_set_state. rewrite Hj. cbn [mbind option_bind]. rewrite bool_decide_eq_false_2 by (rewrite Hs; done). rewrite Hi. cbn [negb].
  eexists. split; [done|].
  assert (Hu : u32 (n_running_jobs (mgr st) + 1) = n_running_jobs (mgr st) + 1).
  { unfold u32. apply Z.mod_small. rewrite (mo_running _ Hm). pose proof (count_running_le (heap st)). unfold few, PRIOQ_MAX in Hfew.
    unfold count_running in *. lia. }
  split_and!; [|done|done]. eapply (tweaks_rest j (set_j_state JOB_RUNNING) st); [done| |done].
  cbn [mgr alter_job set_heap]. 
  pose proof (update_keeping_queues (set_j_state JOB_RUNNING) j jb st (n_running_jobs (mgr st) + 1) (trace (mgr st))) as H.
  assert (Hrb : run_bit jb = 0) by (unfold run_bit, is_running; by rewrite Hs, andb_false_r).
  assert (Hok' := H (ar_ok _ Hr) Hj Hi). clear H.
  match goal with |- sys_ok ?s => replace s with (alter_job (set_j_state JOB_RUNNING) j
    (alter_mgr (λ m, set_trace (trace (mgr st)) (set_n_running_jobs (n_running_jobs (mgr st) + 1) m)) st)) end.
  - apply Hok'; [|done|].
    + split; try done. apply (mo_types _ Hm j jb Hj).
    + assert (run_bit (set_j_state JOB_RUNNING jb) = 1) by (unfold run_bit, is_running; cbn; by rewrite Hi). lia.
  - destruct st as [? ? ? ? ? []]. cbn in Hu. unfold alter_job, alter_mgr. cbn. by rewrite Hu.
Qed.

Lemma shrinks_to_rest st st' :
  ids_installed st → no_strays st → jobs st = ∅ → sys_ok st' → shrinks st st' → at_rest st'.
Proof.
  intros Hids Hstr He Hok Hsh. destruct (sh_tr _ _ Hsh) as (Hj & _). split; [done| | |congruence].
  - intros id i Hi. destruct (Hids id i (sh_back _ _ Hsh id i Hi)) as (ib & Hib & Hid & Hii).
    destruct (heap st' !! i) as [ib'|] eqn:Ei; [|by destruct (sh_gone _ _ Hsh i ib Hib Ei); rewrite Hid].
    destruct (sh_heap _ _ Hsh i ib' Ei) as (ib0 & ? & _ & ? & ? & _). exists ib'. split_and!; [done|congruence..].
  - intros k kb Hk. left. destruct (sh_heap _ _ Hsh k kb Hk) as (kb0 & Hk0 & _ & _ & -> & _).
    destruct (Hstr k kb0 Hk0) as [?|H]; [done|by destruct (rest_no_tr st k He)].
Qed.

Lemma shrinks_rest st st' : at_rest st → sys_ok st' → shrinks st st' → at_rest st'.
Proof. intros [_ ? ? ?]. by apply shrinks_to_rest. Qed.

(** ** How much is left to do *)

Definition count (P : Job → bool) (h : gmap positive Job) : nat := size (filter (λ kv, P kv.2 = true) h).

(** Whatever satisfies [P] afterwards did so before. *)
Definition subsumed (P : Job → bool) (h h' : gmap positive Job) : Prop :=
  ∀ k kb', h' !! k = Some kb' → P kb' = true → ∃ kb, h !! k = Some kb ∧ P kb = true.

Lemma count_le P h h' : subsumed P h h' → (count P h' <= count P h)%nat.
Proof.
  intros H. unfold count. rewrite <- !(size_dom (D := gset positive)). apply subseteq_size. intros k. rewrite !elem_of_dom.
  intros [kb [Hk HP]%map_lookup_filter_Some]. destruct (H k kb Hk HP) as (kb0 & ? & ?). exists kb0. by apply map_lookup_filter_Some.
Qed.

Lemma count_lt P h h' k kb :
  subsumed P h h' → h !! k = Some kb → P kb = true → (∀ kb', h' !! k = Some kb' → P kb' = false) → (count P h' < count P h)%nat.
Proof.
  intros H Hk HP Hno. unfold count. rewrite <- !(size_dom (D := gset positive)). apply subset_size. split.
  - intros i. rewrite !elem_of_dom. intros [ib [Hi Hib]%map_lookup_filter_Some]. destruct (H i ib Hi Hib) as (ib0 & ? & ?).
    exists ib0. by apply map_lookup_filter_Some.
  - intros Hsub. assert (Hin : k ∈ (dom (filter (λ kv, P kv.2 = true) h) : gset positive)) by (apply elem_of_dom; exists kb; by apply map_lookup_filter_Some).
    apply Hsub, elem_of_dom in Hin as [kb' [Hk' HP']%map_lookup_filter_Some]. cbn in HP'. rewrite (Hno kb' Hk') in HP'. done.
Qed.

Definition is_restart (jb : Job) : bool := bool_decide (j_type jb = JOB_RESTART).
Definition is_waiting (jb : Job) : bool := bool_decide (j_state jb = JOB_WAITING).

(** A job that starts loses its wait, one that ends everything, a restart that is done
    becomes a start. *)
Definition load st : nat :=
  2 * count (λ _, true) (heap st) + 2 * count is_restart (heap st) + count is_waiting (heap st).

(** No job has more to do. *)
Definition eases st st' : Prop := ∀ k kb', heap st' !! k = Some kb' → ∃ kb, heap st !! k = Some kb ∧
  j_type kb' = j_type kb ∧ (j_state kb' = JOB_WAITING → j_state kb = JOB_WAITING).

Lemma eases_trans st1 st2 st3 : eases st1 st2 → eases st2 st3 → eases st1 st3.
Proof.
  intros H1 H2 k kb3 Hk. destruct (H2 k kb3 Hk) as (kb2 & Hk2 & ? & ?). destruct (H1 k kb2 Hk2) as (kb1 & ? & ? & ?).
  exists kb1. split_and!; [done|congruence|auto].
Qed.

Lemma shrinks_eases st st' : shrinks st st' → eases st st'.
Proof.
  intros Hsh k kb' Hk. destruct (sh_heap _ _ Hsh k kb' Hk) as (kb & Hk0 & _ & _ & _ & Ht & _ & Hs). exists kb.
  split_and!; [done|done|congruence].
Qed.

Lemma tweaks_eases j f st st' :
  tweaks j f st st' → (∀ jb, heap st !! j = Some jb → j_state (f jb) = JOB_WAITING → j_state jb = JOB_WAITING) → eases st st'.
Proof.
  intros [Hh Hf _ _] Hs k kb' Hk. rewrite Hh in Hk. destruct (decide (k = j)) as [->|Hne].
  - rewrite lookup_alter_eq in Hk. destruct (heap st !! j) as [jb|]; [|done]. injection Hk as <-. exists jb.
    destruct (Hf jb) as (_ & _ & ? & _). auto.
  - rewrite lookup_alter_ne in Hk by done. eauto.
Qed.

Lemma eases_subsumed st st' :
  eases st st' → subsumed (λ _, true) (heap st) (heap st') ∧ subsumed is_restart (heap st) (heap st') ∧
    subsumed is_waiting (heap st) (heap st').
Proof.
  intros H. split_and!; intros k kb' Hk HP; destruct (H k kb' Hk) as (kb & Hk0 & Ht & Hs); exists kb; (split; [done|]).
  - done.
  - revert HP. unfold is_restart. by rewrite Ht.
  - revert HP. unfold is_waiting. rewrite !bool_decide_eq_true. done.
Qed.

Lemma eases_load st st' : eases st st' → (load st' <= load st)%nat.
Proof. intros (H1%count_le & H2%count_le & H3%count_le)%eases_subsumed. unfold load. lia. Qed.

Lemma eases_load_lt st st' j jb :
  eases st st' → heap st !! j = Some jb → j_state jb = JOB_WAITING → (∀ jb', heap st' !! j = Some jb' → j_state jb' ≠ JOB_WAITING) →
  (load st' < load st)%nat.
Proof.
  intros (H1%count_le & H2%count_le & H3)%eases_subsumed Hj Hs Hno. unfold load.
  enough (count is_waiting (heap st') < count is_waiting (heap st))%nat by lia. apply (count_lt _ _ _ j jb H3 Hj).
  - by apply bool_decide_eq_true.
  - intros jb' Hj'. apply bool_decide_eq_false. by apply Hno.
Qed.

Lemma eases_load_gone st st' j jb : eases st st' → heap st !! j = Some jb → heap st' !! j = None → (load st' < load st)%nat.
Proof.
  intros (H1 & H2%count_le & H3%count_le)%eases_subsumed Hj Hno. unfold load.
  enough (count (λ _, true) (heap st') < count (λ _, true) (heap st))%nat by lia.
  apply (count_lt _ _ _ j jb H1 Hj); [done|]. intros ?. by rewrite Hno.
Qed.

(** ** Ending a job *)

Lemma restart_load j jb jbw st stw :
  heap st !! j = Some jb → j_type jb = JOB_RESTART → heap stw !! j = Some jbw → j_type jbw = JOB_START →
  (∀ k, k ≠ j → heap stw !! k = heap st !! k) → (load stw < load st)%nat.
Proof.
  intros Hj Ht Hw Htw Hk. unfold load.
  assert (count (λ _, true) (heap stw) <= count (λ _, true) (heap st))%nat.
  { apply count_le. intros k kb Hkb _. destruct (decide (k = j)) as [->|?]; [eauto|]. rewrite Hk in Hkb by done. eauto. }
  assert (count is_restart (heap stw) < count is_restart (heap st))%nat.
  { apply (count_lt _ _ _ j jb); [|done|by apply bool_decide_eq_true|].
    - intros k kb Hkb HP. destruct (decide (k = j)) as [->|?]; [|rewrite Hk in Hkb by done; eauto].
      assert (kb = jbw) as -> by congruence. unfold is_restart in HP. rewrite Htw in HP. done.
    - intros jb' Hj'. assert (jb' = jbw) as -> by congruence. apply bool_decide_eq_false. by rewrite Htw. }
  enough (count is_waiting (heap stw) <= S (count is_waiting (heap st)))%nat by lia.
  unfold count. rewrite <- !(size_dom (D := gset positive)).
  transitivity (size ({[j]} ∪ dom (filter (λ kv, is_waiting kv.2 = true) (heap st)) : gset positive)).
  - apply subseteq_size. intros k. rewrite elem_of_union, elem_of_singleton, !elem_of_dom.
    intros [kb [Hkb HP]%map_lookup_filter_Some]. destruct (decide (k = j)) as [->|?]; [by left|right]. rewrite Hk in Hkb by done.
    exists kb. by apply map_lookup_filter_Some.
  - rewrite size_union_alt, size_singleton. apply le_n_S, subseteq_size. set_solver.
Qed.

Lemma finish_rest E j jb result recursive st :
  at_rest st → few st → heap st !! j = Some jb →
  ∃ st', job_finish_and_invalidate j result recursive st = Some st' ∧ at_rest st' ∧ few st' ∧
    (size (heap st') <= size (heap st))%nat ∧ (load st' < load st)%nat.
Proof.
  intros Hr Hfew Hj. pose proof (rest_installed st j jb Hr Hj) as Hi.
  destruct (decide (result = JOB_DONE ∧ j_type jb = JOB_RESTART)) as [[-> Ht]|Hn].
  - destruct (finish_restart_spec j jb recursive st (ar_ok _ Hr) Hfew Hj Hi Ht)
      as (stw & jbw & st' & H & Hok' & Hjw & Hiw & Htw & Hsw & Huw & Hdw & Hkw & Hjo & Hmj & Hsh & _ & _).
    assert (Hszw : (size (heap stw) <= size (heap st))%nat).
    { rewrite <- !(size_dom (D := gset positive)). apply subseteq_size. intros k. rewrite !elem_of_dom.
      destruct (decide (k = j)) as [->|Hne]; [eauto|by rewrite Hkw]. }
    assert (Hr' : at_rest st').
    { apply (shrinks_to_rest stw); [| |rewrite Hjo; apply Hr|done..].
      - intros id i Hid. rewrite Hmj in Hid. destruct (ar_ids _ Hr id i Hid) as (ib & Hib & ? & ?).
        destruct (decide (i = j)) as [->|Hne]; [exists jbw; split_and!; congruence|]. rewrite Hkw by done. eauto.
      - intros k kb Hk. left. destruct (decide (k = j)) as [->|Hne]; [congruence|]. rewrite Hkw in Hk by done. by apply (rest_installed st k). }
    exists st'. split_and!; [done|done|..].
    + apply (shrinks_few stw); [done|]. unfold few in *. lia.
    + pose proof (shrinks_size stw st' Hsh). lia.
    + pose proof (restart_load j jb jbw st stw Hj Ht Hjw Htw Hkw). pose proof (eases_load _ _ (shrinks_eases _ _ Hsh)). lia.
  - destruct (job_finish_spec j jb result recursive st (ar_ok _ Hr) Hfew Hj Hi Hn) as (st' & H & [(st1 & Hh1 & Hok1 & Hsh1 & Hc & _) _]).
    pose proof (shrinks_trans _ _ _ Hsh1 (ca_shrinks _ _ _ Hc)) as Hsh. exists st'. split_and!; [done|..].
    + apply (shrinks_rest st); [done|apply (ca_ok _ _ _ Hc)|done].
    + by apply (shrinks_few st).
    + by apply shrinks_size.
    + apply (eases_load_gone st st' j jb); [by apply shrinks_eases|done|].
      destruct (heap st' !! j) as [jb'|] eqn:Ej; [|done]. destruct (sh_heap _ _ (ca_shrinks _ _ _ Hc) j jb' Ej) as (x & Hx & _).
      rewrite Hh1, lookup_delete_eq in Hx. done.
Qed.

(** ** Running one job *)

(** What the operations of the unit types may do with the jobs: anything that leaves them
    well-formed. *)
Definition op_ok (f : positive → World → Z * World) : Prop := ∀ u w,
  at_rest (snd w) → few (snd w) → at_rest (snd (snd (f u w))) ∧ few (snd (snd (f u w))).

Definition ops_ok : Prop := op_ok unit_start ∧ op_ok unit_stop ∧ op_ok unit_reload.

(** Operations that leave the jobs alone, like those of a service that takes its time. *)
Definition op_quiet (f : positive → World → Z * World) : Prop := ∀ u w, snd (snd (f u w)) = snd w.

Definition ops_quiet : Prop := op_quiet unit_start ∧ op_quiet unit_stop ∧ op_quiet unit_reload.

Lemma ops_quiet_ok : ops_quiet → ops_ok.
Proof. intros (H1 & H2 & H3). split_and!; intros u w; [rewrite H1|rewrite H2|rewrite H3]; done. Qed.

(** An installed job that [j] has to wait for. *)
Definition waits_on E st j o : Prop :=
  ∃ jb ob d v, heap st !! j = Some jb ∧ heap st !! o = Some ob ∧ d ∈ [UNIT_ATOM_AFTER; UNIT_ATOM_BEFORE] ∧
    v ∈ unit_dependencies (j_unit jb) d ∧ installed_job st v = Some o ∧ j_ignore_order jb = false ∧ j_type jb ≠ JOB_NOP ∧
    ∃ c, job_compare (j_type jb, j_ignore_order jb) (j_type ob, j_ignore_order ob) d = Some c ∧ 0 < c.

Lemma blocks_iff E j jb d st :
  sys_ok st → heap st !! j = Some jb → d = UNIT_ATOM_BEFORE ∨ d = UNIT_ATOM_AFTER →
  ∃ b, blocks (λ c, 0 <? c) j jb d st = Some b ∧
    (b = true ↔ ∃ v o ob c, v ∈ unit_dependencies (j_unit jb) d ∧ installed_job st v = Some o ∧ heap st !! o = Some ob ∧
       job_compare (j_type jb, j_ignore_order jb) (j_type ob, j_ignore_order ob) d = Some c ∧ 0 < c).
Proof.
  intros Hok Hj Hd. destruct (blocks_defined (λ c, 0 <? c) j jb d st Hok Hj Hd) as [b Hb]. exists b. split; [done|].
  revert Hb. unfold blocks. destruct (find_first _ _) as [r|] eqn:Ef; [|done]. cbn [mbind option_bind]. intros [= <-].
  rewrite bool_decide_eq_true. split.
  - intros [v ->]. apply find_first_Some in Ef as [Hv Ht]. destruct (installed_job st v) as [o|] eqn:Eo; [|done].
    destruct (heap st !! o) as [ob|] eqn:Eob; [|done]. cbn [mbind option_bind] in Ht.
    destruct (job_compare _ _ d) as [c|] eqn:Ec; [|done]. cbn [mbind option_bind] in Ht. injection Ht as Ht%Z.ltb_lt.
    exists v, o, ob, c. done.
  - intros (v & o & ob & c & Hv & Ho & Hob & Hc & Hlt). destruct r as [x|]; [eauto|]. exfalso.
    pose proof (proj1 (find_first_None _ _) Ef v Hv) as Hx. cbv beta in Hx. rewrite Ho, Hob in Hx. cbn [mbind option_bind] in Hx.
    rewrite Hc in Hx. cbn [mbind option_bind] in Hx. injection Hx as Hx%Z.ltb_ge. lia.
Qed.

Lemma runnable_iff E j jb st :
  sys_ok st → heap st !! j = Some jb → j_installed jb = true →
  job_is_runnable j st = Some true ∧ (∀ o, ¬ waits_on E st j o) ∨ job_is_runnable j st = Some false ∧ ∃ o, waits_on E st j o.
Proof.
  intros Hok Hj Hi. unfold job_is_runnable. rewrite Hj. cbn [mbind option_bind]. rewrite assert_bind by done.
  destruct (j_ignore_order jb) eqn:Eio.
  { left. split; [done|]. intros o (jb' & ? & ? & ? & ? & _ & _ & _ & _ & Hx & _). congruence. }
  case_bool_decide as Hnop.
  { left. split; [done|]. intros o (jb' & ? & ? & ? & ? & _ & _ & _ & _ & _ & Hx & _). congruence. }
  destruct (blocks_iff E j jb UNIT_ATOM_AFTER st Hok Hj) as (a & -> & Ha); [by right|]. cbn [mbind option_bind].
  destruct (blocks_iff E j jb UNIT_ATOM_BEFORE st Hok Hj) as (b & Hb0 & Hb); [by left|]. destruct a.
  - right. split; [done|]. destruct (proj1 Ha eq_refl) as (v & o & ob & c & Hv & Ho & Hob & Hc & Hlt). exists o, jb, ob, UNIT_ATOM_AFTER, v.
    split_and!; [done|done|apply list_elem_of_here|done..|eauto].
  - rewrite Hb0. cbn [mbind option_bind]. destruct b; cbn [negb]; [right|left]; (split; [done|]).
    + destruct (proj1 Hb eq_refl) as (v & o & ob & c & Hv & Ho & Hob & Hc & Hlt). exists o, jb, ob, UNIT_ATOM_BEFORE, v.
      split_and!; [done|done|apply list_elem_of_further, list_elem_of_here|done..|eauto].
    + intros o (jb' & ob & d & v & Hj' & Hob & Hd & Hv & Ho & _ & _ & c & Hc & Hlt). assert (jb' = jb) as -> by congruence.
      assert (Hx : ∃ v o ob c, v ∈ unit_dependencies (j_unit jb) d ∧ installed_job st v = Some o ∧ heap st !! o = Some ob ∧
        job_compare (j_type jb, j_ignore_order jb) (j_type ob, j_ignore_order ob) d = Some c ∧ 0 < c) by (exists v, o, ob, c; done).
      apply elem_of_cons in Hd as [->|Hd]; [by apply Ha in Hx|]. apply list_elem_of_singleton in Hd as ->. by apply Hb in Hx.
Qed.

(** Leaving the run queue changes nothing in that. *)
Lemma waits_on_dequeue E j q st i o : waits_on E (dequeue j q st) i o ↔ waits_on E st i o.
Proof.
  assert (Hh : ∀ k, heap (dequeue j q st) !! k = if decide (k = j) then set_j_in_run_queue false <$> heap st !! k else heap st !! k).
  { intros k. unfold dequeue. rewrite heap_alter_job. case_decide; by subst. }
  unfold waits_on. split.
  - intros (ib & ob & d & v & Hi & Ho & ?). rewrite Hh in Hi, Ho.
    destruct (decide (i = j)), (decide (o = j)); destruct (heap st !! i), (heap st !! o); cbn in Hi, Ho; try done;
      injection Hi as <-; injection Ho as <-; eexists _, _, d, v; done.
  - intros (ib & ob & d & v & Hi & Ho & ?). rewrite !Hh, Hi, Ho.
    destruct (decide (i = j)), (decide (o = j)); cbn; eexists _, _, d, v; done.
Qed.

(** From the run queue to the running state. *)
Lemma start_spec j jb st :
  at_rest st → few st → heap st !! j = Some jb → j_state jb = JOB_WAITING →
  ∃ st1 st2 jb2, job_set_state j JOB_RUNNING st = Some st1 ∧ job_add_to_dbus_queue j st1 = Some st2 ∧ at_rest st2 ∧ few st2 ∧
    eases st st2 ∧ heap st2 !! j = Some jb2 ∧ j_state jb2 = JOB_RUNNING ∧ j_type jb2 = j_type jb ∧ j_id jb2 = j_id jb ∧
    (size (heap st2) <= size (heap st))%nat ∧ run_queue (mgr st2) = run_queue (mgr st).
Proof.
  intros Hr Hfew Hj Hs. destruct (set_running_spec j jb st Hr Hfew Hj Hs) as (st1 & H1 & Hr1 & Htw & Hq1).
  pose proof (tweaks_lookup _ _ _ _ _ Htw Hj) as Hj1. pose proof (tweaks_few _ _ _ _ Htw Hfew) as Hfew1.
  destruct (add_to_dbus_queue_spec j _ st1 (ar_ok _ Hr1) Hj1 (rest_installed st1 j _ Hr1 Hj1)) as (st2 & H2 & Hok2 & Hsh).
  destruct (proj1 (add_to_dbus_queue_keeps j st1 st2 H2) j) as [jb2 Hj2]; [eauto|].
  destruct (sh_heap _ _ Hsh j jb2 Hj2) as (jb1 & Hjb1 & _ & Hid & _ & Hty & _ & Hst). assert (jb1 = set_j_state JOB_RUNNING jb) as -> by congruence.
  exists st1, st2, jb2. split_and!; [done|done|by apply (shrinks_rest st1)|by apply (shrinks_few st1)| |done|done|done|done| |].
  - eapply eases_trans, shrinks_eases, Hsh. apply (tweaks_eases j _ st st1 Htw). intros jb' Hj' _. congruence.
  - pose proof (shrinks_size _ _ Hsh). replace (size (heap st1)) with (size (heap st)) in *; [done|].
    rewrite (tw_heap _ _ _ _ Htw), <- !(size_dom (D := gset positive)), dom_alter_L. done.
  - rewrite <- Hq1. revert H2. unfold job_add_to_dbus_queue. rewrite Hj1. cbn [mbind option_bind].
    unfold assert_. destruct (j_installed _); [|done]. cbn [mbind option_bind]. destruct (j_in_dbus_queue _); by intros [= <-].
Qed.

(** And back. *)
Lemma wait_again j jb st :
  at_rest st → heap st !! j = Some jb →
  ∃ st', job_set_state j JOB_WAITING st = Some st' ∧ at_rest st' ∧ tweaks j (set_j_state JOB_WAITING) st st' ∧
    run_queue (mgr st') = run_queue (mgr st).
Proof.
  intros Hr Hj. pose proof (rest_installed st j jb Hr Hj) as Hi. pose proof (ar_ok _ Hr) as [_ Hm].
  destruct (set_waiting_spec j jb st Hm Hj Hi) as [tr ->]. eexists. split; [done|]. split_and!; [|done|done].
  eapply (tweaks_rest j (set_j_state JOB_WAITING) st); [done| |done].
  apply (update_keeping_queues (set_j_state JOB_WAITING) j jb st (n_running_jobs (mgr st) - run_bit jb)); try done; [apply Hr| |].
  - split; try done. apply (mo_types _ Hm j jb Hj).
  - assert (run_bit (set_j_state JOB_WAITING jb) = 0) by (unfold run_bit, is_running; cbn; by rewrite andb_false_r). lia.
Qed.

Lemma settle_spec oj r w :
  at_rest (snd w) → few (snd w) → (∀ j, oj = Some j → is_Some (heap (snd w) !! j)) →
  ∃ r' w', settle oj r w = Some (r', w') ∧ at_rest (snd w') ∧ few (snd w') ∧ (size (heap (snd w')) <= size (heap (snd w)))%nat ∧
    (snd w' = snd w ∨ (load (snd w') < load (snd w))%nat ∨
     ∃ j, oj = Some j ∧ tweaks j (set_j_state JOB_WAITING) (snd w) (snd w') ∧ run_queue (mgr (snd w')) = run_queue (mgr (snd w))).
Proof.
  destruct w as [E st]. cbn [snd]. intros Hr Hfew Hoj. unfold settle. destruct oj as [j|]; [|eexists _, (E, st); split_and!; try done; by left].
  destruct (Hoj j eq_refl) as [jb Hj]. destruct (r =? -EAGAIN).
  { destruct (wait_again j jb st Hr Hj) as (st' & -> & Hr' & Htw & Hq). cbn [mbind option_bind].
    eexists _, (E, st'). split_and!; [done|done|by apply (tweaks_few _ _ _ _ Htw)| |]; cbn [snd].
    - rewrite (tw_heap _ _ _ _ Htw), <- !(size_dom (D := gset positive)), dom_alter_L. done.
    - right. right. eauto. }
  destruct (result_of r) as [result|]; [|eexists _, (E, st); split_and!; try done; by left].
  destruct (finish_rest E j jb result true st Hr Hfew Hj) as (st' & -> & Hr' & Hfew' & Hsz & Hld). cbn [mbind option_bind].
  eexists _, (E, st'). split_and!; [done..|]. right. by left.
Qed.

Lemma perform_spec j jb w :
  ops_ok → at_rest (snd w) → few (snd w) → heap (snd w) !! j = Some jb → j_type jb ∈ [JOB_START; JOB_STOP; JOB_RESTART; JOB_RELOAD] →
  ∃ r oj w', job_perform_on_unit j w = Some (r, oj, w') ∧ at_rest (snd w') ∧ few (snd w') ∧
    (∀ i, oj = Some i → is_Some (heap (snd w') !! i)) ∧ (ops_quiet → snd w' = snd w ∧ oj = Some j).
Proof.
  intros (Hst & Hsp & Hrl) Hr Hfew Hj Ht. unfold job_perform_on_unit. rewrite Hj. cbn [mbind option_bind].
  assert (H : ∃ r b f, call_unit (j_type jb) (j_unit jb) w = Some (r, b, snd (f (j_unit jb) w)) ∧ op_ok f ∧ (ops_quiet → op_quiet f)).
  { repeat (apply elem_of_cons in Ht as [->|Ht]); [..|by apply elem_of_nil in Ht].
    - exists (fst (unit_start (j_unit jb) w)), (fst (unit_start (j_unit jb) w) =? -EBADR), unit_start. split_and!; [cbn; by destruct (unit_start (j_unit jb) w)|done|by intros []].
    - exists (fst (unit_stop (j_unit jb) w)), (fst (unit_stop (j_unit jb) w) =? -EBADR), unit_stop. split_and!; [cbn; by destruct (unit_stop (j_unit jb) w)|done|by intros (_ & ? & _)].
    - exists (fst (unit_stop (j_unit jb) w)), (fst (unit_stop (j_unit jb) w) =? -EBADR), unit_stop. split_and!; [cbn; by destruct (unit_stop (j_unit jb) w)|done|by intros (_ & ? & _)].
    - exists (fst (unit_reload (j_unit jb) w)), (false), unit_reload. split_and!; [cbn; by destruct (unit_reload (j_unit jb) w)|done|by intros (_ & _ & ?)]. }
  destruct H as (r & b & f & -> & Hf & Hq). cbn [mbind option_bind]. destruct (Hf (j_unit jb) w Hr Hfew) as [Hr' Hfew'].
  eexists _, _, _. split_and!; [done|done|done| |].
  - intros i Hi. destruct (ar_ids _ Hr' _ i Hi) as (ib & ? & _). eauto.
  - intros Hqq. rewrite (Hq Hqq). split; [done|]. apply (mo_id _ (proj2 (ar_ok _ Hr)) j jb Hj). by apply (rest_installed (snd w) j).
Qed.

(** The queue is shorter, or there is less to do. *)
Definition progresses st st' : Prop :=
  (size (heap st') <= size (heap st))%nat ∧
  ((load st' < load st)%nat ∨ (load st' <= load st)%nat ∧ (length (rq_jobs (run_queue (mgr st'))) < length (rq_jobs (run_queue (mgr st))))%nat).

Lemma dequeue_progresses j q st :
  rq_jobs (run_queue (mgr st)) ≡ₚ j :: rq_jobs q → tweaks j (set_j_in_run_queue false) st (dequeue j q st) → progresses st (dequeue j q st).
Proof.
  intros Hp Htw. split.
  - rewrite (tw_heap _ _ _ _ Htw), <- !(size_dom (D := gset positive)), dom_alter_L. done.
  - right. split; [apply eases_load, (tweaks_eases _ _ _ _ Htw); done|]. rewrite Hp. cbn. lia.
Qed.

Lemma settled_progresses j jb q st st2 oj w w' :
  heap st !! j = Some jb → j_state jb = JOB_WAITING → tweaks j (set_j_in_run_queue false) st (dequeue j q st) →
  rq_jobs (run_queue (mgr st)) ≡ₚ j :: rq_jobs q → eases (dequeue j q st) st2 →
  (∀ jb', heap st2 !! j = Some jb' → j_state jb' ≠ JOB_WAITING) → is_Some (heap st2 !! j) → snd w = st2 → oj = Some j →
  (size (heap st2) <= size (heap (dequeue j q st)))%nat → run_queue (mgr st2) = q →
  (size (heap (snd w')) <= size (heap (snd w)))%nat →
  (snd w' = snd w ∨ (load (snd w') < load (snd w))%nat ∨
   ∃ i, oj = Some i ∧ tweaks i (set_j_state JOB_WAITING) (snd w) (snd w') ∧ run_queue (mgr (snd w')) = run_queue (mgr (snd w))) →
  progresses st (snd w').
Proof.
  intros Hj Hs Htw Hp He2 Hrun [jb2 Hj2] -> -> Hsz Hq Hsz' Hcase. destruct (dequeue_progresses j q st Hp Htw) as [Hszq Hld].
  assert (He : eases st st2) by (eapply eases_trans, He2; apply (tweaks_eases _ _ _ _ Htw); done).
  split; [lia|]. pose proof (eases_load_lt st st2 j jb He Hj Hs Hrun) as Hlt.
  destruct Hcase as [->|[?|(i & [= <-] & Htw' & Hq')]]; [left; lia..|]. right. split.
  - apply eases_load. intros k kb' Hk. rewrite (tw_heap _ _ _ _ Htw') in Hk. destruct (decide (k = j)) as [->|Hne].
    + rewrite lookup_alter_eq, Hj2 in Hk. injection Hk as <-. exists jb. split_and!; [done| |done].
      destruct (He j jb2 Hj2) as (jb0 & ? & Hty & _). cbn. congruence.
    + rewrite lookup_alter_ne in Hk by done. by apply He.
  - rewrite Hq', Hq, Hp. cbn. lia.
Qed.

Lemma run_spec E j jb st :
  ops_ok → at_rest st → few st → heap st !! j = Some jb → j_in_run_queue jb = true →
  ∃ r w', job_run_and_invalidate j (E, st) = Some (r, w') ∧ at_rest (snd w') ∧ few (snd w') ∧ (ops_quiet → progresses st (snd w')).
Proof.
  intros Hops Hr Hfew Hj Hinq. pose proof (rest_installed st j jb Hr Hj) as Hi. pose proof (ar_ok _ Hr) as [_ Hm].
  unfold job_run_and_invalidate. rewrite Hj. cbn [mbind option_bind]. rewrite !assert_bind by (done || by apply Z.ltb_lt, (mo_types _ Hm j jb Hj)).
  destruct (dequeue_spec j jb st Hr Hj Hinq) as (q & -> & Hp & Hrd & Htw). cbn [mbind option_bind]. fold (dequeue j q st).
  pose proof (dequeue_progresses j q st Hp Htw) as Hprog. pose proof (tweaks_few _ _ _ _ Htw Hfew) as Hfewd.
  pose proof (tweaks_lookup _ _ _ _ _ Htw Hj) as Hjd.
  case_bool_decide as Hs; [by eexists _, (E, dequeue j q st)|].
  destruct (runnable_iff E j _ (dequeue j q st) (ar_ok _ Hrd) Hjd) as [[-> _]|[-> _]]; [by apply (rest_installed (dequeue j q st) j)| |];
    cbn [mbind option_bind negb]; [|by eexists _, (E, dequeue j q st)].
  destruct (start_spec j _ (dequeue j q st) Hrd Hfewd Hjd Hs) as (st1 & st2 & jb2 & -> & H2 & Hr2 & Hfew2 & He2 & Hj2 & Hs2 & Ht2 & Hid2 & Hsz2 & Hq2).
  cbn [mbind option_bind]. rewrite H2. cbn [mbind option_bind].
  assert (Hperf : ∃ r oj w, carry_out j jb (E, st2) = Some (r, oj, w) ∧ at_rest (snd w) ∧ few (snd w) ∧ (∀ i, oj = Some i → is_Some (heap (snd w) !! i)) ∧
      (ops_quiet → snd w = st2 ∧ oj = Some j)).
  { unfold carry_out. cbn in Ht2. pose proof (perform_spec j jb2 (E, st2) Hops Hr2 Hfew2 Hj2) as Hpf. rewrite Ht2 in Hpf.
    pose proof (mo_types _ Hm j jb Hj) as Htt. destruct (j_type jb); try done;
      try (destruct Hpf as (r & oj & w & -> & ?); [by_decide|by exists r, oj, w]).
    - eexists _, _, (E, st2). split_and!; [done..|intros i [= <-]; eauto|done].
    - eexists _, _, (E, st2). split_and!; [done..|intros i [= <-]; eauto|done]. }
  destruct Hperf as (r & oj & [E' w] & -> & Hrw & Hfeww & Hoj & Hquiet). cbn [mbind option_bind].
  destruct (settle_spec oj r (E', w) Hrw Hfeww Hoj) as (r' & w' & -> & Hr' & Hfew' & Hsz' & Hcase).
  exists r', w'. split_and!; [done..|]. intros Hqt. destruct (Hquiet Hqt) as [Hw ->].
  apply (settled_progresses j jb q st st2 (Some j) (E', w) w'); try done; eauto.
  intros jb' Hj'. assert (jb' = jb2) as -> by congruence. by rewrite Hs2.
Qed.

(** ** Emptying the queue *)

Lemma dispatch_step w j :
  at_rest (snd w) → rq_peek (run_queue (mgr (snd w))) = Some j →
  ∃ jb, heap (snd w) !! j = Some jb ∧ j_installed jb = true ∧ j_in_run_queue jb = true.
Proof.
  intros Hr Hp. pose proof (ar_ok _ Hr) as [_ Hm]. apply rq_peek_ok in Hp; [|apply (mo_rq _ Hm)].
  apply (mo_run _ Hm) in Hp as (jb & Hj & Hq). exists jb. split_and!; [done|by apply (rest_installed (snd w) j)|done].
Qed.

Lemma queue_le st : sys_ok st → (length (rq_jobs (run_queue (mgr st))) <= size (heap st))%nat.
Proof.
  intros [_ Hm]. destruct (mo_run _ Hm) as [Hnd Hq].
  rewrite <- (size_dom (D := gset positive)), <- (size_list_to_set (C := gset positive)) by done.
  apply subseteq_size. intros i Hin%elem_of_list_to_set. apply Hq in Hin as (ib & ? & _). apply elem_of_dom. eauto.
Qed.

(** Enough rounds for any queue. *)
Definition dispatch_fuel st : nat := load st * S (size (heap st)) + length (rq_jobs (run_queue (mgr st))).

Lemma dispatch_quiet N n w :
  ops_quiet → at_rest (snd w) → few (snd w) → (size (heap (snd w)) <= N)%nat →
  (load (snd w) * S N + length (rq_jobs (run_queue (mgr (snd w)))) <= n)%nat →
  ∃ w', dispatch n w = Some w' ∧ at_rest (snd w') ∧ rq_jobs (run_queue (mgr (snd w'))) = [].
Proof.
  intros Hq. revert w. induction n as [|n IH]; intros w Hr Hfew Hsz Hn; cbn [dispatch].
  - destruct (rq_peek (run_queue (mgr (snd w)))) as [j|] eqn:Ep.
    + apply rq_peek_ok in Ep; [|apply (mo_rq _ (proj2 (ar_ok _ Hr)))]. destruct (rq_jobs _); [by apply elem_of_nil in Ep|cbn in Hn; lia].
    + exists w. split_and!; [done..|]. apply rq_peek_none; [apply (mo_rq _ (proj2 (ar_ok _ Hr)))|done].
  - destruct (rq_peek (run_queue (mgr (snd w)))) as [j|] eqn:Ep.
    2: { exists w. split_and!; [done..|]. apply rq_peek_none; [apply (mo_rq _ (proj2 (ar_ok _ Hr)))|done]. }
    destruct (dispatch_step w j Hr Ep) as (jb & -> & Hi & Hinq). cbn [mbind option_bind]. rewrite !assert_bind by done.
    destruct w as [E st]. cbn [snd] in *. destruct (dispatch_step (E, st) j Hr Ep) as (jb' & Hj & _ & Hinq').
    destruct (run_spec E j jb' st (ops_quiet_ok Hq) Hr Hfew Hj Hinq') as (r & w' & -> & Hr' & Hfew' & Hpr). cbn [mbind option_bind].
    destruct (Hpr Hq) as [Hsz' Hld]. apply IH; [done..|lia|]. pose proof (queue_le (snd w') (ar_ok _ Hr')).
    destruct Hld as [Hld|[Hld Hlen]]; nia.
Qed.

(** ** A history of the manager *)

(** Requests, jobs that run, jobs that end, and units that change at any time. A request
    needs a known unit and room in the queue. *)
Inductive step : World → World → Prop :=
  | step_request E st type u mode r st' ret :
      deps_closed → u ∈ units → room st → manager_add_job type u mode st = Some (r, st', ret) → step (E, st) (E, st')
  | step_run E st j jb r w' :
      heap st !! j = Some jb → j_in_run_queue jb = true → few st → job_run_and_invalidate j (E, st) = Some (r, w') → step (E, st) w'
  | step_finish E st j jb result recursive st' :
      heap st !! j = Some jb → few st → job_finish_and_invalidate j result recursive st = Some st' → step (E, st) (E, st')
  | step_units E E' st : step (E, st) (E', st).

Lemma step_rest w w' : ops_ok → step w w' → at_rest (snd w) → at_rest (snd w').
Proof.
  intros Hops [E st type u mode r st' ret Hcl Hu Hroom H|E st j jb r w1 Hj Hq Hfew H|E st j jb result recursive st' Hj Hfew H|E E' st] Hr;
    cbn [snd] in *.
  - destruct (manager_add_job_spec Hcl type u mode st Hu Hr Hroom) as (? & ? & ? & H' & ? & _). congruence.
  - destruct (run_spec E j jb st Hops Hr Hfew Hj Hq) as (? & ? & H' & ? & _). congruence.
  - destruct (finish_rest E j jb result recursive st Hr Hfew Hj) as (? & H' & ? & _). congruence.
  - done.
Qed.

(** ** Properties *)

(** C4: a job does not run while a job it is ordered after is installed:
    [job_run_and_invalidate] then takes it from the run queue, returns -EAGAIN and does
    nothing else. *)
Theorem run_holds_back (E : Env) (st : State) (j o : positive) (jb : Job) :
  at_rest st → heap st !! j = Some jb → j_in_run_queue jb = true → j_state jb = JOB_WAITING → waits_on E st j o →
  ∃ st', job_run_and_invalidate j (E, st) = Some (-EAGAIN, (E, st')) ∧ at_rest st' ∧
    heap st' = alter (set_j_in_run_queue false) j (heap st) ∧ rq_jobs (run_queue (mgr st)) ≡ₚ j :: rq_jobs (run_queue (mgr st')).
Proof.
  intros Hr Hj Hinq Hs Hw. pose proof (rest_installed st j jb Hr Hj) as Hi. pose proof (ar_ok _ Hr) as [_ Hm].
  unfold job_run_and_invalidate. rewrite Hj. cbn [mbind option_bind]. rewrite !assert_bind by (done || by apply Z.ltb_lt, (mo_types _ Hm j jb Hj)).
  destruct (dequeue_spec j jb st Hr Hj Hinq) as (q & -> & Hp & Hrd & Htw). cbn [mbind option_bind]. fold (dequeue j q st).
  pose proof (tweaks_lookup _ _ _ _ _ Htw Hj) as Hjd. rewrite bool_decide_eq_false_2 by (intros Hx; by apply Hx).
  destruct (runnable_iff E j _ (dequeue j q st) (ar_ok _ Hrd) Hjd) as [[_ Hno]|[-> _]]; [by apply (rest_installed (dequeue j q st) j)| |].
  - destruct (Hno o). by apply waits_on_dequeue.
  - exists (dequeue j q st). split_and!; [done|done|apply Htw|done].
Qed.

(** C26: no deadlock. If the order of the installed jobs has no cycle, one of them can run. *)
Theorem some_job_is_runnable (E : Env) (st : State) :
  at_rest st → heap st ≠ ∅ → (∀ k, ¬ tc (waits_on E st) k k) →
  ∃ j, is_Some (heap st !! j) ∧ job_is_runnable j st = Some true.
Proof.
  intros Hr Hne Hirr. destruct (map_choose (heap st) Hne) as (x & xb & Hx).
  assert (Hsn : sn (waits_on E st) x).
  { apply tc_finite_sn; [done|]. exists (elements (dom (heap st))). intros y Hy. apply elem_of_elements, elem_of_dom.
    apply tc_last in Hy as (z & ? & ob & ? & ? & _ & Ho & _). eauto. }
  revert xb Hx. induction Hsn as [x _ IH]. intros xb Hx.
  destruct (runnable_iff E x xb st (ar_ok _ Hr) Hx (rest_installed st x xb Hr Hx)) as [[? _]|[_ [o Ho]]]; [eauto|].
  pose proof Ho as (? & ob & ? & ? & _ & Hob & _). by apply (IH o Ho ob).
Qed.

(** C34: [manager_dispatch_run_queue] empties the queue and returns, if the operations on
    units leave the jobs alone: a job that runs is done with, waits for its unit or for
    another job, and a restart comes back once, as a start. *)
Theorem dispatch_terminates (E : Env) (st : State) :
  ops_quiet → at_rest st → few st →
  ∃ w', dispatch (dispatch_fuel st) (E, st) = Some w' ∧ at_rest (snd w') ∧ rq_jobs (run_queue (mgr (snd w'))) = [].
Proof. intros Hq Hr Hfew. by apply (dispatch_quiet (size (heap st))). Qed.

(** C3: in every history of requests, running and ending jobs, whatever the units do in
    between, the invariant of the jobs holds: at most one job and one NOP job per unit,
    every job found by its id, the queues and the number of running jobs exact, and no
    transaction left over. *)
Theorem history_keeps_invariant (w w' : World) :
  ops_ok → at_rest (snd w) → rtc step w w' → at_rest (snd w').
Proof. intros Hops Hr Hrtc. induction Hrtc as [|w1 w2 w3 H12 H23 IH]; [done|]. apply IH. by apply (step_rest w1). Qed.

End JobRun.

(** ** Unit 1 is started; it requires unit 2 and is ordered after it

    Units are slow: an operation returns 1 and leaves the rest to later. *)

Definition run_env : Env :=
  ex_env (ex_deps [(1, UNIT_ATOM_PULL_IN_START, 2); (1, UNIT_ATOM_AFTER, 2); (2, UNIT_ATOM_BEFORE, 1)]%positive)
    (λ _, UNIT_INACTIVE) [1; 2]%positive.

Definition slow_ops : @UnitOps ex_rq :=
  {| unit_start _ w := (1, w); unit_stop _ w := (1, w); unit_reload _ w := (1, w) |}.

Lemma slow_ops_quiet : @ops_quiet ex_rq slow_ops.
Proof. split_and!; intros u w; reflexivity. Qed.

Lemma run_env_closed : @deps_closed run_env.
Proof. apply ex_env_closed. by_decide. Qed.

Lemma ex_state_at_rest : at_rest ex_state.
Proof.
  split.
  - apply sys_ok_check; [by_decide|done].
  - intros id i Hi. discriminate.
  - intros k kb Hk. discriminate.
  - reflexivity.
Qed.

(** After the request both jobs are installed and queued. *)
Definition run_state : @State ex_rq :=
  match @manager_add_job ex_rq run_env JOB_START 1 JOB_REPLACE ex_state with
  | Some (_, st, _) => st
  | None => ex_state
  end.

Lemma run_state_at_rest : at_rest run_state.
Proof.
  destruct (@manager_add_job_spec ex_rq run_env run_env_closed JOB_START 1 JOB_REPLACE ex_state) as (r & st & ret & H & Hr & _).
  - by_decide.
  - exact ex_state_at_rest.
  - by vm_compute.
  - unfold run_state. by rewrite H.
Qed.

Lemma run_holds_back_witness :
  ∃ st', @job_run_and_invalidate ex_rq slow_ops 1 (run_env, run_state) = Some (-EAGAIN, (run_env, st')) ∧ at_rest st'.
Proof.
  destruct (heap run_state !! 1%positive) as [jb|] eqn:Ej; [|discriminate Ej].
  destruct (@run_holds_back ex_rq slow_ops run_env run_state 1 2 jb) as (st' & H1 & H2 & _).
  - exact run_state_at_rest.
  - exact Ej.
  - vm_compute in Ej. by injection Ej as <-.
  - vm_compute in Ej. by injection Ej as <-.
  - destruct (heap run_state !! 2%positive) as [ob|] eqn:Eo; [|discriminate Eo].
    exists jb, ob, UNIT_ATOM_AFTER, 2%positive. vm_compute in Ej, Eo. injection Ej as <-. injection Eo as <-.
    split_and!; [by vm_compute|by vm_compute|by_decide|by_decide|by vm_compute|done|done|].
    exists 1. split; [by vm_compute|lia].
  - exists st'. split; [exact H1|exact H2].
Defined.

(** Only the job of unit 1 waits, and only for that of unit 2. *)
Lemma run_state_waits i o :
  waits_on run_env run_state i o → o = 2%positive ∧ ∃ ib, heap run_state !! i = Some ib ∧ j_unit ib = 1%positive.
Proof.
  intros (ib & ob & d & v & Hi & Ho & Hd & Hv & Hv' & _ & _ & c & Hc & Hlt). apply elem_of_ex_deps in Hv.
  assert (Hjobs : ∀ k kb, heap run_state !! k = Some kb → j_type kb = JOB_START ∧ j_ignore_order kb = false).
  { intros k kb Hk. assert (Hall : map_Forall (λ _ kb, j_type kb = JOB_START ∧ j_ignore_order kb = false) (heap run_state)) by by_decide.
    by apply (Hall k). }
  destruct (Hjobs i ib Hi) as [Hti Hgi], (Hjobs o ob Ho) as [Hto Hgo]. rewrite Hti, Hgi, Hto, Hgo in Hc.
  revert Hv. rewrite !elem_of_cons. intros [[= Hu -> ->]|[[= Hu -> ->]|[[= Hu -> ->]|Hv]]].
  - by apply elem_of_cons in Hd as [?|Hd%list_elem_of_singleton].
  - split; [|eauto]. vm_compute in Hv'. congruence.
  - vm_compute in Hc. injection Hc as <-. lia.
  - apply elem_of_nil in Hv. destruct Hv.
Qed.

Lemma some_job_is_runnable_witness :
  ∃ j, is_Some (heap run_state !! j) ∧ @job_is_runnable ex_rq run_env j run_state = Some true.
Proof.
  apply (@some_job_is_runnable ex_rq run_env run_state).
  - exact run_state_at_rest.
  - by vm_compute.
  - intros k Hk. pose proof (tc_last _ _ _ Hk) as (z & Hz). apply run_state_waits in Hz as [-> _].
    apply tc_first in Hk as (z' & (_ & ib & Hib & Hu)%run_state_waits). vm_compute in Hib. injection Hib as <-. done.
Defined.

Lemma dispatch_terminates_witness :
  ∃ w', @dispatch ex_rq slow_ops (dispatch_fuel run_state) (run_env, run_state) = Some w' ∧ at_rest (snd w').
Proof.
  destruct (@dispatch_terminates ex_rq slow_ops run_env run_state) as (w' & H1 & H2 & _).
  - exact slow_ops_quiet.
  - exact run_state_at_rest.
  - by vm_compute.
  - exists w'. split; [exact H1|exact H2].
Defined.

(** The job of unit 2 runs, that of unit 1 waits. *)
Example dispatch_respects_order :
  (λ w, (λ kb, (j_unit (snd kb), j_state (snd kb))) <$> map_to_list (heap (snd w)))
    <$> @dispatch ex_rq slow_ops (dispatch_fuel run_state) (run_env, run_state)
  = Some [(2%positive, JOB_RUNNING); (1%positive, JOB_WAITING)].
Proof. vm_compute. reflexivity. Qed.

Lemma history_keeps_invariant_witness :
  ∃ w', @step ex_rq slow_ops (run_env, ex_state) w' ∧ at_rest (snd w').
Proof.
  destruct (@manager_add_job_spec ex_rq run_env run_env_closed JOB_START 1 JOB_REPLACE ex_state) as (r & st & ret & H & _).
  - by_decide.
  - exact ex_state_at_rest.
  - by vm_compute.
  - assert (Hs : @step ex_rq slow_ops (run_env, ex_state) (run_env, st)).
    { eapply (@step_request ex_rq slow_ops run_env), H; [exact run_env_closed|by_decide|by vm_compute]. }
    exists (run_env, st). split; [exact Hs|].
    apply (@history_keeps_invariant ex_rq slow_ops (run_env, ex_state)).
    + apply ops_quiet_ok, slow_ops_quiet.
    + exact ex_state_at_rest.
    + by apply rtc_once.
Defined.
