(* ===== verification/PathUtil.v ===== *)
(** * Paths (src/basic/path-util.c)

    A path is its list of characters, without the NUL. Functions that advance a pointer
    into a string return the rest of the string. The reference for all of them is
    [components]: the parts between slashes, without empty ones and single dots. *)

From S2P Require Import Prelude.

Definition NAME_MAX : Z := 255.
Definition PATH_MAX : Z := 4096.

(** ** The code *)

Definition SLASH : Z := ch "/".
Definition DOT : Z := ch ".".

Fixpoint skip_slash_or_dot (p : list Z) : list Z :=
  match p with
  | [] => []
  | c :: p' =>
      if c =? SLASH then skip_slash_or_dot p'
      else if c =? DOT then
        match p' with
        | d :: p'' => if d =? SLASH then skip_slash_or_dot p'' else p
        | [] => p
        end
      else p
  end.

(** [strchrnul(p, '/')]: the part before the first slash, and the rest. *)
Fixpoint to_slash (p : list Z) : list Z * list Z :=
  match p with
  | [] => ([], [])
  | c :: p' => if c =? SLASH then ([], p) else let '(a, b) := to_slash p' in (c :: a, b)
  end.

(** The result, [*p] and [*ret] afterwards; on an error both pointers are untouched. *)
Definition path_find_first_component (p : list Z) (accept_dot_dot : bool) : Z * list Z * option (list Z) :=
  let first := skip_slash_or_dot p in
  if bool_decide (first = []) then (0, [], None)
  else if bool_decide (first = str ".") then (0, [], None)
  else
    let '(c, end_first) := to_slash first in
    if NAME_MAX <? len c then (-EINVAL, p, None)
    else if negb accept_dot_dot && bool_decide (c = str "..") then (-EINVAL, p, None)
    else
      let next := skip_slash_or_dot end_first in
      (len c, if bool_decide (next = str ".") then [] else next, Some first).

Definition path_is_absolute (p : list Z) : bool :=
  match p with c :: _ => c =? SLASH | [] => false end.

(** The loop of [path_simplify_full]: what was written so far, and whether it returned
    because of an invalid component. Every round consumes a component. *)
Fixpoint simplify_loop (fuel : nat) (p out : list Z) (add_slash : bool) : option (list Z * bool) :=
  match fuel with
  | O => None
  | S fuel =>
      let '(r, p', e) := path_find_first_component p true in
      if r =? 0 then Some (out, false)
      else
        let out := if add_slash then out ++ [SLASH] else out in
        if r <? 0 then Some (out ++ p', true)
        else e ← e; simplify_loop fuel p' (out ++ take (Z.to_nat r) e) true
  end.

Definition ends_with_slash (p : list Z) : bool := bool_decide (last p = Some SLASH).

Definition path_simplify_full (keep : bool) (path : list Z) : option (list Z) :=
  if bool_decide (path = []) then Some path
  else
    let keep_trailing_slash := keep && ends_with_slash path in
    let f := if path_is_absolute path then [SLASH] else [] in
    '(out, invalid) ← simplify_loop (S (length path)) (drop (length f) path) f false;
    if invalid : bool then Some out
    else
      let out := if bool_decide (out = []) then [DOT] else out in
      Some (if negb (ends_with_slash out) && keep_trailing_slash then out ++ [SLASH] else out).

Definition path_simplify : list Z → option (list Z) := path_simplify_full false.

(** [memcmp] and [strcmp] up to the sign of the result, as the code uses them. *)
Definition cmp (a b : Z) : Z := if a <? b then -1 else if b <? a then 1 else 0.

Fixpoint memcmp (n : nat) (a b : list Z) : Z :=
  match n, a, b with
  | S n, x :: a, y :: b => let r := cmp x y in if r =? 0 then memcmp n a b else r
  | _, _, _ => 0
  end.

Fixpoint strcmp (a b : list Z) : Z :=
  match a, b with
  | [], [] => 0
  | [], _ => -1
  | _, [] => 1
  | x :: a, y :: b => let r := cmp x y in if r =? 0 then strcmp a b else r
  end.

Fixpoint compare_loop (fuel : nat) (a b : list Z) : option Z :=
  match fuel with
  | O => None
  | S fuel =>
      let '(j, a', aa) := path_find_first_component a true in
      let '(k, b', bb) := path_find_first_component b true in
      if (j <? 0) || (k <? 0) then
        let r := cmp (if j <? 0 then 1 else 0) (if k <? 0 then 1 else 0) in
        Some (if negb (r =? 0) then r else strcmp a' b')
      else if j =? 0 then Some (if k =? 0 then 0 else -1)
      else if k =? 0 then Some 1
      else
        aa ← aa; bb ← bb;
        let r := memcmp (Z.to_nat (Z.min j k)) aa bb in
        if negb (r =? 0) then Some r
        else
          let r := cmp j k in
          if negb (r =? 0) then Some r else compare_loop fuel a' b'
  end.

(** Neither argument is NULL. *)
Definition path_compare (a b : list Z) : option Z :=
  let r := cmp (if path_is_absolute a then 1 else 0) (if path_is_absolute b then 1 else 0) in
  if negb (r =? 0) then Some r else compare_loop (S (length a)) a b.

Definition path_equal (a b : list Z) : option bool := r ← path_compare a b; Some (r =? 0).

Fixpoint startswith_loop (fuel : nat) (path prefix : list Z) (accept_dot_dot : bool) : option (option (list Z)) :=
  match fuel with
  | O => None
  | S fuel =>
      let '(r, path, p) := path_find_first_component path accept_dot_dot in
      if r <? 0 then Some None
      else
        let '(k, prefix, q) := path_find_first_component prefix accept_dot_dot in
        if k <? 0 then Some None
        else if k =? 0 then Some (Some (match p with Some p => p | None => path end))
        else if negb (r =? k) then Some None
        else
          p ← p; q ← q;
          if bool_decide (take (Z.to_nat r) p = take (Z.to_nat r) q)
          then startswith_loop fuel path prefix accept_dot_dot
          else Some None
  end.

(** The rest of the path after the prefix, or NULL. *)
Definition path_startswith_full (path prefix : list Z) (accept_dot_dot : bool) : option (option (list Z)) :=
  if negb (eqb (path_is_absolute path) (path_is_absolute prefix)) then Some None
  else startswith_loop (S (length prefix)) path prefix accept_dot_dot.

(** [n] is the length of the path, so that [e - p] is [n - len e]. *)
Fixpoint valid_loop (fuel : nat) (n : Z) (e : list Z) (accept_dot_dot : bool) : option bool :=
  match fuel with
  | O => None
  | S fuel =>
      let '(r, e, _) := path_find_first_component e accept_dot_dot in
      if r <? 0 then Some false
      else if PATH_MAX <=? n - len e then Some false
      else if bool_decide (e = []) then Some true
      else valid_loop fuel n e accept_dot_dot
  end.

Definition path_is_valid_full (p : list Z) (accept_dot_dot : bool) : option bool :=
  if bool_decide (p = []) then Some false
  else valid_loop (S (length p)) (len p) p accept_dot_dot.

(** [strstr(p, s) != NULL] *)
Fixpoint contains (s p : list Z) : bool :=
  bool_decide (s `prefix_of` p) || match p with [] => false | _ :: p => contains s p end.

Definition path_is_normalized (p : list Z) : option bool :=
  safe ← path_is_valid_full p false;
  if negb safe then Some false
  else if bool_decide (p = str ".") || bool_decide (str "./" `prefix_of` p) ||
          bool_decide (str "/." `suffix_of` p) || contains (str "/./") p then Some false
  else Some (negb (contains (str "//") p)).

Definition empty_or_root (p : list Z) : option bool :=
  if bool_decide (p = []) then Some true else path_equal p [SLASH].

(** ** The reference: a path is a list of components *)

(** The parts between slashes. *)
Fixpoint parts (p : list Z) : list (list Z) :=
  match p with
  | [] => [[]]
  | c :: p =>
      if c =? SLASH then [] :: parts p
      else match parts p with [] => [[c]] | x :: xs => (c :: x) :: xs end
  end.

Definition counts (c : list Z) : Prop := c ≠ [] ∧ c ≠ str ".".
#[global] Instance counts_dec c : Decision (counts c).
Proof. unfold counts. apply _. Defined.

Definition components (p : list Z) : list (list Z) := filter counts (parts p).

Fixpoint join (cs : list (list Z)) : list Z :=
  match cs with
  | [] => []
  | [c] => c
  | c :: cs => c ++ SLASH :: join cs
  end.

(** The path with these components. *)
Definition render (absolute : bool) (cs : list (list Z)) : list Z :=
  if absolute then SLASH :: join cs else if bool_decide (cs = []) then [DOT] else join cs.

Definition no_slash (c : list Z) : Prop := SLASH ∉ c.

(** A component the code accepts. *)
Definition fits (accept_dot_dot : bool) (c : list Z) : Prop :=
  len c <= NAME_MAX ∧ (accept_dot_dot = true ∨ c ≠ str "..").

#[global] Instance fits_dec a c : Decision (fits a c).
Proof. unfold fits. apply _. Defined.

Lemma parts_cons p : ∃ x xs, parts p = x :: xs.
Proof.
  induction p as [|c p (x & xs & IH)]; cbn [parts]; [eauto|]. destruct (c =? SLASH); [eauto|]. rewrite IH. eauto.
Qed.

Lemma parts_no_slash p : Forall no_slash (parts p).
Proof.
  induction p as [|c p IH]; cbn [parts].
  - constructor; [|constructor]. apply not_elem_of_nil.
  - destruct (c =? SLASH) eqn:E; [constructor; [apply not_elem_of_nil|done]|]. apply Z.eqb_neq in E.
    destruct (parts_cons p) as (x & xs & Hp). rewrite Hp in *. inversion IH; subst. constructor; [|done].
    unfold no_slash. rewrite not_elem_of_cons. done.
Qed.

Lemma parts_single c : no_slash c → parts c = [c].
Proof.
  induction c as [|x c IH]; intros Hc; [done|]. apply not_elem_of_cons in Hc as [Hx Hc]. cbn [parts].
  rewrite (proj2 (Z.eqb_neq x SLASH)) by congruence. by rewrite IH.
Qed.

Lemma parts_app a b : parts (a ++ SLASH :: b) = parts a ++ parts b.
Proof.
  induction a as [|c a IH]; [done|]. cbn [app parts]. destruct (c =? SLASH); [by rewrite IH|].
  rewrite IH. by destruct (parts_cons a) as (x & xs & ->).
Qed.

Lemma join_cons c cs : cs ≠ [] → join (c :: cs) = c ++ SLASH :: join cs.
Proof. by destruct cs. Qed.

Lemma join_parts p : join (parts p) = p.
Proof.
  induction p as [|c p IH]; [done|]. cbn [parts]. destruct (parts_cons p) as (x & xs & Hp). rewrite Hp in *.
  destruct (c =? SLASH) eqn:E.
  - apply Z.eqb_eq in E as ->. rewrite join_cons by done. by rewrite IH.
  - destruct xs as [|y xs]; [by cbn in *; subst|]. rewrite join_cons in IH by done. rewrite join_cons by done. by rewrite <- IH.
Qed.

Lemma parts_join cs : cs ≠ [] → Forall no_slash cs → parts (join cs) = cs.
Proof.
  induction cs as [|c [|d cs] IH]; intros Hne Hf; [done|..]; inversion Hf; subst.
  - by apply parts_single.
  - rewrite join_cons by done. rewrite parts_app, parts_single by done. by rewrite IH.
Qed.

Lemma join_app xs ys : xs ≠ [] → ys ≠ [] → join (xs ++ ys) = join xs ++ SLASH :: join ys.
Proof.
  intros Hx Hy. induction xs as [|x [|x' xs] IH]; [done|..].
  - by apply join_cons.
  - cbn [app]. rewrite (join_cons x (x' :: xs)), (join_cons x (x' :: xs ++ ys)) by done.
    change (x' :: xs ++ ys) with ((x' :: xs) ++ ys). rewrite IH by done. by rewrite <- (app_assoc x).
Qed.

Lemma components_ok p : Forall (λ c, counts c ∧ no_slash c) (components p).
Proof.
  apply Forall_forall. intros c [Hc Hin]%list_elem_of_filter. split; [done|].
  by apply (proj1 (Forall_forall _ _) (parts_no_slash p)).
Qed.

Lemma to_slash_parts p a b :
  to_slash p = (a, b) → p = a ++ b ∧ no_slash a ∧ (b = [] ∧ parts p = [a] ∨ ∃ b', b = SLASH :: b' ∧ parts p = a :: parts b').
Proof.
  revert a b. induction p as [|c p IH]; intros a b; cbn [to_slash parts].
  - intros [= <- <-]. split_and!; [done|apply not_elem_of_nil|by left].
  - destruct (c =? SLASH) eqn:E.
    + intros [= <- <-]. apply Z.eqb_eq in E as ->. split_and!; [done|apply not_elem_of_nil|right; eauto].
    + destruct (to_slash p) as [a0 b0]. intros [= <- <-]. apply Z.eqb_neq in E.
      destruct (IH a0 b0 eq_refl) as (-> & Hn & Hp). split_and!; [done|by apply not_elem_of_cons|].
      destruct Hp as [[-> ->]|(b' & -> & ->)]; [by left|right; eauto].
Qed.

(** ** One component *)

(** Where [skip_slash_or_dot] stops. *)
Definition at_component (p : list Z) : Prop :=
  p = [] ∨ p = str "." ∨ ∃ a b, to_slash p = (a, b) ∧ counts a ∧
    (b = [] ∧ components p = [a] ∨ ∃ b', b = SLASH :: b' ∧ components p = a :: components b').

Lemma skip_spec p :
  components (skip_slash_or_dot p) = components p ∧ at_component (skip_slash_or_dot p) ∧
  (length (skip_slash_or_dot p) <= length p)%nat.
Proof.
  induction p as [p IH] using list_len_ind. destruct p as [|c p]; [split_and!; [done|by left|done]|].
  cbn [skip_slash_or_dot]. destruct (c =? SLASH) eqn:Ec.
  { destruct (IH p) as (H1 & H2 & H3); [cbn; lia|]. split_and!; [|done|cbn; lia]. rewrite H1. unfold components.
    cbn [parts]. rewrite Ec. by rewrite filter_cons_False by (by intros [? _]). }
  assert (Hstop : ((c =? DOT) = true → ∃ d p', p = d :: p' ∧ d ≠ SLASH) → at_component (c :: p)).
  { intros Hd. right. right. destruct (to_slash (c :: p)) as [a b] eqn:Et. exists a, b. split; [done|].
    pose proof (to_slash_parts (c :: p) a b Et) as (Heq & Hn & Hp). cbn [to_slash] in Et. rewrite Ec in Et.
    destruct (to_slash p) as [a0 b0] eqn:Et0. injection Et as <- <-. assert (Hc : counts (c :: a0)).
    { split; [done|]. intros [= -> ->]. destruct (Hd eq_refl) as (d & p' & -> & Hds). cbn [to_slash] in Et0.
      rewrite (proj2 (Z.eqb_neq d SLASH) Hds) in Et0. by destruct (to_slash p'). }
    split; [done|]. unfold components. destruct Hp as [[-> ->]|(b' & -> & ->)]; [left|right; exists b'];
      (split; [done|]); by rewrite filter_cons_True. }
  destruct (c =? DOT) eqn:Ed; [|split_and!; [done|by apply Hstop|done]].
  destruct p as [|d p]; [apply Z.eqb_eq in Ed as ->; split_and!; [done|right; by left|done]|].
  destruct (d =? SLASH) eqn:Es; [|split_and!; [done| |done]; apply Hstop; intros _; exists d, p; split; [done|by apply Z.eqb_neq]].
  destruct (IH p) as (H1 & H2 & H3); [cbn; lia|]. split_and!; [|done|cbn; lia]. rewrite H1. unfold components.
  cbn [parts]. rewrite Ec, Es. apply Z.eqb_eq in Ed as ->. rewrite filter_cons_False by (by intros [_ []]). done.
Qed.

(** What [path_find_first_component] returns, in terms of the components. *)
Inductive first_of (accept_dot_dot : bool) (p : list Z) : Z * list Z * option (list Z) → Prop :=
  | first_none : components p = [] → first_of accept_dot_dot p (0, [], None)
  | first_bad c cs : components p = c :: cs → ¬ fits accept_dot_dot c → first_of accept_dot_dot p (-EINVAL, p, None)
  | first_some c cs rest next :
      components p = c :: cs → fits accept_dot_dot c → 0 < len c → components (c ++ rest) = c :: cs →
      components next = cs → (next = [] ↔ cs = []) → (length next < length p)%nat →
      first_of accept_dot_dot p (len c, next, Some (c ++ rest)).

Lemma counts_len c : counts c → 0 < len c.
Proof. intros [Hc _]. destruct c; [done|]. rewrite len_cons. pose proof (len_nonneg c). lia. Qed.

Lemma components_dot : components (str ".") = [].
Proof. done. Qed.

(** The start of the next component. *)
Lemma next_spec p :
  let next := skip_slash_or_dot p in
  let q := if bool_decide (next = str ".") then [] else next in
  components q = components p ∧ (q = [] ↔ components p = []) ∧ (length q <= length p)%nat.
Proof.
  intros next q. subst q. destruct (skip_spec p) as (Hc & Hat & Hl). fold next in Hc, Hat, Hl. rewrite <- Hc.
  case_bool_decide as Hd; [rewrite Hd; split_and!; [done|done|cbn; lia]|]. split_and!; [done| |lia].
  destruct Hat as [->|[?|(a & b & _ & _ & Hab)]]; [done|done|]. split; [intros ->; by destruct Hab as [[_ ?]|(? & _ & ?)]|].
  intros H0. rewrite H0 in Hab. by destruct Hab as [[_ ?]|(? & _ & ?)].
Qed.

Lemma find_first_component_spec p accept : first_of accept p (path_find_first_component p accept).
Proof.
  unfold path_find_first_component. destruct (skip_spec p) as (Hc & Hat & Hl). set (first := skip_slash_or_dot p) in *.
  case_bool_decide as H0; [apply first_none; by rewrite <- Hc, H0|].
  case_bool_decide as H1; [apply first_none; by rewrite <- Hc, H1|].
  destruct Hat as [?|[?|(c & b & Ht & Hcnt & Hab)]]; [done..|]. rewrite Ht.
  destruct (to_slash_parts first c b Ht) as (Heq & _ & _).
  assert (Hcs : components p = c :: components b).
  { rewrite <- Hc. by destruct Hab as [[-> ->]|(b' & -> & ->)]. }
  pose proof (counts_len c Hcnt) as Hpos.
  destruct (NAME_MAX <? len c) eqn:En; [eapply first_bad; [exact Hcs|]; intros [? _]; lia|].
  destruct (negb accept && bool_decide (c = str "..")) eqn:Edd.
  { apply andb_true_iff in Edd as [Ea%negb_true_iff Ec%bool_decide_eq_true]. eapply first_bad; [exact Hcs|].
    intros [_ [Hx|Hx]]; [by rewrite Ea in Hx|by apply Hx]. }
  destruct (next_spec b) as (Hn1 & Hn2 & Hn3). rewrite Heq. eapply first_some; [exact Hcs| |done| |exact Hn1|exact Hn2|].
  - split; [lia|]. destruct accept; [by left|right]. by apply bool_decide_eq_false in Edd.
  - by rewrite <- Heq, Hc.
  - assert (length first = (length c + length b)%nat) by (rewrite Heq, length_app; done). unfold len in Hpos. lia.
Qed.

(** ** Simplification *)

Lemma take_len_app {A} (c rest : list A) : take (Z.to_nat (len c)) (c ++ rest) = c.
Proof. unfold len. rewrite Nat2Z.id. apply take_app_length. Qed.

Lemma simplify_loop_spec n p out add :
  Forall (fits true) (components p) → (length p < n)%nat →
  simplify_loop n p out add = Some (out ++ (if add && negb (bool_decide (components p = [])) then [SLASH] else []) ++ join (components p), false).
Proof.
  revert p out add. induction n as [|n IH]; intros p out add Hf Hn; [lia|]. cbn [simplify_loop].
  destruct (find_first_component_spec p true) as [H0|c cs H0 Hbad|c cs rest next H0 Hfit Hpos Hcr Hnext Hnil Hlt].
  - rewrite H0. cbn. by rewrite andb_false_r, app_nil_r.
  - rewrite H0 in Hf. inversion Hf; subst. done.
  - rewrite (proj2 (Z.eqb_neq (len c) 0)), (proj2 (Z.ltb_ge (len c) 0)) by lia. cbn [mbind option_bind].
    rewrite take_len_app. rewrite H0 in Hf. inversion Hf; subst. rewrite IH; [|done|lia]. rewrite H0. f_equal. f_equal.
    cbn [bool_decide]. rewrite (bool_decide_eq_false_2 (c :: components next = [])) by done. cbn [negb andb]. rewrite andb_true_r.
    destruct (bool_decide (components next = [])) eqn:Eb; cbn [negb].
    + apply bool_decide_eq_true in Eb. rewrite Eb. cbn. rewrite !app_nil_r. destruct add; cbn; by rewrite <- ?app_assoc.
    + apply bool_decide_eq_false in Eb. rewrite join_cons by done. destruct add; cbn; by rewrite <- !app_assoc.
Qed.

Lemma components_absolute p : components (SLASH :: p) = components p.
Proof. unfold components. cbn [parts]. rewrite Z.eqb_refl. by rewrite filter_cons_False by (by intros [? _]). Qed.

Lemma drop_absolute p : components (drop (length (if path_is_absolute p then [SLASH] else [])) p) = components p.
Proof.
  destruct p as [|c p]; [done|]. cbn [path_is_absolute]. destruct (c =? SLASH) eqn:E; [|done]. apply Z.eqb_eq in E as ->.
  cbn [length drop]. by rewrite components_absolute.
Qed.

Lemma last_no_slash cs : Forall (λ c, counts c ∧ no_slash c) cs → ends_with_slash (join cs) = false.
Proof.
  intros Hf. unfold ends_with_slash. apply bool_decide_eq_false. induction cs as [|c [|d cs] IH]; [done|..].
  - inversion Hf as [|? ? [_ Hn] _]; subst. intros Hl%last_Some_elem_of. by apply Hn.
  - inversion Hf as [|? ? _ Hf']; subst. rewrite join_cons, last_app by done.
    destruct (join (d :: cs)) as [|x l] eqn:Ej.
    + inversion Hf' as [|? ? [[Hd _] _] _]; subst. destruct d; [done|]. by destruct cs.
    + rewrite last_cons. rewrite <- Ej. specialize (IH Hf'). rewrite Ej in *. rewrite last_cons in *. by destruct (last l).
Qed.

Lemma simplify_spec keep p :
  p ≠ [] → Forall (fits true) (components p) →
  let s := render (path_is_absolute p) (components p) in
  path_simplify_full keep p = Some (if negb (ends_with_slash s) && (keep && ends_with_slash p) then s ++ [SLASH] else s).
Proof.
  intros Hne Hf s. unfold path_simplify_full. rewrite (bool_decide_eq_false_2 (p = [])) by done.
  set (f := if path_is_absolute p then [SLASH] else []).
  pose proof (drop_absolute p) as Hd. fold f in Hd. rewrite simplify_loop_spec; [|by rewrite Hd|rewrite length_drop; lia].
  cbn [mbind option_bind andb app]. rewrite !Hd. unfold s, render, f.
  destruct (path_is_absolute p); cbn [app]; [done|]. case_bool_decide as Hj.
  - destruct (components p) as [|c cs] eqn:Ec; [done|]. exfalso. pose proof (components_ok p) as Hok. rewrite Ec in Hok.
    inversion Hok as [|? ? [[Hc _] _] _]; subst. destruct c; [done|]. by destruct cs.
  - rewrite (bool_decide_eq_false_2 (components p = [])); [done|]. intros Hc. by rewrite Hc in Hj.
Qed.

Lemma render_components abs cs :
  Forall (λ c, counts c ∧ no_slash c) cs → components (render abs cs) = cs ∧ path_is_absolute (render abs cs) = abs ∧ render abs cs ≠ [].
Proof.
  intros Hf. assert (Hj : cs ≠ [] → components (join cs) = cs).
  { intros Hne. unfold components. rewrite parts_join; [|done|]; [|eapply Forall_impl; [exact Hf|by intros ? []]].
    apply filter_all. intros c Hc. by apply (proj1 (Forall_forall _ _) Hf). }
  unfold render. destruct abs.
  - split_and!; [|done|done]. rewrite components_absolute. destruct cs as [|c cs]; [done|]. by apply Hj.
  - case_bool_decide as Hc; [by subst|]. split_and!; [by apply Hj|..].
    + destruct cs as [|c cs]; [done|]. inversion Hf as [|? ? [[Hcn _] Hns] _]; subst. destruct c as [|x c]; [done|].
      apply not_elem_of_cons in Hns as [Hx _]. destruct cs; cbn; apply Z.eqb_neq; congruence.
    + destruct cs as [|c cs]; [done|]. inversion Hf as [|? ? [[Hcn _] Hns] _]; subst. destruct c; [done|]. by destruct cs.
Qed.

(** ** Comparison *)

Lemma cmp_0 a b : cmp a b = 0 ↔ a = b.
Proof. unfold cmp. destruct (a <? b) eqn:E1, (b <? a) eqn:E2; lia. Qed.

Lemma cmp_swap a b : cmp b a = - cmp a b.
Proof. unfold cmp. destruct (a <? b) eqn:E1, (b <? a) eqn:E2; lia. Qed.

(** [memcmp] over the shorter length and then the lengths is [strcmp]. *)
Lemma memcmp_strcmp x y r1 r2 :
  (let r := memcmp (Z.to_nat (Z.min (len x) (len y))) (x ++ r1) (y ++ r2) in if negb (r =? 0) then r else cmp (len x) (len y)) = strcmp x y.
Proof.
  revert y. induction x as [|a x IH]; intros [|b y].
  - done.
  - rewrite len_cons. change (len (@nil Z)) with 0. pose proof (len_nonneg y). rewrite Z.min_l by lia. change (Z.to_nat 0) with 0%nat. cbn [memcmp]. cbn. unfold cmp.
    destruct (0 <? len y + 1) eqn:E; lia.
  - rewrite len_cons. change (len (@nil Z)) with 0. pose proof (len_nonneg x). rewrite Z.min_r by lia. change (Z.to_nat 0) with 0%nat. cbn [memcmp]. cbn. unfold cmp.
    destruct (len x + 1 <? 0) eqn:E, (0 <? len x + 1) eqn:E'; lia.
  - rewrite !len_cons. pose proof (len_nonneg x). pose proof (len_nonneg y).
    replace (Z.to_nat (Z.min (len x + 1) (len y + 1))) with (S (Z.to_nat (Z.min (len x) (len y)))) by lia.
    cbn [app memcmp strcmp]. destruct (cmp a b =? 0) eqn:E.
    + rewrite <- IH. cbv zeta. destruct (_ =? 0); cbn [negb]; [|done]. unfold cmp.
      destruct (len x + 1 <? len y + 1) eqn:E1, (len x <? len y) eqn:E2, (len y + 1 <? len x + 1) eqn:E3, (len y <? len x) eqn:E4; lia.
    + by rewrite E.
Qed.

Lemma strcmp_0 x y : strcmp x y = 0 ↔ x = y.
Proof.
  revert y. induction x as [|a x IH]; intros [|b y]; cbn [strcmp]; try done. destruct (cmp a b =? 0) eqn:E.
  - apply Z.eqb_eq, cmp_0 in E as ->. rewrite IH. naive_solver.
  - apply Z.eqb_neq in E. rewrite cmp_0 in E |- *. naive_solver.
Qed.

Lemma strcmp_swap x y : strcmp y x = - strcmp x y.
Proof.
  revert y. induction x as [|a x IH]; intros [|b y]; cbn [strcmp]; try done. rewrite (cmp_swap a b).
  destruct (cmp a b =? 0) eqn:E.
  - apply Z.eqb_eq in E. rewrite E. cbn. apply IH.
  - destruct (- cmp a b =? 0) eqn:E'; [lia|done].
Qed.

(** Lists of components, in the order of [strcmp], shorter ones first. *)
Fixpoint compare_components (xs ys : list (list Z)) : Z :=
  match xs, ys with
  | [], [] => 0
  | [], _ => -1
  | _, [] => 1
  | x :: xs, y :: ys => let r := strcmp x y in if r =? 0 then compare_components xs ys else r
  end.

Lemma compare_components_0 xs ys : compare_components xs ys = 0 ↔ xs = ys.
Proof.
  revert ys. induction xs as [|x xs IH]; intros [|y ys]; cbn [compare_components]; try done. destruct (strcmp x y =? 0) eqn:E.
  - apply Z.eqb_eq, strcmp_0 in E as ->. rewrite IH. naive_solver.
  - apply Z.eqb_neq in E. rewrite strcmp_0 in E |- *. naive_solver.
Qed.

Lemma compare_components_swap xs ys : compare_components ys xs = - compare_components xs ys.
Proof.
  revert ys. induction xs as [|x xs IH]; intros [|y ys]; cbn [compare_components]; try done. rewrite (strcmp_swap x y).
  destruct (strcmp x y =? 0) eqn:E.
  - apply Z.eqb_eq in E. rewrite E. cbn. apply IH.
  - destruct (- strcmp x y =? 0) eqn:E'; [lia|done].
Qed.

Lemma compare_loop_spec n a b :
  Forall (fits true) (components a) → Forall (fits true) (components b) → (length a < n)%nat →
  compare_loop n a b = Some (compare_components (components a) (components b)).
Proof.
  revert a b. induction n as [|n IH]; intros a b Ha Hb Hn; [lia|]. cbn [compare_loop].
  destruct (find_first_component_spec a true) as [Ca|c cs Ca Hbad|c cs rest next Ca Hfit Hpos Hcr Hnext Hnil Hlt].
  2: { rewrite Ca in Ha. by inversion Ha. }
  - destruct (find_first_component_spec b true) as [Cb|d ds Cb Hbad|d ds rest' next' Cb Hfit' Hpos' Hcr' Hnext' Hnil' Hlt'].
    + by rewrite Ca, Cb.
    + rewrite Cb in Hb. by inversion Hb.
    + rewrite Ca, Cb. cbn. rewrite (proj2 (Z.ltb_ge (len d) 0)), (proj2 (Z.eqb_neq (len d) 0)) by lia. done.
  - destruct (find_first_component_spec b true) as [Cb|d ds Cb Hbad|d ds rest' next' Cb Hfit' Hpos' Hcr' Hnext' Hnil' Hlt'].
    + rewrite Ca, Cb. cbn. rewrite (proj2 (Z.ltb_ge (len c) 0)), (proj2 (Z.eqb_neq (len c) 0)) by lia. done.
    + rewrite Cb in Hb. by inversion Hb.
    + rewrite !(proj2 (Z.ltb_ge _ 0)) by lia. rewrite !(proj2 (Z.eqb_neq (len _) 0)) by lia. cbn [orb mbind option_bind].
      rewrite Ca, Cb in *. cbn [compare_components]. pose proof (memcmp_strcmp c d rest rest') as Hm. cbv zeta in Hm |- *.
      inversion Ha; inversion Hb; subst. destruct (memcmp _ _ _ =? 0) eqn:Em; cbn [negb] in Hm |- *.
      * rewrite <- Hm. destruct (cmp (len c) (len d) =? 0) eqn:Ec; cbn [negb]; [|done]. apply IH; [done..|lia].
      * rewrite <- Hm. by rewrite Em.
Qed.

(** ** Prefixes *)

Lemma startswith_loop_spec n path prefix accept :
  Forall (fits accept) (components path) → Forall (fits accept) (components prefix) → (length prefix < n)%nat →
  ∃ r, startswith_loop n path prefix accept = Some r ∧
    (∀ rest, r = Some rest → components path = components prefix ++ components rest) ∧
    (r = None → ¬ components prefix `prefix_of` components path).
Proof.
  revert path prefix. induction n as [|n IH]; intros a b Ha Hb Hn; [lia|]. cbn [startswith_loop].
  destruct (find_first_component_spec a accept) as [Ca|c cs Ca Hbad|c cs rest next Ca Hfit Hpos Hcr Hnext Hnil Hlt].
  2: { rewrite Ca in Ha. by inversion Ha. }
  - destruct (find_first_component_spec b accept) as [Cb|d ds Cb Hbad|d ds rest' next' Cb Hfit' Hpos' Hcr' Hnext' Hnil' Hlt'].
    + eexists. split; [done|]. split; [|done]. intros rest [= <-]. by rewrite Ca, Cb.
    + rewrite Cb in Hb. by inversion Hb.
    + cbn [Z.ltb Z.compare]. rewrite (proj2 (Z.ltb_ge (len d) 0)), (proj2 (Z.eqb_neq (len d) 0)), (proj2 (Z.eqb_neq 0 (len d))) by lia.
      eexists. split; [done|]. split; [done|]. intros _ [k Hk]. rewrite Ca, Cb in Hk. done.
  - rewrite (proj2 (Z.ltb_ge (len c) 0)) by lia.
    destruct (find_first_component_spec b accept) as [Cb|d ds Cb Hbad|d ds rest' next' Cb Hfit' Hpos' Hcr' Hnext' Hnil' Hlt'].
    + eexists. split; [done|]. split; [|done]. intros r [= <-]. by rewrite Ca, Cb, Hcr.
    + rewrite Cb in Hb. by inversion Hb.
    + rewrite (proj2 (Z.ltb_ge (len d) 0)), (proj2 (Z.eqb_neq (len d) 0)) by lia. rewrite Ca, Cb in *. cbn [mbind option_bind].
      assert (Hno : c ≠ d → ¬ (d :: ds) `prefix_of` (c :: cs)) by (intros Hcd [k [= ? _]]; congruence).
      destruct (len c =? len d) eqn:Elen; cbn [negb].
      2: { eexists. split; [done|]. split; [done|]. intros _. apply Hno. intros ->. lia. }
      apply Z.eqb_eq in Elen. rewrite take_len_app, Elen, take_len_app. case_bool_decide as Hcd.
      * subst d. inversion Ha; inversion Hb; subst. destruct (IH next next') as (r & Hr & Hr1 & Hr2); [done..|lia|].
        exists r. split; [done|]. split.
        -- intros rs Hrs. cbn. by rewrite <- (Hr1 rs Hrs).
        -- intros Hrn Hp. apply (Hr2 Hrn). by apply prefix_cons_inv_2 in Hp.
      * eexists. split; [done|]. split; [done|]. intros _. by apply Hno.
Qed.

(** ** Validity *)

Lemma valid_loop_spec fuel n e accept :
  (length e < fuel)%nat → e ≠ [] → len e <= n →
  valid_loop fuel n e accept = Some (bool_decide (Forall (fits accept) (components e)) && (n <? PATH_MAX)).
Proof.
  revert e. induction fuel as [|fuel IH]; intros e Hf He Hle; [lia|]. cbn [valid_loop].
  destruct (find_first_component_spec e accept) as [C|c cs C Hbad|c cs rest next C Hfit Hpos Hcr Hnext Hnil Hlt].
  - rewrite C. cbn [Z.ltb Z.compare]. change (len (@nil Z)) with 0. rewrite Z.sub_0_r. rewrite (bool_decide_eq_true_2 (Forall _ [])) by constructor.
    cbn [andb]. rewrite Z.ltb_antisym. destruct (PATH_MAX <=? n); [done|]. by rewrite bool_decide_eq_true_2.
  - change (- EINVAL <? 0) with true. rewrite (bool_decide_eq_false_2 (Forall _ _)); [done|]. rewrite C. by intros [? _]%Forall_cons.
  - rewrite (proj2 (Z.ltb_ge (len c) 0)) by lia. pose proof (len_nonneg next).
    destruct (PATH_MAX <=? n - len next) eqn:Ep.
    { apply Z.leb_le in Ep. rewrite (proj2 (Z.ltb_ge n PATH_MAX)) by lia. by rewrite andb_false_r. }
    case_bool_decide as Hn.
    + subst next. change (len (@nil Z)) with 0 in Ep. rewrite (bool_decide_eq_true_2 (Forall _ _)); [|rewrite C; constructor; [done|]; rewrite (proj1 Hnil eq_refl); constructor].
      cbn [andb]. f_equal. symmetry. apply Z.ltb_lt. lia.
    + rewrite IH; [|lia|done|unfold len in *; lia]. f_equal. f_equal. apply bool_decide_ext. rewrite C, Hnext. split.
      * intros Hx. by constructor.
      * by intros [_ ?]%Forall_cons.
Qed.

Lemma valid_spec p accept :
  path_is_valid_full p accept = Some (bool_decide (p ≠ [] ∧ Forall (fits accept) (components p) ∧ len p < PATH_MAX)).
Proof.
  unfold path_is_valid_full. case_bool_decide as Hp; [rewrite bool_decide_eq_false_2; [done|by intros [? _]]|].
  rewrite valid_loop_spec; [|lia|done|lia]. f_equal. symmetry.
  destruct (bool_decide (Forall (fits accept) (components p))) eqn:E1; cbn [andb].
  - apply bool_decide_eq_true in E1. destruct (len p <? PATH_MAX) eqn:E2.
    + apply bool_decide_eq_true_2. split_and!; [done|done|lia].
    + apply bool_decide_eq_false_2. intros (_ & _ & ?). lia.
  - apply bool_decide_eq_false in E1. apply bool_decide_eq_false_2. by intros (_ & ? & _).
Qed.

(** ** Normalized paths *)

Lemma contains_iff s p : contains s p = true ↔ ∃ a b, p = a ++ s ++ b.
Proof.
  induction p as [|c p IH]; cbn [contains].
  - rewrite orb_false_r, bool_decide_eq_true. split; [intros [b ->]; by exists [], b|].
    intros (a & b & Heq). symmetry in Heq. apply app_nil in Heq as [_ Hsb]. exists b. done.
  - rewrite orb_true_iff, bool_decide_eq_true, IH. split.
    + intros [[b ->]|(a & b & ->)]; [by exists [], b|by exists (c :: a), b].
    + intros ([|x a] & b & Heq); [left; by exists b|]. injection Heq as -> ->. right. eauto.
Qed.

(** A part that is neither the first nor the last. *)
Definition interior (x : list Z) (ps : list (list Z)) : Prop := ∃ a b, a ≠ [] ∧ b ≠ [] ∧ ps = a ++ x :: b.

Lemma parts_ne p : parts p ≠ [].
Proof. by destruct (parts_cons p) as (? & ? & ->). Qed.

Lemma contains_interior x p : no_slash x → contains (SLASH :: x ++ [SLASH]) p = true ↔ interior x (parts p).
Proof.
  intros Hx. rewrite contains_iff. split.
  - intros (a & b & ->). exists (parts a), (parts b). split_and!; [apply parts_ne..|].
    replace (a ++ (SLASH :: x ++ [SLASH]) ++ b) with (a ++ SLASH :: (x ++ SLASH :: b)) by (cbn; by rewrite <- app_assoc).
    by rewrite !parts_app, (parts_single x Hx).
  - intros (a & b & Ha & Hb & Hp). exists (join a), (join b). rewrite <- (join_parts p), Hp, join_app by done.
    rewrite (join_cons x b) by done. cbn. by rewrite <- app_assoc.
Qed.

Lemma dot_part p :
  (bool_decide (p = str ".") || bool_decide (str "./" `prefix_of` p) ||
   bool_decide (str "/." `suffix_of` p) || contains (str "/./") p) = true ↔ str "." ∈ parts p.
Proof.
  assert (Hd : no_slash (str ".")) by by_decide. pose proof (contains_interior (str ".") p Hd) as Hc.
  change (SLASH :: str "." ++ [SLASH]) with (str "/./") in Hc. rewrite !orb_true_iff, !bool_decide_eq_true, Hc. split.
  - intros [[[->|[k ->]]|[k ->]]|(a & b & _ & _ & ->)].
    + apply list_elem_of_here.
    + change (str "./" ++ k) with (str "." ++ SLASH :: k). rewrite parts_app. apply elem_of_app. left. apply list_elem_of_here.
    + change (str "/.") with (SLASH :: str "."). rewrite parts_app. apply elem_of_app. right. apply list_elem_of_here.
    + apply elem_of_app. right. apply list_elem_of_here.
  - intros (a & b & Hp)%list_elem_of_split. destruct a as [|a0 a], b as [|b0 b].
    + left. left. left. by rewrite <- (join_parts p), Hp.
    + left. left. right. exists (join (b0 :: b)). rewrite <- (join_parts p), Hp. cbn [app]. by rewrite join_cons.
    + left. right. exists (join (a0 :: a)). rewrite <- (join_parts p), Hp. by rewrite join_app.
    + right. exists (a0 :: a), (b0 :: b). done.
Qed.

Definition normal (p : list Z) : Prop :=
  p ≠ [] ∧ Forall (fits false) (components p) ∧ len p < PATH_MAX ∧ (str "." ∉ parts p) ∧ ¬ interior [] (parts p).

Lemma normalized_spec p : ∃ b, path_is_normalized p = Some b ∧ (b = true ↔ normal p).
Proof.
  unfold path_is_normalized. rewrite valid_spec. cbn [mbind option_bind]. unfold normal. pose proof (dot_part p) as Hdot.
  destruct (bool_decide (p ≠ [] ∧ Forall (fits false) (components p) ∧ len p < PATH_MAX)) eqn:Ev; cbn [negb].
  2: { exists false. split; [done|]. apply bool_decide_eq_false in Ev. naive_solver. }
  apply bool_decide_eq_true in Ev as (H1 & H2 & H3).
  destruct (bool_decide (p = str ".") || bool_decide (str "./" `prefix_of` p) ||
    bool_decide (str "/." `suffix_of` p) || contains (str "/./") p) eqn:Ed.
  { exists false. split; [done|]. split; [done|]. intros (_ & _ & _ & Hn & _). destruct Hn. by apply Hdot. }
  eexists. split; [done|]. rewrite negb_true_iff. pose proof (contains_interior [] p (not_elem_of_nil _)) as Hc.
  change (SLASH :: [] ++ [SLASH]) with (str "//") in Hc. rewrite <- Hc. split.
  - intros Hf. split_and!; [done..| |by rewrite Hf]. intros Hin%Hdot. congruence.
  - intros (_ & _ & _ & _ & Hn). by apply not_true_iff_false in Hn.
Qed.

Lemma parts_render abs cs :
  Forall (λ c, counts c ∧ no_slash c) cs → abs = true ∨ cs ≠ [] →
  parts (render abs cs) = (if abs then [[]] else []) ++ (if bool_decide (cs = []) then [[]] else cs).
Proof.
  intros Hf Hne. assert (Hn : Forall no_slash cs) by (eapply Forall_impl; [exact Hf|by intros ? []]).
  assert (Hj : cs ≠ [] → parts (join cs) = cs) by (intros; by apply parts_join).
  unfold render. destruct abs; cbn [parts app].
  - rewrite Z.eqb_refl. f_equal. case_bool_decide as Hc; [by subst|]. by apply Hj.
  - destruct Hne as [?|Hne]; [done|]. rewrite !bool_decide_eq_false_2 by done. by apply Hj.
Qed.

Lemma normal_render abs cs :
  Forall (λ c, counts c ∧ no_slash c) cs → abs = true ∨ cs ≠ [] →
  normal (render abs cs) ↔ Forall (fits false) cs ∧ len (render abs cs) < PATH_MAX.
Proof.
  intros Hf Hne. destruct (render_components abs cs Hf) as (Hc & _ & Hr0). unfold normal. rewrite Hc, parts_render by done.
  assert (Hcnt : ∀ c, c ∈ cs → c ≠ [] ∧ c ≠ str ".") by (intros c Hin; by apply (proj1 (Forall_forall _ _) Hf c)).
  split; [naive_solver|]. intros [H1 H2]. split_and!; [done..| |].
  - rewrite elem_of_app. intros [Hin|Hin].
    + destruct abs; [by apply list_elem_of_singleton in Hin|by apply elem_of_nil in Hin].
    + case_bool_decide; [by apply list_elem_of_singleton in Hin|]. by apply (Hcnt _ Hin).
  - intros (a & b & Ha & Hb & Heq).
    assert (Hin : [] ∈ (if bool_decide (cs = []) then [[]] else cs) ∧ cs ≠ []).
    { destruct abs; cbn [app] in Heq.
      - destruct a as [|x a]; [done|]. injection Heq as _ Heq. rewrite Heq. split; [apply elem_of_app; right; apply list_elem_of_here|].
        intros Hcs. rewrite Hcs in Heq. cbn in Heq. destruct a as [|y a]; [|by destruct a]. by destruct b.
      - rewrite Heq. split; [apply elem_of_app; right; apply list_elem_of_here|]. destruct Hne; [done|done]. }
    destruct Hin as [Hin Hcs]. rewrite bool_decide_eq_false_2 in Hin by done.
    by destruct (Hcnt _ Hin) as [[] _].
Qed.

Lemma length_join_filter ps : (length (join (filter counts ps)) <= length (join ps))%nat.
Proof.
  induction ps as [|x ps IH]; [done|]. destruct ps as [|y ps].
  - destruct (decide (counts x)); [by rewrite filter_cons_True|rewrite filter_cons_False by done; cbn; lia].
  - rewrite (join_cons x (y :: ps)) by done. rewrite length_app. cbn [length].
    destruct (decide (counts x)) as [Hx|Hx]; [rewrite filter_cons_True by done|rewrite filter_cons_False by done; lia].
    destruct (filter counts (y :: ps)) as [|z zs] eqn:Ef; [cbn; lia|]. rewrite join_cons by done. rewrite length_app. cbn [length]. lia.
Qed.

Lemma render_len p : p ≠ [] → len (render (path_is_absolute p) (components p)) <= len p.
Proof.
  intros Hp. unfold len, render. destruct p as [|c p]; [done|]. cbn [path_is_absolute]. destruct (c =? SLASH) eqn:Ec.
  - apply Z.eqb_eq in Ec as ->. rewrite components_absolute. pose proof (length_join_filter (parts p)) as H.
    rewrite join_parts in H. unfold components. cbn [length]. lia.
  - case_bool_decide; [cbn; lia|]. pose proof (length_join_filter (parts (c :: p))) as Hjf. rewrite join_parts in Hjf.
    unfold components. lia.
Qed.

(** ** Properties *)

(** [path_simplify] on a path without an overlong component terminates and gives the
    canonical path with the same components: a leading slash if there was one, single
    slashes between the components, no dots. It fits into the memory of the path, and
    simplifying it again changes nothing. *)
Theorem path_simplify_canonical (p : list Z) :
  p ≠ [] → Forall (fits true) (components p) →
  ∃ s, path_simplify p = Some s ∧ s = render (path_is_absolute p) (components p) ∧ len s <= len p ∧
    components s = components p ∧ path_is_absolute s = path_is_absolute p ∧ path_simplify s = Some s.
Proof.
  intros Hp Hf. assert (Hs : ∀ q, q ≠ [] → Forall (fits true) (components q) →
    path_simplify q = Some (render (path_is_absolute q) (components q))).
  { intros q Hq Hfq. unfold path_simplify. rewrite simplify_spec by done. cbn [andb]. by rewrite andb_false_r. }
  eexists. split; [by apply Hs|].
  destruct (render_components (path_is_absolute p) (components p) (components_ok p)) as (Hc & Ha & Hn).
  split_and!; [done|by apply render_len|done|done|]. rewrite Hs; [|done|by rewrite Hc]. by rewrite Hc, Ha.
Qed.

(** [path_compare] orders paths (without overlong components) by absoluteness and then
    by their components: it returns 0 exactly for paths with the same components, and
    swapping the arguments negates the result. *)
Theorem path_compare_order (a b : list Z) :
  Forall (fits true) (components a) → Forall (fits true) (components b) →
  ∃ r, path_compare a b = Some r ∧ path_compare b a = Some (- r) ∧
    (r = 0 ↔ path_is_absolute a = path_is_absolute b ∧ components a = components b) ∧
    (path_is_absolute a = path_is_absolute b → r = compare_components (components a) (components b)).
Proof.
  intros Ha Hb. unfold path_compare. destruct (path_is_absolute a), (path_is_absolute b).
  2: { exists 1. split_and!; try done. by split; [|intros []]. }
  2: { exists (-1). split_and!; try done. by split; [|intros []]. }
  all: change (cmp ?x ?x) with 0; cbn [negb Z.eqb]; rewrite !compare_loop_spec by (done || lia);
    eexists; (split; [done|]); rewrite compare_components_swap, compare_components_0; split_and!; [done|naive_solver|done].
Qed.

(** [path_startswith_full] returns a rest exactly when both paths are absolute or both
    relative and the components of the prefix begin those of the path; the rest then has
    the remaining components. *)
Theorem path_startswith_exact (path prefix : list Z) (accept_dot_dot : bool) :
  Forall (fits accept_dot_dot) (components path) → Forall (fits accept_dot_dot) (components prefix) →
  ∃ r, path_startswith_full path prefix accept_dot_dot = Some r ∧
    (is_Some r ↔ path_is_absolute path = path_is_absolute prefix ∧ components prefix `prefix_of` components path) ∧
    ∀ rest, r = Some rest → components path = components prefix ++ components rest.
Proof.
  intros Ha Hb. unfold path_startswith_full. destruct (eqb (path_is_absolute path) (path_is_absolute prefix)) eqn:E; cbn [negb].
  - apply eqb_prop in E. destruct (startswith_loop_spec (S (length prefix)) path prefix accept_dot_dot Ha Hb) as (r & Hr & H1 & H2); [lia|].
    exists r. split; [done|]. split; [|done]. destruct r as [rest|].
    + split; [|done]. intros _. split; [done|]. exists (components rest). by apply H1.
    + split; [by intros []|]. intros [_ Hp]. by destruct (H2 eq_refl).
  - apply eqb_false_iff in E. exists None. split; [done|]. split; [|done]. split; [by intros []|]. by intros [? _].
Qed.

Lemma path_simplify_canonical_witness :
  ∃ s, path_simplify (str "///foo//./bar/.") = Some s ∧ s = str "/foo/bar".
Proof.
  destruct (path_simplify_canonical (str "///foo//./bar/.")) as (s & H1 & H2 & _).
  - discriminate.
  - by_decide.
  - exists s. split; [exact H1|]. rewrite H2. reflexivity.
Defined.

Lemma path_compare_order_witness : path_compare (str "/foo//bar/") (str "/./foo/bar") = Some 0.
Proof.
  destruct (path_compare_order (str "/foo//bar/") (str "/./foo/bar")) as (r & H1 & _ & H2 & _).
  - by_decide.
  - by_decide.
  - rewrite H1. f_equal. apply H2. split; reflexivity.
Defined.

Lemma path_startswith_exact_witness :
  ∃ r, path_startswith_full (str "/foo/./bar/barfoo/") (str "/foo//") true = Some r ∧ is_Some r.
Proof.
  destruct (path_startswith_exact (str "/foo/./bar/barfoo/") (str "/foo//") true) as (r & H1 & H2 & _).
  - by_decide.
  - by_decide.
  - exists r. split; [exact H1|]. apply H2. split; [reflexivity|]. by_decide.
Defined.

(** The examples of the comments in the source. *)
Example simplify_examples :
  path_simplify (str ".//./foo//./bar/.") = Some (str "foo/bar") ∧ path_simplify (str "/.") = Some (str "/") ∧
  path_simplify (str "./.") = Some (str ".") ∧ path_is_normalized (str "/foo/../bar") = Some false ∧
  path_is_normalized (str "/foo/bar/") = Some true ∧
  path_find_first_component (str "//.//aaa///bbbbb/cc") true = (3, str "bbbbb/cc", Some (str "aaa///bbbbb/cc")).
Proof. vm_compute. split_and!; reflexivity. Qed.
