(* ===== verification/Siphash.v ===== *)
(** * SipHash-2-4 (src/basic/siphash24.c)

    The streaming interface: [siphash24_init], any number of [siphash24_compress],
    [siphash24_finalize]. A state stands for the bytes it has consumed: this is the
    abstract specification, and [siphash24_compress] is shown to append to it. *)

From S2P Require Import Prelude.

(** ** The code *)

Record siphash := Siphash { v0 : Z; v1 : Z; v2 : Z; v3 : Z; padding : Z; inlen : Z }.

Definition rotate_left (x b : Z) : Z := Z.lor (u64 (Z.shiftl x b)) (Z.shiftr x (64 - b)).

Definition sipround (s : siphash) : siphash :=
  let a := u64 (v0 s + v1 s) in
  let b := rotate_left (v1 s) 13 in
  let b := Z.lxor b a in
  let a := rotate_left a 32 in
  let c := u64 (v2 s + v3 s) in
  let d := rotate_left (v3 s) 16 in
  let d := Z.lxor d c in
  let a := u64 (a + d) in
  let d := rotate_left d 21 in
  let d := Z.lxor d a in
  let c := u64 (c + b) in
  let b := rotate_left b 17 in
  let b := Z.lxor b c in
  let c := rotate_left c 32 in
  Siphash a b c d (padding s) (inlen s).

(** [unaligned_read_le64], for as many bytes as there are. *)
Fixpoint le (bs : list Z) : Z :=
  match bs with
  | [] => 0
  | b :: bs => Z.lor b (Z.shiftl (le bs) 8)
  end.

(** Reading 8 bytes; out of range if there are fewer. *)
Definition unaligned_read_le64 (p : list Z) : option Z :=
  if (8 <=? length p)%nat then Some (le (take 8 p)) else None.

Definition siphash24_init (k : list Z) : option siphash :=
  k0 ← unaligned_read_le64 k;
  k1 ← unaligned_read_le64 (drop 8 k);
  Some (Siphash (Z.lxor 0x736f6d6570736575 k0) (Z.lxor 0x646f72616e646f6d k1)
          (Z.lxor 0x6c7967656e657261 k0) (Z.lxor 0x7465646279746573 k1) 0 0).

(** [v3 ^= m; sipround; sipround; v0 ^= m] *)
Definition mix (m : Z) (s : siphash) : siphash :=
  let s := Siphash (v0 s) (v1 s) (v2 s) (Z.lxor (v3 s) m) (padding s) (inlen s) in
  let s := sipround (sipround s) in
  Siphash (Z.lxor (v0 s) m) (v1 s) (v2 s) (v3 s) (padding s) (inlen s).

Definition set_padding (x : Z) (s : siphash) : siphash := Siphash (v0 s) (v1 s) (v2 s) (v3 s) x (inlen s).
Definition set_inlen (x : Z) (s : siphash) : siphash := Siphash (v0 s) (v1 s) (v2 s) (v3 s) (padding s) x.

(** [for ( ; in < end && left < 8; in++, left++)]: the padding, [left] and the rest. *)
Fixpoint fill_padding (inp : list Z) (left pad : Z) : Z * Z * list Z :=
  match inp with
  | [] => (pad, left, [])
  | b :: inp' =>
      if left <? 8 then fill_padding inp' (left + 1) (Z.lor pad (u64 (Z.shiftl b (left * 8))))
      else (pad, left, inp)
  end.

(** [for ( ; in < end; in += 8)]; [n] is [end - in]. *)
Fixpoint compress_blocks (fuel : nat) (n : Z) (inp : list Z) (s : siphash) : option (list Z * siphash) :=
  if n <=? 0 then Some (inp, s)
  else match fuel with
  | O => None
  | S fuel =>
      m ← unaligned_read_le64 inp;
      compress_blocks fuel (n - 8) (drop 8 inp) (mix m s)
  end.

(** The [switch]: bytes [left - 1] down to 0. *)
Fixpoint pad_tail (left : nat) (inp : list Z) (pad : Z) : option Z :=
  match left with
  | O => Some pad
  | S i => b ← inp !! i; pad_tail i inp (Z.lor pad (u64 (Z.shiftl b (8 * Z.of_nat i))))
  end.

(** The part of [siphash24_compress] from the loop over the whole blocks on. *)
Definition compress_rest (inp : list Z) (s : siphash) : option siphash :=
  '(inp, s) ← compress_blocks (length inp) (len inp - inlen s mod 8) inp s;
  pad ← pad_tail (Z.to_nat (Z.land (inlen s) 7)) inp (padding s);
  Some (set_padding pad s).

Definition siphash24_compress (inp : list Z) (s : siphash) : option siphash :=
  let left := Z.land (inlen s) 7 in
  let s := set_inlen (u64 (inlen s + len inp)) s in
  if 0 <? left then
    let '(pad, filled, inp) := fill_padding inp left (padding s) in
    let s := set_padding pad s in
    if bool_decide (inp = []) && (filled <? 8) then Some s
    else compress_rest inp (set_padding 0 (mix (padding s) s))
  else compress_rest inp s.

Definition siphash24_finalize (s : siphash) : Z :=
  let b := Z.lor (padding s) (u64 (Z.shiftl (inlen s) 56)) in
  let s := mix b s in
  let s := Siphash (v0 s) (v1 s) (Z.lxor (v2 s) 0xff) (v3 s) (padding s) (inlen s) in
  let s := sipround (sipround (sipround (sipround s))) in
  Z.lxor (Z.lxor (Z.lxor (v0 s) (v1 s)) (v2 s)) (v3 s).

Definition siphash24 (inp k : list Z) : option Z :=
  s ← siphash24_init k;
  s ← siphash24_compress inp s;
  Some (siphash24_finalize s).

(** The NUL is hashed too. *)
Definition siphash24_string (s k : list Z) : option Z := siphash24 (s ++ [0]) k.

(** The vector of the test suite. *)
Example siphash24_vector :
  siphash24 (Z.of_nat <$> seq 0 15) (Z.of_nat <$> seq 0 16) = Some 0xa129ca6149be45e5.
Proof. vm_compute. reflexivity. Qed.

(** ** The abstract specification: the bytes consumed so far *)

Fixpoint rounds_with (f : Z → siphash → siphash) (n : nat) (bs : list Z) (s : siphash) : siphash :=
  match n with
  | O => s
  | S n => rounds_with f n (drop 8 bs) (f (le (take 8 bs)) s)
  end.

Definition rounds : nat → list Z → siphash → siphash := rounds_with mix.

(** Whole blocks have been mixed in, the rest is in the padding. *)
Definition consumed (s0 : siphash) (bs : list Z) (s : siphash) : Prop :=
  ∃ n pre tail, bs = pre ++ tail ∧ length pre = (8 * n)%nat ∧ (length tail < 8)%nat ∧
    s = set_padding (le tail) (set_inlen (len bs) (rounds n pre s0)).

Lemma consumed_unique s0 bs s s' : consumed s0 bs s → consumed s0 bs s' → s = s'.
Proof.
  intros (n & pre & tail & -> & Hn & Ht & ->) (n' & pre' & tail' & Heq & Hn' & Ht' & ->).
  assert (Hl : length (pre ++ tail) = length (pre' ++ tail')) by by rewrite Heq. rewrite !length_app in Hl.
  assert (n = n') as <- by lia. apply app_inj_1 in Heq as [-> ->]; [done|lia].
Qed.

Lemma le_app a b : le (a ++ b) = Z.lor (le a) (Z.shiftl (le b) (8 * len a)).
Proof.
  induction a as [|x a IH]; cbn [app le]; [by rewrite Z.shiftl_0_r|]. pose proof (len_nonneg a).
  rewrite IH, len_cons, Z.shiftl_lor, Z.lor_assoc, Z.shiftl_shiftl by lia. do 2 f_equal. lia.
Qed.

Lemma shift_byte b i : is_byte b → 0 <= i < 8 → u64 (Z.shiftl b (i * 8)) = Z.shiftl b (i * 8).
Proof.
  intros Hb Hi. apply u64_small. rewrite Z.shiftl_mul_pow2 by lia. unfold is_byte in Hb.
  assert (0 < 2 ^ (i * 8)) by (apply Z.pow_pos_nonneg; lia).
  assert (2 ^ (i * 8) <= 2 ^ 56) by (apply Z.pow_le_mono_r; lia). change (2 ^ 64) with (256 * 2 ^ 56). nia.
Qed.

Lemma fill_spec inp n pad :
  bytes inp → 0 <= n <= 8 →
  fill_padding inp n pad =
    (Z.lor pad (Z.shiftl (le (take (Z.to_nat (8 - n)) inp)) (8 * n)), Z.min (n + len inp) 8, drop (Z.to_nat (8 - n)) inp).
Proof.
  revert n pad. induction inp as [|b inp IH]; intros n pad Hb Hn; cbn [fill_padding].
  - rewrite take_nil, drop_nil. cbn [le]. rewrite Z.shiftl_0_l, Z.lor_0_r. change (len (@nil Z)) with 0. do 2 f_equal. lia.
  - inversion Hb; subst. destruct (n <? 8) eqn:E.
    + rewrite IH by (done || lia). rewrite shift_byte by (done || lia). rewrite len_cons.
      replace (Z.to_nat (8 - n)) with (S (Z.to_nat (8 - (n + 1)))) by lia. cbn [take drop le]. f_equal. f_equal.
      * rewrite Z.shiftl_lor, Z.lor_assoc, Z.shiftl_shiftl by lia. replace (n * 8) with (8 * n) by lia.
        replace (8 * (n + 1)) with (8 + 8 * n) by lia. done.
      * lia.
    + replace (Z.to_nat (8 - n)) with 0%nat by lia. cbn [take drop le]. rewrite Z.shiftl_0_l, Z.lor_0_r.
      rewrite len_cons. pose proof (len_nonneg inp). do 2 f_equal. lia.
Qed.

Lemma blocks_spec q fuel inp s :
  (8 * q <= length inp)%nat → (q <= fuel)%nat →
  compress_blocks fuel (8 * Z.of_nat q) inp s = Some (drop (8 * q) inp, rounds q (take (8 * q) inp) s).
Proof.
  revert fuel inp s. induction q as [|q IH]; intros fuel inp s Hl Hf; [by destruct fuel|].
  destruct fuel as [|fuel]; [lia|]. cbn [compress_blocks]. destruct (8 * Z.of_nat (S q) <=? 0) eqn:E; [lia|].
  unfold unaligned_read_le64. rewrite (proj2 (Nat.leb_le 8 (length inp))) by lia. cbn [mbind option_bind].
  replace (8 * Z.of_nat (S q) - 8) with (8 * Z.of_nat q) by lia. rewrite IH; [|rewrite length_drop; lia|lia].
  rewrite drop_drop. unfold rounds. cbn [rounds_with]. rewrite take_take, Nat.min_l by lia.
  replace (8 + 8 * q)%nat with (8 * S q)%nat by lia. do 2 f_equal. f_equal.
  rewrite skipn_firstn_comm. f_equal. lia.
Qed.

Lemma pad_tail_spec i inp pad :
  bytes inp → (i <= length inp)%nat → (i <= 8)%nat → pad_tail i inp pad = Some (Z.lor pad (le (take i inp))).
Proof.
  revert pad. induction i as [|i IH]; intros pad Hb Hl Hi; cbn [pad_tail]; [by rewrite take_0, Z.lor_0_r|].
  destruct (lookup_lt_is_Some_2 inp i) as [b Hib]; [lia|]. rewrite Hib. cbn [mbind option_bind].
  assert (Hbb : is_byte b) by (eapply Forall_lookup_1; eauto).
  rewrite IH by (done || lia). rewrite (take_S_r _ _ b) by done. rewrite le_app. cbn [le]. rewrite Z.shiftl_0_l, Z.lor_0_r.
  replace (8 * Z.of_nat i) with (Z.of_nat i * 8) by lia. rewrite shift_byte by (done || lia).
  unfold len. rewrite length_take, Nat.min_l by lia. rewrite <- Z.lor_assoc. do 2 f_equal. rewrite Z.lor_comm. do 2 f_equal. lia.
Qed.

Lemma rounds_app n q a b s : length a = (8 * n)%nat → rounds (n + q) (a ++ b) s = rounds q b (rounds n a s).
Proof.
  revert a s. induction n as [|n IH]; intros a s Ha; unfold rounds; cbn [Nat.add rounds_with]; fold rounds.
  - by destruct a.
  - rewrite take_app_le, drop_app_le by lia. rewrite IH; [done|]. rewrite length_drop. lia.
Qed.

Lemma sipround_padding x s : sipround (set_padding x s) = set_padding x (sipround s).
Proof. reflexivity. Qed.

Lemma sipround_inlen x s : sipround (set_inlen x s) = set_inlen x (sipround s).
Proof. reflexivity. Qed.

Lemma mix_padding m x s : mix m (set_padding x s) = set_padding x (mix m s).
Proof.
  unfold mix. set (s1 := Siphash (v0 s) (v1 s) (v2 s) (Z.lxor (v3 s) m) (padding s) (inlen s)).
  change (Siphash _ _ _ _ (padding (set_padding x s)) _) with (set_padding x s1). rewrite !sipround_padding.
  by destruct (sipround (sipround s1)).
Qed.

Lemma mix_inlen m x s : mix m (set_inlen x s) = set_inlen x (mix m s).
Proof.
  unfold mix. set (s1 := Siphash (v0 s) (v1 s) (v2 s) (Z.lxor (v3 s) m) (padding s) (inlen s)).
  change (Siphash _ _ _ _ _ (inlen (set_inlen x s))) with (set_inlen x s1). rewrite !sipround_inlen.
  by destruct (sipround (sipround s1)).
Qed.

Lemma rounds_with_set f n bs x y s :
  (∀ m x s, f m (set_padding x s) = set_padding x (f m s)) → (∀ m x s, f m (set_inlen x s) = set_inlen x (f m s)) →
  rounds_with f n bs (set_padding x (set_inlen y s)) = set_padding x (set_inlen y (rounds_with f n bs s)).
Proof.
  intros Hp Hi. revert bs s. induction n as [|n IH]; intros bs s; cbn [rounds_with]; [done|]. by rewrite Hp, Hi, IH.
Qed.

Lemma rounds_set n bs x y s : rounds n bs (set_padding x (set_inlen y s)) = set_padding x (set_inlen y (rounds n bs s)).
Proof. exact (rounds_with_set mix n bs x y s mix_padding mix_inlen). Qed.

Lemma land_7 z : Z.land z 7 = z mod 8.
Proof. change 7 with (Z.ones 3). by rewrite Z.land_ones. Qed.

Lemma compress_rest_spec s0 n pre inp :
  length pre = (8 * n)%nat → bytes inp →
  ∃ s', compress_rest inp (set_padding 0 (set_inlen (len pre + len inp) (rounds n pre s0))) = Some s' ∧
    consumed s0 (pre ++ inp) s'.
Proof.
  intros Hn Hb. unfold compress_rest. cbn [inlen set_padding set_inlen].
  set (q := (length inp / 8)%nat). pose proof (Nat.div_mod_eq (length inp) 8) as Hq. pose proof (Nat.mod_upper_bound (length inp) 8 ltac:(lia)) as Hr.
  assert (Hmod : (len pre + len inp) mod 8 = Z.of_nat (length inp mod 8)).
  { replace (len pre + len inp) with (Z.of_nat (length inp mod 8) + (Z.of_nat n + Z.of_nat q) * 8)
      by (unfold len, q; lia). rewrite Z.mod_add, Z.mod_small; lia. }
  rewrite Hmod.
  replace (len inp - Z.of_nat (length inp mod 8)) with (8 * Z.of_nat q) by (unfold len, q; lia).
  rewrite blocks_spec by (unfold q; lia). cbn [mbind option_bind]. rewrite rounds_set. cbn [inlen padding set_padding set_inlen].
  rewrite land_7, Hmod, Nat2Z.id.
  assert (Hld : length (drop (8 * q) inp) = (length inp mod 8)%nat) by (rewrite length_drop; unfold q; lia).
  rewrite pad_tail_spec; [|by apply Forall_drop|lia|lia]. cbn [mbind option_bind]. eexists. split; [done|].
  exists (n + q)%nat, (pre ++ take (8 * q) inp), (drop (8 * q) inp). split_and!.
  - by rewrite <- app_assoc, take_drop.
  - rewrite length_app, length_take. unfold q. lia.
  - lia.
  - rewrite rounds_app by done. rewrite len_app, Z.lor_0_l. rewrite take_ge by lia. done.
Qed.

Lemma rounds_1 bs s : length bs = 8%nat → rounds 1 bs s = mix (le bs) s.
Proof. intros Hl. unfold rounds. cbn [rounds_with]. by rewrite take_ge by lia. Qed.

Lemma set_inlen_padding x y s : set_inlen x (set_padding y s) = set_padding y (set_inlen x s).
Proof. reflexivity. Qed.

Lemma set_inlen_twice x y s : set_inlen x (set_inlen y s) = set_inlen x s.
Proof. reflexivity. Qed.

Lemma set_padding_twice x y s : set_padding x (set_padding y s) = set_padding x s.
Proof. reflexivity. Qed.

Lemma compress_spec s0 bs s inp :
  consumed s0 bs s → bytes inp → len bs + len inp < 2 ^ 64 →
  ∃ s', siphash24_compress inp s = Some s' ∧ consumed s0 (bs ++ inp) s'.
Proof.
  intros (n & pre & tail & -> & Hn & Ht & ->) Hb Hmax. unfold siphash24_compress. cbn [inlen padding set_padding set_inlen].
  rewrite !set_inlen_padding, set_inlen_twice. rewrite land_7, len_app in *.
  pose proof (len_nonneg pre). pose proof (len_nonneg tail). pose proof (len_nonneg inp).
  assert (Hleft : (len pre + len tail) mod 8 = len tail).
  { replace (len pre + len tail) with (len tail + Z.of_nat n * 8) by (unfold len; lia).
    rewrite Z.mod_add, Z.mod_small; unfold len; lia. }
  rewrite Hleft. rewrite (u64_small (len pre + len tail + len inp)) by lia.
  destruct (0 <? len tail) eqn:E0.
  - rewrite fill_spec; [|done|unfold len; lia]. set (m := Z.to_nat (8 - len tail)).
    assert (Hpad : Z.lor (le tail) (Z.shiftl (le (take m inp)) (8 * len tail)) = le (tail ++ take m inp)) by by rewrite le_app.
    rewrite Hpad. destruct (bool_decide (drop m inp = []) && (Z.min (len tail + len inp) 8 <? 8)) eqn:Es.
    + apply andb_true_iff in Es as [_ Es%Z.ltb_lt]. eexists. split; [done|].
      exists n, pre, (tail ++ inp). rewrite take_ge by (unfold m, len in *; lia). split_and!; [by rewrite app_assoc|done| |].
      * rewrite length_app. unfold len in *. lia.
      * by rewrite set_padding_twice, !len_app.
    + assert (Hlong : 8 <= len tail + len inp).
      { apply andb_false_iff in Es as [Hd%bool_decide_eq_false|?%Z.ltb_ge]; [|lia]. destruct (Z.leb_spec 8 (len tail + len inp)); [done|].
        destruct Hd. apply drop_ge. unfold m, len in *. lia. }
      assert (Hblk : length (tail ++ take m inp) = 8%nat) by (rewrite length_app, length_take; unfold m, len in *; lia).
      destruct (compress_rest_spec s0 (S n) (pre ++ tail ++ take m inp) (drop m inp)) as (s' & Hs' & Hc).
      { rewrite length_app, Hblk. lia. } { by apply Forall_drop. }
      exists s'. rewrite <- !app_assoc, take_drop in Hc. rewrite <- !app_assoc. split; [|done]. rewrite <- Hs'. f_equal.
      replace (len (pre ++ tail ++ take m inp) + len (drop m inp)) with (len pre + len tail + len inp)
        by (unfold len; rewrite !length_app, length_take, length_drop; unfold m, len in *; lia).
      replace (S n) with (n + 1)%nat by lia. rewrite rounds_app by done.
      rewrite !mix_padding, mix_inlen, !set_padding_twice, rounds_1 by done. reflexivity.
  - assert (tail = []) as -> by (destruct tail; [done|]; rewrite len_cons in E0; pose proof (len_nonneg tail); lia).
    rewrite !app_nil_r. cbn [le]. replace (len pre + len [] + len inp) with (len pre + len inp) by (change (len (@nil Z)) with 0; lia).
    by apply compress_rest_spec.
Qed.

Fixpoint compress_all (chunks : list (list Z)) (s : siphash) : option siphash :=
  match chunks with
  | [] => Some s
  | c :: chunks => s ← siphash24_compress c s; compress_all chunks s
  end.

Lemma compress_all_spec s0 chunks bs s :
  consumed s0 bs s → Forall bytes chunks → len bs + len (concat chunks) < 2 ^ 64 →
  ∃ s', compress_all chunks s = Some s' ∧ consumed s0 (bs ++ concat chunks) s'.
Proof.
  revert bs s. induction chunks as [|c chunks IH]; intros bs s Hc Hb Hl; cbn [compress_all concat].
  - exists s. by rewrite app_nil_r.
  - inversion Hb; subst. cbn [concat] in Hl. rewrite len_app in Hl. pose proof (len_nonneg (concat chunks)).
    destruct (compress_spec s0 bs s c) as (s1 & -> & Hc1); [done|done|lia|]. cbn [mbind option_bind].
    rewrite app_assoc. apply IH; [done|done|rewrite len_app; lia].
Qed.

Lemma init_spec k : (16 <= length k)%nat → ∃ s, siphash24_init k = Some s ∧ consumed s [] s.
Proof.
  intros Hk. unfold siphash24_init, unaligned_read_le64. rewrite length_drop.
  rewrite !(proj2 (Nat.leb_le 8 _)) by lia. cbn [mbind option_bind]. eexists. split; [reflexivity|].
  exists 0%nat, [], []. split_and!; [reflexivity|reflexivity|cbn; lia|reflexivity].
Qed.

Lemma siphash24_total k inp :
  (16 <= length k)%nat → bytes inp → len inp < 2 ^ 64 → ∃ h, siphash24 inp k = Some h.
Proof.
  intros Hk Hb Hl. destruct (init_spec k Hk) as (s0 & H0 & Hc0).
  destruct (compress_spec s0 [] s0 inp) as (s & Hs & _); [done|done|change (len (@nil Z)) with 0; lia|].
  unfold siphash24. rewrite H0. cbn [mbind option_bind]. rewrite Hs. cbn [mbind option_bind]. eauto.
Qed.

(** C39: hashing in pieces is hashing at once. However the input is cut (the cuts need not be at
    block boundaries, pieces may be empty), [siphash24_init], one [siphash24_compress] per piece
    and [siphash24_finalize] give a result, the one of [siphash24] on the concatenation: no read
    is out of bounds, and each state is determined by the bytes consumed so far, whole blocks
    mixed in and the rest in the padding. *)
Theorem siphash24_streaming k chunks :
  (16 <= length k)%nat → Forall bytes chunks → len (concat chunks) < 2 ^ 64 →
  ∃ s0 s h, siphash24_init k = Some s0 ∧ compress_all chunks s0 = Some s ∧
    consumed s0 (concat chunks) s ∧ siphash24_finalize s = h ∧ siphash24 (concat chunks) k = Some h.
Proof.
  intros Hk Hb Hl. destruct (init_spec k Hk) as (s0 & H0 & Hc0). pose proof (len_nonneg (concat chunks)).
  destruct (compress_all_spec s0 chunks [] s0) as (s & Hs & Hc); [done|done|change (len (@nil Z)) with 0; lia|].
  destruct (compress_spec s0 [] s0 (concat chunks)) as (s' & Hs' & Hc').
  { done. } { by apply Forall_concat. } { change (len (@nil Z)) with 0; lia. }
  exists s0, s, (siphash24_finalize s). split_and!; [done..|]. unfold siphash24. rewrite H0. cbn [mbind option_bind].
  rewrite Hs'. cbn [mbind option_bind]. by rewrite (consumed_unique _ _ _ _ Hc' Hc).
Qed.

Lemma siphash24_streaming_witness :
  let k := Z.of_nat <$> seq 0 16 in let chunks := [[1; 2; 3]; []; [4; 5; 6; 7; 8; 9; 10; 11; 12; 13]; [14]] in
  ∃ s0 s h, siphash24_init k = Some s0 ∧ compress_all chunks s0 = Some s ∧
    consumed s0 (concat chunks) s ∧ siphash24_finalize s = h ∧ siphash24 (concat chunks) k = Some h.
Proof. apply siphash24_streaming; [by vm_compute|by_decide|by vm_compute]. Defined.
