(* ===== verification/UnitName.v ===== *)
(** * Unit names (src/basic/unit-name.c)

    Strings are lists of characters without the NUL. [None] is a failed assertion; memory
    allocation succeeds. A name is <prefix>[@[<instance>]].<type>; the file has the checks of
    names, the functions that take names apart and put them together, the escaping of paths and
    the slice hierarchy. *)

From S2P Require Import Prelude Hexdecoct Siphash PathUtil.

Definition UNIT_NAME_MAX : Z := 256.
Definition UNIT_NAME_HASH_LENGTH_CHARS : Z := 16.
Definition ENAMETOOLONG : Z := 36.
Definition EMSGSIZE : Z := 90.

(** ** Strings *)

(** [strchr()]: what is before the first [c], and the rest from there. *)
Fixpoint strchr (s : list Z) (c : Z) : option (list Z * list Z) :=
  match s with
  | [] => None
  | x :: s' =>
      if x =? c then Some ([], s)
      else match strchr s' c with Some (a, b) => Some (x :: a, b) | None => None end
  end.

(** [strrchr()]: the same for the last [c]. *)
Fixpoint strrchr (s : list Z) (c : Z) : option (list Z * list Z) :=
  match s with
  | [] => None
  | x :: s' =>
      match strrchr s' c with
      | Some (a, b) => Some (x :: a, b)
      | None => if x =? c then Some ([], s) else None
      end
  end.

Definition in_charset (s charset : list Z) : bool := forallb (λ c, bool_decide (c ∈ charset)) s.

Definition startswith (s prefix : list Z) : bool := bool_decide (prefix `prefix_of` s).

(** [endswith()]: what is before the postfix. *)
Definition endswith (s postfix : list Z) : option (list Z) :=
  if bool_decide (postfix `suffix_of` s) then Some (take (length s - length postfix) s) else None.

Definition DIGITS : list Z := str "0123456789".
Definition LETTERS : list Z := str "abcdefghijklmnopqrstuvwxyzABCDEFGHIJKLMNOPQRSTUVWXYZ".
Definition LOWERCASE_HEXDIGITS : list Z := DIGITS ++ str "abcdef".
Definition GLOB_CHARS : list Z := str "*?[".
Definition VALID_CHARS : list Z := DIGITS ++ LETTERS ++ str ":-_.\".
Definition VALID_CHARS_WITH_AT : list Z := str "@" ++ VALID_CHARS.
Definition VALID_CHARS_GLOB : list Z := VALID_CHARS_WITH_AT ++ str "[]!-*?".

Definition string_is_glob (p : list Z) : bool := existsb (λ c, bool_decide (c ∈ GLOB_CHARS)) p.

(** ** Unit types *)

Inductive UnitType :=
  | UNIT_SERVICE | UNIT_MOUNT | UNIT_SWAP | UNIT_SOCKET | UNIT_TARGET | UNIT_DEVICE
  | UNIT_AUTOMOUNT | UNIT_TIMER | UNIT_PATH | UNIT_SLICE | UNIT_SCOPE.

#[global] Instance UnitType_eq_dec : EqDecision UnitType.
Proof. solve_decision. Defined.

Definition unit_type_to_string (t : UnitType) : list Z :=
  match t with
  | UNIT_SERVICE => str "service"
  | UNIT_SOCKET => str "socket"
  | UNIT_TARGET => str "target"
  | UNIT_DEVICE => str "device"
  | UNIT_MOUNT => str "mount"
  | UNIT_AUTOMOUNT => str "automount"
  | UNIT_SWAP => str "swap"
  | UNIT_TIMER => str "timer"
  | UNIT_PATH => str "path"
  | UNIT_SLICE => str "slice"
  | UNIT_SCOPE => str "scope"
  end.

Definition unit_types : list UnitType :=
  [ UNIT_SERVICE; UNIT_MOUNT; UNIT_SWAP; UNIT_SOCKET; UNIT_TARGET; UNIT_DEVICE;
    UNIT_AUTOMOUNT; UNIT_TIMER; UNIT_PATH; UNIT_SLICE; UNIT_SCOPE ].

Fixpoint string_table_lookup (table : list UnitType) (key : list Z) : option UnitType :=
  match table with
  | [] => None
  | t :: table => if bool_decide (unit_type_to_string t = key) then Some t else string_table_lookup table key
  end.

(** [None] is -EINVAL. *)
Definition unit_type_from_string (s : list Z) : option UnitType := string_table_lookup unit_types s.

(** ** Checking names *)

(** [UNIT_NAME_PLAIN], [UNIT_NAME_TEMPLATE] and [UNIT_NAME_INSTANCE]. *)
Record UnitNameFlags := Flags { plain : bool; template : bool; instance : bool }.
Definition UNIT_NAME_PLAIN : UnitNameFlags := Flags true false false.
Definition UNIT_NAME_TEMPLATE : UnitNameFlags := Flags false true false.
Definition UNIT_NAME_INSTANCE : UnitNameFlags := Flags false false true.
Definition UNIT_NAME_ANY : UnitNameFlags := Flags true true true.

(** The loop over the part before the suffix, [i] the index of its head in the name: [None] for an
    invalid character, or the position of the first @. *)
Fixpoint name_loop (p : list Z) (i : Z) (at_ : option Z) : option (option Z) :=
  match p with
  | [] => Some at_
  | c :: p =>
      let at_ := if (c =? ch "@") && bool_decide (at_ = None) then Some i else at_ in
      if bool_decide (c ∈ VALID_CHARS_WITH_AT) then name_loop p (i + 1) at_ else None
  end.

Definition unit_name_is_valid (n : list Z) (flags : UnitNameFlags) : bool :=
  if negb (plain flags || template flags || instance flags) then false
  else if bool_decide (n = []) then false
  else if UNIT_NAME_MAX <=? len n then false
  else match strrchr n (ch ".") with
  | None => false
  | Some (p, e) =>
      if bool_decide (p = []) then false
      else if bool_decide (unit_type_from_string (drop 1 e) = None) then false
      else match name_loop p 0 None with
      | None => false
      | Some at_ =>
          if bool_decide (at_ = Some 0) then false
          else if plain flags && bool_decide (at_ = None) then true
          else if instance flags && match at_ with Some a => a + 1 <? len p | None => false end then true
          else template flags && bool_decide (at_ = Some (len p - 1))
      end
  end.

Definition unit_prefix_is_valid (p : list Z) : bool :=
  if bool_decide (p = []) then false else in_charset p VALID_CHARS.

Definition unit_instance_is_valid (i : list Z) : bool :=
  if bool_decide (i = []) then false else in_charset i (str "@" ++ VALID_CHARS).

Definition unit_suffix_is_valid (s : list Z) : bool :=
  match s with
  | [] => false
  | c :: s => if negb (c =? ch ".") then false else bool_decide (unit_type_from_string s ≠ None)
  end.

(** ** Taking names apart *)

(** The part before the first @ or, without one, before the last dot. *)
Definition split_prefix (n : list Z) : option (list Z * list Z) :=
  match strchr n (ch "@") with Some r => Some r | None => strrchr n (ch ".") end.

Definition unit_name_to_prefix (n : list Z) : option (res (list Z)) :=
  if negb (unit_name_is_valid n UNIT_NAME_ANY) then Some (Err (-EINVAL))
  else
    '(s, _) ← split_prefix n;
    Some (Ok s).

(** The class of the name, and the instance. *)
Definition unit_name_to_instance (n : list Z) : res (UnitNameFlags * option (list Z)) :=
  if negb (unit_name_is_valid n UNIT_NAME_ANY) then Err (-EINVAL)
  else match strchr n (ch "@") with
  | None => Ok (UNIT_NAME_PLAIN, None)
  | Some (_, p) =>
      match strrchr (drop 1 p) (ch ".") with
      | None => Err (-EINVAL)
      | Some (i, _) => Ok (if bool_decide (i ≠ []) then UNIT_NAME_INSTANCE else UNIT_NAME_TEMPLATE, Some i)
      end
  end.

Definition unit_name_classify (n : list Z) : res UnitNameFlags := fst <$> unit_name_to_instance n.

Definition unit_name_to_prefix_and_instance (n : list Z) : res (list Z) :=
  if negb (unit_name_is_valid n UNIT_NAME_ANY) then Err (-EINVAL)
  else match strrchr n (ch ".") with
  | None => Err (-EINVAL)
  | Some (s, _) => Ok s
  end.

(** [_UNIT_TYPE_INVALID] is -EINVAL. *)
Definition unit_name_to_type (n : list Z) : option (res UnitType) :=
  if negb (unit_name_is_valid n UNIT_NAME_ANY) then Some (Err (-EINVAL))
  else
    '(_, e) ← strrchr n (ch ".");
    Some (match unit_type_from_string (drop 1 e) with Some t => Ok t | None => Err (-EINVAL) end).

Definition unit_name_change_suffix (n suffix : list Z) : option (res (list Z)) :=
  if negb (unit_name_is_valid n UNIT_NAME_ANY) then Some (Err (-EINVAL))
  else if negb (unit_suffix_is_valid suffix) then Some (Err (-EINVAL))
  else
    '(a, _) ← strrchr n (ch ".");
    let s := a ++ suffix in
    Some (if unit_name_is_valid s UNIT_NAME_ANY then Ok s else Err (-EINVAL)).

(** ** Putting names together *)

Definition unit_name_build_from_type (prefix : list Z) (inst : option (list Z)) (type : UnitType) : res (list Z) :=
  if negb (unit_prefix_is_valid prefix) then Err (-EINVAL)
  else
    let ut := unit_type_to_string type in
    match inst with
    | Some i =>
        if negb (unit_instance_is_valid i) then Err (-EINVAL)
        else
          let s := prefix ++ str "@" ++ i ++ str "." ++ ut in
          if unit_name_is_valid s UNIT_NAME_INSTANCE then Ok s else Err (-EINVAL)
    | None =>
        let s := prefix ++ str "." ++ ut in
        if unit_name_is_valid s UNIT_NAME_PLAIN then Ok s else Err (-EINVAL)
    end.

Definition unit_name_build (prefix : list Z) (inst : option (list Z)) (suffix : list Z) : res (list Z) :=
  match suffix with
  | [] => Err (-EINVAL)
  | c :: suffix =>
      if negb (c =? ch ".") then Err (-EINVAL)
      else match unit_type_from_string suffix with
      | None => Err (-EINVAL)
      | Some type => unit_name_build_from_type prefix inst type
      end
  end.

Definition unit_name_replace_instance (f i : list Z) : option (res (list Z)) :=
  if negb (unit_name_is_valid f (Flags false true true)) then Some (Err (-EINVAL))
  else if negb (unit_instance_is_valid i) then Some (Err (-EINVAL))
  else
    '(a, _) ← strchr f (ch "@");
    '(_, e) ← strrchr f (ch ".");
    let s := a ++ str "@" ++ i ++ e in
    Some (if unit_name_is_valid s UNIT_NAME_INSTANCE then Ok s else Err (-EINVAL)).

Definition unit_name_template (f : list Z) : option (res (list Z)) :=
  if negb (unit_name_is_valid f (Flags false true true)) then Some (Err (-EINVAL))
  else
    '(a, _) ← strchr f (ch "@");
    '(_, e) ← strrchr f (ch ".");
    Some (Ok (a ++ str "@" ++ e)).

Definition unit_name_prefix_equal (a b : list Z) : option bool :=
  if negb (unit_name_is_valid a UNIT_NAME_ANY) || negb (unit_name_is_valid b UNIT_NAME_ANY) then Some false
  else
    '(p, _) ← split_prefix a;
    '(q, _) ← split_prefix b;
    Some (bool_decide (p = q)).

(** ** Escaping *)

(** [hexchar(c >> 4)] masks the result: the sign of the [char] does not matter. *)
Definition do_escape_char (c : Z) : list Z := [ch "\"; ch "x"; hexchar (Z.shiftr c 4); hexchar c].

Definition escape_one (c : Z) : list Z :=
  if c =? ch "/" then str "-"
  else if (c =? ch "-") || (c =? ch "\") || negb (bool_decide (c ∈ VALID_CHARS)) then do_escape_char c
  else [c].

Definition do_escape (f : list Z) : list Z :=
  match f with
  | [] => []
  | c :: f' => if c =? ch "." then do_escape_char c ++ concat (escape_one <$> f') else concat (escape_one <$> f)
  end.

Definition unit_name_escape (f : list Z) : list Z := do_escape f.

(** [f[i]], which is the NUL at the end of the string. *)
Definition char_at (f : list Z) (i : nat) : Z := default 0 (f !! i).

(** The loop; [t] is what was written. An escape consumes four characters. *)
Fixpoint unescape_loop (fuel : nat) (f t : list Z) : option (res (list Z)) :=
  match f with
  | [] => Some (Ok t)
  | c :: f' =>
      match fuel with
      | O => None
      | S fuel =>
          if c =? ch "-" then unescape_loop fuel f' (t ++ [ch "/"])
          else if c =? ch "\" then
            if negb (char_at f 1 =? ch "x") then Some (Err (-EINVAL))
            else
              let a := unhexchar (char_at f 2) in
              if a <? 0 then Some (Err (-EINVAL))
              else
                let b := unhexchar (char_at f 3) in
                if b <? 0 then Some (Err (-EINVAL))
                else unescape_loop fuel (drop 4 f) (t ++ [Z.lor (Z.shiftl (u8 a) 4) (u8 b)])
          else unescape_loop fuel f' (t ++ [c])
      end
  end.

(** Up to the first NUL: the string the caller sees. *)
Definition c_string (s : list Z) : list Z := match strchr s 0 with Some (a, _) => a | None => s end.

Definition unit_name_unescape (f : list Z) : option (res (list Z)) :=
  match unescape_loop (length f) f [] with
  | Some (Ok t) => Some (Ok (c_string t))
  | r => r
  end.

Fixpoint skip_leading_slashes (p : list Z) : list Z :=
  match p with
  | [] => []
  | c :: p' => if c =? SLASH then skip_leading_slashes p' else p
  end.

Fixpoint delete_trailing_slashes (p : list Z) : list Z :=
  match p with
  | [] => []
  | c :: p' =>
      match delete_trailing_slashes p' with
      | [] => if c =? SLASH then [] else [c]
      | q => c :: q
      end
  end.

Definition unit_name_path_escape (f : list Z) : option (res (list Z)) :=
  p ← path_simplify f;
  root ← empty_or_root p;
  if (root : bool) then Some (Ok (str "-"))
  else
    ok ← path_is_normalized p;
    if negb ok then Some (Err (-EINVAL))
    else Some (Ok (unit_name_escape (skip_leading_slashes (delete_trailing_slashes p)))).

Definition unit_name_path_unescape (f : list Z) : option (res (list Z)) :=
  if bool_decide (f = []) then Some (Err (-EINVAL))
  else if bool_decide (f = str "-") then Some (Ok (str "/"))
  else
    r ← unit_name_unescape f;
    match r with
    | Err e => Some (Err e)
    | Ok w =>
        if startswith w (str "/") || bool_decide (endswith w (str "/") ≠ None) then Some (Err (-EINVAL))
        else
          let s := str "/" ++ w in
          ok ← path_is_normalized s;
          Some (if (ok : bool) then Ok s else Err (-EINVAL))
    end.

(** ** Names of paths *)

Definition unit_name_is_hashed (name : list Z) : option bool :=
  if negb (unit_name_is_valid name UNIT_NAME_PLAIN) then Some false
  else
    '(p, _) ← strrchr name (ch ".");
    if len p <? UNIT_NAME_HASH_LENGTH_CHARS + 1 then Some false
    else
      let s := drop (length p - 16) p in
      c ← get p (len p - UNIT_NAME_HASH_LENGTH_CHARS - 1);
      if negb (c =? ch "_") then Some false
      else Some (in_charset s LOWERCASE_HEXDIGITS).

Definition LONG_UNIT_NAME_HASH_KEY : list Z :=
  [0xec; 0xf2; 0x37; 0xfb; 0x58; 0x32; 0x4a; 0x32; 0x84; 0x9f; 0x06; 0x9b; 0x0d; 0x21; 0xeb; 0x9a].

(** The bytes of a little-endian integer. *)
Fixpoint htole (n : nat) (h : Z) : list Z :=
  match n with O => [] | S n => h mod 256 :: htole n (h / 256) end.

Definition unit_name_hash_long (name : list Z) : option (res (list Z)) :=
  if len name <? UNIT_NAME_MAX then Some (Err (-EMSGSIZE))
  else match strrchr name (ch ".") with
  | None => Some (Err (-EINVAL))
  | Some (_, suffix) =>
      if bool_decide (unit_type_from_string (drop 1 suffix) = None) then Some (Err (-EINVAL))
      else
        h ← siphash24_string name LONG_UNIT_NAME_HASH_KEY;
        let hash := hexmem (htole 8 h) in
        _ ← assert_ (len hash =? UNIT_NAME_HASH_LENGTH_CHARS);
        let l := UNIT_NAME_MAX - 1 - len (drop 1 suffix) - UNIT_NAME_HASH_LENGTH_CHARS - 2 in
        _ ← assert_ ((0 <? l) && (l <? UNIT_NAME_MAX));
        let n := take (Z.to_nat l) name ++ str "_" ++ hash ++ suffix in
        _ ← assert_ (unit_name_is_valid n UNIT_NAME_PLAIN);
        Some (Ok n)
  end.

(** [r < 0] returns. *)
Definition try {A B} (r : option (res A)) (k : A → option (res B)) : option (res B) :=
  r ← r; match r with Ok a => k a | Err e => Some (Err e) end.

Definition unit_name_from_path (path suffix : list Z) : option (res (list Z)) :=
  if negb (unit_suffix_is_valid suffix) then Some (Err (-EINVAL))
  else try (unit_name_path_escape path) (λ p,
    let s := p ++ suffix in
    try (if UNIT_NAME_MAX <=? len s then unit_name_hash_long s else Some (Ok s)) (λ s,
    Some (if unit_name_is_valid s UNIT_NAME_PLAIN then Ok s else Err (-EINVAL)))).

Definition unit_name_from_path_instance (prefix path suffix : list Z) : option (res (list Z)) :=
  if negb (unit_prefix_is_valid prefix) then Some (Err (-EINVAL))
  else if negb (unit_suffix_is_valid suffix) then Some (Err (-EINVAL))
  else try (unit_name_path_escape path) (λ p,
    let s := prefix ++ str "@" ++ p ++ suffix in
    Some (if UNIT_NAME_MAX <=? len s then Err (-ENAMETOOLONG)
          else if unit_name_is_valid s UNIT_NAME_INSTANCE then Ok s else Err (-EINVAL))).

Definition unit_name_to_path (name : list Z) : option (res (list Z)) :=
  try (unit_name_to_prefix name) (λ prefix,
  hashed ← unit_name_is_hashed name;
  if (hashed : bool) then Some (Err (-ENAMETOOLONG))
  else unit_name_path_unescape prefix).

(** ** Mangling *)

(** Whether a character was mangled only matters for the log message. *)
Definition mangle_one (valid_chars : list Z) (c : Z) : list Z :=
  if c =? ch "/" then str "-"
  else if negb (bool_decide (c ∈ valid_chars)) then do_escape_char c
  else [c].

Definition do_escape_mangle (f : list Z) (allow_globs : bool) : list Z :=
  concat (mangle_one (if allow_globs then VALID_CHARS_GLOB else VALID_CHARS_WITH_AT) <$> f).

Definition is_device_path (path : list Z) : option bool :=
  p ← path_startswith_full path (str "/dev/") true;
  match p with
  | Some t => Some (bool_decide (t ≠ []))
  | None =>
      q ← path_startswith_full path (str "/sys/") true;
      Some (match q with Some t => bool_decide (t ≠ []) | None => false end)
  end.

(** [unit_name_from_path()], where -EINVAL means to go on. *)
Definition mangle_path (name suffix : list Z) (k : option (res (Z * list Z))) : option (res (Z * list Z)) :=
  r ← unit_name_from_path name suffix;
  match r with
  | Ok n => Some (Ok (1, n))
  | Err e => if negb (e =? -EINVAL) then Some (Err e) else k
  end.

(** The return value, 0 for a name that is left alone and 1 for a mangled one, and the name. *)
Definition unit_name_mangle_with_suffix (name : list Z) (glob : bool) (suffix : list Z) : option (res (Z * list Z)) :=
  if bool_decide (name = []) then Some (Err (-EINVAL))
  else if negb (unit_suffix_is_valid suffix) then Some (Err (-EINVAL))
  else if unit_name_is_valid name UNIT_NAME_ANY then Some (Ok (0, name))
  else if string_is_glob name && in_charset name VALID_CHARS_GLOB && glob then Some (Ok (0, name))
  else
    let plain :=
      let s := do_escape_mangle name glob in
      t ← unit_name_to_type s;
      let s := if (negb glob || negb (string_is_glob s)) && match t with Err _ => true | Ok _ => false end
               then s ++ suffix else s in
      Some (if negb glob && negb (unit_name_is_valid s UNIT_NAME_ANY) then Err (-EINVAL) else Ok (1, s)) in
    let mount := if path_is_absolute name then mangle_path name (str ".mount") plain else plain in
    device ← is_device_path name;
    if (device : bool) then mangle_path name (str ".device") mount else mount.

(** ** Slices *)

Definition SPECIAL_ROOT_SLICE : list Z := str "-.slice".

(** The loop over the characters; [first] at the start of the name. *)
Fixpoint slice_loop (p : list Z) (first dash : bool) : bool :=
  match p with
  | [] => negb dash
  | c :: p =>
      if c =? ch "-" then if first || dash then false else slice_loop p false true
      else slice_loop p false false
  end.

Definition slice_name_is_valid (name : list Z) : bool :=
  if negb (unit_name_is_valid name UNIT_NAME_PLAIN) then false
  else if bool_decide (name = SPECIAL_ROOT_SLICE) then true
  else match endswith name (str ".slice") with
  | None => false
  | Some p => slice_loop p true false
  end.

(** The root slice has no parent. *)
Definition slice_build_parent_slice (slice : list Z) : res (option (list Z)) :=
  if negb (slice_name_is_valid slice) then Err (-EINVAL)
  else if bool_decide (slice = SPECIAL_ROOT_SLICE) then Ok None
  else match strrchr slice (ch "-") with
  | Some (a, _) => Ok (Some (a ++ str ".slice"))
  | None => Ok (Some SPECIAL_ROOT_SLICE)
  end.

Definition slice_build_subslice (slice name : list Z) : option (res (list Z)) :=
  if negb (slice_name_is_valid slice) then Some (Err (-EINVAL))
  else if negb (unit_prefix_is_valid name) then Some (Err (-EINVAL))
  else if bool_decide (slice = SPECIAL_ROOT_SLICE) then Some (Ok (name ++ str ".slice"))
  else
    e ← endswith slice (str ".slice");
    Some (Ok (e ++ str "-" ++ name ++ str ".slice")).

(** The examples of the test suite. *)
Example name_examples :
  unit_name_from_path (str "/tmp/..") (str ".swap") = Some (Err (-EINVAL)) ∧
  unit_name_from_path (str "/foo/bar") (str ".mount") = Some (Ok (str "foo-bar.mount")) ∧
  unit_name_from_path (str "///") (str ".mount") = Some (Ok (str "-.mount")) ∧
  unit_name_to_path (str "home-foo\x2dbar.mount") = Some (Ok (str "/home/foo-bar")) ∧
  unit_name_mangle_with_suffix (str "foo bar") false (str ".service") = Some (Ok (1, str "foo\x20bar.service")) ∧
  unit_name_mangle_with_suffix (str "/dev/sda") false (str ".service") = Some (Ok (1, str "dev-sda.device")) ∧
  unit_name_mangle_with_suffix (str "foo*") true (str ".service") = Some (Ok (0, str "foo*")) ∧
  unit_name_from_path (str "/waldo" ++ replicate 246 (ch "a")) (str ".mount") =
    Some (Ok (str "waldo" ++ replicate 227 (ch "a") ++ str "_7736d9ed33c2ec55.mount")) ∧
  slice_build_parent_slice (str "foo-bar-baz.slice") = Ok (Some (str "foo-bar.slice")) ∧
  slice_build_subslice (str "-.slice") (str "foo") = Some (Ok (str "foo.slice")) ∧
  unit_name_replace_instance (str "foo@.service") (str "waldo") = Some (Ok (str "foo@waldo.service")).
Proof. vm_compute. split_and!; reflexivity. Qed.

(** ** Searching and comparing strings *)

Lemma strchr_app a b c : c ∉ a → strchr (a ++ c :: b) c = Some (a, c :: b).
Proof.
  induction a as [|x a IH]; intros Ha; cbn [strchr app]; [by rewrite Z.eqb_refl|].
  apply not_elem_of_cons in Ha as [Hx Ha]. destruct (Z.eqb_spec x c); [congruence|]. by rewrite IH.
Qed.

Lemma strchr_notin s c : c ∉ s → strchr s c = None.
Proof.
  induction s as [|x s IH]; intros Hs; cbn [strchr]; [done|].
  apply not_elem_of_cons in Hs as [Hx Hs]. destruct (Z.eqb_spec x c); [congruence|]. by rewrite IH.
Qed.

Lemma strrchr_notin s c : c ∉ s → strrchr s c = None.
Proof.
  induction s as [|x s IH]; intros Hs; cbn [strrchr]; [done|].
  apply not_elem_of_cons in Hs as [Hx Hs]. rewrite IH by done. destruct (Z.eqb_spec x c); congruence.
Qed.

Lemma strrchr_app a b c : c ∉ b → strrchr (a ++ c :: b) c = Some (a, c :: b).
Proof.
  intros Hb. induction a as [|x a IH]; cbn [strrchr app].
  - by rewrite strrchr_notin, Z.eqb_refl.
  - by rewrite IH.
Qed.

(** A string either lacks the character or splits at its first and its last one. *)
Lemma first_split (s : list Z) (c : Z) : c ∉ s ∨ ∃ a b, s = a ++ c :: b ∧ c ∉ a.
Proof.
  destruct (decide (c ∈ s)) as [H|H]; [right|by left].
  apply list_elem_of_split_l in H as (a & b & -> & Ha). eauto.
Qed.

Lemma last_split (s : list Z) (c : Z) : c ∉ s ∨ ∃ a b, s = a ++ c :: b ∧ c ∉ b.
Proof.
  destruct (decide (c ∈ s)) as [H|H]; [right|by left].
  apply list_elem_of_split_r in H as (a & b & -> & Hb). eauto.
Qed.

Lemma in_charset_iff s cs : in_charset s cs = true ↔ ∀ c, c ∈ s → c ∈ cs.
Proof.
  unfold in_charset. rewrite forallb_forall. split; intros H c Hc.
  - eapply bool_decide_eq_true_1, H. by apply list_elem_of_In.
  - apply bool_decide_eq_true_2, H. by apply list_elem_of_In.
Qed.

Lemma in_charset_app a b cs : in_charset (a ++ b) cs = in_charset a cs && in_charset b cs.
Proof. apply forallb_app. Qed.

Lemma in_charset_mono s cs cs' : cs ⊆ cs' → in_charset s cs = true → in_charset s cs' = true.
Proof. rewrite !in_charset_iff. set_solver. Qed.

Lemma endswith_app a b : endswith (a ++ b) b = Some a.
Proof.
  unfold endswith. rewrite bool_decide_eq_true_2 by (by exists a). rewrite length_app.
  replace (length a + length b - length b)%nat with (length a) by lia. by rewrite take_app_length.
Qed.

Lemma endswith_Some s b a : endswith s b = Some a → s = a ++ b.
Proof.
  unfold endswith. case_bool_decide as H; [|done]. destruct H as [k ->]. rewrite length_app.
  replace (length k + length b - length b)%nat with (length k) by lia. rewrite take_app_length. congruence.
Qed.

(** ** Types *)

Lemma type_from_to t : unit_type_from_string (unit_type_to_string t) = Some t.
Proof. by destruct t; vm_compute. Qed.

Lemma lookup_Some ts s t : string_table_lookup ts s = Some t → s = unit_type_to_string t.
Proof. induction ts as [|u ts IH]; cbn; [done|]. case_bool_decide; [congruence|done]. Qed.

Lemma type_to_from s t : unit_type_from_string s = Some t → s = unit_type_to_string t.
Proof. apply lookup_Some. Qed.

Lemma type_chars t : (ch "." ∉ unit_type_to_string t) ∧ (ch "@" ∉ unit_type_to_string t) ∧ (ch "-" ∉ unit_type_to_string t).
Proof. destruct t; by_decide. Qed.

Lemma type_len t : 4 <= len (unit_type_to_string t) <= 9.
Proof. destruct t; by_decide. Qed.

Lemma suffix_valid_iff s : unit_suffix_is_valid s = true ↔ ∃ t, s = ch "." :: unit_type_to_string t.
Proof.
  destruct s as [|c s]; cbn [unit_suffix_is_valid]; [naive_solver|]. destruct (Z.eqb_spec c (ch ".")) as [->|Hc]; cbn [negb].
  - rewrite bool_decide_eq_true. split.
    + intros H. destruct (unit_type_from_string s) as [t|] eqn:E; [|done]. exists t. f_equal. by apply type_to_from.
    + intros (t & [= ->]). by rewrite type_from_to.
  - split; [done|]. intros (t & [= H _]). done.
Qed.

Lemma at_not_valid : ch "@" ∉ VALID_CHARS.
Proof. by_decide. Qed.

Lemma prefix_valid_iff p : unit_prefix_is_valid p = true ↔ p ≠ [] ∧ in_charset p VALID_CHARS = true.
Proof. unfold unit_prefix_is_valid. case_bool_decide; naive_solver. Qed.

Lemma prefix_no_at p : unit_prefix_is_valid p = true → ch "@" ∉ p.
Proof. rewrite prefix_valid_iff, in_charset_iff. intros [_ H] Hin. by apply at_not_valid, H. Qed.

(** ** Names as prefix, instance and type *)

Definition name_of (p : list Z) (i : option (list Z)) (t : UnitType) : list Z :=
  p ++ (match i with Some i => ch "@" :: i | None => [] end) ++ ch "." :: unit_type_to_string t.

Definition class (i : option (list Z)) : UnitNameFlags :=
  match i with None => UNIT_NAME_PLAIN | Some [] => UNIT_NAME_TEMPLATE | Some _ => UNIT_NAME_INSTANCE end.

Definition permits (flags : UnitNameFlags) (i : option (list Z)) : bool :=
  match i with None => plain flags | Some [] => template flags | Some _ => instance flags end.

(** The characters are right; the length is a separate matter. *)
Definition well_formed (p : list Z) (i : option (list Z)) : Prop :=
  unit_prefix_is_valid p = true ∧ in_charset (default [] i) VALID_CHARS_WITH_AT = true.

Lemma name_loop_at p i k :
  name_loop p i (Some k) = if in_charset p VALID_CHARS_WITH_AT then Some (Some k) else None.
Proof.
  revert i. induction p as [|c p IH]; intros i; cbn [name_loop in_charset forallb]; [done|].
  rewrite (bool_decide_eq_false_2 (Some k = None)), andb_false_r by done. case_bool_decide; cbn [andb]; [apply IH|done].
Qed.

Lemma name_loop_spec p i :
  name_loop p i None = if in_charset p VALID_CHARS_WITH_AT
    then Some (match strchr p (ch "@") with Some (a, _) => Some (i + len a) | None => None end) else None.
Proof.
  revert i. induction p as [|c p IH]; intros i; cbn [name_loop in_charset forallb strchr]; [done|].
  rewrite (bool_decide_eq_true_2 (None = None)) by done. rewrite andb_true_r. destruct (c =? ch "@") eqn:E.
  - case_bool_decide; cbn [andb]; [|done]. rewrite name_loop_at. fold (in_charset p VALID_CHARS_WITH_AT).
    destruct (in_charset _ _); [|done]. do 2 f_equal. change (len (@nil Z)) with 0. lia.
  - case_bool_decide; cbn [andb]; [|done]. rewrite IH. fold (in_charset p VALID_CHARS_WITH_AT).
    destruct (in_charset _ _); [|done]. destruct (strchr p (ch "@")) as [[a b]|]; [|done]. do 2 f_equal. rewrite len_cons. lia.
Qed.

Lemma name_of_dot p i t :
  strrchr (name_of p i t) (ch ".") = Some (p ++ (match i with Some i => ch "@" :: i | None => [] end), ch "." :: unit_type_to_string t).
Proof. unfold name_of. rewrite app_assoc. apply strrchr_app, type_chars. Qed.

Lemma valid_with_at : VALID_CHARS ⊆ VALID_CHARS_WITH_AT.
Proof. unfold VALID_CHARS_WITH_AT. intros c Hc. apply elem_of_app. by right. Qed.

Lemma well_formed_body p i :
  well_formed p i → in_charset (p ++ (match i with Some i => ch "@" :: i | None => [] end)) VALID_CHARS_WITH_AT = true.
Proof.
  intros [[_ Hp]%prefix_valid_iff Hi]. rewrite in_charset_app. apply andb_true_intro. split.
  - by apply (in_charset_mono _ _ _ valid_with_at).
  - destruct i; [|done]. cbn [in_charset forallb]. apply andb_true_intro. split; [by vm_compute|done].
Qed.

Lemma valid_name_of p i t flags :
  well_formed p i → unit_name_is_valid (name_of p i t) flags = (len (name_of p i t) <? UNIT_NAME_MAX) && permits flags i.
Proof.
  intros Hw. pose proof (well_formed_body p i Hw) as Hb. destruct Hw as [Hp Hi]. pose proof (prefix_no_at p Hp) as Hat.
  apply prefix_valid_iff in Hp as [Hne _]. unfold unit_name_is_valid.
  rewrite (bool_decide_eq_false_2 (name_of p i t = [])) by (unfold name_of; by destruct p).
  rewrite Z.leb_antisym, name_of_dot. destruct (len (name_of p i t) <? UNIT_NAME_MAX); cbn [negb andb]; [|by destruct (_ || _ || _)].
  rewrite (bool_decide_eq_false_2 (_ ++ _ = [])) by (by destruct p).
  cbn [drop]. rewrite drop_0, type_from_to, (bool_decide_eq_false_2 (Some t = None)) by done. rewrite name_loop_spec, Hb.
  destruct flags as [pl te ins]. destruct i as [i|]; cbn [plain template instance permits].
  - rewrite strchr_app by done. rewrite Z.add_0_l. pose proof (len_nonneg i).
    assert (0 < len p) by (destruct p; [done|rewrite len_cons; pose proof (len_nonneg p); lia]).
    rewrite (bool_decide_eq_false_2 (Some (len p) = Some 0)) by (intros [=]; lia).
    rewrite (bool_decide_eq_false_2 (Some (len p) = None)), andb_false_r by done. rewrite !len_app, len_cons.
    destruct i as [|c i].
    + change (len (@nil Z)) with 0. destruct (len p + 1 <? len p + (0 + 1)) eqn:E; [lia|].
      rewrite bool_decide_eq_true_2 by (f_equal; lia). rewrite !andb_false_r, andb_true_r. by destruct pl, te, ins.
    + rewrite len_cons in *. pose proof (len_nonneg i). destruct (len p + 1 <? len p + (len i + 1 + 1)) eqn:E; [|lia].
      rewrite (bool_decide_eq_false_2 (Some (len p) = Some (_ - 1))) by (intros [=]; lia). by destruct pl, te, ins.
  - rewrite app_nil_r, strchr_notin by done. by destruct pl, te, ins.
Qed.

Lemma valid_inv n flags :
  unit_name_is_valid n flags = true →
  ∃ p i t, n = name_of p i t ∧ well_formed p i ∧ permits flags i = true ∧ len n < UNIT_NAME_MAX.
Proof.
  intros Hv. assert (∃ p i t, n = name_of p i t ∧ well_formed p i) as (p & i & t & -> & Hw).
  { revert Hv. unfold unit_name_is_valid. destruct (negb _); [done|]. case_bool_decide; [done|]. destruct (_ <=? _); [done|].
    destruct (last_split n (ch ".")) as [Hn|(a & b & -> & Hb)]; [by rewrite strrchr_notin|]. rewrite strrchr_app by done.
    case_bool_decide as Ha; [done|]. cbn [drop]. rewrite drop_0. destruct (unit_type_from_string b) as [t|] eqn:Et; [|done].
    apply type_to_from in Et as ->. rewrite name_loop_spec. destruct (in_charset a _) eqn:Ec; [|done].
    destruct (first_split a (ch "@")) as [Hat|(p & i & -> & Hat)].
    - intros _. exists a, None, t. split; [done|]. split; [|done]. apply prefix_valid_iff. split; [done|].
      rewrite in_charset_iff in *. intros c Hc. specialize (Ec c Hc). apply elem_of_app in Ec as [Ec|Ec]; [|done].
      apply list_elem_of_singleton in Ec as ->. done.
    - rewrite strchr_app by done. rewrite Z.add_0_l. case_bool_decide; [done|]. case_bool_decide as Hp; [done|]. intros _. exists p, (Some i), t.
      rewrite in_charset_app in Ec. apply andb_true_iff in Ec as [Ec Ei]. cbn [in_charset forallb] in Ei. apply andb_true_iff in Ei as [_ Ei].
      split; [unfold name_of; by rewrite <- app_assoc|]. split; [|done]. apply prefix_valid_iff. split; [intros ->; by apply Hp|].
      rewrite in_charset_iff in *. intros c Hc. specialize (Ec c Hc). apply elem_of_app in Ec as [Ec|Ec]; [|done].
      apply list_elem_of_singleton in Ec as ->. done. }
  rewrite valid_name_of in Hv by done. apply andb_true_iff in Hv as [Hl%Z.ltb_lt Hf]. eauto 10.
Qed.

(** What the functions that take a valid name apart return. *)
Lemma parse_name_of p i t :
  well_formed p i → len (name_of p i t) < UNIT_NAME_MAX →
  unit_name_to_prefix (name_of p i t) = Some (Ok p) ∧ unit_name_to_instance (name_of p i t) = Ok (class i, i) ∧
  unit_name_to_type (name_of p i t) = Some (Ok t).
Proof.
  intros Hw Hl. pose proof (prefix_no_at p (proj1 Hw)) as Hat.
  assert (Hv : unit_name_is_valid (name_of p i t) UNIT_NAME_ANY = true).
  { rewrite valid_name_of by done. apply andb_true_intro. split; [by apply Z.ltb_lt|]. by destruct i as [[]|]. }
  unfold unit_name_to_prefix, unit_name_to_instance, unit_name_to_type, split_prefix. rewrite Hv, name_of_dot. cbn [negb].
  destruct i as [i|].
  - unfold name_of. cbn [app]. rewrite strchr_app by done. cbn [mbind option_bind drop]. rewrite drop_0.
    rewrite strrchr_app by apply type_chars. rewrite drop_0, type_from_to. split_and!; [done| |done]. by destruct i.
  - rewrite strchr_notin.
    + cbn [mbind option_bind drop]. rewrite drop_0, type_from_to. by rewrite app_nil_r.
    + unfold name_of. cbn [app]. rewrite not_elem_of_app, not_elem_of_cons. split_and!; [done|by vm_compute|apply type_chars].
Qed.

Lemma wf_instance i : unit_instance_is_valid i = true ↔ i ≠ [] ∧ in_charset i VALID_CHARS_WITH_AT = true.
Proof. unfold unit_instance_is_valid, VALID_CHARS_WITH_AT. case_bool_decide; naive_solver. Qed.

(** ** Escaping *)

(** A decidable property of all characters, checked one by one. *)
Lemma byte_ind (P : Z → bool) : forallb P (Z.of_nat <$> seq 0 256) = true → ∀ c, is_byte c → P c = true.
Proof.
  rewrite forallb_forall. intros H c Hc. apply H, list_elem_of_In, list_elem_of_fmap. exists (Z.to_nat c). unfold is_byte in Hc.
  split; [lia|]. apply elem_of_seq. lia.
Qed.

(** Strings in C: no NUL in the middle. *)
Definition is_string (s : list Z) : Prop := Forall (λ c, is_byte c ∧ c ≠ 0) s.
#[global] Instance is_string_dec s : Decision (is_string s).
Proof. unfold is_string. apply _. Defined.

Lemma escape_char_hex c :
  is_byte c → 0 <= unhexchar (hexchar (Z.shiftr c 4)) ∧ 0 <= unhexchar (hexchar c) ∧
    Z.lor (Z.shiftl (u8 (unhexchar (hexchar (Z.shiftr c 4)))) 4) (u8 (unhexchar (hexchar c))) = c.
Proof.
  intros Hc. apply (bool_decide_eq_true_1 _). revert c Hc. apply (byte_ind (λ c, bool_decide _)). vm_compute. reflexivity.
Qed.

Lemma unescape_escaped fuel c f t :
  is_byte c → unescape_loop (S fuel) (do_escape_char c ++ f) t = unescape_loop fuel f (t ++ [c]).
Proof.
  intros Hc. destruct (escape_char_hex c Hc) as (Ha & Hb & Hab). unfold do_escape_char. cbn [app unescape_loop char_at lookup list_lookup drop default].
  unfold id. rewrite (proj2 (Z.ltb_ge _ _) Ha), (proj2 (Z.ltb_ge _ _) Hb), Hab, drop_0. reflexivity.
Qed.

Lemma unescape_one fuel c f t :
  is_byte c → unescape_loop (S fuel) (escape_one c ++ f) t = unescape_loop fuel f (t ++ [c]).
Proof.
  intros Hc. unfold escape_one. destruct (Z.eqb_spec c (ch "/")) as [->|Hs]; [done|].
  destruct ((c =? ch "-") || (c =? ch "\") || negb (bool_decide (c ∈ VALID_CHARS))) eqn:E; [by apply unescape_escaped|].
  apply orb_false_iff in E as [[E1 E2]%orb_false_iff _]. cbn [app unescape_loop]. by rewrite E1, E2.
Qed.

Lemma unescape_all f fuel t :
  Forall is_byte f → (length f <= fuel)%nat → unescape_loop fuel (concat (escape_one <$> f)) t = Some (Ok (t ++ f)).
Proof.
  revert fuel t. induction f as [|c f IH]; intros fuel t Hf Hl; [destruct fuel; by rewrite app_nil_r|].
  inversion Hf; subst. destruct fuel as [|fuel]; [cbn in Hl; lia|]. cbn [fmap list_fmap concat].
  rewrite unescape_one by done. rewrite IH; [by rewrite <- app_assoc|done|cbn in Hl; lia].
Qed.

Lemma escape_facts c :
  is_byte c → in_charset (escape_one c) VALID_CHARS && in_charset (do_escape_char c) VALID_CHARS &&
    (1 <=? len (escape_one c)) && (len (escape_one c) <=? 4) = true.
Proof. revert c. apply byte_ind. vm_compute. reflexivity. Qed.

Lemma escape_all f :
  Forall is_byte f → in_charset (concat (escape_one <$> f)) VALID_CHARS = true ∧ len f <= len (concat (escape_one <$> f)) <= 4 * len f.
Proof.
  induction 1 as [|c f Hc Hf [IH1 IH2]]; [done|]. cbn [fmap list_fmap concat]. rewrite in_charset_app, len_app, len_cons, IH1.
  pose proof (escape_facts c Hc) as E. apply andb_true_iff in E as [[[-> _]%andb_true_iff E1%Z.leb_le]%andb_true_iff E2%Z.leb_le].
  split; [done|lia].
Qed.

Lemma do_escape_shape f :
  Forall is_byte f → f ≠ [] → ∃ c f' e, f = c :: f' ∧ do_escape f = e ++ concat (escape_one <$> f') ∧
    (e = escape_one c ∨ e = do_escape_char c).
Proof.
  intros Hf Hne. destruct f as [|c f]; [done|]. cbn [do_escape]. destruct (c =? ch "."); [by exists c, f, (do_escape_char c); auto|].
  exists c, f, (escape_one c). cbn [fmap list_fmap concat]. auto.
Qed.

Lemma escape_spec f :
  Forall is_byte f → f ≠ [] →
  unescape_loop (length (unit_name_escape f)) (unit_name_escape f) [] = Some (Ok f) ∧
  in_charset (unit_name_escape f) VALID_CHARS = true ∧ len f <= len (unit_name_escape f) <= 4 * len f.
Proof.
  intros Hf Hne. unfold unit_name_escape. destruct (do_escape_shape f Hf Hne) as (c & f' & e & -> & -> & He).
  inversion Hf as [|? ? Hc Hf']; subst. destruct (escape_all f' Hf') as [H1 H2].
  pose proof (escape_facts c Hc) as E. apply andb_true_iff in E as [[[E1 E2]%andb_true_iff E3%Z.leb_le]%andb_true_iff E4%Z.leb_le].
  assert (Hle : 1 <= len e <= 4) by (destruct He as [->| ->]; [lia|done]).
  rewrite in_charset_app, len_app, len_cons, H1. split_and!; [|by destruct He as [->| ->]; rewrite ?E1, ?E2|lia|lia].
  rewrite length_app. unfold len in *. destruct (length e + _)%nat as [|k] eqn:Ek; [lia|].
  transitivity (unescape_loop k (concat (escape_one <$> f')) [c]).
  - destruct He as [->| ->]; [by rewrite unescape_one|by rewrite unescape_escaped].
  - rewrite unescape_all; [done|done|lia].
Qed.

Lemma c_string_id s : 0 ∉ s → c_string s = s.
Proof. intros H. unfold c_string. by rewrite strchr_notin. Qed.

Lemma unescape_escape f : is_string f → f ≠ [] → unit_name_unescape (unit_name_escape f) = Some (Ok f).
Proof.
  intros Hf Hne. unfold unit_name_unescape. destruct (escape_spec f) as [-> _]; [eapply Forall_impl; [exact Hf|by intros ? []]|done|].
  rewrite c_string_id; [done|]. intros H0. eapply Forall_forall in Hf; [|exact H0]. by destruct Hf.
Qed.

(** ** Paths and their names *)

Lemma delete_trailing_id p : ends_with_slash p = false → delete_trailing_slashes p = p.
Proof.
  unfold ends_with_slash. intros H%bool_decide_eq_false. induction p as [|c p IH]; cbn [delete_trailing_slashes]; [done|].
  rewrite last_cons in H. destruct p as [|d p].
  - cbn in *. destruct (Z.eqb_spec c SLASH) as [->|]; [by destruct H|done].
  - rewrite IH; [done|]. destruct (last (d :: p)) eqn:E; [done|]. by rewrite last_cons in E; destruct (last p).
Qed.

Lemma join_head cs :
  cs ≠ [] → Forall (λ c, counts c ∧ no_slash c) cs → ∃ x w, join cs = x :: w ∧ x ≠ SLASH.
Proof.
  intros Hne Hf. destruct cs as [|c cs]; [done|]. inversion Hf as [|? ? [[Hc _] Hn] _]; subst. destruct c as [|x c]; [done|].
  apply not_elem_of_cons in Hn as [Hx _]. destruct cs; cbn; eauto.
Qed.

Lemma strip_render abs cs :
  cs ≠ [] → Forall (λ c, counts c ∧ no_slash c) cs → skip_leading_slashes (delete_trailing_slashes (render abs cs)) = join cs.
Proof.
  intros Hne Hf. destruct (join_head cs Hne Hf) as (x & w & Hj & Hx).
  assert (Hr : ends_with_slash (render abs cs) = false).
  { pose proof (last_no_slash cs Hf) as Hl. unfold render. destruct abs; [|by rewrite bool_decide_eq_false_2].
    unfold ends_with_slash in *. rewrite last_cons. rewrite Hj in *. rewrite last_cons in *. by destruct (last w). }
  rewrite delete_trailing_id by done. unfold render. rewrite (bool_decide_eq_false_2 (cs = [])) by done.
  destruct abs; cbn [skip_leading_slashes]; rewrite ?Z.eqb_refl, Hj; cbn [skip_leading_slashes];
    by rewrite (proj2 (Z.eqb_neq x SLASH) Hx).
Qed.

(** The characters of the components are characters of the path. *)
Lemma join_filter_sub ps x : x ∈ join (filter counts ps) → x = SLASH ∨ x ∈ join ps.
Proof.
  induction ps as [|y ps IH]; [by left + right|]. intros Hx. destruct ps as [|z ps].
  - destruct (decide (counts y)); [rewrite filter_cons_True in Hx by done; by right|rewrite filter_cons_False in Hx by done; by apply elem_of_nil in Hx].
  - rewrite (join_cons y (z :: ps)) by done. destruct (decide (counts y)) as [Hy|Hy].
    + rewrite filter_cons_True in Hx by done. destruct (filter counts (z :: ps)) as [|v vs] eqn:E; [cbn in Hx; set_solver|].
      rewrite join_cons in Hx by done. set_solver.
    + rewrite filter_cons_False in Hx by done. set_solver.
Qed.

Lemma join_string p : is_string p → is_string (join (components p)).
Proof.
  unfold is_string. rewrite !Forall_forall. intros H x [->|Hx]%join_filter_sub; [by_decide|]. rewrite join_parts in Hx. by apply H.
Qed.

(** The paths that have a name. *)
Definition nameable (p : list Z) : Prop :=
  p = [] ∨ (path_is_absolute p = true ∨ components p ≠ []) ∧
    Forall (fits false) (components p) ∧ len (render (path_is_absolute p) (components p)) < PATH_MAX.

Definition escaped (cs : list (list Z)) : list Z := if bool_decide (cs = []) then str "-" else unit_name_escape (join cs).

Lemma simplify_plain p :
  Forall (fits true) (components p) → path_simplify p = Some (if bool_decide (p = []) then [] else render (path_is_absolute p) (components p)).
Proof.
  intros Hf. case_bool_decide as Hp; [by subst|]. unfold path_simplify. rewrite simplify_spec by done. cbn [andb]. by rewrite andb_false_r.
Qed.

Lemma empty_or_root_render abs cs :
  Forall (fits true) cs → Forall (λ c, counts c ∧ no_slash c) cs → empty_or_root (render abs cs) = Some (abs && bool_decide (cs = [])).
Proof.
  intros Hf Hok. destruct (render_components abs cs Hok) as (Hc & Ha & Hn). unfold empty_or_root.
  rewrite (bool_decide_eq_false_2 (render abs cs = [])) by done. unfold path_equal, path_compare. rewrite Ha. destruct abs; cbn [path_is_absolute].
  - rewrite Z.eqb_refl. cbn [cmp Z.ltb negb Z.eqb]. rewrite compare_loop_spec; [|by rewrite Hc|done|lia].
    rewrite Hc. cbn [mbind option_bind]. f_equal. apply eq_true_iff_eq.
    by rewrite Z.eqb_eq, compare_components_0, andb_true_l, bool_decide_eq_true.
  - done.
Qed.

Lemma path_escape_spec p :
  Forall (fits true) (components p) →
  (nameable p → unit_name_path_escape p = Some (Ok (escaped (components p)))) ∧
  (¬ nameable p → unit_name_path_escape p = Some (Err (-EINVAL))).
Proof.
  intros Hf. unfold unit_name_path_escape. rewrite simplify_plain by done. cbn [mbind option_bind].
  pose proof (components_ok p) as Hok. unfold nameable. case_bool_decide as Hp; [subst; split; [done|naive_solver]|].
  rewrite empty_or_root_render by done. cbn [mbind option_bind]. set (abs := path_is_absolute p) in *. set (cs := components p) in *.
  unfold escaped. destruct (bool_decide (cs = [])) eqn:Ec.
  - apply bool_decide_eq_true in Ec. destruct abs; cbn [andb]; [split; [done|]|].
    + intros Hn. destruct Hn. right. rewrite Ec. split_and!; [by left|by apply Forall_nil|by vm_compute].
    + rewrite Ec. split; [|done]. intros [?|[[?|?] _]]; done.
  - apply bool_decide_eq_false in Ec. rewrite andb_false_r. destruct (normalized_spec (render abs cs)) as (ok & -> & Hn). cbn [mbind option_bind].
    rewrite normal_render in Hn by auto. rewrite strip_render by done. destruct ok; cbn [negb]; split; try done.
    + intros H. destruct H. right. split; [by right|by apply Hn].
    + intros [?|[_ H]]; [done|]. by apply Hn in H.
Qed.

Lemma escaped_spec p :
  is_string p → in_charset (escaped (components p)) VALID_CHARS = true ∧ escaped (components p) ≠ [] ∧
    len (join (components p)) <= len (escaped (components p)) <= 4 * len p + 1.
Proof.
  intros Hs. unfold escaped. case_bool_decide as Hc.
  - rewrite Hc. split_and!; [by vm_compute|done|by vm_compute|]. pose proof (len_nonneg p). change (len (str "-")) with 1. lia.
  - destruct (join_head _ Hc (components_ok p)) as (x & w & Hj & _). assert (Hb : Forall is_byte (join (components p))).
    { eapply Forall_impl; [exact (join_string p Hs)|by intros ? []]. }
    destruct (escape_spec (join (components p)) Hb) as (_ & H2 & H3 & H4); [by rewrite Hj|]. split_and!; [done| |done|].
    + intros He. rewrite He, Hj, len_cons in H3. change (len (@nil Z)) with 0 in H3. pose proof (len_nonneg w). lia.
    + pose proof (length_join_filter (parts p)) as Hl. rewrite join_parts in Hl. unfold len in *. unfold components in *. lia.
Qed.

Lemma path_unescape_spec p :
  is_string p → Forall (fits false) (components p) → len (escaped (components p)) < UNIT_NAME_MAX →
  unit_name_path_unescape (escaped (components p)) = Some (Ok (render true (components p))).
Proof.
  intros Hs Hf Hl. destruct (escaped_spec p Hs) as (_ & Hne & Hlen & _). unfold unit_name_path_unescape, escaped in *.
  pose proof (components_ok p) as Hok. case_bool_decide as Hc; [by rewrite Hc|]. destruct (join_head _ Hc Hok) as (x & w & Hj & Hx).
  rewrite (bool_decide_eq_false_2 (_ = [])) by done.
  pose proof (unescape_escape (join (components p)) (join_string p Hs) ltac:(by rewrite Hj)) as Hu.
  case_bool_decide as Hd; [exfalso; rewrite Hd, Hj in Hu; vm_compute in Hu; injection Hu as <- <-; done|]. rewrite Hu. cbn [mbind option_bind].
  assert (startswith (join (components p)) (str "/") = false) as ->.
  { unfold startswith. rewrite Hj. apply bool_decide_eq_false. intros [k Hk]. cbn in Hk. injection Hk as -> _. done. }
  assert (endswith (join (components p)) (str "/") = None) as ->.
  { unfold endswith. case_bool_decide as Hsuf; [|done]. destruct Hsuf as [k Hk]. pose proof (last_no_slash _ Hok) as Hend.
    unfold ends_with_slash in Hend. rewrite Hk in Hend. change (str "/") with [SLASH] in Hend. by rewrite last_snoc in Hend. }
  cbn [orb]. rewrite (bool_decide_eq_false_2 (None ≠ None)) by auto. cbn [orb].
  destruct (normalized_spec (str "/" ++ join (components p))) as (ok & -> & Hn). cbn [mbind option_bind].
  change (str "/" ++ join (components p)) with (render true (components p)) in *. rewrite normal_render in Hn by auto.
  destruct ok; [done|]. exfalso. assert (false = true); [|done]. apply Hn. split; [done|].
  unfold render. rewrite len_cons. change PATH_MAX with 4096. change UNIT_NAME_MAX with 256 in *. lia.
Qed.

Lemma hexchar_lower z : hexchar z ∈ LOWERCASE_HEXDIGITS.
Proof.
  unfold hexchar. assert (Hz : is_byte (Z.land z 15)).
  { change 15 with (Z.ones 4). rewrite Z.land_ones by lia. pose proof (Z.mod_pos_bound z (2 ^ 4)). unfold is_byte. lia. }
  assert (Hl : Z.land z 15 = Z.land (Z.land z 15) 15) by by rewrite <- Z.land_assoc. rewrite Hl. revert Hz. generalize (Z.land z 15).
  intros v Hv. apply (bool_decide_eq_true_1 _). revert v Hv. apply (byte_ind (λ c, bool_decide _)). vm_compute. reflexivity.
Qed.

Lemma hexmem_htole n h : in_charset (hexmem (htole n h)) LOWERCASE_HEXDIGITS = true ∧ len (hexmem (htole n h)) = 2 * Z.of_nat n.
Proof.
  revert h. induction n as [|n IH]; intros h; [done|]. cbn [htole hexmem]. destruct (IH (h / 256)) as [H1 H2]. split.
  - cbn [in_charset forallb]. rewrite !bool_decide_eq_true_2 by apply hexchar_lower. exact H1.
  - rewrite !len_cons, H2. lia.
Qed.

Lemma lowercase_valid : LOWERCASE_HEXDIGITS ⊆ VALID_CHARS.
Proof. by_decide. Qed.

Lemma charset_bytes s cs : bytes cs → in_charset s cs = true → bytes s.
Proof. intros Hcs Hs. apply Forall_forall. intros x Hx. eapply Forall_forall; [exact Hcs|]. by apply (proj1 (in_charset_iff _ _) Hs). Qed.

Lemma type_bytes t : bytes (ch "." :: unit_type_to_string t).
Proof. destruct t; by_decide. Qed.

Lemma take_valid n e : in_charset e VALID_CHARS = true → in_charset (take n e) VALID_CHARS = true.
Proof. rewrite <- (take_drop n e) at 1. rewrite in_charset_app. by intros [? _]%andb_true_iff. Qed.

(** A name that ends in an underscore and a hash. *)
Lemma is_hashed_name e hash t :
  in_charset e VALID_CHARS = true → in_charset hash LOWERCASE_HEXDIGITS = true → len hash = 16 →
  let q := e ++ str "_" ++ hash in
  len (name_of q None t) < UNIT_NAME_MAX → well_formed q None ∧ unit_name_is_hashed (name_of q None t) = Some true.
Proof.
  intros He Hh Hl q Hlen. assert (Hw : well_formed q None).
  { split; [|done]. apply prefix_valid_iff. split; [by destruct e|]. unfold q. rewrite !in_charset_app, He.
    rewrite (in_charset_mono hash _ _ lowercase_valid) by done. by vm_compute. }
  split; [done|]. unfold unit_name_is_hashed. rewrite valid_name_of by done. rewrite (proj2 (Z.ltb_lt _ _) Hlen). cbn [andb negb permits plain UNIT_NAME_PLAIN].
  rewrite name_of_dot. cbn [mbind option_bind]. rewrite app_nil_r. unfold q. rewrite !len_app. change (len (str "_")) with 1. rewrite Hl.
  pose proof (len_nonneg e). change UNIT_NAME_HASH_LENGTH_CHARS with 16. destruct (_ <? 16 + 1) eqn:E; [lia|].
  replace (len e + (1 + 16) - 16 - 1) with (len e) by lia. cbn [str app]. unfold get. rewrite (proj2 (Z.leb_le _ _)) by done.
  unfold len at 1. rewrite Nat2Z.id, list_lookup_middle by done. cbn [mbind option_bind]. rewrite Z.eqb_refl. cbn [negb]. f_equal.
  rewrite length_app. cbn [length]. unfold len in Hl. replace (length e + S (length hash) - 16)%nat with (length (e ++ [ch "_"])) by (rewrite length_app; cbn; lia).
  change (e ++ ch "_" :: hash) with (e ++ [ch "_"] ++ hash). by rewrite app_assoc, drop_app_length.
Qed.

(** The name for a path whose escaped form [e] is too long. *)
Lemma hash_long_spec e t :
  in_charset e VALID_CHARS = true → UNIT_NAME_MAX <= len e + 1 + len (unit_type_to_string t) → len e < 2 ^ 60 →
  ∃ q, unit_name_hash_long (e ++ ch "." :: unit_type_to_string t) = Some (Ok (name_of q None t)) ∧
    well_formed q None ∧ len (name_of q None t) < UNIT_NAME_MAX ∧ unit_name_is_hashed (name_of q None t) = Some true.
Proof.
  intros He Hlong Hmax. pose proof (type_len t) as Ht. change UNIT_NAME_MAX with 256 in *. unfold unit_name_hash_long.
  rewrite len_app, len_cons. change UNIT_NAME_MAX with 256 in *. destruct (_ <? 256) eqn:El; [lia|]. clear El.
  rewrite strrchr_app by apply type_chars. cbn [drop]. rewrite drop_0, type_from_to, (bool_decide_eq_false_2 (Some t = None)) by done.
  destruct (siphash24_total LONG_UNIT_NAME_HASH_KEY ((e ++ ch "." :: unit_type_to_string t) ++ [0])) as [h Hh].
  { by vm_compute. }
  { apply Forall_app. split; [|by_decide]. apply Forall_app. split; [|apply type_bytes]. by apply (charset_bytes _ VALID_CHARS); [by_decide|]. }
  { rewrite !len_app, len_cons. change (len [0]) with 1. lia. }
  unfold siphash24_string. rewrite Hh. cbn [mbind option_bind]. clear Hh. destruct (hexmem_htole 8 h) as [Hx Hxl].
  set (hash := hexmem (htole 8 h)) in *. clearbody hash. rewrite Hxl, assert_bind by done. change UNIT_NAME_HASH_LENGTH_CHARS with 16.
  rewrite assert_bind by lia. set (l := 256 - 1 - len (unit_type_to_string t) - 16 - 2).
  rewrite take_app_le by (unfold l, len in *; lia). set (q := take (Z.to_nat l) e ++ str "_" ++ hash).
  assert (Hn : take (Z.to_nat l) e ++ str "_" ++ hash ++ ch "." :: unit_type_to_string t = name_of q None t).
  { unfold name_of, q. cbn [app]. by rewrite <- !app_assoc. }
  assert (Hlen : len (name_of q None t) < UNIT_NAME_MAX).
  { unfold name_of, q. rewrite !len_app, len_cons. rewrite len_take by (unfold l; lia). change (len (str "_")) with 1. change (len (@nil Z)) with 0.
    change UNIT_NAME_MAX with 256. unfold l. lia. }
  destruct (is_hashed_name (take (Z.to_nat l) e) hash t) as [Hw Hh]; [by apply take_valid|done|done|exact Hlen|].
  rewrite Hn. rewrite assert_bind; [by exists q|]. rewrite valid_name_of by done. by rewrite (proj2 (Z.ltb_lt _ _) Hlen).
Qed.

Lemma is_hashed_total p t : well_formed p None → ∃ h, unit_name_is_hashed (name_of p None t) = Some h.
Proof.
  intros Hw. unfold unit_name_is_hashed. destruct (negb _); [eauto|]. rewrite name_of_dot. cbn [mbind option_bind]. rewrite app_nil_r.
  change UNIT_NAME_HASH_LENGTH_CHARS with 16. destruct (len p <? 16 + 1) eqn:E; [eauto|].
  destruct (get_is_Some p (len p - 16 - 1)) as [x ->]; [lia|]. cbn [mbind option_bind]. destruct (negb _); eauto.
Qed.

Lemma from_path_spec p t :
  is_string p → len p < 2 ^ 50 → Forall (fits true) (components p) → nameable p →
  ∃ q, unit_name_from_path p (ch "." :: unit_type_to_string t) = Some (Ok (name_of q None t)) ∧
    well_formed q None ∧ len (name_of q None t) < UNIT_NAME_MAX ∧
    (q = escaped (components p) ∨ unit_name_is_hashed (name_of q None t) = Some true).
Proof.
  intros Hs Hmax Hf Hn. unfold unit_name_from_path. rewrite (proj2 (suffix_valid_iff _)) by eauto. cbn [negb].
  destruct (path_escape_spec p Hf) as [He _]. rewrite (He Hn). unfold try at 1. cbn [mbind option_bind].
  destruct (escaped_spec p Hs) as (Hc & Hne & Hlen). set (e := escaped (components p)) in *.
  assert (∃ q, (if UNIT_NAME_MAX <=? len (e ++ ch "." :: unit_type_to_string t)
      then unit_name_hash_long (e ++ ch "." :: unit_type_to_string t) else Some (Ok (e ++ ch "." :: unit_type_to_string t))) =
      Some (Ok (name_of q None t)) ∧ well_formed q None ∧ len (name_of q None t) < UNIT_NAME_MAX ∧
      (q = e ∨ unit_name_is_hashed (name_of q None t) = Some true)) as (q & -> & Hw & Hl & Hq).
  { rewrite len_app, len_cons. destruct (_ <=? _) eqn:El.
    - apply Z.leb_le in El. destruct (hash_long_spec e t) as (q & ? & ? & ? & ?); [done|lia|lia|]. eauto 10.
    - exists e. split_and!; [done| | |by left]; [split; [by apply prefix_valid_iff|done]|].
      unfold name_of. cbn [app]. rewrite len_app, len_cons. lia. }
  exists q. unfold try. cbn [mbind option_bind]. rewrite valid_name_of by done. by rewrite (proj2 (Z.ltb_lt _ _) Hl).
Qed.

(** ** Properties: names *)

(** Building and taking apart are inverse. [unit_name_build_from_type] gives a name exactly
    when the name is a valid plain or instantiated one with that prefix, instance and type: no
    name is built that parses differently, none that parses is refused. *)
Theorem unit_name_build_iff (p : list Z) (i : option (list Z)) (t : UnitType) (n : list Z) :
  unit_name_build_from_type p i t = Ok n ↔
  unit_name_is_valid n (Flags true false true) = true ∧ unit_name_to_prefix n = Some (Ok p) ∧
  unit_name_to_instance n = Ok (class i, i) ∧ unit_name_to_type n = Some (Ok t).
Proof.
  split.
  - unfold unit_name_build_from_type. destruct (unit_prefix_is_valid p) eqn:Hp; cbn [negb]; [|done].
    assert (∀ i' flags, in_charset (default [] i') VALID_CHARS_WITH_AT = true → permits (Flags true false true) i' = true →
      (if unit_name_is_valid (name_of p i' t) flags then Ok (name_of p i' t) else Err (-EINVAL)) = Ok n →
      unit_name_is_valid n (Flags true false true) = true ∧ unit_name_to_prefix n = Some (Ok p) ∧
      unit_name_to_instance n = Ok (class i', i') ∧ unit_name_to_type n = Some (Ok t)) as Hcase.
    { intros i' flags Hi Hperm. assert (Hw : well_formed p i') by done. rewrite valid_name_of by done.
      destruct (_ <? _) eqn:El; cbn [andb]; [|done]. destruct (permits flags i'); [|done]. intros [= <-].
      apply Z.ltb_lt in El. rewrite valid_name_of by done. rewrite (proj2 (Z.ltb_lt _ _) El), Hperm. split; [done|]. by apply parse_name_of. }
    destruct i as [i|]; [|by apply (Hcase None UNIT_NAME_PLAIN)].
    destruct (unit_instance_is_valid i) eqn:Hi; cbn [negb]; [|done]. apply wf_instance in Hi as [Hne Hi].
    intros H. apply (Hcase (Some i) UNIT_NAME_INSTANCE); [done|by destruct i|done].
  - intros (Hv & Hp & Hi & Ht). apply valid_inv in Hv as (p' & i' & t' & -> & Hw & Hperm & Hl).
    destruct (parse_name_of p' i' t' Hw Hl) as (Hp' & Hi' & Ht'). rewrite Hp in Hp'. rewrite Hi in Hi'. rewrite Ht in Ht'.
    injection Hp' as <-. injection Hi' as _ <-. injection Ht' as <-.
    unfold unit_name_build_from_type. destruct Hw as [Hwp Hwi]. rewrite Hwp. cbn [negb].
    assert (∀ flags, permits flags i = true → unit_name_is_valid (name_of p i t) flags = true) as Hval.
    { intros flags Hfl. rewrite valid_name_of by done. by rewrite (proj2 (Z.ltb_lt _ _) Hl), Hfl. }
    destruct i as [[|c i]|]; [done| |].
    + rewrite (proj2 (wf_instance (c :: i))) by done. cbn [negb].
      change (p ++ str "@" ++ (c :: i) ++ str "." ++ unit_type_to_string t) with (name_of p (Some (c :: i)) t).
      by rewrite (Hval UNIT_NAME_INSTANCE eq_refl).
    + change (p ++ str "." ++ unit_type_to_string t) with (name_of p None t). by rewrite (Hval UNIT_NAME_PLAIN eq_refl).
Qed.

(** Templates and instances. For a template or an instance [f], [unit_name_template] gives the
    template with the same prefix and type, and every valid instance string that keeps the name
    short enough gives the name with the instance replaced, which has the same template. *)
Theorem unit_name_instances (f i : list Z) :
  unit_name_is_valid f (Flags false true true) = true → unit_instance_is_valid i = true →
  ∃ p t, unit_name_to_prefix f = Some (Ok p) ∧ unit_name_to_type f = Some (Ok t) ∧
    unit_name_template f = Some (Ok (name_of p (Some []) t)) ∧
    unit_name_is_valid (name_of p (Some []) t) UNIT_NAME_TEMPLATE = true ∧
    (len (name_of p (Some i) t) < UNIT_NAME_MAX → ∃ n, unit_name_replace_instance f i = Some (Ok n) ∧
      unit_name_to_prefix n = Some (Ok p) ∧ unit_name_to_instance n = Ok (UNIT_NAME_INSTANCE, Some i) ∧
      unit_name_to_type n = Some (Ok t) ∧ unit_name_template n = unit_name_template f) ∧
    (UNIT_NAME_MAX <= len (name_of p (Some i) t) → unit_name_replace_instance f i = Some (Err (-EINVAL))).
Proof.
  intros Hv Hi. pose proof Hv as Hv'. apply valid_inv in Hv' as (p & j & t & -> & Hw & Hperm & Hl). destruct j as [j|]; [|done].
  destruct (parse_name_of p (Some j) t Hw Hl) as (Hp & _ & Ht). exists p, t.
  assert (Htempl : ∀ k, well_formed p (Some k) → len (name_of p (Some k) t) < UNIT_NAME_MAX →
    unit_name_template (name_of p (Some k) t) = Some (Ok (name_of p (Some []) t))).
  { intros k Hk Hkl. unfold unit_name_template. rewrite valid_name_of by done. rewrite (proj2 (Z.ltb_lt _ _) Hkl).
    assert (permits (Flags false true true) (Some k) = true) as -> by by destruct k. cbn [andb negb].
    rewrite name_of_dot. unfold name_of at 1. cbn [app]. rewrite strchr_app by by apply prefix_no_at, Hw. done. }
  assert (Hw0 : well_formed p (Some [])) by (split; [apply Hw|done]).
  assert (Hl0 : len (name_of p (Some []) t) <= len (name_of p (Some j) t)).
  { unfold name_of. rewrite !len_app. cbn [app]. rewrite !len_cons. pose proof (len_nonneg j). change (len (@nil Z)) with 0. lia. }
  pose proof Hi as [Hine Hich]%wf_instance. assert (Hwi : well_formed p (Some i)) by (split; [apply Hw|done]).
  assert (Hrep : unit_name_replace_instance (name_of p (Some j) t) i =
    Some (if len (name_of p (Some i) t) <? UNIT_NAME_MAX then Ok (name_of p (Some i) t) else Err (-EINVAL))).
  { unfold unit_name_replace_instance. rewrite Hv, Hi. cbn [negb]. rewrite name_of_dot. unfold name_of at 1. cbn [app].
    rewrite strchr_app by by apply prefix_no_at, Hw. cbn [mbind option_bind].
    change (p ++ str "@" ++ i ++ ch "." :: unit_type_to_string t) with (name_of p (Some i) t). rewrite valid_name_of by done.
    by destruct (_ <? _), i. }
  split_and!; [done|done|by apply Htempl| | |].
  - rewrite valid_name_of by done. by rewrite (proj2 (Z.ltb_lt _ _)) by lia.
  - intros Hli. exists (name_of p (Some i) t). rewrite Hrep, (proj2 (Z.ltb_lt _ _) Hli).
    destruct (parse_name_of p (Some i) t Hwi Hli) as (H1 & H2 & H3). split_and!; [done|done| |done|by rewrite !Htempl].
    rewrite H2. by destruct i.
  - intros Hli. rewrite Hrep. by rewrite (proj2 (Z.ltb_ge _ _) Hli).
Qed.

(** C33: paths and their names. For every path (of any length a string can have, without an overlong
    component) and every suffix, [unit_name_from_path] gives a valid plain name exactly when the
    path is empty, or is not ".", has no ".." and is shorter than PATH_MAX, and -EINVAL otherwise;
    no assertion fails, even when the name is too long and a hash is used. [unit_name_to_path]
    gives the path back, absolute and simplified, unless the name looks like a hashed one. *)
Theorem unit_name_path_roundtrip (p suffix : list Z) :
  is_string p → len p < 2 ^ 50 → Forall (fits true) (components p) → unit_suffix_is_valid suffix = true →
  (nameable p → ∃ n hashed, unit_name_from_path p suffix = Some (Ok n) ∧ unit_name_is_valid n UNIT_NAME_PLAIN = true ∧
    unit_name_is_hashed n = Some hashed ∧
    unit_name_to_path n = Some (if hashed : bool then Err (-ENAMETOOLONG) else Ok (render true (components p)))) ∧
  (¬ nameable p → unit_name_from_path p suffix = Some (Err (-EINVAL))).
Proof.
  intros Hs Hmax Hf Hsuf. pose proof Hsuf as (t & ->)%suffix_valid_iff. split.
  - intros Hn. destruct (from_path_spec p t Hs Hmax Hf Hn) as (q & Hfp & Hw & Hl & Hq).
    destruct (is_hashed_total q t Hw) as [h Hh]. exists (name_of q None t), h. split_and!; [done| |done|].
    + rewrite valid_name_of by done. by rewrite (proj2 (Z.ltb_lt _ _) Hl).
    + destruct (parse_name_of q None t Hw Hl) as (Hp & _ & _). unfold unit_name_to_path, try. rewrite Hp, Hh. cbn [mbind option_bind].
      destruct h; [done|]. destruct Hq as [->|Hq]; [|congruence]. apply path_unescape_spec; [done| |].
      * destruct Hn as [->|(_ & Hn & _)]; [by apply Forall_nil|done].
      * unfold name_of in Hl. rewrite len_app in Hl. pose proof (len_nonneg ([] ++ ch "." :: unit_type_to_string t)). lia.
  - intros Hn. unfold unit_name_from_path. rewrite Hsuf. cbn [negb].
    destruct (path_escape_spec p Hf) as [_ He]. by rewrite (He Hn).
Qed.

(** ** Slices *)

Lemma slice_loop_plain x first dash : ch "-" ∉ x → x ≠ [] → slice_loop x first dash = true.
Proof.
  revert first dash. induction x as [|c x IH]; intros first dash Hx Hne; [done|]. apply not_elem_of_cons in Hx as [Hc Hx].
  cbn [slice_loop]. destruct (Z.eqb_spec c (ch "-")); [congruence|]. destruct x; [done|]. by apply IH.
Qed.

Lemma slice_loop_app a x dash : ch "-" ∉ x → x ≠ [] → slice_loop (a ++ ch "-" :: x) false dash = slice_loop a false dash.
Proof.
  intros Hx Hne. revert dash. induction a as [|c a IH]; intros dash; cbn [app slice_loop].
  - rewrite Z.eqb_refl. destruct dash; [done|]. by apply slice_loop_plain.
  - destruct (c =? ch "-"); [|apply IH]. destruct dash; [done|apply IH].
Qed.

Lemma slice_loop_split a x :
  ch "-" ∉ x → x ≠ [] → slice_loop (a ++ ch "-" :: x) true false = bool_decide (a ≠ []) && slice_loop a true false.
Proof.
  intros Hx Hne. destruct a as [|c a]; cbn [app slice_loop]; [done|]. rewrite bool_decide_eq_true_2 by done.
  destruct (c =? ch "-"); [done|]. by rewrite slice_loop_app.
Qed.

(** The last part of a slice name is not empty. *)
Lemma slice_loop_last a x : ch "-" ∉ x → slice_loop (a ++ ch "-" :: x) true false = true → x ≠ [].
Proof.
  intros _ H ->. assert (Hf : ∀ first dash, slice_loop (a ++ [ch "-"]) first dash = false).
  { clear H. induction a as [|c a IH]; intros first dash; cbn [app slice_loop].
    - rewrite Z.eqb_refl. by destruct (first || dash).
    - destruct (c =? ch "-"); [|apply IH]. destruct (first || dash); [done|apply IH]. }
  by rewrite Hf in H.
Qed.

Definition slice_of (p : list Z) : list Z := name_of p None UNIT_SLICE.

Lemma slice_of_app p : slice_of p = p ++ str ".slice".
Proof. reflexivity. Qed.

Lemma slice_valid_iff p :
  well_formed p None → len (slice_of p) < UNIT_NAME_MAX →
  slice_name_is_valid (slice_of p) = bool_decide (p = str "-") || slice_loop p true false.
Proof.
  intros Hw Hl. unfold slice_name_is_valid. unfold slice_of at 1. rewrite valid_name_of by done. unfold slice_of in Hl.
  rewrite (proj2 (Z.ltb_lt _ _) Hl). cbn [negb andb permits plain UNIT_NAME_PLAIN].
  assert (bool_decide (slice_of p = SPECIAL_ROOT_SLICE) = bool_decide (p = str "-")) as ->.
  { apply bool_decide_ext. rewrite slice_of_app. split; [|by intros ->]. intros H. change SPECIAL_ROOT_SLICE with (str "-" ++ str ".slice") in H.
    by apply app_inv_tail in H. }
  case_bool_decide; [done|]. by rewrite slice_of_app, endswith_app.
Qed.

Lemma slice_inv s :
  slice_name_is_valid s = true → ∃ p, s = slice_of p ∧ well_formed p None ∧ len s < UNIT_NAME_MAX ∧ (p = str "-" ∨ slice_loop p true false = true).
Proof.
  intros Hs. pose proof Hs as Hs'. unfold slice_name_is_valid in Hs'. destruct (unit_name_is_valid s UNIT_NAME_PLAIN) eqn:Hv; cbn [negb] in Hs'; [|done].
  apply valid_inv in Hv as (p & i & t & -> & Hw & Hperm & Hl). destruct i as [[]|]; [done|done|].
  assert (t = UNIT_SLICE) as ->.
  { assert (∃ q, name_of p None t = slice_of q) as [q Hr].
    { case_bool_decide as Hr; [by exists (str "-")|]. destruct (endswith _ _) as [q|] eqn:E; [|done]. exists q. by apply endswith_Some. }
    pose proof (name_of_dot p None t) as Hd. rewrite Hr in Hd. unfold slice_of in Hd. rewrite name_of_dot in Hd.
    injection Hd as _ Hd. by destruct t. }
  exists p. split_and!; [done..|]. fold (slice_of p) in Hs. rewrite slice_valid_iff in Hs by done.
  apply orb_true_iff in Hs as [Hs%bool_decide_eq_true|Hs]; auto.
Qed.

Lemma slice_strrchr a x :
  ch "-" ∉ x → strrchr (slice_of (a ++ ch "-" :: x)) (ch "-") = Some (a, ch "-" :: x ++ str ".slice").
Proof.
  intros Hx. rewrite slice_of_app, <- app_assoc. cbn [app]. apply strrchr_app. rewrite not_elem_of_app. split; [done|]. by_decide.
Qed.

Lemma slice_strrchr_none p : ch "-" ∉ p → strrchr (slice_of p) (ch "-") = None.
Proof. intros Hp. apply strrchr_notin. rewrite slice_of_app, not_elem_of_app. split; [done|]. by_decide. Qed.

Lemma wf_split a x : a ≠ [] → x ≠ [] → well_formed (a ++ ch "-" :: x) None ↔ well_formed a None ∧ unit_prefix_is_valid x = true.
Proof.
  intros Ha Hx. unfold well_formed. rewrite !prefix_valid_iff, in_charset_app. cbn [in_charset forallb].
  change (bool_decide (ch "-" ∈ VALID_CHARS)) with true. cbn [andb]. fold (in_charset x VALID_CHARS). rewrite andb_true_iff.
  split; [naive_solver|]. intros [[[_ H1] _] [_ H2]]. split_and!; [by destruct a|done..].
Qed.

Lemma subslice_spec p name :
  well_formed p None → len (slice_of p) < UNIT_NAME_MAX → p = str "-" ∨ slice_loop p true false = true → unit_prefix_is_valid name = true →
  slice_build_subslice (slice_of p) name = Some (Ok (slice_of (if bool_decide (p = str "-") then name else p ++ ch "-" :: name))).
Proof.
  intros Hw Hl Hp Hn. unfold slice_build_subslice. rewrite slice_valid_iff by done.
  assert (bool_decide (p = str "-") || slice_loop p true false = true) as -> by (destruct Hp as [->| ->]; [done|apply orb_true_r]).
  rewrite Hn. cbn [negb]. case_bool_decide as Hr.
  - assert (p = str "-") as ->.
    { rewrite slice_of_app in Hr. change SPECIAL_ROOT_SLICE with (str "-" ++ str ".slice") in Hr. by apply app_inv_tail in Hr. }
    by rewrite slice_of_app.
  - rewrite (bool_decide_eq_false_2 (p = str "-")) by (by intros ->). rewrite !slice_of_app, endswith_app. cbn [mbind option_bind].
    by rewrite <- app_assoc.
Qed.

Lemma parent_spec p :
  well_formed p None → len (slice_of p) < UNIT_NAME_MAX → slice_loop p true false = true →
  slice_build_parent_slice (slice_of p) =
    Ok (Some (match strrchr p (ch "-") with Some (a, _) => slice_of a | None => SPECIAL_ROOT_SLICE end)).
Proof.
  intros Hw Hl Hp. unfold slice_build_parent_slice. rewrite slice_valid_iff by done. rewrite Hp, orb_true_r. cbn [negb].
  rewrite bool_decide_eq_false_2.
  - destruct (last_split p (ch "-")) as [Hn|(a & x & -> & Hx)]; [by rewrite slice_strrchr_none, strrchr_notin|].
    by rewrite slice_strrchr, strrchr_app.
  - rewrite slice_of_app. change SPECIAL_ROOT_SLICE with (str "-" ++ str ".slice"). intros H%app_inv_tail. by rewrite H in Hp.
Qed.

(** Slices form a tree. Every valid slice but the root has a parent, which is a valid slice and
    either the root or a shorter name, so that the chain of parents ends; the slice is the child
    of its parent that its last part names. Conversely a child made with a name without dashes is
    a valid slice, unless it is too long, and the slice it was made from is its parent. *)
Theorem slice_tree (s : list Z) :
  slice_name_is_valid s = true →
  (s = SPECIAL_ROOT_SLICE ∧ slice_build_parent_slice s = Ok None ∨
   ∃ s' name, slice_build_parent_slice s = Ok (Some s') ∧ slice_name_is_valid s' = true ∧
     (s' = SPECIAL_ROOT_SLICE ∨ len s' < len s) ∧ (ch "-" ∉ name) ∧ slice_build_subslice s' name = Some (Ok s)) ∧
  ∀ name, unit_prefix_is_valid name = true → ch "-" ∉ name →
    ∃ c, slice_build_subslice s name = Some (Ok c) ∧
      (len c < UNIT_NAME_MAX → slice_name_is_valid c = true ∧ slice_build_parent_slice c = Ok (Some s)).
Proof.
  intros Hs. apply slice_inv in Hs as (p & -> & Hw & Hl & Hp). split.
  - destruct (decide (p = str "-")) as [->|Hne]; [left; by vm_compute|right]. destruct Hp as [|Hp]; [done|].
    rewrite parent_spec by done. destruct (last_split p (ch "-")) as [Hn|(a & x & -> & Hx)].
    + exists (slice_of (str "-")), p. rewrite strrchr_notin by done. split_and!; [done|by vm_compute|by left|done|].
      by rewrite subslice_spec; [|by vm_compute|by vm_compute|by left|apply Hw].
    + rewrite strrchr_app by done. pose proof (slice_loop_last a x Hx Hp) as Hxne. rewrite slice_loop_split in Hp by done.
      apply andb_true_iff in Hp as [Ha%bool_decide_eq_true Hp]. apply wf_split in Hw as [Hwa Hxv]; [|done|done].
      assert (Hla : len (slice_of a) < len (slice_of (a ++ ch "-" :: x))).
      { rewrite !slice_of_app, !len_app, len_cons. pose proof (len_nonneg x). lia. }
      exists (slice_of a), x. split_and!; [done| |by right|done|].
      * rewrite slice_valid_iff by (done || lia). by rewrite Hp, orb_true_r.
      * rewrite subslice_spec by (auto || lia). rewrite bool_decide_eq_false_2; [done|]. intros ->. done.
  - intros name Hn Hd. rewrite subslice_spec by done. eexists. split; [done|]. pose proof Hn as [Hne _]%prefix_valid_iff.
    case_bool_decide as Hr; [subst p|destruct Hp as [|Hp]; [done|]]; intros Hc.
    + assert (Hwn : well_formed name None) by done. pose proof (slice_loop_plain name true false Hd Hne) as Hsl.
      rewrite parent_spec, slice_valid_iff by done. rewrite Hsl, orb_true_r, strrchr_notin by done. done.
    + assert (Hpne : p ≠ []) by (by intros ->; destruct Hw as [[? _]%prefix_valid_iff _]).
      assert (Hwn : well_formed (p ++ ch "-" :: name) None) by (by apply wf_split).
      assert (Hsl : slice_loop (p ++ ch "-" :: name) true false = true).
      { rewrite slice_loop_split by done. by rewrite bool_decide_eq_true_2, Hp by done. }
      rewrite parent_spec, slice_valid_iff by done. by rewrite Hsl, orb_true_r, strrchr_app by done.
Qed.

Lemma unit_name_instances_witness : ∃ p t, unit_name_to_prefix (str "getty@.service") = Some (Ok p) ∧
  unit_name_to_type (str "getty@.service") = Some (Ok t) ∧ len (name_of p (Some (str "tty1")) t) < UNIT_NAME_MAX ∧
  ∃ n, unit_name_replace_instance (str "getty@.service") (str "tty1") = Some (Ok n).
Proof.
  destruct (unit_name_instances (str "getty@.service") (str "tty1")) as (p & t & Hp & Ht & _ & _ & Hrep & _); [by vm_compute..|].
  exists p, t. split; [exact Hp|]. split; [exact Ht|]. vm_compute in Hp, Ht. injection Hp as <-. injection Ht as <-.
  split; [by vm_compute|]. destruct Hrep as (n & Hn & _); [by vm_compute|]. exists n. exact Hn.
Defined.

#[global] Instance nameable_dec p : Decision (nameable p).
Proof. unfold nameable. apply _. Defined.

Lemma unit_name_path_roundtrip_witness :
  (∃ n hashed, unit_name_from_path (str "/.home//user-1/") (str ".mount") = Some (Ok n) ∧ unit_name_is_valid n UNIT_NAME_PLAIN = true ∧
    unit_name_is_hashed n = Some hashed ∧
    unit_name_to_path n = Some (if hashed : bool then Err (-ENAMETOOLONG) else Ok (render true (components (str "/.home//user-1/"))))) ∧
  unit_name_from_path (str "/home/../etc") (str ".mount") = Some (Err (-EINVAL)).
Proof.
  split.
  - apply (unit_name_path_roundtrip (str "/.home//user-1/") (str ".mount")); [by_decide|by_decide|by_decide|reflexivity|by_decide].
  - apply (unit_name_path_roundtrip (str "/home/../etc") (str ".mount")); [by_decide|by_decide|by_decide|reflexivity|by_decide].
Defined.

Lemma slice_tree_witness :
  ∃ c, slice_build_subslice (str "user-1000.slice") (str "app") = Some (Ok c) ∧
    (len c < UNIT_NAME_MAX → slice_name_is_valid c = true ∧ slice_build_parent_slice c = Ok (Some (str "user-1000.slice"))).
Proof. apply (slice_tree (str "user-1000.slice")); [reflexivity|reflexivity|by_decide]. Defined.

(** A short path can have a name that looks hashed, and is then not found again. *)
Example short_path_looks_hashed :
  let p := str "/foo_0123456789abcdef" in
  unit_name_from_path p (str ".mount") = Some (Ok (str "foo_0123456789abcdef.mount")) ∧
  unit_name_to_path (str "foo_0123456789abcdef.mount") = Some (Err (-ENAMETOOLONG)) ∧
  unit_name_to_path (str "foo_0123456789abcdeg.mount") = Some (Ok (str "/foo_0123456789abcdeg")).
Proof. vm_compute. split_and!; reflexivity. Qed.
