(* ===== verification/Hashmap.v ===== *)
(** * Hash tables and sets (src/basic/hashmap.c)

    Open addressing with linear probing and Robin Hood displacement, in direct storage (inside
    the object) or indirect storage. The storage is an array of buckets and an array of DIBs, the
    distances from the initial bucket, in one byte each; the model keeps the two as lists of
    equal length. A bucket that was zeroed is [None].

    A key stands for its contents, not for the pointer: two keys are equal when
    [hash_ops->compare] returns 0. The hash function, with a 16 byte key of the table, is a
    parameter. The random key for a resize and whether [realloc()] succeeds are inputs of the
    operations that may resize.

    Plain hashmaps and sets are modelled; a set is a hashmap whose values are [unit]. The
    insertion order links of OrderedHashmap are not. *)

From S2P Require Import Prelude.

Definition INV_KEEP_FREE : Z := 5.
Definition IDX_FIRST : Z := UINT_MAX - 1.
Definition IDX_NIL : Z := UINT_MAX.
Definition DIB_RAW_OVERFLOW : Z := 0xfd.
Definition DIB_RAW_REHASH : Z := 0xfe.
Definition DIB_RAW_FREE : Z := 0xff.
Definition DIB_FREE : Z := UINT_MAX.

(** [sizeof(struct indirect_storage)], which is the room for direct storage. *)
Definition DIRECT_STORAGE : Z := 39.

(** What the environment provides to an operation that may resize. *)
Record Ext := MkExt { random_key : list Z; alloc_ok : bool }.

(** What the code relies on: equal keys have equal hashes, which are 64 bit. *)
Class HashOps (K : Type) := {
  hash : list Z → K → Z;
  hash_range key k : 0 <= hash key k < 2 ^ 64 }.

(** The types of hashmaps differ in the size of an entry. *)
Class EntryType := { entry_size : Z; entry_size_ok : entry_size = 8 ∨ entry_size = 16 }.

Section Hashmap.
Context {K V : Type} `{!EqDecision K, !EqDecision V, HO : !HashOps K, ET : EntryType}.

Record HashmapBase := Hm {
  buckets : list (option (K * V));
  dibs : list Z;
  hash_key : list Z;
  n_entries : Z;
  has_indirect : bool;
  idx_lowest_entry : Z;
  dirty : bool }.

Implicit Types (h : HashmapBase) (k : K) (v : V) (e : K * V) (x : Ext).

Definition n_direct_buckets : Z := DIRECT_STORAGE / (entry_size + 1).

Definition n_buckets h : Z := len (dibs h).

Definition set_storage b d h : HashmapBase :=
  Hm b d (hash_key h) (n_entries h) (has_indirect h) (idx_lowest_entry h) (dirty h).
Definition set_n_entries n h : HashmapBase :=
  Hm (buckets h) (dibs h) (hash_key h) n (has_indirect h) (idx_lowest_entry h) (dirty h).
Definition set_lowest i h : HashmapBase :=
  Hm (buckets h) (dibs h) (hash_key h) (n_entries h) (has_indirect h) i (dirty h).
Definition base_set_dirty h : HashmapBase :=
  Hm (buckets h) (dibs h) (hash_key h) (n_entries h) (has_indirect h) (idx_lowest_entry h) true.

Definition base_bucket_hash h k : Z := hash (hash_key h) k mod n_buckets h.

(** The key of a bucket in use. *)
Definition bucket_at h (idx : Z) : option (K * V) := b ← get (buckets h) idx; b.

Definition set_bucket (idx : Z) (b : option (K * V)) h : HashmapBase := set_storage (upd (buckets h) idx b) (dibs h) h.
Definition set_raw (idx raw : Z) h : HashmapBase := set_storage (buckets h) (upd (dibs h) idx raw) h.

Definition bucket_distance h (idx from : Z) : Z :=
  if from <=? idx then idx - from else n_buckets h + idx - from.

Definition bucket_calculate_dib h (idx raw_dib : Z) : option Z :=
  if raw_dib =? DIB_RAW_FREE then Some DIB_FREE
  else if raw_dib <? DIB_RAW_OVERFLOW then Some raw_dib
  else
    '(k, _) ← bucket_at h idx;
    Some (bucket_distance h idx (base_bucket_hash h k)).

Definition bucket_set_dib (idx dib : Z) h : HashmapBase :=
  set_raw idx (if negb (dib =? DIB_FREE) then Z.min dib DIB_RAW_OVERFLOW else DIB_RAW_FREE) h.

(** From [idx] to the end of the table. *)
Fixpoint skip_free (ds : list Z) (idx : Z) : Z :=
  match ds with
  | [] => IDX_NIL
  | d :: ds => if negb (d =? DIB_RAW_FREE) then idx else skip_free ds (idx + 1)
  end.

Definition skip_free_buckets h (idx : Z) : Z := skip_free (drop (Z.to_nat idx) (dibs h)) idx.

Definition bucket_mark_free (idx : Z) h : HashmapBase := bucket_set_dib idx DIB_FREE (set_bucket idx None h).

Definition next_idx h (idx : Z) : Z := (idx + 1) mod n_buckets h.
Definition prev_idx h (idx : Z) : Z := (n_buckets h + idx - 1) mod n_buckets h.

(** ** Removing an entry *)

(** The search for the stop bucket, which is free or has DIB 0. *)
Fixpoint find_right (fuel : nat) h (left right : Z) : option Z :=
  match fuel with
  | O => None
  | S fuel =>
      raw_dib ← get (dibs h) right;
      if (raw_dib =? 0) || (raw_dib =? DIB_RAW_FREE) then Some right
      else assert_ (negb (left =? right));; find_right fuel h left (next_idx h right)
  end.

(** The loop that shifts the buckets between backwards; the last value of [prev]. *)
Fixpoint shift_back (fuel : nat) h (prev left right : Z) : option (HashmapBase * Z) :=
  if left =? right then Some (h, prev)
  else match fuel with
  | O => None
  | S fuel =>
      raw ← get (dibs h) left;
      dib ← bucket_calculate_dib h left raw;
      assert_ (negb (dib =? 0));;
      e ← get (buckets h) left;
      shift_back fuel (bucket_set_dib prev (dib - 1) (set_bucket prev e h)) left (next_idx h left) right
  end.

Definition base_remove_entry (idx : Z) h : option HashmapBase :=
  raw ← get (dibs h) idx;
  assert_ (negb (raw =? DIB_RAW_FREE));;
  let fuel := S (length (dibs h)) in
  right ← find_right fuel h idx (next_idx h idx);
  '(h, prev) ← shift_back fuel h idx (next_idx h idx) right;
  let h := bucket_mark_free prev h in
  Some (base_set_dirty (set_n_entries (n_entries h - 1) h)).

(** ** Finding and putting entries *)

(** The index of the entry, or [None] for [IDX_NIL]. *)
Fixpoint scan_loop (fuel : nat) h (idx : Z) k (distance : Z) : option (option Z) :=
  match fuel with
  | O => None
  | S fuel =>
      raw ← get (dibs h) idx;
      if raw =? DIB_RAW_FREE then Some None
      else
        dib ← bucket_calculate_dib h idx raw;
        if dib <? distance then Some None
        else
          found ← (if dib =? distance then e ← bucket_at h idx; Some (bool_decide (fst e = k)) else Some false);
          if (found : bool) then Some (Some idx) else scan_loop fuel h (next_idx h idx) k (distance + 1)
  end.

Definition base_bucket_scan h (idx : Z) k : option (option Z) :=
  assert_ (idx <? n_buckets h);; scan_loop (S (length (dibs h))) h idx k 0.

(** [e] is the entry in swap slot [IDX_PUT]; afterwards the entry that was displaced and has to be
    rehashed, if there is one. *)
Fixpoint robin_hood_loop (fuel : nat) (idx distance : Z) e h : option (HashmapBase * option (K * V)) :=
  match fuel with
  | O => None
  | S fuel =>
      raw_dib ← get (dibs h) idx;
      if (raw_dib =? DIB_RAW_FREE) || (raw_dib =? DIB_RAW_REHASH) then
        tmp ← get (buckets h) idx;
        let h := if has_indirect h && (idx <? idx_lowest_entry h) then set_lowest idx h else h in
        let h := set_bucket idx (Some e) (bucket_set_dib idx distance h) in
        Some (h, if raw_dib =? DIB_RAW_REHASH then tmp else None)
      else
        dib ← bucket_calculate_dib h idx raw_dib;
        if dib <? distance then
          tmp ← bucket_at h idx;
          robin_hood_loop fuel (next_idx h idx) (dib + 1) tmp (set_bucket idx (Some e) (bucket_set_dib idx distance h))
        else robin_hood_loop fuel (next_idx h idx) (distance + 1) e h
  end.

Definition hashmap_put_robin_hood (idx : Z) e h : option (HashmapBase * option (K * V)) :=
  robin_hood_loop (S (length (dibs h))) idx 0 e h.

(** ** Resizing *)

Definition log2u (z : Z) : Z := if 1 <? z then Z.log2 z else 0.
Definition log2u_round_up (z : Z) : Z := if z <=? 1 then 0 else log2u (z - 1) + 1.

(** The [do ... while (rehash_next)] loop; the number of entries rehashed. *)
Fixpoint rehash_chain (fuel : nat) (optimal_idx : Z) e h (n_rehashed : Z) : option (HashmapBase * Z) :=
  match fuel with
  | O => None
  | S fuel =>
      '(h, displaced) ← hashmap_put_robin_hood optimal_idx e h;
      match displaced with
      | None => Some (h, n_rehashed + 1)
      | Some e => rehash_chain fuel (base_bucket_hash h (fst e)) e h (n_rehashed + 1)
      end
  end.

(** [n] buckets from [idx] on are left to look at. *)
Fixpoint rehash_loop (n : nat) (idx : Z) h (n_rehashed : Z) : option (HashmapBase * Z) :=
  match n with
  | O => Some (h, n_rehashed)
  | S n =>
      raw ← get (dibs h) idx;
      if negb (raw =? DIB_RAW_REHASH) then rehash_loop n (idx + 1) h n_rehashed
      else
        e ← bucket_at h idx;
        let optimal_idx := base_bucket_hash h (fst e) in
        if optimal_idx =? idx then rehash_loop n (idx + 1) (set_raw idx 0 h) (n_rehashed + 1)
        else
          '(h, n_rehashed) ← rehash_chain (S (length (dibs h))) optimal_idx e
                               (set_bucket idx None (set_raw idx DIB_RAW_FREE h)) n_rehashed;
          rehash_loop n (idx + 1) h n_rehashed
  end.

(** The storage after [realloc()]: the DIBs marked for rehashing, the new buckets free. *)
Definition grow (n : Z) (key : list Z) h : HashmapBase :=
  let more := Z.to_nat (n - n_buckets h) in
  Hm (buckets h ++ replicate more None)
     (((λ d, if d =? DIB_RAW_FREE then DIB_RAW_FREE else DIB_RAW_REHASH) <$> dibs h) ++ replicate more DIB_RAW_FREE)
     key (n_entries h) true (if has_indirect h then idx_lowest_entry h else 0) (dirty h).

Definition resize_buckets (entries_add : Z) x h : option (Z * HashmapBase) :=
  let new_n_entries := u32 (n_entries h + entries_add) in
  if new_n_entries <? entries_add then Some (-ENOMEM, h)
  else if negb (has_indirect h) && (new_n_entries <=? n_direct_buckets) then Some (0, h)
  else
    let new_n_buckets := u32 (new_n_entries + new_n_entries / (INV_KEEP_FREE - 1)) in
    if new_n_buckets <? new_n_entries then Some (-ENOMEM, h)
    else if UINT_MAX / (entry_size + 1) <? new_n_buckets then Some (-ENOMEM, h)
    else
      let old_n_buckets := n_buckets h in
      if new_n_buckets <=? old_n_buckets then Some (0, h)
      else
        let new_shift := log2u_round_up (Z.max (new_n_buckets * (entry_size + 1)) (2 * DIRECT_STORAGE)) in
        assert_ (new_shift <? 32);; (* the shift by 32 is undefined *)
        if negb (alloc_ok x) then Some (-ENOMEM, h)
        else
          assert_ (bool_decide (DIB_RAW_REHASH ∉ dibs h));;
          let h := grow (2 ^ new_shift / (entry_size + 1)) (random_key x) h in
          '(h, n_rehashed) ← rehash_loop (Z.to_nat old_n_buckets) 0 h 0;
          assert_ (n_rehashed =? n_entries h);;
          Some (1, h).

Definition hashmap_base_put_boldly (idx : Z) e (may_resize : bool) x h : option (Z * HashmapBase) :=
  assert_ (idx <? n_buckets h);;
  '(r, h) ← (if may_resize then resize_buckets 1 x h else Some (0, h));
  if r <? 0 then Some (r, h)
  else
    let idx := if 0 <? r then base_bucket_hash h (fst e) else idx in
    assert_ (n_entries h <? n_buckets h);;
    '(h, displaced) ← hashmap_put_robin_hood idx e h;
    assert_ (bool_decide (displaced = None));;
    Some (1, base_set_dirty (set_n_entries (n_entries h + 1) h)).

(** ** The interface *)

Definition reset_storage h : HashmapBase :=
  let n := Z.to_nat n_direct_buckets in
  Hm (replicate n None) (replicate n DIB_RAW_FREE) (hash_key h) 0 false 0 (dirty h).

(** A new table; [key] is the shared hash key. *)
Definition hashmap_base_new (key : list Z) : HashmapBase := reset_storage (Hm [] [] key 0 false 0 false).

Definition bucket_scan h k : option (option Z) := base_bucket_scan h (base_bucket_hash h k) k.

Definition hashmap_put k v x h : option (Z * HashmapBase) :=
  let hash := base_bucket_hash h k in
  idx ← base_bucket_scan h hash k;
  match idx with
  | Some idx => e ← bucket_at h idx; Some (if bool_decide (snd e = v) then 0 else -EEXIST, h)
  | None => hashmap_base_put_boldly hash (k, v) true x h
  end.

Definition hashmap_replace k v x h : option (Z * HashmapBase) :=
  let hash := base_bucket_hash h k in
  idx ← base_bucket_scan h hash k;
  match idx with
  | Some idx => Some (0, base_set_dirty (set_bucket idx (Some (k, v)) h))
  | None => hashmap_base_put_boldly hash (k, v) true x h
  end.

Definition hashmap_update k v h : option (Z * HashmapBase) :=
  idx ← bucket_scan h k;
  match idx with
  | None => Some (-ENOENT, h)
  | Some idx => e ← bucket_at h idx; Some (0, base_set_dirty (set_bucket idx (Some (fst e, v)) h))
  end.

Definition hashmap_get k h : option (option V) :=
  idx ← bucket_scan h k;
  match idx with None => Some None | Some idx => e ← bucket_at h idx; Some (Some (snd e)) end.

(** The value and the key that is stored. *)
Definition hashmap_get2 k h : option (option (K * V)) :=
  idx ← bucket_scan h k;
  match idx with None => Some None | Some idx => e ← bucket_at h idx; Some (Some e) end.

Definition hashmap_contains k h : option bool := idx ← bucket_scan h k; Some (bool_decide (idx ≠ None)).

Definition hashmap_remove2 k h : option (option (K * V) * HashmapBase) :=
  idx ← bucket_scan h k;
  match idx with
  | None => Some (None, h)
  | Some idx => e ← bucket_at h idx; h ← base_remove_entry idx h; Some (Some e, h)
  end.

Definition hashmap_remove k h : option (option V * HashmapBase) :=
  '(e, h) ← hashmap_remove2 k h; Some (option_map snd e, h).

Definition hashmap_remove_value k v h : option (option V * HashmapBase) :=
  idx ← bucket_scan h k;
  match idx with
  | None => Some (None, h)
  | Some idx =>
      e ← bucket_at h idx;
      if bool_decide (snd e = v) then h ← base_remove_entry idx h; Some (Some v, h) else Some (None, h)
  end.

Definition hashmap_remove_and_put (old_key new_key : K) v x h : option (Z * HashmapBase) :=
  idx ← bucket_scan h old_key;
  match idx with
  | None => Some (-ENOENT, h)
  | Some idx =>
      let new_hash := base_bucket_hash h new_key in
      new ← base_bucket_scan h new_hash new_key;
      if bool_decide (new ≠ None) then Some (-EEXIST, h)
      else
        h ← base_remove_entry idx h;
        '(r, h) ← hashmap_base_put_boldly new_hash (new_key, v) false x h;
        assert_ (r =? 1);; Some (0, h)
  end.

Definition hashmap_remove_and_replace (old_key new_key : K) v x h : option (Z * HashmapBase) :=
  idx_old ← bucket_scan h old_key;
  match idx_old with
  | None => Some (-ENOENT, h)
  | Some idx_old =>
      old ← bucket_at h idx_old;
      let new_hash := base_bucket_hash h new_key in
      idx_new ← base_bucket_scan h new_hash new_key;
      '(h, idx_old) ← match idx_new with
        | Some idx_new =>
            if negb (idx_old =? idx_new) then
              h ← base_remove_entry idx_new h;
              let idx_old := if bool_decide (fst <$> bucket_at h idx_old = Some (fst old)) then idx_old
                             else prev_idx h idx_old in
              assert_ (bool_decide (fst <$> bucket_at h idx_old = Some (fst old)));; Some (h, idx_old)
            else Some (h, idx_old)
        | None => Some (h, idx_old)
        end;
      h ← base_remove_entry idx_old h;
      '(r, h) ← hashmap_base_put_boldly new_hash (new_key, v) false x h;
      assert_ (r =? 1);; Some (0, h)
  end.

Definition hashmap_reserve (entries_add : Z) x h : option (Z * HashmapBase) :=
  '(r, h) ← resize_buckets entries_add x h;
  Some (if r <? 0 then r else 0, h).

Definition hashmap_size h : Z := n_entries h.
Definition hashmap_buckets h : Z := n_buckets h.

(** Without destructors for the entries. *)
Definition hashmap_clear (shared_key : list Z) h : HashmapBase :=
  base_set_dirty (reset_storage (Hm [] [] shared_key 0 false 0 (dirty h))).

(** ** Iteration *)

(** [next_key] is only looked at when [idx] is an index of the table. *)
Record Iterator := It { it_idx : Z; next_key : option K }.
Definition ITERATOR_FIRST : Iterator := It IDX_FIRST None.

(** The index of the entry, or [IDX_NIL], and the iterator afterwards. *)
Definition iterate_from (idx : Z) h (i : Iterator) : option (Z * HashmapBase * Iterator) :=
  let nxt := skip_free_buckets h (idx + 1) in
  if negb (nxt =? IDX_NIL) then e ← bucket_at h nxt; Some (idx, h, It nxt (Some (fst e)))
  else Some (idx, h, It IDX_NIL (next_key i)).

Definition hashmap_iterate_in_internal_order h (i : Iterator) : option (Z * HashmapBase * Iterator) :=
  if it_idx i =? IDX_NIL then Some (IDX_NIL, h, It IDX_NIL (next_key i))
  else if it_idx i =? IDX_FIRST then
    let idx := if has_indirect h then skip_free_buckets h (idx_lowest_entry h) else skip_free_buckets h 0 in
    let h := if has_indirect h then set_lowest idx h else h in
    if idx =? IDX_NIL then Some (IDX_NIL, h, It IDX_NIL (next_key i)) else iterate_from idx h i
  else
    assert_ (0 <? it_idx i);;
    let key_at idx := fst <$> bucket_at h idx in
    let idx := if bool_decide (key_at (it_idx i) = next_key i) then it_idx i else it_idx i - 1 in
    assert_ (bool_decide (key_at idx = next_key i));;
    iterate_from idx h i.

Definition find_first_entry h : option (Z * HashmapBase) :=
  if n_entries h =? 0 then Some (IDX_NIL, h)
  else '(idx, h, _) ← hashmap_iterate_in_internal_order h ITERATOR_FIRST; Some (idx, h).

Definition hashmap_first_key_and_value (remove : bool) h : option (option (K * V) * HashmapBase) :=
  '(idx, h) ← find_first_entry h;
  if idx =? IDX_NIL then Some (None, h)
  else
    e ← bucket_at h idx;
    h ← (if remove then base_remove_entry idx h else Some h);
    Some (Some e, h).

(** What the body of a loop does after it changed the state: it goes on, removes the current entry
    and goes on, or returns. *)
Inductive Flow := Continue | RemoveCurrent | Return.

(** [HASHMAP_FOREACH] with a body that changes a state [s]. *)
Fixpoint foreach {S : Type} (fuel : nat) (body : S → K * V → option (S * Flow)) h (i : Iterator) (s : S)
    : option (S * HashmapBase) :=
  match fuel with
  | O => None
  | Datatypes.S fuel =>
      '(idx, h, i) ← hashmap_iterate_in_internal_order h i;
      if idx =? IDX_NIL then Some (s, h)
      else
        e ← bucket_at h idx;
        '(s, flow) ← body s e;
        match flow with
        | Continue => foreach fuel body h i s
        | RemoveCurrent => h ← base_remove_entry idx h; foreach fuel body h i s
        | Return => Some (s, h)
        end
  end.

(** More rounds than a loop takes whose body removes no entry but the current one. *)
Definition rounds_of h : nat := Z.to_nat (n_buckets h + n_entries h + 2).

(** A body that collects what it visits and removes the entries of which [p] holds. *)
Definition visit (p : K * V → bool) (visited : list (K * V)) e : option (list (K * V) * Flow) :=
  Some (visited ++ [e], if p e then RemoveCurrent else Continue).

(** The values, in an array of [n_entries] and a NULL. *)
Definition hashmap_get_strv h : option (list V * HashmapBase) :=
  let n := n_entries h in
  foreach (rounds_of h) (λ sv e, assert_ (len sv <? n);; Some (sv ++ [snd e], Continue)) h ITERATOR_FIRST [].

(** The state is the table, what the environment provides, and the result. *)
Definition merge_body (s : HashmapBase * list Ext * Z) e : option (HashmapBase * list Ext * Z * Flow) :=
  let '(h, xs, _) := s in
  '(r, h) ← hashmap_put (fst e) (snd e) (default (MkExt [] false) (head xs)) h;
  Some (if (r <? 0) && negb (r =? -EEXIST) then (h, tail xs, r, Return) else (h, tail xs, 0, Continue)).

(** The two tables afterwards: iteration may change the other one's [idx_lowest_entry]. *)
Definition hashmap_merge (xs : list Ext) h (other : HashmapBase) : option (Z * HashmapBase * HashmapBase) :=
  '(h, _, r, other) ← foreach (rounds_of other) merge_body other ITERATOR_FIRST (h, xs, 0);
  Some (r, h, other).

(** [None] for NULL. *)
Definition hashmap_copy (shared_key : list Z) (xs : list Ext) h : option (option HashmapBase * HashmapBase) :=
  '(r, copy, h) ← hashmap_merge xs (hashmap_base_new shared_key) h;
  Some (if r <? 0 then None else Some copy, h).

Definition move_body x h e : option (HashmapBase * Flow) :=
  let h_hash := base_bucket_hash h (fst e) in
  idx ← base_bucket_scan h h_hash (fst e);
  if bool_decide (idx ≠ None) then Some (h, Continue)
  else
    '(r, h) ← hashmap_base_put_boldly h_hash e false x h;
    assert_ (r =? 1);; Some (h, RemoveCurrent).

Definition hashmap_move x h (other : HashmapBase) : option (Z * HashmapBase * HashmapBase) :=
  '(r, h) ← resize_buckets (n_entries other) x h;
  if r <? 0 then Some (r, h, other)
  else
    '(h, other) ← foreach (rounds_of other) (move_body x) other ITERATOR_FIRST h;
    Some (0, h, other).

Definition hashmap_move_one x h (other : HashmapBase) k : option (Z * HashmapBase * HashmapBase) :=
  let h_hash := base_bucket_hash h k in
  found ← base_bucket_scan h h_hash k;
  if bool_decide (found ≠ None) then Some (-EEXIST, h, other)
  else
    idx ← bucket_scan other k;
    match idx with
    | None => Some (-ENOENT, h, other)
    | Some idx =>
        e ← bucket_at other idx;
        '(r, h) ← hashmap_base_put_boldly h_hash e true x h;
        if r <? 0 then Some (r, h, other)
        else other ← base_remove_entry idx other; Some (0, h, other)
    end.
End Hashmap.
