(* ===== verification/HashFuncs.v ===== *)
(** * Hash functions of keys (src/basic/hash-funcs.c)

    What a hash table asks of its keys is that two keys that compare as equal have the same
    hash. Strings are hashed with their NUL; paths are hashed by their components, since
    [path_compare] ignores repeated and trailing slashes and "." components. *)

From S2P Require Import Prelude PathUtil Siphash Hashmap.

(** ** The code *)

Definition string_hash_func (p : list Z) (state : siphash) : option siphash := siphash24_compress (p ++ [0]) state.

Fixpoint path_hash_loop (fuel : nat) (q : list Z) (state : siphash) (add_slash : bool) : option siphash :=
  match fuel with
  | O => None
  | S fuel =>
      let '(r, q, e) := path_find_first_component q true in
      if r =? 0 then Some state
      else
        state ← (if add_slash then siphash24_compress [SLASH] state else Some state);
        if r <? 0 then string_hash_func q state
        else
          e ← e;
          state ← siphash24_compress (take (Z.to_nat r) e) state;
          path_hash_loop fuel q state true
  end.

Definition path_hash_func (q : list Z) (state : siphash) : option siphash :=
  state ← (if path_is_absolute q then siphash24_compress [SLASH] state else Some state);
  path_hash_loop (S (length q)) q state false.

(** The 8 bytes of a 64 bit number or of a pointer on a little endian machine. *)
Definition le_bytes (p : Z) : list Z := (λ i, u8 (Z.shiftr p (8 * Z.of_nat i))) <$> seq 0 8.

Definition trivial_hash_func (p : Z) (state : siphash) : option siphash := siphash24_compress (le_bytes p) state.

Definition trivial_compare_func (a b : Z) : Z := cmp a b.

Definition uint64_hash_func (p : Z) (state : siphash) : option siphash := siphash24_compress (le_bytes p) state.

Definition uint64_compare_func (a b : Z) : Z := cmp a b.

(** The hash that [base_bucket_hash] of hashmap.c takes modulo the number of buckets. *)
Definition key_hash {K : Type} (hash : K → siphash → option siphash) (key : list Z) (p : K) : option Z :=
  state ← siphash24_init key;
  state ← hash p state;
  Some (siphash24_finalize state).

#[export] Instance string_hash_ops : HashOps (list Z) := {
  hash key s := u64 (default 0 (key_hash string_hash_func key s));
  hash_range key s := u64_range _ }.

(** ** Paths that compare as equal have the same hash *)

Lemma hash_loop_0 (n : nat) p s add : components p = [] → path_hash_loop (S n) p s add = Some s.
Proof. intros Hc. cbn [path_hash_loop]. destruct (find_first_component_spec p true) as [_|? ? Ca|? ? ? ? Ca]; [done|congruence..]. Qed.

Lemma hash_lockstep (n : nat) a b (na nb : nat) s add :
  compare_loop n a b = Some 0 → (length a < na)%nat → (length b < nb)%nat → path_hash_loop na a s add = path_hash_loop nb b s add.
Proof.
  revert a b na nb s add. induction n as [|n IH]; intros a b na nb s add; [done|]. destruct na as [|na]; [lia|]. destruct nb as [|nb]; [lia|].
  intros Hcmp Hna Hnb. revert Hcmp. cbn [compare_loop path_hash_loop].
  destruct (find_first_component_spec a true) as [Ca|c cs Ca Hbad|c cs rest next Ca Hfit Hpos Hcr Hnext Hnil Hlt];
    destruct (find_first_component_spec b true) as [Cb|d ds Cb Hbad'|d ds rest' next' Cb Hfit' Hpos' Hcr' Hnext' Hnil' Hlt'];
    repeat match goal with H : 0 < len ?x |- _ => rewrite (proj2 (Z.ltb_ge (len x) 0)), (proj2 (Z.eqb_neq (len x) 0)) by lia; clear H end; try done.
  - cbn. intros [= ->%strcmp_0]. done.
  - cbn [orb mbind option_bind]. cbv zeta. pose proof (memcmp_strcmp c d rest rest') as Hm. cbv zeta in Hm.
    destruct (memcmp _ _ _ =? 0) eqn:Em; cbn [negb] in Hm |- *; [|intros [= E]; lia].
    destruct (cmp (len c) (len d) =? 0) eqn:Ec; cbn [negb]; [|intros [= E]; lia]. intros Hcmp.
    assert (c = d) as <- by (apply strcmp_0; rewrite <- Hm; lia). rewrite !take_len_app.
    destruct (if add then siphash24_compress [SLASH] s else Some s) as [s1|]; [|done]. cbn [mbind option_bind]. destruct (siphash24_compress c s1) as [s2|]; [|done].
    cbn [mbind option_bind]. apply IH; [done|lia|lia].
Qed.

Lemma hash_equal a b s : path_compare a b = Some 0 → path_hash_func a s = path_hash_func b s.
Proof.
  unfold path_compare. cbv zeta. destruct (negb _) eqn:E; [intros [= E']; rewrite E' in E; done|]. intros Hcmp.
  assert (Habs : path_is_absolute a = path_is_absolute b) by by destruct (path_is_absolute a), (path_is_absolute b).
  unfold path_hash_func. rewrite Habs. destruct (if path_is_absolute b then siphash24_compress [SLASH] s else Some s) as [s1|]; [|done]. cbn [mbind option_bind].
  eapply hash_lockstep; [done|lia|lia].
Qed.

(** ** What is hashed *)

Lemma skip_suffix p : skip_slash_or_dot p `suffix_of` p.
Proof.
  induction p as [p IH] using list_len_ind. destruct p as [|c p]; [done|]. cbn [skip_slash_or_dot]. destruct (c =? SLASH).
  - apply suffix_cons_r, IH. cbn. lia.
  - destruct (c =? DOT); [|done]. destruct p as [|d p]; [done|]. destruct (d =? SLASH); [|done]. apply suffix_cons_r, suffix_cons_r, IH. cbn. lia.
Qed.

Lemma bytes_suffix (p q : list Z) : q `suffix_of` p → bytes p → bytes q.
Proof. intros [k ->] H. by apply Forall_app in H as [_ ?]. Qed.

Lemma find_bytes p accept r q e :
  path_find_first_component p accept = (r, q, e) → bytes p → bytes q ∧ ∀ f, e = Some f → bytes f.
Proof.
  intros Hf Hb. assert (Hfirst : bytes (skip_slash_or_dot p)) by (eapply bytes_suffix; [apply skip_suffix|done]). revert Hf. unfold path_find_first_component.
  destruct (bool_decide (skip_slash_or_dot p = [])); [intros [= <- <- <-]; split; [constructor|done]|].
  destruct (bool_decide (skip_slash_or_dot p = str ".")); [intros [= <- <- <-]; split; [constructor|done]|].
  destruct (to_slash (skip_slash_or_dot p)) as [c b] eqn:Ht. destruct (NAME_MAX <? len c); [intros [= <- <- <-]; done|].
  destruct (negb accept && _); [intros [= <- <- <-]; done|]. intros [= <- <- <-]. split; [|by intros f [= <-]].
  destruct (bool_decide _); [constructor|]. destruct (to_slash_parts _ _ _ Ht) as (Heq & _). eapply bytes_suffix; [apply skip_suffix|].
  eapply (bytes_suffix (skip_slash_or_dot p)); [by exists c|done].
Qed.

Lemma compress_if s0 bs s (add : bool) :
  consumed s0 bs s → len bs + 1 < 2 ^ 64 →
  ∃ s', (if add then siphash24_compress [SLASH] s else Some s) = Some s' ∧ consumed s0 (bs ++ if add then [SLASH] else []) s'.
Proof.
  intros Hc Hl. destruct add; [|exists s; by rewrite app_nil_r]. apply compress_spec; [done|by repeat constructor|]. change (len [SLASH]) with 1. lia.
Qed.

(** The bytes of the components, joined by slashes; after an invalid component, the rest with its NUL. *)
Lemma hash_loop_spec (n : nat) p s0 bs s add :
  (length p < n)%nat → consumed s0 bs s → bytes p → len bs + 300 * (len p + 1) < 2 ^ 64 →
  ∃ s' out, path_hash_loop n p s add = Some s' ∧ consumed s0 (bs ++ out) s' ∧ bytes out ∧ len out <= 300 * (len p + 1) ∧
    (Forall (fits true) (components p) →
     out = (if add && negb (bool_decide (components p = [])) then [SLASH] else []) ++ join (components p)).
Proof.
  revert p bs s add. induction n as [|n IH]; intros p bs s add Hn Hc Hb Hl; [lia|]. pose proof (len_nonneg p) as H0. cbn [path_hash_loop].
  pose proof (find_bytes p true) as Hfb.
  destruct (find_first_component_spec p true) as [Ca|c cs Ca Hbad|c cs rest next Ca Hfit Hpos Hcr Hnext Hnil Hlt]; specialize (Hfb _ _ _ eq_refl Hb).
  - exists s, []. rewrite app_nil_r, Ca, bool_decide_true, andb_false_r by done. split_and!; [done|done|constructor|change (len (@nil Z)) with 0; lia|done].
  - cbn [Z.eqb]. change (-EINVAL =? 0) with false. change (-EINVAL <? 0) with true. cbv iota.
    destruct (compress_if s0 bs s add Hc ltac:(lia)) as (s1 & -> & Hc1). cbn [mbind option_bind]. set (sl := if add then [SLASH] else []) in *.
    assert (Hsl : len sl <= 1 ∧ bytes sl) by (unfold sl; destruct add; by repeat constructor).
    destruct (compress_spec s0 _ s1 (p ++ [0]) Hc1) as (s2 & H2 & Hc2).
    { apply Forall_app. split; [done|by repeat constructor]. } { rewrite !len_app. change (len [0]) with 1. lia. }
    exists s2, (sl ++ p ++ [0]). split; [exact H2|]. split; [by rewrite app_assoc|].
    split; [apply Forall_app; split; [apply Hsl|apply Forall_app; split; [done|by repeat constructor]]|]. split; [rewrite !len_app; change (len [0]) with 1; lia|].
    rewrite Ca. intros Hall. by inversion Hall.
  - rewrite (proj2 (Z.ltb_ge (len c) 0)), (proj2 (Z.eqb_neq (len c) 0)) by lia.
    destruct (compress_if s0 bs s add Hc ltac:(lia)) as (s1 & -> & Hc1). cbn [mbind option_bind]. set (sl := if add then [SLASH] else []) in *.
    assert (Hsl : len sl <= 1 ∧ bytes sl) by (unfold sl; destruct add; by repeat constructor). rewrite take_len_app. destruct Hfb as [Hbn Hbe].
    assert (Hbc : bytes c) by (specialize (Hbe _ eq_refl); by apply Forall_app in Hbe as [? _]). destruct Hfit as [Hname Hdd]. unfold NAME_MAX in Hname.
    destruct (compress_spec s0 _ s1 c Hc1 Hbc) as (s2 & -> & Hc2); [rewrite len_app; lia|]. cbn [mbind option_bind].
    assert (Hln : len next <= len p - 1) by (unfold len; lia).
    destruct (IH next ((bs ++ sl) ++ c) s2 true) as (s3 & out & H3 & Hc3 & Hbo & Hlo & Hout); [lia|done|done|rewrite !len_app; lia|].
    exists s3, (sl ++ c ++ out). split; [done|]. split; [by rewrite <- !app_assoc in Hc3|].
    split; [apply Forall_app; split; [apply Hsl|by apply Forall_app]|]. split; [rewrite !len_app; lia|]. rewrite Ca. intros Hall. inversion Hall as [|? ? _ Hcs]; subst.
    rewrite Hout by done. rewrite (bool_decide_false (c :: components next = [])) by done. cbn [negb andb]. rewrite andb_true_r. fold sl. f_equal.
    destruct (components next) as [|c' cs'] eqn:E; [by rewrite bool_decide_true, app_nil_r by done|]. rewrite bool_decide_false by done.
    cbn [negb]. by rewrite (join_cons c).
Qed.

Lemma path_hash_spec p s0 bs s :
  consumed s0 bs s → bytes p → len bs + 300 * (len p + 2) < 2 ^ 64 →
  ∃ s' out, path_hash_func p s = Some s' ∧ consumed s0 (bs ++ out) s' ∧ bytes out ∧ len out <= 300 * (len p + 2) ∧
    (Forall (fits true) (components p) → out = (if path_is_absolute p then [SLASH] else []) ++ join (components p)).
Proof.
  intros Hc Hb Hl. pose proof (len_nonneg p). unfold path_hash_func. destruct (compress_if s0 bs s (path_is_absolute p) Hc ltac:(lia)) as (s1 & -> & Hc1).
  cbn [mbind option_bind]. set (sl := if path_is_absolute p then [SLASH] else []) in *. assert (Hsl : len sl <= 1 ∧ bytes sl) by (unfold sl; destruct (path_is_absolute p); by repeat constructor).
  destruct (hash_loop_spec (S (length p)) p s0 (bs ++ sl) s1 false) as (s2 & out & H2 & Hc2 & Hbo & Hlo & Hout); [lia|done|done|rewrite len_app; lia|].
  exists s2, (sl ++ out). split; [done|]. split; [by rewrite app_assoc|].
  split; [apply Forall_app; split; [apply Hsl|done]|]. split; [rewrite len_app; lia|]. intros Hall. by rewrite Hout.
Qed.

(** C37: the contract of [path_hash_ops]. Two paths for which [path_compare] returns 0 have the same
    hash under every key, whether they are valid or not (a component may be too long), and the
    hash of a valid path is the SipHash of its components joined by single slashes, after a
    slash if the path is absolute. *)
Theorem path_hash_consistent key a b :
  (16 <= length key)%nat → bytes a → len a < 2 ^ 48 → path_compare a b = Some 0 →
  ∃ h, key_hash path_hash_func key a = Some h ∧ key_hash path_hash_func key b = Some h ∧
    (Forall (fits true) (components a) →
     siphash24 ((if path_is_absolute a then [SLASH] else []) ++ join (components a)) key = Some h).
Proof.
  intros Hk Ha Hl Heq. destruct (init_spec key Hk) as (s0 & Hi & Hc0). unfold key_hash, siphash24. rewrite Hi. cbn [mbind option_bind].
  rewrite <- (hash_equal a b s0 Heq). destruct (path_hash_spec a s0 [] s0) as (s & out & -> & Hc & Hbo & Hlo & Hout); [done|done|change (len (@nil Z)) with 0; lia|].
  cbn [mbind option_bind]. exists (siphash24_finalize s). split; [done|]. split; [done|]. intros Hall. rewrite <- (Hout Hall).
  destruct (compress_spec s0 [] s0 out Hc0 Hbo) as (s' & -> & Hc'); [change (len (@nil Z)) with 0; lia|]. cbn [mbind option_bind].
  by rewrite (consumed_unique _ _ _ _ Hc' Hc).
Qed.

Lemma path_hash_consistent_witness :
  let key := replicate 16 7 in let a := str "//usr/./lib//systemd/" in let b := str "/usr/lib/systemd" in
  path_compare a b = Some 0 ∧ ∃ h, key_hash path_hash_func key a = Some h ∧ key_hash path_hash_func key b = Some h ∧
    (Forall (fits true) (components a) →
     siphash24 ((if path_is_absolute a then [SLASH] else []) ++ join (components a)) key = Some h).
Proof. split; [by vm_compute|]. apply path_hash_consistent; [by vm_compute|by_decide|by vm_compute|by vm_compute]. Defined.
