(* ===== verification/HashmapInv.v ===== *)
(** * The Robin Hood invariant of hash tables (src/basic/hashmap.c)

    The invariant of a table, also in the middle of rehashing, and what scanning, putting,
    removing and resizing do to it. An entry is settled when its bucket has a valid DIB; [DIB] is
    the distance of a settled entry, or -1. The heart of the invariant is that the distance
    grows by at most one from a bucket to the next. *)

From S2P Require Import Prelude Hashmap.

Section Inv.
Context {K V : Type} `{!EqDecision K, !EqDecision V, HO : !HashOps K, ET : EntryType}.
Implicit Types (h : HashmapBase (K := K) (V := V)) (e : K * V) (i j : Z).

Definition home h e : Z := base_bucket_hash h (fst e).

Definition settled h i : option (K * V) :=
  raw ← get (dibs h) i;
  if (raw =? DIB_RAW_FREE) || (raw =? DIB_RAW_REHASH) then None else bucket_at h i.

Definition DIB h i : Z := match settled h i with Some e => bucket_distance h i (home h e) | None => -1 end.

Definition elems h : list (K * V) := omap id (buckets h).

Definition raw_ok h i (raw : Z) (b : option (K * V)) : Prop :=
  raw = DIB_RAW_FREE ∧ b = None ∨
  ∃ e, b = Some e ∧ (raw = DIB_RAW_REHASH ∨ raw = Z.min (bucket_distance h i (home h e)) DIB_RAW_OVERFLOW).

Record shape h : Prop := {
  s_len : len (buckets h) = n_buckets h;
  s_n : 1 <= n_buckets h <= 2 ^ 28;
  s_raw i : 0 <= i < n_buckets h → ∃ raw b, get (dibs h) i = Some raw ∧ get (buckets h) i = Some b ∧ raw_ok h i raw b }.

Record core h : Prop := {
  c_shape : shape h;
  c_rh i : 0 <= i < n_buckets h → DIB h (next_idx h i) <= DIB h i + 1 }.

Definition c_len h (H : core h) := s_len h (c_shape h H).
Definition c_n h (H : core h) := s_n h (c_shape h H).
Definition c_raw h (H : core h) := s_raw h (c_shape h H).
#[local] Hint Resolve c_shape : core.

(** ** Indices *)

Section Index.
Context (h : HashmapBase (K := K) (V := V)) (Hn : 1 <= n_buckets h <= 2 ^ 28).

Lemma next_cases i :
  0 <= i < n_buckets h → i + 1 < n_buckets h ∧ next_idx h i = i + 1 ∨ i + 1 = n_buckets h ∧ next_idx h i = 0.
Proof.
  intros Hi. unfold next_idx. destruct (decide (i + 1 = n_buckets h)) as [E|E].
  - right. split; [done|]. by rewrite E, Z.mod_same by lia.
  - left. split; [lia|]. apply Z.mod_small. lia.
Qed.

Lemma next_range i : 0 <= i < n_buckets h → 0 <= next_idx h i < n_buckets h.
Proof. intros Hi. destruct (next_cases i Hi) as [[? ->]|[? ->]]; lia. Qed.

Lemma next_inj i j : 0 <= i < n_buckets h → 0 <= j < n_buckets h → next_idx h i = next_idx h j → i = j.
Proof. intros Hi Hj. destruct (next_cases i Hi) as [[? ->]|[? ->]], (next_cases j Hj) as [[? ->]|[? ->]]; lia. Qed.

Lemma next_surj j : 0 <= j < n_buckets h → ∃ i, 0 <= i < n_buckets h ∧ next_idx h i = j.
Proof.
  intros Hj. destruct (decide (j = 0)) as [->|Hne].
  - exists (n_buckets h - 1). split; [lia|]. destruct (next_cases (n_buckets h - 1)) as [[? ->]|[? ->]]; lia.
  - exists (j - 1). split; [lia|]. destruct (next_cases (j - 1)) as [[? ->]|[? ->]]; lia.
Qed.

Lemma prev_next i : 0 <= i < n_buckets h → prev_idx h (next_idx h i) = i.
Proof.
  intros Hi. unfold prev_idx. destruct (next_cases i Hi) as [[? ->]|[E ->]].
  - replace (n_buckets h + (i + 1) - 1) with (i + 1 * n_buckets h) by lia. rewrite Z.mod_add, Z.mod_small; lia.
  - rewrite Z.mod_small; lia.
Qed.

Lemma distance_range i a : 0 <= i < n_buckets h → 0 <= a < n_buckets h → 0 <= bucket_distance h i a < n_buckets h.
Proof. unfold bucket_distance. intros. destruct (a <=? i) eqn:E; lia. Qed.

Lemma distance_next i a :
  0 <= i < n_buckets h → 0 <= a < n_buckets h →
  bucket_distance h (next_idx h i) a =
    if bucket_distance h i a + 1 =? n_buckets h then 0 else bucket_distance h i a + 1.
Proof.
  intros Hi Ha. unfold bucket_distance. destruct (next_cases i Hi) as [[? ->]|[? ->]];
    destruct (Z.leb_spec a i);
    repeat match goal with |- context [if ?b then _ else _] => destruct b eqn:? end; lia.
Qed.

Lemma distance_self a : bucket_distance h a a = 0.
Proof. unfold bucket_distance. rewrite Z.leb_refl. lia. Qed.

Lemma distance_inj i j a :
  0 <= i < n_buckets h → 0 <= j < n_buckets h → 0 <= a < n_buckets h →
  bucket_distance h i a = bucket_distance h j a → i = j.
Proof. unfold bucket_distance. intros. destruct (a <=? i) eqn:E1, (a <=? j) eqn:E2; lia. Qed.

Lemma home_range e : 0 <= home h e < n_buckets h.
Proof. unfold home, base_bucket_hash. apply Z.mod_pos_bound. lia. Qed.
End Index.

(** ** Views of a bucket *)

Lemma DIB_ge h i : shape h → 0 <= i < n_buckets h → -1 <= DIB h i < n_buckets h.
Proof.
  intros Hc Hi. unfold DIB. pose proof (s_n _ Hc). destruct (settled h i) as [e|]; [|lia].
  pose proof (distance_range h i (home h e) Hi (home_range h ltac:(lia) e)). lia.
Qed.

(** What the code reads from a bucket: it is free, to be rehashed, or settled. *)
Lemma bucket_view h i :
  shape h → 0 <= i < n_buckets h →
  get (dibs h) i = Some DIB_RAW_FREE ∧ get (buckets h) i = Some None ∧ DIB h i = -1 ∧ settled h i = None ∨
  (∃ e, get (dibs h) i = Some DIB_RAW_REHASH ∧ get (buckets h) i = Some (Some e) ∧ DIB h i = -1 ∧ settled h i = None) ∨
  ∃ e raw, get (dibs h) i = Some raw ∧ raw = Z.min (DIB h i) DIB_RAW_OVERFLOW ∧ get (buckets h) i = Some (Some e) ∧
    settled h i = Some e ∧ DIB h i = bucket_distance h i (home h e) ∧ 0 <= DIB h i < n_buckets h ∧
    bucket_calculate_dib h i raw = Some (DIB h i).
Proof.
  intros Hc Hi. destruct (s_raw h Hc i Hi) as (raw & b & Hr & Hb & Hok). pose proof (s_n _ Hc) as Hn.
  unfold DIB, settled. rewrite Hr. cbn [mbind option_bind].
  destruct Hok as [[-> ->]|(e & -> & [->| ->])]; [by left|right; left; by exists e|right; right].
  pose proof (distance_range h i (home h e) Hi (home_range h ltac:(lia) e)) as Hd. set (d := bucket_distance h i (home h e)) in *.
  assert (Hlt : Z.min d DIB_RAW_OVERFLOW <= 0xfd) by (unfold DIB_RAW_OVERFLOW; lia).
  destruct (Z.min d DIB_RAW_OVERFLOW =? DIB_RAW_FREE) eqn:E1; [unfold DIB_RAW_FREE in E1; lia|].
  destruct (Z.min d DIB_RAW_OVERFLOW =? DIB_RAW_REHASH) eqn:E2; [unfold DIB_RAW_REHASH in E2; lia|]. cbn [orb].
  assert (Hat : bucket_at h i = Some e) by (unfold bucket_at; by rewrite Hb). rewrite Hat.
  exists e, (Z.min d DIB_RAW_OVERFLOW). split_and!; [done..|lia|lia|]. unfold bucket_calculate_dib. rewrite E1.
  destruct (_ <? DIB_RAW_OVERFLOW) eqn:E3; [f_equal; lia|]. rewrite Hat. destruct e. done.
Qed.

(** The entry [e] put into bucket [i] with its distance. *)
Definition place i e (d : Z) h : HashmapBase := set_bucket i (Some e) (bucket_set_dib i d h).
Definition unplace i h : HashmapBase := set_bucket i None (set_raw i DIB_RAW_FREE h).

Lemma n_place i e d h : n_buckets (place i e d h) = n_buckets h.
Proof. unfold n_buckets, place, bucket_set_dib, set_raw, set_bucket. cbn. apply len_upd. Qed.

Lemma n_unplace i h : n_buckets (unplace i h) = n_buckets h.
Proof. unfold n_buckets, unplace, set_raw, set_bucket. cbn. apply len_upd. Qed.

Lemma home_same h h' e : n_buckets h' = n_buckets h → hash_key h' = hash_key h → home h' e = home h e.
Proof. intros Hn Hk. unfold home, base_bucket_hash. by rewrite Hn, Hk. Qed.

Lemma distance_same h h' i a : n_buckets h' = n_buckets h → bucket_distance h' i a = bucket_distance h i a.
Proof. intros Hn. unfold bucket_distance. by rewrite Hn. Qed.

Lemma next_same h h' i : n_buckets h' = n_buckets h → next_idx h' i = next_idx h i.
Proof. intros Hn. unfold next_idx. by rewrite Hn. Qed.

Lemma set_dib_raw i d h : 0 <= d < 2 ^ 28 → bucket_set_dib i d h = set_raw i (Z.min d DIB_RAW_OVERFLOW) h.
Proof. intros Hd. unfold bucket_set_dib. destruct (d =? DIB_FREE) eqn:E; [unfold DIB_FREE, UINT_MAX in E; lia|done]. Qed.

Lemma settled_place i j e d h :
  len (buckets h) = n_buckets h → 0 <= i < n_buckets h → 0 <= d < 2 ^ 28 →
  settled (place i e d h) j = if decide (j = i) then Some e else settled h j.
Proof.
  intros Hl Hi Hd. unfold settled, place, bucket_at. rewrite set_dib_raw by done. cbn. unfold n_buckets in *. case_decide as Hj.
  - subst j. rewrite !get_upd_eq by lia. cbn [mbind option_bind].
    destruct (Z.min d DIB_RAW_OVERFLOW =? DIB_RAW_FREE) eqn:E1; [unfold DIB_RAW_FREE, DIB_RAW_OVERFLOW in E1; lia|].
    destruct (Z.min d DIB_RAW_OVERFLOW =? DIB_RAW_REHASH) eqn:E2; [unfold DIB_RAW_REHASH, DIB_RAW_OVERFLOW in E2; lia|]. done.
  - by rewrite !get_upd_ne by (congruence || lia).
Qed.

Lemma settled_unplace i j h :
  len (buckets h) = n_buckets h → 0 <= i < n_buckets h → settled (unplace i h) j = if decide (j = i) then None else settled h j.
Proof.
  intros Hl Hi. unfold settled, unplace, bucket_at. cbn. unfold n_buckets in *. case_decide as Hj.
  - subst j. by rewrite !get_upd_eq by lia.
  - by rewrite !get_upd_ne by (congruence || lia).
Qed.

Lemma DIB_place i j e d h :
  len (buckets h) = n_buckets h → 0 <= i < n_buckets h → 0 <= d < 2 ^ 28 → d = bucket_distance h i (home h e) →
  DIB (place i e d h) j = if decide (j = i) then d else DIB h j.
Proof.
  intros Hl Hi Hd ->. unfold DIB. rewrite settled_place by done. pose proof (n_place i e (bucket_distance h i (home h e)) h) as Hn.
  case_decide as Hj; [subst j|destruct (settled h j) as [e'|]; [|done]]; by rewrite (distance_same _ _ _ _ Hn), (home_same h _ _ Hn).
Qed.

Lemma DIB_unplace i j h :
  len (buckets h) = n_buckets h → 0 <= i < n_buckets h → DIB (unplace i h) j = if decide (j = i) then -1 else DIB h j.
Proof.
  intros Hl Hi. unfold DIB. rewrite settled_unplace by done. pose proof (n_unplace i h) as Hn.
  case_decide as Hj; [done|destruct (settled h j) as [e'|]; [|done]]; by rewrite (distance_same _ _ _ _ Hn), (home_same h _ _ Hn).
Qed.

(** Changing one bucket and its raw DIB keeps the other buckets as they are. *)
Lemma raw_ok_other h h' i raw b :
  n_buckets h' = n_buckets h → hash_key h' = hash_key h → raw_ok h i raw b → raw_ok h' i raw b.
Proof.
  intros Hn Hk [?|(e & -> & [->| ->])]; [by left|right; exists e; by auto|right; exists e].
  split; [done|]. right. by rewrite (distance_same _ _ _ _ Hn), (home_same h _ _ Hn Hk).
Qed.

Lemma shape_place i e d h :
  shape h → 0 <= i < n_buckets h → d = bucket_distance h i (home h e) → shape (place i e d h).
Proof.
  intros Hc Hi Hd. pose proof (s_n _ Hc) as Hn. pose proof (s_len _ Hc) as Hl.
  pose proof (distance_range h i (home h e) Hi (home_range h ltac:(lia) e)) as Hdr. pose proof (n_place i e d h) as Hnp.
  assert (Hd28 : 0 <= d < 2 ^ 28) by lia.
  constructor.
  - rewrite Hnp. unfold place. rewrite set_dib_raw by done. cbn. by rewrite len_upd.
  - by rewrite Hnp.
  - intros j Hj. rewrite Hnp in Hj. unfold place at 1 2. rewrite set_dib_raw by done. cbn. unfold n_buckets in *.
    destruct (decide (j = i)) as [->|Hne].
    + rewrite !get_upd_eq by lia. eexists _, _. split_and!; [done..|]. right. exists e. split; [done|]. right.
      by rewrite (distance_same _ _ _ _ Hnp), (home_same h _ _ Hnp), Hd by done.
    + rewrite !get_upd_ne by (congruence || lia). destruct (s_raw h Hc j Hj) as (raw & b & ? & ? & ?). exists raw, b.
      split_and!; [done..|]. by eapply raw_ok_other.
Qed.

Lemma shape_unplace i h : shape h → 0 <= i < n_buckets h → shape (unplace i h).
Proof.
  intros Hc Hi. pose proof (s_n _ Hc) as Hn. pose proof (s_len _ Hc) as Hl. pose proof (n_unplace i h) as Hnp. constructor.
  - rewrite Hnp. cbn. by rewrite len_upd.
  - by rewrite Hnp.
  - intros j Hj. rewrite Hnp in Hj. cbn. unfold n_buckets in *. destruct (decide (j = i)) as [->|Hne].
    + rewrite !get_upd_eq by lia. eexists _, _. split_and!; [done..|]. by left.
    + rewrite !get_upd_ne by (congruence || lia). destruct (s_raw h Hc j Hj) as (raw & b & ? & ? & ?). exists raw, b.
      split_and!; [done..|]. by eapply raw_ok_other.
Qed.

Lemma core_place i e d h :
  core h → 0 <= i < n_buckets h → d = bucket_distance h i (home h e) →
  (∀ p, 0 <= p < n_buckets h → next_idx h p = i → d <= DIB h p + 1) → DIB h i <= d → core (place i e d h).
Proof.
  intros Hc Hi Hd Hleft Hge. pose proof (c_n _ Hc) as Hn. pose proof (c_len _ Hc) as Hl.
  pose proof (distance_range h i (home h e) Hi (home_range h ltac:(lia) e)) as Hdr. pose proof (n_place i e d h) as Hnp.
  assert (Hd28 : 0 <= d < 2 ^ 28) by lia. constructor; [by apply shape_place; auto|].
  intros j Hj. rewrite Hnp in Hj. rewrite (next_same _ _ _ Hnp). rewrite !DIB_place by done.
  pose proof (c_rh _ Hc j Hj). destruct (decide (next_idx h j = i)) as [En|En], (decide (j = i)) as [->|Ej]; [lia|by apply Hleft|lia|done].
Qed.

Lemma elems_upd h i b b' :
  get (buckets h) i = Some b → option_list b ++ omap id (upd (buckets h) i b') ≡ₚ option_list b' ++ elems h.
Proof.
  intros Hg. pose proof (upd_Permutation _ _ _ b' Hg) as Hp. unfold elems.
  assert (H : omap id (b' :: buckets h) ≡ₚ omap id (b :: upd (buckets h) i b')) by by rewrite Hp.
  cbn [omap list_omap] in H. destruct b as [e|], b' as [e'|]; cbn in *; by symmetry.
Qed.

(** ** Scanning *)

Definition no_pending h : Prop := DIB_RAW_REHASH ∉ dibs h.

Lemma view_ready h i :
  shape h → no_pending h → 0 <= i < n_buckets h →
  get (dibs h) i = Some DIB_RAW_FREE ∧ get (buckets h) i = Some None ∧ DIB h i = -1 ∨
  ∃ e raw, get (dibs h) i = Some raw ∧ raw ≠ DIB_RAW_FREE ∧ raw = Z.min (DIB h i) DIB_RAW_OVERFLOW ∧ get (buckets h) i = Some (Some e) ∧
    DIB h i = bucket_distance h i (home h e) ∧ 0 <= DIB h i < n_buckets h ∧ bucket_calculate_dib h i raw = Some (DIB h i).
Proof.
  intros Hc Hp Hi. destruct (bucket_view h i Hc Hi) as [(? & ? & ? & _)|[(e & Hd & _)|(e & raw & ? & ? & ? & _ & ? & ? & ?)]].
  - by left.
  - apply get_elem_of in Hd. by destruct Hp.
  - right. exists e, raw. split_and!; try done; unfold DIB_RAW_FREE, DIB_RAW_OVERFLOW in *; lia.
Qed.

(** Before an entry there are only entries that are at least as far from their home. *)
Lemma rh_back h a (m : nat) x y :
  core h → 0 <= a < n_buckets h → 0 <= x < n_buckets h → 0 <= y < n_buckets h →
  bucket_distance h y a = bucket_distance h x a + Z.of_nat m → bucket_distance h y a <= DIB h y →
  bucket_distance h x a <= DIB h x.
Proof.
  intros Hc Ha Hx. pose proof (c_n _ Hc) as Hn. revert y. induction m as [|m IH]; intros y Hy Hd Hle.
  - assert (y = x) as -> by (apply (distance_inj h y x a); (done || lia)). done.
  - destruct (next_surj h Hn y Hy) as (y' & Hy' & <-). rewrite (distance_next h Hn y' a Hy' Ha) in *.
    pose proof (distance_range h x a Hx Ha). destruct (_ =? n_buckets h) eqn:E; [lia|].
    pose proof (c_rh _ Hc y' Hy'). apply (IH y' Hy'); lia.
Qed.

Definition holds_key h k : Prop := ∃ j v, get (buckets h) j = Some (Some (k, v)).

Lemma bucket_index h j b : core h → get (buckets h) j = Some b → 0 <= j < n_buckets h.
Proof. intros Hc Hg. apply get_Some_range in Hg. by rewrite (c_len _ Hc) in Hg. Qed.

Lemma scan_loop_spec fuel h idx k d :
  core h → no_pending h → 0 <= idx < n_buckets h →
  let a := base_bucket_hash h k in
  (d < n_buckets h ∧ d = bucket_distance h idx a ∨ d = n_buckets h) →
  (∀ j v, get (buckets h) j = Some (Some (k, v)) → d <= bucket_distance h j a) → n_buckets h - d < Z.of_nat fuel →
  scan_loop fuel h idx k d = Some None ∧ ¬ holds_key h k ∨
  ∃ j v, scan_loop fuel h idx k d = Some (Some j) ∧ get (buckets h) j = Some (Some (k, v)).
Proof.
  intros Hc Hp. revert idx d. induction fuel as [|fuel IH]; intros idx d Hidx a Hd Hk Hf; [destruct Hd; lia|]. cbn [scan_loop].
  pose proof (c_n _ Hc) as Hn. assert (Ha : 0 <= a < n_buckets h) by (apply Z.mod_pos_bound; lia).
  assert (Hstop : DIB h idx < d → ¬ holds_key h k).
  { intros Hlt (j & v & Hj). specialize (Hk j v Hj). pose proof (bucket_index _ _ _ Hc Hj) as Hjr.
    pose proof (distance_range h j a Hjr Ha). destruct Hd as [[_ Hd]| ->]; [|lia].
    assert (HDj : DIB h j = bucket_distance h j a).
    { destruct (view_ready h j (c_shape _ Hc) Hp Hjr) as [(_ & Hb & _)|(e & raw & _ & _ & _ & Hb & HD & _)]; [congruence|].
      rewrite Hj in Hb. injection Hb as <-. exact HD. }
    pose proof (rh_back h a (Z.to_nat (bucket_distance h j a - d)) idx j Hc Ha Hidx Hjr) as Hrb. lia. }
  destruct (view_ready h idx (c_shape _ Hc) Hp Hidx) as [(-> & _ & HD)|(e & raw & -> & Hraw & _ & Hb & HD & HDr & Hcalc)]; cbn [mbind option_bind].
  - rewrite Z.eqb_refl. left. split; [done|]. apply Hstop. pose proof (distance_range h idx a Hidx Ha). destruct Hd; lia.
  - rewrite (proj2 (Z.eqb_neq _ _) Hraw), Hcalc. cbn [mbind option_bind]. destruct (DIB h idx <? d) eqn:Elt; [left; split; [done|apply Hstop; lia]|].
    destruct Hd as [[Hdn Hd]| ->]; [|lia].
    assert (Hat : bucket_at h idx = Some e) by (unfold bucket_at; by rewrite Hb).
    assert (Hnext : ¬ (fst e = k) → scan_loop fuel h (next_idx h idx) k (d + 1) = Some None ∧ ¬ holds_key h k ∨
      ∃ j v, scan_loop fuel h (next_idx h idx) k (d + 1) = Some (Some j) ∧ get (buckets h) j = Some (Some (k, v))).
    { intros Hne. apply IH; [by apply next_range| | |lia].
      - fold a. rewrite (distance_next h Hn idx a Hidx Ha). destruct (_ =? n_buckets h) eqn:E; [right|left]; lia.
      - intros j v Hj. fold a. specialize (Hk j v Hj). destruct (decide (d = bucket_distance h j a)) as [E|E]; [|lia].
        assert (j = idx) as -> by (apply (distance_inj h j idx a); [by eapply bucket_index|done|done|congruence]).
        rewrite Hb in Hj. injection Hj as ->. done. }
    destruct (DIB h idx =? d) eqn:Eeq; cbn [mbind option_bind].
    + rewrite Hat. cbn [mbind option_bind]. case_bool_decide as He; [|by apply Hnext].
      right. destruct e as [k' v]. cbn in He. subst k'. eauto.
    + apply Hnext. intros He. assert (DIB h idx = bucket_distance h idx a); [|lia]. rewrite HD. unfold home. by rewrite He.
Qed.

Lemma scan_spec h k :
  core h → no_pending h →
  base_bucket_scan h (base_bucket_hash h k) k = Some None ∧ ¬ holds_key h k ∨
  ∃ j v, base_bucket_scan h (base_bucket_hash h k) k = Some (Some j) ∧ get (buckets h) j = Some (Some (k, v)).
Proof.
  intros Hc Hp. pose proof (c_n _ Hc) as Hn. pose proof (Z.mod_pos_bound (hash (hash_key h) k) (n_buckets h) ltac:(lia)) as Ha.
  unfold base_bucket_scan. rewrite assert_bind by (unfold base_bucket_hash; lia). apply scan_loop_spec; [done|done|done| | |].
  - left. rewrite distance_self. lia.
  - intros j v Hj. apply distance_range; [by eapply bucket_index|done].
  - unfold n_buckets, len. lia.
Qed.

(** ** Putting *)

(** What operations on the storage leave alone. *)
Definition same_table h h' : Prop :=
  n_buckets h' = n_buckets h ∧ hash_key h' = hash_key h ∧ n_entries h' = n_entries h ∧ has_indirect h' = has_indirect h.

Definition pend h : nat := length (filter (.= DIB_RAW_REHASH) (dibs h)).

Definition low_ok h : Prop :=
  has_indirect h = true →
  0 <= idx_lowest_entry h ∧ ∀ i, 0 <= i < n_buckets h → i < idx_lowest_entry h → get (dibs h) i = Some DIB_RAW_FREE.

Lemma core_set_lowest l h : core h → core (set_lowest l h).
Proof. intros [[H1 H2 H3] H4]. constructor; [|exact H4]. constructor; [exact H1|exact H2|exact H3]. Qed.

Lemma get_dibs_place i j e d h :
  0 <= i < n_buckets h → 0 <= d < 2 ^ 28 →
  get (dibs (place i e d h)) j = if decide (j = i) then Some (Z.min d DIB_RAW_OVERFLOW) else get (dibs h) j.
Proof.
  intros Hi Hd. unfold place. rewrite set_dib_raw by done. cbn. unfold n_buckets in *.
  case_decide; [subst; by rewrite get_upd_eq|by rewrite get_upd_ne by (congruence || lia)].
Qed.

Lemma min_not_special d : 0 <= d → Z.min d DIB_RAW_OVERFLOW ≠ DIB_RAW_REHASH ∧ Z.min d DIB_RAW_OVERFLOW ≠ DIB_RAW_FREE.
Proof. unfold DIB_RAW_OVERFLOW, DIB_RAW_REHASH, DIB_RAW_FREE. lia. Qed.

Lemma pend_upd l (i raw x : Z) :
  get l i = Some raw → x ≠ DIB_RAW_REHASH →
  (length (filter (.= DIB_RAW_REHASH) (upd l i x)) + (if decide (raw = DIB_RAW_REHASH) then 1 else 0) =
   length (filter (.= DIB_RAW_REHASH) l))%nat.
Proof.
  intros Hg Hx. pose proof (upd_Permutation _ _ _ x Hg) as Hp. apply (filter_Permutation (.= DIB_RAW_REHASH)) in Hp.
  apply Permutation_length in Hp. rewrite !filter_cons in Hp. rewrite decide_False in Hp by done. case_decide; cbn in *; lia.
Qed.

Lemma pend_place i e d raw h :
  get (dibs h) i = Some raw → 0 <= d < 2 ^ 28 →
  (pend (place i e d h) + (if decide (raw = DIB_RAW_REHASH) then 1 else 0) = pend h)%nat.
Proof.
  intros Hg Hd. unfold pend, place. rewrite set_dib_raw by done. cbn. apply pend_upd; [done|]. apply min_not_special; lia.
Qed.

Lemma elems_place i e d b h :
  get (buckets h) i = Some b → 0 <= d < 2 ^ 28 → option_list b ++ elems (place i e d h) ≡ₚ e :: elems h.
Proof. intros Hg Hd. unfold place. rewrite set_dib_raw by done. exact (elems_upd h i b (Some e) Hg). Qed.

Lemma same_place i e d h : same_table h (place i e d h).
Proof. split; [apply n_place|]. unfold place, bucket_set_dib. done. Qed.

Lemma same_refl h : same_table h h.
Proof. by unfold same_table. Qed.
#[local] Hint Resolve same_refl : core.

Lemma same_trans h1 h2 h3 : same_table h1 h2 → same_table h2 h3 → same_table h1 h3.
Proof. unfold same_table. naive_solver congruence. Qed.

Lemma iter_same h h' m i : n_buckets h' = n_buckets h → Nat.iter m (next_idx h') i = Nat.iter m (next_idx h) i.
Proof. intros Hn. induction m as [|m IH]; [done|]. rewrite !Nat.iter_succ. by rewrite IH, (next_same _ _ _ Hn). Qed.

(** The result of putting [e], with [w] a bucket of distance at most 0. *)
Definition put_ok h e (w : Z) h' (o : option (K * V)) : Prop :=
  core h' ∧ same_table h h' ∧ option_list o ++ elems h' ≡ₚ e :: elems h ∧ DIB h' w <= 0 ∧
  (∀ i, get (dibs h') i = Some DIB_RAW_REHASH → get (dibs h) i = Some DIB_RAW_REHASH) ∧
  (pend h' + length (option_list o) = pend h)%nat ∧ (low_ok h → low_ok h').

Lemma place_pending_only i e d h j :
  0 <= i < n_buckets h → 0 <= d < 2 ^ 28 → get (dibs (place i e d h)) j = Some DIB_RAW_REHASH → get (dibs h) j = Some DIB_RAW_REHASH.
Proof. intros Hi Hd. rewrite get_dibs_place by done. case_decide; [|done]. intros [= Hm]. destruct (min_not_special d); [lia|done]. Qed.

Lemma robin_place h idx d e w raw b :
  core h → 0 <= idx < n_buckets h → d = bucket_distance h idx (home h e) → get (dibs h) idx = Some raw → get (buckets h) idx = Some b →
  raw = DIB_RAW_FREE ∧ b = None ∨ raw = DIB_RAW_REHASH ∧ b ≠ None →
  (∀ p, 0 <= p < n_buckets h → next_idx h p = idx → d <= DIB h p + 1) → DIB h idx = -1 → DIB h w <= 0 → (idx = w → d = 0) →
  let h1 := if has_indirect h && (idx <? idx_lowest_entry h) then set_lowest idx h else h in
  put_ok h e w (place idx e d h1) (if raw =? DIB_RAW_REHASH then b else None).
Proof.
  intros Hc Hi Hd Hr Hb Hrb Hleft HD Hw Hwd h1. pose proof (c_n _ Hc) as Hn.
  pose proof (distance_range h idx (home h e) Hi (home_range h Hn e)) as Hdr. assert (Hd28 : 0 <= d < 2 ^ 28) by lia.
  assert (H1 : core h1 ∧ same_table h h1 ∧ elems h1 = elems h ∧ dibs h1 = dibs h ∧ buckets h1 = buckets h ∧
    (∀ i, DIB h1 i = DIB h i) ∧ (∀ a, bucket_distance h1 idx a = bucket_distance h idx a) ∧ home h1 e = home h e ∧
    ∀ i, next_idx h1 i = next_idx h i).
  { unfold h1. destruct (_ && _); [|by unfold same_table]. split; [by apply core_set_lowest|]. done. }
  destruct H1 as (Hc1 & Hs1 & He1 & Hd1 & Hb1 & HD1 & Hbd1 & Hh1 & Hn1).
  assert (Hi1 : 0 <= idx < n_buckets h1) by by rewrite (proj1 Hs1). pose proof (c_len _ Hc1) as Hl1.
  unfold put_ok. split_and!.
  - apply core_place; [done|done|by rewrite Hbd1, Hh1|intros p Hp; rewrite Hn1, HD1; apply Hleft; by rewrite (proj1 Hs1) in Hp|rewrite HD1; lia].
  - eapply same_trans; [exact Hs1|apply same_place].
  - rewrite <- He1. destruct Hrb as [[-> ->]|[-> _]]; [exact (elems_place idx e d None h1 ltac:(by rewrite Hb1) Hd28)|].
    rewrite Z.eqb_refl. apply elems_place; [by rewrite Hb1|done].
  - rewrite DIB_place; [|done|done|done|by rewrite Hbd1, Hh1]. case_decide as E; [rewrite Hwd by done; lia|by rewrite HD1].
  - intros i Hp. rewrite <- Hd1. by eapply place_pending_only.
  - pose proof (pend_place idx e d raw h1 ltac:(by rewrite Hd1) Hd28) as Hp. assert (Hpe : pend h1 = pend h) by (unfold pend; by rewrite Hd1).
    destruct Hrb as [[-> ->]|[-> Hbn]].
    + rewrite decide_False in Hp by done. change (length (option_list (if DIB_RAW_FREE =? DIB_RAW_REHASH then @None (K * V) else None))) with 0%nat. lia.
    + rewrite Z.eqb_refl. rewrite decide_True in Hp by done. destruct b as [e0|]; [|done]. change (length (option_list (Some e0))) with 1%nat. lia.
  - intros Hlow Hind. assert (Hind' : has_indirect h = true) by (revert Hind; unfold place, h1; destruct (_ && _); done).
    split; [unfold place, h1; destruct (_ && _); cbn; [lia|by apply Hlow]|]. intros i Hir Hlt. rewrite n_place in Hir. rewrite (proj1 Hs1) in Hir.
    assert (i < idx_lowest_entry h ∧ i ≠ idx) as [Hlt' Hne].
    { revert Hlt. unfold place, h1, bucket_set_dib. rewrite Hind'. cbn [andb]. destruct (idx <? idx_lowest_entry h) eqn:E; cbn; [lia|].
      split; lia. }
    rewrite get_dibs_place by done. rewrite decide_False by done. rewrite Hd1. by apply Hlow.
Qed.

Lemma swap_buckets_ok h idx d e e1 w h' o :
  core h → 0 <= idx < n_buckets h → d = bucket_distance h idx (home h e) → get (buckets h) idx = Some (Some e1) →
  get (dibs h) idx = Some (Z.min (DIB h idx) DIB_RAW_OVERFLOW) → 0 <= DIB h idx →
  put_ok (place idx e d h) e1 w h' o → put_ok h e w h' o.
Proof.
  intros Hc Hi Hd Hb Hr HD (H1 & H2 & H3 & H4 & H5 & H6 & H7). pose proof (c_n _ Hc) as Hn.
  pose proof (distance_range h idx (home h e) Hi (home_range h Hn e)) as Hdr. assert (Hd28 : 0 <= d < 2 ^ 28) by lia.
  unfold put_ok. split_and!; [done| | |done| | |].
  - eapply same_trans; [apply same_place|exact H2].
  - rewrite H3. exact (elems_place idx e d (Some e1) h Hb Hd28).
  - intros i Hp. apply (place_pending_only idx e d); [done|done|by apply H5].
  - rewrite H6. pose proof (pend_place idx e d _ h Hr Hd28) as Hp. rewrite decide_False in Hp by (by apply min_not_special). lia.
  - intros Hlow. apply H7. intros Hind. split; [by apply Hlow|]. intros i Hir Hlt. rewrite n_place in Hir. rewrite get_dibs_place by done. case_decide as E; [|by apply Hlow].
    subst i. assert (Hf : get (dibs h) idx = Some DIB_RAW_FREE) by by apply Hlow. rewrite Hr in Hf. injection Hf as Hf.
    by destruct (min_not_special (DIB h idx)).
Qed.

Lemma robin_spec (j : nat) fuel h idx d e w :
  core h → 0 <= idx < n_buckets h → d = bucket_distance h idx (home h e) → d + Z.of_nat j < n_buckets h → (j < fuel)%nat →
  (∀ p, 0 <= p < n_buckets h → next_idx h p = idx → d <= DIB h p + 1) →
  (∀ m, (m < j)%nat → 0 <= DIB h (Nat.iter m (next_idx h) idx)) → DIB h (Nat.iter j (next_idx h) idx) = -1 →
  DIB h w <= 0 → (∀ m, (m <= j)%nat → Nat.iter m (next_idx h) idx = w → m = 0%nat ∧ d = 0) →
  ∃ h' o, robin_hood_loop fuel idx d e h = Some (h', o) ∧ put_ok h e w h' o.
Proof.
  revert j h idx d e. induction fuel as [|fuel IH]; intros j h idx d e Hc Hi Hd Hj Hf Hleft Hocc Hfree Hw Hwp; [lia|]. cbn [robin_hood_loop].
  pose proof (c_n _ Hc) as Hn. pose proof (distance_range h idx (home h e) Hi (home_range h Hn e)) as Hdr.
  destruct j as [|j].
  - cbn in Hfree. specialize (Hwp 0%nat ltac:(lia)).
    assert (∃ raw b, get (dibs h) idx = Some raw ∧ get (buckets h) idx = Some b ∧ (raw = DIB_RAW_FREE ∧ b = None ∨ raw = DIB_RAW_REHASH ∧ b ≠ None))
      as (raw & b & Hr & Hb & Hrb).
    { destruct (bucket_view h idx (c_shape _ Hc) Hi) as [(? & ? & _)|[(e1 & ? & ? & _)|(e1 & raw & _ & _ & _ & _ & _ & ? & _)]]; [by eauto 10| |lia].
      eexists _, _. split_and!; [done..|]. by right. }
    rewrite Hr. cbn [mbind option_bind]. assert ((raw =? DIB_RAW_FREE) || (raw =? DIB_RAW_REHASH) = true) as -> by by destruct Hrb as [[-> _]|[-> _]].
    rewrite Hb. cbn [mbind option_bind]. eexists _, _. split; [reflexivity|]. apply (robin_place h idx d e w raw b); try done. naive_solver.
  - pose proof (Hocc 0%nat ltac:(lia)) as H0. cbn in H0.
    destruct (bucket_view h idx (c_shape _ Hc) Hi) as [(_ & _ & ? & _)|[(e1 & _ & _ & ? & _)|(e1 & raw & Hr & Hraw & Hb & _ & HD & HDr & Hcalc)]]; [lia|lia|].
    rewrite Hr. cbn [mbind option_bind]. assert ((raw =? DIB_RAW_FREE) || (raw =? DIB_RAW_REHASH) = false) as ->.
    { destruct (min_not_special (DIB h idx) ltac:(lia)) as [? ?]. rewrite Hraw. apply orb_false_iff. split; by apply Z.eqb_neq. }
    rewrite Hcalc. cbn [mbind option_bind]. destruct (DIB h idx <? d) eqn:Elt.
    + unfold bucket_at. rewrite Hb. cbn [mbind option_bind]. fold (place idx e d h).
      pose proof (n_place idx e d h) as Hnp. pose proof (c_len _ Hc) as Hl. assert (Hd28 : 0 <= d < 2 ^ 28) by lia.
      assert (HDp : ∀ i, DIB (place idx e d h) i = if decide (i = idx) then d else DIB h i) by (intros i; by apply DIB_place).
      rewrite <- (next_same h _ idx Hnp).
      destruct (IH j (place idx e d h) (next_idx (place idx e d h) idx) (DIB h idx + 1) e1) as (h' & o & -> & Hput).
      * apply core_place; try done. lia.
      * apply next_range; by rewrite Hnp.
      * rewrite (next_same _ _ _ Hnp), (distance_same _ _ _ _ Hnp), (home_same h _ _ Hnp) by done.
        rewrite distance_next by (done || by apply home_range). rewrite <- HD. destruct (_ =? n_buckets h) eqn:E; lia.
      * rewrite Hnp. lia.
      * lia.
      * intros p Hp Hnx. rewrite Hnp in Hp. rewrite !(next_same _ _ _ Hnp) in Hnx. apply next_inj in Hnx as ->; [|done..].
        rewrite HDp, decide_True by done. lia.
      * intros m Hm. rewrite <- Nat.iter_succ_r, (iter_same h _ _ _ Hnp), HDp. case_decide; [lia|]. apply Hocc. lia.
      * rewrite <- Nat.iter_succ_r, (iter_same h _ _ _ Hnp), HDp. case_decide as E; [|done]. rewrite E in Hfree. lia.
      * rewrite HDp. case_decide as E; [|done]. destruct (Hwp 0%nat) as [_ ?]; [lia|by rewrite E|]. lia.
      * intros m Hm. rewrite <- Nat.iter_succ_r, (iter_same h _ _ _ Hnp). intros Em. destruct (Hwp (S m)) as [? _]; [lia|done|]. lia.
      * exists h', o. split; [done|]. apply (swap_buckets_ok h idx d e e1 w h' o); try done. by rewrite Hr, Hraw.
    + destruct (IH j h (next_idx h idx) (d + 1) e) as (h' & o & -> & Hput); try done.
      * by apply next_range.
      * rewrite distance_next by (done || by apply home_range). rewrite <- Hd. destruct (_ =? n_buckets h) eqn:E; lia.
      * lia.
      * lia.
      * intros p Hp Hnx. apply next_inj in Hnx as ->; [lia|done..].
      * intros m Hm. rewrite <- Nat.iter_succ_r. apply Hocc. lia.
      * by rewrite <- Nat.iter_succ_r.
      * intros m Hm. rewrite <- Nat.iter_succ_r. intros Em. destruct (Hwp (S m)) as [? _]; [lia|done|]. lia.
      * by exists h', o.
Qed.

Lemma iter_pos h idx m : 1 <= n_buckets h → 0 <= idx < n_buckets h → Nat.iter m (next_idx h) idx = (idx + Z.of_nat m) mod n_buckets h.
Proof.
  intros Hn Hi. induction m as [|m IH]; [cbn; by rewrite Z.add_0_r, Z.mod_small|].
  rewrite Nat.iter_succ, IH. unfold next_idx. rewrite Zplus_mod_idemp_l. f_equal. lia.
Qed.

Lemma iter_distance h i a :
  1 <= n_buckets h → 0 <= i < n_buckets h → 0 <= a < n_buckets h → Nat.iter (Z.to_nat (bucket_distance h i a)) (next_idx h) a = i.
Proof.
  intros Hn Hi Ha. rewrite iter_pos by done. unfold bucket_distance. destruct (a <=? i) eqn:E.
  - replace (a + _) with i by lia. by rewrite Z.mod_small.
  - replace (a + _) with (i + 1 * n_buckets h) by lia. rewrite Z.mod_add, Z.mod_small; lia.
Qed.

Lemma least (P : nat → Prop) `{∀ m, Decision (P m)} n : P n → ∃ j : nat, (j <= n)%nat ∧ P j ∧ ∀ m, (m < j)%nat → ¬ P m.
Proof.
  induction n as [n IH] using lt_wf_ind. intros Hn. destruct (decide (Exists P (seq 0 n))) as [He|He].
  - apply Exists_exists in He as (m & Hm%elem_of_seq & HP). destruct (IH m ltac:(lia) HP) as (j & ? & ? & ?). exists j. split; [lia|done].
  - exists n. split_and!; [done..|]. intros m Hm HP. apply He, Exists_exists. exists m. split; [apply elem_of_seq; lia|done].
Qed.

Lemma omap_all_Some {A} (l : list (option A)) : (length (omap id l) < length l)%nat → None ∈ l.
Proof.
  induction l as [|[a|] l IH]; cbn; [lia| |intros _; apply list_elem_of_here]. intros Hl. apply list_elem_of_further, IH. lia.
Qed.

Lemma some_unsettled h : core h → len (elems h) < n_buckets h → ∃ i, 0 <= i < n_buckets h ∧ DIB h i = -1.
Proof.
  intros Hc Hlt. assert (Hin : None ∈ buckets h).
  { apply omap_all_Some. pose proof (c_len _ Hc). unfold elems, len in *. lia. }
  apply elem_of_get in Hin as [i Hi]. pose proof (bucket_index _ _ _ Hc Hi) as Hr. exists i. split; [done|].
  destruct (bucket_view h i (c_shape _ Hc) Hr) as [(_ & _ & ? & _)|[(e & _ & _ & ? & _)|(e & raw & _ & _ & ? & _)]]; [done|done|congruence].
Qed.

Lemma put_hood_spec h e :
  core h → len (elems h) < n_buckets h →
  ∃ h' o w, hashmap_put_robin_hood (home h e) e h = Some (h', o) ∧ 0 <= w < n_buckets h ∧ put_ok h e w h' o.
Proof.
  intros Hc Hlt. pose proof (c_n _ Hc) as Hn. destruct (some_unsettled h Hc Hlt) as (f0 & Hf0 & HD0).
  pose proof (home_range h Hn e) as Ha. set (a := home h e) in *. pose proof (distance_range h f0 a Hf0 Ha) as Hdr.
  destruct (least (λ m, DIB h (Nat.iter m (next_idx h) a) = -1) (Z.to_nat (bucket_distance h f0 a))) as (j & Hj & HDj & Hmin).
  { rewrite iter_distance by (done || lia). done. }
  assert (Hir : ∀ m, 0 <= Nat.iter m (next_idx h) a < n_buckets h).
  { intros m. rewrite iter_pos by (done || lia). apply Z.mod_pos_bound. lia. }
  set (f := Nat.iter j (next_idx h) a) in *.
  destruct (robin_spec j (S (length (dibs h))) h a 0 e (next_idx h f)) as (h' & o & Hr & Hput); try done.
  - by rewrite distance_self.
  - lia.
  - unfold n_buckets, len in *. lia.
  - intros p Hp _. pose proof (DIB_ge h p (c_shape _ Hc) Hp). lia.
  - intros m Hm. pose proof (DIB_ge h _ (c_shape _ Hc) (Hir m)) as Hge. specialize (Hmin m Hm). cbn in Hmin. lia.
  - pose proof (c_rh _ Hc f (Hir j)). lia.
  - intros m Hm. unfold f. rewrite <- Nat.iter_succ, !iter_pos by (done || lia). intros He. split; [|done].
    destruct (decide (m = 0%nat)) as [|Hm0]; [done|exfalso].
    assert ((Z.of_nat (S j) - Z.of_nat m) mod n_buckets h = 0).
    { replace (Z.of_nat (S j) - Z.of_nat m) with ((a + Z.of_nat (S j)) - (a + Z.of_nat m)) by lia.
      rewrite Zminus_mod, He, Z.sub_diag. apply Z.mod_0_l. lia. }
    rewrite Z.mod_small in H by lia. lia.
  - exists h', o, (next_idx h f). split; [exact Hr|]. split; [|exact Hput]. apply next_range; [done|apply Hir].
Qed.

(** ** Removing *)

Lemma iter_range h i m : 1 <= n_buckets h → 0 <= i < n_buckets h → 0 <= Nat.iter m (next_idx h) i < n_buckets h.
Proof. intros Hn Hi. rewrite iter_pos by done. apply Z.mod_pos_bound. lia. Qed.

(** The buckets after [i] are distinct for a whole round. *)
Lemma iter_no_return h i m : 1 <= n_buckets h → 0 <= i < n_buckets h → Nat.iter (S m) (next_idx h) i = i → n_buckets h <= Z.of_nat (S m).
Proof.
  intros Hn Hi. rewrite iter_pos by done. intros He. destruct (decide (Z.of_nat (S m) < n_buckets h)) as [Hlt|]; [|lia].
  assert (H0 : (i + Z.of_nat (S m) - i) mod n_buckets h = 0).
  { rewrite Zminus_mod, He, (Z.mod_small i), Z.sub_diag by done. apply Z.mod_0_l. lia. }
  replace (i + Z.of_nat (S m) - i) with (Z.of_nat (S m)) in H0 by lia. rewrite Z.mod_small in H0 by lia. lia.
Qed.

Lemma find_right_spec (j fuel : nat) h idx r :
  core h → no_pending h → 0 <= r < n_buckets h → (∀ m, (m < j)%nat → 0 < DIB h (Nat.iter m (next_idx h) r)) →
  DIB h (Nat.iter j (next_idx h) r) <= 0 → (∀ m, (m < j)%nat → Nat.iter m (next_idx h) r ≠ idx) → (j < fuel)%nat →
  find_right fuel h idx r = Some (Nat.iter j (next_idx h) r).
Proof.
  intros Hc Hp. revert j r. induction fuel as [|fuel IH]; intros j r Hr Hocc Hstop Hne Hf; [lia|]. cbn [find_right].
  pose proof (c_n _ Hc) as Hn.
  assert (Hraw : ∃ raw, get (dibs h) r = Some raw ∧ ((raw =? 0) || (raw =? DIB_RAW_FREE) = (DIB h r <=? 0))).
  { destruct (view_ready h r (c_shape _ Hc) Hp Hr) as [(Hd & _ & HD)|(e & raw & Hd & Hnf & Hraw & _ & _ & HDr & _)].
    - exists DIB_RAW_FREE. by rewrite HD.
    - exists raw. split; [done|]. rewrite (proj2 (Z.eqb_neq _ _) Hnf), orb_false_r. unfold DIB_RAW_OVERFLOW in Hraw. lia. }
  destruct Hraw as (raw & -> & Hb). cbn [mbind option_bind]. rewrite Hb. destruct j as [|j].
  - cbn in *. destruct (_ <=? 0) eqn:E; [done|lia].
  - pose proof (Hocc 0%nat ltac:(lia)) as H0. cbn in H0. destruct (_ <=? 0) eqn:E; [lia|].
    rewrite assert_bind.
    2:{ specialize (Hne 0%nat ltac:(lia)). cbn in Hne. apply negb_true_iff, Z.eqb_neq. congruence. }
    rewrite Nat.iter_succ_r. apply IH; [by apply next_range| | | |lia].
    + intros m Hm. rewrite <- Nat.iter_succ_r. apply Hocc. lia.
    + by rewrite <- Nat.iter_succ_r.
    + intros m Hm. rewrite <- Nat.iter_succ_r. apply Hne. lia.
Qed.

(** The table with the hole [p] while the entries after it are shifted; the storage still has a
    stale entry there. *)
Record holed (p right : Z) h : Prop := {
  o_shape : shape (unplace p h);
  o_ready : no_pending (unplace p h);
  o_rh i : 0 <= i < n_buckets h → i ≠ p → DIB (unplace p h) (next_idx h i) <= DIB (unplace p h) i + 1;
  o_hole i : 0 <= i < n_buckets h → next_idx h i = p → DIB (unplace p h) (next_idx h p) <= DIB (unplace p h) i + 2;
  o_right : DIB (unplace p h) right <= 0;
  o_first : right = p → DIB (unplace p h) (next_idx h p) <= 1;
  o_low : low_ok (unplace p h) ∧ (has_indirect h = true → idx_lowest_entry h <= p) }.

Lemma unplace_place_comm i j e d h :
  i ≠ j → 0 <= i → 0 <= j → unplace j (place i e d h) = place i e d (unplace j (unplace i h)).
Proof.
  intros Hne Hi Hj. unfold unplace, place, bucket_set_dib, set_bucket, set_raw, set_storage, upd. destruct h. cbn. f_equal.
  - rewrite (list_insert_insert_ne _ (Z.to_nat i) (Z.to_nat j)) by lia. by rewrite list_insert_insert_eq.
  - rewrite (list_insert_insert_ne _ (Z.to_nat i) (Z.to_nat j)) by lia. by rewrite list_insert_insert_eq.
Qed.

Lemma get_unplace_ne p i h : 0 <= p → i ≠ p → get (dibs (unplace p h)) i = get (dibs h) i ∧ get (buckets (unplace p h)) i = get (buckets h) i.
Proof. intros Hp Hne. cbn. by rewrite !get_upd_ne by congruence. Qed.

Lemma no_pending_iff h : no_pending h ↔ ∀ i, get (dibs h) i ≠ Some DIB_RAW_REHASH.
Proof.
  unfold no_pending. split; [intros H i Hi; by apply H, (get_elem_of _ i)|]. intros H [i Hi]%elem_of_get. by apply (H i).
Qed.

Lemma elems_unplace p b h : get (buckets h) p = Some b → option_list b ++ elems (unplace p h) ≡ₚ elems h.
Proof. intros Hb. exact (elems_upd h p b None Hb). Qed.

(** One step of the shift: the entry after the hole moves into it. *)
Lemma holed_step p right h e :
  0 <= p < n_buckets h → holed p right h → let q := next_idx h p in let d := DIB (unplace p h) q - 1 in
  0 <= d → get (buckets h) q = Some (Some e) → DIB (unplace p h) q = bucket_distance h q (home h e) →
  let h' := place p e d h in
  holed q right h' ∧ elems (unplace q h') ≡ₚ elems (unplace p h) ∧
  ∀ i, DIB (unplace q h') i = if decide (i = p) then d else if decide (i = q) then -1 else DIB (unplace p h) i.
Proof.
  intros Hp [Hs Hr Hrh Hhole Hright Hfirst [Hlow Hlp]] q d Hd Hb HD h'. set (g := unplace p h) in *.
  assert (Hgn : n_buckets g = n_buckets h) by apply n_unplace. pose proof (s_n _ Hs) as Hn. rewrite Hgn in Hn.
  pose proof (next_range h Hn p Hp) as Hq. fold q in Hq. pose proof (s_len _ Hs) as Hl.
  assert (HDp : DIB g p = -1).
  { unfold DIB, g, settled. cbn. unfold n_buckets in Hp. by rewrite get_upd_eq. }
  assert (Hqp : q ≠ p) by (intros E; unfold d in Hd; rewrite E in Hd; lia).
  assert (Hdist : d = bucket_distance h p (home h e)).
  { unfold d. rewrite HD. unfold q. rewrite (distance_next h Hn p) by (done || by apply home_range).
    unfold d in Hd. rewrite HD in Hd. unfold q in Hd. rewrite (distance_next h Hn p) in Hd by (done || by apply home_range).
    destruct (_ =? n_buckets h); lia. }
  pose proof (DIB_ge g q Hs ltac:(by rewrite Hgn)) as Hdn. assert (Hd28 : 0 <= d < 2 ^ 28) by (unfold d; lia).
  assert (Hg' : unplace q h' = place p e d (unplace q g)) by (apply unplace_place_comm; (congruence || lia)).
  assert (Hsq : shape (unplace q g)) by (apply shape_unplace; [done|by rewrite Hgn]).
  assert (Hqn : n_buckets (unplace q g) = n_buckets h) by by rewrite n_unplace.
  assert (HD' : ∀ i, DIB (unplace q h') i = if decide (i = p) then d else if decide (i = q) then -1 else DIB g i).
  { intros i. rewrite Hg', DIB_place; [|apply (s_len _ Hsq)|by rewrite Hqn|done|by rewrite (distance_same _ _ _ _ Hqn), (home_same h _ _ Hqn)].
    case_decide; [done|]. by rewrite DIB_unplace by (done || by rewrite Hgn). }
  assert (Hn' : n_buckets h' = n_buckets h) by apply n_place.
  assert (Hnx : ∀ i, next_idx h' i = next_idx h i) by (intros i; by apply next_same).
  assert (Hgb : get (buckets g) q = Some (Some e)) by (unfold g; cbn; rewrite get_upd_ne by (congruence || lia); done).
  split_and!; [constructor| |exact HD'].
  - rewrite Hg'. apply shape_place; [done|by rewrite Hqn|by rewrite (distance_same _ _ _ _ Hqn), (home_same h _ _ Hqn)].
  - rewrite Hg'. apply no_pending_iff. intros i Hi. apply place_pending_only in Hi; [|by rewrite Hqn|done].
    cbn in Hi. destruct (decide (i = q)) as [->|Hiq]; [rewrite get_upd_eq in Hi by (rewrite len_upd; by unfold n_buckets in Hq); done|].
    rewrite get_upd_ne in Hi by (congruence || lia). by apply (proj1 (no_pending_iff g) Hr i).
  - intros i Hi Hiq. rewrite Hn' in Hi. rewrite Hnx, !HD'. rewrite (decide_False (P := i = q)) by done.
    destruct (decide (next_idx h i = p)) as [E|E].
    + destruct (decide (i = p)) as [->|Hip]; [done|]. specialize (Hhole i Hi E). fold q in Hhole. unfold d. lia.
    + destruct (decide (next_idx h i = q)) as [E2|E2].
      * apply next_inj in E2 as ->; [|done..]. rewrite decide_True by done. lia.
      * destruct (decide (i = p)) as [->|Hip]; [done|]. by apply Hrh.
  - intros i Hi. rewrite Hn' in Hi. rewrite !Hnx. intros E. apply next_inj in E as ->; [|done..]. rewrite !HD'. rewrite (decide_True (P := p = p)) by done.
    destruct (decide (next_idx h q = p)); [lia|]. destruct (decide (next_idx h q = q)); [lia|].
    pose proof (Hrh q Hq Hqp). unfold d. lia.
  - rewrite HD'. case_decide as E; [specialize (Hfirst E); fold q in Hfirst; unfold d; lia|]. case_decide; [lia|done].
  - intros ->. unfold d in Hd. lia.
  - rewrite Hg'. assert (Hlq : has_indirect h = true → idx_lowest_entry h <= q).
    { intros Hind. destruct (decide (q < idx_lowest_entry h)) as [Hlt|]; [|lia]. pose proof (proj2 (Hlow Hind) q ltac:(by rewrite Hgn) Hlt) as Hfree.
      destruct (view_ready g q Hs Hr ltac:(by rewrite Hgn)) as [(_ & Hnone & _)|(? & ? & Hraw & Hnf & _)]; congruence. }
    split; [|intros Hind; revert Hlq; unfold h', place, bucket_set_dib; cbn in *; auto].
    intros Hind. split; [exact (proj1 (Hlow Hind))|]. intros i Hi Hlt. rewrite n_place, Hqn in Hi. rewrite get_dibs_place by (done || by rewrite Hqn).
    change (i < idx_lowest_entry h) in Hlt. change (has_indirect h = true) in Hind. specialize (Hlp Hind). rewrite decide_False by lia.
    specialize (Hlq Hind). cbn. rewrite get_upd_ne by lia. apply Hlow; [done|by rewrite Hgn|done].
  - rewrite Hg'. transitivity (e :: elems (unplace q g)).
    + apply (elems_place p e d None); [|done]. cbn. rewrite get_upd_ne by lia. apply get_upd_eq. pose proof Hl as Hl'. unfold g in Hl'. cbn in Hl'.
      rewrite len_upd in Hl'. rewrite Hl'. fold g. by rewrite Hgn.
    + exact (elems_unplace q (Some e) g Hgb).
Qed.

(** The entries of [j] buckets after [p] have moved back by one. *)
Definition shifted h p (j : nat) h' : Prop :=
  (∀ m, (m < j)%nat → get (buckets h') (Nat.iter m (next_idx h) p) = get (buckets h) (Nat.iter (S m) (next_idx h) p)) ∧
  get (buckets h') (Nat.iter j (next_idx h) p) = Some None ∧
  (∀ i, (∀ m, (m <= j)%nat → i ≠ Nat.iter m (next_idx h) p) → get (buckets h') i = get (buckets h) i).

Lemma get_buckets_step p q e d h i :
  p ≠ q → 0 <= p < len (buckets h) → 0 <= q < len (buckets h) →
  get (buckets (unplace q (place p e d h))) i =
    if decide (i = p) then Some (Some e) else if decide (i = q) then Some None else get (buckets h) i.
Proof.
  intros Hne Hp Hq. cbn. destruct (decide (i = q)) as [->|Hiq].
  - rewrite get_upd_eq by (rewrite len_upd; done). by rewrite decide_False.
  - rewrite get_upd_ne by (congruence || lia). case_decide as Hip; [subst; by apply get_upd_eq|]. by rewrite get_upd_ne by (congruence || lia).
Qed.

Lemma shifted_step (j : nat) h p e d h' :
  let q := next_idx h p in let h1 := place p e d h in
  1 <= n_buckets h → 0 <= p < n_buckets h → len (buckets h) = n_buckets h → Z.of_nat (S j) < n_buckets h → p ≠ q → get (buckets h) q = Some (Some e) →
  shifted (unplace q h1) q j h' → shifted (unplace p h) p (S j) h'.
Proof.
  intros q h1 Hn Hp Hl Hj Hpq Hb (H1 & H2 & H3).
  assert (Hq : 0 <= q < n_buckets h) by (unfold q, next_idx; apply Z.mod_pos_bound; lia).
  assert (Hs : ∀ i, get (buckets (unplace q h1)) i = _) by (intros i; exact (get_buckets_step p q e d h i Hpq ltac:(by rewrite Hl) ltac:(by rewrite Hl))).
  assert (Hn1 : n_buckets (unplace q h1) = n_buckets h) by (rewrite n_unplace; apply n_place).
  assert (Hnu : n_buckets (unplace p h) = n_buckets h) by apply n_unplace.
  assert (Hit : ∀ m, Nat.iter m (next_idx (unplace q h1)) q = Nat.iter (S m) (next_idx (unplace p h)) p).
  { intros m. rewrite (iter_same h) by done. rewrite (iter_same h (unplace p h)) by done. by rewrite Nat.iter_succ_r. }
  assert (Hir : ∀ m, Nat.iter m (next_idx (unplace p h)) p = Nat.iter m (next_idx h) p) by (intros m; by apply iter_same).
  assert (Hback : ∀ m, (m <= j)%nat → Nat.iter (S m) (next_idx (unplace p h)) p ≠ p).
  { intros m Hm E. rewrite Hir in E. apply iter_no_return in E; [lia|done|done]. }
  assert (Hg : ∀ i, i ≠ p → get (buckets (unplace p h)) i = get (buckets h) i) by (intros i Hi; cbn; rewrite get_upd_ne by (congruence || lia); done).
  assert (Hq1 : q = Nat.iter 1 (next_idx (unplace p h)) p) by (rewrite Hir; done).
  split_and!.
  - intros [|m] Hm.
    + change (Nat.iter 0 (next_idx (unplace p h)) p) with p. rewrite (H3 p). 2:{ intros m Hm' E. rewrite Hit in E. by apply (Hback m). }
      rewrite Hs, decide_True by done. rewrite <- Hq1, Hg by congruence. by rewrite Hb.
    + rewrite <- Hit, H1 by lia. rewrite Hit, Hs. rewrite decide_False by (apply Hback; lia). rewrite Hg by (apply Hback; lia).
      case_decide as E; [|done]. rewrite <- Hit in E. rewrite (iter_same h) in E by done. apply iter_no_return in E; [lia|done|done].
  - by rewrite <- Hit.
  - intros i Hi. rewrite H3. 2:{ intros m Hm. rewrite Hit. apply Hi. lia. }
    rewrite Hs. rewrite decide_False by (apply (Hi 0%nat); lia). rewrite decide_False; [|rewrite Hq1; apply Hi; lia].
    symmetry. apply Hg, (Hi 0%nat). lia.
Qed.

Lemma shift_back_spec (j fuel : nat) h p right :
  0 <= p < n_buckets h → holed p right h → Nat.iter j (next_idx h) (next_idx h p) = right →
  (∀ m, (m < j)%nat → 0 < DIB (unplace p h) (Nat.iter m (next_idx h) (next_idx h p))) → Z.of_nat j < n_buckets h → (j <= fuel)%nat →
  ∃ h' p', shift_back fuel h p (next_idx h p) right = Some (h', p') ∧ 0 <= p' < n_buckets h ∧ same_table h h' ∧
    core (unplace p' h') ∧ no_pending (unplace p' h') ∧ low_ok (unplace p' h') ∧ elems (unplace p' h') ≡ₚ elems (unplace p h) ∧
    shifted (unplace p h) p j (unplace p' h').
Proof.
  revert j h p. induction fuel as [|fuel IH]; intros j h p Hp Ho Hj Hocc Hjn Hf.
  all: pose proof (s_n _ (o_shape _ _ _ Ho)) as Hn; rewrite n_unplace in Hn; pose proof (next_range h Hn p Hp) as Hq.
  all: assert (Hend : next_idx h p = right → core (unplace p h) ∧ no_pending (unplace p h) ∧ low_ok (unplace p h))
    by (intros E; split_and!; [constructor; [apply Ho|]|apply Ho|apply Ho]; intros i Hi; rewrite n_unplace in Hi;
        rewrite (next_same h) by apply n_unplace; destruct (decide (i = p)) as [->|Hip]; [|by apply Ho];
        rewrite E; pose proof (o_right _ _ _ Ho); pose proof (DIB_ge _ p (o_shape _ _ _ Ho) ltac:(by rewrite n_unplace)); lia).
  all: assert (Hl : len (buckets h) = n_buckets h)
    by (pose proof (s_len _ (o_shape _ _ _ Ho)) as Hl; cbn in Hl; by rewrite len_upd, n_unplace in Hl).
  all: assert (Hsh : shifted (unplace p h) p 0 (unplace p h))
    by (split_and!; [intros m Hm; lia|cbn; apply get_upd_eq; by rewrite Hl|done]).
  - assert (j = 0%nat) as -> by lia. cbn in Hj. cbn [shift_back]. rewrite Hj, Z.eqb_refl. exists h, p. destruct (Hend Hj) as (? & ? & ?).
    split; [done|]. split; [done|]. auto 10.
  - cbn [shift_back]. destruct j as [|j].
    { cbn in Hj. rewrite Hj, Z.eqb_refl. exists h, p. destruct (Hend Hj) as (? & ? & ?). split; [done|]. split; [done|]. auto 10. }
    pose proof (Hocc 0%nat ltac:(lia)) as H0. cbn in H0. set (q := next_idx h p) in *. set (g := unplace p h) in *.
    assert (Hqr : q ≠ right) by (intros E; pose proof (o_right _ _ _ Ho) as Hr0; fold g in Hr0; rewrite <- E in Hr0; lia).
    rewrite (proj2 (Z.eqb_neq _ _) Hqr).
    assert (HDp : DIB g p = -1) by (unfold g; rewrite DIB_unplace; by rewrite ?decide_True).
    assert (Hqp : q ≠ p) by (intros E; rewrite E in H0; lia).
    assert (Hgn : n_buckets g = n_buckets h) by apply n_unplace.
    destruct (view_ready g q (o_shape _ _ _ Ho) (o_ready _ _ _ Ho) ltac:(by rewrite Hgn)) as
      [(_ & _ & ?)|(e & raw & Hr & _ & _ & Hb & HD & HDr & Hcalc)]; [lia|].
    destruct (get_unplace_ne p q h) as [Ed Eb]; [lia|done|]. fold g in Ed, Eb. rewrite Ed in Hr. rewrite Eb in Hb. rewrite Hr. cbn [mbind option_bind].
    assert (Hcalc' : bucket_calculate_dib h q raw = Some (DIB g q)).
    { rewrite <- Hcalc. unfold bucket_calculate_dib, bucket_at. rewrite Eb. unfold base_bucket_hash, bucket_distance. by rewrite Hgn. }
    rewrite Hcalc'. cbn [mbind option_bind]. rewrite assert_bind by (apply negb_true_iff; lia). rewrite Hb. cbn [mbind option_bind].
    change (bucket_set_dib p (DIB g q - 1) (set_bucket p (Some e) h)) with (place p e (DIB g q - 1) h).
    rewrite (distance_same _ _ _ _ Hgn), (home_same h _ _ Hgn) in HD by done.
    destruct (holed_step p right h e Hp Ho) as (Ho' & He' & HD'); [fold g q; lia|done|done|]. fold g q in Ho', He', HD'.
    set (h' := place p e (DIB g q - 1) h) in *. assert (Hn' : n_buckets h' = n_buckets h) by apply n_place.
    assert (Hnq : next_idx h q = next_idx h' q) by (symmetry; by apply next_same). rewrite Hnq.
    destruct (IH j h' q) as (h2 & p2 & -> & Hp2 & Hs2 & Hc2 & Hr2 & Hl2 & He2 & Hsh2).
    + by rewrite Hn'.
    + exact Ho'.
    + rewrite (iter_same h) by done. rewrite (next_same h h') by done. by rewrite <- Nat.iter_succ_r.
    + intros m Hm. rewrite (iter_same h), (next_same h h') by done. rewrite <- Nat.iter_succ_r. rewrite HD'.
      specialize (Hocc (S m) ltac:(lia)). case_decide as E1; [rewrite E1 in Hocc; lia|]. case_decide as E2; [|done].
      apply iter_no_return in E2; [lia|lia|done].
    + rewrite Hn'. lia.
    + lia.
    + exists h2, p2. rewrite Hn' in Hp2. split; [done|]. split; [done|]. split; [eapply same_trans; [apply same_place|exact Hs2]|].
      split; [done|]. split; [done|]. split; [done|]. split; [by rewrite He2|].
      apply (shifted_step j h p e (DIB g q - 1) (unplace p2 h2)); try done; lia || congruence.
Qed.

Definition ready h : Prop := core h ∧ no_pending h ∧ low_ok h ∧ (∃ w, 0 <= w < n_buckets h ∧ DIB h w <= 0) ∧
  n_entries h = len (elems h) ∧ (has_indirect h = false → n_buckets h = n_direct_buckets).

Lemma low_unplace p h : shape h → 0 <= p < n_buckets h → low_ok h → low_ok (unplace p h).
Proof.
  intros Hs Hp Hlow Hind. split; [by apply Hlow|]. intros i Hi Hlt. rewrite n_unplace in Hi. cbn. destruct (decide (i = p)) as [->|Hne].
  - apply get_upd_eq. exact Hp.
  - rewrite get_upd_ne by (congruence || lia). by apply Hlow.
Qed.

Lemma remove_spec h idx e :
  ready h → get (buckets h) idx = Some (Some e) →
  ∃ h', base_remove_entry idx h = Some h' ∧ ready h' ∧ e :: elems h' ≡ₚ elems h ∧
    n_buckets h' = n_buckets h ∧ hash_key h' = hash_key h ∧ has_indirect h' = has_indirect h ∧
    ∃ j : nat, Z.of_nat j < n_buckets h ∧ shifted (unplace idx h) idx j h'.
Proof.
  intros (Hc & Hp & Hlow & (w & Hw & HDw) & Hcnt & Hdir) Hb. pose proof (bucket_index _ _ _ Hc Hb) as Hi. pose proof (c_n _ Hc) as Hn.
  destruct (view_ready h idx (c_shape _ Hc) Hp Hi) as [(_ & ? & _)|(e1 & raw & Hr & Hnf & _ & Hb1 & HD & HDr & _)]; [congruence|].
  unfold base_remove_entry. rewrite Hr. cbn [mbind option_bind]. rewrite assert_bind by (apply negb_true_iff; by apply Z.eqb_neq).
  pose proof (next_range h Hn idx Hi) as Hq. pose proof (distance_range h w (next_idx h idx) Hw Hq) as Hdr.
  destruct (least (λ m, DIB h (Nat.iter m (next_idx h) (next_idx h idx)) <= 0) (Z.to_nat (bucket_distance h w (next_idx h idx))))
    as (j & Hj & HDj & Hmin); [by rewrite iter_distance by (done || lia)|].
  assert (Hocc : ∀ m, (m < j)%nat → 0 < DIB h (Nat.iter m (next_idx h) (next_idx h idx))) by (intros m Hm; specialize (Hmin m Hm); cbn in Hmin; lia).
  assert (Hnr : ∀ m, (m < j)%nat → Nat.iter m (next_idx h) (next_idx h idx) ≠ idx).
  { intros m Hm E. rewrite <- Nat.iter_succ_r in E. apply iter_no_return in E; [lia|lia|done]. }
  rewrite (find_right_spec j); [|done|done|done|done|done|done|unfold n_buckets, len in *; lia]. cbn [mbind option_bind].
  set (right := Nat.iter j (next_idx h) (next_idx h idx)) in *. pose proof (c_len _ Hc) as Hl.
  assert (HDright : DIB h right <= 0) by exact HDj.
  assert (HDu : ∀ i, DIB (unplace idx h) i = if decide (i = idx) then -1 else DIB h i) by (intros i; by apply DIB_unplace).
  destruct (shift_back_spec j (S (length (dibs h))) h idx right) as (h' & p & -> & Hp' & (Hn' & Hk' & Hne' & Hd') & Hc' & Hr' & Hl' & He' & Hsh').
  - done.
  - constructor.
    + by apply shape_unplace; auto.
    + apply no_pending_iff. intros i. cbn. destruct (decide (i = idx)) as [->|Hne]; [by rewrite get_upd_eq|].
      rewrite get_upd_ne by (congruence || lia). by apply (proj1 (no_pending_iff h) Hp).
    + intros i Hir Hne. rewrite !HDu. rewrite (decide_False (P := i = idx)) by done. pose proof (c_rh _ Hc i Hir). case_decide; [|done].
      pose proof (DIB_ge h i (c_shape _ Hc) Hir). lia.
    + intros i Hir E. rewrite !HDu. pose proof (c_rh _ Hc i Hir) as H1. rewrite E in H1. pose proof (c_rh _ Hc idx Hi) as H2.
      pose proof (DIB_ge h i (c_shape _ Hc) Hir). destruct (decide (next_idx h idx = idx)), (decide (i = idx)) as [->|]; [lia|lia|congruence|lia].
    + rewrite HDu. case_decide; lia.
    + intros E. rewrite HDu. case_decide; [lia|]. pose proof (c_rh _ Hc idx Hi). rewrite E in HDright. lia.
    + split; [by apply low_unplace; auto|]. intros Hind. destruct (decide (idx < idx_lowest_entry h)) as [Hlt|]; [|lia].
      pose proof (proj2 (Hlow Hind) idx Hi Hlt). congruence.
  - done.
  - intros m Hm. rewrite HDu, decide_False by by apply Hnr. by apply Hocc.
  - lia.
  - unfold n_buckets, len in *. lia.
  - cbn [mbind option_bind]. eexists. split; [reflexivity|]. change (bucket_mark_free p h') with (unplace p h') in *.
    assert (Hel : e :: elems (unplace p h') ≡ₚ elems h) by (rewrite He'; exact (elems_unplace idx (Some e) h Hb)).
    assert (Hcn : n_entries h' - 1 = len (elems (unplace p h'))).
    { rewrite Hne', Hcnt. apply Permutation_length in Hel. unfold len. cbn [length] in Hel. lia. }
    split; [split_and!|split; [exact Hel|split; [by rewrite <- Hn', <- (n_unplace p h')|split; [done|split; [done|exists j; split; [lia|exact Hsh']]]]]].
    + destruct Hc' as [[? ? ?] ?]. constructor; [constructor|]; assumption.
    + exact Hr'.
    + exact Hl'.
    + exists p. split; [change (0 <= p < n_buckets (unplace p h')); by rewrite n_unplace, Hn'|]. change (DIB (unplace p h') p <= 0).
      rewrite DIB_unplace; [by rewrite decide_True by done| |by rewrite Hn'].
      pose proof (c_len _ Hc') as Hl2. cbn in Hl2. by rewrite len_upd, n_unplace in Hl2.
    + exact Hcn.
    + change (has_indirect h' = false → n_buckets (unplace p h') = n_direct_buckets). by rewrite n_unplace, Hn', Hd'.
Qed.

(** ** Resizing *)

Lemma omap_length_le {A} (l : list (option A)) : (length (omap id l) <= length l)%nat.
Proof. induction l as [|[a|] l IH]; cbn; lia. Qed.

Lemma elems_le h : core h → len (elems h) <= n_buckets h.
Proof. intros Hc. rewrite <- (c_len _ Hc). unfold elems, len. pose proof (omap_length_le (buckets h)). lia. Qed.

Lemma pend_le h : (pend h <= length (dibs h))%nat.
Proof. apply length_filter. Qed.

(** The result of rehashing: [added] are entries that were not in a bucket. *)
Definition rehashed h (added : list (K * V)) h' : Prop :=
  core h' ∧ same_table h h' ∧ elems h' ≡ₚ added ++ elems h ∧ low_ok h' ∧
  ∀ i, get (dibs h') i = Some DIB_RAW_REHASH → get (dibs h) i = Some DIB_RAW_REHASH.

Lemma rehash_chain_spec fuel h e r :
  core h → low_ok h → len (elems h) < n_buckets h → (pend h < fuel)%nat →
  ∃ h' r', rehash_chain fuel (home h e) e h r = Some (h', r') ∧ rehashed h [e] h' ∧ r' + Z.of_nat (pend h') = r + 1 + Z.of_nat (pend h).
Proof.
  revert h e r. induction fuel as [|fuel IH]; intros h e r Hc Hlow Hlt Hf; [lia|]. cbn [rehash_chain].
  destruct (put_hood_spec h e Hc Hlt) as (h1 & o & w & -> & _ & Hc1 & Hs1 & He1 & _ & Hsub1 & Hp1 & Hl1). cbn [mbind option_bind].
  destruct o as [e1|].
  - change (option_list (Some e1) ++ elems h1) with (e1 :: elems h1) in He1. change (length (option_list (Some e1))) with 1%nat in Hp1.
    pose proof (Permutation_length He1) as Hlen. cbn [length] in Hlen.
    destruct (IH h1 e1 (r + 1)) as (h2 & r2 & Hr & (Hc2 & Hs2 & He2 & Hl2 & Hsub2) & Hcnt); [done|by apply Hl1|rewrite (proj1 Hs1); unfold len in *; lia|lia|].
    exists h2, r2. split; [exact Hr|]. split; [|lia]. split; [done|]. split; [by eapply same_trans|]. split; [by rewrite He2, <- He1|]. split; [done|auto].
  - change (option_list None ++ elems h1) with (elems h1) in He1. change (length (option_list (@None (K * V)))) with 0%nat in Hp1.
    exists h1, (r + 1). split; [done|]. split; [|lia]. split; [done|]. split; [done|]. split; [done|]. split; [by apply Hl1|done].
Qed.

Lemma core_unplace_pending h i : core h → 0 <= i < n_buckets h → DIB h i = -1 → core (unplace i h).
Proof.
  intros Hc Hi HD. constructor; [by apply shape_unplace; auto|]. intros j Hj. rewrite n_unplace in Hj. rewrite (next_same h) by apply n_unplace.
  pose proof (c_len _ Hc). rewrite !DIB_unplace by done. pose proof (c_rh _ Hc j Hj). pose proof (DIB_ge h j (c_shape _ Hc) Hj).
  repeat case_decide; subst; lia.
Qed.

Lemma pend_unplace h i : get (dibs h) i = Some DIB_RAW_REHASH → (pend (unplace i h) + 1 = pend h)%nat.
Proof. intros Hg. pose proof (pend_upd (dibs h) i _ DIB_RAW_FREE Hg ltac:(done)) as Hp. rewrite decide_True in Hp by done. exact Hp. Qed.

Lemma unplace_pending_only h i j :
  0 <= i < n_buckets h → get (dibs (unplace i h)) j = Some DIB_RAW_REHASH → get (dibs h) j = Some DIB_RAW_REHASH ∧ j ≠ i.
Proof.
  intros Hi. cbn. destruct (decide (j = i)) as [->|Hne]; [by rewrite get_upd_eq|]. by rewrite get_upd_ne by (congruence || lia).
Qed.

Lemma rehash_loop_spec (n : nat) idx h r :
  core h → low_ok h → 0 <= idx → idx + Z.of_nat n <= n_buckets h →
  (∀ i, get (dibs h) i = Some DIB_RAW_REHASH → idx <= i < idx + Z.of_nat n) →
  ∃ h', rehash_loop n idx h r = Some (h', r + Z.of_nat (pend h)) ∧ rehashed h [] h' ∧ no_pending h'.
Proof.
  revert idx h r. induction n as [|n IH]; intros idx h r Hc Hlow Hi Hn Hpend; cbn [rehash_loop].
  { assert (Hp : no_pending h) by (apply no_pending_iff; intros i Hg; specialize (Hpend i Hg); lia). exists h.
    assert (pend h = 0%nat) as ->.
    { unfold pend. rewrite filter_none; [done|]. intros d Hd ->. by apply Hp. }
    rewrite Z.add_0_r. split; [done|]. split; [|done]. unfold rehashed. auto 10. }
  assert (Hir : 0 <= idx < n_buckets h) by lia.
  assert (Hskip : ∀ h1 r1 added, core h1 → low_ok h1 → same_table h h1 → elems h1 ≡ₚ elems h →
    (∀ i, get (dibs h1) i = Some DIB_RAW_REHASH → get (dibs h) i = Some DIB_RAW_REHASH ∧ i ≠ idx) →
    r1 + Z.of_nat (pend h1) = r + Z.of_nat (pend h) → added = [] →
    ∃ h', rehash_loop n (idx + 1) h1 r1 = Some (h', r + Z.of_nat (pend h)) ∧ rehashed h added h' ∧ no_pending h').
  { intros h1 r1 added Hc1 Hl1 Hs1 He1 Hsub1 Hcnt ->. destruct (IH (idx + 1) h1 r1 Hc1 Hl1) as (h' & Hr & (H1 & H2 & H3 & H4 & H5) & H6).
    - lia.
    - rewrite (proj1 Hs1). lia.
    - intros i Hg. destruct (Hsub1 i Hg) as [Hg' Hne]. specialize (Hpend i Hg'). lia.
    - exists h'. rewrite Hr, Hcnt. split; [done|]. split; [|done]. split; [done|]. split; [by eapply same_trans|]. split; [by rewrite H3|].
      split; [done|]. intros i Hg. by apply Hsub1, H5. }
  destruct (bucket_view h idx (c_shape _ Hc) Hir) as [(Hg & _)|[(e & Hg & Hb & HD & _)|(e & raw & Hg & Hraw & _ & _ & _ & HDr & _)]];
    rewrite Hg; cbn [mbind option_bind].
  - apply (Hskip h r []); auto. intros i Hg'. split; [done|]. intros ->. by rewrite Hg in Hg'.
  - rewrite Z.eqb_refl. cbn [negb]. unfold bucket_at. rewrite Hb. cbn [mbind option_bind]. destruct (_ =? idx) eqn:Eo.
    + apply Z.eqb_eq in Eo. change (home h e = idx) in Eo.
      assert (Hpl : set_raw idx 0 h = place idx e 0 h).
      { unfold place. rewrite set_dib_raw by lia. unfold set_bucket, set_raw, set_storage. cbn. by rewrite (upd_id _ _ _ Hb). }
      rewrite Hpl. apply (Hskip (place idx e 0 h) (r + 1) []); [| |apply same_place| | | |done].
      * apply core_place; [done|done|by rewrite Eo, distance_self| |lia]. intros p Hp _. pose proof (DIB_ge h p (c_shape _ Hc) Hp). lia.
      * intros Hind. split; [by apply Hlow|]. intros i Hii Hlt. rewrite n_place in Hii. rewrite get_dibs_place by (done || lia). case_decide as E; [|by apply Hlow].
        subst i. assert (Hbad : get (dibs h) idx = Some DIB_RAW_FREE) by by apply Hlow. by rewrite Hg in Hbad.
      * pose proof (elems_place idx e 0 (Some e) h Hb ltac:(lia)) as He. by apply Permutation_cons_inv in He.
      * intros i Hg'. split; [by apply (place_pending_only idx e 0) in Hg'|]. intros ->. rewrite get_dibs_place in Hg' by (done || lia).
        by rewrite decide_True in Hg' by done.
      * pose proof (pend_place idx e 0 _ h Hg ltac:(lia)) as Hp. rewrite decide_True in Hp by done. lia.
    + fold (unplace idx h). pose proof (elems_unplace idx (Some e) h Hb) as Hel. change (option_list (Some e) ++ elems (unplace idx h)) with (e :: elems (unplace idx h)) in Hel.
      pose proof (pend_unplace h idx Hg) as Hpu. pose proof (elems_le h Hc) as Hle. pose proof (Permutation_length Hel) as Hlen. cbn [length] in Hlen.
      change (base_bucket_hash h e.1) with (home h e). rewrite <- (home_same h (unplace idx h) e (n_unplace idx h) eq_refl).
      destruct (rehash_chain_spec (S (length (dibs h))) (unplace idx h) e r) as (h1 & r1 & Hr1 & (Hc1 & Hs1 & He1 & Hl1 & Hsub1) & Hcnt).
      * by apply core_unplace_pending.
      * apply low_unplace; auto.
      * rewrite n_unplace. unfold len in *. lia.
      * pose proof (pend_le h). lia.
      * rewrite Hr1. cbn [mbind option_bind]. apply (Hskip h1 r1 []); [done|done| | | |lia|done].
        -- eapply same_trans; [|exact Hs1]. split; [apply n_unplace|done].
        -- by rewrite He1.
        -- intros i Hg'. apply (unplace_pending_only h idx i Hir), Hsub1, Hg'.
  - assert (Hne : raw ≠ DIB_RAW_REHASH) by (rewrite Hraw; apply min_not_special; lia).
    rewrite (proj2 (Z.eqb_neq _ _) Hne). cbn [negb]. apply (Hskip h r []); auto. intros i Hg'. split; [done|]. intros ->. congruence.
Qed.

Lemma get_replicate {A} (n : nat) (a : A) i : 0 <= i < Z.of_nat n → get (replicate n a) i = Some a.
Proof. intros Hi. unfold get. rewrite (proj2 (Z.leb_le _ _)) by lia. apply lookup_replicate_2. lia. Qed.

Lemma get_app_r {A} (l k : list A) i : len l <= i → get (l ++ k) i = get k (i - len l).
Proof.
  intros Hi. unfold get, len in *. rewrite (proj2 (Z.leb_le 0 i)), (proj2 (Z.leb_le 0 (i - _))) by lia.
  rewrite lookup_app_r by lia. f_equal. lia.
Qed.

Lemma omap_replicate_None {A} n : omap id (replicate n (@None A)) = [].
Proof. by induction n. Qed.

Lemma elems_grow n key h : elems (grow n key h) = elems h.
Proof. unfold elems, grow. cbn. rewrite omap_app, omap_replicate_None. apply app_nil_r. Qed.

Lemma n_grow n key h : n_buckets h <= n → n_buckets (grow n key h) = n.
Proof. intros Hn. unfold n_buckets, grow, len in *. cbn. rewrite length_app, length_fmap, length_replicate. unfold n_buckets, len. lia. Qed.

(** After [realloc()] every entry is to be rehashed. *)
Lemma grow_view n key h i :
  core h → no_pending h → n_buckets h <= n → 0 <= i < n →
  get (dibs (grow n key h)) i = Some DIB_RAW_FREE ∧ get (buckets (grow n key h)) i = Some None ∨
  i < n_buckets h ∧ get (dibs h) i ≠ Some DIB_RAW_FREE ∧ ∃ e, get (dibs (grow n key h)) i = Some DIB_RAW_REHASH ∧ get (buckets (grow n key h)) i = Some (Some e).
Proof.
  intros Hc Hp Hn Hi. pose proof (c_len _ Hc) as Hl. unfold grow. cbn. destruct (decide (i < n_buckets h)) as [Hlt|Hge].
  - rewrite !get_app_l by (rewrite ?len_fmap; unfold n_buckets in *; lia). rewrite get_fmap.
    destruct (view_ready h i (c_shape _ Hc) Hp ltac:(lia)) as [(-> & Hb & _)|(e & raw & -> & Hnf & _ & Hb & _)]; [by left|right].
    split_and!; [done|congruence|]. exists e. split; [|done]. cbn. by rewrite (proj2 (Z.eqb_neq _ _) Hnf).
  - left. rewrite !get_app_r by (rewrite ?len_fmap; unfold n_buckets in *; lia). rewrite len_fmap, Hl.
    unfold n_buckets in *. rewrite !get_replicate by (unfold len in *; lia). done.
Qed.

(** Every entry has a DIB that is not free. *)
Lemma count_marked (ds : list Z) (bs : list (option (K * V))) :
  length bs = length ds → (∀ i : nat, (i < length ds)%nat → ∃ d b, ds !! i = Some d ∧ bs !! i = Some b ∧ (d = DIB_RAW_FREE ↔ b = None)) →
  length (filter (.= DIB_RAW_REHASH) ((λ d, if d =? DIB_RAW_FREE then DIB_RAW_FREE else DIB_RAW_REHASH) <$> ds)) = length (omap id bs).
Proof.
  revert bs. induction ds as [|d ds IH]; intros bs Hll Hz; [by destruct bs|].
  destruct bs as [|b bs]; [done|]. destruct (Hz 0%nat ltac:(cbn; lia)) as (? & ? & [= <-] & [= <-] & Hdb).
  assert (IH' : length (filter (.= DIB_RAW_REHASH) ((λ d, if d =? DIB_RAW_FREE then DIB_RAW_FREE else DIB_RAW_REHASH) <$> ds)) = length (omap id bs)).
  { apply IH; [by injection Hll|]. intros i Hi. destruct (Hz (S i) ltac:(cbn; lia)) as (d' & b' & H1 & H2 & H3). exists d', b'. by cbn in H1, H2. }
  rewrite fmap_cons, filter_cons. destruct (Z.eqb_spec d DIB_RAW_FREE) as [E|E].
  - rewrite decide_False by done. rewrite (proj1 Hdb E). exact IH'.
  - rewrite decide_True by done. destruct b as [e|]; [|by destruct E; apply Hdb]. cbn [length omap list_omap id]. by rewrite IH'.
Qed.

Lemma pend_grow n key h : core h → no_pending h → pend (grow n key h) = length (elems h).
Proof.
  intros Hc Hp. unfold pend, grow. cbn. rewrite filter_app, length_app. rewrite (filter_none _ (replicate _ _)) by (by intros d [-> _]%elem_of_replicate).
  cbn [length]. rewrite Nat.add_0_r. pose proof (c_len _ Hc) as Hl. apply count_marked; [unfold n_buckets, len in Hl; lia|].
  intros i Hi. destruct (view_ready h (Z.of_nat i) (c_shape _ Hc) Hp) as [(Hd & Hb & _)|(e & raw & Hd & Hnf & _ & Hb & _)]; [unfold n_buckets, len; lia|..];
    unfold get in Hd, Hb; rewrite (proj2 (Z.leb_le 0 (Z.of_nat i)) ltac:(lia)), Nat2Z.id in Hd, Hb; [by exists DIB_RAW_FREE, None|].
  exists raw, (Some e). by split_and!.
Qed.

Lemma grow_spec n key h :
  core h → no_pending h → low_ok h → n_buckets h <= n <= 2 ^ 28 →
  core (grow n key h) ∧ low_ok (grow n key h) ∧ pend (grow n key h) = length (elems h) ∧
  ∀ i, get (dibs (grow n key h)) i = Some DIB_RAW_REHASH → 0 <= i < n_buckets h.
Proof.
  intros Hc Hp Hlow Hn. pose proof (n_grow n key h ltac:(lia)) as Hng. pose proof (c_n _ Hc) as Hn1.
  assert (Hview : ∀ i, 0 <= i < n → _) by (intros i Hi; exact (grow_view n key h i Hc Hp ltac:(lia) Hi)). cbn beta in Hview.
  assert (HD : ∀ i, 0 <= i < n → DIB (grow n key h) i = -1).
  { intros i Hi. unfold DIB, settled. destruct (Hview i Hi) as [[-> _]|(_ & _ & e & -> & _)]; done. }
  assert (Hlen : len (buckets (grow n key h)) = n).
  { pose proof (c_len _ Hc) as Hl. unfold grow, len in *. cbn. rewrite length_app, length_replicate. lia. }
  split_and!.
  - constructor; [constructor|].
    + by rewrite Hng.
    + rewrite Hng. lia.
    + intros i Hi. rewrite Hng in Hi. destruct (Hview i Hi) as [[Hd Hb]|(_ & _ & e & Hd & Hb)]; eexists _, _; (split; [exact Hd|]; split; [exact Hb|]); [by left|].
      right. exists e. auto.
    + intros i Hi. rewrite Hng in Hi. pose proof (next_range (grow n key h) ltac:(rewrite Hng; lia) i ltac:(by rewrite Hng)) as Hnx. rewrite Hng in Hnx.
      rewrite !HD by done. lia.
  - intros _. split; [cbn; destruct (has_indirect h) eqn:Hind; [by apply Hlow|done]|]. intros i Hi Hlt. rewrite Hng in Hi. destruct (Hview i Hi) as [[Hd _]|(Hin & Hnf & _)]; [done|]. destruct Hnf.
    destruct (has_indirect h) eqn:Hind; unfold grow in Hlt; cbn in Hlt; rewrite Hind in Hlt; [|lia]. apply Hlow; [done|lia|done].
  - by apply pend_grow.
  - intros i Hg. assert (Hi : 0 <= i < n) by (apply get_Some_range in Hg; fold (n_buckets (grow n key h)) in Hg; by rewrite Hng in Hg).
    destruct (Hview i Hi) as [[Hd _]|(Hin & _)]; [|lia]. rewrite Hd in Hg. done.
Qed.

(** The size of the new storage: a power of two that holds the buckets and their DIBs. *)
Lemma storage_size (need : Z) :
  0 < need → need * (entry_size + 1) < 2 ^ 29 →
  let shift := log2u_round_up (Z.max (need * (entry_size + 1)) (2 * DIRECT_STORAGE)) in
  shift < 32 ∧ need <= 2 ^ shift / (entry_size + 1) <= 2 ^ 28.
Proof.
  intros Hneed Hmax. assert (Hes : 9 <= entry_size + 1 <= 17) by (destruct entry_size_ok; lia). set (es := entry_size + 1) in *.
  set (X := Z.max (need * es) (2 * DIRECT_STORAGE)). assert (HX : 78 <= X < 2 ^ 29) by (unfold X, DIRECT_STORAGE; lia).
  cbn zeta. unfold log2u_round_up, log2u. destruct (X <=? 1) eqn:E1; [lia|]. destruct (1 <? X - 1) eqn:E2; [|lia].
  pose proof (Z.log2_spec (X - 1) ltac:(lia)) as [Hlo Hhi]. pose proof (Z.log2_nonneg (X - 1)).
  assert (Hl : Z.log2 (X - 1) < 29) by (apply Z.log2_lt_pow2; lia).
  assert (Hp : X <= 2 ^ (Z.log2 (X - 1) + 1) <= 2 ^ 29).
  { split; [rewrite <- Z.add_1_r in Hhi; lia|]. apply Z.pow_le_mono_r; lia. }
  split_and!; [lia| |].
  - apply Z.div_le_lower_bound; [lia|]. unfold X in Hp. lia.
  - transitivity (2 ^ 29 / es); [apply Z.div_le_mono; lia|]. transitivity (2 ^ 29 / 2); [|done]. apply Z.div_le_compat_l; lia.
Qed.

Lemma no_pending_bool h : no_pending h → bool_decide (DIB_RAW_REHASH ∉ dibs h) = true.
Proof. intros H. by apply bool_decide_eq_true_2. Qed.

Lemma resize_spec h (add : Z) x :
  ready h → 0 <= add → n_entries h + add < 2 ^ 24 →
  ∃ r h', resize_buckets add x h = Some (r, h') ∧ ready h' ∧ elems h' ≡ₚ elems h ∧
    (r < 0 ∧ r = -ENOMEM ∧ h' = h ∧ alloc_ok x = false ∨ (r = 0 ∧ h' = h ∨ r = 1) ∧ n_entries h + add <= n_buckets h').
Proof.
  intros Hready Hadd Hsmall. pose proof Hready as (Hc & Hp & Hlow & _ & Hcnt & Hdir). unfold resize_buckets.
  pose proof (len_nonneg (elems h)) as H0. rewrite (u32_small (n_entries h + add)) by lia. set (ne := n_entries h + add) in *.
  destruct (ne <? add) eqn:E1; [lia|]. destruct (negb (has_indirect h) && (ne <=? n_direct_buckets)) eqn:E2.
  { apply andb_true_iff in E2 as [Hi%negb_true_iff Hle%Z.leb_le]. exists 0, h. split_and!; auto. right. rewrite Hdir by done. split; [by left|done]. }
  assert (Hdiv : 0 <= ne / (INV_KEEP_FREE - 1) <= ne).
  { unfold INV_KEEP_FREE. split; [apply Z.div_pos; lia|]. apply Z.div_le_upper_bound; lia. }
  rewrite (u32_small (ne + _)) by lia. set (need := ne + ne / (INV_KEEP_FREE - 1)) in *. destruct (need <? ne) eqn:E3; [lia|].
  assert (Hes : 9 <= entry_size + 1 <= 17) by (destruct entry_size_ok; lia).
  assert (Hneed : need <= 2 ^ 24 + 2 ^ 22).
  { assert (ne / (INV_KEEP_FREE - 1) <= 2 ^ 22); [|unfold need; lia]. apply Z.div_le_upper_bound; unfold INV_KEEP_FREE; lia. }
  destruct (UINT_MAX / (entry_size + 1) <? need) eqn:E4.
  { exfalso. apply Z.ltb_lt in E4. assert (need <= UINT_MAX / (entry_size + 1)); [|lia]. apply Z.div_le_lower_bound; [lia|]. unfold UINT_MAX. nia. }
  destruct (need <=? n_buckets h) eqn:E5.
  { exists 0, h. split_and!; auto. right. split; [by left|lia]. }
  pose proof (c_n _ Hc) as Hn. destruct (storage_size need ltac:(lia) ltac:(nia)) as [Hs1 Hs2].
  set (n' := 2 ^ log2u_round_up (Z.max (need * (entry_size + 1)) (2 * DIRECT_STORAGE)) / (entry_size + 1)) in *.
  rewrite assert_bind by lia. clearbody n'. assert (Hn' : n_buckets h <= n' <= 2 ^ 28) by lia. destruct (alloc_ok x) eqn:Ea; cbn [negb]; [|exists (-ENOMEM), h; split_and!; auto; left; by split_and!].
  rewrite assert_bind by by apply no_pending_bool.
  destruct (grow_spec n' (random_key x) h Hc Hp Hlow Hn') as (Hcg & Hlg & Hpg & Hig). set (g := grow n' (random_key x) h) in *.
  assert (Hng : n_buckets g = n') by (apply n_grow, Hn'). rename Hn' into Hnb.
  destruct (rehash_loop_spec (Z.to_nat (n_buckets h)) 0 g 0) as (h' & -> & (Hc' & (Hn' & Hk' & Hne' & Hd') & He' & Hl' & _) & Hp').
  - done.
  - done.
  - lia.
  - rewrite Hng. lia.
  - intros i Hg. specialize (Hig i Hg). lia.
  - cbn [mbind option_bind]. rewrite Hpg. assert (Hel : elems h' ≡ₚ elems h) by (rewrite He'; unfold g; by rewrite elems_grow).
    assert (Hcn : n_entries h' = len (elems h')).
    { rewrite Hne'. change (n_entries g) with (n_entries h). rewrite Hcnt. unfold len. by rewrite Hel. }
    rewrite assert_bind.
    2:{ apply Z.eqb_eq. rewrite Hcn. unfold len. by rewrite Hel. }
    exists 1, h'. split; [done|]. assert (Hfree : len (elems h') < n_buckets h').
    { rewrite Hn', Hng. pose proof (elems_le h Hc). unfold len in *. rewrite Hel. lia. }
    destruct (some_unsettled h' Hc' Hfree) as (w & Hw & HDw).
    split; [|split; [done|right; split; [by right|rewrite Hn', Hng; lia]]].
    split_and!; [done|done|done|exists w; split; [done|lia]|done|]. rewrite Hd'. done.
Qed.

Lemma put_boldly_spec h e (may_resize : bool) x :
  ready h → n_entries h + 1 < 2 ^ 24 → (may_resize = false → n_entries h < n_buckets h) →
  ∃ r h', hashmap_base_put_boldly (home h e) e may_resize x h = Some (r, h') ∧
    (r = 1 ∧ ready h' ∧ elems h' ≡ₚ e :: elems h ∧ (may_resize = false → n_buckets h' = n_buckets h) ∨ r = -ENOMEM ∧ h' = h ∧ may_resize = true ∧ alloc_ok x = false).
Proof.
  intros Hready Hsmall Hroom. unfold hashmap_base_put_boldly. pose proof Hready as (Hc & _). pose proof (c_n _ Hc) as Hn.
  rewrite assert_bind by (pose proof (home_range h Hn e); lia).
  assert (∃ r h1, (if may_resize then resize_buckets 1 x h else Some (0, h)) = Some (r, h1) ∧ ready h1 ∧ elems h1 ≡ₚ elems h ∧
    (r < 0 ∧ r = -ENOMEM ∧ h1 = h ∧ may_resize = true ∧ alloc_ok x = false ∨ (r = 0 ∧ h1 = h ∨ r = 1 ∧ may_resize = true) ∧ n_entries h + 1 <= n_buckets h1))
    as (r & h1 & -> & Hr1 & He1 & Hcase).
  { destruct may_resize.
    - destruct (resize_spec h 1 x Hready ltac:(lia) Hsmall) as (r & h1 & H1 & H2 & H3 & [H4|H4]); exists r, h1; (split; [done|]; split; [done|]; split; [done|]); naive_solver.
    - specialize (Hroom eq_refl). exists 0, h. split_and!; auto. right. split; [by left|lia]. }
  cbn [mbind option_bind]. destruct Hcase as [(Hneg & -> & -> & -> & Ha)|[Hr Hb]].
  { rewrite (proj2 (Z.ltb_lt _ _) Hneg). exists (-ENOMEM), h. split; [done|]. right. by split_and!. }
  destruct (r <? 0) eqn:Eneg; [naive_solver lia|].
  assert ((if 0 <? r then base_bucket_hash h1 (fst e) else home h e) = home h1 e) as -> by by destruct Hr as [[-> ->]|[-> _]].
  pose proof Hr1 as (Hc1 & Hp1 & Hl1 & _ & Hcnt1 & Hd1). assert (Hn1 : n_entries h1 < n_buckets h1).
  { pose proof Hready as (_ & _ & _ & _ & Hcnt & _). rewrite Hcnt1. unfold len. rewrite He1. unfold len in Hcnt. lia. }
  rewrite assert_bind by lia.
  destruct (put_hood_spec h1 e Hc1 ltac:(by rewrite <- Hcnt1)) as (h2 & o & w & -> & Hw & Hc2 & (Hn2 & Hk2 & Hne2 & Hd2) & He2 & HDw & Hsub & Hpe & Hl2).
  cbn [mbind option_bind].
  assert (Hp0 : pend h1 = 0%nat) by (unfold pend; rewrite filter_none; [done|]; intros d Hd ->; by apply Hp1).
  assert (o = None) as -> by (destruct o as [e1|]; [change (length (option_list (Some e1))) with 1%nat in Hpe; lia|done]).
  rewrite assert_bind by done. eexists 1, _. split; [reflexivity|]. left. split; [done|].
  assert (Hel : elems h2 ≡ₚ e :: elems h) by (etransitivity; [exact He2|by rewrite He1]). split; [|split; [exact Hel|]].
  2:{ intros ->. change (n_buckets h2 = n_buckets h). rewrite Hn2. by destruct Hr as [[_ ->]|[_ ?]]. }
  split_and!.
  - destruct Hc2 as [[? ? ?] ?]. constructor; [constructor|]; assumption.
  - apply no_pending_iff. intros i Hg. apply Hsub in Hg. by apply (proj1 (no_pending_iff h1) Hp1 i).
  - exact (Hl2 Hl1).
  - exists w. split; [change (0 <= w < n_buckets h2); by rewrite Hn2|exact HDw].
  - change (n_entries h2 + 1 = len (elems h2)). rewrite Hne2, Hcnt1. unfold len. rewrite Hel, He1. cbn [length]. lia.
  - change (has_indirect h2 = false → n_buckets h2 = n_direct_buckets). by rewrite Hn2, Hd2.
Qed.
End Inv.
