(* ===== verification/HashmapMap.v ===== *)
(** * Hash tables implement finite maps (src/basic/hashmap.c)

    The abstract specification of a hashmap is a finite map; [Rep h m] says that the table [h]
    represents [m]. Every operation of the interface is a step of the specification, and so
    are sequences of operations. *)

From S2P Require Import Prelude Hashmap HashmapInv HashFuncs.

Section Rep.
Context {K V : Type} `{!EqDecision K, !Countable K, !EqDecision V, HO : !HashOps K, ET : EntryType}.
Implicit Types (h : HashmapBase (K := K) (V := V)) (m : gmap K V) (k : K) (v : V) (x : Ext).

Definition Rep h m : Prop := ready h ∧ elems h ≡ₚ map_to_list m.

(** The bound on the number of entries: far from where the size of the storage overflows. *)
Definition HASHMAP_MAX : Z := 2 ^ 24.

Lemma rep_size h m : Rep h m → n_entries h = Z.of_nat (size m).
Proof. intros [(_ & _ & _ & _ & -> & _) He]. unfold len. rewrite He. by rewrite <- length_map_to_list. Qed.

Lemma elem_bucket h e : e ∈ elems h ↔ ∃ j, get (buckets h) j = Some (Some e).
Proof.
  unfold elems. rewrite list_elem_of_omap. split.
  - intros (b & Hb & Heq). cbn in Heq. subst b. by apply elem_of_get.
  - intros [j Hj]. exists (Some e). split; [by eapply get_elem_of|done].
Qed.

Lemma rep_lookup h m k v : Rep h m → m !! k = Some v ↔ ∃ j, get (buckets h) j = Some (Some (k, v)).
Proof. intros [_ He]. rewrite <- elem_bucket, He. by rewrite elem_of_map_to_list. Qed.

Lemma scan_rep h m k :
  Rep h m →
  bucket_scan h k = Some None ∧ m !! k = None ∨
  ∃ j v, bucket_scan h k = Some (Some j) ∧ get (buckets h) j = Some (Some (k, v)) ∧ m !! k = Some v.
Proof.
  intros HR. pose proof HR as [(Hc & Hp & _) _]. destruct (scan_spec h k Hc Hp) as [[Hs Hn]|(j & v & Hs & Hj)].
  - left. split; [done|]. destruct (m !! k) as [v|] eqn:E; [|done]. apply (rep_lookup h m) in E as [j Hj]; [|done].
    destruct Hn. by exists j, v.
  - right. exists j, v. split; [done|]. split; [done|]. apply (rep_lookup h m); eauto.
Qed.

Lemma bucket_at_get h j b : get (buckets h) j = Some b → bucket_at h j = b.
Proof. unfold bucket_at. by intros ->. Qed.

End Rep.

(** Entries are found where the map has them. *)
Ltac scan HR k j v Hs Hj Hk :=
  destruct (scan_rep _ _ k HR) as [[Hs Hk]|(j & v & Hs & Hj & Hk)].

Ltac look Hs Hj := unfold bucket_scan in Hs |- *; rewrite ?Hs; cbn [mbind option_bind]; try (rewrite (bucket_at_get _ _ _ Hj); cbn [mbind option_bind fst snd]).

Section Refine.
Context {K V : Type} `{!EqDecision K, !Countable K, !EqDecision V, HO : !HashOps K, ET : EntryType}.
Implicit Types (h : HashmapBase (K := K) (V := V)) (m : gmap K V) (k : K) (v : V) (x : Ext).

(** ** Changes of the table as changes of the map *)

Lemma rep_insert h h' m k v : Rep h m → m !! k = None → ready h' → elems h' ≡ₚ (k, v) :: elems h → Rep h' (<[k := v]> m).
Proof. intros [_ He] Hk Hr He'. split; [done|]. by rewrite He', He, map_to_list_insert. Qed.

Lemma rep_delete h h' m k v : Rep h m → m !! k = Some v → ready h' → (k, v) :: elems h' ≡ₚ elems h → Rep h' (delete k m).
Proof.
  intros [_ He] Hk Hr He'. split; [done|]. apply (Permutation_cons_inv (a := (k, v))). rewrite He', He. by rewrite map_to_list_delete.
Qed.

Lemma ready_dirty h : ready h → ready (base_set_dirty h).
Proof. intros ([[? ? ?] ?] & ? & ? & ? & ? & ?). by split_and!. Qed.

Lemma ready_set_value h j k v v' :
  ready h → get (buckets h) j = Some (Some (k, v)) → ready (set_bucket j (Some (k, v')) h).
Proof.
  intros (Hc & Hp & Hlow & (w & Hw & HDw) & Hcnt & Hdir) Hj. pose proof (get_Some_range _ _ _ Hj) as Hr. pose proof (c_len _ Hc) as Hl.
  set (h' := set_bucket j (Some (k, v')) h).
  assert (Hb : ∀ i, get (buckets h') i = if decide (i = j) then Some (Some (k, v')) else get (buckets h) i).
  { intros i. unfold h'. cbn. case_decide; [subst; by apply get_upd_eq|by apply get_upd_ne; (congruence || lia)]. }
  assert (HD : ∀ i, DIB h' i = DIB h i).
  { intros i. unfold DIB, settled, bucket_at. rewrite Hb. change (dibs h') with (dibs h). destruct (get (dibs h) i) as [raw|]; [|done].
    cbn [mbind option_bind]. destruct (_ || _); [done|]. case_decide; [subst; by rewrite Hj|done]. }
  split_and!; [constructor; [constructor|]|done|done|exists w; split; [done|by rewrite HD]| |done].
  - unfold h'. cbn. rewrite len_upd. exact Hl.
  - apply (c_n _ Hc).
  - intros i Hi. destruct (c_raw _ Hc i Hi) as (raw & b & Hd & Hb' & Hok). rewrite Hb. case_decide as E; [|by exists raw, b].
    subst i. rewrite Hj in Hb'. injection Hb' as <-. exists raw, (Some (k, v')). split_and!; [done..|]. destruct Hok as [[_ ?]|(e & [= <-] & Hok)]; [done|].
    right. by exists (k, v').
  - intros i Hi. rewrite !HD. by apply (c_rh _ Hc).
  - change (n_entries h = len (elems h')). rewrite Hcnt. pose proof (elems_upd h j (Some (k, v)) (Some (k, v')) Hj) as He.
    apply Permutation_length in He. unfold len. f_equal. change (elems h') with (omap id (upd (buckets h) j (Some (k, v')))).
    change (option_list (Some ?a) ++ ?l) with (a :: l) in He. cbn [length] in He. lia.
Qed.

Lemma rep_set_value h m j k v v' :
  Rep h m → get (buckets h) j = Some (Some (k, v)) → Rep (base_set_dirty (set_bucket j (Some (k, v')) h)) (<[k := v']> m).
Proof.
  intros HR Hj. assert (Hk : m !! k = Some v) by (apply (rep_lookup h m); eauto). destruct HR as [Hr He].
  split; [by eapply ready_dirty, ready_set_value|]. change (elems (base_set_dirty ?a)) with (elems a).
  pose proof (elems_upd h j (Some (k, v)) (Some (k, v')) Hj) as Hp. change (option_list (Some ?a) ++ ?l) with (a :: l) in Hp.
  apply (Permutation_cons_inv (a := (k, v))). rewrite <- insert_delete_eq, map_to_list_insert by apply lookup_delete_eq.
  etransitivity; [exact Hp|]. rewrite He, <- (map_to_list_delete m k v) by done. apply perm_swap.
Qed.

(** Putting a key that is not there, if it does not fail for lack of memory. *)
Definition inserted (r : Z) h h' m k v x : Prop :=
  r = 1 ∧ Rep h' (<[k := v]> m) ∨ r = -ENOMEM ∧ h' = h ∧ alloc_ok x = false.

Lemma put_new h m k v x :
  Rep h m → m !! k = None → Z.of_nat (size m) + 1 < HASHMAP_MAX →
  ∃ r h', hashmap_base_put_boldly (base_bucket_hash h k) (k, v) true x h = Some (r, h') ∧ inserted r h h' m k v x.
Proof.
  intros HR Hk Hs. pose proof (rep_size h m HR) as Hsz. pose proof HR as [Hr _].
  destruct (put_boldly_spec h (k, v) true x Hr) as (r & h' & H1 & H2); [rewrite Hsz; exact Hs|done|]. exists r, h'. split; [exact H1|].
  destruct H2 as [(-> & Hr' & He & _)|(-> & -> & _ & Ha)]; [left|right; done]. split; [done|]. by eapply rep_insert.
Qed.

Lemma remove_rep h m j k v :
  Rep h m → get (buckets h) j = Some (Some (k, v)) →
  ∃ h', base_remove_entry j h = Some h' ∧ Rep h' (delete k m) ∧ n_buckets h' = n_buckets h ∧ hash_key h' = hash_key h ∧
    ∃ s : nat, Z.of_nat s < n_buckets h ∧ shifted (unplace j h) j s h'.
Proof.
  intros HR Hj. pose proof HR as [Hr _]. destruct (remove_spec h j (k, v) Hr Hj) as (h' & H1 & H2 & H3 & H4 & H5 & _ & H6).
  exists h'. split; [done|]. split; [|done]. eapply rep_delete; [done| |done|done]. apply (rep_lookup h m); eauto.
Qed.

(** An entry that is not removed stays or moves to the bucket before. *)
Lemma shifted_entry h j (s : nat) h' i e :
  core h → 0 <= j < n_buckets h → Z.of_nat s < n_buckets h → shifted (unplace j h) j s h' → i ≠ j → get (buckets h) i = Some (Some e) →
  get (buckets h') i = Some (Some e) ∨ ∃ i', 0 <= i' < n_buckets h ∧ next_idx h i' = i ∧ get (buckets h') i' = Some (Some e).
Proof.
  intros Hc Hj Hs (H1 & H2 & H3) Hne Hi. pose proof (c_n _ Hc) as Hn. assert (Hnu : n_buckets (unplace j h) = n_buckets h) by apply n_unplace.
  assert (Hu : get (buckets (unplace j h)) i = Some (Some e)) by (cbn; by rewrite get_upd_ne by (congruence || lia)).
  destruct (decide (Exists (λ q, i = Nat.iter q (next_idx h) j) (seq 0 (S s)))) as [He|He].
  - apply Exists_exists in He as (q & Hq%elem_of_seq & ->). destruct q as [|q]; [done|]. right. exists (Nat.iter q (next_idx h) j).
    split; [apply iter_range; [lia|done]|]. split; [by rewrite Nat.iter_succ|]. rewrite <- (iter_same h (unplace j h)) by done.
    rewrite H1 by lia. by rewrite (iter_same h) by done.
  - left. rewrite H3; [done|]. intros q Hq E. apply He, Exists_exists. exists q. split; [apply elem_of_seq; lia|].
    by rewrite (iter_same h) in E by done.
Qed.

(** ** The specification *)

Inductive Op :=
  | Put (k : K) (v : V) | Replace (k : K) (v : V) | Update (k : K) (v : V)
  | Get (k : K) | Get2 (k : K) | Contains (k : K) | Size
  | Remove (k : K) | Remove2 (k : K) | RemoveValue (k : K) (v : V)
  | RemoveAndPut (old_key new_key : K) (v : V) | RemoveAndReplace (old_key new_key : K) (v : V)
  | Reserve (entries_add : Z) | Clear.

Inductive Ret := RInt (r : Z) | RValue (v : option V) | REntry (e : option (K * V)) | RBool (b : bool) | RVoid.

Definition spec (op : Op) m : Ret * gmap K V :=
  match op with
  | Put k v =>
      match m !! k with
      | Some v' => (RInt (if bool_decide (v' = v) then 0 else -EEXIST), m)
      | None => (RInt 1, <[k := v]> m)
      end
  | Replace k v => (RInt (match m !! k with Some _ => 0 | None => 1 end), <[k := v]> m)
  | Update k v => match m !! k with Some _ => (RInt 0, <[k := v]> m) | None => (RInt (-ENOENT), m) end
  | Get k => (RValue (m !! k), m)
  | Get2 k => (REntry (pair k <$> m !! k), m)
  | Contains k => (RBool (bool_decide (is_Some (m !! k))), m)
  | Size => (RInt (Z.of_nat (size m)), m)
  | Remove k => (RValue (m !! k), delete k m)
  | Remove2 k => (REntry (pair k <$> m !! k), delete k m)
  | RemoveValue k v =>
      if bool_decide (m !! k = Some v) then (RValue (Some v), delete k m) else (RValue None, m)
  | RemoveAndPut k k' v =>
      if bool_decide (m !! k = None) then (RInt (-ENOENT), m)
      else if bool_decide (m !! k' = None) then (RInt 0, <[k' := v]> (delete k m)) else (RInt (-EEXIST), m)
  | RemoveAndReplace k k' v =>
      if bool_decide (m !! k = None) then (RInt (-ENOENT), m) else (RInt 0, <[k' := v]> (delete k m))
  | Reserve _ => (RInt 0, m)
  | Clear => (RVoid, ∅)
  end.

(** The same calls on a table; [x] is what the environment provides and [key] the shared hash key. *)
Definition exec (key : list Z) (op : Op) x h : option (Ret * HashmapBase (K := K) (V := V)) :=
  match op with
  | Put k v => '(r, h) ← hashmap_put k v x h; Some (RInt r, h)
  | Replace k v => '(r, h) ← hashmap_replace k v x h; Some (RInt r, h)
  | Update k v => '(r, h) ← hashmap_update k v h; Some (RInt r, h)
  | Get k => r ← hashmap_get k h; Some (RValue r, h)
  | Get2 k => r ← hashmap_get2 k h; Some (REntry r, h)
  | Contains k => r ← hashmap_contains k h; Some (RBool r, h)
  | Size => Some (RInt (hashmap_size h), h)
  | Remove k => '(r, h) ← hashmap_remove k h; Some (RValue r, h)
  | Remove2 k => '(r, h) ← hashmap_remove2 k h; Some (REntry r, h)
  | RemoveValue k v => '(r, h) ← hashmap_remove_value k v h; Some (RValue r, h)
  | RemoveAndPut k k' v => '(r, h) ← hashmap_remove_and_put k k' v x h; Some (RInt r, h)
  | RemoveAndReplace k k' v => '(r, h) ← hashmap_remove_and_replace k k' v x h; Some (RInt r, h)
  | Reserve n => '(r, h) ← hashmap_reserve n x h; Some (RInt r, h)
  | Clear => Some (RVoid, hashmap_clear key h)
  end.

(** A step of the specification: an operation that needs memory may fail without an effect. *)
Definition step (op : Op) x m (r : Ret) m' : Prop :=
  (r, m') = spec op m ∨ alloc_ok x = false ∧ r = RInt (-ENOMEM) ∧ m' = m.

Definition small (op : Op) : Prop := match op with Reserve n => 0 <= n < 2 ^ 23 | _ => True end.

Lemma elems_new key : elems (hashmap_base_new (K := K) (V := V) key) = [].
Proof. unfold elems, hashmap_base_new, reset_storage. cbn. apply omap_replicate_None. Qed.

Lemma ready_new key d : ready (K := K) (V := V) (reset_storage (Hm [] [] key 0 false 0 d)).
Proof.
  assert (Hn : 1 <= n_direct_buckets <= 10).
  { unfold n_direct_buckets, DIRECT_STORAGE. destruct entry_size_ok as [->| ->]; by vm_compute. }
  set (h := reset_storage _). assert (Hb : n_buckets h = n_direct_buckets) by (unfold n_buckets, h, len; cbn; rewrite length_replicate; lia).
  assert (Hg : ∀ i, 0 <= i < n_direct_buckets → get (dibs h) i = Some DIB_RAW_FREE ∧ get (buckets h) i = Some None).
  { intros i Hi. unfold h. cbn. rewrite !get_replicate by lia. done. }
  assert (HD : ∀ i, 0 <= i < n_direct_buckets → DIB h i = -1) by (intros i Hi; unfold DIB, settled; by rewrite (proj1 (Hg i Hi))).
  split_and!.
  - constructor; [constructor|].
    + rewrite Hb. unfold h, len. cbn. rewrite length_replicate. lia.
    + rewrite Hb. lia.
    + intros i Hi. rewrite Hb in Hi. destruct (Hg i Hi) as [-> ->]. eexists _, _. split_and!; [done..|]. by left.
    + intros i Hi. pose proof (next_range h ltac:(rewrite Hb; lia) i Hi) as Hx. rewrite Hb in Hx, Hi. rewrite !HD by done. lia.
  - intros Hin. unfold h in Hin. cbn in Hin. apply elem_of_replicate in Hin as [? _]. done.
  - intros Hind. done.
  - exists 0. rewrite Hb. split; [lia|]. rewrite HD; lia.
  - unfold elems, h. cbn. by rewrite omap_replicate_None.
  - by rewrite Hb.
Qed.

Lemma rep_new key : Rep (hashmap_base_new key) (∅ : gmap K V).
Proof. split; [apply ready_new|]. by rewrite elems_new, map_to_list_empty. Qed.

(** ** Each operation is a step of the specification *)

Definition simulated (key : list Z) (op : Op) x h m : Prop :=
  ∃ r h' m', exec key op x h = Some (r, h') ∧ step op x m r m' ∧ Rep h' m'.

Lemma simulated_spec key op x h m r h' :
  exec key op x h = Some (r, h') → r = fst (spec op m) → Rep h' (snd (spec op m)) → simulated key op x h m.
Proof. intros He -> HR. exists (fst (spec op m)), h', (snd (spec op m)). split; [done|]. split; [|done]. left. by destruct (spec op m). Qed.

Lemma sim_lookup key op x h m k :
  Rep h m → op = Get k ∨ op = Get2 k ∨ op = Contains k → simulated key op x h m.
Proof.
  intros HR Hop. scan HR k j v Hs Hj Hk.
  - destruct Hop as [-> |[-> | ->]]; eapply simulated_spec; cbn [exec spec fst snd];
      unfold hashmap_get, hashmap_get2, hashmap_contains; rewrite ?Hs, ?Hk; done.
  - destruct Hop as [-> |[-> | ->]]; eapply simulated_spec; cbn [exec spec fst snd];
      unfold hashmap_get, hashmap_get2, hashmap_contains; rewrite ?Hs, ?Hk; cbn [mbind option_bind];
      rewrite ?(bucket_at_get _ _ _ Hj); done.
Qed.

Lemma sim_put key x h m k v : Rep h m → Z.of_nat (size m) + 1 < HASHMAP_MAX → simulated key (Put k v) x h m.
Proof.
  intros HR Hsm. scan HR k j v' Hs Hj Hk.
  - destruct (put_new h m k v x HR Hk Hsm) as (r & h' & Hp & [[-> HR']|(-> & -> & Ha)]).
    + apply (simulated_spec _ _ _ _ _ (RInt 1) h'); cbn [exec spec]; rewrite ?Hk; [|done|done]. unfold hashmap_put. look Hs Hs. by rewrite Hp.
    + exists (RInt (-ENOMEM)), h, m. split; [|split; [by right|done]]. cbn [exec]. unfold hashmap_put. look Hs Hs. by rewrite Hp.
  - eapply simulated_spec; cbn [exec spec]; rewrite ?Hk; [|done|done]. unfold hashmap_put. look Hs Hj. done.
Qed.

Lemma sim_replace key x h m k v : Rep h m → Z.of_nat (size m) + 1 < HASHMAP_MAX → simulated key (Replace k v) x h m.
Proof.
  intros HR Hsm. scan HR k j v' Hs Hj Hk.
  - destruct (put_new h m k v x HR Hk Hsm) as (r & h' & Hp & [[-> HR']|(-> & -> & Ha)]).
    + apply (simulated_spec _ _ _ _ _ (RInt 1) h'); cbn [exec spec]; rewrite ?Hk; [|done|done]. unfold hashmap_replace. look Hs Hs. by rewrite Hp.
    + exists (RInt (-ENOMEM)), h, m. split; [|split; [by right|done]]. cbn [exec]. unfold hashmap_replace. look Hs Hs. by rewrite Hp.
  - eapply simulated_spec; cbn [exec spec fst snd]; rewrite ?Hk; [|done|by eapply rep_set_value]. unfold hashmap_replace. look Hs Hs. done.
Qed.

Lemma sim_update key x h m k v : Rep h m → simulated key (Update k v) x h m.
Proof.
  intros HR. scan HR k j v' Hs Hj Hk; eapply simulated_spec; cbn [exec spec]; rewrite ?Hk; unfold hashmap_update.
  - look Hs Hs. done.
  - done.
  - done.
  - look Hs Hj. done.
  - done.
  - by eapply rep_set_value.
Qed.

Lemma sim_remove key op x h m k :
  Rep h m → op = Remove k ∨ op = Remove2 k ∨ (∃ v, op = RemoveValue k v) → simulated key op x h m.
Proof.
  intros HR Hop. scan HR k j v' Hs Hj Hk.
  - destruct Hop as [-> |[-> |[v ->]]]; eapply (simulated_spec _ _ _ _ _ _ h); cbn [exec spec fst snd];
      unfold hashmap_remove, hashmap_remove2, hashmap_remove_value; rewrite ?Hs, ?Hk, ?(delete_id m k Hk); done.
  - destruct (remove_rep h m j k v' HR Hj) as (h' & Hr & HR' & _).
    assert (Hget : bucket_at h j = Some (k, v')) by by apply bucket_at_get.
    destruct Hop as [-> |[-> |[v ->]]].
    + apply (simulated_spec _ _ _ _ _ (RValue (Some v')) h'); cbn [exec spec fst snd]; rewrite ?Hk; try done.
      unfold hashmap_remove, hashmap_remove2. rewrite Hs. cbn [mbind option_bind]. rewrite Hget. cbn [mbind option_bind]. by rewrite Hr.
    + apply (simulated_spec _ _ _ _ _ (REntry (Some (k, v'))) h'); cbn [exec spec fst snd]; rewrite ?Hk; try done.
      unfold hashmap_remove2. rewrite Hs. cbn [mbind option_bind]. rewrite Hget. cbn [mbind option_bind]. by rewrite Hr.
    + unfold simulated, step. cbn [exec spec]. unfold hashmap_remove_value. rewrite Hs, Hk. cbn [mbind option_bind]. rewrite Hget.
      cbn [mbind option_bind snd]. destruct (decide (v' = v)) as [-> |Hne].
      * rewrite !bool_decide_true, Hr by done. eexists _, h', _. split; [reflexivity|]. split; [by left|done].
      * rewrite !bool_decide_false by congruence. eexists _, h, _. split; [reflexivity|]. split; [by left|done].
Qed.

(** Putting into the bucket that a removal freed. *)
Lemma put_after_removal h h0 m k v x :
  Rep h m → m !! k = None → n_buckets h = n_buckets h0 → hash_key h = hash_key h0 →
  n_entries h < n_buckets h → Z.of_nat (size m) + 1 < HASHMAP_MAX →
  ∃ h', hashmap_base_put_boldly (base_bucket_hash h0 k) (k, v) false x h = Some (1, h') ∧ Rep h' (<[k := v]> m) ∧ n_buckets h' = n_buckets h.
Proof.
  intros HR Hk Hn Hkey Hroom Hs. pose proof HR as [Hr _]. pose proof (rep_size h m HR) as Hsz.
  destruct (put_boldly_spec h (k, v) false x Hr ltac:(rewrite Hsz; exact Hs) ltac:(done)) as (r & h' & H1 & [(-> & Hr' & He & Hnb)|(_ & _ & ? & _)]); [|done].
  exists h'. split; [|split; [by eapply rep_insert|by apply Hnb]]. unfold home in H1. cbn [fst] in H1. unfold base_bucket_hash in *. by rewrite <- Hn, <- Hkey.
Qed.

Lemma rep_le h m : Rep h m → Z.of_nat (size m) <= n_buckets h.
Proof. intros HR. rewrite <- (rep_size h m HR). pose proof HR as [(Hc & _ & _ & _ & -> & _) _]. by apply elems_le. Qed.

Lemma size_delete_lt m k v : m !! k = Some v → Z.of_nat (size (delete k m)) + 1 = Z.of_nat (size m).
Proof.
  intros Hk. pose proof (map_size_insert_None k v (delete k m) ltac:(apply lookup_delete_eq)) as H. rewrite insert_delete_eq, insert_id in H by done. lia.
Qed.

(** Removing [k] and then putting [k'] in its place. *)
Lemma replace_removed h h0 m0 m j k w k' v x :
  Rep h m → get (buckets h) j = Some (Some (k, w)) → delete k m = delete k' (delete k m0) → Rep h0 m0 → n_buckets h = n_buckets h0 →
  hash_key h = hash_key h0 → Z.of_nat (size m) + 1 < HASHMAP_MAX →
  ∃ h1 h', base_remove_entry j h = Some h1 ∧ hashmap_base_put_boldly (base_bucket_hash h0 k') (k', v) false x h1 = Some (1, h') ∧
    Rep h' (<[k' := v]> (delete k m0)).
Proof.
  intros HR Hj Hm HR0 Hn Hkey Hs. destruct (remove_rep h m j k w HR Hj) as (h1 & Hr1 & HR1 & Hn1 & Hk1 & _).
  assert (Hk : m !! k = Some w) by (apply (rep_lookup h m); eauto). pose proof (size_delete_lt m k w Hk) as Hsz. pose proof (rep_le h m HR) as Hle.
  destruct (put_after_removal h1 h0 (delete k m) k' v x HR1) as (h' & Hp & HR' & _).
  - rewrite Hm. apply lookup_delete_eq.
  - congruence.
  - congruence.
  - rewrite (rep_size _ _ HR1), Hn1. lia.
  - lia.
  - exists h1, h'. split; [done|]. split; [done|]. by rewrite Hm, insert_delete_eq in HR'.
Qed.

Lemma sim_remove_and_put key x h m k k' v :
  Rep h m → Z.of_nat (size m) + 1 < HASHMAP_MAX → simulated key (RemoveAndPut k k' v) x h m.
Proof.
  intros HR Hsm. unfold simulated, step. cbn [exec spec]. unfold hashmap_remove_and_put.
  scan HR k j w Hs Hj Hk; rewrite Hs, Hk; cbn [mbind option_bind].
  { rewrite bool_decide_true by done. eexists _, h, _. split; [reflexivity|]. split; [by left|done]. }
  rewrite bool_decide_false by done.
  scan HR k' j' w' Hs' Hj' Hk'; unfold bucket_scan in Hs'; rewrite Hs', Hk'; cbn [mbind option_bind].
  - rewrite bool_decide_false, bool_decide_true by congruence. cbn [negb].
    destruct (replace_removed h h m m j k w k' v x) as (h1 & h' & -> & Hp & HR'); try done.
    { rewrite (delete_id _ k'); [done|]. by rewrite lookup_delete_ne by congruence. }
    cbn [mbind option_bind]. rewrite Hp. cbn [mbind option_bind]. rewrite assert_bind by done. eexists _, h', _. split; [reflexivity|]. split; [by left|done].
  - rewrite bool_decide_true, bool_decide_false by congruence. eexists _, h, _. split; [reflexivity|]. split; [by left|done].
Qed.

(** After the removal of another entry the old one is at its index or the one before. *)
Lemma old_entry h m j j' k w k' w' h' :
  Rep h m → get (buckets h) j = Some (Some (k, w)) → get (buckets h) j' = Some (Some (k', w')) → j ≠ j' → base_remove_entry j' h = Some h' →
  ∃ i, i = (if bool_decide (fst <$> bucket_at h' j = Some k) then j else prev_idx h' j) ∧ get (buckets h') i = Some (Some (k, w)).
Proof.
  intros HR Hj Hj' Hne Hrm. pose proof HR as [(Hc & _) _]. destruct (remove_rep h m j' k' w' HR Hj') as (h1 & Hr1 & HR1 & Hn1 & _ & s & Hs & Hsh).
  rewrite Hrm in Hr1. injection Hr1 as <-. pose proof (bucket_index _ _ _ Hc Hj) as Hir. pose proof (bucket_index _ _ _ Hc Hj') as Hir'.
  assert (Hkm : delete k' m !! k = Some w → ∀ i b, get (buckets h') i = Some b → fst <$> b = Some k → b = Some (k, w)).
  { intros Hl i b Hi Hb. destruct b as [[k1 w1]|]; [|done]. cbn in Hb. injection Hb as ->. assert (delete k' m !! k = Some w1) by (apply (rep_lookup h'); eauto). congruence. }
  destruct (shifted_entry h j' s h' j (k, w) Hc Hir' Hs Hsh ltac:(done) Hj) as [Hg|(i & Hi & Hnx & Hg)].
  - exists j. rewrite bool_decide_true by (by rewrite (bucket_at_get _ _ _ Hg)). done.
  - assert (Hl : delete k' m !! k = Some w) by (apply (rep_lookup h'); eauto).
    destruct (decide (fst <$> bucket_at h' j = Some k)) as [Hb|Hb].
    + exists j. rewrite bool_decide_true by done. split; [done|]. destruct (get (buckets h') j) as [b|] eqn:E.
      * rewrite (bucket_at_get _ _ _ E) in Hb. by rewrite (Hkm Hl j b E Hb).
      * unfold bucket_at in Hb. rewrite E in Hb. done.
    + exists i. rewrite bool_decide_false by done. split; [|done]. subst j. rewrite <- (next_same h h') by done. symmetry. apply prev_next; rewrite Hn1; [apply (c_n _ Hc)|done].
Qed.

Lemma sim_remove_and_replace key x h m k k' v :
  Rep h m → Z.of_nat (size m) + 1 < HASHMAP_MAX → simulated key (RemoveAndReplace k k' v) x h m.
Proof.
  intros HR Hsm. unfold simulated, step. cbn [exec spec]. unfold hashmap_remove_and_replace.
  scan HR k j w Hs Hj Hk; rewrite Hs, Hk; cbn [mbind option_bind].
  { rewrite bool_decide_true by done. eexists _, h, _. split; [reflexivity|]. split; [by left|done]. }
  rewrite bool_decide_false by done. rewrite (bucket_at_get _ _ _ Hj). cbn [mbind option_bind fst].
  enough (∃ h1 i, (idx_new ← base_bucket_scan h (base_bucket_hash h k') k';
     match idx_new with
     | Some idx_new =>
         if negb (j =? idx_new) then
           h0 ← base_remove_entry idx_new h;
           let idx_old := if bool_decide (fst <$> bucket_at h0 j = Some k) then j else prev_idx h0 j in
           assert_ (bool_decide (fst <$> bucket_at h0 idx_old = Some k));; Some (h0, idx_old)
         else Some (h, j)
     | None => Some (h, j)
     end) = Some (h1, i) ∧ ∃ m1, Rep h1 m1 ∧ get (buckets h1) i = Some (Some (k, w)) ∧ delete k m1 = delete k' (delete k m) ∧
       n_buckets h1 = n_buckets h ∧ hash_key h1 = hash_key h ∧ (size m1 <= size m)%nat) as (h1 & i & He & m1 & HR1 & Hi & Hm & Hn & Hkey & Hsz).
  - destruct (base_bucket_scan h (base_bucket_hash h k') k') as [idx_new|]; [|done]. cbn [mbind option_bind] in He |- *. cbn zeta in He |- *. rewrite He.
    cbn [mbind option_bind]. destruct (replace_removed h1 h m m1 i k w k' v x) as (h2 & h' & -> & Hp & HR'); try done; [lia|].
    cbn [mbind option_bind]. rewrite Hp. cbn [mbind option_bind]. rewrite assert_bind by done. eexists _, h', _. split; [reflexivity|]. split; [by left|done].
  - scan HR k' j' w' Hs' Hj' Hk'; unfold bucket_scan in Hs'; rewrite Hs'; cbn [mbind option_bind].
    + exists h, j. split; [done|]. exists m. split_and!; try done. symmetry. apply delete_id. rewrite lookup_delete_ne by congruence. done.
    + destruct (Z.eqb_spec j j') as [<-|Hne]; cbn [negb].
      * exists h, j. split; [done|]. exists m. split_and!; try done. assert (k' = k) as -> by congruence. symmetry. apply delete_id, lookup_delete_eq.
      * destruct (remove_rep h m j' k' w' HR Hj') as (h1 & Hr1 & HR1 & Hn1 & Hk1 & _). rewrite Hr1. cbn [mbind option_bind]. cbn zeta.
        destruct (old_entry h m j j' k w k' w' h1 HR Hj Hj' Hne Hr1) as (i & <- & Hi). rewrite assert_bind.
        2:{ rewrite (bucket_at_get _ _ _ Hi). by apply bool_decide_eq_true_2. }
        exists h1, i. split; [done|]. exists (delete k' m). split_and!; try done; [apply delete_delete|]. pose proof (size_delete_lt m k' w' Hk'). lia.
Qed.

Lemma sim_reserve key x h m (n : Z) :
  Rep h m → 0 <= n < 2 ^ 23 → Z.of_nat (size m) + 2 ^ 23 < HASHMAP_MAX → simulated key (Reserve n) x h m.
Proof.
  intros HR Hn Hsm. pose proof HR as [Hr He]. pose proof (rep_size h m HR) as Hsz. unfold HASHMAP_MAX in Hsm.
  destruct (resize_spec h n x Hr) as (r & h' & Hre & Hr' & He' & Hcase); [lia|rewrite Hsz; lia|].
  unfold simulated, step. cbn [exec spec]. unfold hashmap_reserve. rewrite Hre. cbn [mbind option_bind].
  destruct Hcase as [(Hneg & -> & -> & Ha)|(Hr01 & _)].
  - eexists _, h, m. split; [reflexivity|]. split; [|done]. by right.
  - eexists _, h', m. split; [reflexivity|]. split; [left|split; [done|by rewrite He']]. by destruct Hr01 as [[-> _]| ->].
Qed.

Lemma simulation key op x h m :
  Rep h m → small op → Z.of_nat (size m) + 2 ^ 23 < HASHMAP_MAX → simulated key op x h m.
Proof.
  intros HR Hop Hs. assert (Hs1 : Z.of_nat (size m) + 1 < HASHMAP_MAX) by lia. destruct op as [k v|k v|k v|k|k|k| |k|k|k v|k k' v|k k' v|n|].
  - by apply sim_put.
  - by apply sim_replace.
  - by apply sim_update.
  - eapply sim_lookup; eauto.
  - eapply sim_lookup; eauto.
  - eapply sim_lookup; eauto.
  - eapply (simulated_spec _ _ _ _ _ _ h); cbn [exec spec]; [done| |done]. unfold hashmap_size. cbn. f_equal. by apply rep_size.
  - eapply (sim_remove key _ x h m k); [done|]. by left.
  - eapply (sim_remove key _ x h m k); [done|]. by right; left.
  - eapply (sim_remove key _ x h m k); [done|]. right; right. by eexists.
  - by apply sim_remove_and_put.
  - by apply sim_remove_and_replace.
  - by apply sim_reserve.
  - eapply (simulated_spec _ _ _ _ _ _ _); cbn [exec spec]; [reflexivity|done|]. cbn [snd]. split; [apply ready_dirty, ready_new|].
    rewrite map_to_list_empty. change (elems (hashmap_base_new (K := K) (V := V) key) ≡ₚ []). by rewrite elems_new.
Qed.

(** ** Sequences of operations *)

Fixpoint exec_all (key : list Z) (ops : list (Op * Ext)) h : option (list Ret * HashmapBase (K := K) (V := V)) :=
  match ops with
  | [] => Some ([], h)
  | (op, x) :: ops =>
      '(r, h) ← exec key op x h;
      '(rs, h) ← exec_all key ops h;
      Some (r :: rs, h)
  end.

Inductive runs : list (Op * Ext) → gmap K V → list Ret → gmap K V → Prop :=
  | runs_nil m : runs [] m [] m
  | runs_cons op x ops m r m1 rs m2 : step op x m r m1 → runs ops m1 rs m2 → runs ((op, x) :: ops) m (r :: rs) m2.

Lemma size_insert_le m k v : (size (<[k := v]> m) <= S (size m))%nat.
Proof. destruct (m !! k) eqn:E; [rewrite map_size_insert_Some by eauto|rewrite map_size_insert_None by done]; lia. Qed.

Lemma size_delete_le m k : (size (delete k m) <= size m)%nat.
Proof. rewrite map_size_delete. destruct (m !! k); cbn; lia. Qed.

Lemma spec_size op m : (size (snd (spec op m)) <= S (size m))%nat.
Proof.
  destruct op as [k v|k v|k v|k|k|k| |k|k|k v|k k' v|k k' v|n|]; cbn [spec snd]; repeat (case_bool_decide || case_match); cbn [snd];
    solve [lia | apply size_insert_le | etransitivity; [apply size_insert_le|apply le_n_S, size_delete_le]
          | etransitivity; [apply size_delete_le|lia] | rewrite map_size_empty; lia].
Qed.

Lemma runs_from key ops h m :
  Rep h m → Forall (λ o, small (fst o)) ops → Z.of_nat (size m) + len ops + 2 ^ 23 < HASHMAP_MAX →
  ∃ rs h' m', exec_all key ops h = Some (rs, h') ∧ runs ops m rs m' ∧ Rep h' m'.
Proof.
  revert h m. induction ops as [|[op x] ops IH]; intros h m HR Hsm Hs.
  - exists [], h, m. split; [done|]. split; [constructor|done].
  - apply Forall_cons in Hsm as [Hop Hsm]. rewrite len_cons in Hs. pose proof (len_nonneg ops) as H0.
    destruct (simulation key op x h m HR Hop ltac:(lia)) as (r & h1 & m1 & He & Hst & HR1).
    assert (Hsz : (size m1 <= S (size m))%nat).
    { destruct Hst as [Heq|(_ & _ & ->)]; [|lia]. pose proof (spec_size op m) as Hle. rewrite <- Heq in Hle. exact Hle. }
    destruct (IH h1 m1 HR1 Hsm ltac:(lia)) as (rs & h2 & m2 & He2 & Hru & HR2).
    exists (r :: rs), h2, m2. cbn [exec_all]. rewrite He. cbn [mbind option_bind]. rewrite He2. split; [done|]. split; [by econstructor|done].
Qed.

(** C10: A hash table behaves as a finite map: any sequence of fewer than 2^23 calls of the
    operations of hashmap.h on a new table, each with its own outcome of memory allocation and
    its own random hash key, runs without a failed assertion, an access out of bounds or a loop
    that does not end; every call returns what the finite map gives for it and changes the
    table as it changes the map, or fails with -ENOMEM and no effect where the allocation fails. *)
Theorem hashmap_refines_map key ops :
  Forall (λ o, small (fst o)) ops → len ops < 2 ^ 23 →
  ∃ rs h m, exec_all key ops (hashmap_base_new key) = Some (rs, h) ∧ runs ops ∅ rs m ∧ Rep h m.
Proof. intros Hsm Hlen. apply runs_from; [apply rep_new|done|]. unfold HASHMAP_MAX. rewrite map_size_empty. lia. Qed.
End Refine.

(** ** A table of strings *)

#[export] Instance plain_hashmap_entry : EntryType := { entry_size := 16; entry_size_ok := or_intror eq_refl }.

Definition no_memory : Ext := MkExt [] false.
Definition memory (n : Z) : Ext := MkExt (replicate 16 n) true.

(** A failed and a successful resize, a put of a key that is there, removals. *)
Definition string_calls : list (Op (K := list Z) (V := Z) * Ext) :=
  [(Put [97] 1, no_memory); (Put [98] 2, no_memory); (Put [99; 97] 3, no_memory); (Put [97] 4, no_memory);
   (RemoveAndPut [98] [99] 5, no_memory); (Reserve 40, memory 7); (Put [100] 6, no_memory); (Get [97], no_memory);
   (RemoveAndReplace [97] [99] 8, no_memory); (Remove [99; 97], no_memory); (Contains [97], no_memory); (Size, no_memory)].

Example string_calls_run :
  fst <$> exec_all (replicate 16 3) string_calls (hashmap_base_new (replicate 16 3)) =
  Some [RInt 1; RInt 1; RInt (-ENOMEM); RInt (-EEXIST); RInt 0; RInt 0; RInt 1; RValue (Some 1); RInt 0; RValue None; RBool false; RInt 2].
Proof. by vm_compute. Qed.

Lemma hashmap_refines_map_witness :
  ∃ rs h m, exec_all (replicate 16 3) string_calls (hashmap_base_new (replicate 16 3)) = Some (rs, h) ∧ runs string_calls ∅ rs m ∧ Rep h m.
Proof. apply hashmap_refines_map; [by repeat constructor|by vm_compute]. Defined.
