(* ===== verification/HashmapIter.v ===== *)
(** * Iteration over hash tables (src/basic/hashmap.c)

    [HASHMAP_FOREACH] walks over the buckets; its body may remove the current entry, which moves
    the entries after it one bucket back. What the loop visits, that it ends, and what is left. *)

From S2P Require Import Prelude Hashmap HashmapInv HashmapMap.

Section Iter.
Context {K V : Type} `{!EqDecision K, !Countable K, !EqDecision V, HO : !HashOps K, ET : EntryType}.
Implicit Types (h : HashmapBase (K := K) (V := V)) (m : gmap K V) (e : K * V).

(** [e] is in bucket [j]. *)
Definition at_ h (j : Z) e : Prop := get (buckets h) j = Some (Some e).

Lemma skip_free_spec (ds : list Z) (i : Z) :
  (skip_free ds i = IDX_NIL ∧ ∀ j d, get ds j = Some d → d = DIB_RAW_FREE) ∨
  ∃ j d, skip_free ds i = i + j ∧ get ds j = Some d ∧ d ≠ DIB_RAW_FREE ∧ ∀ j' d', 0 <= j' < j → get ds j' = Some d' → d' = DIB_RAW_FREE.
Proof.
  assert (Hcons : ∀ (a : Z) l j, get (a :: l) j = if decide (j = 0) then Some a else get l (j - 1)).
  { intros a l j. unfold get. destruct (Z.leb_spec 0 j), (Z.leb_spec 0 (j - 1)); case_decide; try lia; try done.
    - replace (Z.to_nat j) with (S (Z.to_nat (j - 1))) by lia. done.
    - by subst. }
  revert i. induction ds as [|d ds IH]; intros i; cbn [skip_free]; [left; split; [done|]; intros j d; by rewrite get_nil|].
  destruct (Z.eqb_spec d DIB_RAW_FREE) as [-> |Hd]; cbn [negb].
  - destruct (IH (i + 1)) as [[Hs Hall]|(j & d & Hs & Hj & Hd & Hmin)].
    + left. split; [done|]. intros j d. rewrite Hcons. case_decide; [congruence|apply Hall].
    + right. pose proof (get_Some_range _ _ _ Hj). exists (j + 1), d. split; [lia|]. rewrite Hcons, decide_False by lia. replace (j + 1 - 1) with j by lia.
      split; [done|]. split; [done|]. intros j' d' Hj'. rewrite Hcons. case_decide; [congruence|]. apply Hmin. lia.
  - right. exists 0, d. split; [lia|]. rewrite Hcons, decide_True by done. split; [done|]. split; [done|]. lia.
Qed.

Lemma get_drop {A} (l : list A) (i j : Z) : 0 <= i → 0 <= j → get (drop (Z.to_nat i) l) j = get l (i + j).
Proof. intros Hi Hj. unfold get. rewrite !(proj2 (Z.leb_le _ _)) by lia. rewrite lookup_drop. f_equal. lia. Qed.

(** A bucket is in use if and only if its DIB is not that of a free one. *)
Lemma in_use h j d :
  ready h → get (dibs h) j = Some d → (d = DIB_RAW_FREE ∧ get (buckets h) j = Some None) ∨ (d ≠ DIB_RAW_FREE ∧ ∃ e, at_ h j e).
Proof.
  intros (Hc & Hp & _) Hd. pose proof (get_Some_range _ _ _ Hd) as Hr.
  destruct (view_ready h j (c_shape _ Hc) Hp Hr) as [(Hd' & Hb & _)|(e & raw & Hd' & Hnf & _ & Hb & _)]; [left|right]; (split; [congruence|]); [done|by exists e].
Qed.

Lemma at_range h j e : ready h → at_ h j e → 0 <= j < n_buckets h.
Proof. intros (Hc & _) Hj. by eapply bucket_index. Qed.

Lemma at_dib h j e : ready h → at_ h j e → ∃ d, get (dibs h) j = Some d ∧ d ≠ DIB_RAW_FREE.
Proof.
  intros Hr Hj. pose proof (at_range h j e Hr Hj) as Hrg. destruct (get_is_Some (dibs h) j Hrg) as [d Hd]. exists d. split; [done|].
  destruct (in_use h j d Hr Hd) as [[_ Hn]|[? _]]; [|done]. unfold at_ in Hj. congruence.
Qed.

(** The next entry from bucket [i] on. *)
Lemma skip_buckets_spec h i :
  ready h → 0 <= i →
  (skip_free_buckets h i = IDX_NIL ∧ ∀ j e, at_ h j e → j < i) ∨
  ∃ j e, skip_free_buckets h i = j ∧ i <= j < n_buckets h ∧ at_ h j e ∧ ∀ j' e', at_ h j' e' → i <= j' → j <= j'.
Proof.
  intros Hr Hi. unfold skip_free_buckets. destruct (skip_free_spec (drop (Z.to_nat i) (dibs h)) i) as [[Hs Hall]|(j & d & Hs & Hj & Hd & Hmin)].
  - left. split; [done|]. intros j e He. destruct (at_dib h j e Hr He) as (d & Hd & Hnf). destruct (decide (j < i)) as [|Hge]; [done|]. exfalso.
    apply Hnf, (Hall (j - i)). rewrite get_drop by lia. by replace (i + (j - i)) with j by lia.
  - right. pose proof (get_Some_range _ _ _ Hj) as Hjr. rewrite get_drop in Hj by lia. destruct (in_use h (i + j) d Hr Hj) as [[? _]|[_ [e He]]]; [done|].
    exists (i + j), e. split; [done|]. split; [pose proof (at_range h _ e Hr He); lia|]. split; [done|]. intros j' e' He' Hge.
    destruct (decide (i + j <= j')) as [|Hlt]; [done|]. exfalso. destruct (at_dib h j' e' Hr He') as (d' & Hd' & Hnf).
    apply Hnf, (Hmin (j' - i)); [lia|]. rewrite get_drop by lia. by replace (i + (j' - i)) with j' by lia.
Qed.

Lemma ready_n h : ready h → 1 <= n_buckets h <= 2 ^ 28.
Proof. intros (Hc & _). apply (c_n _ Hc). Qed.

(** A key is in one bucket. *)
Lemma at_inj h m i j k v w : Rep h m → at_ h i (k, v) → at_ h j (k, w) → i = j.
Proof.
  intros [_ He] Hi Hj. assert (Hnd : NoDup (elems h).*1) by (rewrite He; apply NoDup_fst_map_to_list). unfold at_, elems in *. clear He.
  revert i j Hi Hj Hnd. induction (buckets h) as [|b bs IH]; intros i j Hi Hj Hnd; [by rewrite get_nil in Hi|].
  assert (Hcons : ∀ x e, get (b :: bs) x = Some (Some e) → x = 0 ∧ b = Some e ∨ get bs (x - 1) = Some (Some e)).
  { intros x e Hx. pose proof (get_Some_range _ _ _ Hx). unfold get in *. destruct (Z.leb_spec 0 x); [|lia].
    destruct (decide (x = 0)) as [-> |]; [left; cbn in Hx; by injection Hx as ->|right].
    rewrite (proj2 (Z.leb_le 0 (x - 1))) by lia. replace (Z.to_nat x) with (S (Z.to_nat (x - 1))) in Hx by lia. done. }
  assert (Hin : ∀ x u, get bs x = Some (Some (k, u)) → k ∈ (omap id bs).*1).
  { intros x u Hx. apply list_elem_of_fmap. exists (k, u). split; [done|]. apply list_elem_of_omap. exists (Some (k, u)). split; [by eapply get_elem_of|done]. }
  destruct (Hcons _ _ Hi) as [[-> Hb]|Hi'], (Hcons _ _ Hj) as [[-> Hb']|Hj']; [done| | |].
  - subst b. cbn in Hnd. apply NoDup_cons in Hnd as [Hnin _]. destruct Hnin. by eapply Hin.
  - subst b. cbn in Hnd. apply NoDup_cons in Hnd as [Hnin _]. destruct Hnin. by eapply Hin.
  - assert (i - 1 = j - 1); [|lia]. apply IH; [done|done|]. destruct b; cbn in Hnd; [by apply NoDup_cons in Hnd as [_ ?]|done].
Qed.

(** ** The walk *)

Lemma at_bucket h j e : at_ h j e → bucket_at h j = Some e.
Proof. apply bucket_at_get. Qed.

Lemma at_lookup h m k v : Rep h m → m !! k = Some v ↔ ∃ j, at_ h j (k, v).
Proof. apply rep_lookup. Qed.

(** The iterator [i] is at the entry of bucket [pos], or at the end. *)
Definition points h (i : Iterator) (pos : Z) : Prop :=
  it_idx i = IDX_NIL ∧ pos = n_buckets h ∨
  ∃ p k v, i = It p (Some k) ∧ 0 < p < n_buckets h ∧ at_ h pos (k, v) ∧ (p = pos ∨ p = pos + 1).

Lemma iterate_from_spec h m idx e i :
  Rep h m → at_ h idx e →
  ∃ i', iterate_from idx h i = Some (idx, h, i') ∧
    (it_idx i' = IDX_NIL ∧ (∀ j e', at_ h j e' → j <= idx) ∨
     ∃ nxt e1, i' = It nxt (Some (fst e1)) ∧ idx < nxt < n_buckets h ∧ at_ h nxt e1 ∧ ∀ j e', at_ h j e' → idx < j → nxt <= j).
Proof.
  intros [Hr _] He. pose proof (at_range h idx e Hr He) as Hrg. pose proof (ready_n h Hr) as Hn. unfold iterate_from.
  destruct (skip_buckets_spec h (idx + 1) Hr ltac:(lia)) as [[-> Hall]|(j & e1 & -> & Hj & He1 & Hmin)].
  - eexists. split; [reflexivity|]. left. split; [done|]. intros j e' Hj. specialize (Hall j e' Hj). lia.
  - destruct (Z.eqb_spec j IDX_NIL) as [E|_]; [unfold IDX_NIL, UINT_MAX in E; lia|]. cbn [negb]. rewrite (at_bucket _ _ _ He1). cbn [mbind option_bind].
    eexists. split; [reflexivity|]. right. exists j, e1. split; [done|]. split; [lia|]. split; [done|]. intros j' e' Hj' Hlt. eapply Hmin; [done|lia].
Qed.

Lemma iterate_points h m i pos :
  Rep h m → points h i pos → pos < n_buckets h → hashmap_iterate_in_internal_order h i = iterate_from pos h i ∧ ∃ e, at_ h pos e.
Proof.
  intros HR [[_ ->]|(p & k & v & -> & Hp & Hk & Hpos)] Hlt; [lia|]. split; [|by exists (k, v)]. pose proof HR as [Hr _]. pose proof (ready_n h Hr) as Hn.
  unfold hashmap_iterate_in_internal_order. cbn [it_idx next_key].
  destruct (Z.eqb_spec p IDX_NIL) as [E|_]; [unfold IDX_NIL, UINT_MAX in E; lia|]. destruct (Z.eqb_spec p IDX_FIRST) as [E|_]; [unfold IDX_FIRST, UINT_MAX in E; lia|].
  rewrite assert_bind by lia. cbn zeta. assert ((if bool_decide (fst <$> bucket_at h p = Some k) then p else p - 1) = pos) as ->.
  { destruct Hpos as [-> | ->]; [by rewrite (at_bucket _ _ _ Hk), bool_decide_true|]. rewrite bool_decide_false; [lia|]. intros Hkey.
    destruct (bucket_at h (pos + 1)) as [[k' w]|] eqn:E; [|done]. cbn in Hkey. injection Hkey as ->. unfold bucket_at in E.
    destruct (get (buckets h) (pos + 1)) as [b|] eqn:E'; [|done]. cbn in E. subst b. pose proof (at_inj h m (pos + 1) pos k w v HR E' Hk). lia. }
  rewrite assert_bind; [done|]. rewrite (at_bucket _ _ _ Hk). by apply bool_decide_eq_true_2.
Qed.

(** The first entry, with which [idx_lowest_entry] is brought up to date. *)
Lemma lowest_rep h m l :
  Rep h m → (∀ j e, at_ h j e → l <= j) → 0 <= l → Rep (set_lowest l h) m.
Proof.
  intros [Hr He] Hlow Hl. split; [|done]. pose proof Hr as ([[? ? ?] ?] & Hp & _ & ? & ? & ?). split_and!; try done. intros _. split; [done|].
  intros j Hj Hlt. destruct (get_is_Some (dibs h) j Hj) as [d Hd]. change (get (dibs h) j = Some DIB_RAW_FREE).
  destruct (in_use h j d Hr Hd) as [[-> _]|[_ [e Hat]]]; [done|]. specialize (Hlow j e Hat). cbn in Hlt. lia.
Qed.

Lemma first_spec h m :
  Rep h m →
  ∃ h', Rep h' m ∧ n_buckets h' = n_buckets h ∧
    (hashmap_iterate_in_internal_order h ITERATOR_FIRST = Some (IDX_NIL, h', It IDX_NIL None) ∧ m = ∅ ∨
     ∃ pos e, hashmap_iterate_in_internal_order h ITERATOR_FIRST = iterate_from pos h' ITERATOR_FIRST ∧ at_ h' pos e ∧ ∀ j e', at_ h' j e' → pos <= j).
Proof.
  intros HR. pose proof HR as [Hr _]. pose proof (ready_n h Hr) as Hn. unfold hashmap_iterate_in_internal_order. cbn [it_idx next_key ITERATOR_FIRST].
  change (IDX_FIRST =? IDX_NIL) with false. rewrite Z.eqb_refl. cbn zeta.
  set (from := if has_indirect h then idx_lowest_entry h else 0).
  assert (Hfrom : 0 <= from ∧ ∀ j e, at_ h j e → from <= j).
  { unfold from. destruct (has_indirect h) eqn:Hind; [|split; [done|]; intros j e Hj; by destruct (at_range h j e Hr Hj)].
    pose proof Hr as (_ & _ & Hlow & _). destruct (Hlow Hind) as [H0 Hfree]. split; [done|]. intros j e Hj. destruct (decide (idx_lowest_entry h <= j)) as [|Hlt]; [done|].
    pose proof (at_range h j e Hr Hj). destruct (at_dib h j e Hr Hj) as (d & Hd & Hnf). rewrite Hfree in Hd by lia. congruence. }
  destruct Hfrom as [H0 Hbelow]. assert ((if has_indirect h then skip_free_buckets h (idx_lowest_entry h) else skip_free_buckets h 0) = skip_free_buckets h from) as ->.
  { unfold from. by destruct (has_indirect h). }
  assert (Hset : ∀ l, (∀ j e, at_ h j e → l <= j) → 0 <= l → ∃ h', (if has_indirect h then set_lowest l h else h) = h' ∧ Rep h' m ∧ n_buckets h' = n_buckets h ∧ buckets h' = buckets h).
  { intros l Hl Hl0. destruct (has_indirect h); eexists; (split; [reflexivity|]); [|done]. split; [by apply lowest_rep|done]. }
  destruct (skip_buckets_spec h from Hr H0) as [[-> Hall]|(pos & e & -> & Hpos & He & Hmin)].
  - destruct (Hset IDX_NIL) as (h' & -> & HR' & Hn' & _); [|done|].
    { intros j e Hj. specialize (Hall j e Hj). specialize (Hbelow j e Hj). lia. }
    exists h'. split; [done|]. split; [done|]. left. split; [done|]. apply map_empty. intros k. destruct (m !! k) as [v|] eqn:E; [|done].
    apply (at_lookup h m) in E as [j Hj]; [|done]. specialize (Hall j _ Hj). specialize (Hbelow j _ Hj). lia.
  - destruct (Hset pos) as (h' & -> & HR' & Hn' & Hb'); [|lia|].
    { intros j e' Hj. eapply Hmin; [done|]. by eapply Hbelow. }
    exists h'. split; [done|]. split; [done|]. right. exists pos, e. unfold at_. rewrite Hb'.
    destruct (Z.eqb_spec pos IDX_NIL) as [E|_]; [unfold IDX_NIL, UINT_MAX in E; lia|]. split; [done|]. split; [done|].
    intros j e' Hj. eapply Hmin; [done|]. by eapply Hbelow.
Qed.

Section Walk.
Context (p : K * V → bool) (m0 : gmap K V).
Implicit Types (visited : list (K * V)).

(** What is left of the map when [visited] was visited. *)
Definition left_of visited : gmap K V := filter (λ e, ¬ (p e = true ∧ e ∈ visited)) m0.

(** The state of the loop before the entry at [pos] is visited. *)
Record walked h (pos : Z) visited : Prop := {
  w_rep : Rep h (left_of visited);
  w_sub e : e ∈ visited → m0 !! fst e = Some (snd e);
  w_rest j e : at_ h j e → e ∉ visited → pos <= j;
  w_once : (∀ e, p e = false) → NoDup visited ∧ ∀ j e, at_ h j e → e ∈ visited → j < pos }.

Lemma left_lookup visited k v : left_of visited !! k = Some v ↔ m0 !! k = Some v ∧ ¬ (p (k, v) = true ∧ (k, v) ∈ visited).
Proof. unfold left_of. by rewrite map_lookup_filter_Some. Qed.

Lemma at_left h visited j e : Rep h (left_of visited) → at_ h j e → m0 !! fst e = Some (snd e) ∧ ¬ (p e = true ∧ e ∈ visited).
Proof. destruct e as [k v]. intros HR Hj. apply left_lookup. apply (at_lookup h); eauto. Qed.

Lemma left_kept visited e : p e = false → left_of (visited ++ [e]) = left_of visited.
Proof.
  intros Hp. apply map_filter_ext. intros k v _. rewrite elem_of_app, list_elem_of_singleton. split; intros Hn [H1 H2]; apply Hn; split; auto.
  destruct H2 as [|H2]; [done|subst e; congruence].
Qed.

Lemma left_removed visited e : p e = true → m0 !! fst e = Some (snd e) → delete (fst e) (left_of visited) = left_of (visited ++ [e]).
Proof.
  intros Hp He. destruct e as [k v]. cbn in *. apply map_eq. intros k'. apply option_eq. intros v'. rewrite lookup_delete_Some, !left_lookup.
  rewrite elem_of_app, list_elem_of_singleton. split.
  - intros (Hne & Hm & Hn). split; [done|]. intros [H1 [H2|H2]]; [by apply Hn|]. congruence.
  - intros [Hm Hn]. split; [|split; [done|naive_solver]]. intros ->. apply Hn. assert (v' = v) as -> by congruence. auto.
Qed.

(** What [iterate_from] leaves in the iterator when it visits [pos]. *)
Definition ahead h (i : Iterator) (pos : Z) : Prop :=
  it_idx i = IDX_NIL ∧ (∀ j e', at_ h j e' → j <= pos) ∨
  ∃ nxt e1, i = It nxt (Some (fst e1)) ∧ pos < nxt < n_buckets h ∧ at_ h nxt e1 ∧ ∀ j e', at_ h j e' → pos < j → nxt <= j.

Definition measure h (pos : Z) : Z := n_buckets h - pos + n_entries h.

Lemma body_keeps h pos visited e i :
  walked h pos visited → at_ h pos e → p e = false → ahead h i pos →
  ∃ pos', walked h pos' (visited ++ [e]) ∧ points h i pos' ∧ pos < pos' <= n_buckets h.
Proof.
  intros [HR Hsub Hrest Honce] He Hp Hah. pose proof HR as [Hr _]. pose proof (at_range h pos e Hr He) as Hrg.
  destruct (at_left _ _ _ _ HR He) as [Hm0 _].
  assert (∃ pos', points h i pos' ∧ pos < pos' <= n_buckets h ∧ ∀ j e', at_ h j e' → pos < j → pos' <= j) as (pos' & Hpt & Hlt & Hnxt).
  { destruct Hah as [[Hnil Hall]|(nxt & [k1 v1] & -> & Hnx & Hat & Hmin)].
    - exists (n_buckets h). split; [by left|]. split; [lia|]. intros j e' Hj Hlt. specialize (Hall j e' Hj). lia.
    - exists nxt. split; [right; exists nxt, k1, v1; split_and!; (done || lia || auto)|]. split; [lia|done]. }
  exists pos'. split; [|by auto]. assert (Hsame : ∀ j e', at_ h j e' → j = pos → e' = e) by (intros j e' Hj ->; unfold at_ in *; congruence).
  constructor.
  - by rewrite left_kept.
  - intros e' [Hin|Hin%list_elem_of_singleton]%elem_of_app; [by apply Hsub|by subst e'].
  - intros j e' Hj Hnin. apply not_elem_of_app in Hnin as [Hnin Hne%not_elem_of_cons]. pose proof (Hrest j e' Hj Hnin).
    destruct (decide (j = pos)) as [E|]; [|eapply Hnxt; [done|lia]]. destruct (proj1 Hne). by eapply Hsame.
  - intros Hfalse. destruct (Honce Hfalse) as [Hnd Hpos]. split.
    + apply NoDup_app. split; [done|]. split; [|apply NoDup_singleton]. intros e' Hin Hin'%list_elem_of_singleton. subst e'. specialize (Hpos pos e He Hin). lia.
    + intros j e' Hj [Hin|Hin%list_elem_of_singleton]%elem_of_app; [specialize (Hpos j e' Hj Hin); lia|]. subst e'. destruct e as [k v].
      pose proof (at_inj _ _ _ _ _ _ _ HR Hj He). lia.
Qed.

(** Where the entries are after the removal of the one at [pos]. *)
Lemma at_removed h m pos e h' :
  Rep h m → at_ h pos e → base_remove_entry pos h = Some h' →
  Rep h' (delete (fst e) m) ∧ n_buckets h' = n_buckets h ∧
  (∀ j e', at_ h j e' → j ≠ pos → at_ h' j e' ∨ ∃ i, 0 <= i < n_buckets h ∧ next_idx h i = j ∧ at_ h' i e') ∧
  (∀ j' e', at_ h' j' e' → ∃ j, at_ h j e' ∧ j ≠ pos ∧ (j' = j ∨ next_idx h j' = j)).
Proof.
  intros HR He Hrm. destruct e as [k v]. pose proof HR as [Hr _]. pose proof (at_range h pos _ Hr He) as Hrg. pose proof HR as [(Hc & _) _].
  destruct (remove_rep h m pos k v HR He) as (h1 & Hr1 & HR1 & Hn1 & _ & s & Hs & Hsh). rewrite Hrm in Hr1. injection Hr1 as <-.
  assert (Hmove : ∀ j e', at_ h j e' → j ≠ pos → at_ h' j e' ∨ ∃ i, 0 <= i < n_buckets h ∧ next_idx h i = j ∧ at_ h' i e').
  { intros j e' Hj Hne. exact (shifted_entry h pos s h' j e' Hc Hrg Hs Hsh Hne Hj). }
  split_and!; [exact HR1|exact Hn1|exact Hmove|]. intros j' [k' v'] Hj'.
  assert (Hk' : delete k m !! k' = Some v') by (apply (at_lookup h'); eauto). apply lookup_delete_Some in Hk' as [Hne Hk'].
  apply (at_lookup h m) in Hk' as [j Hj]; [|done]. assert (Hjp : j ≠ pos) by (intros ->; unfold at_ in *; congruence). exists j. split; [done|]. split; [done|].
  destruct (Hmove j _ Hj Hjp) as [H1|(i & _ & Hnx & H1)]; [left|right; rewrite <- Hnx; f_equal]; by eapply at_inj.
Qed.

Lemma body_removes h pos visited e i :
  walked h pos visited → at_ h pos e → p e = true → ahead h i pos →
  ∃ h' pos', base_remove_entry pos h = Some h' ∧ walked h' pos' (visited ++ [e]) ∧ points h' i pos' ∧
    pos <= pos' <= n_buckets h' ∧ n_buckets h' = n_buckets h ∧ n_entries h' = n_entries h - 1.
Proof.
  intros [HR Hsub Hrest _] He Hp Hah. pose proof HR as [Hr _]. pose proof (at_range h pos e Hr He) as Hrg. pose proof (ready_n h Hr) as Hn.
  destruct (at_left _ _ _ _ HR He) as [Hm0 _]. destruct (remove_spec h pos e Hr He) as (h' & Hrm & Hr' & Hel & Hn' & _).
  destruct (at_removed h _ pos e h' HR He Hrm) as (HR' & _ & Hfwd & Hbwd). rewrite left_removed in HR' by done.
  assert (Hent : n_entries h' = n_entries h - 1).
  { pose proof Hr as (_ & _ & _ & _ & -> & _). pose proof Hr' as (_ & _ & _ & _ & -> & _). unfold len. rewrite <- Hel. cbn [length]. lia. }
  assert (Hold : ∀ j' e', at_ h' j' e' → e' ∉ visited ++ [e] → ∃ j, at_ h j e' ∧ pos < j ∧ (j' = j ∨ j' = j - 1)).
  { intros j' e' Hj' Hnin. apply not_elem_of_app in Hnin as [Hnin _]. destruct (Hbwd j' e' Hj') as (j & Hj & Hne & Hor). exists j.
    pose proof (Hrest j e' Hj Hnin). split; [done|]. split; [lia|]. destruct Hor as [-> |Hnx]; [by left|right].
    pose proof (at_range h' j' e' Hr' Hj') as Hjr. rewrite Hn' in Hjr. destruct (next_cases h Hn j' Hjr); lia. }
  exists h'. enough (∃ pos', points h' i pos' ∧ pos <= pos' <= n_buckets h' ∧
    ∀ j' e', at_ h' j' e' → e' ∉ visited ++ [e] → pos' <= j') as (pos' & Hpt & Hge & Hmin).
  { exists pos'. split; [done|]. split; [|by auto]. constructor; [done| |done|intros Hf; by rewrite Hf in Hp].
    intros e' [Hin|Hin%list_elem_of_singleton]%elem_of_app; [by apply Hsub|by subst e']. }
  destruct Hah as [[Hnil Hall]|(nxt & [k1 v1] & -> & Hnx & Hat & Hmin)].
  - exists (n_buckets h'). split; [by left|]. split; [lia|]. intros j' e' Hj' Hnin. destruct (Hold j' e' Hj' Hnin) as (j & Hj & Hlt & _). specialize (Hall j e' Hj). lia.
  - assert (∃ pos', at_ h' pos' (k1, v1) ∧ (nxt = pos' ∨ nxt = pos' + 1)) as (pos' & Hat' & Hor).
    { destruct (Hfwd nxt _ Hat ltac:(lia)) as [H1|(i & Hi & Hni & H1)]; [by exists nxt; auto|]. exists i. split; [done|right].
      destruct (next_cases h Hn i Hi); lia. }
    exists pos'. split; [right; exists nxt, k1, v1; split_and!; (done || lia)|]. split; [lia|].
    intros j' e' Hj' Hnin. destruct (Hold j' e' Hj' Hnin) as (j & Hj & Hlt & Hjj). specialize (Hmin j e' Hj Hlt).
    destruct (decide (j = nxt)) as [-> |]; [|lia]. assert (e' = (k1, v1)) as -> by (unfold at_ in *; congruence). pose proof (at_inj _ _ _ _ _ _ _ HR' Hj' Hat'). lia.
Qed.

Lemma walk_room h pos visited e : walked h pos visited → at_ h pos e → (∀ e, p e = false) → (length visited < size m0)%nat.
Proof.
  intros Hw He Hfalse. destruct (w_once _ _ _ Hw Hfalse) as [Hnd Hlt]. rewrite <- length_map_to_list.
  assert (Hsub : e :: visited ⊆+ map_to_list m0); [|by apply submseteq_length in Hsub]. apply NoDup_submseteq.
  - constructor; [|done]. intros Hin. specialize (Hlt pos e He Hin). lia.
  - destruct (at_left _ _ _ _ (w_rep _ _ _ Hw) He) as [Hm _]. intros [k v] [<- |Hin]%elem_of_cons; apply elem_of_map_to_list; [done|by apply (w_sub _ _ _ Hw (k, v))].
Qed.

Lemma left_nil : left_of [] = m0.
Proof. unfold left_of. apply map_filter_id. intros k v _ [_ Hin]. by apply not_elem_of_nil in Hin. Qed.

Lemma walk_starts h pos : Rep h m0 → (∀ j e, at_ h j e → pos <= j) → walked h pos [].
Proof.
  intros HR Hmin. constructor.
  - by rewrite left_nil.
  - intros e Hin. by apply not_elem_of_nil in Hin.
  - intros j e Hj _. by eapply Hmin.
  - intros _. split; [constructor|]. intros j e _ Hin. by apply not_elem_of_nil in Hin.
Qed.

Lemma walk_ends h visited :
  walked h (n_buckets h) visited →
  (∀ e, e ∈ visited ↔ e ∈ map_to_list m0) ∧ Rep h (filter (λ e, p e = false) m0) ∧ ((∀ e, p e = false) → visited ≡ₚ map_to_list m0).
Proof.
  intros [HR Hsub Hrest Honce]. pose proof HR as [Hr _].
  assert (Hall : ∀ e, e ∈ visited ↔ e ∈ map_to_list m0).
  { intros [k v]. rewrite elem_of_map_to_list. split; [apply Hsub|]. intros Hm. destruct (decide ((k, v) ∈ visited)) as [|Hnin]; [done|exfalso].
    assert (Hl : left_of visited !! k = Some v) by (apply left_lookup; split; [done|naive_solver]). apply (at_lookup h _ _ _ HR) in Hl as [j Hj].
    specialize (Hrest j _ Hj Hnin). pose proof (at_range h j _ Hr Hj). lia. }
  split; [done|]. split.
  - enough (left_of visited = filter (λ e, p e = false) m0) as <- by done. apply map_filter_ext. intros k v Hm.
    assert ((k, v) ∈ visited) by (apply Hall, elem_of_map_to_list, Hm). destruct (p (k, v)); naive_solver.
  - intros Hf. destruct (Honce Hf) as [Hnd _]. apply NoDup_Permutation; [done|apply NoDup_map_to_list|done].
Qed.

(** ** The loop

    [I] holds of what was visited and of the state of the body, and [Q] when the body returns. The
    body removes the entries of which [p] holds; it is not called again for one of these. *)
Context {St : Type} (body : St → K * V → option (St * Flow)) (I : list (K * V) → St → Prop) (Q : St → Prop).

Definition body_ok : Prop := ∀ visited s e,
  I visited s → m0 !! fst e = Some (snd e) → (p e = true → e ∉ visited) → ((∀ e, p e = false) → (length visited < size m0)%nat) →
  ∃ s' flow, body s e = Some (s', flow) ∧
    (flow = (if p e then RemoveCurrent else Continue) ∧ I (visited ++ [e]) s' ∨ flow = Return ∧ Q s').

(** The loop ends with every entry visited, or where the body returns. *)
Definition ends (fuel : nat) h (i : Iterator) (s : St) : Prop :=
  ∃ s' h', foreach fuel body h i s = Some (s', h') ∧
    ((∃ visited, I visited s' ∧ walked h' (n_buckets h') visited) ∨ Q s' ∧ ∃ visited, Rep h' (left_of visited)).

Lemma pass (fuel : nat) h0 h i0 pos e visited s :
  body_ok →
  (∀ h i visited pos s, I visited s → walked h pos visited → points h i pos → pos <= n_buckets h → measure h pos < Z.of_nat fuel → ends fuel h i s) →
  hashmap_iterate_in_internal_order h0 i0 = iterate_from pos h i0 → I visited s → walked h pos visited → at_ h pos e →
  measure h pos < Z.of_nat (S fuel) → ends (S fuel) h0 i0 s.
Proof.
  intros Hbody IH Hit HI Hw He Hf. pose proof (w_rep _ _ _ Hw) as HR. pose proof HR as [Hr _]. pose proof (at_range h pos e Hr He). pose proof (ready_n h Hr).
  destruct (iterate_from_spec h _ pos e i0 HR He) as (i & Hfrom & Hah). unfold ends. cbn [foreach]. rewrite Hit, Hfrom. cbn [mbind option_bind].
  destruct (Z.eqb_spec pos IDX_NIL) as [E|_]; [unfold IDX_NIL, UINT_MAX in E; lia|]. rewrite (at_bucket _ _ _ He). cbn [mbind option_bind].
  destruct (at_left _ _ _ _ HR He) as [Hm0 Hleft].
  destruct (Hbody visited s e HI Hm0) as (s' & flow & -> & Hflow); [naive_solver| |cbn [mbind option_bind]].
  { intros Hfalse. by eapply (walk_room h pos). }
  destruct Hflow as [[-> HI']|[-> HQ]]; [|exists s', h; split; [done|right; eauto]]. destruct (p e) eqn:Hp.
  - destruct (body_removes h pos visited e i Hw He Hp Hah) as (h' & pos' & -> & Hw' & Hpt & Hpos & Hn & Hent). cbn [mbind option_bind].
    eapply IH; [done|done|done|lia|]. unfold measure in *. lia.
  - destruct (body_keeps h pos visited e i Hw He Hp Hah) as (pos' & Hw' & Hpt & Hpos).
    eapply IH; [done|done|done|lia|]. unfold measure in *. lia.
Qed.

Lemma foreach_from (fuel : nat) h i visited pos s :
  body_ok → I visited s → walked h pos visited → points h i pos → pos <= n_buckets h → measure h pos < Z.of_nat fuel → ends fuel h i s.
Proof.
  intros Hbody. revert h i visited pos s. induction fuel as [|fuel IH]; intros h i visited pos s HI Hw Hpt Hle Hf; pose proof (w_rep _ _ _ Hw) as HR.
  - exfalso. unfold measure in Hf. rewrite (rep_size _ _ HR) in Hf. lia.
  - destruct (decide (pos = n_buckets h)) as [-> |Hne].
    + destruct Hpt as [[Hnil _]|(q & k & v & _ & _ & Hk & _)]; [|pose proof HR as [Hr _]; pose proof (at_range h _ _ Hr Hk); lia].
      exists s, h. split; [|left; eauto]. cbn [foreach]. unfold hashmap_iterate_in_internal_order. rewrite Hnil, Z.eqb_refl. done.
    + destruct (iterate_points h _ i pos HR Hpt ltac:(lia)) as [Hit [e He]]. by eapply pass.
Qed.

Lemma foreach_spec (fuel : nat) h s :
  body_ok → I [] s → Rep h m0 → n_buckets h + n_entries h + 1 < Z.of_nat fuel → ends fuel h ITERATOR_FIRST s.
Proof.
  intros Hbody HI HR Hf. destruct fuel as [|fuel]; [pose proof HR as [Hr _]; pose proof (ready_n h Hr); rewrite (rep_size _ _ HR) in Hf; lia|].
  destruct (first_spec h m0 HR) as (h' & HR' & Hn & [[Hit Hm]|(pos & e & Hit & He & Hmin)]).
  - exists s, h'. split; [cbn [foreach]; by rewrite Hit|]. left. exists []. split; [done|]. apply walk_starts; [done|]. intros j [k v] Hj. exfalso.
    assert (Hk : m0 !! k = Some v) by (apply (at_lookup h'); eauto). rewrite Hm in Hk. done.
  - apply (pass fuel h h' ITERATOR_FIRST pos e []); [done|intros; by eapply foreach_from|done|done|by apply walk_starts|done|].
    pose proof HR' as [Hr' _]. pose proof (at_range h' pos e Hr' He). unfold measure. rewrite (rep_size _ _ HR'), Hn. rewrite (rep_size _ _ HR) in Hf. lia.
Qed.

Lemma foreach_rounds h s : body_ok → I [] s → Rep h m0 → ends (rounds_of h) h ITERATOR_FIRST s.
Proof.
  intros Hb HI HR. pose proof HR as [Hr _]. pose proof (ready_n h Hr). apply foreach_spec; [done|done|done|]. unfold rounds_of.
  rewrite (rep_size _ _ HR). lia.
Qed.
End Walk.

Lemma visit_ok p m : body_ok p m (visit p) (=) (λ _, False).
Proof. intros visited s e <- Hm _ _. eexists _, _. split; [reflexivity|]. by left. Qed.

(** C31: [HASHMAP_FOREACH] ends, also when its body removes the current entry where [p] holds:
    it visits every entry of the table and nothing else, and leaves the entries that were not
    removed; when nothing is removed every entry is visited exactly once. *)
Theorem foreach_visits_all p h m (fuel : nat) :
  Rep h m → n_buckets h + n_entries h + 1 < Z.of_nat fuel →
  ∃ visited h', foreach fuel (visit p) h ITERATOR_FIRST [] = Some (visited, h') ∧
    (∀ e, e ∈ visited ↔ e ∈ map_to_list m) ∧ Rep h' (filter (λ e, p e = false) m) ∧
    ((∀ e, p e = false) → visited ≡ₚ map_to_list m).
Proof.
  intros HR Hf. destruct (foreach_spec p m (visit p) (=) (λ _, False) fuel h []) as (s & h' & Hit & Hend); [apply visit_ok|done..|].
  destruct Hend as [(visited & -> & Hw)|[[] _]]. exists s, h'. split; [done|]. exact (walk_ends p m h' s Hw).
Qed.

(** [hashmap_first] and [hashmap_steal_first]: an entry of the table, if there is one. *)
Lemma first_key_and_value_spec (remove : bool) h m :
  Rep h m →
  ∃ o h', hashmap_first_key_and_value remove h = Some (o, h') ∧
    match o with
    | None => m = ∅ ∧ Rep h' m
    | Some (k, v) => m !! k = Some v ∧ Rep h' (if remove then delete k m else m)
    end.
Proof.
  intros HR. unfold hashmap_first_key_and_value, find_first_entry. pose proof (rep_size h m HR) as Hsz. destruct (Z.eqb_spec (n_entries h) 0) as [E|E].
  { exists None, h. split; [done|]. split; [|done]. apply map_size_empty_inv. lia. }
  destruct (first_spec h m HR) as (h' & HR' & Hn & [[-> Hm]|(pos & [k v] & -> & He & _)]).
  { exists None, h'. cbn. done. }
  destruct (iterate_from_spec h' m pos (k, v) ITERATOR_FIRST HR' He) as (i & -> & _). cbn [mbind option_bind].
  pose proof HR' as [Hr' _]. pose proof (at_range h' pos _ Hr' He). pose proof (ready_n h' Hr').
  destruct (Z.eqb_spec pos IDX_NIL) as [E'|_]; [unfold IDX_NIL, UINT_MAX in E'; lia|]. rewrite (at_bucket _ _ _ He). cbn [mbind option_bind].
  assert (Hk : m !! k = Some v) by (apply (at_lookup h'); eauto). destruct remove.
  - destruct (remove_rep h' m pos k v HR' He) as (h1 & -> & HR1 & _). exists (Some (k, v)), h1. done.
  - exists (Some (k, v)), h'. done.
Qed.
(** ** Loops of the library *)

Lemma nothing_removed (m : gmap K V) visited : left_of (λ _, false) m visited = m.
Proof. apply map_filter_id. intros k v _ [? _]. done. Qed.

Lemma walk_all h m visited : walked (λ _, false) m h (n_buckets h) visited → visited ≡ₚ map_to_list m ∧ Rep h m.
Proof. intros Hw. pose proof (w_rep _ _ _ _ _ Hw) as HR. rewrite nothing_removed in HR. destruct (walk_ends _ _ _ _ Hw) as (_ & _ & Hp). auto. Qed.

(** The array has room for the values. *)
Lemma get_strv_spec h m :
  Rep h m → ∃ sv h', hashmap_get_strv h = Some (sv, h') ∧ sv ≡ₚ (map_to_list m).*2 ∧ Rep h' m.
Proof.
  intros HR. destruct (foreach_rounds (λ _, false) m (λ sv e, assert_ (len sv <? n_entries h);; Some (sv ++ [snd e], Continue))
    (λ visited sv, sv = visited.*2) (λ _, False) h []) as (sv & h' & Hit & [(visited & -> & Hw)|[[] _]]); [|done|done|].
  - intros visited sv e -> He _ Hroom. specialize (Hroom (λ _, eq_refl)). eexists _, _. split.
    + rewrite assert_bind; [reflexivity|]. apply Z.ltb_lt. rewrite len_fmap, (rep_size _ _ HR). unfold len. lia.
    + left. split; [done|]. by rewrite fmap_app.
  - destruct (walk_all _ _ _ Hw) as [Hp HR']. exists (visited.*2), h'. split; [exact Hit|]. split; [by rewrite Hp|done].
Qed.

Lemma union_snoc m (visited : list (K * V)) k v :
  m ∪ list_to_map (visited ++ [(k, v)]) = (m ∪ list_to_map visited) ∪ {[k := v]}.
Proof. rewrite list_to_map_app. cbn. by rewrite (assoc_L (∪)), insert_empty. Qed.

Lemma put_union m k v : snd (spec (Put k v) m) = m ∪ {[k := v]}.
Proof.
  cbn [spec]. apply map_eq. intros k'. destruct (m !! k) as [w|] eqn:E; cbn [snd].
  - destruct (m !! k') as [w'|] eqn:E'; [by rewrite (lookup_union_Some_l _ _ _ w')|]. rewrite lookup_union_r by done.
    by rewrite lookup_singleton_ne by congruence.
  - by rewrite insert_union_singleton_r.
Qed.

Lemma tail_drop {A} n (l : list A) : tail (drop n l) = drop (S n) l.
Proof. revert l. induction n as [|n IH]; intros [|a l]; [done|done|done|]. apply IH. Qed.

(** What the environment provides in round [j]. *)
Definition round (xs : list Ext) (j : nat) : Ext := default (MkExt [] false) (xs !! j).

(** Merging gives the union, in which the entries of [h] win; without memory a part of it. *)
Lemma merge_spec xs h m other (mo : gmap K V) :
  Rep h m → Rep other mo → Z.of_nat (size m) + Z.of_nat (size mo) + 2 ^ 23 < HASHMAP_MAX →
  ∃ r h' other', hashmap_merge xs h other = Some (r, h', other') ∧ Rep other' mo ∧
    (r = 0 ∧ Rep h' (m ∪ mo) ∨ r = -ENOMEM ∧ (∃ j, (j < size mo)%nat ∧ alloc_ok (round xs j) = false) ∧ ∃ part, part ⊆ mo ∧ Rep h' (m ∪ part)).
Proof.
  intros HR HRo Hs.
  set (I := λ (visited : list (K * V)) (s : HashmapBase (K := K) (V := V) * list Ext * Z), snd s = 0 ∧ snd (fst s) = drop (length visited) xs ∧ (∀ e, e ∈ visited → mo !! fst e = Some (snd e)) ∧
    Rep (fst (fst s)) (m ∪ list_to_map visited) ∧ (size (m ∪ list_to_map visited) <= size m + length visited)%nat).
  set (Q := λ (s : HashmapBase (K := K) (V := V) * list Ext * Z), snd s = -ENOMEM ∧ (∃ j, (j < size mo)%nat ∧ alloc_ok (round xs j) = false) ∧
    ∃ part, part ⊆ mo ∧ Rep (fst (fst s)) (m ∪ part)).
  assert (Hsub : ∀ visited, (∀ e, e ∈ visited → mo !! fst e = Some (snd e)) → list_to_map visited ⊆ mo).
  { intros visited Hin. apply map_subseteq_spec. intros k v Hk%elem_of_list_to_map_2. by apply (Hin (k, v)). }
  destruct (foreach_rounds (λ _, false) mo merge_body I Q other (h, xs, 0)) as ([[h' xs'] r] & other' & Hit & Hend).
  - intros visited [[h1 xs1] r1] [k v] (Hr1 & Hxs & Hin & HR1 & Hsz) He _ Hroom. specialize (Hroom (λ _, eq_refl)). cbn [fst snd] in *.
    unfold merge_body. cbn [fst snd]. assert (default (MkExt [] false) (head xs1) = round xs (length visited)) as ->.
    { unfold round. by rewrite Hxs, head_lookup, lookup_drop, Nat.add_0_r. }
    set (x := round xs (length visited)).
    destruct (sim_put [] x h1 _ k v HR1) as (ret & h2 & m2 & Hex & Hst & HR2); [unfold HASHMAP_MAX in *; lia|]. cbn [exec] in Hex.
    destruct (hashmap_put k v x h1) as [[r2 h2']|] eqn:Eput; [|done]. cbn [mbind option_bind] in Hex |- *. injection Hex as <- <-.
    destruct Hst as [Hspec|(Ha & [= ->] & ->)].
    + assert (Hm2 : m2 = m ∪ list_to_map (visited ++ [(k, v)])) by (rewrite union_snoc, <- put_union; by rewrite <- Hspec).
      assert (Hcont : (r2 <? 0) && negb (r2 =? -EEXIST) = false).
      { revert Hspec. cbn [spec]. destruct ((m ∪ list_to_map visited) !! k) as [w|]; [destruct (bool_decide (w = v))|]; intros [= -> _]; done. }
      rewrite Hcont. eexists _, _. split; [reflexivity|]. left. split; [done|]. split; [done|]. cbn [fst snd]. rewrite <- Hm2.
      split; [rewrite Hxs, tail_drop, length_app; cbn; f_equal; lia|]. split; [|split; [done|]].
      * intros e [He'| ->%list_elem_of_singleton]%elem_of_app; [by apply Hin|done].
      * pose proof (spec_size (Put k v) (m ∪ list_to_map visited)) as Hle. rewrite <- Hspec in Hle. cbn [snd] in Hle. rewrite length_app. cbn [length]. lia.
    + eexists _, _. split; [reflexivity|]. right. split; [done|]. split; [done|]. split; [by exists (length visited)|]. exists (list_to_map visited). split; [by apply Hsub|done].
  - split; [done|]. split; [done|]. split; [intros e Hin; by apply not_elem_of_nil in Hin|]. cbn. rewrite (right_id_L ∅ (∪)). split; [done|lia].
  - done.
  - exists r, h', other'. unfold hashmap_merge. rewrite Hit. split; [done|].
    destruct Hend as [(visited & (Hr & _ & Hin & HR' & _) & Hw)|[HQ (visited & HRo')]]; cbn [fst snd] in *.
    + destruct (walk_all _ _ _ Hw) as [Hp HRo']. split; [done|]. left. split; [done|].
      by rewrite (list_to_map_proper visited (map_to_list mo)), list_to_map_to_list in HR' by (done || rewrite Hp; apply NoDup_fst_map_to_list).
    + rewrite nothing_removed in HRo'. split; [done|]. by right.
Qed.

Lemma copy_spec key xs h m :
  Rep h m → Z.of_nat (size m) + 2 ^ 23 < HASHMAP_MAX →
  ∃ copy h', hashmap_copy key xs h = Some (copy, h') ∧ Rep h' m ∧
    match copy with Some c => Rep c m | None => ∃ j, (j < size m)%nat ∧ alloc_ok (round xs j) = false end.
Proof.
  intros HR Hs. destruct (merge_spec xs (hashmap_base_new key) ∅ h m (rep_new key) HR) as (r & c & h' & Hm & HR' & Hcase); [rewrite map_size_empty; lia|].
  unfold hashmap_copy. rewrite Hm. cbn [mbind option_bind]. eexists _, h'. split; [reflexivity|]. split; [done|]. rewrite (left_id_L ∅ (∪)) in Hcase.
  by destruct Hcase as [[-> HRc]|(-> & Ha & _)].
Qed.

(** Moving: what is not in [h] yet, all of it or nothing. *)
Lemma size_union_le m (mo : gmap K V) : (size (m ∪ mo) <= size m + size mo)%nat.
Proof.
  rewrite <- !(size_dom (D := gset K)), dom_union_L, size_union_alt. pose proof (subseteq_size (dom mo ∖ dom m) (dom (D := gset K) mo) ltac:(set_solver)). lia.
Qed.

Lemma visited_map (mo : gmap K V) (visited : list (K * V)) : (∀ e, e ∈ visited ↔ e ∈ map_to_list mo) → list_to_map visited = mo.
Proof.
  intros Hall. apply map_eq. intros k. assert (Hin : ∀ v, (list_to_map visited : gmap K V) !! k = Some v → mo !! k = Some v).
  { intros v Hv%elem_of_list_to_map_2. by apply elem_of_map_to_list, Hall. }
  destruct (mo !! k) as [v|] eqn:E.
  - destruct ((list_to_map visited : gmap K V) !! k) as [w|] eqn:Ew; [specialize (Hin w eq_refl); congruence|]. apply not_elem_of_list_to_map in Ew. destruct Ew.
    apply list_elem_of_fmap. exists (k, v). split; [done|]. by apply Hall, elem_of_map_to_list.
  - destruct ((list_to_map visited : gmap K V) !! k) as [w|] eqn:Ew; [|done]. specialize (Hin w eq_refl). congruence.
Qed.

Definition absent m (e : K * V) : bool := bool_decide (m !! fst e = None).

Lemma move_body_spec x m (mo : gmap K V) (n : Z) visited h e :
  let M := m ∪ list_to_map visited in
  Rep h M → n_buckets h = n → Z.of_nat (size m) + Z.of_nat (size mo) <= n → Z.of_nat (size m) + Z.of_nat (size mo) + 1 < HASHMAP_MAX →
  (∀ e, e ∈ visited → mo !! fst e = Some (snd e)) → mo !! fst e = Some (snd e) → (absent m e = true → e ∉ visited) →
  ∃ h', move_body x h e = Some (h', if absent m e then RemoveCurrent else Continue) ∧
    Rep h' (m ∪ list_to_map (visited ++ [e])) ∧ n_buckets h' = n.
Proof.
  intros M HR Hn Hroom Hs Hin Hmo Hnew. destruct e as [k v]. cbn [fst snd] in *. unfold move_body. cbn [fst]. rewrite union_snoc. fold M.
  assert (HM : M !! k = None ↔ m !! k = None).
  { unfold M. rewrite lookup_union_None. split; [naive_solver|]. intros Hk. split; [done|]. destruct ((list_to_map visited : gmap K V) !! k) as [w|] eqn:E; [|done].
    apply elem_of_list_to_map_2 in E. pose proof (Hin _ E). cbn in *. assert (w = v) as -> by congruence. destruct Hnew; [by apply bool_decide_eq_true_2|done]. }
  scan HR k j w Hsc Hj Hk; unfold bucket_scan in Hsc; rewrite Hsc; cbn [mbind option_bind].
  - rewrite bool_decide_false by naive_solver. assert (Ha : absent m (k, v) = true) by by apply bool_decide_eq_true_2, HM. rewrite Ha.
    assert (Hlt : (S (size M) <= size m + size mo)%nat).
    { rewrite <- (map_size_insert_None k v M) by done. etransitivity; [|apply size_union_le]. apply map_subseteq_size. apply insert_subseteq_l.
      - rewrite lookup_union_r by by apply HM. done.
      - apply map_union_mono_l, map_subseteq_spec. intros k' v' Hv'%elem_of_list_to_map_2. by apply (Hin (k', v')). }
    destruct (put_after_removal h h M k v x HR Hk eq_refl eq_refl) as (h' & -> & HR' & Hn'); [rewrite (rep_size _ _ HR); lia|unfold HASHMAP_MAX in *; lia|].
    cbn [mbind option_bind]. rewrite assert_bind by done. exists h'. split; [done|]. rewrite Hn'. split; [|done]. by rewrite <- insert_union_singleton_r.
  - rewrite bool_decide_true by done. assert (Ha : absent m (k, v) = false) by (apply bool_decide_eq_false_2; cbn; rewrite <- HM; congruence). rewrite Ha.
    exists h. split; [done|]. split; [|done]. rewrite <- put_union. cbn [spec]. by rewrite Hk.
Qed.

Lemma move_spec x h m other (mo : gmap K V) :
  Rep h m → Rep other mo → Z.of_nat (size m) + Z.of_nat (size mo) + 1 < HASHMAP_MAX →
  ∃ r h' other', hashmap_move x h other = Some (r, h', other') ∧
    (r = 0 ∧ Rep h' (m ∪ mo) ∧ Rep other' (filter (λ e, is_Some (m !! fst e)) mo) ∨
     r = -ENOMEM ∧ h' = h ∧ other' = other ∧ alloc_ok x = false).
Proof.
  intros HR HRo Hs. pose proof HR as [Hr He]. unfold hashmap_move.
  destruct (resize_spec h (n_entries other) x Hr) as (r & h0 & -> & Hr0 & He0 & Hcase); [rewrite (rep_size _ _ HRo); lia|rewrite (rep_size _ _ HR), (rep_size _ _ HRo); unfold HASHMAP_MAX in *; lia|].
  cbn [mbind option_bind]. destruct Hcase as [(Hneg & -> & -> & Ha)|[Hr01 Hroom]].
  { eexists _, h, other. split; [reflexivity|]. by right. }
  destruct (r <? 0) eqn:E; [naive_solver lia|]. rewrite (rep_size _ _ HR), (rep_size _ _ HRo) in Hroom.
  set (I := λ (visited : list (K * V)) h1, Rep h1 (m ∪ list_to_map visited) ∧ n_buckets h1 = n_buckets h0 ∧ ∀ e, e ∈ visited → mo !! fst e = Some (snd e)).
  destruct (foreach_rounds (absent m) mo (move_body x) I (λ _, False) other h0) as (h' & other' & -> & [(visited & (HR' & _ & _) & Hw)|[[] _]]).
  - intros visited h1 e (HR1 & Hn1 & Hin) Hmo Hnew _. destruct (move_body_spec x m mo (n_buckets h0) visited h1 e) as (h2 & Hb & HR2 & Hn2); try done.
    eexists _, _. split; [exact Hb|]. left. split; [done|]. split; [done|]. split; [done|]. intros e' [Hin'| ->%list_elem_of_singleton]%elem_of_app; [by apply Hin|done].
  - split; [cbn; rewrite (right_id_L ∅ (∪)); split; [done|by rewrite He0]|]. split; [done|]. intros e Hin. by apply not_elem_of_nil in Hin.
  - done.
  - cbn [mbind option_bind]. eexists _, h', other'. split; [reflexivity|]. left. split; [done|]. destruct (walk_ends _ _ _ _ Hw) as (Hall & HRo' & _).
    rewrite (visited_map mo visited Hall) in HR'. split; [done|]. enough (filter (λ e, absent m e = false) mo = filter (λ e, is_Some (m !! fst e)) mo) as <- by done.
    apply map_filter_ext. intros k v _. unfold absent. cbn. rewrite bool_decide_eq_false, <- not_eq_None_Some. done.
Qed.

Lemma move_one_spec x h m other (mo : gmap K V) k :
  Rep h m → Rep other mo → Z.of_nat (size m) + 1 < HASHMAP_MAX →
  ∃ r h' other', hashmap_move_one x h other k = Some (r, h', other') ∧
    match m !! k, mo !! k with
    | Some _, _ => r = -EEXIST ∧ h' = h ∧ other' = other
    | None, None => r = -ENOENT ∧ h' = h ∧ other' = other
    | None, Some v => r = 0 ∧ Rep h' (<[k := v]> m) ∧ Rep other' (delete k mo) ∨ r = -ENOMEM ∧ h' = h ∧ other' = other ∧ alloc_ok x = false
    end.
Proof.
  intros HR HRo Hs. unfold hashmap_move_one. scan HR k j w Hsc Hj Hk; unfold bucket_scan in Hsc; rewrite Hsc, Hk; cbn [mbind option_bind].
  2:{ rewrite bool_decide_true by done. by eexists _, _, _. }
  rewrite bool_decide_false by naive_solver. scan HRo k i v Hso Hi Hko; rewrite Hso, Hko; cbn [mbind option_bind].
  { by eexists _, _, _. }
  rewrite (bucket_at_get _ _ _ Hi). cbn [mbind option_bind].
  destruct (put_new h m k v x HR Hk Hs) as (r & h' & Hp & [[-> HR']|(-> & -> & Ha)]); rewrite Hp; cbn [mbind option_bind].
  - destruct (remove_rep other mo i k v HRo Hi) as (o' & Hrm & HRo' & _). cbn [Z.ltb]. change (1 <? 0) with false. cbv iota. rewrite Hrm.
    eexists _, _, _. split; [reflexivity|]. by left.
  - change (-ENOMEM <? 0) with true. cbv iota. eexists _, _, _. split; [reflexivity|]. by right.
Qed.
End Iter.

(** ** A table in which an entry is visited twice *)

#[local] Instance identity_hash : HashOps Z := { hash _ k := u64 k; hash_range _ k := u64_range k }.

(** Seven buckets; 12 collides with 5 and is put into the last one, and 13 wraps around. *)
Definition wrapped_calls : list (Op (K := Z) (V := bool) * Ext) :=
  [(Reserve 3, memory 0); (Put 5 true, no_memory); (Put 12 false, no_memory); (Put 13 false, no_memory)].

Definition wrapped : HashmapBase (K := Z) (V := bool) :=
  Eval vm_compute in default (hashmap_base_new []) (snd <$> exec_all [] wrapped_calls (hashmap_base_new [])).

Example wrapped_buckets :
  buckets wrapped = [Some (13, false); None; None; None; None; Some (5, true); Some (12, false)].
Proof. reflexivity. Qed.

(** The removal of 5 moves 13, which was visited first, from the first bucket to the last one. *)
Example entry_visited_twice :
  fst <$> foreach 20 (visit snd) wrapped ITERATOR_FIRST [] = Some [(13, false); (5, true); (12, false); (13, false)].
Proof. vm_compute. reflexivity. Qed.

Lemma wrapped_rep : ∃ m, Rep wrapped m.
Proof.
  destruct (runs_from [] wrapped_calls (hashmap_base_new []) ∅ (rep_new [])) as (rs & h & m & He & _ & HR).
  - by repeat constructor.
  - by vm_compute.
  - exists m. assert (Hw : snd <$> exec_all [] wrapped_calls (hashmap_base_new []) = Some wrapped) by (vm_compute; reflexivity).
    rewrite He in Hw. cbn in Hw. injection Hw as Hw. rewrite <- Hw. exact HR.
Qed.

Lemma foreach_visits_all_witness :
  ∃ m, Rep wrapped m ∧ ∃ visited h', foreach 20 (visit snd) wrapped ITERATOR_FIRST [] = Some (visited, h') ∧
    (∀ e, e ∈ visited ↔ e ∈ map_to_list m) ∧ Rep h' (filter (λ e, snd e = false) m) ∧
    ((∀ e : Z * bool, snd e = false) → visited ≡ₚ map_to_list m).
Proof.
  destruct wrapped_rep as [m HR]. exists m. split; [exact HR|]. apply (foreach_visits_all snd wrapped m 20 HR). by vm_compute.
Defined.
