(* ===== verification/RateLimit.v ===== *)
(** * Rate limits (src/basic/ratelimit.c) and times in microseconds (src/basic/time-util.h)

    The clock is an argument of the functions that read it. *)

From S2P Require Import Prelude.

Definition USEC_INFINITY : Z := UINT64_MAX.

Definition usec_add (a b : Z) : Z := if USEC_INFINITY - b <? a then USEC_INFINITY else a + b.

Definition usec_sub_unsigned (timestamp delta : Z) : Z :=
  if timestamp =? USEC_INFINITY then USEC_INFINITY
  else if timestamp <? delta then 0 else timestamp - delta.

Record RateLimit := MkRateLimit { interval : Z; burst : Z; num : Z; begin_ : Z }.

Definition ratelimit_reset (rl : RateLimit) : RateLimit := MkRateLimit (interval rl) (burst rl) 0 0.

Definition ratelimit_configured (rl : RateLimit) : bool := (0 <? interval rl) && (0 <? burst rl).

Definition ratelimit_below (ts : Z) (r : RateLimit) : bool * RateLimit :=
  if negb (ratelimit_configured r) then (true, r)
  else if (begin_ r <=? 0) || (interval r <? usec_sub_unsigned ts (begin_ r)) then
    (true, MkRateLimit (interval r) (burst r) (u32 (0 + 1)) ts)
  else (num r <? burst r, MkRateLimit (interval r) (burst r) (u32 (num r + 1)) (begin_ r)).

Definition ratelimit_num_dropped (r : RateLimit) : Z := if burst r <? num r then u32 (num r - burst r) else 0.

Definition ratelimit_end (rl : RateLimit) : Z := if begin_ rl =? 0 then 0 else usec_add (begin_ rl) (interval rl).

Definition ratelimit_left (ts : Z) (rl : RateLimit) : Z :=
  if begin_ rl =? 0 then 0 else usec_sub_unsigned (ratelimit_end rl) ts.

(** ** How much a rate limit lets through *)

(** The calls at the times [ts]: what they return, and the state afterwards. *)
Fixpoint ratelimit_calls (ts : list Z) (r : RateLimit) : list bool * RateLimit :=
  match ts with
  | [] => ([], r)
  | t :: ts =>
      let '(b, r) := ratelimit_below t r in
      let '(bs, r) := ratelimit_calls ts r in
      (b :: bs, r)
  end.

Definition passed (bs : list bool) : Z := len (filter (.= true) bs).

Lemma passed_cons b bs : passed (b :: bs) = passed bs + (if b then 1 else 0).
Proof. unfold passed. rewrite filter_cons. destruct b; [rewrite decide_True, len_cons by done|rewrite decide_False by done]; lia. Qed.

(** A call is the first of a new window, or one more of the current one. *)
Lemma below_cases (t : Z) (r : RateLimit) :
  ratelimit_configured r = true →
  ∃ b r', ratelimit_below t r = (b, r') ∧ interval r' = interval r ∧ burst r' = burst r ∧
    (b = true ∧ begin_ r' = t ∧ num r' = 1 ∧ (begin_ r <= 0 ∨ interval r < usec_sub_unsigned t (begin_ r)) ∨
     b = (num r <? burst r) ∧ begin_ r' = begin_ r ∧ num r' = u32 (num r + 1) ∧ 0 < begin_ r).
Proof.
  intros Hc. unfold ratelimit_below. rewrite Hc. cbn [negb]. destruct (_ || _) eqn:E; eexists _, _; (split; [reflexivity|]); cbn; (split; [done|]; split; [done|]).
  - left. split_and!; [done..|]. lia.
  - right. split_and!; [done..|lia].
Qed.

Lemma configured_same r r' : interval r' = interval r → burst r' = burst r → ratelimit_configured r = true → ratelimit_configured r' = true.
Proof. intros H1 H2. unfold ratelimit_configured. by rewrite H1, H2. Qed.

Lemma calls_state (ts : list Z) (r : RateLimit) :
  ratelimit_configured r = true → 0 <= num r → num r + len ts < 2 ^ 32 →
  let r' := snd (ratelimit_calls ts r) in
  interval r' = interval r ∧ burst r' = burst r ∧ 0 <= num r' <= num r + len ts.
Proof.
  revert r. induction ts as [|t ts IH]; intros r Hc H0 Hn; cbn [ratelimit_calls]; [cbn zeta; cbn [snd]; split_and!; (done || unfold len; cbn; lia)|]. rewrite len_cons in Hn. pose proof (len_nonneg ts).
  destruct (below_cases t r Hc) as (b & r1 & -> & Hi & Hb & Hcase). assert (Hn1 : 0 <= num r1 <= num r + 1).
  { destruct Hcase as [(_ & _ & -> & _)|(_ & _ & -> & _)]; [lia|rewrite u32_small; lia]. }
  specialize (IH r1 (configured_same r r1 Hi Hb Hc) ltac:(lia) ltac:(lia)). destruct (ratelimit_calls ts r1) as [bs r2]. cbn [snd] in *.
  rewrite len_cons. destruct IH as (? & ? & ?). split_and!; (congruence || lia).
Qed.

(** How many more calls a limit can let through in a span of one interval that starts at [s]: what is
    left of the current window, and one burst if the current window began before the span. *)
Definition passes_left (s : Z) (r : RateLimit) : Z :=
  (if 0 <? begin_ r then Z.max 0 (burst r - num r) else 0) + (if s <=? begin_ r then 0 else burst r).

Lemma passes_left_bounds s r : ratelimit_configured r = true → 0 <= num r → 0 <= passes_left s r <= 2 * burst r.
Proof. intros [? ?]%andb_true_iff ?. unfold passes_left. destruct (0 <? begin_ r), (s <=? begin_ r); lia. Qed.

(** Every call that is let through uses up one. *)
Lemma below_passes (t s : Z) (r : RateLimit) :
  ratelimit_configured r = true → 0 < s → s <= t <= s + interval r → s + interval r < USEC_INFINITY → 0 <= num r → num r + 1 < 2 ^ 32 →
  ∃ b r', ratelimit_below t r = (b, r') ∧ interval r' = interval r ∧ burst r' = burst r ∧ 0 <= num r' <= num r + 1 ∧
    passes_left s r' + (if b then 1 else 0) <= passes_left s r.
Proof.
  intros Hc Hs Ht He H0 Hn. destruct (below_cases t r Hc) as (b & r' & Hb & Hi & Hbu & Hcase). exists b, r'.
  assert (Hb0 : 0 < burst r) by (apply andb_true_iff in Hc as [_ ?]; lia). split_and!; [done..| | |].
  - destruct Hcase as [(_ & _ & -> & _)|(_ & _ & -> & _)]; [lia|rewrite u32_small; lia].
  - destruct Hcase as [(_ & _ & -> & _)|(_ & _ & -> & _)]; [lia|rewrite u32_small; lia].
  - unfold passes_left. rewrite Hbu. destruct Hcase as [(-> & -> & -> & Hnew)|(-> & -> & -> & Hcur)].
    + assert (Hold : begin_ r < s).
      { destruct Hnew as [?|Hnew]; [lia|]. destruct (Z.ltb_spec (begin_ r) s); [done|]. unfold usec_sub_unsigned in Hnew.
        destruct (t =? USEC_INFINITY) eqn:E1; [lia|]. destruct (t <? begin_ r); lia. }
      rewrite (proj2 (Z.ltb_lt 0 t)), (proj2 (Z.leb_le s t)), (proj2 (Z.leb_gt s (begin_ r))) by lia. destruct (0 <? begin_ r); lia.
    + rewrite u32_small by lia. rewrite (proj2 (Z.ltb_lt 0 (begin_ r))) by lia. destruct (num r <? burst r) eqn:E2; lia.
Qed.

Lemma span_bound (ts : list Z) (r : RateLimit) (s : Z) :
  ratelimit_configured r = true → 0 < s → Forall (λ t, s <= t <= s + interval r) ts → s + interval r < USEC_INFINITY → 0 <= num r → num r + len ts < 2 ^ 32 →
  passed (fst (ratelimit_calls ts r)) <= passes_left s r.
Proof.
  intros Hc Hs. revert r Hc. induction ts as [|t ts IH]; intros r Hc Hts He H0 Hn.
  - change (passed (fst (ratelimit_calls [] r))) with 0. by apply passes_left_bounds.
  - inversion Hts as [|? ? Ht Hts']; subst. rewrite len_cons in Hn. pose proof (len_nonneg ts). cbn [ratelimit_calls].
    destruct (below_passes t s r Hc Hs Ht He H0) as (b & r1 & -> & Hi & Hb & Hn1 & Hp); [lia|].
    specialize (IH r1 (configured_same r r1 Hi Hb Hc)). rewrite Hi in IH. specialize (IH Hts' He ltac:(lia) ltac:(lia)).
    destruct (ratelimit_calls ts r1) as [bs r2]. cbn [fst] in *. rewrite passed_cons. lia.
Qed.

(** C40: a rate limit lets at most two bursts through in any span of its interval, wherever the span
    lies in the history of calls, and at most one burst in the span that starts with the
    first call; the number of calls is less than 2^32, at which the counter wraps around. *)
Theorem ratelimit_bound (r : RateLimit) (before during : list Z) (s : Z) :
  ratelimit_configured r = true → num r = 0 → begin_ r = 0 → len before + len during < 2 ^ 32 →
  0 < s → s + interval r < USEC_INFINITY → Forall (λ t, s <= t <= s + interval r) during →
  let through := passed (fst (ratelimit_calls during (snd (ratelimit_calls before r)))) in
  through <= 2 * burst r ∧ (before = [] → through <= burst r).
Proof.
  intros Hc Hnum Hbeg Hlen Hs He Hts. pose proof (len_nonneg during). pose proof (len_nonneg before).
  destruct (calls_state before r Hc ltac:(lia) ltac:(lia)) as (Hi & Hb & Hn). set (r1 := snd (ratelimit_calls before r)) in *. cbn zeta.
  pose proof (span_bound during r1 s (configured_same r r1 Hi Hb Hc) Hs) as Hsp. rewrite Hi in Hsp.
  specialize (Hsp Hts He ltac:(lia) ltac:(lia)). assert (Hb0 : 0 < burst r) by (apply andb_true_iff in Hc as [_ ?]; lia). split.
  - pose proof (proj2 (passes_left_bounds s r1 (configured_same r r1 Hi Hb Hc) ltac:(lia))). rewrite Hb in *. lia.
  - intros ->. cbn in r1. subst r1. unfold passes_left in Hsp. rewrite Hbeg in Hsp. cbn in Hsp. destruct (s <=? 0) eqn:E; lia.
Qed.

Lemma ratelimit_bound_witness :
  let r := MkRateLimit 100 3 0 0 in let before := [10; 11; 12; 13; 60] in let during := [90; 95; 96; 120; 121; 122; 123; 190] in
  passed (fst (ratelimit_calls during (snd (ratelimit_calls before r)))) <= 6.
Proof. apply (ratelimit_bound (MkRateLimit 100 3 0 0) [10; 11; 12; 13; 60] [90; 95; 96; 120; 121; 122; 123; 190] 90); by_decide. Defined.

(** Two bursts are possible. *)
Example two_bursts : fst (ratelimit_calls [100; 200; 201; 202; 301; 302; 303; 304] (MkRateLimit 200 4 0 0)) = [true; true; true; true; true; true; true; true].
Proof. reflexivity. Qed.
