(* ===== verification/UnitDep.v ===== *)
(** * Dependency types and what they mean (src/basic/unit-def.h, src/core/unit-dependency-atom.c)

    A dependency has a type; a type stands for a set of atoms, each one facet of what the
    dependency does. Sets of atoms are bit masks. The table of inverse types is that of
    [unit_add_dependency] (src/core/unit.c). *)

From S2P Require Import Prelude JobType.

Inductive UnitDependency :=
  | UNIT_REQUIRES | UNIT_REQUISITE | UNIT_WANTS | UNIT_BINDS_TO | UNIT_PART_OF | UNIT_UPHOLDS
  | UNIT_REQUIRED_BY | UNIT_REQUISITE_OF | UNIT_WANTED_BY | UNIT_BOUND_BY | UNIT_CONSISTS_OF
  | UNIT_UPHELD_BY | UNIT_CONFLICTS | UNIT_CONFLICTED_BY | UNIT_BEFORE | UNIT_AFTER
  | UNIT_ON_SUCCESS | UNIT_ON_SUCCESS_OF | UNIT_ON_FAILURE | UNIT_ON_FAILURE_OF | UNIT_TRIGGERS
  | UNIT_TRIGGERED_BY | UNIT_PROPAGATES_RELOAD_TO | UNIT_RELOAD_PROPAGATED_FROM
  | UNIT_PROPAGATES_STOP_TO | UNIT_STOP_PROPAGATED_FROM | UNIT_JOINS_NAMESPACE_OF
  | UNIT_REFERENCES | UNIT_REFERENCED_BY | UNIT_IN_SLICE | UNIT_SLICE_OF.
#[global] Instance UnitDependency_eq_dec : EqDecision UnitDependency.
Proof. solve_decision. Defined.

(** The constants of the enumeration in their order. *)
Definition all_dependencies : list UnitDependency :=
  [UNIT_REQUIRES; UNIT_REQUISITE; UNIT_WANTS; UNIT_BINDS_TO; UNIT_PART_OF; UNIT_UPHOLDS;
  UNIT_REQUIRED_BY; UNIT_REQUISITE_OF; UNIT_WANTED_BY; UNIT_BOUND_BY; UNIT_CONSISTS_OF;
  UNIT_UPHELD_BY; UNIT_CONFLICTS; UNIT_CONFLICTED_BY; UNIT_BEFORE; UNIT_AFTER; UNIT_ON_SUCCESS;
  UNIT_ON_SUCCESS_OF; UNIT_ON_FAILURE; UNIT_ON_FAILURE_OF; UNIT_TRIGGERS; UNIT_TRIGGERED_BY;
  UNIT_PROPAGATES_RELOAD_TO; UNIT_RELOAD_PROPAGATED_FROM; UNIT_PROPAGATES_STOP_TO;
  UNIT_STOP_PROPAGATED_FROM; UNIT_JOINS_NAMESPACE_OF; UNIT_REFERENCES; UNIT_REFERENCED_BY;
  UNIT_IN_SLICE; UNIT_SLICE_OF].

Definition all_atoms : list UnitDependencyAtom :=
  [UNIT_ATOM_PULL_IN_START; UNIT_ATOM_PULL_IN_START_IGNORED; UNIT_ATOM_PULL_IN_VERIFY;
  UNIT_ATOM_PULL_IN_STOP; UNIT_ATOM_PULL_IN_STOP_IGNORED; UNIT_ATOM_ADD_STOP_WHEN_UNNEEDED_QUEUE;
  UNIT_ATOM_PINS_STOP_WHEN_UNNEEDED; UNIT_ATOM_CANNOT_BE_ACTIVE_WITHOUT;
  UNIT_ATOM_ADD_CANNOT_BE_ACTIVE_WITHOUT_QUEUE; UNIT_ATOM_START_STEADILY;
  UNIT_ATOM_ADD_START_WHEN_UPHELD_QUEUE; UNIT_ATOM_RETROACTIVE_START_REPLACE;
  UNIT_ATOM_RETROACTIVE_START_FAIL; UNIT_ATOM_RETROACTIVE_STOP_ON_START;
  UNIT_ATOM_RETROACTIVE_STOP_ON_STOP; UNIT_ATOM_PROPAGATE_START_FAILURE;
  UNIT_ATOM_PROPAGATE_STOP_FAILURE; UNIT_ATOM_PROPAGATE_INACTIVE_START_AS_FAILURE;
  UNIT_ATOM_PROPAGATE_STOP; UNIT_ATOM_PROPAGATE_RESTART;
  UNIT_ATOM_ADD_DEFAULT_TARGET_DEPENDENCY_QUEUE; UNIT_ATOM_DEFAULT_TARGET_DEPENDENCIES;
  UNIT_ATOM_ON_FAILURE; UNIT_ATOM_ON_SUCCESS; UNIT_ATOM_ON_FAILURE_OF; UNIT_ATOM_ON_SUCCESS_OF;
  UNIT_ATOM_BEFORE; UNIT_ATOM_AFTER; UNIT_ATOM_TRIGGERS; UNIT_ATOM_TRIGGERED_BY;
  UNIT_ATOM_PROPAGATES_RELOAD_TO; UNIT_ATOM_JOINS_NAMESPACE_OF; UNIT_ATOM_REFERENCES;
  UNIT_ATOM_REFERENCED_BY; UNIT_ATOM_IN_SLICE; UNIT_ATOM_SLICE_OF].
Definition dependency_num (d : UnitDependency) : nat := default 0%nat (fst <$> list_find (.= d) all_dependencies).

#[global] Instance UnitDependency_countable : Countable UnitDependency.
Proof. apply (inj_countable dependency_num (λ n, all_dependencies !! n)). by intros []. Defined.

Definition atom_num (a : UnitDependencyAtom) : nat := default 0%nat (fst <$> list_find (.= a) all_atoms).

(** [UNIT_ATOM_x]: one bit. *)
Definition atom_bit (a : UnitDependencyAtom) : Z := Z.shiftl 1 (Z.of_nat (atom_num a)).

Definition mask (l : list UnitDependencyAtom) : Z := foldr (λ a m, Z.lor (atom_bit a) m) 0 l.

(** ** The code *)

Definition atom_map (d : UnitDependency) : Z :=
  match d with
  | UNIT_REQUIRES => mask [UNIT_ATOM_PULL_IN_START; UNIT_ATOM_RETROACTIVE_START_REPLACE;
      UNIT_ATOM_ADD_STOP_WHEN_UNNEEDED_QUEUE; UNIT_ATOM_ADD_DEFAULT_TARGET_DEPENDENCY_QUEUE]
  | UNIT_REQUISITE => mask [UNIT_ATOM_PULL_IN_VERIFY; UNIT_ATOM_ADD_STOP_WHEN_UNNEEDED_QUEUE;
      UNIT_ATOM_ADD_DEFAULT_TARGET_DEPENDENCY_QUEUE]
  | UNIT_WANTS => mask [UNIT_ATOM_PULL_IN_START_IGNORED; UNIT_ATOM_RETROACTIVE_START_FAIL;
      UNIT_ATOM_ADD_STOP_WHEN_UNNEEDED_QUEUE; UNIT_ATOM_ADD_DEFAULT_TARGET_DEPENDENCY_QUEUE]
  | UNIT_BINDS_TO => mask [UNIT_ATOM_PULL_IN_START; UNIT_ATOM_RETROACTIVE_START_REPLACE;
      UNIT_ATOM_CANNOT_BE_ACTIVE_WITHOUT; UNIT_ATOM_ADD_STOP_WHEN_UNNEEDED_QUEUE;
      UNIT_ATOM_ADD_DEFAULT_TARGET_DEPENDENCY_QUEUE]
  | UNIT_PART_OF => mask [UNIT_ATOM_ADD_DEFAULT_TARGET_DEPENDENCY_QUEUE]
  | UNIT_UPHOLDS => mask [UNIT_ATOM_PULL_IN_START_IGNORED; UNIT_ATOM_RETROACTIVE_START_REPLACE;
      UNIT_ATOM_ADD_START_WHEN_UPHELD_QUEUE; UNIT_ATOM_ADD_STOP_WHEN_UNNEEDED_QUEUE;
      UNIT_ATOM_ADD_DEFAULT_TARGET_DEPENDENCY_QUEUE]
  | UNIT_REQUIRED_BY => mask [UNIT_ATOM_PROPAGATE_STOP; UNIT_ATOM_PROPAGATE_RESTART;
      UNIT_ATOM_PROPAGATE_START_FAILURE; UNIT_ATOM_PINS_STOP_WHEN_UNNEEDED;
      UNIT_ATOM_DEFAULT_TARGET_DEPENDENCIES]
  | UNIT_REQUISITE_OF => mask [UNIT_ATOM_PROPAGATE_STOP; UNIT_ATOM_PROPAGATE_RESTART;
      UNIT_ATOM_PROPAGATE_START_FAILURE; UNIT_ATOM_PROPAGATE_INACTIVE_START_AS_FAILURE;
      UNIT_ATOM_PINS_STOP_WHEN_UNNEEDED; UNIT_ATOM_DEFAULT_TARGET_DEPENDENCIES]
  | UNIT_WANTED_BY => mask [UNIT_ATOM_DEFAULT_TARGET_DEPENDENCIES;
      UNIT_ATOM_PINS_STOP_WHEN_UNNEEDED]
  | UNIT_BOUND_BY => mask [UNIT_ATOM_RETROACTIVE_STOP_ON_STOP; UNIT_ATOM_PROPAGATE_STOP;
      UNIT_ATOM_PROPAGATE_RESTART; UNIT_ATOM_PROPAGATE_START_FAILURE;
      UNIT_ATOM_PINS_STOP_WHEN_UNNEEDED; UNIT_ATOM_ADD_CANNOT_BE_ACTIVE_WITHOUT_QUEUE;
      UNIT_ATOM_DEFAULT_TARGET_DEPENDENCIES]
  | UNIT_UPHELD_BY => mask [UNIT_ATOM_START_STEADILY; UNIT_ATOM_DEFAULT_TARGET_DEPENDENCIES;
      UNIT_ATOM_PINS_STOP_WHEN_UNNEEDED]
  | UNIT_CONSISTS_OF => mask [UNIT_ATOM_PROPAGATE_STOP; UNIT_ATOM_PROPAGATE_RESTART]
  | UNIT_CONFLICTS => mask [UNIT_ATOM_PULL_IN_STOP; UNIT_ATOM_RETROACTIVE_STOP_ON_START]
  | UNIT_CONFLICTED_BY => mask [UNIT_ATOM_PULL_IN_STOP_IGNORED;
      UNIT_ATOM_RETROACTIVE_STOP_ON_START; UNIT_ATOM_PROPAGATE_STOP_FAILURE]
  | UNIT_PROPAGATES_STOP_TO => mask [UNIT_ATOM_RETROACTIVE_STOP_ON_STOP; UNIT_ATOM_PROPAGATE_STOP]
  | UNIT_ON_FAILURE => mask [UNIT_ATOM_ON_FAILURE]
  | UNIT_ON_SUCCESS => mask [UNIT_ATOM_ON_SUCCESS]
  | UNIT_ON_FAILURE_OF => mask [UNIT_ATOM_ON_FAILURE_OF]
  | UNIT_ON_SUCCESS_OF => mask [UNIT_ATOM_ON_SUCCESS_OF]
  | UNIT_BEFORE => mask [UNIT_ATOM_BEFORE]
  | UNIT_AFTER => mask [UNIT_ATOM_AFTER]
  | UNIT_TRIGGERS => mask [UNIT_ATOM_TRIGGERS]
  | UNIT_TRIGGERED_BY => mask [UNIT_ATOM_TRIGGERED_BY]
  | UNIT_PROPAGATES_RELOAD_TO => mask [UNIT_ATOM_PROPAGATES_RELOAD_TO]
  | UNIT_JOINS_NAMESPACE_OF => mask [UNIT_ATOM_JOINS_NAMESPACE_OF]
  | UNIT_REFERENCES => mask [UNIT_ATOM_REFERENCES]
  | UNIT_REFERENCED_BY => mask [UNIT_ATOM_REFERENCED_BY]
  | UNIT_IN_SLICE => mask [UNIT_ATOM_IN_SLICE]
  | UNIT_SLICE_OF => mask [UNIT_ATOM_SLICE_OF]
  | UNIT_RELOAD_PROPAGATED_FROM => mask []
  | UNIT_STOP_PROPAGATED_FROM => mask []
  end.

Definition unique_table : list (list UnitDependencyAtom * UnitDependency) :=
  [([UNIT_ATOM_PULL_IN_VERIFY; UNIT_ATOM_ADD_STOP_WHEN_UNNEEDED_QUEUE;
      UNIT_ATOM_ADD_DEFAULT_TARGET_DEPENDENCY_QUEUE], UNIT_REQUISITE);
   ([UNIT_ATOM_PULL_IN_VERIFY], UNIT_REQUISITE);
   ([UNIT_ATOM_PULL_IN_START_IGNORED; UNIT_ATOM_RETROACTIVE_START_FAIL;
      UNIT_ATOM_ADD_STOP_WHEN_UNNEEDED_QUEUE; UNIT_ATOM_ADD_DEFAULT_TARGET_DEPENDENCY_QUEUE],
      UNIT_WANTS);
   ([UNIT_ATOM_RETROACTIVE_START_FAIL], UNIT_WANTS);
   ([UNIT_ATOM_PULL_IN_START; UNIT_ATOM_RETROACTIVE_START_REPLACE;
      UNIT_ATOM_CANNOT_BE_ACTIVE_WITHOUT; UNIT_ATOM_ADD_STOP_WHEN_UNNEEDED_QUEUE;
      UNIT_ATOM_ADD_DEFAULT_TARGET_DEPENDENCY_QUEUE], UNIT_BINDS_TO);
   ([UNIT_ATOM_CANNOT_BE_ACTIVE_WITHOUT], UNIT_BINDS_TO);
   ([UNIT_ATOM_PULL_IN_START_IGNORED; UNIT_ATOM_RETROACTIVE_START_REPLACE;
      UNIT_ATOM_ADD_START_WHEN_UPHELD_QUEUE; UNIT_ATOM_ADD_STOP_WHEN_UNNEEDED_QUEUE;
      UNIT_ATOM_ADD_DEFAULT_TARGET_DEPENDENCY_QUEUE], UNIT_UPHOLDS);
   ([UNIT_ATOM_ADD_START_WHEN_UPHELD_QUEUE], UNIT_UPHOLDS);
   ([UNIT_ATOM_PROPAGATE_STOP; UNIT_ATOM_PROPAGATE_RESTART; UNIT_ATOM_PROPAGATE_START_FAILURE;
      UNIT_ATOM_PROPAGATE_INACTIVE_START_AS_FAILURE; UNIT_ATOM_PINS_STOP_WHEN_UNNEEDED;
      UNIT_ATOM_DEFAULT_TARGET_DEPENDENCIES], UNIT_REQUISITE_OF);
   ([UNIT_ATOM_PROPAGATE_INACTIVE_START_AS_FAILURE], UNIT_REQUISITE_OF);
   ([UNIT_ATOM_RETROACTIVE_STOP_ON_STOP; UNIT_ATOM_PROPAGATE_STOP; UNIT_ATOM_PROPAGATE_RESTART;
      UNIT_ATOM_PROPAGATE_START_FAILURE; UNIT_ATOM_PINS_STOP_WHEN_UNNEEDED;
      UNIT_ATOM_ADD_CANNOT_BE_ACTIVE_WITHOUT_QUEUE; UNIT_ATOM_DEFAULT_TARGET_DEPENDENCIES],
      UNIT_BOUND_BY);
   ([UNIT_ATOM_ADD_CANNOT_BE_ACTIVE_WITHOUT_QUEUE], UNIT_BOUND_BY);
   ([UNIT_ATOM_START_STEADILY; UNIT_ATOM_DEFAULT_TARGET_DEPENDENCIES;
      UNIT_ATOM_PINS_STOP_WHEN_UNNEEDED], UNIT_UPHELD_BY);
   ([UNIT_ATOM_START_STEADILY], UNIT_UPHELD_BY);
   ([UNIT_ATOM_PULL_IN_STOP; UNIT_ATOM_RETROACTIVE_STOP_ON_START], UNIT_CONFLICTS);
   ([UNIT_ATOM_PULL_IN_STOP], UNIT_CONFLICTS);
   ([UNIT_ATOM_PULL_IN_STOP_IGNORED; UNIT_ATOM_RETROACTIVE_STOP_ON_START;
      UNIT_ATOM_PROPAGATE_STOP_FAILURE], UNIT_CONFLICTED_BY);
   ([UNIT_ATOM_PULL_IN_STOP_IGNORED], UNIT_CONFLICTED_BY);
   ([UNIT_ATOM_PROPAGATE_STOP_FAILURE], UNIT_CONFLICTED_BY);
   ([UNIT_ATOM_ON_FAILURE], UNIT_ON_FAILURE);
   ([UNIT_ATOM_ON_SUCCESS], UNIT_ON_SUCCESS);
   ([UNIT_ATOM_ON_SUCCESS_OF], UNIT_ON_SUCCESS_OF);
   ([UNIT_ATOM_ON_FAILURE_OF], UNIT_ON_FAILURE_OF);
   ([UNIT_ATOM_BEFORE], UNIT_BEFORE);
   ([UNIT_ATOM_AFTER], UNIT_AFTER);
   ([UNIT_ATOM_TRIGGERS], UNIT_TRIGGERS);
   ([UNIT_ATOM_TRIGGERED_BY], UNIT_TRIGGERED_BY);
   ([UNIT_ATOM_PROPAGATES_RELOAD_TO], UNIT_PROPAGATES_RELOAD_TO);
   ([UNIT_ATOM_JOINS_NAMESPACE_OF], UNIT_JOINS_NAMESPACE_OF);
   ([UNIT_ATOM_REFERENCES], UNIT_REFERENCES);
   ([UNIT_ATOM_REFERENCED_BY], UNIT_REFERENCED_BY);
   ([UNIT_ATOM_IN_SLICE], UNIT_IN_SLICE);
   ([UNIT_ATOM_SLICE_OF], UNIT_SLICE_OF)].

Definition inverse_table (d : UnitDependency) : UnitDependency :=
  match d with
  | UNIT_REQUIRES => UNIT_REQUIRED_BY
  | UNIT_REQUISITE => UNIT_REQUISITE_OF
  | UNIT_WANTS => UNIT_WANTED_BY
  | UNIT_BINDS_TO => UNIT_BOUND_BY
  | UNIT_PART_OF => UNIT_CONSISTS_OF
  | UNIT_UPHOLDS => UNIT_UPHELD_BY
  | UNIT_REQUIRED_BY => UNIT_REQUIRES
  | UNIT_REQUISITE_OF => UNIT_REQUISITE
  | UNIT_WANTED_BY => UNIT_WANTS
  | UNIT_BOUND_BY => UNIT_BINDS_TO
  | UNIT_CONSISTS_OF => UNIT_PART_OF
  | UNIT_UPHELD_BY => UNIT_UPHOLDS
  | UNIT_CONFLICTS => UNIT_CONFLICTED_BY
  | UNIT_CONFLICTED_BY => UNIT_CONFLICTS
  | UNIT_BEFORE => UNIT_AFTER
  | UNIT_AFTER => UNIT_BEFORE
  | UNIT_ON_SUCCESS => UNIT_ON_SUCCESS_OF
  | UNIT_ON_SUCCESS_OF => UNIT_ON_SUCCESS
  | UNIT_ON_FAILURE => UNIT_ON_FAILURE_OF
  | UNIT_ON_FAILURE_OF => UNIT_ON_FAILURE
  | UNIT_TRIGGERS => UNIT_TRIGGERED_BY
  | UNIT_TRIGGERED_BY => UNIT_TRIGGERS
  | UNIT_PROPAGATES_RELOAD_TO => UNIT_RELOAD_PROPAGATED_FROM
  | UNIT_RELOAD_PROPAGATED_FROM => UNIT_PROPAGATES_RELOAD_TO
  | UNIT_PROPAGATES_STOP_TO => UNIT_STOP_PROPAGATED_FROM
  | UNIT_STOP_PROPAGATED_FROM => UNIT_PROPAGATES_STOP_TO
  | UNIT_JOINS_NAMESPACE_OF => UNIT_JOINS_NAMESPACE_OF
  | UNIT_REFERENCES => UNIT_REFERENCED_BY
  | UNIT_REFERENCED_BY => UNIT_REFERENCES
  | UNIT_IN_SLICE => UNIT_SLICE_OF
  | UNIT_SLICE_OF => UNIT_IN_SLICE
  end.

Definition unit_dependency_to_atom (d : UnitDependency) : Z := atom_map d.

(** [None] for [_UNIT_DEPENDENCY_INVALID]. *)
Definition unit_dependency_from_unique_atom (atom : Z) : option UnitDependency :=
  snd <$> find (λ c, mask (fst c) =? atom) unique_table.

(** ** What the tables say *)

(** The atoms of a type. *)
Definition has_atom (d : UnitDependency) (a : UnitDependencyAtom) : bool := negb (Z.land (atom_map d) (atom_bit a) =? 0).

Lemma all_dependencies_all d : d ∈ all_dependencies.
Proof. destruct d; by_decide. Qed.

Lemma forall_dependencies (P : UnitDependency → bool) d : forallb P all_dependencies = true → P d = true.
Proof. intros H. apply (proj1 (forallb_forall _ _) H). apply list_elem_of_In, all_dependencies_all. Qed.

Lemma all_atoms_all a : a ∈ all_atoms.
Proof. destruct a; by_decide. Qed.

(** The shortcut: every entry of the table names the only type that has all of the atoms. *)
Lemma unique_atom_only atom d :
  unit_dependency_from_unique_atom atom = Some d →
  ∀ d', Z.land (atom_map d') atom = atom ↔ d' = d.
Proof.
  unfold unit_dependency_from_unique_atom. destruct (find _ _) as [[l x]|] eqn:E; [|done]. cbn. intros [= <-].
  apply find_some in E as [Hin Heq%Z.eqb_eq]. cbn [fst] in Heq. subst atom.
  assert (Hall : forallb (λ c, forallb (λ d', eqb (Z.land (atom_map d') (mask (fst c)) =? mask (fst c)) (bool_decide (d' = snd c))) all_dependencies) unique_table = true)
    by (vm_compute; reflexivity).
  pose proof (proj1 (forallb_forall _ _) Hall _ Hin) as Hc. cbn [fst snd] in Hc. intros d'.
  pose proof (forall_dependencies _ d' Hc) as Hd. apply eqb_prop in Hd. etransitivity; [symmetry; apply Z.eqb_eq|]. rewrite Hd. apply bool_decide_eq_true.
Qed.

(** For a single atom: the only type that has it. *)
Lemma unique_single a d :
  unit_dependency_from_unique_atom (atom_bit a) = Some d → ∀ d', has_atom d' a = true ↔ d' = d.
Proof.
  intros Hu d'. rewrite <- (unique_atom_only _ _ Hu d'). unfold has_atom.
  assert (H : forallb (λ d, forallb (λ a, eqb (negb (Z.land (atom_map d) (atom_bit a) =? 0)) (Z.land (atom_map d) (atom_bit a) =? atom_bit a)) all_atoms) all_dependencies = true)
    by (vm_compute; reflexivity).
  pose proof (forall_dependencies _ d' H) as Hd. pose proof (proj1 (forallb_forall _ _) Hd a) as Ha.
  apply eqb_prop in Ha; [|apply list_elem_of_In, all_atoms_all]. rewrite Ha. apply Z.eqb_eq.
Qed.

Lemma inverse_involutive d : inverse_table (inverse_table d) = d.
Proof. by destruct d. Qed.

(** The settings and their counterparts, as systemd.unit(5) pairs them. JoinsNamespaceOf= is the one
    type that is only recorded on the side it is configured on. *)
Definition both_sides : list (UnitDependency * UnitDependency) :=
  [(UNIT_REQUIRES, UNIT_REQUIRED_BY); (UNIT_REQUISITE, UNIT_REQUISITE_OF); (UNIT_WANTS, UNIT_WANTED_BY);
   (UNIT_BINDS_TO, UNIT_BOUND_BY); (UNIT_PART_OF, UNIT_CONSISTS_OF); (UNIT_UPHOLDS, UNIT_UPHELD_BY);
   (UNIT_CONFLICTS, UNIT_CONFLICTED_BY); (UNIT_BEFORE, UNIT_AFTER); (UNIT_ON_SUCCESS, UNIT_ON_SUCCESS_OF);
   (UNIT_ON_FAILURE, UNIT_ON_FAILURE_OF); (UNIT_TRIGGERS, UNIT_TRIGGERED_BY);
   (UNIT_PROPAGATES_RELOAD_TO, UNIT_RELOAD_PROPAGATED_FROM); (UNIT_PROPAGATES_STOP_TO, UNIT_STOP_PROPAGATED_FROM);
   (UNIT_REFERENCES, UNIT_REFERENCED_BY); (UNIT_IN_SLICE, UNIT_SLICE_OF)].

Definition counterpart (d d' : UnitDependency) : Prop := (d, d') ∈ both_sides ∨ (d', d) ∈ both_sides.

Lemma counterpart_inverse d d' : counterpart d d' → inverse_table d = d' ∧ inverse_table d ≠ d.
Proof.
  assert (H : forallb (λ c, bool_decide (inverse_table (fst c) = snd c ∧ inverse_table (snd c) = fst c ∧ fst c ≠ snd c)) both_sides = true)
    by (vm_compute; reflexivity).
  rewrite forallb_forall in H. intros [Hin|Hin]; apply list_elem_of_In, H, bool_decide_eq_true in Hin as (H1 & H2 & H3); cbn in *; split; congruence.
Qed.

Lemma counterpart_or_self d : d = UNIT_JOINS_NAMESPACE_OF ∨ counterpart d (inverse_table d).
Proof. destruct (decide (d = UNIT_JOINS_NAMESPACE_OF)) as [?|Hn]; [by left|right]. unfold counterpart. destruct d; try done; by_decide. Qed.

(** Atoms that belong to inverse types. *)
Definition inverse_atoms : list (UnitDependencyAtom * UnitDependencyAtom) :=
  [(UNIT_ATOM_BEFORE, UNIT_ATOM_AFTER);
   (UNIT_ATOM_ADD_STOP_WHEN_UNNEEDED_QUEUE, UNIT_ATOM_PINS_STOP_WHEN_UNNEEDED);
   (UNIT_ATOM_CANNOT_BE_ACTIVE_WITHOUT, UNIT_ATOM_ADD_CANNOT_BE_ACTIVE_WITHOUT_QUEUE);
   (UNIT_ATOM_ADD_START_WHEN_UPHELD_QUEUE, UNIT_ATOM_START_STEADILY);
   (UNIT_ATOM_TRIGGERS, UNIT_ATOM_TRIGGERED_BY);
   (UNIT_ATOM_ON_FAILURE, UNIT_ATOM_ON_FAILURE_OF);
   (UNIT_ATOM_ON_SUCCESS, UNIT_ATOM_ON_SUCCESS_OF);
   (UNIT_ATOM_REFERENCES, UNIT_ATOM_REFERENCED_BY);
   (UNIT_ATOM_IN_SLICE, UNIT_ATOM_SLICE_OF)].

Lemma inverse_atoms_ok a b d : (a, b) ∈ inverse_atoms → has_atom d a = has_atom (inverse_table d) b ∧ (has_atom d a = true → inverse_table d ≠ d).
Proof.
  intros Hin. assert (H : forallb (λ c, forallb (λ d, eqb (has_atom d (fst c)) (has_atom (inverse_table d) (snd c)) &&
    (negb (has_atom d (fst c)) || bool_decide (inverse_table d ≠ d))) all_dependencies) inverse_atoms = true) by (vm_compute; reflexivity).
  apply list_elem_of_In in Hin. pose proof (forall_dependencies _ d (proj1 (forallb_forall _ _) H _ Hin)) as Hd. cbn [fst snd] in Hd.
  apply andb_true_iff in Hd as [H1%eqb_prop H2]. split; [done|]. intros Ht. rewrite Ht in H2. cbn in H2. by apply bool_decide_eq_true in H2.
Qed.
