(* ===== verification/UnitDeps.v ===== *)
(** * The dependency tables of units (src/core/unit.c)

    Each unit has a hash table from dependency types to hash tables from units to masks: the
    [origin_mask] says by whom the dependency was configured here, the [destination_mask] by whom
    on the other unit. A dependency is entered in both units, with the inverse type in the other
    one. The hash tables are finite maps (see HashmapMap); memory is available. *)

From S2P Require Import Prelude JobType UnitDep.

(** What [unit_add_dependency] asks of the units and the manager. *)
Class UnitKinds := {
  is_device : positive → bool;
  is_slice : positive → bool;
  can_fail : positive → bool;
  can_trigger : positive → bool;
  has_cgroup_context : positive → bool;
  test_run_ignore_dependencies : bool }.

Record UnitDependencyInfo := Info { origin_mask : Z; destination_mask : Z }.
#[global] Instance UnitDependencyInfo_eq_dec : EqDecision UnitDependencyInfo.
Proof. solve_decision. Defined.

Definition _UNIT_DEPENDENCY_MASK_FULL : Z := 2 ^ 9 - 1.

Abbreviation PerType := (gmap positive UnitDependencyInfo).

Record Tables := MkTables {
  dependencies : gmap positive (gmap UnitDependency PerType);
  merged_into : gmap positive positive }.

(** ** The code *)

Definition FLAGS_SET (v flags : Z) : bool := Z.land (Z.lnot v) flags =? 0.

Definition deps_of (D : Tables) (u : positive) : gmap UnitDependency PerType := default ∅ (dependencies D !! u).
Definition per_type (D : Tables) (u : positive) (d : UnitDependency) : PerType := default ∅ (deps_of D u !! d).

Definition set_deps (u : positive) (t : gmap UnitDependency PerType) (D : Tables) : Tables :=
  MkTables (<[u := t]> (dependencies D)) (merged_into D).
Definition set_per_type (u : positive) (d : UnitDependency) (t : PerType) (D : Tables) : Tables :=
  set_deps u (<[d := t]> (deps_of D u)) D.

(** The result, and the table. *)
Definition unit_per_dependency_type_hashmap_update (t : PerType) (other : positive) (origin destination : Z) : Z * PerType :=
  match t !! other with
  | Some info =>
      if FLAGS_SET origin (origin_mask info) && FLAGS_SET destination (destination_mask info) then (0, t)
      else (1, <[other := Info (Z.lor (origin_mask info) origin) (Z.lor (destination_mask info) destination)]> t)
  | None => (1, <[other := Info origin destination]> t)
  end.

Definition unit_add_dependency_hashmap (u : positive) (d : UnitDependency) (other : positive) (origin destination : Z) (D : Tables)
    : option (Z * Tables) :=
  assert_ (origin <? _UNIT_DEPENDENCY_MASK_FULL);;
  assert_ (destination <? _UNIT_DEPENDENCY_MASK_FULL);;
  assert_ ((0 <? origin) || (0 <? destination));;
  let '(r, t) := unit_per_dependency_type_hashmap_update (per_type D u d) other origin destination in
  Some (r, set_per_type u d t D).

Fixpoint follow_merge (fuel : nat) (D : Tables) (u : positive) : option positive :=
  match merged_into D !! u with
  | None => Some u
  | Some v => match fuel with O => None | S fuel => follow_merge fuel D v end
  end.

Definition unit_follow_merge (D : Tables) (u : positive) : option positive := follow_merge (size (merged_into D)) D u.

Definition atom_set (d : UnitDependency) (a : UnitDependencyAtom) : bool := FLAGS_SET (unit_dependency_to_atom d) (atom_bit a).

Section Code.
Context {UK : UnitKinds}.

(** Dependencies that are dropped or refused. *)
Definition refuse_dependency (u : positive) (d : UnitDependency) (other : positive) : option Z :=
  if bool_decide (u = other) then Some 0
  else if test_run_ignore_dependencies then Some 0
  else if atom_set d UNIT_ATOM_BEFORE && is_device other then Some 0
  else if atom_set d UNIT_ATOM_ON_FAILURE && negb (can_fail u) then Some 0
  else if atom_set d UNIT_ATOM_TRIGGERS && negb (can_trigger u) then Some (-EINVAL)
  else if atom_set d UNIT_ATOM_TRIGGERED_BY && negb (can_trigger other) then Some (-EINVAL)
  else if atom_set d UNIT_ATOM_IN_SLICE && negb (is_slice other) then Some (-EINVAL)
  else if atom_set d UNIT_ATOM_SLICE_OF && negb (is_slice u) then Some (-EINVAL)
  else if atom_set d UNIT_ATOM_IN_SLICE && negb (has_cgroup_context u) then Some (-EINVAL)
  else if atom_set d UNIT_ATOM_SLICE_OF && negb (has_cgroup_context other) then Some (-EINVAL)
  else None.

Definition unit_add_dependency (u : positive) (d : UnitDependency) (other : positive) (add_reference : bool) (mask : Z) (D : Tables)
    : option (Z * Tables) :=
  u ← unit_follow_merge D u;
  other ← unit_follow_merge D other;
  match refuse_dependency u d other with
  | Some r => Some (r, D)
  | None =>
      '(r, D) ← unit_add_dependency_hashmap u d other mask 0 D;
      let notify := 0 <? r in
      '(notify_other, D) ←
        (if bool_decide (inverse_table d ≠ d) then
           '(r, D) ← unit_add_dependency_hashmap other (inverse_table d) u 0 mask D; Some (0 <? r, D)
         else Some (false, D));
      '(notify, notify_other, D) ←
        (if add_reference then
           '(r, D) ← unit_add_dependency_hashmap u UNIT_REFERENCES other mask 0 D;
           let notify := notify || (0 <? r) in
           '(r, D) ← unit_add_dependency_hashmap other UNIT_REFERENCED_BY u 0 mask D;
           Some (notify, notify_other || (0 <? r), D)
         else Some (notify, notify_other, D));
      Some (if notify || notify_other then 1 else 0, D)
  end.
End Code.

Definition unit_update_dependency_mask (t : PerType) (other : positive) (di : UnitDependencyInfo) : PerType :=
  if (origin_mask di =? 0) && (destination_mask di =? 0) then delete other t else <[other := di]> t.

(** The reverse dependencies of one unit on [u], of every type. *)
Definition drop_reverse (u : positive) (m : Z) (t : PerType) : PerType :=
  match t !! u with
  | None => t
  | Some dj =>
      if FLAGS_SET (Z.lnot m) (destination_mask dj) then t
      else unit_update_dependency_mask t u (Info (origin_mask dj) (Z.land (destination_mask dj) (Z.lnot m)))
  end.

(** The loop over one type, which starts over after each change. *)
Fixpoint remove_type (fuel : nat) (u : positive) (m : Z) (d : UnitDependency) (D : Tables) : option Tables :=
  match find (λ e, negb (FLAGS_SET (Z.lnot m) (origin_mask (snd e)))) (map_to_list (per_type D u d)) with
  | None => Some D
  | Some (other, di) =>
      match fuel with
      | O => None
      | S fuel =>
          let t := unit_update_dependency_mask (per_type D u d) other (Info (Z.land (origin_mask di) (Z.lnot m)) (destination_mask di)) in
          let D := set_per_type u d t D in
          let D := set_deps other (drop_reverse u m <$> deps_of D other) D in
          remove_type fuel u m d D
      end
  end.

Fixpoint remove_types (u : positive) (m : Z) (ds : list UnitDependency) (D : Tables) : option Tables :=
  match ds with
  | [] => Some D
  | d :: ds => D ← remove_type (size (per_type D u d)) u m d D; remove_types u m ds D
  end.

Definition unit_remove_dependencies (u : positive) (m : Z) (D : Tables) : option Tables :=
  if m =? 0 then Some D else remove_types u m (map_to_list (deps_of D u)).*1 D.

(** Every dependency of [u], and what other units have on it. *)
Definition unit_clear_dependencies (u : positive) (D : Tables) : Tables :=
  let others := mjoin ((λ e, (map_to_list (snd e)).*1) <$> map_to_list (deps_of D u)) in
  let D := foldr (λ other D, set_deps other (delete u <$> deps_of D other) D) D others in
  MkTables (delete u (dependencies D)) (merged_into D).

(** [UNIT_FOREACH_DEPENDENCY]: what is visited. *)
Definition foreach_dependency (D : Tables) (u : positive) (match_atom : Z) : list positive :=
  let visit (e : UnitDependency * PerType) :=
    if negb (Z.land (unit_dependency_to_atom (fst e)) match_atom =? 0) then (map_to_list (snd e)).*1 else [] in
  match unit_dependency_from_unique_atom match_atom with
  | Some d => match deps_of D u !! d with Some t => visit (d, t) | None => [] end
  | None => mjoin (visit <$> map_to_list (deps_of D u))
  end.

Definition unit_has_dependency (D : Tables) (u : positive) (atom : Z) (other : option positive) : option positive :=
  find (λ i, match other with None => true | Some o => bool_decide (o = i) end) (foreach_dependency D u atom).

Definition unit_get_dependency_array (D : Tables) (u : positive) (atom : Z) : list positive := foreach_dependency D u atom.

(** What [back] has on [other] is moved to [u]. *)
Definition redirect (u other : positive) (t : PerType) : PerType :=
  match t !! other with
  | None => t
  | Some di => snd (unit_per_dependency_type_hashmap_update (delete other t) u (origin_mask di) (destination_mask di))
  end.

(** One type of dependencies of [other]. *)
Definition merge_type (u other : positive) (e : UnitDependency * PerType) (D : Tables) : Tables :=
  let '(dt, t) := e in
  let deps := deps_of D u !! dt in
  let D := foldl (λ D x,
      let '(back, di) := x in
      if bool_decide (back = u) then D
      else
        let D := set_deps back (redirect u other <$> deps_of D back) D in
        if bool_decide (deps ≠ None) then
          set_per_type u dt (snd (unit_per_dependency_type_hashmap_update (per_type D u dt) back (origin_mask di) (destination_mask di))) D
        else D) D (map_to_list t) in
  if bool_decide (deps ≠ None) then D else set_per_type u dt (delete u t) D.

Definition unit_merge_dependencies (u other : positive) (D : Tables) : Tables :=
  if bool_decide (u = other) then D
  else
    let deps := filter (λ e, snd e ≠ ∅) (delete other <$> deps_of D u) in
    let D := set_deps u deps D in
    let D := foldl (λ D e, merge_type u other e D) D (map_to_list (deps_of D other)) in
    MkTables (delete other (dependencies D)) (merged_into D).

(** ** Single entries *)

Definition info (D : Tables) (u : positive) (d : UnitDependency) (v : positive) : option UnitDependencyInfo := per_type D u d !! v.

Definition origin (i : option UnitDependencyInfo) : Z := from_option origin_mask 0 i.
Definition destination (i : option UnitDependencyInfo) : Z := from_option destination_mask 0 i.

Lemma deps_of_set u t D w : deps_of (set_deps u t D) w = if decide (w = u) then t else deps_of D w.
Proof. unfold deps_of, set_deps. cbn. case_decide; [subst; by rewrite lookup_insert_eq|by rewrite lookup_insert_ne by congruence]. Qed.

Lemma per_type_set_deps u t D w d : per_type (set_deps u t D) w d = if decide (w = u) then default ∅ (t !! d) else per_type D w d.
Proof. unfold per_type. rewrite deps_of_set. by case_decide. Qed.

Lemma per_type_set u d t D w x : per_type (set_per_type u d t D) w x = if decide (w = u ∧ x = d) then t else per_type D w x.
Proof.
  unfold set_per_type. rewrite per_type_set_deps. case_decide as E1; [subst w|]; case_decide as E2; try naive_solver.
  - destruct E2 as [_ ->]. by rewrite lookup_insert_eq.
  - by rewrite lookup_insert_ne by naive_solver.
Qed.

Lemma info_map (f : PerType → PerType) D u w d v :
  f ∅ = ∅ → info (set_deps u (f <$> deps_of D u) D) w d v = if decide (w = u) then f (per_type D u d) !! v else info D w d v.
Proof.
  intros Hf. unfold info. rewrite per_type_set_deps. case_decide; [|done]. unfold per_type. rewrite lookup_fmap.
  destruct (deps_of D u !! d); cbn; [done|]. by rewrite Hf.
Qed.

(** ** Masks *)

Lemma flags_set_bits v f : 0 <= f → FLAGS_SET v f = true ↔ ∀ n, 0 <= n → Z.testbit f n = true → Z.testbit v n = true.
Proof.
  intros Hf. unfold FLAGS_SET. rewrite Z.eqb_eq. split.
  - intros H n Hn Hb. assert (Hx : Z.testbit (Z.land (Z.lnot v) f) n = false) by (rewrite H; apply Z.bits_0).
    rewrite Z.land_spec, Z.lnot_spec, Hb in Hx by done. by destruct (Z.testbit v n).
  - intros H. apply Z.bits_inj'. intros n Hn. rewrite Z.land_spec, Z.lnot_spec, Z.bits_0 by done.
    destruct (Z.testbit f n) eqn:E; [by rewrite (H n Hn E)|apply andb_false_r].
Qed.

(** Taking the bits [m] away changes nothing if and only if they are not set. *)
Lemma flags_clear m f : FLAGS_SET (Z.lnot m) f = true ↔ Z.land f (Z.lnot m) = f.
Proof.
  unfold FLAGS_SET. rewrite Z.lnot_involutive, Z.eqb_eq. split; intros H.
  - apply Z.bits_inj'. intros n Hn. assert (Hx : Z.testbit (Z.land m f) n = false) by (rewrite H; apply Z.bits_0).
    rewrite Z.land_spec in Hx. rewrite Z.land_spec, Z.lnot_spec by done. destruct (Z.testbit m n), (Z.testbit f n); done.
  - apply Z.bits_inj'. intros n Hn. assert (Hx : Z.testbit (Z.land f (Z.lnot m)) n = Z.testbit f n) by by rewrite H.
    rewrite Z.land_spec, Z.lnot_spec in Hx by done. rewrite Z.bits_0, Z.land_spec. destruct (Z.testbit m n), (Z.testbit f n); done.
Qed.

Lemma clear_twice m f : Z.land (Z.land f (Z.lnot m)) (Z.lnot m) = Z.land f (Z.lnot m).
Proof. by rewrite <- Z.land_assoc, Z.land_diag. Qed.

Lemma clear_nonneg m f : 0 <= f → 0 <= Z.land f (Z.lnot m).
Proof. intros H. apply Z.land_nonneg. by left. Qed.

(** ** What an update leaves in an entry *)

(** New masks that contain the old ones are not added: see [update_loses_masks]. *)
Definition joined (i : option UnitDependencyInfo) (o d : Z) : UnitDependencyInfo :=
  match i with
  | None => Info o d
  | Some i => if FLAGS_SET o (origin_mask i) && FLAGS_SET d (destination_mask i) then i else Info (Z.lor (origin_mask i) o) (Z.lor (destination_mask i) d)
  end.

Lemma update_lookup t v o d w :
  snd (unit_per_dependency_type_hashmap_update t v o d) !! w = if decide (w = v) then Some (joined (t !! v) o d) else t !! w.
Proof.
  unfold unit_per_dependency_type_hashmap_update, joined. destruct (t !! v) as [i|] eqn:E.
  - destruct (FLAGS_SET o (origin_mask i) && FLAGS_SET d (destination_mask i)); cbn [snd]; case_decide as Hw; [by subst|done|subst; apply lookup_insert_eq|].
    by rewrite lookup_insert_ne by congruence.
  - cbn [snd]. case_decide as Hw; [subst; apply lookup_insert_eq|]. by rewrite lookup_insert_ne by congruence.
Qed.

(** The two sides of a dependency are joined in the same way. *)
Lemma joined_mirror i j o d :
  origin i = destination j → destination i = origin j → (i = None ↔ j = None) →
  origin_mask (joined i o d) = destination_mask (joined j d o) ∧ destination_mask (joined i o d) = origin_mask (joined j d o).
Proof.
  intros H1 H2 H3. destruct i as [[io id]|], j as [[jo jd]|]; try (by destruct H3; naive_solver). cbn in *. subst.
  rewrite andb_comm. by destruct (_ && _).
Qed.

(** ** The invariant *)

Definition masks_ok (o d : Z) : Prop := 0 <= o ∧ 0 <= d ∧ ¬ (o = 0 ∧ d = 0).

(** Each dependency is in both units. A type that is its own inverse is only in the unit that was
    configured with it. *)
Record mirrored (D : Tables) : Prop := {
  mi_self u d : info D u d u = None;
  mi_masks u d v i : info D u d v = Some i → masks_ok (origin_mask i) (destination_mask i);
  mi_mirror u d v : inverse_table d ≠ d → origin (info D u d v) = destination (info D v (inverse_table d) u);
  mi_sym u d v : inverse_table d = d → destination (info D u d v) = 0 }.

Lemma none_masks D u d v : mirrored D → info D u d v = None ↔ origin (info D u d v) = 0 ∧ destination (info D u d v) = 0.
Proof.
  intros HD. split; [by intros ->|]. destruct (info D u d v) as [i|] eqn:E; [|done]. intros H. destruct (mi_masks D HD u d v i E) as (_ & _ & Hn). by destruct Hn.
Qed.

Lemma mirror_both D u d v :
  mirrored D → inverse_table d ≠ d →
  origin (info D u d v) = destination (info D v (inverse_table d) u) ∧ destination (info D u d v) = origin (info D v (inverse_table d) u) ∧
  (info D u d v = None ↔ info D v (inverse_table d) u = None).
Proof.
  intros HD Hd. assert (H1 : origin (info D u d v) = destination (info D v (inverse_table d) u)) by by apply (mi_mirror D HD).
  assert (H2 : destination (info D u d v) = origin (info D v (inverse_table d) u)).
  { rewrite (mi_mirror D HD v (inverse_table d) u), inverse_involutive; [done|]. by rewrite inverse_involutive. }
  split_and!; [done..|]. rewrite !(none_masks D) by done. rewrite H1, H2. naive_solver.
Qed.

Lemma joined_ok i o d : (∀ x, i = Some x → masks_ok (origin_mask x) (destination_mask x)) → masks_ok o d → masks_ok (origin_mask (joined i o d)) (destination_mask (joined i o d)).
Proof.
  intros Hi (Ho & Hd & Hn). destruct i as [[io id]|]; cbn; [|done]. destruct (Hi _ eq_refl) as (H1 & H2 & H3). cbn in *.
  destruct (_ && _); cbn; [done|]. split_and!; [by apply Z.lor_nonneg|by apply Z.lor_nonneg|]. rewrite !Z.lor_eq_0_iff. naive_solver.
Qed.

(** An entry of a table. *)
Definition Entry : Type := positive * UnitDependency * positive.
Definition at_entry (D : Tables) (e : Entry) : option UnitDependencyInfo := info D (fst (fst e)) (snd (fst e)) (snd e).

(** Joining both sides of a dependency keeps the invariant. *)
Lemma mirrored_join D D' u d v o de :
  mirrored D → u ≠ v → inverse_table d ≠ d → masks_ok o de →
  (∀ a x b, info D' a x b =
     if decide ((a, x, b) = (u, d, v)) then Some (joined (info D u d v) o de)
     else if decide ((a, x, b) = (v, inverse_table d, u)) then Some (joined (info D v (inverse_table d) u) de o) else info D a x b) →
  mirrored D'.
Proof.
  intros HD Huv Hd Hm Hinfo. destruct (mirror_both D u d v HD Hd) as (H1 & H2 & H3). destruct (joined_mirror _ _ o de H1 H2 H3) as [J1 J2].
  assert (Hne : (u, d, v) ≠ (v, inverse_table d, u)) by congruence. split.
  - intros a x. rewrite Hinfo. rewrite !decide_False by congruence. by apply mi_self.
  - intros a x b i. rewrite Hinfo. repeat case_decide; [| |by apply mi_masks]; intros [= <-]; apply joined_ok; try (intros y; by apply mi_masks); destruct Hm as (? & ? & ?); split_and!; naive_solver.
  - intros a x b Hx. rewrite !Hinfo. destruct (decide ((a, x, b) = (u, d, v))) as [[= -> -> ->]|E1].
    + rewrite decide_False by congruence. by rewrite decide_True.
    + destruct (decide ((a, x, b) = (v, inverse_table d, u))) as [[= -> -> ->]|E2].
      * rewrite inverse_involutive. by rewrite decide_True.
      * pose proof (inverse_involutive x). pose proof (inverse_involutive d). rewrite !decide_False by congruence. by apply mi_mirror.
  - intros a x b Hx. assert (x ≠ d ∧ x ≠ inverse_table d) as [Hx1 Hx2].
    { split; intros ->; [done|]. rewrite inverse_involutive in Hx. congruence. }
    rewrite Hinfo, !decide_False by congruence. by apply mi_sym.
Qed.

Lemma mirrored_ext D D' : (∀ a x b, info D' a x b = info D a x b) → mirrored D → mirrored D'.
Proof.
  intros He [H1 H2 H3 H4]. split; [intros u d|intros u d v i|intros u d v|intros u d v]; rewrite !He; auto. apply H2.
Qed.

(** A type that is its own inverse is joined on one side. *)
Lemma mirrored_join_self D D' u d v o :
  mirrored D → u ≠ v → inverse_table d = d → 0 < o →
  (∀ a x b, info D' a x b = if decide ((a, x, b) = (u, d, v)) then Some (joined (info D u d v) o 0) else info D a x b) →
  mirrored D'.
Proof.
  intros HD Huv Hd Ho Hinfo. split.
  - intros a x. rewrite Hinfo, decide_False by congruence. by apply mi_self.
  - intros a x b i. rewrite Hinfo. case_decide; [|by apply mi_masks]. intros [= <-]. apply joined_ok; [intros y; by apply mi_masks|]. split_and!; lia.
  - intros a x b Hx. rewrite !Hinfo, !decide_False; [by apply mi_mirror|..]; pose proof (inverse_involutive x); congruence.
  - intros a x b Hx. rewrite Hinfo. case_decide as E; [|by apply mi_sym]. cbn. pose proof (mi_sym D HD u d v Hd) as Hs.
    destruct (info D u d v) as [[io id]|]; cbn in *; [|done]. destruct (_ && _); [done|]. cbn. subst id. done.
Qed.

(** ** Adding *)

Definition mask_ok (m : Z) : Prop := 0 < m < _UNIT_DEPENDENCY_MASK_FULL.

Lemma add_hashmap_spec D u d v o de :
  o < _UNIT_DEPENDENCY_MASK_FULL → de < _UNIT_DEPENDENCY_MASK_FULL → 0 < o ∨ 0 < de →
  ∃ r D', unit_add_dependency_hashmap u d v o de D = Some (r, D') ∧ merged_into D' = merged_into D ∧ 
    (∀ a x b, info D' a x b = if decide ((a, x, b) = (u, d, v)) then Some (joined (info D u d v) o de) else info D a x b).
Proof.
  intros Ho Hd Hor. unfold unit_add_dependency_hashmap, assert_. rewrite (proj2 (Z.ltb_lt _ _) Ho), (proj2 (Z.ltb_lt _ _) Hd).
  replace ((0 <? o) || (0 <? de)) with true by (symmetry; apply orb_true_iff; rewrite !Z.ltb_lt; done). cbn [mbind option_bind].
  destruct (unit_per_dependency_type_hashmap_update _ _ _ _) as [r t] eqn:E. eexists r, _. split_and!; [done..|]. intros a x b.
  pose proof (update_lookup (per_type D u d) v o de) as Hu. rewrite E in Hu. cbn [snd] in Hu.
  unfold info at 1. rewrite per_type_set. case_decide as E1; [destruct E1 as [-> ->]; rewrite Hu|]; repeat case_decide; try congruence; naive_solver.
Qed.

(** Every merge ends in a unit that is not merged. *)
Definition merges_end (D : Tables) : Prop := ∀ u, is_Some (unit_follow_merge D u).

Lemma mirrored_pair D D1 D2 u d v m :
  mirrored D → u ≠ v → inverse_table d ≠ d → mask_ok m →
  (∀ a x b, info D1 a x b = if decide ((a, x, b) = (u, d, v)) then Some (joined (info D u d v) m 0) else info D a x b) →
  (∀ a x b, info D2 a x b = if decide ((a, x, b) = (v, inverse_table d, u)) then Some (joined (info D1 v (inverse_table d) u) 0 m) else info D1 a x b) →
  mirrored D2.
Proof.
  intros HD Huv Hd [Hm _] H1 H2. apply (mirrored_join D D2 u d v m 0); [done..| |].
  - split_and!; lia.
  - intros a x b. rewrite H2, (H1 a x b), (H1 v). repeat case_decide; congruence.
Qed.

Lemma joined_idem i o d : Some (joined (Some (joined i o d)) o d) = Some (joined i o d).
Proof.
  f_equal. destruct i as [[io id]|]; cbn.
  - destruct (FLAGS_SET o io && FLAGS_SET d id) eqn:E; cbn; [by rewrite E|]. rewrite <- !Z.lor_assoc, !Z.lor_diag. by destruct (FLAGS_SET o (Z.lor io o) && _).
  - rewrite !Z.lor_diag. by destruct (_ && _).
Qed.

Section Add.
Context {UK : UnitKinds}.

Lemma refuse_self u d : refuse_dependency u d u = Some 0.
Proof. unfold refuse_dependency. by rewrite bool_decide_true. Qed.

(** The dependency itself. *)
Lemma add_pair_spec D u d v m :
  mirrored D → u ≠ v → mask_ok m →
  ∃ r n D1 D2, unit_add_dependency_hashmap u d v m 0 D = Some (r, D1) ∧
    (if bool_decide (inverse_table d ≠ d) then '(r, D) ← unit_add_dependency_hashmap v (inverse_table d) u 0 m D1; Some (0 <? r, D) else Some (false, D1)) = Some (n, D2) ∧
    merged_into D2 = merged_into D ∧ mirrored D2 ∧
    ∀ a x b, info D2 a x b =
      if decide (a = u ∧ b = v ∧ x = d) then Some (joined (info D a x b) m 0)
      else if decide (a = v ∧ b = u ∧ x = inverse_table d ∧ inverse_table d ≠ d) then Some (joined (info D a x b) 0 m)
      else info D a x b.
Proof.
  intros HD Huv Hm. pose proof Hm as [Hm1 Hm2].
  destruct (add_hashmap_spec D u d v m 0) as (r & D1 & E1 & M1 & H1); [done..|by left|].
  case_bool_decide as Hd.
  - destruct (add_hashmap_spec D1 v (inverse_table d) u 0 m) as (r2 & D2 & E2 & M2 & H2); [done..|by right|].
    exists r, (0 <? r2), D1, D2. rewrite E2. split_and!; [done..|by rewrite M2|by apply (mirrored_pair D D1 D2 u d v m)|].
    intros a x b. rewrite H2, (H1 a x b), (H1 v). repeat case_decide; try congruence; naive_solver.
  - exists r, false, D1, D1. split_and!; [done..| |].
    + by apply (mirrored_join_self D D1 u d v m).
    + intros a x b. rewrite (H1 a x b). repeat case_decide; try congruence; naive_solver.
Qed.

(** What is done when the dependency is not refused: the dependency, and with [add_reference] the
    reference, are joined on both sides. *)
Lemma add_dependency_spec D u d other add_reference m :
  mirrored D → mask_ok m → merges_end D →
  ∃ u' other' r D', unit_follow_merge D u = Some u' ∧ unit_follow_merge D other = Some other' ∧
    unit_add_dependency u d other add_reference m D = Some (r, D') ∧ merged_into D' = merged_into D ∧ mirrored D' ∧
    match refuse_dependency u' d other' with
    | Some r' => r = r' ∧ D' = D
    | None => (r = 0 ∨ r = 1) ∧ u' ≠ other' ∧
        ∀ a x b, info D' a x b =
          if decide (a = u' ∧ b = other' ∧ (x = d ∨ add_reference = true ∧ x = UNIT_REFERENCES)) then Some (joined (info D a x b) m 0)
          else if decide (a = other' ∧ b = u' ∧ (x = inverse_table d ∧ inverse_table d ≠ d ∨ add_reference = true ∧ x = UNIT_REFERENCED_BY)) then Some (joined (info D a x b) 0 m)
          else info D a x b
    end.
Proof.
  intros HD Hm Hend. destruct (Hend u) as [u' Hu], (Hend other) as [v Hv]. exists u', v. unfold unit_add_dependency. rewrite Hu, Hv. cbn [mbind option_bind].
  destruct (refuse_dependency u' d v) as [r|] eqn:Er; [by exists r, D; split_and!|].
  assert (Huv : u' ≠ v) by (intros ->; by rewrite refuse_self in Er).
  destruct (add_pair_spec D u' d v m) as (r & n & D1 & D2 & E1 & E2 & M2 & HD2 & H2); [done..|].
  rewrite E1. cbn [mbind option_bind]. rewrite E2. cbn [mbind option_bind]. destruct add_reference; cbn [mbind option_bind].
  - destruct (add_pair_spec D2 u' UNIT_REFERENCES v m) as (r3 & n3 & D3 & D4 & E3 & E4 & M4 & HD4 & H4); [done..|].
    rewrite bool_decide_true in E4 by done. rewrite E3. cbn [mbind option_bind inverse_table] in *.
    destruct (unit_add_dependency_hashmap v UNIT_REFERENCED_BY u' 0 m D3) as [[r4 D5]|]; cbn in E4; [|done]. injection E4 as <- ->.
    cbn [mbind option_bind]. eexists _, _. split_and!; [done..|by rewrite M4| done|by destruct (_ || _); [right|left]|done|].
    intros a x b. rewrite H4, H2. repeat case_decide; destruct_and?; subst; rewrite ?joined_idem; try done; try (exfalso; intuition congruence).
  - eexists _, _. split_and!; [done..|by destruct (_ || _); [right|left]|done|].
    intros a x b. rewrite H2. repeat case_decide; try congruence; naive_solver.
Qed.
End Add.
