(* ===== verification/UnitDepsOps.v ===== *)
(** * Removing, clearing and walking through dependencies (src/core/unit.c, src/core/unit.h)

    [unit_remove_dependencies] ends and takes exactly the bits of the mask out of both sides;
    [unit_clear_dependencies] leaves no entry that names the unit; [foreach_dependency] visits the
    units of all types that have the atom. *)

From S2P Require Import Prelude JobType UnitDep UnitDeps.

(** ** Removing *)

(** An entry without the bits [m] of its origins, of its destinations. *)
Definition nonempty (i : UnitDependencyInfo) : option UnitDependencyInfo :=
  if (origin_mask i =? 0) && (destination_mask i =? 0) then None else Some i.
Definition trim_origin (m : Z) (i : option UnitDependencyInfo) : option UnitDependencyInfo :=
  i ≫= λ i, nonempty (Info (Z.land (origin_mask i) (Z.lnot m)) (destination_mask i)).
Definition trim_destination (m : Z) (i : option UnitDependencyInfo) : option UnitDependencyInfo :=
  i ≫= λ i, nonempty (Info (origin_mask i) (Z.land (destination_mask i) (Z.lnot m))).

Lemma update_mask_lookup t v i w : unit_update_dependency_mask t v i !! w = if decide (w = v) then nonempty i else t !! w.
Proof.
  unfold unit_update_dependency_mask, nonempty. destruct (_ && _); case_decide; subst; by rewrite ?lookup_delete_eq, ?lookup_delete_ne, ?lookup_insert_eq, ?lookup_insert_ne by done.
Qed.

Lemma nonempty_ok i : masks_ok (origin_mask i) (destination_mask i) → nonempty i = Some i.
Proof. intros (_ & _ & Hn). unfold nonempty. destruct (Z.eqb_spec (origin_mask i) 0), (Z.eqb_spec (destination_mask i) 0); naive_solver. Qed.

Definition entry_ok (i : option UnitDependencyInfo) : Prop := ∀ x, i = Some x → masks_ok (origin_mask x) (destination_mask x).

Lemma nonempty_masks i : 0 <= origin_mask i → 0 <= destination_mask i →
  entry_ok (nonempty i) ∧ origin (nonempty i) = origin_mask i ∧ destination (nonempty i) = destination_mask i.
Proof.
  intros H1 H2. unfold nonempty, entry_ok. destruct (Z.eqb_spec (origin_mask i) 0), (Z.eqb_spec (destination_mask i) 0); cbn; split_and!; try congruence; intros x [= <-]; split_and!; naive_solver.
Qed.

Lemma trim_origin_masks m i : entry_ok i →
  entry_ok (trim_origin m i) ∧ origin (trim_origin m i) = Z.land (origin i) (Z.lnot m) ∧ destination (trim_origin m i) = destination i.
Proof.
  intros Hi. destruct i as [i|]; [|done]. destruct (Hi i eq_refl) as (H1 & H2 & _). cbn. apply (nonempty_masks (Info _ _)); cbn; [by apply clear_nonneg|done].
Qed.

Lemma trim_destination_masks m i : entry_ok i →
  entry_ok (trim_destination m i) ∧ origin (trim_destination m i) = origin i ∧ destination (trim_destination m i) = Z.land (destination i) (Z.lnot m).
Proof.
  intros Hi. destruct i as [i|]; [|done]. destruct (Hi i eq_refl) as (H1 & H2 & _). cbn. apply (nonempty_masks (Info _ _)); cbn; [done|by apply clear_nonneg].
Qed.

(** Without a bit of [m] nothing changes. *)
Lemma trim_origin_none m i : entry_ok i → FLAGS_SET (Z.lnot m) (origin i) = true → trim_origin m i = i.
Proof. intros Hi H%flags_clear. destruct i as [[o d]|]; [|done]. cbn in *. rewrite H. by apply (nonempty_ok (Info _ _)), Hi. Qed.

Lemma trim_destination_none m i : entry_ok i → FLAGS_SET (Z.lnot m) (destination i) = true → trim_destination m i = i.
Proof. intros Hi H%flags_clear. destruct i as [[o d]|]; [|done]. cbn in *. rewrite H. by apply (nonempty_ok (Info _ _)), Hi. Qed.

Lemma trimmed_clean m i : entry_ok i → FLAGS_SET (Z.lnot m) (origin (trim_origin m i)) = true.
Proof. intros Hi. destruct (trim_origin_masks m i Hi) as (_ & -> & _). apply flags_clear, clear_twice. Qed.

Lemma trim_destination_twice m i : entry_ok i → trim_destination m (trim_destination m i) = trim_destination m i.
Proof.
  intros Hi. destruct (trim_destination_masks m i Hi) as (Ho & _ & Hd). apply trim_destination_none; [done|]. rewrite Hd. apply flags_clear, clear_twice.
Qed.

Lemma drop_reverse_lookup u m t w : entry_ok (t !! u) → drop_reverse u m t !! w = if decide (w = u) then trim_destination m (t !! u) else t !! w.
Proof.
  intros Hi. unfold drop_reverse. destruct (t !! u) as [dj|] eqn:E; [|by case_decide; subst].
  destruct (FLAGS_SET (Z.lnot m) (destination_mask dj)) eqn:Ef.
  - case_decide; [subst|done]. by rewrite trim_destination_none, E.
  - by rewrite update_mask_lookup.
Qed.

Lemma mirrored_entry D u d v : mirrored D → entry_ok (info D u d v).
Proof. intros HD x Hx. by apply (mi_masks D HD u d v). Qed.

Section Remove.
Context (u : positive) (m : Z).

(** The tables while dependencies are removed from [D0]: what [u] has on a unit is untouched, or it
    is trimmed and so is all that the unit has on [u]. *)
Record trims (D0 D : Tables) : Prop := {
  tr_other a x b : a ≠ u → b ≠ u → info D a x b = info D0 a x b;
  tr_self x : info D u x u = None;
  tr_out d w : info D u d w = info D0 u d w ∨ info D u d w = trim_origin m (info D0 u d w) ∧ ∀ x, info D w x u = trim_destination m (info D0 w x u);
  tr_in w x : w ≠ u → info D w x u = info D0 w x u ∨ info D w x u = trim_destination m (info D0 w x u);
  tr_types : dom (deps_of D u) = dom (deps_of D0 u);
  tr_merged : merged_into D = merged_into D0 }.

Lemma trims_refl D : mirrored D → trims D D.
Proof. intros HD. split; try by left. - done. - intros. by apply mi_self. - done. - done. Qed.

Lemma trims_ok D0 D a x b : mirrored D0 → trims D0 D → entry_ok (info D a x b).
Proof.
  intros H0 HT. pose proof (mirrored_entry D0 a x b H0) as Hok. destruct (decide (a = u)) as [->|Ha].
  - destruct (tr_out D0 D HT x b) as [->|[-> _]]; [done|]. by apply trim_origin_masks.
  - destruct (decide (b = u)) as [->|Hb]; [|by rewrite (tr_other D0 D HT)].
    destruct (tr_in D0 D HT a x Ha) as [->| ->]; [done|]. by apply trim_destination_masks.
Qed.

Definition bad (e : positive * UnitDependencyInfo) : Prop := FLAGS_SET (Z.lnot m) (origin_mask (snd e)) = false.
#[local] Instance bad_dec e : Decision (bad e).
Proof. unfold bad. solve_decision. Defined.

(** One round of the loop. *)
Definition round (d : UnitDependency) (other : positive) (di : UnitDependencyInfo) (D : Tables) : Tables :=
  let t := unit_update_dependency_mask (per_type D u d) other (Info (Z.land (origin_mask di) (Z.lnot m)) (destination_mask di)) in
  let D := set_per_type u d t D in
  set_deps other (drop_reverse u m <$> deps_of D other) D.

Lemma round_info D d other di a x b :
  info D u d other = Some di → other ≠ u → (∀ x, entry_ok (info D other x u)) →
  info (round d other di D) a x b =
    if decide (a = other ∧ b = u) then trim_destination m (info D other x u)
    else if decide (a = u ∧ x = d ∧ b = other) then trim_origin m (info D u d other)
    else info D a x b.
Proof.
  intros Hdi Hne Hok. unfold round. rewrite info_map by (unfold drop_reverse; by rewrite lookup_empty). rewrite Hdi. cbn [trim_origin mbind option_bind].
  destruct (decide (a = other)) as [->|Ha].
  - rewrite per_type_set, decide_False by naive_solver. rewrite drop_reverse_lookup by apply Hok. repeat case_decide; naive_solver.
  - unfold info at 1. rewrite per_type_set. case_decide as E; [destruct E as [-> ->]; rewrite update_mask_lookup|]; repeat case_decide; try naive_solver.
Qed.

Lemma round_spec D0 D d other di :
  mirrored D0 → trims D0 D → info D u d other = Some di → bad (other, di) →
  trims D0 (round d other di D) ∧
  filter bad (per_type (round d other di D) u d) = delete other (filter bad (per_type D u d)) ∧
  (∀ x b, x ≠ d → info (round d other di D) u x b = info D u x b).
Proof.
  intros H0 HT Hdi Hbad.
  assert (Hne : other ≠ u) by (intros ->; by rewrite (tr_self D0 D HT) in Hdi).
  assert (Hinfo := λ a x b, round_info D d other di a x b Hdi Hne (λ x, trims_ok D0 D other x u H0 HT)).
  assert (Hin : ∀ x, trim_destination m (info D other x u) = trim_destination m (info D0 other x u)).
  { intros x. destruct (tr_in D0 D HT other x Hne) as [->| ->]; [done|]. by apply trim_destination_twice, mirrored_entry. }
  assert (Horig : info D u d other = info D0 u d other).
  { destruct (tr_out D0 D HT d other) as [?|[Ht _]]; [done|]. exfalso. pose proof (trimmed_clean m _ (mirrored_entry D0 u d other H0)) as Hc.
    rewrite <- Ht, Hdi in Hc. unfold bad in Hbad. cbn in *. congruence. }
  split_and!.
  - split.
    + intros a x b Ha Hb. rewrite Hinfo, !decide_False by naive_solver. by apply (tr_other D0 D HT).
    + intros x. rewrite Hinfo, !decide_False by naive_solver. by apply (tr_self D0 D HT).
    + intros x w. destruct (decide (w = other)) as [->|Hw].
      * rewrite (Hinfo u x other), decide_False by naive_solver.
        assert (Hback : ∀ y, info (round d other di D) other y u = trim_destination m (info D0 other y u)) by (intros y; rewrite Hinfo, decide_True by done; apply Hin).
        case_decide as E; [right; destruct E as (_ & -> & _); by rewrite Horig|].
        destruct (tr_out D0 D HT x other) as [?|[? _]]; [by left|by right].
      * rewrite (Hinfo u x w), !decide_False by naive_solver. destruct (tr_out D0 D HT x w) as [?|[? Hx]]; [by left|right]. split; [done|].
        intros y. rewrite Hinfo, !decide_False by naive_solver. apply Hx.
    + intros w x Hw. rewrite Hinfo. case_decide as E; [destruct E as [-> _]; right; apply Hin|]. rewrite decide_False by naive_solver. by apply (tr_in D0 D HT).
    + rewrite <- (tr_types D0 D HT). unfold round. rewrite deps_of_set, decide_False by done. unfold set_per_type. rewrite deps_of_set, decide_True, dom_insert_L by done.
      assert (d ∈ dom (deps_of D u)); [|set_solver]. apply elem_of_dom. unfold info, per_type in Hdi. destruct (deps_of D u !! d); [done|]. cbn in Hdi. by rewrite lookup_empty in Hdi.
    + apply (tr_merged D0 D HT).
  - apply map_eq. intros w. destruct (decide (w = other)) as [->|Hw].
    + rewrite lookup_delete_eq. apply map_lookup_filter_None. right. intros i Hi Hb. change (info (round d other di D) u d other = Some i) in Hi.
      rewrite Hinfo, decide_False, decide_True in Hi by naive_solver. pose proof (trimmed_clean m _ (trims_ok D0 D u d other H0 HT)) as Hc.
      rewrite Hi in Hc. unfold bad in Hb. cbn in *. congruence.
    + rewrite lookup_delete_ne by done. rewrite !map_lookup_filter. change (per_type (round d other di D) u d !! w) with (info (round d other di D) u d w).
      by rewrite Hinfo, !decide_False by naive_solver.
  - intros x b Hx. rewrite Hinfo, !decide_False by naive_solver. done.
Qed.

Lemma no_bad D d :
  find (λ e, negb (FLAGS_SET (Z.lnot m) (origin_mask (snd e)))) (map_to_list (per_type D u d)) = None → filter bad (per_type D u d) = ∅.
Proof.
  intros E. apply map_eq. intros k. rewrite lookup_empty. apply map_lookup_filter_None. right. intros i Hk Hb. pose proof (find_none _ _ E (k, i)) as Hn.
  unfold bad in Hb. cbn in Hn, Hb. rewrite Hb in Hn. ospecialize (Hn _); [|done]. by apply list_elem_of_In, elem_of_map_to_list.
Qed.

Lemma found_bad D d other di :
  find (λ e, negb (FLAGS_SET (Z.lnot m) (origin_mask (snd e)))) (map_to_list (per_type D u d)) = Some (other, di) →
  info D u d other = Some di ∧ bad (other, di) ∧ filter bad (per_type D u d) !! other = Some di.
Proof.
  intros [Hin Hb]%find_some. apply list_elem_of_In, elem_of_map_to_list in Hin. cbn [snd] in Hb. apply negb_true_iff in Hb.
  split_and!; [done..|]. by apply map_lookup_filter_Some.
Qed.

Lemma remove_type_spec fuel d D0 D :
  mirrored D0 → trims D0 D → (size (filter bad (per_type D u d)) <= fuel)%nat →
  ∃ D', remove_type fuel u m d D = Some D' ∧ trims D0 D' ∧ filter bad (per_type D' u d) = ∅ ∧ (∀ x b, x ≠ d → info D' u x b = info D u x b).
Proof.
  intros H0. revert D. induction fuel as [|fuel IH]; intros D HT Hf; cbn [remove_type]; destruct (find _ _) as [[other di]|] eqn:E;
    try (exists D; split_and!; [done..|by apply no_bad|done]); destruct (found_bad D d other di E) as (Hin & Hb & Hfil).
  - exfalso. assert (Hs : size (filter bad (per_type D u d)) = 0%nat) by lia. apply map_size_empty_inv in Hs. rewrite Hs in Hfil. by rewrite lookup_empty in Hfil.
  - destruct (round_spec D0 D d other di) as (HT2 & Hfl & Hoth); [done..|]. fold (round d other di D).
    destruct (IH (round d other di D) HT2) as (D' & -> & HT' & Hc & Ho).
    { rewrite Hfl, map_size_delete, Hfil. lia. }
    exists D'. split_and!; [done..|]. intros x b Hx. by rewrite Ho, Hoth.
Qed.

Lemma filter_size d D : (size (filter bad (per_type D u d)) <= size (per_type D u d))%nat.
Proof. apply map_subseteq_size, map_filter_subseteq. Qed.

Lemma remove_types_spec ds D0 D :
  mirrored D0 → trims D0 D →
  ∃ D', remove_types u m ds D = Some D' ∧ trims D0 D' ∧
    (∀ d, d ∈ ds ∨ filter bad (per_type D u d) = ∅ → filter bad (per_type D' u d) = ∅).
Proof.
  intros H0. revert D. induction ds as [|d ds IH]; intros D HT; cbn [remove_types].
  { exists D. split_and!; [done..|]. intros d [H|H]; [by apply elem_of_nil in H|done]. }
  destruct (remove_type_spec (size (per_type D u d)) d D0 D H0 HT (filter_size d D)) as (D1 & -> & HT1 & Hc & Ho). cbn [mbind option_bind].
  destruct (IH D1 HT1) as (D' & -> & HT' & Hall). exists D'. split_and!; [done..|]. intros x Hx. apply Hall. destruct (decide (x = d)) as [->|Hne]; [by right|].
  assert (per_type D1 u x = per_type D u x) as -> by (apply map_eq; intros b; by apply Ho). destruct Hx as [[->|Hx]%elem_of_cons|Hx]; [done|by left|by right].
Qed.

(** Nothing but the bits of [m] is taken, on both sides. *)
Lemma remove_dependencies_spec D :
  mirrored D → ∃ D', unit_remove_dependencies u m D = Some D' ∧ merged_into D' = merged_into D ∧
    ∀ a x b, info D' a x b =
      if decide (a = u) then trim_origin m (info D u x b) else if decide (b = u) then trim_destination m (info D a x u) else info D a x b.
Proof.
  intros HD. unfold unit_remove_dependencies. destruct (Z.eqb_spec m 0) as [Hm|Hm].
  { exists D. split_and!; [done..|]. intros a x b. subst m. repeat case_decide; subst; [| |done]; symmetry;
      (apply trim_origin_none || apply trim_destination_none); try (by apply mirrored_entry); apply flags_clear, Z.land_m1_r. }
  destruct (remove_types_spec (map_to_list (deps_of D u)).*1 D D HD (trims_refl D HD)) as (D' & -> & HT & Hall).
  exists D'. split_and!; [done|apply (tr_merged D D' HT)|].
  assert (Hclean : ∀ x b, FLAGS_SET (Z.lnot m) (origin (info D' u x b)) = true).
  { intros x b. destruct (info D' u x b) as [i|] eqn:Ei; [|apply flags_clear; apply Z.land_0_l]. cbn.
    destruct (FLAGS_SET (Z.lnot m) (origin_mask i)) eqn:Ef; [done|exfalso].
    assert (Hf : filter bad (per_type D' u x) !! b = Some i) by by apply map_lookup_filter_Some. rewrite Hall, lookup_empty in Hf; [done|].
    destruct (deps_of D u !! x) as [t|] eqn:Et.
    - left. apply list_elem_of_fmap. exists (x, t). split; [done|]. by apply elem_of_map_to_list.
    - right. unfold per_type. rewrite Et. apply map_filter_empty. }
  intros a x b. destruct (decide (a = u)) as [->|Ha].
  - destruct (tr_out D D' HT x b) as [He|[He _]]; [|done]. rewrite He. symmetry. apply trim_origin_none; [by apply mirrored_entry|]. rewrite <- He. apply Hclean.
  - case_decide as Hb; [subst b|by apply (tr_other D D' HT)]. destruct (tr_in D D' HT a x Ha) as [He|He]; [|done].
    destruct (decide (inverse_table x = x)) as [Hs|Hs].
    + rewrite He. symmetry. apply trim_destination_none; [by apply mirrored_entry|]. rewrite (mi_sym D HD) by done. apply flags_clear, Z.land_0_l.
    + destruct (tr_out D D' HT (inverse_table x) a) as [Ho|[_ Hin]]; [|apply Hin]. rewrite He. symmetry. apply trim_destination_none; [by apply mirrored_entry|].
      destruct (mirror_both D a x u HD Hs) as (_ & -> & _). rewrite <- Ho. apply Hclean.
Qed.

Lemma removed_mirrored D D' :
  mirrored D →
  (∀ a x b, info D' a x b =
     if decide (a = u) then trim_origin m (info D u x b) else if decide (b = u) then trim_destination m (info D a x u) else info D a x b) →
  mirrored D'.
Proof.
  intros HD Hinfo. assert (Hok := λ a x b, mirrored_entry D a x b HD). split.
  - intros a x. rewrite Hinfo. repeat case_decide; subst; rewrite ?(mi_self D HD); done.
  - intros a x b i. rewrite Hinfo. repeat case_decide; subst; [by apply trim_origin_masks|by apply trim_destination_masks|by apply mi_masks].
  - intros a x b Hx. rewrite !Hinfo. destruct (mirror_both D a x b HD Hx) as (H1 & H2 & _). repeat case_decide; subst; rewrite ?(mi_self D HD); try done.
    + by rewrite (proj1 (proj2 (trim_origin_masks m _ (Hok _ _ _)))), (proj2 (proj2 (trim_destination_masks m _ (Hok _ _ _)))), H1.
    + by rewrite (proj1 (proj2 (trim_destination_masks m _ (Hok _ _ _)))), (proj2 (proj2 (trim_origin_masks m _ (Hok _ _ _)))), H1.
  - intros a x b Hx. rewrite Hinfo. repeat case_decide; subst; [| |by apply mi_sym].
    + by rewrite (proj2 (proj2 (trim_origin_masks m _ (Hok _ _ _)))), (mi_sym D HD).
    + by rewrite (proj2 (proj2 (trim_destination_masks m _ (Hok _ _ _)))), (mi_sym D HD).
Qed.
End Remove.

(** ** Clearing *)

Definition clear_one (u other : positive) (D : Tables) : Tables := set_deps other (delete u <$> deps_of D other) D.

Lemma clear_others_info u os D a x b :
  info (foldr (clear_one u) D os) a x b = if decide (a ∈ os ∧ b = u) then None else info D a x b.
Proof.
  induction os as [|o os IH]; cbn [foldr]; [rewrite decide_False; [done|]; intros [H _]; by apply elem_of_nil in H|].
  unfold clear_one at 1. rewrite (info_map (delete u)) by apply delete_empty. destruct (decide (a = o)) as [->|Ha].
  - destruct (decide (b = u)) as [->|Hb].
    + rewrite lookup_delete_eq, decide_True by (split; [left|done]). done.
    + rewrite lookup_delete_ne by done. change (info (foldr (clear_one u) D os) o x b = if decide (o ∈ o :: os ∧ b = u) then None else info D o x b).
      rewrite IH, !decide_False by naive_solver. done.
  - rewrite IH. apply decide_ext. rewrite elem_of_cons. naive_solver.
Qed.

Definition depends_on (D : Tables) (u : positive) : list positive := mjoin ((λ e, (map_to_list (snd e)).*1) <$> map_to_list (deps_of D u)).

Lemma elem_depends_on D u v : v ∈ depends_on D u ↔ ∃ d, info D u d v ≠ None.
Proof.
  unfold depends_on. rewrite list_elem_of_join. split.
  - intros (l & Hv & Hl). apply list_elem_of_fmap in Hl as ([d t] & -> & Ht). apply elem_of_map_to_list in Ht. apply list_elem_of_fmap in Hv as ([w i] & -> & Hi).
    apply elem_of_map_to_list in Hi. exists d. unfold info, per_type. rewrite Ht. cbn in *. by rewrite Hi.
  - intros [d Hd]. unfold info, per_type in Hd. destruct (deps_of D u !! d) as [t|] eqn:Et; cbn in Hd; [|by rewrite lookup_empty in Hd].
    destruct (t !! v) as [i|] eqn:Ei; [|done]. exists ((map_to_list t).*1). split.
    + apply list_elem_of_fmap. exists (v, i). split; [done|]. by apply elem_of_map_to_list.
    + apply list_elem_of_fmap. exists (d, t). split; [done|]. by apply elem_of_map_to_list.
Qed.

Lemma info_forget u D a x b : info (MkTables (delete u (dependencies D)) (merged_into D)) a x b = if decide (a = u) then None else info D a x b.
Proof.
  unfold info, per_type, deps_of. cbn [dependencies]. case_decide; [subst; rewrite lookup_delete_eq|by rewrite lookup_delete_ne by congruence].
  cbn. by rewrite !lookup_empty.
Qed.

Lemma clear_info D u a x b :
  info (unit_clear_dependencies u D) a x b = if decide (a = u ∨ b = u ∧ a ∈ depends_on D u) then None else info D a x b.
Proof.
  unfold unit_clear_dependencies. fold (depends_on D u). change (λ other D, set_deps other (delete u <$> deps_of D other) D) with (clear_one u).
  rewrite info_forget, clear_others_info. repeat case_decide; naive_solver.
Qed.

Lemma clear_merged D u : merged_into (unit_clear_dependencies u D) = merged_into D.
Proof.
  unfold unit_clear_dependencies. cbn [merged_into]. change (merged_into (foldr (clear_one u) D (depends_on D u)) = merged_into D).
  induction (depends_on D u); cbn; done.
Qed.

Lemma mirrored_depends D u v d : mirrored D → inverse_table d ≠ d → info D u d v ≠ None → u ∈ depends_on D v.
Proof. intros HD Hd Hi. apply elem_depends_on. exists (inverse_table d). by rewrite <- (proj2 (proj2 (mirror_both D u d v HD Hd))). Qed.

Lemma clear_mirrored D u : mirrored D → mirrored (unit_clear_dependencies u D).
Proof.
  intros HD. split.
  - intros a x. rewrite clear_info. case_decide; [done|]. by apply mi_self.
  - intros a x b i. rewrite clear_info. case_decide; [done|]. by apply mi_masks.
  - intros a x b Hx. rewrite !clear_info. pose proof (mi_mirror D HD a x b Hx) as Hm. destruct (mirror_both D a x b HD Hx) as (_ & _ & Hn).
    assert (Hx' : inverse_table (inverse_table x) ≠ inverse_table x) by by rewrite inverse_involutive.
    destruct (info D a x b) as [i|] eqn:E1; [|rewrite (proj1 Hn eq_refl); by repeat case_decide].
    assert (H2 : info D b (inverse_table x) a ≠ None) by (rewrite <- Hn; done).
    pose proof (mirrored_depends D a b x HD Hx ltac:(by rewrite E1)) as D1. pose proof (mirrored_depends D b a _ HD Hx' H2) as D2.
    repeat case_decide; try done; naive_solver.
  - intros a x b Hx. rewrite clear_info. case_decide; [done|]. by apply mi_sym.
Qed.

(** ** References *)

(** Types that are entered on one side only come with a reference of at least the same origins, so
    that the other unit knows of them. *)
Definition referenced (D : Tables) : Prop :=
  ∀ u d v, inverse_table d = d → FLAGS_SET (origin (info D u UNIT_REFERENCES v)) (origin (info D u d v)) = true.

Lemma flags_set_refl f : FLAGS_SET f f = true.
Proof. unfold FLAGS_SET. rewrite Z.land_comm, Z.land_lnot_diag. done. Qed.

Lemma flags_set_zero v : FLAGS_SET v 0 = true.
Proof. unfold FLAGS_SET. by rewrite Z.land_0_r. Qed.

Lemma referenced_known D u d v : mirrored D → referenced D → info D u d v ≠ None → u ∈ depends_on D v.
Proof.
  intros HD HR Hi. destruct (decide (inverse_table d = d)) as [Hd|Hd]; [|by apply (mirrored_depends D u v d)].
  apply (mirrored_depends D u v UNIT_REFERENCES HD); [done|]. intros Hn. specialize (HR u d v Hd). rewrite Hn in HR. cbn in HR.
  apply Hi, (none_masks D u d v HD). split; [|by apply mi_sym]. unfold FLAGS_SET in HR. by rewrite Z.land_m1_l, Z.eqb_eq in HR.
Qed.

(** After clearing no unit names [u], and [u] names no unit. *)
Lemma clear_dependencies_spec D u :
  mirrored D → referenced D →
  ∀ a x b, info (unit_clear_dependencies u D) a x b = if decide (a = u ∨ b = u) then None else info D a x b.
Proof.
  intros HD HR a x b. rewrite clear_info. destruct (decide (a = u)) as [->|Ha]; [by rewrite !decide_True by auto|].
  destruct (decide (b = u)) as [->|Hb]; [|by rewrite !decide_False by naive_solver]. rewrite (decide_True _ _ (or_intror eq_refl)).
  case_decide as E; [done|]. destruct (info D a x u) eqn:Ei; [|done]. exfalso. apply E. right. split; [done|]. apply (referenced_known D a x u HD HR). by rewrite Ei.
Qed.

Lemma clear_referenced D u : mirrored D → referenced D → referenced (unit_clear_dependencies u D).
Proof. intros HD HR a d b Hd. rewrite !(clear_dependencies_spec D u HD HR). case_decide; [apply flags_set_zero|by apply HR]. Qed.

Lemma remove_referenced D D' u m :
  mirrored D → referenced D →
  (∀ a x b, info D' a x b =
     if decide (a = u) then trim_origin m (info D u x b) else if decide (b = u) then trim_destination m (info D a x u) else info D a x b) →
  referenced D'.
Proof.
  intros HD HR Hinfo a d b Hd. assert (Hok := λ a x b, mirrored_entry D a x b HD). rewrite !Hinfo. specialize (HR a d b Hd). repeat case_decide; subst; [| |done].
  - rewrite !(proj1 (proj2 (trim_origin_masks m _ (Hok _ _ _)))). revert HR. unfold FLAGS_SET. rewrite !Z.eqb_eq. intros HR. apply Z.bits_inj'. intros n Hn.
    assert (Hb : Z.testbit (Z.land (Z.lnot (origin (info D u UNIT_REFERENCES b))) (origin (info D u d b))) n = false) by (rewrite HR; apply Z.bits_0).
    rewrite !Z.land_spec, !Z.lnot_spec in * by done. rewrite Z.land_spec, Z.lnot_spec, Z.bits_0 by done. revert Hb. by repeat destruct (Z.testbit _ n).
  - by rewrite !(proj1 (proj2 (trim_destination_masks m _ (Hok _ _ _)))).
Qed.

(** One of the flags of [UnitDependencyMask]. *)
Definition flag (m : Z) : Prop := ∃ k, 0 <= k < 9 ∧ m = 2 ^ k.

Lemma flag_mask m : flag m → mask_ok m.
Proof.
  intros (k & Hk & ->). unfold mask_ok, _UNIT_DEPENDENCY_MASK_FULL. split; [apply Z.pow_pos_nonneg; lia|].
  assert (2 ^ k <= 2 ^ 8) by (apply Z.pow_le_mono_r; lia). lia.
Qed.

Lemma flags_set_or a b c : FLAGS_SET (Z.lor a b) (Z.lor c b) = true ↔ FLAGS_SET (Z.lor a b) c = true.
Proof.
  unfold FLAGS_SET. rewrite Z.land_lor_distr_r, !Z.eqb_eq. replace (Z.land (Z.lnot (Z.lor a b)) b) with 0; [by rewrite Z.lor_0_r|].
  apply Z.bits_inj'. intros n Hn. rewrite Z.bits_0, Z.land_spec, Z.lnot_spec, Z.lor_spec by done. by destruct (Z.testbit a n), (Z.testbit b n).
Qed.

Lemma flags_set_weaken a b c : FLAGS_SET a c = true → FLAGS_SET (Z.lor a b) c = true.
Proof.
  unfold FLAGS_SET. rewrite !Z.eqb_eq. intros H. apply Z.bits_inj'. intros n Hn. assert (Hb : Z.testbit (Z.land (Z.lnot a) c) n = false) by (rewrite H; apply Z.bits_0).
  rewrite Z.bits_0. rewrite Z.land_spec, Z.lnot_spec in * by done. rewrite Z.lor_spec. by destruct (Z.testbit a n), (Z.testbit b n), (Z.testbit c n).
Qed.

(** With a single flag nothing is lost. *)
Lemma joined_flag i m : entry_ok i → flag m → origin_mask (joined i m 0) = Z.lor (origin i) m.
Proof.
  intros Hi (k & Hk & ->). destruct i as [[o de]|]; [|done]. cbn. destruct (Hi _ eq_refl) as (Ho & Hd & Hn). cbn in *.
  destruct (FLAGS_SET (2 ^ k) o && FLAGS_SET 0 de) eqn:E; [|done]. cbn. apply andb_true_iff in E as [E1 E2].
  assert (de = 0) as -> by (unfold FLAGS_SET in E2; by rewrite Z.land_m1_l, Z.eqb_eq in E2). rewrite flags_set_bits in E1 by done.
  assert (Hbits : ∀ n, 0 <= n → Z.testbit o n = true → n = k) by (intros n H1 H2; apply E1 in H2; [|done]; rewrite Z.pow2_bits_eqb, Z.eqb_eq in H2 by lia; done).
  assert (Hk2 : Z.testbit o k = true).
  { assert (Ho2 : 0 < o) by lia. rewrite <- (Hbits (Z.log2 o)); [by apply Z.bit_log2|apply Z.log2_nonneg|by apply Z.bit_log2]. }
  apply Z.bits_inj'. intros n Hn'. rewrite Z.lor_spec, Z.pow2_bits_eqb by lia. destruct (Z.eqb_spec k n) as [<-|Hne]; [by rewrite Hk2|by rewrite orb_false_r].
Qed.

Lemma joined_other i m : origin_mask (joined i 0 m) = origin i.
Proof. destruct i as [[o de]|]; [|done]. cbn. destruct (_ && _); cbn; [done|apply Z.lor_0_r]. Qed.

Lemma add_referenced D D' u d v r m :
  mirrored D → referenced D → flag m → (inverse_table d = d → r = true) → u ≠ v →
  (∀ a x b, info D' a x b =
    if decide (a = u ∧ b = v ∧ (x = d ∨ r = true ∧ x = UNIT_REFERENCES)) then Some (joined (info D a x b) m 0)
    else if decide (a = v ∧ b = u ∧ (x = inverse_table d ∧ inverse_table d ≠ d ∨ r = true ∧ x = UNIT_REFERENCED_BY)) then Some (joined (info D a x b) 0 m)
    else info D a x b) →
  referenced D'.
Proof.
  intros HD HR Hm Hr Huv Hinfo a x b Hx. specialize (HR a x b Hx).
  assert (Horigin : ∀ y, origin (info D' a y b) = if decide (a = u ∧ b = v ∧ (y = d ∨ r = true ∧ y = UNIT_REFERENCES)) then Z.lor (origin (info D a y b)) m else origin (info D a y b)).
  { intros y. rewrite Hinfo. destruct (decide (a = u ∧ _)); [cbn; apply joined_flag; [by apply mirrored_entry|done]|].
    destruct (decide (a = v ∧ _)); [|done]. apply joined_other. }
  rewrite !Horigin. assert (x ≠ UNIT_REFERENCES) by (intros ->; done).
  destruct (decide (a = u ∧ b = v ∧ (UNIT_REFERENCES = d ∨ _))) as [E1|E1], (decide (a = u ∧ _)) as [E2|E2]; [| |exfalso; destruct E2 as (-> & -> & [->|[_ ->]]); [|done]; apply E1; rewrite Hr by done; naive_solver|done].
  - apply flags_set_or. by apply flags_set_weaken.
  - by apply flags_set_weaken.
Qed.

(** ** Walking through the dependencies *)

Lemma elem_keys {A} (t : gmap positive A) v : v ∈ (map_to_list t).*1 ↔ t !! v ≠ None.
Proof.
  rewrite list_elem_of_fmap. split; [intros ([w i] & -> & Hi%elem_of_map_to_list); cbn; by rewrite Hi|].
  intros Hv. destruct (t !! v) as [i|] eqn:E; [|done]. exists (v, i). split; [done|]. by apply elem_of_map_to_list.
Qed.

(** With one atom the units of all types that have it are visited, though the table of unique atoms
    may send the walk to a single type. *)
Lemma foreach_dependency_spec D u a v : v ∈ foreach_dependency D u (atom_bit a) ↔ ∃ d, has_atom d a = true ∧ info D u d v ≠ None.
Proof.
  assert (Hvis : ∀ d t, v ∈ (if negb (Z.land (unit_dependency_to_atom (fst (d, t))) (atom_bit a) =? 0) then (map_to_list (snd (d, t))).*1 else []) ↔ has_atom d a = true ∧ (t : PerType) !! v ≠ None).
  { intros d t. cbn [fst snd]. unfold has_atom, unit_dependency_to_atom. destruct (negb _); [rewrite elem_keys; naive_solver|]. rewrite elem_of_nil. naive_solver. }
  assert (Hinfo : ∀ d, info D u d v ≠ None ↔ ∃ t, deps_of D u !! d = Some t ∧ t !! v ≠ None).
  { intros d. unfold info, per_type. destruct (deps_of D u !! d) as [t|]; cbn; [naive_solver|]. rewrite lookup_empty. naive_solver. }
  setoid_rewrite Hinfo. unfold foreach_dependency. destruct (unit_dependency_from_unique_atom (atom_bit a)) as [d|] eqn:Eu.
  - pose proof (unique_single a d Eu) as Hun. destruct (deps_of D u !! d) as [t|] eqn:Et.
    + rewrite Hvis. split; [intros [? ?]; eauto|]. intros (d' & Hd' & t' & Ht' & Hv). apply Hun in Hd' as Hd. subst d'. split; [done|]. congruence.
    + rewrite elem_of_nil. split; [done|]. intros (d' & Hd' & t' & Ht' & _). apply Hun in Hd' as ->. congruence.
  - rewrite list_elem_of_join. split.
    + intros (l & Hv & Hl). apply list_elem_of_fmap in Hl as ([d t] & -> & Ht). apply elem_of_map_to_list in Ht. apply Hvis in Hv as [? ?]. eauto.
    + intros (d & Hd & t & Ht & Hv). eexists. split; [by apply (Hvis d t)|]. apply list_elem_of_fmap. exists (d, t). split; [done|]. by apply elem_of_map_to_list.
Qed.

Lemma foreach_inverse D u v a b :
  mirrored D → (a, b) ∈ inverse_atoms → v ∈ foreach_dependency D u (atom_bit a) ↔ u ∈ foreach_dependency D v (atom_bit b).
Proof.
  intros HD Hab. rewrite !foreach_dependency_spec. split; intros (d & Hd & Hi).
  - destruct (inverse_atoms_ok a b d Hab) as [He Hs]. exists (inverse_table d). split; [congruence|]. by rewrite <- (proj2 (proj2 (mirror_both D u d v HD (Hs Hd)))).
  - exists (inverse_table d). destruct (inverse_atoms_ok a b (inverse_table d) Hab) as [He Hs]. rewrite inverse_involutive in He. split; [congruence|].
    specialize (Hs ltac:(congruence)). rewrite inverse_involutive in Hs.
    by rewrite <- (proj2 (proj2 (mirror_both D v d u HD ltac:(congruence)))).
Qed.

(** ** Histories *)

Section History.
Context {UK : UnitKinds}.

(** The tables after any calls. A type that is entered on one side only is added with a reference. *)
Inductive history : Tables → Prop :=
  | history_empty : history (MkTables ∅ ∅)
  | history_add D u d other add_reference m r D' :
      history D → flag m → (inverse_table d = d → add_reference = true) →
      unit_add_dependency u d other add_reference m D = Some (r, D') → history D'
  | history_remove D u m D' : history D → unit_remove_dependencies u m D = Some D' → history D'
  | history_clear D u : history D → history (unit_clear_dependencies u D).

Lemma empty_info a x b : info (MkTables ∅ ∅) a x b = None.
Proof. unfold info, per_type, deps_of. cbn. rewrite lookup_empty. cbn. by rewrite !lookup_empty. Qed.

Lemma unmerged_end D : merged_into D = ∅ → merges_end D.
Proof. intros HD u. unfold unit_follow_merge. rewrite HD. replace (size ∅) with 0%nat by done. cbn. by rewrite HD, lookup_empty. Qed.

Lemma history_inv D : history D → mirrored D ∧ referenced D ∧ merged_into D = ∅.
Proof.
  induction 1 as [|D u d other ar m r D' _ (HD & HR & HM) Hm Har Hadd|D u m D' _ (HD & HR & HM) Hrem|D u _ (HD & HR & HM)].
  - split_and!; [|intros u d v _; rewrite !empty_info; apply flags_set_zero|done].
    split; intros; rewrite ?empty_info in *; done.
  - destruct (add_dependency_spec D u d other ar m HD (flag_mask m Hm) (unmerged_end D HM)) as (u' & v & r' & D2 & _ & _ & Ha & HM2 & HD2 & Hspec).
    rewrite Hadd in Ha. injection Ha as <- <-. destruct (refuse_dependency u' d v); [destruct Hspec as [_ ->]; auto|].
    destruct Hspec as (_ & Huv & Hinfo). split_and!; [done| |congruence]. by apply (add_referenced D D' u' d v ar m).
  - destruct (remove_dependencies_spec u m D HD) as (D2 & Hr & HM2 & Hinfo). rewrite Hrem in Hr. injection Hr as <-.
    split_and!; [by apply (removed_mirrored u m D)|by apply (remove_referenced D D' u m)|congruence].
  - split_and!; [by apply clear_mirrored|by apply clear_referenced|by rewrite clear_merged].
Qed.

(** C11: dependencies stay mirrored. After any calls that add, remove and clear dependencies, the two
    sides of every dependency of every type agree (Requires= and RequiredBy=, Conflicts= and
    ConflictedBy=, ...; JoinsNamespaceOf= is on one side only): the one unit names the other exactly if
    it is named by it, and with the same origins. A unit is visited from the other side exactly when
    it is visited from this side, for every pair of atoms that belong to inverse types. No later call
    fails an assertion or runs on for ever. Adding a dependency that is not refused enters it on both sides, and the
    reference if asked to, and leaves other pairs of units alone; removing takes every bit of the
    mask from what the unit has and nothing else; and after clearing no unit names the unit, which
    may then be freed, while all other dependencies are kept. *)
Theorem unit_dependencies_mirrored (D : Tables) :
  history D →
  (∀ d d' u v, counterpart d d' →
     (info D u d v ≠ None ↔ info D v d' u ≠ None) ∧
     origin (info D u d v) = destination (info D v d' u) ∧ destination (info D u d v) = origin (info D v d' u)) ∧
  (∀ a b u v, (a, b) ∈ inverse_atoms → v ∈ foreach_dependency D u (atom_bit a) ↔ u ∈ foreach_dependency D v (atom_bit b)) ∧
  (∀ u d other add_reference m, mask_ok m → is_Some (unit_add_dependency u d other add_reference m D)) ∧
  (∀ u d other add_reference m, flag m → ∃ r D', unit_add_dependency u d other add_reference m D = Some (r, D') ∧
     match refuse_dependency u d other with
     | Some e => r = e ∧ D' = D
     | None => (r = 0 ∨ r = 1) ∧ origin (info D' u d other) = Z.lor (origin (info D u d other)) m ∧
         (∀ d', counterpart d d' → destination (info D' other d' u) = Z.lor (destination (info D other d' u)) m) ∧
         (add_reference = true →
            origin (info D' u UNIT_REFERENCES other) = Z.lor (origin (info D u UNIT_REFERENCES other)) m ∧
            destination (info D' other UNIT_REFERENCED_BY u) = Z.lor (destination (info D other UNIT_REFERENCED_BY u)) m) ∧
         ∀ a x b, ¬ (a = u ∧ b = other) → ¬ (a = other ∧ b = u) → info D' a x b = info D a x b
     end) ∧
  (∀ u m, ∃ D', unit_remove_dependencies u m D = Some D' ∧
     (∀ d v, origin (info D' u d v) = Z.land (origin (info D u d v)) (Z.lnot m) ∧ destination (info D' u d v) = destination (info D u d v)) ∧
     (∀ w d v, w ≠ u → v ≠ u → info D' w d v = info D w d v)) ∧
  (∀ u a v w, w ∈ foreach_dependency (unit_clear_dependencies u D) v (atom_bit a) ↔ v ≠ u ∧ w ≠ u ∧ w ∈ foreach_dependency D v (atom_bit a)).
Proof.
  intros (HD & HR & HM)%history_inv.
  assert (Hboth : ∀ D d d' u v, mirrored D → counterpart d d' → (info D u d v ≠ None ↔ info D v d' u ≠ None) ∧
     origin (info D u d v) = destination (info D v d' u) ∧ destination (info D u d v) = origin (info D v d' u)).
  { clear. intros D d d' u v HD [<- Hne]%counterpart_inverse. destruct (mirror_both D u d v HD Hne) as (? & ? & H). split_and!; [by rewrite H|done..]. }
  split_and!.
  - intros d d' u v Hc. by apply Hboth.
  - intros a b u v Hab. by apply foreach_inverse.
  - intros u d other ar m Hm. destruct (add_dependency_spec D u d other ar m HD Hm (unmerged_end D HM)) as (? & ? & ? & ? & _ & _ & -> & _). done.
  - intros u d other ar m Hm. destruct (add_dependency_spec D u d other ar m HD (flag_mask m Hm) (unmerged_end D HM)) as (u' & v & r & D' & Hu & Hv & Ha & _ & HD' & Hspec).
    exists r, D'. split; [done|]. assert (Hid : ∀ x, unit_follow_merge D x = Some x) by (intros x; unfold unit_follow_merge; rewrite HM; replace (size ∅) with 0%nat by done; cbn; by rewrite HM, lookup_empty).
    rewrite Hid in Hu, Hv. injection Hu as <-. injection Hv as <-. destruct (refuse_dependency u d other); [done|]. destruct Hspec as (Hr & Huv & Hinfo).
    assert (Ho : ∀ x, x = d ∨ ar = true ∧ x = UNIT_REFERENCES → origin (info D' u x other) = Z.lor (origin (info D u x other)) m).
    { intros x Hx. rewrite Hinfo, decide_True by done. cbn. apply joined_flag; [by apply mirrored_entry|done]. }
    split_and!; [done|apply Ho; by left| | |].
    + intros d' Hc. destruct (Hboth D' d d' u other HD' Hc) as (_ & <- & _), (Hboth D d d' u other HD Hc) as (_ & <- & _). apply Ho. by left.
    + intros ->. assert (Hc : counterpart UNIT_REFERENCES UNIT_REFERENCED_BY) by (left; by_decide). split; [apply Ho; by right|].
      destruct (Hboth D' _ _ u other HD' Hc) as (_ & <- & _), (Hboth D _ _ u other HD Hc) as (_ & <- & _). apply Ho. by right.
    + intros a x b H1 H2. rewrite Hinfo, !decide_False; [done|naive_solver..].
  - intros u m. destruct (remove_dependencies_spec u m D HD) as (D' & -> & _ & Hinfo). exists D'. split_and!; [done|..].
    + intros d v. rewrite Hinfo, decide_True by done. by destruct (trim_origin_masks m _ (mirrored_entry D u d v HD)) as (_ & ? & ?).
    + intros w d v Hw Hv. by rewrite Hinfo, !decide_False.
  - intros u a v w. rewrite !foreach_dependency_spec. setoid_rewrite (clear_dependencies_spec D u HD HR). split.
    + intros (d & Hd & Hi). case_decide; [done|]. split_and!; [naive_solver..|]. by exists d.
    + intros (Hv & Hw & d & Hd & Hi). exists d. split; [done|]. by rewrite decide_False by naive_solver.
Qed.
End History.

(** The shortcut of the walk is right. For one atom, [UNIT_FOREACH_DEPENDENCY] visits a unit, and
    [unit_has_dependency] finds it, exactly when some type of dependency that has the atom leads to
    it, although the walk looks at a single type when the table says that the atom is unique. *)
Theorem foreach_dependency_all_types (D : Tables) (u v : positive) (a : UnitDependencyAtom) :
  (v ∈ foreach_dependency D u (atom_bit a) ↔
     ∃ d, Z.land (unit_dependency_to_atom d) (atom_bit a) ≠ 0 ∧ ∃ t, deps_of D u !! d = Some t ∧ is_Some (t !! v)) ∧
  (unit_has_dependency D u (atom_bit a) (Some v) = Some v ↔ v ∈ foreach_dependency D u (atom_bit a)) ∧
  (unit_has_dependency D u (atom_bit a) (Some v) ≠ None ↔ v ∈ foreach_dependency D u (atom_bit a)) ∧
  (unit_has_dependency D u (atom_bit a) None = None ↔ ∀ w, w ∉ foreach_dependency D u (atom_bit a)) ∧
  (v ∈ unit_get_dependency_array D u (atom_bit a) ↔ v ∈ foreach_dependency D u (atom_bit a)).
Proof.
  assert (Hfind : ∀ w, unit_has_dependency D u (atom_bit a) (Some v) = Some w → w = v ∧ v ∈ foreach_dependency D u (atom_bit a)).
  { unfold unit_has_dependency. intros w [Hin ->%bool_decide_eq_true]%find_some. by apply list_elem_of_In in Hin. }
  assert (Hsome : v ∈ foreach_dependency D u (atom_bit a) → unit_has_dependency D u (atom_bit a) (Some v) ≠ None).
  { intros Hv Hn. unfold unit_has_dependency in Hn. pose proof (find_none _ _ Hn v ltac:(by apply list_elem_of_In)) as H. cbn in H. by rewrite bool_decide_true in H. }
  split_and!.
  - assert (Hatom : ∀ d, has_atom d a = true ↔ Z.land (unit_dependency_to_atom d) (atom_bit a) ≠ 0) by (intros d; unfold has_atom; rewrite negb_true_iff; apply Z.eqb_neq).
    assert (Hent : ∀ d, info D u d v ≠ None ↔ ∃ t, deps_of D u !! d = Some t ∧ is_Some (t !! v)).
    { intros d. unfold info, per_type. destruct (deps_of D u !! d) as [t|]; cbn; [|rewrite lookup_empty; naive_solver].
      rewrite not_eq_None_Some. split; [by exists t|]. by intros (? & [= <-] & ?). }
    rewrite foreach_dependency_spec. by split; intros (d & Hd & Hi); exists d; (split; [apply Hatom|apply Hent]).
  - split; [intros [_ ?]%Hfind; done|]. intros Hv. destruct (unit_has_dependency _ _ _ _) as [w|] eqn:E; [|by apply Hsome in Hv]. by destruct (Hfind w eq_refl) as [-> _].
  - split; [|done]. destruct (unit_has_dependency _ _ _ _) as [w|] eqn:E; [|done]. intros _. by destruct (Hfind w eq_refl).
  - unfold unit_has_dependency. split.
    + intros Hn w Hw. by pose proof (find_none _ _ Hn w ltac:(by apply list_elem_of_In)).
    + intros Hn. destruct (foreach_dependency D u (atom_bit a)) as [|w l] eqn:E; [done|]. destruct (Hn w). left.
  - done.
Qed.

(** ** Witnesses *)

Definition plain_kinds : UnitKinds := {|
  is_device _ := false; is_slice _ := false; can_fail _ := true; can_trigger _ := true; has_cgroup_context _ := true; test_run_ignore_dependencies := false |}.

(** A service that requires a second one, is ordered after it and joins its namespace. *)
Definition sample_tables : option Tables :=
  '(_, D) ← unit_add_dependency (UK := plain_kinds) 1 UNIT_REQUIRES 2 true 1 (MkTables ∅ ∅);
  '(_, D) ← unit_add_dependency (UK := plain_kinds) 1 UNIT_AFTER 2 true 1 D;
  '(_, D) ← unit_add_dependency (UK := plain_kinds) 1 UNIT_JOINS_NAMESPACE_OF 2 true 1 D;
  Some D.

Example sample_walks :
  (D ← sample_tables; Some (foreach_dependency D 1 (atom_bit UNIT_ATOM_AFTER), foreach_dependency D 2 (atom_bit UNIT_ATOM_BEFORE))) = Some ([2%positive], [1%positive]).
Proof. vm_compute. reflexivity. Qed.

Lemma sample_history : ∃ D, sample_tables = Some D ∧ history (UK := plain_kinds) D.
Proof.
  pose proof sample_walks as Hw. unfold sample_tables in *. assert (Hf : flag 1) by (exists 0; split; [lia|reflexivity]).
  destruct (unit_add_dependency 1 UNIT_REQUIRES 2 true 1 _) as [[r1 D1]|] eqn:E1; cbn [mbind option_bind] in *; [|discriminate].
  destruct (unit_add_dependency 1 UNIT_AFTER 2 true 1 D1) as [[r2 D2]|] eqn:E2; cbn [mbind option_bind] in *; [|discriminate].
  destruct (unit_add_dependency 1 UNIT_JOINS_NAMESPACE_OF 2 true 1 D2) as [[r3 D3]|] eqn:E3; cbn [mbind option_bind] in *; [|discriminate].
  exists D3. split; [reflexivity|].
  eapply history_add; [|exact Hf|intros _; reflexivity|exact E3]. eapply history_add; [|exact Hf|intros _; reflexivity|exact E2].
  eapply history_add; [|exact Hf|intros _; reflexivity|exact E1]. apply history_empty.
Qed.

Lemma unit_dependencies_mirrored_witness :
  ∃ D, sample_tables = Some D ∧ 1%positive ∈ foreach_dependency D 2 (atom_bit UNIT_ATOM_BEFORE) ∧
  (∀ w a, 2%positive ∉ foreach_dependency (unit_clear_dependencies 2 D) w (atom_bit a)).
Proof.
  destruct sample_history as (D & HD & Hh). exists D. destruct (unit_dependencies_mirrored D Hh) as (_ & Hinv & _ & _ & _ & Hc).
  split; [exact HD|split].
  - pose proof sample_walks as Hw. rewrite HD in Hw. cbn [mbind option_bind] in Hw. apply (f_equal (from_option snd [])) in Hw. cbn [from_option snd] in Hw. rewrite Hw. left.
  - intros w a H. apply Hc in H. destruct H as (_ & H & _). apply H. reflexivity.
Defined.

(** Masks that contain the old ones are lost: a dependency that is there by default is then configured
    in a file as well as by default, and still goes when those by default are removed. *)
Example update_loses_masks :
  let t := snd (unit_per_dependency_type_hashmap_update ∅ 2 4 0) in
  fst (unit_per_dependency_type_hashmap_update t 2 (1 + 4) 0) = 0 ∧
  origin (snd (unit_per_dependency_type_hashmap_update t 2 (1 + 4) 0) !! 2%positive) = 4.
Proof. vm_compute. split; reflexivity. Qed.
