(* ===== verification/UnitMergeDeps.v ===== *)
(** * Merging the dependencies of two units (src/core/unit.c, [unit_merge_dependencies])

    What is left in each entry of the tables when a unit takes over the dependencies of another one,
    and that the two sides of each dependency still agree. *)

From S2P Require Import Prelude JobType UnitDep UnitDeps UnitDepsOps.

(** An entry with the masks of the entry that is moved into it. *)
Definition taken (i j : option UnitDependencyInfo) : option UnitDependencyInfo :=
  match j with None => i | Some j => Some (joined i (origin_mask j) (destination_mask j)) end.

Lemma taken_none i : taken None i = i.
Proof. by destruct i as [[]|]. Qed.

Lemma redirect_lookup u other t b :
  u ≠ other → redirect u other t !! b = if decide (b = other) then None else if decide (b = u) then taken (t !! u) (t !! other) else t !! b.
Proof.
  intros Hne. unfold redirect. destruct (t !! other) as [di|] eqn:E; cbn [taken].
  - rewrite update_lookup, (lookup_delete_ne t other u) by done. repeat case_decide; subst; try done; [apply lookup_delete_eq|by rewrite lookup_delete_ne].
  - repeat case_decide; by subst.
Qed.

Section Merge.
Context (u other : positive) (D0 : Tables) (Hne : u ≠ other) (Hm : mirrored D0).

(** The tables without what [u] has on [other]. *)
Definition start : Tables := set_deps u (filter (λ e, snd e ≠ ∅) (delete other <$> deps_of D0 u)) D0.

Lemma start_info a x b : info start a x b = if decide (a = u ∧ b = other) then None else info D0 a x b.
Proof.
  unfold start, info. rewrite per_type_set_deps. destruct (decide (a = u)) as [->|Ha]; [|by rewrite decide_False by naive_solver].
  rewrite map_lookup_filter, lookup_fmap. unfold per_type. destruct (deps_of D0 u !! x) as [t|]; cbn; [|by case_decide; rewrite ?lookup_empty].
  case_guard as Hg; cbn.
  - case_decide as E; [destruct E as [_ ->]; apply lookup_delete_eq|]. by rewrite lookup_delete_ne by naive_solver.
  - rewrite lookup_empty. case_decide as E; [done|]. rewrite <- (lookup_delete_ne t other b) by naive_solver. by rewrite Hg, lookup_empty.
Qed.

(** The entry of a unit that is redirected. *)
Definition redirected (a : positive) (x : UnitDependency) (b : positive) : option UnitDependencyInfo :=
  if decide (b = other) then None else if decide (b = u) then taken (info D0 a x u) (info D0 a x other) else info D0 a x b.

(** The tables when the units [V] are redirected, the entries [W] are joined to those of [u], and the
    types [ds] are done. *)
Record merging (V : list positive) (W : list (UnitDependency * positive)) (ds : list UnitDependency) (D : Tables) : Prop := {
  mg_u x b : info D u x b = if decide ((x, b) ∈ W) then taken (info start u x b) (info D0 other x b) else info start u x b;
  mg_a a x b : a ≠ u → info D a x b = if decide (a ∈ V) then redirected a x b else info D0 a x b;
  mg_types x : x ∉ ds → deps_of D u !! x = deps_of start u !! x;
  mg_merged : merged_into D = merged_into D0 }.

Definition inner (dt : UnitDependency) (deps : bool) (D : Tables) (e : positive * UnitDependencyInfo) : Tables :=
  let '(back, di) := e in
  if bool_decide (back = u) then D
  else
    let D := set_deps back (redirect u other <$> deps_of D back) D in
    if deps then
      set_per_type u dt (snd (unit_per_dependency_type_hashmap_update (per_type D u dt) back (origin_mask di) (destination_mask di))) D
    else D.

Lemma redirect_empty : redirect u other ∅ = ∅.
Proof. unfold redirect. by rewrite lookup_empty. Qed.

Lemma redirected_twice a x b : 
  (if decide (b = other) then None else if decide (b = u) then taken (redirected a x u) (redirected a x other) else redirected a x b) = redirected a x b.
Proof. unfold redirected. repeat case_decide; subst; try done. Qed.

Lemma inner_spec V W ds dt (deps : bool) D back di :
  merging V W ds D → back ≠ u → info D0 other dt back = Some di → (dt, back) ∉ W →
  merging (back :: V) (if deps then (dt, back) :: W else W) (dt :: ds) (inner dt deps D (back, di)).
Proof.
  intros HM Hb Hdi HW. unfold inner. rewrite bool_decide_false by done.
  set (D2 := set_deps back (redirect u other <$> deps_of D back) D).
  assert (H2 : merging (back :: V) W ds D2).
  { split.
    - intros x b. unfold D2. rewrite info_map by apply redirect_empty. rewrite decide_False by done. apply (mg_u V W ds D HM).
    - intros a x b Ha. unfold D2. rewrite info_map by apply redirect_empty. destruct (decide (a = back)) as [->|Hab].
      + rewrite redirect_lookup by done. fold (info D back x u) (info D back x other) (info D back x b). rewrite !(mg_a V W ds D HM) by done.
        rewrite (decide_True (P := back ∈ back :: V)) by left. destruct (decide (back ∈ V)); [by apply redirected_twice|done].
      + rewrite (mg_a V W ds D HM) by done. apply decide_ext. rewrite elem_of_cons. naive_solver.
    - intros x Hx. unfold D2. rewrite deps_of_set, decide_False by done. by apply (mg_types V W ds D HM).
    - apply (mg_merged V W ds D HM). }
  destruct deps.
  2: { destruct H2 as [A1 A2 A3 A4]. split; [done..| |done]. intros x Hx. apply A3. set_solver. }
  split.
  - intros x b. unfold info at 1. rewrite per_type_set. destruct (decide (u = u ∧ x = dt)) as [[_ ->]|Hx].
    + rewrite update_lookup. fold (info D2 u dt back) (info D2 u dt b). rewrite !(mg_u _ _ _ _ H2). destruct (decide (b = back)) as [->|Hbb].
      * rewrite (decide_True (P := (dt, back) ∈ (dt, back) :: W)) by left. rewrite decide_False by done. by rewrite Hdi.
      * apply decide_ext. rewrite elem_of_cons. naive_solver.
    + fold (info D2 u x b). rewrite (mg_u _ _ _ _ H2). apply decide_ext. rewrite elem_of_cons. naive_solver.
  - intros a x b Ha. unfold info at 1. rewrite per_type_set, decide_False by naive_solver. by apply (mg_a _ _ _ _ H2).
  - intros x Hx. unfold set_per_type. rewrite deps_of_set, decide_True by done. rewrite lookup_insert_ne by set_solver. apply (mg_types _ _ _ _ H2). set_solver.
  - apply (mg_merged _ _ _ _ H2).
Qed.

Lemma merging_weaken V W ds d D : merging V W ds D → merging V W (d :: ds) D.
Proof. intros [A1 A2 A3 A4]. split; [done..| |done]. intros x Hx. apply A3. set_solver. Qed.

Lemma inner_all dt (deps : bool) l V W ds D :
  NoDup l.*1 → (∀ back di, (back, di) ∈ l → info D0 other dt back = Some di) → (∀ back, back ∈ l.*1 → (dt, back) ∉ W) → merging V W ds D →
  ∃ V' W', merging V' W' (dt :: ds) (foldl (inner dt deps) D l) ∧
    (∀ a, a ∈ V' ↔ a ∈ V ∨ a ∈ l.*1 ∧ a ≠ u) ∧ (∀ p, p ∈ W' ↔ p ∈ W ∨ deps = true ∧ fst p = dt ∧ snd p ∈ l.*1 ∧ snd p ≠ u).
Proof.
  revert V W ds D. induction l as [|[back di] l IH]; intros V W ds D Hnd Hl HW HM; cbn [foldl].
  { exists V, W. split_and!; [by apply merging_weaken|..]; intros; cbn; rewrite elem_of_nil; naive_solver. }
  cbn in Hnd. apply NoDup_cons in Hnd as [Hnin Hnd]. destruct (decide (back = u)) as [->|Hb].
  - unfold inner at 2. rewrite bool_decide_true by done.
    destruct (IH V W ds D) as (V' & W' & HM' & HV & HW'); [done|intros; apply Hl; by right|intros; apply HW; by right|done|]. exists V', W'. split_and!; [done|..].
    + intros a. rewrite HV. cbn. rewrite elem_of_cons. naive_solver.
    + intros [x b]. rewrite HW'. cbn. rewrite elem_of_cons. naive_solver.
  - assert (Hstep := inner_spec V W ds dt deps D back di HM Hb (Hl back di ltac:(left)) (HW back ltac:(left))).
    destruct (IH (back :: V) (if deps then (dt, back) :: W else W) (dt :: ds) (inner dt deps D (back, di))) as (V' & W' & HM' & HV & HW'); [done|..|done|].
    + intros b i Hi. apply Hl. by right.
    + intros b Hbl. destruct deps; [|by apply HW; right]. rewrite elem_of_cons. intros [[= ->]|Hin]; [done|]. revert Hin. apply HW. by right.
    + exists V', W'. split_and!.
      * destruct HM' as [A1 A2 A3 A4]. split; [done..| |done]. intros x Hx. apply A3. set_solver.
      * intros a. rewrite HV. cbn. rewrite !elem_of_cons. naive_solver.
      * intros [x b]. rewrite HW'. cbn. destruct deps; rewrite !elem_of_cons; naive_solver.
Qed.

(** One type of dependencies. *)
Lemma merge_type_spec V W ds dt t D :
  merging V W ds D → (∀ p, p ∈ W → fst p ∈ ds) → dt ∉ ds → deps_of D0 other !! dt = Some t →
  ∃ V' W', merging V' W' (dt :: ds) (merge_type u other (dt, t) D) ∧
    (∀ a, a ∈ V' ↔ a ∈ V ∨ info D0 other dt a ≠ None ∧ a ≠ u) ∧
    (∀ p, p ∈ W' ↔ p ∈ W ∨ fst p = dt ∧ info D0 other dt (snd p) ≠ None ∧ snd p ≠ u).
Proof.
  intros HM HW Hdt Ht.
  assert (Hinfo : ∀ b, info D0 other dt b = t !! b) by (intros b; unfold info, per_type; by rewrite Ht).
  assert (Hmem : ∀ b, b ∈ (map_to_list t).*1 ↔ info D0 other dt b ≠ None).
  { intros b. rewrite Hinfo, list_elem_of_fmap. split; [intros ([w i] & -> & Hi%elem_of_map_to_list); cbn; by rewrite Hi|].
    intros Hb. destruct (t !! b) as [i|] eqn:E; [|done]. exists (b, i). split; [done|]. by apply elem_of_map_to_list. }
  destruct (inner_all dt (bool_decide (deps_of D u !! dt ≠ None)) (map_to_list t) V W ds D) as (V' & W' & HM' & HV & HW'); [apply NoDup_fst_map_to_list|..|done|].
  { intros back di Hi. rewrite Hinfo. by apply elem_of_map_to_list. }
  { intros back _ Hin. by apply HW in Hin. }
  set (b0 := bool_decide (deps_of D u !! dt ≠ None)) in *.
  change (merge_type u other (dt, t) D) with (let D' := foldl (inner dt b0) D (map_to_list t) in if b0 then D' else set_per_type u dt (delete u t) D').
  destruct b0 eqn:Eb; cbv zeta.
  { exists V', W'. split_and!; [done|..]; intros; rewrite ?HV, ?HW', ?Hmem; naive_solver. }
  apply bool_decide_eq_false in Eb. apply dec_stable in Eb. rewrite (mg_types V W ds D HM) in Eb by done.
  assert (Hstart : ∀ b, info start u dt b = None) by (intros b; unfold info, per_type; rewrite Eb; apply lookup_empty).
  exists V', (W' ++ ((λ b, (dt, b)) <$> filter (λ b, b ≠ u) (map_to_list t).*1)).
  assert (HW2 : ∀ p, p ∈ W' ++ ((λ b, (dt, b)) <$> filter (λ b, b ≠ u) (map_to_list t).*1) ↔ p ∈ W ∨ fst p = dt ∧ info D0 other dt (snd p) ≠ None ∧ snd p ≠ u).
  { intros [x b]. rewrite elem_of_app, HW'. cbn [fst snd]. rewrite <- Hmem. split.
    - intros [[?|[? _]]|(c & Hp & Hc)%list_elem_of_fmap]; [by left|done|]. right. simplify_eq/=. apply list_elem_of_filter in Hc. naive_solver.
    - intros [?|(-> & ? & ?)]; [naive_solver|]. right. apply list_elem_of_fmap. exists b. split; [done|]. by apply list_elem_of_filter. }
  split_and!; [|intros; rewrite HV, Hmem; naive_solver|done]. split.
  - intros x b. unfold info at 1. rewrite per_type_set. destruct (decide (u = u ∧ x = dt)) as [[_ ->]|Hx].
    + rewrite Hstart, taken_none, Hinfo. assert ((dt, b) ∉ W) by (intros Hin; by apply HW in Hin). destruct (decide (b = u)) as [->|Hb].
      * rewrite lookup_delete_eq, decide_False; [done|]. rewrite HW2. naive_solver.
      * rewrite lookup_delete_ne by done. case_decide as E; [done|]. rewrite HW2 in E. cbn [fst snd] in E. rewrite Hinfo in E. destruct (t !! b) eqn:Et; [exfalso; naive_solver|done].
    + fold (info (foldl (inner dt false) D (map_to_list t)) u x b). rewrite (mg_u _ _ _ _ HM'). apply decide_ext. rewrite HW2, HW'. naive_solver.
  - intros a x b Ha. unfold info at 1. rewrite per_type_set, decide_False by naive_solver. by apply (mg_a _ _ _ _ HM').
  - intros x Hx. unfold set_per_type. rewrite deps_of_set, decide_True, lookup_insert_ne by set_solver. by apply (mg_types _ _ _ _ HM').
  - apply (mg_merged _ _ _ _ HM').
Qed.

Lemma merge_types_spec l V W ds D :
  merging V W ds D → (∀ p, p ∈ W → fst p ∈ ds) → NoDup l.*1 → (∀ x, x ∈ l.*1 → x ∉ ds) → (∀ x t, (x, t) ∈ l → deps_of D0 other !! x = Some t) →
  ∃ V' W' ds', merging V' W' ds' (foldl (λ D e, merge_type u other e D) D l) ∧
    (∀ a, a ∈ V' ↔ a ∈ V ∨ ∃ x, x ∈ l.*1 ∧ info D0 other x a ≠ None ∧ a ≠ u) ∧
    (∀ p, p ∈ W' ↔ p ∈ W ∨ fst p ∈ l.*1 ∧ info D0 other (fst p) (snd p) ≠ None ∧ snd p ≠ u).
Proof.
  revert V W ds D. induction l as [|[dt t] l IH]; intros V W ds D HM HW Hnd Hds Hl; cbn [foldl].
  { exists V, W, ds. split_and!; [done|..]; intros; cbn; setoid_rewrite elem_of_nil; naive_solver. }
  cbn in Hnd. apply NoDup_cons in Hnd as [Hnin Hnd].
  destruct (merge_type_spec V W ds dt t D HM HW) as (V1 & W1 & HM1 & HV1 & HW1); [apply Hds; left|apply Hl; left|].
  destruct (IH V1 W1 (dt :: ds) _ HM1) as (V' & W' & ds' & HM' & HV' & HW'); [|done|..].
  - intros p [Hp|[-> _]]%HW1; [right; by apply HW|left].
  - intros x Hx. rewrite elem_of_cons. intros [->|Hin]; [done|]. revert Hin. apply Hds. by right.
  - intros x y Hxy. apply Hl. by right.
  - exists V', W', ds'. split_and!; [done|..].
    + intros a. rewrite HV', HV1. cbn. setoid_rewrite elem_of_cons. naive_solver.
    + intros p. rewrite HW', HW1. cbn. rewrite elem_of_cons. naive_solver.
Qed.

Lemma start_merging : merging [] [] [] start.
Proof.
  split; [done| |done|done]. intros a x b Ha. rewrite start_info, decide_False by naive_solver. done.
Qed.

(** What is in each entry after the merge. *)
Lemma merge_info a x b :
  info (unit_merge_dependencies u other D0) a x b =
    if decide (a = other) then None
    else if decide (a = u) then (if decide (b = u ∨ b = other) then None else taken (info D0 u x b) (info D0 other x b))
    else if decide (a ∈ depends_on D0 other) then redirected a x b
    else info D0 a x b.
Proof.
  unfold unit_merge_dependencies. rewrite bool_decide_false by done. cbv zeta. fold start. rewrite info_forget. destruct (decide (a = other)) as [->|Ha]; [done|].
  assert (Ho : deps_of start other = deps_of D0 other) by (unfold start; by rewrite deps_of_set, decide_False).
  rewrite Ho. destruct (merge_types_spec (map_to_list (deps_of D0 other)) [] [] [] start start_merging) as (V & W & ds & HM & HV & HW).
  { intros p Hp. by apply elem_of_nil in Hp. }
  { apply NoDup_fst_map_to_list. }
  { intros y _ Hy. by apply elem_of_nil in Hy. }
  { intros y t. apply elem_of_map_to_list. }
  assert (Hin : ∀ y c, info D0 other y c ≠ None → y ∈ (map_to_list (deps_of D0 other)).*1).
  { intros y c Hc. unfold info, per_type in Hc. destruct (deps_of D0 other !! y) as [t|] eqn:E; [|cbn in Hc; by rewrite lookup_empty in Hc].
    apply list_elem_of_fmap. exists (y, t). split; [done|]. by apply elem_of_map_to_list. }
  destruct (decide (a = u)) as [->|Hau].
  - rewrite (mg_u _ _ _ _ HM), start_info. destruct (decide (b = u ∨ b = other)) as [Hb|Hb].
    + rewrite decide_False; [|rewrite HW; cbn [fst snd]; intros [Hx%elem_of_nil|(_ & Hx & ?)]; [done|]; destruct Hb as [->| ->]; [done|]; by rewrite (mi_self D0 Hm) in Hx].
      case_decide; [done|]. destruct Hb as [->| ->]; [by apply mi_self|naive_solver].
    + rewrite (decide_False (P := u = u ∧ b = other)) by naive_solver. case_decide as E; [done|]. destruct (info D0 other x b) eqn:Ei; [|done].
      exfalso. apply E, HW. right. cbn [fst snd]. rewrite Ei. split_and!; [|done|naive_solver]. apply (Hin x b). by rewrite Ei.
  - rewrite (mg_a _ _ _ _ HM) by done. apply decide_ext. rewrite HV, elem_depends_on. split.
    + intros [Hx%elem_of_nil|(y & _ & Hy & _)]; [done|by exists y].
    + intros [y Hy]. right. exists y. split_and!; [by apply (Hin y a)|done|done].
Qed.
End Merge.

Lemma taken_ok i j : entry_ok i → entry_ok j → entry_ok (taken i j).
Proof. intros Hi Hj. destruct j as [j|]; [|done]. cbn. intros x [= <-]. by apply joined_ok; [|apply Hj]. Qed.

(** Both sides take over the same masks. *)
Lemma taken_mirror i j i' j' :
  origin i = destination i' → destination i = origin i' → (i = None ↔ i' = None) →
  origin j = destination j' → destination j = origin j' → (j = None ↔ j' = None) →
  origin (taken i j) = destination (taken i' j') ∧ destination (taken i j) = origin (taken i' j').
Proof.
  intros H1 H2 H3 K1 K2 K3. destruct j as [[jo jd]|], j' as [[ko kd]|]; try (by destruct K3; naive_solver).
  cbn in K1, K2. subst. cbn. by apply joined_mirror.
Qed.

Lemma taken_destination i j : entry_ok j → destination i = 0 → destination j = 0 → destination (taken i j) = 0.
Proof.
  intros Hj Hi Hz. destruct j as [[o d]|]; [|done]. cbn in *. subst. destruct i as [[io id]|]; cbn in *; [|done]. subst. by destruct (_ && _).
Qed.

Lemma merge_mirrored u other D : u ≠ other → mirrored D → mirrored (unit_merge_dependencies u other D).
Proof.
  intros Hne HD. assert (Hinfo := λ a x b, merge_info u other D Hne HD a x b). assert (Hok := λ a x b, mirrored_entry D a x b HD).
  assert (Hnot : ∀ a x, inverse_table x ≠ x → a ∉ depends_on D other → info D a x other = None ∧ info D other x a = None).
  { intros a x Hx Ha. split; destruct (info D _ _ _) eqn:E; try done; exfalso; apply Ha.
    - apply (mirrored_depends D a other x HD Hx). by rewrite E.
    - apply elem_depends_on. exists x. by rewrite E. }
  assert (Hu : ∀ x b, inverse_table x ≠ x → b ≠ u → b ≠ other →
    origin (info (unit_merge_dependencies u other D) u x b) = destination (info (unit_merge_dependencies u other D) b (inverse_table x) u) ∧
    destination (info (unit_merge_dependencies u other D) u x b) = origin (info (unit_merge_dependencies u other D) b (inverse_table x) u)).
  { intros x b Hx Hb Hbo. rewrite !Hinfo, (decide_False (P := u = other)), (decide_True (P := u = u)), (decide_False (P := b = u ∨ b = other)) by naive_solver.
    rewrite (decide_False (P := b = other)), (decide_False (P := b = u)) by done.
    destruct (mirror_both D u x b HD Hx) as (H1 & H2 & H3), (mirror_both D other x b HD Hx) as (K1 & K2 & K3). case_decide as E.
    - unfold redirected. rewrite (decide_False (P := u = other)), (decide_True (P := u = u)) by done. by apply taken_mirror.
    - rewrite (proj2 (Hnot b x Hx E)). done. }
  split.
  - intros a x. rewrite Hinfo. destruct (decide (a = other)) as [|Ho]; [done|]. destruct (decide (a = u)) as [->|Ha]; [by rewrite decide_True by auto|].
    unfold redirected. rewrite (decide_False _ _ Ho), (decide_False _ _ Ha). case_decide; by apply mi_self.
  - intros a x b i. rewrite Hinfo. unfold redirected. repeat case_decide; try done; try (by apply taken_ok); by apply mi_masks.
  - intros a x b Hx. assert (Hx' : inverse_table (inverse_table x) ≠ inverse_table x) by by rewrite inverse_involutive.
    destruct (decide (a = u)) as [->|Ha], (decide (b = u)) as [->|Hb].
    + by rewrite !Hinfo, !(decide_False (P := u = other)), !(decide_True (P := u = u)), !(decide_True (P := u = u ∨ u = other)) by auto.
    + destruct (decide (b = other)) as [->|Hbo]; [|by apply Hu].
      by rewrite !Hinfo, (decide_False (P := u = other)), (decide_True (P := u = u)), (decide_True (P := other = u ∨ other = other)), decide_True by auto.
    + destruct (decide (a = other)) as [->|Hao].
      { by rewrite !Hinfo, (decide_True (P := other = other)), (decide_False (P := u = other)), (decide_True (P := u = u)), (decide_True (P := other = u ∨ other = other)) by auto. }
      destruct (Hu (inverse_table x) a Hx' Ha Hao) as [_ H]. by rewrite inverse_involutive in H.
    + rewrite !Hinfo, !(decide_False (P := a = u)), !(decide_False (P := b = u)) by done. unfold redirected. rewrite !(decide_False (P := a = u)), !(decide_False (P := b = u)) by done.
      pose proof (mi_mirror D HD a x b Hx). pose proof (mi_self D HD other x). pose proof (mi_self D HD other (inverse_table x)).
      repeat case_decide; subst; try done.
      * by rewrite (proj1 (Hnot b _ Hx' ltac:(done))).
      * by rewrite (proj1 (Hnot a _ Hx ltac:(done))).
  - intros a x b Hx. rewrite Hinfo. unfold redirected. repeat case_decide; try done; try (by apply mi_sym); by apply taken_destination; [|apply mi_sym..].
Qed.

Lemma merge_merged u other D : mirrored D → merged_into (unit_merge_dependencies u other D) = merged_into D.
Proof.
  intros HD. unfold unit_merge_dependencies. case_bool_decide as Hne; [done|]. cbv zeta. fold (start u other D).
  destruct (merge_types_spec u other D Hne HD (map_to_list (deps_of (start u other D) other)) [] [] [] (start u other D) (start_merging u other D Hne)) as (V & W & ds & HM & _).
  - intros p Hp. by apply elem_of_nil in Hp.
  - apply NoDup_fst_map_to_list.
  - intros y _ Hy. by apply elem_of_nil in Hy.
  - intros y t Ht. apply elem_of_map_to_list in Ht. unfold start in Ht. by rewrite deps_of_set, decide_False in Ht.
  - apply (mg_merged _ _ _ _ _ _ _ HM).
Qed.
