(* ===== verification/UnitNames.v ===== *)
(** * The names of units, and merging units (src/core/unit.c, src/basic/unit-file.c)

    The manager has a table of all names. Each unit has an id and aliases, of one type and one
    instance. A unit that turns out to be another one under a second name is merged into it: its
    names, its dependencies and the references to it go to the other unit. *)

From S2P Require Import Prelude JobType JobData UnitName UnitDep UnitDeps UnitDepsOps UnitMergeDeps.

Definition MANAGER_MAX_NAMES : Z := 131072.

Definition unit_type_may_alias (t : UnitType) : bool :=
  match t with UNIT_SERVICE | UNIT_SOCKET | UNIT_TARGET | UNIT_DEVICE | UNIT_TIMER | UNIT_PATH => true | _ => false end.

Definition unit_type_may_template (t : UnitType) : bool :=
  match t with UNIT_SERVICE | UNIT_SOCKET | UNIT_TARGET | UNIT_TIMER | UNIT_PATH => true | _ => false end.

#[global] Instance UnitNameFlags_eq_dec : EqDecision UnitNameFlags.
Proof. solve_decision. Defined.
#[global] Instance res_eq_dec {A} `{EqDecision A} : EqDecision (res A).
Proof. solve_decision. Defined.

(** ** State *)

(** [type] is [None] for [_UNIT_TYPE_INVALID]. *)
Record UnitNode := Node {
  id : option (list Z);
  aliases : gset (list Z);
  type : option UnitType;
  inst : option (list Z);  (* u->instance *)
  node_load_state : UnitLoadState }.

(** [names] is [manager->units]; [refs] are the targets of the UnitRef objects. *)
Record Registry := MkRegistry {
  names : gmap (list Z) positive;
  nodes : gmap positive UnitNode;
  tables : Tables;
  refs : gmap positive positive }.

Definition set_names (x : gmap (list Z) positive) (R : Registry) : Registry := MkRegistry x (nodes R) (tables R) (refs R).
Definition set_node (u : positive) (x : UnitNode) (R : Registry) : Registry := MkRegistry (names R) (<[u := x]> (nodes R)) (tables R) (refs R).

(** What merging asks of the other unit. *)
Class UnitActivity := {
  has_job : positive → bool;
  has_nop_job : positive → bool;
  inactive_or_failed : positive → bool }.

(** ** The code *)

Definition unit_has_name (U : UnitNode) (name : list Z) : bool := bool_decide (id U = Some name) || bool_decide (name ∈ aliases U).

Definition manager_get_unit (R : Registry) (name : list Z) : option positive := names R !! name.

(** A name, or a template with the instance of the unit filled in. *)
Definition instantiate (U : UnitNode) (text : list Z) : option (res (list Z)) :=
  if unit_name_is_valid text UNIT_NAME_TEMPLATE then
    match inst U with
    | None => Some (Err (-EINVAL))
    | Some i => unit_name_replace_instance text i
    end
  else Some (Ok text).

Definition unit_add_name (u : positive) (text : list Z) (R : Registry) : option (Z * Registry) :=
  U ← nodes R !! u;
  name ← instantiate U text;
  match name with
  | Err e => Some (e, R)
  | Ok name =>
      if unit_has_name U name then Some (0, R)
      else if bool_decide (names R !! name ≠ None) then Some (-EEXIST, R)
      else if negb (unit_name_is_valid name (Flags true false true)) then Some (-EINVAL, R)
      else
        t ← unit_name_to_type name;
        match t with
        | Err _ => Some (-EINVAL, R)
        | Ok t =>
            if bool_decide (type U ≠ None) && bool_decide (type U ≠ Some t) then Some (-EINVAL, R)
            else match unit_name_to_instance name with
            | Err e => Some (e, R)
            | Ok (_, i) =>
                if bool_decide (i ≠ None) && negb (unit_type_may_template t) then Some (-EINVAL, R)
                else if bool_decide (type U ≠ None) && bool_decide (inst U ≠ i) then Some (-EINVAL, R)
                else if bool_decide (id U ≠ None) && negb (unit_type_may_alias t) then Some (-EEXIST, R)
                else if MANAGER_MAX_NAMES <=? Z.of_nat (size (names R)) then Some (-E2BIG, R)
                else
                  let R := set_names (<[name := u]> (names R)) R in
                  if bool_decide (id U ≠ None) then
                    assert_ (bool_decide (name ∉ aliases U));;
                    Some (0, set_node u (Node (id U) ({[name]} ∪ aliases U) (type U) (inst U) (node_load_state U)) R)
                  else
                    assert_ (bool_decide (type U = None));;
                    assert_ (bool_decide (inst U = None));;
                    Some (0, set_node u (Node (Some name) (aliases U) (Some t) i (node_load_state U)) R)
            end
        end
  end.

Definition unit_choose_id (u : positive) (text : list Z) (R : Registry) : option (Z * Registry) :=
  U ← nodes R !! u;
  name ← instantiate U text;
  match name with
  | Err e => Some (e, R)
  | Ok name =>
      if bool_decide (id U = Some name) then Some (0, R)
      else if bool_decide (name ∉ aliases U) then Some (-ENOENT, R)
      else match id U with
      | Some old =>
          if bool_decide (old ∈ aliases U) then Some (-EEXIST, R)
          else Some (0, set_node u (Node (Some name) ({[old]} ∪ (aliases U ∖ {[name]})) (type U) (inst U) (node_load_state U)) R)
      | None => Some (0, set_node u (Node (Some name) (aliases U ∖ {[name]}) (type U) (inst U) (node_load_state U)) R)
      end
  end.

(** A unit as [unit_new] makes it; on failure it is freed again. *)
Definition new_node : UnitNode := Node None ∅ None None UNIT_STUB.

Definition unit_new_for_name (u : positive) (name : list Z) (R : Registry) : option (Z * Registry) :=
  '(r, R') ← unit_add_name u name (set_node u new_node R);
  Some (if r <? 0 then (r, R) else (r, R')).

Definition unit_merge_names (u other : positive) (R : Registry) : option Registry :=
  U ← nodes R !! u;
  O ← nodes R !! other;
  oid ← id O;
  assert_ (bool_decide (oid ∉ aliases U));;
  let new := {[oid]} ∪ aliases U ∪ aliases O in
  let R := set_node u (Node (id U) new (type U) (inst U) (node_load_state U)) R in
  let R := set_node other (Node None ∅ (type O) (inst O) (node_load_state O)) R in
  assert_ (forallb (λ n, bool_decide (names R !! n ≠ None)) (elements new));;
  Some (set_names (foldr (λ n m, <[n := u]> m) (names R) (elements new)) R).

Section Merge.
Context {UA : UnitActivity}.

Definition unit_merge (u other : positive) (R : Registry) : option (Z * Registry) :=
  U ← nodes R !! u;
  assert_ (bool_decide (type U ≠ None));;
  other ← unit_follow_merge (tables R) other;
  if bool_decide (other = u) then Some (0, R)
  else
    O ← nodes R !! other;
    if bool_decide (type U ≠ type O) then Some (-EINVAL, R)
    else if negb (from_option unit_type_may_alias false (type U)) then Some (-EEXIST, R)
    else if negb (bool_decide (node_load_state O = UNIT_STUB) || bool_decide (node_load_state O = UNIT_NOT_FOUND)) then Some (-EEXIST, R)
    else if bool_decide (inst U ≠ inst O) then Some (-EINVAL, R)
    else if has_job other then Some (-EEXIST, R)
    else if has_nop_job other then Some (-EEXIST, R)
    else if negb (inactive_or_failed other) then Some (-EEXIST, R)
    else
      let refs := (λ t, if bool_decide (t = other) then u else t) <$> refs R in
      let R := MkRegistry (names R) (nodes R) (unit_merge_dependencies u other (tables R)) refs in
      R ← unit_merge_names u other R;
      O ← nodes R !! other;
      let R := set_node other (Node (id O) (aliases O) (type O) (inst O) UNIT_MERGED) R in
      Some (0, MkRegistry (names R) (nodes R) (MkTables (dependencies (tables R)) (<[other := u]> (merged_into (tables R)))) refs).

Definition unit_merge_by_name (u : positive) (text : list Z) (R : Registry) : option (Z * Registry) :=
  U ← nodes R !! u;
  name ← instantiate U text;
  match name with
  | Err e => Some (e, R)
  | Ok name =>
      match manager_get_unit R name with
      | Some other => unit_merge u other R
      | None => unit_add_name u name R
      end
  end.
End Merge.

(** [unit_free]: the names. [hashmap_remove_value] removes the entry if its value is the unit. *)
Definition remove_value (u : positive) (n : list Z) (m : gmap (list Z) positive) : gmap (list Z) positive :=
  if bool_decide (m !! n = Some u) then delete n m else m.
Definition free_names (u : positive) (U : UnitNode) (m : gmap (list Z) positive) : gmap (list Z) positive :=
  let m := foldr (remove_value u) m (elements (aliases U)) in
  match id U with Some n => remove_value u n m | None => m end.

(** ** The symbolic links of aliases *)

Definition EXDEV : Z := 18.
Definition ELOOP : Z := 40.

Definition unit_symlink_name_compatible (symlink target : list Z) (instance_propagation : bool) : option Z :=
  let un_type1 := unit_name_classify symlink in
  if bool_decide (symlink = target) && match un_type1 with Ok f => plain f || instance f | Err e => negb (Z.land e 5 =? 0) end then Some 1
  else
    template ← unit_name_template symlink;
    match template with
    | Err e => Some (if e =? -EINVAL then 0 else e)
    | Ok template =>
        let un_type2 := unit_name_classify target in
        Some (if bool_decide (un_type1 = Ok UNIT_NAME_INSTANCE) && bool_decide (un_type2 = Ok UNIT_NAME_TEMPLATE) && bool_decide (template = target) then 1
              else if instance_propagation && bool_decide (un_type1 = Ok UNIT_NAME_TEMPLATE) && bool_decide (un_type2 = Ok UNIT_NAME_TEMPLATE) && bool_decide (template = target) then 1
              else 0)
    end.

(** Of [src] and [dst], the last components of the paths. *)
Definition unit_validate_alias_symlink (src dst : list Z) : option Z :=
  match unit_name_to_instance src with
  | Err e => Some e
  | Ok (src_name_type, src_instance) =>
      t ← unit_name_to_type src;
      match t with
      | Err _ => None
      | Ok src_unit_type =>
          if negb (unit_type_may_alias src_unit_type) then Some (-EINVAL)
          else if bool_decide (src_name_type ≠ UNIT_NAME_PLAIN) && negb (unit_type_may_template src_unit_type) then Some (-EINVAL)
          else if bool_decide (src = dst) then Some (-ELOOP)
          else match unit_name_to_instance dst with
          | Err e => Some (if e =? -EINVAL then -EXDEV else e)
          | Ok (dst_name_type, dst_instance) =>
              if negb (bool_decide (dst_name_type = src_name_type) || bool_decide (src_name_type = UNIT_NAME_INSTANCE) && bool_decide (dst_name_type = UNIT_NAME_TEMPLATE))
              then Some (-EXDEV)
              else
                mismatch ← (if bool_decide (dst_name_type = UNIT_NAME_INSTANCE) then s ← src_instance; d ← dst_instance; Some (bool_decide (s ≠ d)) else Some false);
                if (mismatch : bool) then Some (-EXDEV)
                else
                  d ← unit_name_to_type dst;
                  Some (if bool_decide (d ≠ Ok src_unit_type) then -EXDEV else 0)
          end
      end
  end.

(** ** The invariant *)

Definition owns (U : UnitNode) (n : list Z) : Prop := id U = Some n ∨ n ∈ aliases U.

(** What a unit says of its names. *)
Record node_ok (U : UnitNode) : Prop := {
  no_id n : id U = Some n → n ∉ aliases U;
  no_none : id U = None → aliases U = ∅;
  no_valid n : owns U n → ∃ p t, n = name_of p (inst U) t ∧ well_formed p (inst U) ∧ len n < UNIT_NAME_MAX ∧ permits (Flags true false true) (inst U) = true ∧ type U = Some t;
  no_new : type U = None → id U = None ∧ inst U = None;
  no_alias t : type U = Some t → aliases U ≠ ∅ → unit_type_may_alias t = true;
  no_template t i : type U = Some t → inst U = Some i → unit_type_may_template t = true }.

(** Merges go down. *)
Definition ranked (D : Tables) : Prop := ∃ rank : positive → nat, ∀ x y, merged_into D !! x = Some y → (rank y < rank x)%nat.

Record registry_ok (R : Registry) : Prop := {
  ro_names n u : names R !! n = Some u ↔ ∃ U, nodes R !! u = Some U ∧ owns U n;
  ro_nodes u U : nodes R !! u = Some U → node_ok U;
  ro_size : Z.of_nat (size (names R)) <= MANAGER_MAX_NAMES;
  ro_mirrored : mirrored (tables R);
  ro_ranked : ranked (tables R);
  ro_merged x : is_Some (merged_into (tables R) !! x) ↔ ∃ U, nodes R !! x = Some U ∧ node_load_state U = UNIT_MERGED;
  ro_nameless x U : nodes R !! x = Some U → node_load_state U = UNIT_MERGED → id U = None;
  ro_target x y : merged_into (tables R) !! x = Some y → is_Some (nodes R !! y) }.

(** Between operations each unit that is not merged has an id. *)
Definition all_named (R : Registry) : Prop := ∀ x U, nodes R !! x = Some U → node_load_state U ≠ UNIT_MERGED → id U ≠ None.

Lemma has_name_iff U n : unit_has_name U n = true ↔ owns U n.
Proof. unfold unit_has_name, owns. by rewrite orb_true_iff, !bool_decide_eq_true. Qed.

(** The loop of [unit_follow_merge] ends. *)
Lemma ranked_end D : ranked D → merges_end D.
Proof.
  intros [rank Hr] u. unfold unit_follow_merge. set (below x := filter (λ e : positive * positive, (rank e.1 <= rank x)%nat) (merged_into D)).
  assert (H : ∀ n x, (size (below x) <= n)%nat → is_Some (follow_merge n D x)).
  { induction n as [|n IH]; intros x Hs; cbn [follow_merge]; destruct (merged_into D !! x) as [y|] eqn:E; [|done| |done].
    all: assert (Hx : below x !! x = Some y) by (apply map_lookup_filter_Some; split; [done|cbn; lia]).
    - assert (H0 : size (below x) = 0%nat) by lia. apply map_size_empty_inv in H0. by rewrite H0, lookup_empty in Hx.
    - apply IH. assert (Hsub : below y ⊆ delete x (below x)).
      { apply map_subseteq_spec. intros k v [Hk Hle]%map_lookup_filter_Some. cbn in Hle. specialize (Hr x y E).
        rewrite lookup_delete_ne by (intros ->; lia). apply map_lookup_filter_Some. split; [done|cbn; lia]. }
      apply map_subseteq_size in Hsub. rewrite map_size_delete, Hx in Hsub. lia. }
  apply H. apply map_subseteq_size, map_filter_subseteq.
Qed.

Lemma ranked_insert D x y :
  ranked D → merged_into D !! y = None → x ≠ y → ranked (MkTables (dependencies D) (<[x := y]> (merged_into D))).
Proof.
  intros [rank Hr] Hy Hne. exists (λ w, if decide (w = y) then 0%nat else S (rank w)). cbn [merged_into]. intros a b. rewrite lookup_insert_Some.
  intros [[<- <-]|[Ha Hab]]; [rewrite decide_True, decide_False by done; lia|]. rewrite (decide_False (P := a = y)) by (intros ->; congruence).
  case_decide; [lia|]. specialize (Hr a b Hab). lia.
Qed.

Lemma follow_end D u v : unit_follow_merge D u = Some v → merged_into D !! v = None.
Proof.
  unfold unit_follow_merge. generalize (size (merged_into D)). intros n. revert u. induction n as [|n IH]; intros u; cbn [follow_merge];
    destruct (merged_into D !! u) eqn:E; try done; try (intros [= <-]; done). apply IH.
Qed.

Lemma follow_node R u v : registry_ok R → is_Some (nodes R !! u) → unit_follow_merge (tables R) u = Some v → is_Some (nodes R !! v).
Proof.
  intros HR. unfold unit_follow_merge. generalize (size (merged_into (tables R))). intros n. revert u. induction n as [|n IH]; intros u Hu; cbn [follow_merge];
    destruct (merged_into (tables R) !! u) eqn:E; try done; try (intros [= <-]; done). apply IH. by apply (ro_target R HR u).
Qed.

(** ** Adding names *)

Lemma replace_instance_total f i :
  unit_name_is_valid f UNIT_NAME_TEMPLATE = true →
  ∃ r, unit_name_replace_instance f i = Some r ∧ (r = Err (-EINVAL) ∨ ∃ n, r = Ok n).
Proof.
  intros Hv. apply valid_inv in Hv as (p & j & t & -> & Hw & Hperm & Hl). destruct j as [[|]|]; [|done..].
  unfold unit_name_replace_instance. destruct (negb _); [by eexists; auto|]. destruct (negb (unit_instance_is_valid i)); [by eexists; auto|].
  rewrite name_of_dot. unfold name_of at 1. cbn [app]. rewrite strchr_app by by apply prefix_no_at, Hw. cbn [mbind option_bind].
  destruct (unit_name_is_valid _ _); eauto.
Qed.

Lemma instantiate_total U text : ∃ r, instantiate U text = Some r ∧ (r = Err (-EINVAL) ∨ ∃ n, r = Ok n).
Proof.
  unfold instantiate. destruct (unit_name_is_valid text UNIT_NAME_TEMPLATE) eqn:E; [|by eauto]. destruct (inst U); [by apply replace_instance_total|by eauto].
Qed.

Lemma update_names R u U U' name :
  registry_ok R → nodes R !! u = Some U → names R !! name = None → node_ok U' → node_load_state U' = node_load_state U → node_load_state U ≠ UNIT_MERGED →
  (∀ n, owns U' n ↔ n = name ∨ owns U n) → Z.of_nat (size (names R)) < MANAGER_MAX_NAMES →
  registry_ok (set_node u U' (set_names (<[name := u]> (names R)) R)).
Proof.
  intros HR Hu Hn Hok Hl Hnm Hown Hsz. split; cbn [set_node set_names names nodes tables]; try apply HR.
  - intros n v. destruct (decide (v = u)) as [->|Hv].
    + rewrite lookup_insert_eq. destruct (decide (n = name)) as [->|Hne].
      * rewrite lookup_insert_eq. split; [|done]. intros _. exists U'. split; [done|]. apply Hown. by left.
      * rewrite lookup_insert_ne, (ro_names R HR) by done. setoid_rewrite Hu. split; [intros (? & [= <-] & ?)|intros (? & [= <-] & [?|?]%Hown)].
        -- exists U'. split; [done|]. apply Hown. by right.
        -- done.
        -- by exists U.
    + rewrite (lookup_insert_ne _ u v) by done. destruct (decide (n = name)) as [->|Hne].
      * rewrite lookup_insert_eq. split; [congruence|]. intros HV%(ro_names R HR). congruence.
      * rewrite lookup_insert_ne by done. apply (ro_names R HR).
  - intros v V. destruct (decide (v = u)) as [->|Hv]; [rewrite lookup_insert_eq; by intros [= <-]|rewrite lookup_insert_ne by done; apply (ro_nodes R HR)].
  - rewrite map_size_insert, Hn. lia.
  - intros x. rewrite (ro_merged R HR). destruct (decide (x = u)) as [->|Hx]; [rewrite lookup_insert_eq, Hu|by rewrite lookup_insert_ne].
    split; intros (V & [= <-] & ?); eexists; (split; [done|]); congruence.
  - intros v V. destruct (decide (v = u)) as [->|Hv]; [rewrite lookup_insert_eq; intros [= <-]; congruence|rewrite lookup_insert_ne by done; apply (ro_nameless R HR)].
  - intros x y Hxy. destruct (decide (y = u)) as [->|Hy]; [by rewrite lookup_insert_eq|rewrite lookup_insert_ne by done; by apply (ro_target R HR x)].
Qed.

(** The name is valid and fits the unit: what is left of the checks. *)
Lemma alias_ok U p t i :
  node_ok U → id U ≠ None → type U = Some t → inst U = i → well_formed p i → len (name_of p i t) < UNIT_NAME_MAX → permits (Flags true false true) i = true →
  unit_type_may_alias t = true → ¬ owns U (name_of p i t) →
  node_ok (Node (id U) ({[name_of p i t]} ∪ aliases U) (type U) (inst U) (node_load_state U)).
Proof.
  intros HU Hid Ht Hi Hw Hl Hperm Hal Hown. split; cbn.
  - intros n Hn. rewrite elem_of_union, elem_of_singleton. intros [->|Hin]; [apply Hown; by left|by apply (no_id U HU n)].
  - done.
  - intros n [Hn|Hn]; [apply (no_valid U HU); by left|]. apply elem_of_union in Hn as [->%elem_of_singleton|Hn]; [|apply (no_valid U HU); by right].
    subst i. by exists p, t.
  - rewrite Ht. done.
  - intros t' [= <-]%(eq_trans (eq_sym Ht)) _. done.
  - apply (no_template U HU).
Qed.

Lemma first_ok p t i s :
  well_formed p i → len (name_of p i t) < UNIT_NAME_MAX → permits (Flags true false true) i = true → (i ≠ None → unit_type_may_template t = true) →
  node_ok (Node (Some (name_of p i t)) ∅ (Some t) i s).
Proof.
  intros Hw Hl Hperm Ht. split; cbn; try done.
  - intros n [[= <-]|Hn]; [by exists p, t|set_solver].
  - intros t' i' [= <-] ->. by apply Ht.
Qed.

(** What [unit_add_name] has done: the unit has the name afterwards, or nothing has changed. *)
Definition add_done (R : Registry) (u : positive) (U : UnitNode) (text : list Z) (r : Z) (R' : Registry) : Prop :=
  registry_ok R' ∧ tables R' = tables R ∧ refs R' = refs R ∧
  (r < 0 ∧ R' = R ∨
   r = 0 ∧ ∃ n U', instantiate U text = Some (Ok n) ∧ nodes R' = <[u := U']> (nodes R) ∧ id U' ≠ None ∧ (id U ≠ None → id U' = id U) ∧
     node_load_state U' = node_load_state U ∧ (∀ m, owns U' m ↔ m = n ∨ owns U m)).

Lemma add_refused R u U text e : registry_ok R → e < 0 → ∃ r R', Some (e, R) = Some (r, R') ∧ add_done R u U text r R'.
Proof. intros HR He. exists e, R. unfold add_done. split_and!; auto. Qed.

(** On a unit that has an id or is new no assertion fails. *)
Lemma add_name_spec R u U text :
  registry_ok R → nodes R !! u = Some U → node_load_state U ≠ UNIT_MERGED → id U ≠ None ∨ type U = None →
  ∃ r R', unit_add_name u text R = Some (r, R') ∧ add_done R u U text r R'.
Proof.
  intros HR Hu Hnm Hid. pose proof (ro_nodes R HR u U Hu) as HU. unfold unit_add_name. rewrite Hu. cbn [mbind option_bind].
  destruct (instantiate_total U text) as (r & Hins & Hr). rewrite Hins. cbn [mbind option_bind]. destruct Hr as [->|[name ->]]; [by apply add_refused|].
  destruct (unit_has_name U name) eqn:Eh.
  { apply has_name_iff in Eh. exists 0, R. split; [done|]. unfold add_done. split_and!; [done..|]. right. split; [done|]. exists name, U.
    split_and!; [done|by rewrite insert_id| |done|done|naive_solver].
    intros Hn. destruct Eh as [Eh|Eh]; [congruence|]. rewrite (no_none U HU Hn) in Eh. set_solver. }
  case_bool_decide as En; [by apply add_refused|].
  destruct (unit_name_is_valid name (Flags true false true)) eqn:Ev; cbn [negb]; [|by apply add_refused].
  apply valid_inv in Ev as (p & i & t & -> & Hw & Hperm & Hl). destruct (parse_name_of p i t Hw Hl) as (_ & -> & ->). cbn [mbind option_bind].
  destruct (_ && _) eqn:E1; [by apply add_refused|]. destruct (bool_decide (i ≠ None) && _) eqn:E2; [by apply add_refused|].
  destruct (bool_decide (type U ≠ None) && bool_decide (inst U ≠ i)) eqn:E3; [by apply add_refused|].
  destruct (bool_decide (id U ≠ None) && _) eqn:E4; [by apply add_refused|]. destruct (Z.leb_spec MANAGER_MAX_NAMES (Z.of_nat (size (names R)))) as [|Hsz]; [by apply add_refused|].
  rewrite !andb_false_iff, !bool_decide_eq_false, ?negb_false_iff in *. assert (Hno : ¬ owns U (name_of p i t)) by (rewrite <- has_name_iff; congruence).
  case_bool_decide as Eid.
  - assert (Ht : type U = Some t) by (destruct (type U) eqn:E; [apply dec_stable; naive_solver|by destruct (no_new U HU E)]).
    assert (Hi : inst U = i) by (apply dec_stable; rewrite Ht in *; naive_solver).
    assert (Hal : unit_type_may_alias t = true) by naive_solver.
    unfold assert_. rewrite bool_decide_true by (intros H; apply Hno; by right). cbn [mbind option_bind]. eexists 0, _. split; [done|].
    unfold add_done. split_and!; [|done..|].
    + apply (update_names R u U); [done..|by apply alias_ok|done|done| |done]. intros n. unfold owns. cbn. rewrite elem_of_union, elem_of_singleton. naive_solver.
    + right. split; [done|]. eexists (name_of p i t), _. split_and!; [done|done|done|done|done|]. intros n. unfold owns. cbn. rewrite elem_of_union, elem_of_singleton. naive_solver.
  - destruct Hid as [Hid|Hid]; [done|]. destruct (no_new U HU Hid) as [_ Hi]. pose proof (no_none U HU Eid) as Hal.
    unfold assert_. rewrite Hid, Hi, Hal. rewrite !bool_decide_true by done. cbn [mbind option_bind]. eexists 0, _. split; [done|].
    assert (Hown : ∀ n, owns (Node (Some (name_of p i t)) ∅ (Some t) i (node_load_state U)) n ↔ n = name_of p i t ∨ owns U n).
    { intros n. unfold owns. cbn. rewrite Eid, Hal. split; [|naive_solver]. intros [[= ->]|H]; [by left|set_solver]. }
    unfold add_done. split_and!; [|done..|].
    + apply (update_names R u U); [done..|apply first_ok; try done; intros Hne; naive_solver|done|done|done|done].
    + right. split; [done|]. eexists (name_of p i t), _. by split_and!.
Qed.

(** ** Choosing the id *)

Lemma update_node R u U U' :
  registry_ok R → nodes R !! u = Some U → node_ok U' → node_load_state U' = node_load_state U → node_load_state U ≠ UNIT_MERGED → (∀ n, owns U' n ↔ owns U n) →
  registry_ok (set_node u U' R).
Proof.
  intros HR Hu Hok Hl Hnm Hown. split; cbn [set_node names nodes tables]; try apply HR.
  - intros n v. rewrite (ro_names R HR). destruct (decide (v = u)) as [->|Hv]; [rewrite lookup_insert_eq, Hu|by rewrite lookup_insert_ne].
    split; intros (V & [= <-] & Ho); eexists; (split; [done|]); by apply Hown.
  - intros v V. destruct (decide (v = u)) as [->|Hv]; [rewrite lookup_insert_eq; by intros [= <-]|rewrite lookup_insert_ne by done; apply (ro_nodes R HR)].
  - intros x. rewrite (ro_merged R HR). destruct (decide (x = u)) as [->|Hx]; [rewrite lookup_insert_eq, Hu|by rewrite lookup_insert_ne].
    split; intros (V & [= <-] & ?); eexists; (split; [done|]); congruence.
  - intros v V. destruct (decide (v = u)) as [->|Hv]; [rewrite lookup_insert_eq; intros [= <-]; congruence|rewrite lookup_insert_ne by done; apply (ro_nameless R HR)].
  - intros x y Hxy. destruct (decide (y = u)) as [->|Hy]; [by rewrite lookup_insert_eq|rewrite lookup_insert_ne by done; by apply (ro_target R HR x)].
Qed.

Lemma choose_id_spec R u U text :
  registry_ok R → nodes R !! u = Some U → node_load_state U ≠ UNIT_MERGED →
  ∃ r R', unit_choose_id u text R = Some (r, R') ∧ registry_ok R' ∧ names R' = names R ∧ tables R' = tables R ∧
    (r < 0 ∧ R' = R ∨
     r = 0 ∧ ∃ n U', instantiate U text = Some (Ok n) ∧ owns U n ∧ nodes R' = <[u := U']> (nodes R) ∧ id U' = Some n ∧
       node_load_state U' = node_load_state U ∧ (∀ m, owns U' m ↔ owns U m)).
Proof.
  intros HR Hu Hnm. pose proof (ro_nodes R HR u U Hu) as HU. unfold unit_choose_id. rewrite Hu. cbn [mbind option_bind].
  destruct (instantiate_total U text) as (r & Hins & Hr). rewrite Hins. cbn [mbind option_bind].
  destruct Hr as [->|[n ->]]; [exists (-EINVAL), R; split_and!; [done..|by left]|].
  case_bool_decide as E1.
  { exists 0, R. split_and!; [done..|]. right. split; [done|]. exists n, U. split_and!; [done|by left|by rewrite insert_id|done..]. }
  destruct (bool_decide (n ∉ aliases U)) eqn:E2; [exists (-ENOENT), R; split_and!; [done..|by left]|]. apply bool_decide_eq_false, dec_stable in E2.
  destruct (id U) as [old|] eqn:Eid; [|by rewrite (no_none U HU Eid) in E2; set_solver].
  pose proof (no_id U HU old Eid) as Hold. rewrite bool_decide_false by done. eexists 0, _. split; [done|].
  assert (Hown : ∀ m, owns (Node (Some n) ({[old]} ∪ aliases U ∖ {[n]}) (type U) (inst U) (node_load_state U)) m ↔ owns U m).
  { intros m. unfold owns. cbn. rewrite Eid, elem_of_union, elem_of_difference, !elem_of_singleton. destruct (decide (m = n)) as [->|]; [|naive_solver].
    split; [|naive_solver]. by intros _; right. }
  assert (Hok : node_ok (Node (Some n) ({[old]} ∪ aliases U ∖ {[n]}) (type U) (inst U) (node_load_state U))).
  { split; cbn; [|done| | | |apply (no_template U HU)].
    - intros m [= <-]. rewrite elem_of_union, elem_of_difference, !elem_of_singleton. naive_solver.
    - intros m Hm%Hown. by apply (no_valid U HU).
    - intros Ht. destruct (no_new U HU Ht). congruence.
    - intros t Ht _. apply (no_alias U HU t Ht). set_solver. }
  split_and!; [by apply (update_node R u U)|done..|]. right. split; [done|]. eexists n, _. split_and!; [done|by right|done..].
Qed.

(** ** Merging *)

Lemma foldr_insert_lookup (u : positive) (l : list (list Z)) (m : gmap (list Z) positive) n :
  foldr (λ n m, <[n := u]> m) m l !! n = if decide (n ∈ l) then Some u else m !! n.
Proof.
  induction l as [|k l IH]; cbn; [rewrite decide_False; [done|apply not_elem_of_nil]|]. destruct (decide (n = k)) as [->|Hne].
  - rewrite lookup_insert_eq, decide_True by left. done.
  - rewrite lookup_insert_ne, IH by done. apply decide_ext. rewrite elem_of_cons. naive_solver.
Qed.

Lemma foldr_insert_size (u : positive) (l : list (list Z)) (m : gmap (list Z) positive) :
  (∀ n, n ∈ l → m !! n ≠ None) → size (foldr (λ n m, <[n := u]> m) m l) = size m.
Proof.
  induction l as [|k l IH]; intros Hl; cbn; [done|]. rewrite map_size_insert. destruct (foldr _ m l !! k) eqn:E.
  - apply IH. intros n Hn. apply Hl. by right.
  - rewrite foldr_insert_lookup in E. case_decide; [done|]. exfalso. by apply (Hl k); [left|].
Qed.

Lemma owns_one R u v U V n : registry_ok R → nodes R !! u = Some U → nodes R !! v = Some V → owns U n → owns V n → u = v.
Proof.
  intros HR Hu Hv HU HV. assert (H1 : names R !! n = Some u) by (apply (ro_names R HR); by exists U).
  assert (H2 : names R !! n = Some v) by (apply (ro_names R HR); by exists V). congruence.
Qed.

Section MergeSpec.
Context (R : Registry) (u other : positive) (U O : UnitNode) (oid : list Z).
Context (HR : registry_ok R) (Hne : u ≠ other) (Hu : nodes R !! u = Some U) (Ho : nodes R !! other = Some O).
Context (Hid : id U ≠ None) (Hoid : id O = Some oid) (Hload : node_load_state U ≠ UNIT_MERGED) (Hload' : node_load_state O ≠ UNIT_MERGED).
Context (Htype : type U = type O) (Hinst : inst U = inst O) (Halias : from_option unit_type_may_alias false (type U) = true).

Definition new_aliases : gset (list Z) := {[oid]} ∪ aliases U ∪ aliases O.
Definition merged_u : UnitNode := Node (id U) new_aliases (type U) (inst U) (node_load_state U).
Definition merged_other : UnitNode := Node None ∅ (type O) (inst O) UNIT_MERGED.

Lemma elem_new n : n ∈ new_aliases ↔ owns O n ∨ n ∈ aliases U.
Proof. unfold new_aliases, owns. rewrite Hoid, !elem_of_union, elem_of_singleton. naive_solver. Qed.

Lemma new_known n : n ∈ new_aliases → names R !! n ≠ None.
Proof.
  intros [Hn|Hn]%elem_new; intros Hnone.
  - assert (names R !! n = Some other) by (apply (ro_names R HR); by exists O). congruence.
  - assert (names R !! n = Some u) by (apply (ro_names R HR); exists U; split; [done|by right]). congruence.
Qed.

Lemma merged_u_ok : node_ok merged_u.
Proof.
  pose proof (ro_nodes R HR u U Hu) as HU. pose proof (ro_nodes R HR other O Ho) as HO. split; cbn [merged_u id aliases type inst].
  - intros n Hn [Hx|Hx]%elem_new; [|by apply (no_id U HU n)]. apply Hne. apply (owns_one R u other U O n); try done. by left.
  - done.
  - intros n [Hn|[Hn|Hn]%elem_new].
    + apply (no_valid U HU). by left.
    + destruct (no_valid O HO n Hn) as (p & t & H). rewrite Hinst, Htype. by exists p, t.
    + apply (no_valid U HU). by right.
  - apply (no_new U HU).
  - intros t Ht _. by rewrite Ht in Halias.
  - apply (no_template U HU).
Qed.

Lemma merged_other_ok : node_ok merged_other.
Proof.
  pose proof (ro_nodes R HR other O Ho) as HO. split; cbn [merged_other id aliases type inst]; try done.
  - intros n [?|?]; [done|set_solver].
  - intros Ht. by destruct (no_new O HO Ht).
  - apply (no_template O HO).
Qed.

Definition merged_registry : Registry :=
  MkRegistry (foldr (λ n m, <[n := u]> m) (names R) (elements new_aliases)) (<[other := merged_other]> (<[u := merged_u]> (nodes R)))
    (MkTables (dependencies (unit_merge_dependencies u other (tables R))) (<[other := u]> (merged_into (tables R))))
    ((λ t, if bool_decide (t = other) then u else t) <$> refs R).

Lemma merged_names n : names merged_registry !! n = if decide (n ∈ new_aliases) then Some u else names R !! n.
Proof. cbn. rewrite foldr_insert_lookup. apply decide_ext. apply elem_of_elements. Qed.

Lemma merged_ok : registry_ok merged_registry.
Proof.
  assert (Hmi : merged_into (tables R) !! u = None).
  { destruct (merged_into (tables R) !! u) eqn:E; [|done]. destruct (proj1 (ro_merged R HR u) ltac:(by rewrite E)) as (V & HV & Hm). congruence. }
  split.
  - intros n v. rewrite merged_names. cbn [merged_registry nodes]. destruct (decide (v = other)) as [->|Hv].
    { rewrite lookup_insert_eq. split; [|intros (V & [= <-] & [?|?]); [done|cbn in *; set_solver]]. case_decide as E; [congruence|].
      intros (V & HV & Hown)%(ro_names R HR). rewrite Ho in HV. injection HV as <-. exfalso. apply E, elem_new. by left. }
    rewrite lookup_insert_ne by done. destruct (decide (v = u)) as [->|Hvu].
    + rewrite lookup_insert_eq. case_decide as E; [split; [|done]; intros _; exists merged_u; split; [done|by right]|]. rewrite (ro_names R HR), Hu.
      split; intros (V & [= <-] & [?|?]); try (exfalso; apply E; done).
      * exists merged_u. split; [done|by left].
      * exfalso. apply E, elem_new. by right.
      * exists U. split; [done|by left].
    + rewrite lookup_insert_ne by done. case_decide as E; [|apply (ro_names R HR)]. split; [congruence|]. intros (V & HV & Hown).
      apply elem_new in E as [E|E]; exfalso; [apply Hv, (owns_one R v other V O n)|apply Hvu, (owns_one R v u V U n)]; try done. by right.
  - intros v V. cbn [merged_registry nodes]. destruct (decide (v = other)) as [->|Hv]; [rewrite lookup_insert_eq; intros [= <-]; apply merged_other_ok|].
    rewrite lookup_insert_ne by done. destruct (decide (v = u)) as [->|Hvu]; [rewrite lookup_insert_eq; intros [= <-]; apply merged_u_ok|].
    rewrite lookup_insert_ne by done. apply (ro_nodes R HR).
  - cbn [merged_registry names]. rewrite foldr_insert_size; [apply HR|]. intros n Hn%elem_of_elements. by apply new_known.
  - apply (mirrored_ext (unit_merge_dependencies u other (tables R))); [done|]. apply merge_mirrored; [done|apply HR].
  - apply (ranked_insert (MkTables (dependencies (unit_merge_dependencies u other (tables R))) (merged_into (tables R)))); [|done|done]. apply (ro_ranked R HR).
  - intros x. cbn [merged_registry nodes tables merged_into]. destruct (decide (x = other)) as [->|Hx].
    { rewrite !lookup_insert_eq. split; [|done]. intros _. by exists merged_other. }
    rewrite !(lookup_insert_ne _ other x) by done. rewrite (ro_merged R HR). destruct (decide (x = u)) as [->|Hxu]; [rewrite lookup_insert_eq, Hu|by rewrite lookup_insert_ne].
    split; intros (V & [= <-] & ?); cbn in *; congruence.
  - intros v V. cbn [merged_registry nodes]. destruct (decide (v = other)) as [->|Hv]; [rewrite lookup_insert_eq; by intros [= <-]|].
    rewrite lookup_insert_ne by done. destruct (decide (v = u)) as [->|Hvu]; [rewrite lookup_insert_eq; intros [= <-]; done|].
    rewrite lookup_insert_ne by done. apply (ro_nameless R HR).
  - intros x y. cbn [merged_registry nodes tables merged_into]. intros Hxy. assert (is_Some (nodes R !! y)) as HN.
    { rewrite lookup_insert_Some in Hxy. destruct Hxy as [[_ <-]|[_ Hxy]]; [by rewrite Hu|by apply (ro_target R HR x)]. }
    destruct (decide (y = other)) as [->|]; [by rewrite lookup_insert_eq|]. rewrite lookup_insert_ne by done.
    destruct (decide (y = u)) as [->|]; [by rewrite lookup_insert_eq|by rewrite lookup_insert_ne].
Qed.
End MergeSpec.

Section MergeUnits.
Context {UA : UnitActivity}.

(** What [unit_merge] has done: nothing, or the other unit has given all it had to [u]. *)
Definition merge_done (R : Registry) (u : positive) (U : UnitNode) (x : positive) (r : Z) (R' : Registry) : Prop :=
  registry_ok R' ∧ (all_named R → all_named R') ∧
  (r < 0 ∧ R' = R ∨ r = 0 ∧ R' = R ∧ unit_follow_merge (tables R) x = Some u ∨
   r = 0 ∧ ∃ other O oid, unit_follow_merge (tables R) x = Some other ∧ other ≠ u ∧ nodes R !! other = Some O ∧ id O = Some oid ∧ node_load_state O ≠ UNIT_MERGED ∧ type O = type U ∧ inst O = inst U ∧
     R' = merged_registry R u other U O oid).

Lemma merge_refused R u U x e : registry_ok R → e < 0 → ∃ r R', Some (e, R) = Some (r, R') ∧ merge_done R u U x r R'.
Proof. intros HR He. exists e, R. split; [done|]. unfold merge_done. auto. Qed.

Lemma unit_merge_spec R u U x :
  registry_ok R → all_named R → nodes R !! u = Some U → node_load_state U ≠ UNIT_MERGED → is_Some (nodes R !! x) →
  ∃ r R', unit_merge u x R = Some (r, R') ∧ merge_done R u U x r R'.
Proof.
  intros HR Hall Hu Hl Hx. pose proof (ro_nodes R HR u U Hu) as HU. pose proof (Hall u U Hu Hl) as Hid. unfold unit_merge, assert_. rewrite Hu. cbn [mbind option_bind].
  rewrite bool_decide_true by (intros Ht; by destruct (no_new U HU Ht)). cbn [mbind option_bind].
  destruct (ranked_end _ (ro_ranked R HR) x) as [other Hf]. rewrite Hf. cbn [mbind option_bind].
  case_bool_decide as Eo; [exists 0, R; split; [done|]; unfold merge_done; split_and!; [done|done|]; right; left; split_and!; congruence|].
  destruct (follow_node R x other HR Hx Hf) as [O HO]. rewrite HO. cbn [mbind option_bind].
  case_bool_decide as E1; [by apply merge_refused|]. destruct (from_option _ _ _) eqn:E2; cbn [negb]; [|by apply merge_refused].
  destruct (negb _) eqn:E3; [by apply merge_refused|]. clear E3. case_bool_decide as E4; [by apply merge_refused|].
  destruct (has_job other); [by apply merge_refused|]. destruct (has_nop_job other); [by apply merge_refused|]. destruct (negb (inactive_or_failed other)); [by apply merge_refused|].
  assert (HlO : node_load_state O ≠ UNIT_MERGED).
  { intros Hm. assert (is_Some (merged_into (tables R) !! other)) as [y Hy] by (apply (ro_merged R HR); by exists O). rewrite (follow_end _ _ _ Hf) in Hy. done. }
  destruct (id O) as [oid|] eqn:Eid; [|by destruct (Hall other O HO HlO)].
  unfold unit_merge_names, assert_. cbn [nodes]. rewrite Hu, HO. cbn [mbind option_bind]. rewrite Eid. cbn [mbind option_bind].
  assert (Hou : oid ∉ aliases U) by (intros Hin; apply Eo; symmetry; apply (owns_one R u other U O oid); try done; [by right|by left]).
  rewrite bool_decide_true by done. cbn [mbind option_bind]. fold (new_aliases U O oid).
  assert (Hou' : u ≠ other) by congruence. cbn [set_node set_names names nodes tables refs].
  assert (Hfor : forallb (λ n, bool_decide (names R !! n ≠ None)) (elements (new_aliases U O oid)) = true).
  { apply forallb_forall. intros n Hn%list_elem_of_In%elem_of_elements. apply bool_decide_eq_true. by apply (new_known R u other U O oid). }
  rewrite Hfor. cbn [mbind option_bind set_node set_names names nodes tables refs]. rewrite lookup_insert_eq. cbn [mbind option_bind id aliases type inst].
  rewrite insert_insert_eq, merge_merged by apply HR. fold (merged_u U O oid). fold (merged_other O). fold (merged_registry R u other U O oid).
  eexists 0, _. split; [done|]. unfold merge_done. split_and!.
  - by apply merged_ok.
  - intros _ v V. cbn [merged_registry nodes]. destruct (decide (v = other)) as [->|Hv]; [rewrite lookup_insert_eq; by intros [= <-]|].
    rewrite lookup_insert_ne by done. destruct (decide (v = u)) as [->|Hvu]; [rewrite lookup_insert_eq; by intros [= <-]|]. rewrite lookup_insert_ne by done. apply Hall.
  - right. right. split; [done|]. exists other, O, oid. by split_and!.
Qed.
End MergeUnits.

(** ** The symbolic links of aliases *)

Lemma to_instance_invalid n : unit_name_is_valid n UNIT_NAME_ANY = false → unit_name_to_instance n = Err (-EINVAL).
Proof. intros H. unfold unit_name_to_instance. by rewrite H. Qed.

Lemma any_valid p i t : well_formed p i → len (name_of p i t) < UNIT_NAME_MAX → unit_name_is_valid (name_of p i t) UNIT_NAME_ANY = true.
Proof. intros Hw Hl. rewrite valid_name_of by done. rewrite (proj2 (Z.ltb_lt _ _)) by done. by destruct i as [[]|]. Qed.

Lemma name_of_inj p i t q j s :
  well_formed p i → well_formed q j → len (name_of p i t) < UNIT_NAME_MAX → name_of p i t = name_of q j s → p = q ∧ i = j ∧ t = s.
Proof.
  intros Hp Hq Hl He. destruct (parse_name_of p i t Hp Hl) as (H1 & H2 & H3). rewrite He in *. destruct (parse_name_of q j s Hq Hl) as (K1 & K2 & K3). split_and!; congruence.
Qed.

(** A pair of names of which the first may be an alias of the second. *)
Definition alias_of (src dst : list Z) : Prop :=
  ∃ p i q j t, src = name_of p i t ∧ dst = name_of q j t ∧ well_formed p i ∧ well_formed q j ∧ len src < UNIT_NAME_MAX ∧ len dst < UNIT_NAME_MAX ∧
    src ≠ dst ∧ unit_type_may_alias t = true ∧ (i ≠ None → unit_type_may_template t = true) ∧ (j = i ∨ j = Some [] ∧ i ≠ None).

Lemma alias_of_valid src dst : alias_of src dst → unit_name_is_valid src UNIT_NAME_ANY = true ∧ unit_name_is_valid dst UNIT_NAME_ANY = true.
Proof. intros (p & i & q & j & t & -> & -> & Hw & Hw' & Hl & Hl' & _). split; by apply any_valid. Qed.

Lemma alias_of_iff p i t q j s :
  well_formed p i → well_formed q j → len (name_of p i t) < UNIT_NAME_MAX → len (name_of q j s) < UNIT_NAME_MAX →
  alias_of (name_of p i t) (name_of q j s) ↔
    name_of p i t ≠ name_of q j s ∧ t = s ∧ unit_type_may_alias t = true ∧ (i ≠ None → unit_type_may_template t = true) ∧ (j = i ∨ j = Some [] ∧ i ≠ None).
Proof.
  intros Hw Hw' Hl Hl'. split.
  - intros (p2 & i2 & q2 & j2 & t2 & E1 & E2 & W1 & W2 & _ & _ & Hne & H1 & H2 & H3).
    apply name_of_inj in E1 as (-> & -> & ->); [|done..]. apply name_of_inj in E2 as (-> & -> & ->); [|done..]. done.
  - intros (Hne & <- & H1 & H2 & H3). exists p, i, q, j, t. split_and!; done.
Qed.

(** The aliases that are accepted as symbolic links. [unit_validate_alias_symlink_or_warn] never
    fails an assertion; it returns 0 exactly when both names are valid, differ, have the same type,
    which allows aliases (and templates, unless the source is plain), and the target has the
    same instance as the source, or is a template and the source is not plain; otherwise the
    result is -EINVAL, -ELOOP for the same name, or -EXDEV for a bad target. *)
Theorem alias_symlink_iff (src dst : list Z) :
  ∃ r, unit_validate_alias_symlink src dst = Some r ∧ (r = 0 ↔ alias_of src dst) ∧ (r = 0 ∨ r = -EINVAL ∨ r = -ELOOP ∧ src = dst ∨ r = -EXDEV).
Proof.
  assert (Hbad : ∀ e, e = -EINVAL ∨ e = -ELOOP ∧ src = dst ∨ e = -EXDEV → ¬ alias_of src dst →
    ∃ r, Some e = Some r ∧ (r = 0 ↔ alias_of src dst) ∧ (r = 0 ∨ r = -EINVAL ∨ r = -ELOOP ∧ src = dst ∨ r = -EXDEV)).
  { intros e He Hn. exists e. split_and!; [done| |by right]. split; [intros ->; by destruct He as [|[[]|]]|done]. }
  unfold unit_validate_alias_symlink. destruct (unit_name_is_valid src UNIT_NAME_ANY) eqn:Ev.
  2: { rewrite (to_instance_invalid src Ev). apply Hbad; [by left|]. intros [? _]%alias_of_valid. congruence. }
  apply valid_inv in Ev as (p & i & t & -> & Hw & _ & Hl). destruct (parse_name_of p i t Hw Hl) as (_ & -> & ->). cbn [mbind option_bind].
  destruct (unit_name_is_valid dst UNIT_NAME_ANY) eqn:Ed.
  2: { assert (¬ alias_of (name_of p i t) dst) by (intros [_ ?]%alias_of_valid; congruence). rewrite (to_instance_invalid dst Ed).
       destruct (negb _); [apply Hbad; auto|]. destruct (_ && _); [apply Hbad; auto|]. case_bool_decide; apply Hbad; auto. }
  apply valid_inv in Ed as (q & j & s & -> & Hw' & _ & Hl'). destruct (parse_name_of q j s Hw' Hl') as (_ & -> & ->).
  pose proof (alias_of_iff p i t q j s Hw Hw' Hl Hl') as HA.
  destruct (unit_type_may_alias t) eqn:Ea; cbn [negb]; [|apply Hbad; [auto|rewrite HA; naive_solver]].
  destruct (bool_decide (class i ≠ UNIT_NAME_PLAIN) && negb (unit_type_may_template t)) eqn:Et.
  { apply Hbad; [auto|]. rewrite HA. apply andb_true_iff in Et as [E1%bool_decide_eq_true E2%negb_true_iff]. intros (_ & _ & _ & Ht & _). destruct i; [|done]. rewrite Ht in E2; done. }
  destruct (bool_decide (name_of p i t = name_of q j s)) eqn:Es; [apply bool_decide_eq_true in Es; apply Hbad; [auto|rewrite HA; naive_solver]|apply bool_decide_eq_false in Es].
  assert (Htm : i ≠ None → unit_type_may_template t = true).
  { intros Hi. apply andb_false_iff in Et as [E1%bool_decide_eq_false|E2%negb_false_iff]; [|done]. destruct E1. by destruct i as [[]|]. }
  destruct (negb (bool_decide (class j = class i) || _)) eqn:Ec.
  { apply Hbad; [auto|]. rewrite HA. apply negb_true_iff, orb_false_iff in Ec as [E1%bool_decide_eq_false E2]. intros (_ & _ & _ & _ & [->|[-> Hi]]); [done|].
    destruct i as [[]|]; done. }
  apply negb_false_iff, orb_true_iff in Ec. rewrite andb_true_iff, !bool_decide_eq_true in Ec.
  assert (Hty : ∃ r, Some (if bool_decide ((Ok s : res UnitType) ≠ Ok t) then -EXDEV else 0) = Some r ∧ (r = 0 ↔ s = t) ∧ (r = 0 ∨ r = -EXDEV)).
  { destruct (decide (s = t)) as [->|Hst]; [rewrite bool_decide_false by auto; exists 0|rewrite bool_decide_true by congruence; exists (-EXDEV)];
      (split; [done|]); split; [done|by left| |by right]. split; [intros H; by vm_compute in H|done]. }
  destruct (decide (j = i ∨ j = Some [] ∧ i ≠ None)) as [Hj|Hj].
  - assert ((if bool_decide (class j = UNIT_NAME_INSTANCE) then s0 ← i; d ← j; Some (bool_decide (s0 ≠ d)) else Some false) = Some false) as ->.
    { destruct Hj as [->|[-> _]]; [|by rewrite bool_decide_false]. destruct (bool_decide (class i = _)) eqn:E; [|done]. apply bool_decide_eq_true in E.
      destruct i as [i|]; [|done]. cbn [mbind option_bind]. f_equal. apply bool_decide_eq_false. auto. }
    cbn [mbind option_bind]. destruct Hty as (r & -> & H1 & H2). exists r. split_and!; [done| |naive_solver]. rewrite H1, HA. naive_solver.
  - assert ((if bool_decide (class j = UNIT_NAME_INSTANCE) then s0 ← i; d ← j; Some (bool_decide (s0 ≠ d)) else Some false) = Some true) as ->.
    { destruct i as [[|c i]|], j as [[|e j]|]; cbn [class] in Ec; try (exfalso; destruct Ec as [Ec|[Ec Ec']]; discriminate);
        try (exfalso; apply Hj; by left); try (exfalso; apply Hj; by right). rewrite bool_decide_true by done. cbn [mbind option_bind]. f_equal.
      apply bool_decide_eq_true. intros E. apply Hj. left. congruence. }
    cbn [mbind option_bind]. apply Hbad; [auto|]. rewrite HA. naive_solver.
Qed.
