(* ===== verification/UnitRegistry.v ===== *)
(** * The units of the manager (src/core/unit.c)

    Histories of the operations on names, dependencies and references: units are made, named,
    merged, given and rid of dependencies, and freed. Every name belongs to one unit, and the two
    sides of each dependency agree. *)

From S2P Require Import Prelude JobType JobData UnitName UnitDep UnitDeps UnitDepsOps UnitMergeDeps UnitNames.

(** The part of [unit_free] that concerns names, dependencies and references. *)
Definition free_unit (u : positive) (R : Registry) : Registry :=
  let D := unit_clear_dependencies u (tables R) in
  MkRegistry (match nodes R !! u with Some U => free_names u U (names R) | None => names R end) (delete u (nodes R))
    (MkTables (dependencies D) (delete u (merged_into D))) (filter (λ e, snd e ≠ u) (refs R)).

(** ** Making units *)

Lemma set_new R u : registry_ok R → nodes R !! u = None → registry_ok (set_node u new_node R).
Proof.
  intros HR Hu. split; cbn [set_node names nodes tables]; try apply HR.
  - intros n v. rewrite (ro_names R HR). destruct (decide (v = u)) as [->|Hv]; [rewrite lookup_insert_eq, Hu|by rewrite lookup_insert_ne].
    split; [intros (V & ? & _); done|]. intros (V & [= <-] & [?|?]); [done|]. cbn in *. set_solver.
  - intros v V. destruct (decide (v = u)) as [->|Hv]; [rewrite lookup_insert_eq|rewrite lookup_insert_ne by done; apply (ro_nodes R HR)]. intros [= <-].
    split; cbn; try done. intros n [?|?]; [done|set_solver].
  - intros x. rewrite (ro_merged R HR). destruct (decide (x = u)) as [->|Hx]; [rewrite lookup_insert_eq, Hu|by rewrite lookup_insert_ne].
    split; intros (V & HV & ?); [done|]. injection HV as <-. done.
  - intros v V. destruct (decide (v = u)) as [->|Hv]; [rewrite lookup_insert_eq; intros [= <-]; done|rewrite lookup_insert_ne by done; apply (ro_nameless R HR)].
  - intros x y Hxy. destruct (decide (y = u)) as [->|Hy]; [by rewrite lookup_insert_eq|rewrite lookup_insert_ne by done; by apply (ro_target R HR x)].
Qed.

Lemma new_spec R u name :
  registry_ok R → all_named R → nodes R !! u = None →
  ∃ r R', unit_new_for_name u name R = Some (r, R') ∧ registry_ok R' ∧ all_named R' ∧ (r < 0 ∧ R' = R ∨ r = 0 ∧ manager_get_unit R' name = Some u).
Proof.
  intros HR Hall Hu. unfold unit_new_for_name.
  destruct (add_name_spec (set_node u new_node R) u new_node name (set_new R u HR Hu)) as (r & R' & -> & HR' & _ & _ & Hcase); [apply lookup_insert_eq|done|by right|].
  cbn [mbind option_bind]. destruct Hcase as [[Hr ->]|[-> (n & U' & Hins & Hn & Hid & _ & Hl & Hown)]].
  - rewrite (proj2 (Z.ltb_lt _ _) Hr). exists r, R. split_and!; [done..|by left].
  - cbn [Z.ltb Z.compare]. exists 0, R'. split_and!; [done..| |].
    + intros x X. rewrite Hn. cbn [set_node nodes]. rewrite insert_insert_eq. destruct (decide (x = u)) as [->|Hx]; [rewrite lookup_insert_eq; by intros [= <-]|].
      rewrite lookup_insert_ne by done. apply Hall.
    + right. split; [done|]. unfold instantiate in Hins. cbn [inst new_node] in Hins. destruct (unit_name_is_valid name UNIT_NAME_TEMPLATE); [done|]. injection Hins as <-.
      apply (ro_names R' HR'). exists U'. rewrite Hn, lookup_insert_eq. split; [done|]. apply Hown. by left.
Qed.

(** ** Freeing units *)

Lemma remove_value_lookup u n m k : remove_value u n m !! k = if decide (k = n ∧ m !! n = Some u) then None else m !! k.
Proof.
  unfold remove_value. case_bool_decide as E; case_decide as Ek; try naive_solver.
  - destruct Ek as [-> _]. apply lookup_delete_eq.
  - by rewrite lookup_delete_ne by naive_solver.
Qed.

Lemma remove_values_lookup u l m k : foldr (remove_value u) m l !! k = if decide (k ∈ l ∧ m !! k = Some u) then None else m !! k.
Proof.
  induction l as [|n l IH]; cbn [foldr]; [rewrite decide_False; [done|]; intros [H _]; by apply elem_of_nil in H|]. rewrite remove_value_lookup, IH.
  destruct (decide (k = n ∧ _)) as [[-> Hn]|Hk].
  - rewrite IH in Hn. case_decide as E; [done|]. rewrite decide_True by (split; [left|done]). done.
  - destruct (decide (k ∈ l ∧ _)) as [E|E]; [rewrite decide_True by (destruct E; split; [by right|done]); done|].
    case_decide as E2; [|done]. destruct E2 as [[->|?]%elem_of_cons Hu]; [|by destruct E]. exfalso. apply Hk. split; [done|]. by rewrite IH.
Qed.

Lemma free_names_lookup R u U n :
  registry_ok R → nodes R !! u = Some U → free_names u U (names R) !! n = if decide (names R !! n = Some u) then None else names R !! n.
Proof.
  intros HR Hu. assert (Hown : names R !! n = Some u → owns U n) by (intros (V & HV & ?)%(ro_names R HR); congruence).
  unfold free_names. destruct (id U) as [i|] eqn:Ei.
  - rewrite remove_value_lookup. assert (Hm := remove_values_lookup u (elements (aliases U)) (names R)).
    destruct (decide (n = i ∧ _)) as [[-> Hi]|Hi]; [rewrite Hm in Hi; case_decide; [done|by rewrite decide_True]|].
    rewrite Hm. destruct (decide (names R !! n = Some u)) as [E|E]; [|by rewrite decide_False by naive_solver].
    case_decide as E2; [done|]. exfalso. rewrite elem_of_elements in E2. destruct (Hown E) as [Hx|Hx]; [|by apply E2].
    apply Hi. split; [congruence|]. rewrite Hx in Ei. injection Ei as <-. rewrite Hm. rewrite decide_False; [done|]. by rewrite elem_of_elements.
  - rewrite remove_values_lookup. destruct (decide (names R !! n = Some u)) as [E|E]; [|by rewrite decide_False by naive_solver].
    destruct (Hown E) as [?|?]; [congruence|]. rewrite decide_True; [done|]. by rewrite elem_of_elements.
Qed.

Lemma free_spec R u :
  registry_ok R → is_Some (nodes R !! u) → (∀ x, merged_into (tables R) !! x ≠ Some u) →
  registry_ok (free_unit u R) ∧ (all_named R → all_named (free_unit u R)).
Proof.
  intros HR [U Hu] Hno. unfold free_unit. rewrite Hu. split.
  2: { intros Hall x X. cbn [nodes]. rewrite lookup_delete_Some. intros [_ HX]. by apply (Hall x). }
  split; cbn [names nodes tables merged_into]; rewrite ?clear_merged.
  - intros n v. rewrite (free_names_lookup R u U n HR Hu). setoid_rewrite lookup_delete_Some. case_decide as E.
    + split; [done|]. intros (V & [Hv HV] & Hown). assert (names R !! n = Some v) by (apply (ro_names R HR); by exists V). congruence.
    + rewrite (ro_names R HR). split; [|naive_solver]. intros (V & HV & Hown). exists V. split_and!; [|done|done]. intros <-. apply E, (ro_names R HR). by exists V.
  - intros v V [_ HV]%lookup_delete_Some. by apply (ro_nodes R HR v).
  - assert (Hsub : free_names u U (names R) ⊆ names R).
    { apply map_subseteq_spec. intros n v. rewrite (free_names_lookup R u U n HR Hu). by case_decide. }
    apply map_subseteq_size in Hsub. pose proof (ro_size R HR). lia.
  - apply (mirrored_ext (unit_clear_dependencies u (tables R))); [done|]. apply clear_mirrored, HR.
  - destruct (ro_ranked R HR) as [rank Hr]. exists rank. cbn [merged_into]. intros x y [_ Hxy]%lookup_delete_Some. by apply Hr.
  - intros x. destruct (decide (x = u)) as [->|Hx]; [rewrite !lookup_delete_eq|rewrite !lookup_delete_ne by done; apply (ro_merged R HR)].
    split; [intros [? ?]; done|intros (V & ? & _); done].
  - intros x X [_ HX]%lookup_delete_Some. by apply (ro_nameless R HR x).
  - intros x y [_ Hxy]%lookup_delete_Some. assert (y ≠ u) by (intros ->; by apply (Hno x)). rewrite lookup_delete_ne by done. by apply (ro_target R HR x).
Qed.

Section Registry.
Context {UA : UnitActivity} {UK : UnitKinds}.

Lemma instantiate_idem U text n : instantiate U text = Some (Ok n) → instantiate U n = Some (Ok n).
Proof.
  unfold instantiate. destruct (unit_name_is_valid text UNIT_NAME_TEMPLATE) eqn:E; [|intros [= <-]; by rewrite E].
  destruct (inst U) as [i|]; [|done]. unfold unit_name_replace_instance. destruct (negb _); [done|]. destruct (negb _); [done|].
  destruct (strchr text (ch "@")) as [[a b]|]; cbn [mbind option_bind]; [|done]. destruct (strrchr text (ch ".")) as [[c e]|]; cbn [mbind option_bind]; [|done].
  generalize (a ++ str "@" ++ i ++ e). intros s. destruct (unit_name_is_valid s UNIT_NAME_INSTANCE) eqn:Ev; [|done]. intros [= <-].
  destruct (unit_name_is_valid s UNIT_NAME_TEMPLATE) eqn:Et; [|done]. exfalso.
  apply valid_inv in Ev as (p & j & t & Hn & Hw & Hp & Hl). rewrite Hn, valid_name_of in Et by done. destruct j as [[|]|]; [done| |done]. by rewrite andb_false_r in Et.
Qed.

(** A unit that has a name is not merged. *)
Lemma named_follow R x X n : registry_ok R → nodes R !! x = Some X → owns X n → unit_follow_merge (tables R) x = Some x.
Proof.
  intros HR HX Hown. assert (Hm : merged_into (tables R) !! x = None).
  { destruct (merged_into (tables R) !! x) eqn:E; [|done]. destruct (proj1 (ro_merged R HR x) ltac:(by rewrite E)) as (V & HV & Hl). rewrite HX in HV. injection HV as <-.
    pose proof (ro_nameless R HR x X HX Hl) as Hid. destruct Hown as [?|Hin]; [congruence|]. rewrite (no_none X (ro_nodes R HR x X HX) Hid) in Hin. set_solver. }
  unfold unit_follow_merge. destruct (size _); cbn; by rewrite Hm.
Qed.

Lemma merge_by_name_spec R u U text :
  registry_ok R → all_named R → nodes R !! u = Some U → node_load_state U ≠ UNIT_MERGED →
  ∃ r R', unit_merge_by_name u text R = Some (r, R') ∧ registry_ok R' ∧ all_named R' ∧
    (r < 0 ∧ R' = R ∨ r = 0 ∧ ∃ n, instantiate U text = Some (Ok n) ∧ manager_get_unit R' n = Some u).
Proof.
  intros HR Hall Hu Hl. unfold unit_merge_by_name. rewrite Hu. cbn [mbind option_bind]. destruct (instantiate_total U text) as (r & Hins & Hr).
  rewrite Hins. cbn [mbind option_bind]. destruct Hr as [->|[n ->]]; [exists (-EINVAL), R; split_and!; [done..|by left]|].
  destruct (manager_get_unit R n) as [x|] eqn:Ex.
  - unfold manager_get_unit in Ex. apply (ro_names R HR) in Ex as (X & HX & Hown).
    destruct (unit_merge_spec R u U x HR Hall Hu Hl ltac:(by rewrite HX)) as (r & R' & -> & HR' & Hall' & Hcase). exists r, R'. split_and!; [done..|by apply Hall'|].
    rewrite (named_follow R x X n HR HX Hown) in Hcase.
    destruct Hcase as [[? ->]|[(-> & -> & [= <-])|(-> & other & O & oid & [= <-] & Hne & HO & Hoid & _ & _ & _ & ->)]]; [by left| |]; right; (split; [done|]); exists n; (split; [done|]).
    + apply (ro_names R HR). by exists X.
    + unfold manager_get_unit. rewrite merged_names, decide_True; [done|]. apply elem_new; [done|]. left. congruence.
  - destruct (add_name_spec R u U n HR Hu Hl ltac:(left; by apply (Hall u))) as (r & R' & -> & HR' & _ & _ & Hcase). exists r, R'. split_and!; [done..| |].
    + destruct Hcase as [[_ ->]|(_ & m & U' & _ & Hn & Hid & _)]; [done|]. intros x X. rewrite Hn. destruct (decide (x = u)) as [->|Hx]; [rewrite lookup_insert_eq; by intros [= <-]|].
      rewrite lookup_insert_ne by done. apply Hall.
    + destruct Hcase as [[? ->]|(-> & m & U' & Hi & Hn & _ & _ & _ & Hown)]; [by left|]. right. split; [done|]. exists n. split; [done|].
      rewrite (instantiate_idem U text n Hins) in Hi. injection Hi as <-. apply (ro_names R' HR'). exists U'. rewrite Hn, lookup_insert_eq. split; [done|]. apply Hown. by left.
Qed.

(** Units that are not merged. *)
Definition live (R : Registry) (u : positive) : Prop := ∃ U, nodes R !! u = Some U ∧ node_load_state U ≠ UNIT_MERGED.

(** One call. Names are added to live units and units are merged into live units; a unit is freed when
    no other one is merged into it. *)
Inductive step (R : Registry) : Registry → Prop :=
  | step_new u name r R' : nodes R !! u = None → unit_new_for_name u name R = Some (r, R') → step R R'
  | step_add_name u text r R' : live R u → unit_add_name u text R = Some (r, R') → step R R'
  | step_choose_id u text r R' : live R u → unit_choose_id u text R = Some (r, R') → step R R'
  | step_merge u text r R' : live R u → unit_merge_by_name u text R = Some (r, R') → step R R'
  | step_load u U s : nodes R !! u = Some U → node_load_state U ≠ UNIT_MERGED → s ≠ UNIT_MERGED →
      step R (set_node u (Node (id U) (aliases U) (type U) (inst U) s) R)
  | step_depend u d other add_reference m r D' : mask_ok m →
      unit_add_dependency u d other add_reference m (tables R) = Some (r, D') → step R (MkRegistry (names R) (nodes R) D' (refs R))
  | step_undepend u m D' : unit_remove_dependencies u m (tables R) = Some D' → step R (MkRegistry (names R) (nodes R) D' (refs R))
  | step_free u : is_Some (nodes R !! u) → (∀ x, merged_into (tables R) !! x ≠ Some u) → step R (free_unit u R).

Definition no_units : Registry := MkRegistry ∅ ∅ (MkTables ∅ ∅) ∅.
Definition reach : Registry → Prop := rtc step no_units.

Lemma tables_ok R D : registry_ok R → mirrored D → merged_into D = merged_into (tables R) → registry_ok (MkRegistry (names R) (nodes R) D (refs R)).
Proof.
  intros HR HD HM. split; cbn [names nodes tables]; try apply HR; rewrite ?HM; try apply HR; [done|].
  destruct (ro_ranked R HR) as [rank Hr]. exists rank. by rewrite HM.
Qed.

Lemma load_ok R u U s :
  registry_ok R → nodes R !! u = Some U → node_load_state U ≠ UNIT_MERGED → s ≠ UNIT_MERGED →
  registry_ok (set_node u (Node (id U) (aliases U) (type U) (inst U) s) R).
Proof.
  intros HR Hu Hl Hs. split; cbn [set_node names nodes tables]; try apply HR.
  - intros n v. rewrite (ro_names R HR). destruct (decide (v = u)) as [->|Hv]; [rewrite lookup_insert_eq, Hu|by rewrite lookup_insert_ne].
    by split; intros (V & [= <-] & Ho); eexists.
  - intros v V. destruct (decide (v = u)) as [->|Hv]; [rewrite lookup_insert_eq; intros [= <-]|rewrite lookup_insert_ne by done; apply (ro_nodes R HR)].
    destruct (ro_nodes R HR u U Hu). by split.
  - intros x. rewrite (ro_merged R HR). destruct (decide (x = u)) as [->|Hx]; [rewrite lookup_insert_eq, Hu|by rewrite lookup_insert_ne].
    by split; intros (V & [= <-] & ?).
  - intros v V. destruct (decide (v = u)) as [->|Hv]; [rewrite lookup_insert_eq; by intros [= <-]|rewrite lookup_insert_ne by done; apply (ro_nameless R HR)].
  - intros x y Hxy. destruct (decide (y = u)) as [->|Hy]; [by rewrite lookup_insert_eq|rewrite lookup_insert_ne by done; by apply (ro_target R HR x)].
Qed.

Lemma insert_named R u U' : all_named R → id U' ≠ None → ∀ R', nodes R' = <[u := U']> (nodes R) → all_named R'.
Proof.
  intros Hall Hid R' Hn x X. rewrite Hn. destruct (decide (x = u)) as [->|Hx]; [rewrite lookup_insert_eq; by intros [= <-]|].
  rewrite lookup_insert_ne by done. apply Hall.
Qed.

Lemma step_ok R R' : registry_ok R → all_named R → step R R' → registry_ok R' ∧ all_named R'.
Proof.
  intros HR Hall Hs. destruct Hs as [u name r R' Hu Hc|u text r R' (U & Hu & Hl) Hc|u text r R' (U & Hu & Hl) Hc|u text r R' (U & Hu & Hl) Hc|u U s Hu Hl Hs|u d other ar m r D' Hm Hc|u m D' Hc|u Hu Hno].
  - destruct (new_spec R u name HR Hall Hu) as (r' & R2 & Hc' & H1 & H2 & _). rewrite Hc in Hc'. by injection Hc' as <- <-.
  - destruct (add_name_spec R u U text HR Hu Hl ltac:(left; by apply (Hall u))) as (r' & R2 & Hc' & H1 & _ & _ & Hcase). rewrite Hc in Hc'. injection Hc' as <- <-.
    split; [done|]. destruct Hcase as [[_ ->]|(_ & n & U' & _ & Hn & Hid & _)]; [done|]. by apply (insert_named R u U').
  - destruct (choose_id_spec R u U text HR Hu Hl) as (r' & R2 & Hc' & H1 & _ & _ & Hcase). rewrite Hc in Hc'. injection Hc' as <- <-.
    split; [done|]. destruct Hcase as [[_ ->]|(_ & n & U' & _ & _ & Hn & Hid & _)]; [done|]. apply (insert_named R u U'); [done|congruence|done].
  - destruct (merge_by_name_spec R u U text HR Hall Hu Hl) as (r' & R2 & Hc' & H1 & H2 & _). rewrite Hc in Hc'. by injection Hc' as <- <-.
  - split; [by apply load_ok|]. apply (insert_named R u (Node (id U) (aliases U) (type U) (inst U) s)); [done| |done]. by apply (Hall u U).
  - destruct (add_dependency_spec (tables R) u d other ar m (ro_mirrored R HR) Hm (ranked_end _ (ro_ranked R HR))) as (? & ? & r' & D2 & _ & _ & Hc' & HM & HD & _).
    rewrite Hc in Hc'. injection Hc' as <- <-. split; [by apply tables_ok|done].
  - destruct (remove_dependencies_spec u m (tables R) (ro_mirrored R HR)) as (D2 & Hc' & HM & Hinfo). rewrite Hc in Hc'. injection Hc' as <-.
    split; [|done]. apply tables_ok; [done| |done]. apply (removed_mirrored u m (tables R)); [apply HR|done].
  - destruct (free_spec R u HR Hu Hno). auto.
Qed.

Lemma no_units_ok : registry_ok no_units ∧ all_named no_units.
Proof.
  split; [|by intros x X HX]. split; cbn [no_units names nodes tables merged_into].
  - intros n u. split; [done|]. by intros (U & ? & _).
  - by intros u U HU.
  - done.
  - split; intros *; rewrite ?empty_info; done.
  - by exists (λ _, 0%nat).
  - intros x. split; [by intros [y Hy]|]. by intros (U & ? & _).
  - by intros x U HU.
  - by intros x y Hxy.
Qed.

Lemma reach_ok R : reach R → registry_ok R ∧ all_named R.
Proof.
  intros HR. unfold reach in HR. pose proof no_units_ok as H0. revert H0.
  induction HR as [|R1 R2 R3 Hs _ IH]; [done|]. intros [H1 H2]. apply IH. by apply (step_ok R1).
Qed.

(** C12: names belong to units. In every state that calls can lead to (making, naming, merging and
    freeing units, choosing ids, changing dependencies, every error included) the manager finds
    a unit under a name exactly when the unit has that name; the name is then a valid name without a
    template, of the type and the instance of the unit, no second unit has it, the type allows
    aliases if the unit has any, and there are at most MANAGER_MAX_NAMES names. Following merges
    ends, at a unit that is not merged and has an id. *)
Theorem unit_names_unique (R : Registry) :
  reach R →
  (∀ n u, manager_get_unit R n = Some u ↔ ∃ U, nodes R !! u = Some U ∧ unit_has_name U n = true) ∧
  (∀ n u U, nodes R !! u = Some U → unit_has_name U n = true →
     unit_name_is_valid n (Flags true false true) = true ∧ (∃ t, type U = Some t ∧ unit_name_to_type n = Some (Ok t)) ∧
     unit_name_to_instance n = Ok (class (inst U), inst U) ∧
     (id U ≠ Some n → from_option unit_type_may_alias false (type U) = true)) ∧
  (∀ n u v U V, nodes R !! u = Some U → nodes R !! v = Some V → unit_has_name U n = true → unit_has_name V n = true → u = v) ∧
  Z.of_nat (size (names R)) <= MANAGER_MAX_NAMES ∧
  (∀ x, is_Some (nodes R !! x) → ∃ u, unit_follow_merge (tables R) x = Some u ∧ live R u ∧ ∀ U, nodes R !! u = Some U → id U ≠ None).
Proof.
  intros [HR Hall]%reach_ok. split_and!.
  - intros n u. unfold manager_get_unit. rewrite (ro_names R HR). by setoid_rewrite has_name_iff.
  - intros n u U Hu Hn%has_name_iff. pose proof (ro_nodes R HR u U Hu) as HU. destruct (no_valid U HU n Hn) as (p & t & -> & Hw & Hl & Hp & Ht).
    destruct (parse_name_of p (inst U) t Hw Hl) as (_ & Hi & Hty). split_and!; [|by exists t|done|].
    + rewrite valid_name_of by done. by rewrite (proj2 (Z.ltb_lt _ _) Hl), Hp.
    + intros Hid. rewrite Ht. cbn. apply (no_alias U HU t Ht). destruct Hn as [?|Hn]; [done|]. set_solver.
  - intros n u v U V Hu Hv HU%has_name_iff HV%has_name_iff. by apply (owns_one R u v U V n).
  - apply HR.
  - intros x Hx. destruct (ranked_end _ (ro_ranked R HR) x) as [u Hu]. exists u. split; [done|]. destruct (follow_node R x u HR Hx Hu) as [U HU].
    assert (Hl : node_load_state U ≠ UNIT_MERGED).
    { intros Hm. assert (is_Some (merged_into (tables R) !! u)) as [y Hy] by (apply (ro_merged R HR); by exists U). by rewrite (follow_end _ _ _ Hu) in Hy. }
    split; [by exists U|]. intros V HV. rewrite HU in HV. injection HV as <-. by apply (Hall u).
Qed.

(** C30: merging. [unit_merge] of a unit under any of its names into a live unit fails no assertion and
    fails with nothing changed, or afterwards: every name of the other unit is found to be [u];
    [u] has, for each atom, the dependencies of both units except those between them; a unit that
    was visited from the other one visits [u]; no reference points to the other unit; and
    following the merge of the other unit leads to [u]. *)
Theorem unit_merge_moves_all (R : Registry) (u x : positive) :
  reach R → live R u → is_Some (nodes R !! x) →
  ∃ r R', unit_merge u x R = Some (r, R') ∧
    (r < 0 ∧ R' = R ∨ r = 0 ∧ R' = R ∧ unit_follow_merge (tables R) x = Some u ∨
     r = 0 ∧ ∃ other O, unit_follow_merge (tables R) x = Some other ∧ other ≠ u ∧ nodes R !! other = Some O ∧
       (∀ n, unit_has_name O n = true → manager_get_unit R' n = Some u) ∧
       (∀ n, unit_has_name O n = false → manager_get_unit R' n = manager_get_unit R n) ∧
       (∀ a v, v ∈ foreach_dependency (tables R') u (atom_bit a) ↔
          v ≠ u ∧ v ≠ other ∧ (v ∈ foreach_dependency (tables R) u (atom_bit a) ∨ v ∈ foreach_dependency (tables R) other (atom_bit a))) ∧
       (∀ a b v, (a, b) ∈ inverse_atoms → v ≠ u → v ∈ foreach_dependency (tables R) other (atom_bit a) → u ∈ foreach_dependency (tables R') v (atom_bit b)) ∧
       (∀ ref t, refs R !! ref = Some t → refs R' !! ref = Some (if decide (t = other) then u else t)) ∧
       unit_follow_merge (tables R') other = Some u).
Proof.
  intros [HR Hall]%reach_ok (U & Hu & Hl) Hx. destruct (unit_merge_spec R u U x HR Hall Hu Hl Hx) as (r & R' & -> & HR' & _ & Hcase). exists r, R'. split; [done|].
  destruct Hcase as [?|[?|(-> & other & O & oid & Hf & Hne & HO & Hoid & HlO & _ & _ & HE)]]; [by left|by right; left|right; right]. split; [done|]. exists other, O.
  assert (HD := ro_mirrored R HR). assert (Hne' : u ≠ other) by done. assert (HD' := ro_mirrored R' HR').
  assert (Hinfo : ∀ a d b, info (tables R') a d b = info (unit_merge_dependencies u other (tables R)) a d b) by (intros; by rewrite HE).
  assert (Hfor : ∀ a v, v ∈ foreach_dependency (tables R') u (atom_bit a) ↔
          v ≠ u ∧ v ≠ other ∧ (v ∈ foreach_dependency (tables R) u (atom_bit a) ∨ v ∈ foreach_dependency (tables R) other (atom_bit a))).
  { intros a v. rewrite !foreach_dependency_spec. setoid_rewrite Hinfo. setoid_rewrite (merge_info u other (tables R) Hne' HD). setoid_rewrite (decide_False (P := u = other)); [|done].
    setoid_rewrite (decide_True (P := u = u)); [|done]. split.
    - intros (d & Hd & Hi). case_decide as E; [done|]. split_and!; [naive_solver..|]. destruct (info (tables R) other d v) eqn:Eo; [right|left]; exists d; [by rewrite Eo|done].
    - intros (Hv & Hvo & [(d & Hd & Hi)|(d & Hd & Hi)]); exists d; (split; [done|]); rewrite decide_False by naive_solver; destruct (info (tables R) other d v); done. }
  split_and!; [done..| | |done| | |].
  - intros n Hn%has_name_iff. unfold manager_get_unit. rewrite HE, merged_names, decide_True; [done|]. apply elem_new; [done|by left].
  - intros n Hn. unfold manager_get_unit. rewrite HE, merged_names. case_decide as E; [|done]. apply elem_new in E; [|done]. destruct E as [E|E].
    + apply has_name_iff in E. congruence.
    + symmetry. apply (ro_names R HR). exists U. split; [done|by right].
  - intros a b v Hab Hv Ho. apply (foreach_inverse (tables R') u v a b HD' Hab), Hfor. split_and!; [done| |by right]. intros ->.
    apply foreach_dependency_spec in Ho as (d & _ & Hi). by rewrite (mi_self _ HD) in Hi.
  - intros ref t Ht. rewrite HE. cbn [merged_registry refs]. rewrite lookup_fmap, Ht. cbn. f_equal. by case_bool_decide; case_decide.
  - rewrite HE. assert (Hmu : merged_into (tables R) !! u = None).
    { destruct (merged_into (tables R) !! u) eqn:E; [|done]. destruct (proj1 (ro_merged R HR u) ltac:(by rewrite E)) as (V & HV & Hm). congruence. }
    unfold unit_follow_merge. cbn [merged_registry tables merged_into]. rewrite map_size_insert.
    assert (Hmo : merged_into (tables R) !! other = None) by by apply (follow_end (tables R) x). rewrite Hmo. cbn [follow_merge merged_into]. rewrite lookup_insert_eq.
    destruct (size (merged_into (tables R))); cbn [follow_merge merged_into]; by rewrite lookup_insert_ne, Hmu.
Qed.
End Registry.

(** ** Witnesses *)

Definition idle : UnitActivity := {| has_job _ := false; has_nop_job _ := false; inactive_or_failed _ := true |}.

(** Two services; the second one wants a third. *)
Definition one_service : option Registry := snd <$> unit_new_for_name 1 (str "a.service") no_units.
Definition two_services : option Registry := R ← one_service; snd <$> unit_new_for_name 2 (str "b.service") R.
Definition wanting : option Registry :=
  R ← two_services; '(_, D) ← unit_add_dependency (UK := plain_kinds) 2 UNIT_WANTS 3 true 1 (tables R); Some (MkRegistry (names R) (nodes R) D (refs R)).

Example wanting_nodes :
  (R ← one_service; Some (bool_decide (nodes R !! 2%positive = None))) = Some true ∧
  (R ← wanting; Some (bool_decide (nodes R !! 1%positive ≠ None), node_load_state <$> nodes R !! 1%positive, bool_decide (nodes R !! 2%positive ≠ None))) = Some (true, Some UNIT_STUB, true) ∧
  (R ← wanting; r ← unit_merge (UA := idle) 1 2 R; Some (fst r, foreach_dependency (tables (snd r)) 1 (atom_bit UNIT_ATOM_PULL_IN_START_IGNORED), manager_get_unit (snd r) (str "b.service")))
    = Some (0, [3%positive], Some 1%positive) ∧
  (R ← wanting; unit_follow_merge (tables R) 2) = Some 2%positive.
Proof. split; [|split; [|split]]; vm_compute; reflexivity. Qed.

Lemma wanting_reach : ∃ R, wanting = Some R ∧ reach (UA := idle) (UK := plain_kinds) R.
Proof.
  destruct wanting_nodes as (H1 & H2 & _ & _). unfold wanting, two_services, one_service in *.
  destruct (unit_new_for_name 1 _ _) as [[r1 R1]|] eqn:E1; cbn [fmap option_fmap option_map snd mbind option_bind] in *; [|discriminate].
  destruct (unit_new_for_name 2 _ _) as [[r2 R2]|] eqn:E2; cbn [fmap option_fmap option_map snd mbind option_bind] in *; [|discriminate].
  destruct (unit_add_dependency 2 _ _ _ _ _) as [[r3 D3]|] eqn:E3; cbn [fmap option_fmap option_map snd mbind option_bind] in *; [|discriminate].
  eexists. split; [reflexivity|]. unfold reach.
  eapply rtc_l; [apply (step_new _ 1 (str "a.service") r1 R1); [reflexivity|exact E1]|].
  eapply rtc_l; [apply (step_new _ 2 (str "b.service") r2 R2); [|exact E2]|].
  - destruct (nodes R1 !! 2%positive); [discriminate H1|reflexivity].
  - apply rtc_once. apply (step_depend _ 2 UNIT_WANTS 3 true 1 r3 D3); [|exact E3]. split; reflexivity.
Qed.

Lemma unit_names_unique_witness : ∃ R, wanting = Some R ∧ Z.of_nat (size (names R)) <= MANAGER_MAX_NAMES ∧
  ∀ u, manager_get_unit R (str "a.service") = Some u ↔ ∃ U, nodes R !! u = Some U ∧ unit_has_name U (str "a.service") = true.
Proof.
  destruct wanting_reach as (R & HR & Hr). exists R. destruct (unit_names_unique R Hr) as (H1 & _ & _ & H2 & _).
  split; [exact HR|split; [exact H2|]]. intros u. exact (H1 (str "a.service") u).
Defined.

Lemma unit_merge_moves_all_witness :
  ∃ R R', wanting = Some R ∧ unit_merge (UA := idle) 1 2 R = Some (0, R') ∧
    ∀ a v, v ∈ foreach_dependency (tables R') 1 (atom_bit a) ↔
      v ≠ 1%positive ∧ v ≠ 2%positive ∧ (v ∈ foreach_dependency (tables R) 1 (atom_bit a) ∨ v ∈ foreach_dependency (tables R) 2 (atom_bit a)).
Proof.
  destruct wanting_reach as (R & HR & Hr). destruct wanting_nodes as (_ & H2 & H3 & H4). rewrite HR in H2, H3, H4. cbn [mbind option_bind] in H2, H3, H4.
  assert (Hl : live R 1) by (destruct (nodes R !! 1%positive) as [U|] eqn:EU; [|discriminate H2]; exists U; split; [exact EU|]; intros Hm; cbn in H2; rewrite Hm in H2; discriminate H2).
  assert (Hx : is_Some (nodes R !! 2%positive)) by (destruct (nodes R !! 2%positive); [eexists; reflexivity|discriminate H2]).
  destruct (unit_merge_moves_all (UA := idle) R 1 2 Hr Hl Hx) as (r & R' & He & Hcase).
  assert (Hr0 : r = 0) by (rewrite He in H3; cbn [mbind option_bind fst snd] in H3; injection H3; intros; assumption). subst r.
  exists R, R'. split; [exact HR|split; [exact He|]]. rewrite H4 in Hcase.
  destruct Hcase as [[H _]|[(_ & _ & H)|(_ & other & O & H & _ & _ & _ & _ & Hfor & _)]]; [discriminate H|discriminate H|]. injection H as <-. exact Hfor.
Defined.
