(* ===== verification/UnitNotify.v ===== *)
(** * What a unit's change of state sets off (src/core/unit.c, src/core/manager.c)

    [unit_notify] is called by the unit types whenever the state of a unit changes. It finishes or
    queues the job of the unit, starts and stops other units if no job had asked for the change,
    and puts units on three queues: units that may not be needed any more, units that another one
    wants to be up, and units bound to a unit that went down (UnitQueues.v dispatches them). The
    unit's new state is already in the environment. *)

From S2P Require Import Prelude JobType Prioq RunQueue JobData TrDelete TrFix TrOrder TrMerge TrBuild JobOps JobFinish JobInstall TrApply TrActivate AddJob JobRun RateLimit UnitDep UnitDeps UnitDepsOps.

(** Settings of units, [unit_will_restart] of the unit types, whether the manager is reloading, and
    whether the event loop accepts a timer for a unit and a time. *)
Class NotifyConf := {
  manager_is_reloading : bool;
  sd_event_add_time : positive → Z → Z;
  stop_when_unneeded : positive → bool;
  unit_will_restart : positive → bool;
  on_failure_job_mode : positive → JobMode;
  on_success_job_mode : positive → JobMode }.

(** [UnitNotifyFlags] *)
Record UnitNotifyFlags := NotifyFlags { UNIT_NOTIFY_RELOAD_FAILURE : bool; UNIT_NOTIFY_WILL_AUTO_RESTART : bool }.

Definition UNIT_MARKER_NEEDS_RELOAD : Z := 0.
Definition UNIT_MARKER_NEEDS_RESTART : Z := 1.

(** What changes of a unit. The timestamps are monotonic times. *)
Record UnitRuntime := MkRuntime {
  state_change_timestamp : Z;
  inactive_exit_timestamp : Z;
  active_enter_timestamp : Z;
  active_exit_timestamp : Z;
  inactive_enter_timestamp : Z;
  markers : Z;
  auto_start_stop_ratelimit : RateLimit;
  auto_start_stop_event_source : option Z;
  condition_timestamp : Z;
  condition_result : bool;
  assert_timestamp : Z;
  assert_result : bool;
  activation_details : option positive }.

Definition set_markers (x : Z) (r : UnitRuntime) : UnitRuntime :=
  MkRuntime (state_change_timestamp r) (inactive_exit_timestamp r) (active_enter_timestamp r) (active_exit_timestamp r) (inactive_enter_timestamp r) x (auto_start_stop_ratelimit r) (auto_start_stop_event_source r) (condition_timestamp r) (condition_result r) (assert_timestamp r) (assert_result r) (activation_details r).
Definition set_ratelimit (x : RateLimit) (r : UnitRuntime) : UnitRuntime :=
  MkRuntime (state_change_timestamp r) (inactive_exit_timestamp r) (active_enter_timestamp r) (active_exit_timestamp r) (inactive_enter_timestamp r) (markers r) x (auto_start_stop_event_source r) (condition_timestamp r) (condition_result r) (assert_timestamp r) (assert_result r) (activation_details r).
Definition set_event_source (x : option Z) (r : UnitRuntime) : UnitRuntime :=
  MkRuntime (state_change_timestamp r) (inactive_exit_timestamp r) (active_enter_timestamp r) (active_exit_timestamp r) (inactive_enter_timestamp r) (markers r) (auto_start_stop_ratelimit r) x (condition_timestamp r) (condition_result r) (assert_timestamp r) (assert_result r) (activation_details r).
Definition set_condition (now : Z) (x : bool) (r : UnitRuntime) : UnitRuntime :=
  MkRuntime (state_change_timestamp r) (inactive_exit_timestamp r) (active_enter_timestamp r) (active_exit_timestamp r) (inactive_enter_timestamp r) (markers r) (auto_start_stop_ratelimit r) (auto_start_stop_event_source r) now x (assert_timestamp r) (assert_result r) (activation_details r).
Definition set_assert (now : Z) (x : bool) (r : UnitRuntime) : UnitRuntime :=
  MkRuntime (state_change_timestamp r) (inactive_exit_timestamp r) (active_enter_timestamp r) (active_exit_timestamp r) (inactive_enter_timestamp r) (markers r) (auto_start_stop_ratelimit r) (auto_start_stop_event_source r) (condition_timestamp r) (condition_result r) now x (activation_details r).
Definition set_activation_details (x : option positive) (r : UnitRuntime) : UnitRuntime :=
  MkRuntime (state_change_timestamp r) (inactive_exit_timestamp r) (active_enter_timestamp r) (active_exit_timestamp r) (inactive_enter_timestamp r) (markers r) (auto_start_stop_ratelimit r) (auto_start_stop_event_source r) (condition_timestamp r) (condition_result r) (assert_timestamp r) (assert_result r) x.

Section Notify.
Context {RQ : RunQueue} {E : Env} {NC : NotifyConf}.
Implicit Types (st : State) (u v j : positive).

(** The flag of a unit for each queue says whether it is in the list. *)
Record Units := MkUnits {
  sys : State;
  runtime : positive → UnitRuntime;
  failed_units : gset positive;
  stop_when_unneeded_queue : list positive;
  start_when_upheld_queue : list positive;
  stop_when_bound_queue : list positive }.

Definition set_sys (x : State) (n : Units) : Units :=
  MkUnits x (runtime n) (failed_units n) (stop_when_unneeded_queue n) (start_when_upheld_queue n) (stop_when_bound_queue n).
Definition alter_runtime (u : positive) (f : UnitRuntime → UnitRuntime) (n : Units) : Units :=
  MkUnits (sys n) (λ v, if decide (v = u) then f (runtime n v) else runtime n v) (failed_units n) (stop_when_unneeded_queue n) (start_when_upheld_queue n) (stop_when_bound_queue n).
Definition set_failed_units (x : gset positive) (n : Units) : Units :=
  MkUnits (sys n) (runtime n) x (stop_when_unneeded_queue n) (start_when_upheld_queue n) (stop_when_bound_queue n).
Definition set_unneeded (x : list positive) (n : Units) : Units :=
  MkUnits (sys n) (runtime n) (failed_units n) x (start_when_upheld_queue n) (stop_when_bound_queue n).
Definition set_upheld (x : list positive) (n : Units) : Units :=
  MkUnits (sys n) (runtime n) (failed_units n) (stop_when_unneeded_queue n) x (stop_when_bound_queue n).
Definition set_bound (x : list positive) (n : Units) : Units :=
  MkUnits (sys n) (runtime n) (failed_units n) (stop_when_unneeded_queue n) (start_when_upheld_queue n) x.

Definition notify_call (c : Call) (n : Units) : Units := set_sys (call c (sys n)) n.

(** ** The queues *)

Definition unit_submit_to_stop_when_unneeded_queue (u : positive) (n : Units) : Units :=
  if bool_decide (u ∈ stop_when_unneeded_queue n) then n
  else if negb (stop_when_unneeded u) then n
  else if negb (UNIT_IS_ACTIVE_OR_RELOADING (unit_active_state u)) then n
  else set_unneeded (u :: stop_when_unneeded_queue n) n.

Definition unit_submit_to_start_when_upheld_queue (u : positive) (n : Units) : Units :=
  if bool_decide (u ∈ start_when_upheld_queue n) then n
  else if negb (UNIT_IS_INACTIVE_OR_FAILED (unit_active_state u)) then n
  else if bool_decide (unit_dependencies u UNIT_ATOM_START_STEADILY = []) then n
  else set_upheld (u :: start_when_upheld_queue n) n.

Definition unit_submit_to_stop_when_bound_queue (u : positive) (n : Units) : Units :=
  if bool_decide (u ∈ stop_when_bound_queue n) then n
  else if negb (UNIT_IS_ACTIVE_OR_RELOADING (unit_active_state u)) then n
  else if bool_decide (unit_dependencies u UNIT_ATOM_CANNOT_BE_ACTIVE_WITHOUT = []) then n
  else set_bound (u :: stop_when_bound_queue n) n.

Definition submit_all (u : positive) (n : Units) : Units :=
  unit_submit_to_stop_when_bound_queue u (unit_submit_to_start_when_upheld_queue u (unit_submit_to_stop_when_unneeded_queue u n)).

(** The job code only records that a unit is to be put on the queues: here it is done, for the
    calls that were recorded since [before]. Whether a unit is put on a queue depends on the state
    and the settings of units and on the queue, none of which the job code reads or writes. *)
Definition submit_recorded (before : list Call) (n : Units) : Units :=
  let after := trace (mgr (sys n)) in
  foldr (λ c n, match c with unit_submit_queues u => submit_all u n | _ => n end) n (take (length after - length before) after).

Definition on_jobs (f : State → option State) (n : Units) : option Units :=
  st ← f (sys n);
  Some (submit_recorded (trace (mgr (sys n))) (set_sys st n)).

(** [manager_add_job] where the result is ignored. *)
Definition request (type : JobType) (mode : JobMode) (other : positive) (n : Units) : option Units :=
  on_jobs (λ st, '(_, st, _) ← manager_add_job type other mode st; Some st) n.

Fixpoint foreach_unit (f : positive → Units → option Units) (us : list positive) (n : Units) : option Units :=
  match us with
  | [] => Some n
  | v :: us => n ← f v n; foreach_unit f us n
  end.

(** ** Units that are not in the state they should be in *)

Definition unit_is_unneeded (u : positive) (n : Units) : bool :=
  stop_when_unneeded u && bool_decide (unit_active_state u = UNIT_ACTIVE) && bool_decide (installed_job (sys n) u = None) &&
  forallb (λ other, bool_decide (installed_job (sys n) other = None) && UNIT_IS_INACTIVE_OR_FAILED (unit_active_state other) && negb (unit_will_restart other))
    (unit_dependencies u UNIT_ATOM_PINS_STOP_WHEN_UNNEEDED).

Definition unit_is_upheld_by_active (u : positive) (n : Units) : option positive :=
  if negb (UNIT_IS_INACTIVE_OR_FAILED (unit_active_state u)) || bool_decide (installed_job (sys n) u ≠ None) then None
  else find (λ other, bool_decide (installed_job (sys n) other = None) && UNIT_IS_ACTIVE_OR_RELOADING (unit_active_state other)) (unit_dependencies u UNIT_ATOM_START_STEADILY).

Definition unit_is_bound_by_inactive (u : positive) (n : Units) : option positive :=
  if negb (bool_decide (unit_active_state u = UNIT_ACTIVE)) || bool_decide (installed_job (sys n) u ≠ None) then None
  else find (λ other, bool_decide (installed_job (sys n) other = None) && UNIT_IS_INACTIVE_OR_FAILED (unit_active_state other)) (unit_dependencies u UNIT_ATOM_CANNOT_BE_ACTIVE_WITHOUT).

Definition check_unneeded_dependencies (u : positive) (n : Units) : Units :=
  foldl (λ n v, unit_submit_to_stop_when_unneeded_queue v n) n (unit_dependencies u UNIT_ATOM_ADD_STOP_WHEN_UNNEEDED_QUEUE).
Definition check_uphold_dependencies (u : positive) (n : Units) : Units :=
  foldl (λ n v, unit_submit_to_start_when_upheld_queue v n) n (unit_dependencies u UNIT_ATOM_ADD_START_WHEN_UPHELD_QUEUE).
Definition check_bound_by_dependencies (u : positive) (n : Units) : Units :=
  foldl (λ n v, unit_submit_to_stop_when_bound_queue v n) n (unit_dependencies u UNIT_ATOM_ADD_CANNOT_BE_ACTIVE_WITHOUT_QUEUE).

Definition retroactively_start_dependencies (u : positive) (n : Units) : option Units :=
  assert_ (UNIT_IS_ACTIVE_OR_ACTIVATING (unit_active_state u));;
  let idle other := negb (bool_decide (other ∈ unit_dependencies u UNIT_ATOM_AFTER)) && negb (UNIT_IS_ACTIVE_OR_ACTIVATING (unit_active_state other)) in
  n ← foreach_unit (λ other n, if idle other then request JOB_START JOB_REPLACE other n else Some n) (unit_dependencies u UNIT_ATOM_RETROACTIVE_START_REPLACE) n;
  n ← foreach_unit (λ other n, if idle other then request JOB_START JOB_FAIL other n else Some n) (unit_dependencies u UNIT_ATOM_RETROACTIVE_START_FAIL) n;
  foreach_unit (λ other n, if negb (UNIT_IS_INACTIVE_OR_DEACTIVATING (unit_active_state other)) then request JOB_STOP JOB_REPLACE other n else Some n)
    (unit_dependencies u UNIT_ATOM_RETROACTIVE_STOP_ON_START) n.

Definition retroactively_stop_dependencies (u : positive) (n : Units) : option Units :=
  assert_ (UNIT_IS_INACTIVE_OR_DEACTIVATING (unit_active_state u));;
  foreach_unit (λ other n, if negb (UNIT_IS_INACTIVE_OR_DEACTIVATING (unit_active_state other)) then request JOB_STOP JOB_REPLACE other n else Some n)
    (unit_dependencies u UNIT_ATOM_RETROACTIVE_STOP_ON_STOP) n.

(** [unit_start_on_failure] *)
Definition start_on_failure (u : positive) (atom : UnitDependencyAtom) (mode : JobMode) (n : Units) : option Units :=
  assert_ (bool_decide (atom ∈ [UNIT_ATOM_ON_SUCCESS; UNIT_ATOM_ON_FAILURE]));;
  foreach_unit (request JOB_START mode) (unit_dependencies u atom) n.

(** ** The job of the unit *)

Definition unit_process_job (j : positive) (ns : UnitActiveState) (flags : UnitNotifyFlags) (n : Units) : option (bool * Units) :=
  jb ← heap (sys n) !! j;
  let running := bool_decide (j_state jb = JOB_RUNNING) in
  n ← (if bool_decide (j_state jb = JOB_WAITING) then on_jobs (job_add_to_run_queue j) n else Some n);
  let finish (unexpected : bool) (result : JobResult) : option (bool * Units) :=
    n ← on_jobs (job_finish_and_invalidate j result true) n; Some (unexpected, n) in
  match j_type jb with
  | JOB_START | JOB_VERIFY_ACTIVE =>
      if UNIT_IS_ACTIVE_OR_RELOADING ns then finish false JOB_DONE
      else if running && bool_decide (ns ≠ UNIT_ACTIVATING) then
        if UNIT_IS_INACTIVE_OR_FAILED ns then finish true (if bool_decide (ns = UNIT_FAILED) then JOB_FAILED else JOB_DONE)
        else Some (true, n)
      else Some (false, n)
  | JOB_RELOAD | JOB_RELOAD_OR_START | JOB_TRY_RELOAD =>
      if running then
        if bool_decide (ns = UNIT_ACTIVE) then finish false (if UNIT_NOTIFY_RELOAD_FAILURE flags then JOB_FAILED else JOB_DONE)
        else if bool_decide (ns ∉ [UNIT_ACTIVATING; UNIT_RELOADING]) then
          if UNIT_IS_INACTIVE_OR_FAILED ns then finish true (if bool_decide (ns = UNIT_FAILED) then JOB_FAILED else JOB_DONE)
          else Some (true, n)
        else Some (false, n)
      else Some (false, n)
  | JOB_STOP | JOB_RESTART | JOB_TRY_RESTART =>
      if UNIT_IS_INACTIVE_OR_FAILED ns then finish false JOB_DONE
      else if running && bool_decide (ns ≠ UNIT_DEACTIVATING) then finish true JOB_FAILED
      else Some (false, n)
  | _ => None
  end.

(** ** A change of state *)

Definition manager_update_failed_units (u : positive) (failed : bool) (n : Units) : Units :=
  let before := size (failed_units n) in
  let n := set_failed_units (if failed then {[u]} ∪ failed_units n else failed_units n ∖ {[u]}) n in
  if bool_decide (size (failed_units n) ≠ before) then notify_call bus_manager_send_change_signal n else n.

(** The timestamps that a change from [os] to [ns] at time [now] sets. *)
Definition update_timestamps (now : Z) (os ns : UnitActiveState) (r : UnitRuntime) : UnitRuntime :=
  let leaves := UNIT_IS_INACTIVE_OR_FAILED os && negb (UNIT_IS_INACTIVE_OR_FAILED ns) in
  let enters := negb (UNIT_IS_INACTIVE_OR_FAILED os) && UNIT_IS_INACTIVE_OR_FAILED ns in
  let goes_up := negb (UNIT_IS_ACTIVE_OR_RELOADING os) && UNIT_IS_ACTIVE_OR_RELOADING ns in
  let goes_down := UNIT_IS_ACTIVE_OR_RELOADING os && negb (UNIT_IS_ACTIVE_OR_RELOADING ns) in
  MkRuntime now
    (if leaves then now else inactive_exit_timestamp r)
    (if goes_up then now else active_enter_timestamp r)
    (if goes_down then now else active_exit_timestamp r)
    (if enters then now else inactive_enter_timestamp r)
    (markers r) (auto_start_stop_ratelimit r) (auto_start_stop_event_source r)
    (condition_timestamp r) (condition_result r) (assert_timestamp r) (assert_result r) (activation_details r).

(** [SET_FLAG(v, flag, false)], [v & ~flag] *)
Definition clear_flag (v flag : Z) : Z := Z.ldiff v flag.

(** Markers of a unit that goes down, or is being reloaded, are taken off. *)
Definition unmark (u : positive) (os ns : UnitActiveState) (n : Units) : Units :=
  if UNIT_IS_INACTIVE_OR_FAILED ns then
    notify_call (unit_unlink_state_files u) (notify_call (unit_prune_cgroup u)
      (alter_runtime u (λ r, set_markers (clear_flag (markers r) (Z.lor (Z.shiftl 1 UNIT_MARKER_NEEDS_RELOAD) (Z.shiftl 1 UNIT_MARKER_NEEDS_RESTART))) r) n))
  else if bool_decide (ns ≠ os) && bool_decide (ns = UNIT_RELOADING) then
    alter_runtime u (λ r, set_markers (clear_flag (markers r) (Z.shiftl 1 UNIT_MARKER_NEEDS_RELOAD)) r) n
  else n.

(** The first part of [unit_notify], up to the jobs. *)
Definition notify_unit (now : Z) (u : positive) (os ns : UnitActiveState) (n : Units) : Units :=
  let n := notify_call (unit_add_to_dbus_queue u) n in
  let n := if bool_decide (os ≠ ns) && (UNIT_IS_INACTIVE_OR_FAILED ns || UNIT_IS_ACTIVE_OR_RELOADING ns)
           then notify_call (manager_varlink_send_managed_oom_update u) n else n in
  let n := if negb manager_is_reloading then alter_runtime u (update_timestamps now os ns) n else n in
  let n := manager_update_failed_units u (bool_decide (ns = UNIT_FAILED)) n in
  let n := unmark u os ns n in
  notify_call (unit_update_on_console u) n.

(** The second part: jobs, skipped while reloading. First the job of the unit: was the change of
    state requested? *)
Definition notify_job (u : positive) (ns : UnitActiveState) (flags : UnitNotifyFlags) (n : Units) : option (bool * Units) :=
  match installed_job (sys n) u with
  | Some j => unit_process_job j ns flags n
  | None => Some (true, n)
  end.

Definition notify_unexpected (u : positive) (os ns : UnitActiveState) (unexpected : bool) (n : Units) : option Units :=
  if unexpected then
    if UNIT_IS_INACTIVE_OR_FAILED os && UNIT_IS_ACTIVE_OR_ACTIVATING ns then retroactively_start_dependencies u n
    else if UNIT_IS_ACTIVE_OR_ACTIVATING os && UNIT_IS_INACTIVE_OR_DEACTIVATING ns then retroactively_stop_dependencies u n
    else Some n
  else Some n.

(** Audit records, the splash screen and the log of resources. *)
Definition notify_reports (u : positive) (os ns : UnitActiveState) (n : Units) : Units :=
  let n := if UNIT_IS_ACTIVE_OR_RELOADING ns && negb (UNIT_IS_ACTIVE_OR_RELOADING os)
           then notify_call (manager_send_unit_plymouth u) (notify_call (unit_emit_audit_start u) n) else n in
  if UNIT_IS_INACTIVE_OR_FAILED ns && negb (UNIT_IS_INACTIVE_OR_FAILED os)
  then notify_call (unit_log_resources u) (notify_call (unit_emit_audit_stop u ns) n) else n.

Definition notify_jobs (u : positive) (os ns : UnitActiveState) (flags : UnitNotifyFlags) (n : Units) : option Units :=
  '(unexpected, n) ← notify_job u ns flags n;
  n ← notify_unexpected u os ns unexpected n;
  n ← (if bool_decide (ns ≠ os) && bool_decide (ns = UNIT_FAILED) && negb (UNIT_NOTIFY_WILL_AUTO_RESTART flags)
       then start_on_failure u UNIT_ATOM_ON_FAILURE (on_failure_job_mode u) n else Some n);
  let n := notify_reports u os ns n in
  if bool_decide (ns = UNIT_INACTIVE) && bool_decide (os ∉ [UNIT_FAILED; UNIT_INACTIVE; UNIT_MAINTENANCE]) && negb (UNIT_NOTIFY_WILL_AUTO_RESTART flags)
  then start_on_failure u UNIT_ATOM_ON_SUCCESS (on_success_job_mode u) n else Some n.

(** The last part: the queues. *)
Definition notify_queues (u : positive) (ns : UnitActiveState) (n : Units) : Units :=
  let n := if UNIT_IS_INACTIVE_OR_FAILED ns
           then notify_call (unit_add_to_gc_queue u) (unit_submit_to_start_when_upheld_queue u (check_bound_by_dependencies u (check_unneeded_dependencies u n)))
           else n in
  if UNIT_IS_ACTIVE_OR_RELOADING ns
  then unit_submit_to_stop_when_bound_queue u (unit_submit_to_stop_when_unneeded_queue u (check_uphold_dependencies u n))
  else n.

(** All up to [unit_trigger_notify]. *)
Definition notify_before (now : Z) (u : positive) (os ns : UnitActiveState) (flags : UnitNotifyFlags) (n : Units) : option Units :=
  let n := notify_unit now u os ns n in
  n ← (if negb manager_is_reloading then notify_jobs u os ns flags n else Some n);
  Some (notify_call manager_recheck_dbus (notify_call manager_recheck_journal n)).

(** What follows it. *)
Definition notify_after (u : positive) (os ns : UnitActiveState) (n : Units) : Units :=
  let n := if negb manager_is_reloading then
             if bool_decide (os ≠ UNIT_FAILED) && bool_decide (ns = UNIT_FAILED) then notify_call (emergency_action u true) n
             else if negb (UNIT_IS_INACTIVE_OR_FAILED os) && bool_decide (ns = UNIT_INACTIVE) then notify_call (emergency_action u false) n
             else n
           else n in
  notify_queues u ns n.

(** The units that trigger [u] are told of the change in UnitTrigger.v; here that is only recorded. *)
Definition unit_notify (now : Z) (u : positive) (os ns : UnitActiveState) (flags : UnitNotifyFlags) (n : Units) : option Units :=
  n ← notify_before now u os ns flags n;
  Some (notify_after u os ns (notify_call (unit_trigger_notify u) n)).

(** ** Capacity *)

Lemma subseteq_size_list (X : gset positive) (l : list positive) : (∀ k, k ∈ X → k ∈ l) → (size X <= length l)%nat.
Proof.
  intros HX. apply (submseteq_length (elements X)), NoDup_submseteq; [apply NoDup_elements|]. intros k ?%elem_of_elements. by apply HX.
Qed.

(** Every job is in a slot of its unit. *)
Lemma known_size st : at_rest st → jobs_known st → (size (heap st) <= 2 * length units)%nat.
Proof.
  intros Hr Hkn. set (slots := omap (λ u, unit_job (mgr st) !! u) units ++ omap (λ u, unit_nop_job (mgr st) !! u) units).
  assert (Hl : (length slots <= 2 * length units)%nat).
  { unfold slots. rewrite length_app. assert (Ho : ∀ (f : positive → option positive) l, (length (omap f l) <= length l)%nat); [|pose proof (Ho (λ u, unit_job (mgr st) !! u) units); pose proof (Ho (λ u, unit_nop_job (mgr st) !! u) units); lia].
    intros f l. induction l as [|x l IH]; [done|]. cbn. destruct (f x); cbn; lia. }
  etrans; [|exact Hl]. rewrite <- (size_dom (D := gset positive)). apply (subseteq_size_list _ slots). intros k [kb Hk]%elem_of_dom. apply elem_of_app.
  pose proof (mo_slot _ (proj2 (ar_ok _ Hr)) k kb Hk (rest_installed st k kb Hr Hk)) as Hs. unfold slot in Hs.
  pose proof (Hkn k kb Hk). destruct (bool_decide (j_type kb = JOB_NOP)); [right|left]; apply list_elem_of_omap; eauto.
Qed.

Definition capacity : Prop := 8 * Z.of_nat (length units) < PRIOQ_MAX.

Lemma capacity_room st : capacity → at_rest st → jobs_known st → room st ∧ few st.
Proof. intros Hc Hr Hkn. pose proof (known_size st Hr Hkn). unfold capacity, room, few in *. lia. Qed.

Lemma shrinks_known st st' : shrinks st st' → jobs_known st → jobs_known st'.
Proof. intros Hsh Hkn k kb' Hk. destruct (sh_heap _ _ Hsh k kb' Hk) as (kb & Hkb & -> & _). by eapply Hkn. Qed.

(** What finishing the job of a unit leaves. *)
Lemma finish_job_rest j jb result recursive st :
  at_rest st → few st → heap st !! j = Some jb →
  ∃ st', job_finish_and_invalidate j result recursive st = Some st' ∧ at_rest st' ∧ (jobs_known st → jobs_known st') ∧
    (heap st' !! j = None ∨
     result = JOB_DONE ∧ j_type jb = JOB_RESTART ∧ ∃ jb', heap st' !! j = Some jb' ∧ j_unit jb' = j_unit jb ∧ j_type jb' = JOB_START ∧ j_state jb' = JOB_WAITING).
Proof.
  intros Hr Hfew Hj. destruct (finish_rest _ j jb result recursive st Hr Hfew Hj) as (st' & Hf & Hr' & _). exists st'. split_and!; [done..| |].
  all: pose proof (rest_installed st j jb Hr Hj) as Hi; destruct (decide (result = JOB_DONE ∧ j_type jb = JOB_RESTART)) as [[-> Ht]|Hn];
    [destruct (finish_restart_spec j jb recursive st (ar_ok _ Hr) Hfew Hj Hi Ht) as (stw & jbw & s & H & _ & Hjw & _ & Htw & Hsw & Huw & _ & Hkw & _ & _ & Hsh & _)
    |destruct (job_finish_spec j jb result recursive st (ar_ok _ Hr) Hfew Hj Hi Hn) as (s & H & [(st1 & Hh1 & _ & Hsh1 & Hc & _) _])];
    rewrite Hf in H; injection H as <-.
  - intros Hkn. apply (shrinks_known stw); [done|]. intros k kb Hk. destruct (decide (k = j)) as [->|Hne].
    + assert (kb = jbw) as -> by congruence. rewrite Huw. by eapply Hkn.
    + rewrite Hkw in Hk by done. by eapply Hkn.
  - apply shrinks_known, (shrinks_trans _ _ _ Hsh1), (ca_shrinks _ _ _ Hc).
  - destruct (heap st' !! j) as [jb'|] eqn:Ej; [right|by left]. destruct (sh_heap _ _ Hsh j jb' Ej) as (x & Hx & ? & _ & _ & ? & _ & ?).
    assert (x = jbw) as -> by congruence. split_and!; [done..|]. exists jb'. split_and!; congruence.
  - left. apply (shrinks_gone st1); [apply (ca_shrinks _ _ _ Hc)|]. rewrite Hh1. apply lookup_delete_eq.
Qed.

(** ** Operations that fail no assertion *)

(** Only units of the manager have settings and dependencies. *)
Definition settings_known : Prop := ∀ u, u ∉ units → stop_when_unneeded u = false ∧ ∀ a, unit_dependencies u a = [].

Definition queue_tidy (q : list positive) : Prop := NoDup q ∧ ∀ u, u ∈ q → u ∈ units.

Record tidy (n : Units) : Prop := {
  ti_rest : at_rest (sys n);
  ti_known : jobs_known (sys n);
  ti_unneeded : queue_tidy (stop_when_unneeded_queue n);
  ti_upheld : queue_tidy (start_when_upheld_queue n);
  ti_bound : queue_tidy (stop_when_bound_queue n);
}.

(** Units are put on the queues and jobs change. *)
Record advances (n n' : Units) : Prop := {
  ad_runtime : runtime n' = runtime n;
  ad_failed : failed_units n' = failed_units n;
  ad_unneeded u : u ∈ stop_when_unneeded_queue n → u ∈ stop_when_unneeded_queue n';
  ad_upheld u : u ∈ start_when_upheld_queue n → u ∈ start_when_upheld_queue n';
  ad_bound u : u ∈ stop_when_bound_queue n → u ∈ stop_when_bound_queue n';
}.

#[global] Instance advances_preorder : PreOrder advances.
Proof. split; [by split|]. intros n1 n2 n3 [] []. split; try congruence; auto. Qed.

Definition safe (f : Units → option Units) : Prop := ∀ n, tidy n → ∃ n', f n = Some n' ∧ tidy n' ∧ advances n n'.

Lemma safe_ret : safe Some.
Proof. intros n Hn. by exists n. Qed.

Lemma safe_bind f g : safe f → safe g → safe (λ n, n ← f n; g n).
Proof.
  intros Hf Hg n Hn. destruct (Hf n Hn) as (n1 & -> & H1 & A1), (Hg n1 H1) as (n2 & E2 & H2 & A2).
  exists n2. split_and!; [done..|by etrans].
Qed.

Lemma safe_if (b : bool) f g : safe f → safe g → safe (λ n, if b then f n else g n).
Proof. by destruct b. Qed.

Lemma safe_foreach f us : (∀ v, v ∈ us → safe (f v)) → safe (foreach_unit f us).
Proof.
  induction us as [|v us IH]; intros Hf; [apply safe_ret|]. apply safe_bind; [apply Hf, list_elem_of_here|].
  apply IH. intros w Hw. by apply Hf, list_elem_of_further.
Qed.

(** *** The queues *)

Section Known.
Hypothesis known : settings_known.

Lemma push_tidy q u : queue_tidy q → u ∉ q → u ∈ units → queue_tidy (u :: q).
Proof. intros [Hnd Hq] Hn Hu. split; [by constructor|]. intros v [->|?]%elem_of_cons; auto. Qed.

Lemma has_dependency_known u a : unit_dependencies u a ≠ [] → u ∈ units.
Proof. intros Hd. destruct (decide (u ∈ units)) as [?|Hu]; [done|]. by destruct Hd; apply known. Qed.

(** A unit is on the queue afterwards if it was before or if the conditions of the queue hold. *)
Lemma submit_unneeded_spec u n :
  let n' := unit_submit_to_stop_when_unneeded_queue u n in
  (tidy n → tidy n') ∧ advances n n' ∧
  (stop_when_unneeded u = true → UNIT_IS_ACTIVE_OR_RELOADING (unit_active_state u) = true → u ∈ stop_when_unneeded_queue n').
Proof.
  unfold unit_submit_to_stop_when_unneeded_queue. case_bool_decide as Hin; [done|].
  destruct (stop_when_unneeded u) eqn:E1; [|done]. destruct (UNIT_IS_ACTIVE_OR_RELOADING _); [|done]. cbn. split_and!.
  - intros []. split; try done. apply push_tidy; [done..|]. destruct (decide (u ∈ units)) as [?|Hu]; [done|]. destruct (known u Hu). congruence.
  - split; try done. intros v. apply list_elem_of_further.
  - intros. apply list_elem_of_here.
Qed.

Lemma submit_upheld_spec u n :
  let n' := unit_submit_to_start_when_upheld_queue u n in
  (tidy n → tidy n') ∧ advances n n' ∧
  (UNIT_IS_INACTIVE_OR_FAILED (unit_active_state u) = true → unit_dependencies u UNIT_ATOM_START_STEADILY ≠ [] → u ∈ start_when_upheld_queue n').
Proof.
  unfold unit_submit_to_start_when_upheld_queue. destruct (bool_decide (u ∈ _)) eqn:Hin; [apply bool_decide_eq_true in Hin; done|apply bool_decide_eq_false in Hin].
  destruct (UNIT_IS_INACTIVE_OR_FAILED _); [|done]. cbn [negb]. destruct (bool_decide (_ = [])) eqn:Hd; [apply bool_decide_eq_true in Hd; done|apply bool_decide_eq_false in Hd]. cbn. split_and!.
  - intros []. split; try done. apply push_tidy; [done..|by eapply has_dependency_known].
  - split; try done. intros v. apply list_elem_of_further.
  - intros. apply list_elem_of_here.
Qed.

Lemma submit_bound_spec u n :
  let n' := unit_submit_to_stop_when_bound_queue u n in
  (tidy n → tidy n') ∧ advances n n' ∧
  (UNIT_IS_ACTIVE_OR_RELOADING (unit_active_state u) = true → unit_dependencies u UNIT_ATOM_CANNOT_BE_ACTIVE_WITHOUT ≠ [] → u ∈ stop_when_bound_queue n').
Proof.
  unfold unit_submit_to_stop_when_bound_queue. destruct (bool_decide (u ∈ _)) eqn:Hin; [apply bool_decide_eq_true in Hin; done|apply bool_decide_eq_false in Hin].
  destruct (UNIT_IS_ACTIVE_OR_RELOADING _); [|done]. cbn [negb]. destruct (bool_decide (_ = [])) eqn:Hd; [apply bool_decide_eq_true in Hd; done|apply bool_decide_eq_false in Hd]. cbn. split_and!.
  - intros []. split; try done. apply push_tidy; [done..|by eapply has_dependency_known].
  - split; try done. intros v. apply list_elem_of_further.
  - intros. apply list_elem_of_here.
Qed.

Lemma submit_all_ok u n : (tidy n → tidy (submit_all u n)) ∧ advances n (submit_all u n).
Proof.
  unfold submit_all. destruct (submit_unneeded_spec u n) as (T1 & A1 & _). set (n1 := unit_submit_to_stop_when_unneeded_queue u n) in *.
  destruct (submit_upheld_spec u n1) as (T2 & A2 & _). set (n2 := unit_submit_to_start_when_upheld_queue u n1) in *.
  destruct (submit_bound_spec u n2) as (T3 & A3 & _). split; [auto|]. by etrans; [|etrans].
Qed.

Lemma submit_all_sys u n : sys (submit_all u n) = sys n.
Proof.
  assert (H1 : ∀ n, sys (unit_submit_to_stop_when_unneeded_queue u n) = sys n) by (intros m; unfold unit_submit_to_stop_when_unneeded_queue; by repeat case_match).
  assert (H2 : ∀ n, sys (unit_submit_to_start_when_upheld_queue u n) = sys n) by (intros m; unfold unit_submit_to_start_when_upheld_queue; by repeat case_match).
  assert (H3 : ∀ n, sys (unit_submit_to_stop_when_bound_queue u n) = sys n) by (intros m; unfold unit_submit_to_stop_when_bound_queue; by repeat case_match).
  unfold submit_all. by rewrite H3, H2, H1.
Qed.

Lemma submit_recorded_ok cs n : (tidy n → tidy (submit_recorded cs n)) ∧ advances n (submit_recorded cs n) ∧ sys (submit_recorded cs n) = sys n.
Proof.
  unfold submit_recorded. set (l := take _ _). clearbody l. induction l as [|c l (IT & IA & IS)]; [done|]. cbn [foldr].
  destruct c; try done. match goal with |- context[submit_all ?u ?m] => destruct (submit_all_ok u m) as [HT HA] end. split_and!; [auto|by etrans|].
  by rewrite submit_all_sys.
Qed.

(** [submit] puts units on a queue. *)
Lemma submit_each (submit : positive → Units → Units) (goal : positive → Units → Prop) us n :
  (∀ u n, (tidy n → tidy (submit u n)) ∧ advances n (submit u n) ∧ goal u (submit u n)) → (∀ u n n', advances n n' → goal u n → goal u n') →
  let n' := foldl (λ n v, submit v n) n us in
  (tidy n → tidy n') ∧ advances n n' ∧ ∀ v, v ∈ us → goal v n'.
Proof.
  intros Hs Hmon. revert n. induction us as [|u us IH]; intros n; cbn; [split_and!; [done..|by intros v ?%not_elem_of_nil]|].
  destruct (IH (submit u n)) as (T & A & G), (Hs u n) as (T1 & A1 & G1). split_and!; [auto|by etrans|].
  intros v [->|?]%elem_of_cons; eauto.
Qed.

Lemma check_unneeded_spec u n :
  let n' := check_unneeded_dependencies u n in
  (tidy n → tidy n') ∧ advances n n' ∧ ∀ v, v ∈ unit_dependencies u UNIT_ATOM_ADD_STOP_WHEN_UNNEEDED_QUEUE →
    stop_when_unneeded v = true → UNIT_IS_ACTIVE_OR_RELOADING (unit_active_state v) = true → v ∈ stop_when_unneeded_queue n'.
Proof. apply (submit_each _ (λ v n, _ → _ → v ∈ stop_when_unneeded_queue n)); [apply submit_unneeded_spec|]. intros v m m' Ha H ? ?. apply (ad_unneeded _ _ Ha). auto. Qed.

Lemma check_uphold_spec u n :
  let n' := check_uphold_dependencies u n in
  (tidy n → tidy n') ∧ advances n n' ∧ ∀ v, v ∈ unit_dependencies u UNIT_ATOM_ADD_START_WHEN_UPHELD_QUEUE →
    UNIT_IS_INACTIVE_OR_FAILED (unit_active_state v) = true → unit_dependencies v UNIT_ATOM_START_STEADILY ≠ [] → v ∈ start_when_upheld_queue n'.
Proof. apply (submit_each _ (λ v n, _ → _ → v ∈ start_when_upheld_queue n)); [apply submit_upheld_spec|]. intros v m m' Ha H ? ?. apply (ad_upheld _ _ Ha). auto. Qed.

Lemma check_bound_spec u n :
  let n' := check_bound_by_dependencies u n in
  (tidy n → tidy n') ∧ advances n n' ∧ ∀ v, v ∈ unit_dependencies u UNIT_ATOM_ADD_CANNOT_BE_ACTIVE_WITHOUT_QUEUE →
    UNIT_IS_ACTIVE_OR_RELOADING (unit_active_state v) = true → unit_dependencies v UNIT_ATOM_CANNOT_BE_ACTIVE_WITHOUT ≠ [] → v ∈ stop_when_bound_queue n'.
Proof. apply (submit_each _ (λ v n, _ → _ → v ∈ stop_when_bound_queue n)); [apply submit_bound_spec|]. intros v m m' Ha H ? ?. apply (ad_bound _ _ Ha). auto. Qed.

(** *** Jobs *)

Lemma call_rest c st : at_rest st → at_rest (call c st).
Proof. intros Hr. destruct (call_ok c st (ar_ok _ Hr)). by apply (shrinks_rest st). Qed.

Lemma call_tidy c n : tidy n → tidy (notify_call c n).
Proof. intros []. split; try done. by apply call_rest. Qed.

Lemma call_advances c n : advances n (notify_call c n).
Proof. by split. Qed.

Lemma on_jobs_spec f n st :
  tidy n → f (sys n) = Some st → at_rest st → jobs_known st →
  ∃ n', on_jobs f n = Some n' ∧ tidy n' ∧ advances n n' ∧ sys n' = st.
Proof.
  intros [] Hf Hr Hkn. unfold on_jobs. rewrite Hf. cbn [mbind option_bind]. eexists. split; [done|].
  destruct (submit_recorded_ok (trace (mgr (sys n))) (set_sys st n)) as (T & A & S). split_and!; [by apply T; split|by etrans; [|exact A]|by rewrite S].
Qed.

Context (closed : deps_closed) (cap : capacity).

Lemma request_safe type mode v : v ∈ units → safe (request type mode v).
Proof.
  intros Hv n Hn. destruct (capacity_room _ cap (ti_rest _ Hn) (ti_known _ Hn)) as [Hroom _].
  destruct (manager_add_job_spec closed type v mode (sys n) Hv (ti_rest _ Hn) Hroom) as (r & st' & ret & Hadd & Hr & Hkn & _).
  destruct (on_jobs_spec (λ st, '(_, st, _) ← manager_add_job type v mode st; Some st) n st' Hn) as (n' & H & ? & ? & _); [by rewrite Hadd|done|apply Hkn, Hn|by exists n'].
Qed.

Lemma request_each (b : positive → bool) type mode u a :
  u ∈ units → safe (foreach_unit (λ other n, if b other then request type mode other n else Some n) (unit_dependencies u a)).
Proof. intros Hu. apply safe_foreach. intros v Hv. apply safe_if; [|apply safe_ret]. apply request_safe, (closed u v Hu). eauto. Qed.

Lemma retroactively_start_safe u : u ∈ units → UNIT_IS_ACTIVE_OR_ACTIVATING (unit_active_state u) = true → safe (retroactively_start_dependencies u).
Proof.
  intros Hu Ha n Hn. unfold retroactively_start_dependencies. rewrite assert_bind by done. revert n Hn.
  apply safe_bind; [by apply request_each|]. apply safe_bind; by apply request_each.
Qed.

Lemma retroactively_stop_safe u : u ∈ units → UNIT_IS_INACTIVE_OR_DEACTIVATING (unit_active_state u) = true → safe (retroactively_stop_dependencies u).
Proof. intros Hu Ha n Hn. unfold retroactively_stop_dependencies. rewrite assert_bind by done. revert n Hn. by apply request_each. Qed.

Lemma start_on_failure_safe u a mode : u ∈ units → a ∈ [UNIT_ATOM_ON_SUCCESS; UNIT_ATOM_ON_FAILURE] → safe (start_on_failure u a mode).
Proof.
  intros Hu Ha n Hn. unfold start_on_failure. rewrite assert_bind by (by apply bool_decide_eq_true_2). revert n Hn.
  apply safe_foreach. intros v Hv. apply request_safe, (closed u v Hu). eauto.
Qed.

(** The states a unit passes through while a job of the type runs. *)
Definition job_states (t : JobType) : list UnitActiveState :=
  match t with
  | JOB_STOP | JOB_RESTART | JOB_TRY_RESTART => [UNIT_DEACTIVATING; UNIT_INACTIVE; UNIT_FAILED]
  | _ => [UNIT_ACTIVATING; UNIT_RELOADING; UNIT_ACTIVE]
  end.

(** The job has ended: it is gone, or it is a restart job that is now the waiting start job. *)
Definition job_ended (j : positive) (jb : Job) (st : State) : Prop :=
  heap st !! j = None ∨
  j_type jb = JOB_RESTART ∧ ∃ jb', heap st !! j = Some jb' ∧ j_unit jb' = j_unit jb ∧ j_type jb' = JOB_START ∧ j_state jb' = JOB_WAITING.

(** The states that end a job, and how. A start is done when the unit is up and a stop when it is
    down, requested or not. A running start or reload has failed when the unit fails, and is over
    when the unit just goes down; a running stop has failed when the unit is in any state that is
    not on the way down. *)
Inductive settles (t : JobType) (running : bool) (flags : UnitNotifyFlags) : UnitActiveState → JobResult → Prop :=
  | settles_up ns : t ∈ [JOB_START; JOB_VERIFY_ACTIVE] → ns ∈ [UNIT_ACTIVE; UNIT_RELOADING] → settles t running flags ns JOB_DONE
  | settles_down ns : t ∈ [JOB_STOP; JOB_RESTART; JOB_TRY_RESTART] → ns ∈ [UNIT_INACTIVE; UNIT_FAILED] → settles t running flags ns JOB_DONE
  | settles_reloaded : t ∈ [JOB_RELOAD; JOB_RELOAD_OR_START; JOB_TRY_RELOAD] → running = true →
      UNIT_NOTIFY_RELOAD_FAILURE flags = false → settles t running flags UNIT_ACTIVE JOB_DONE
  | settles_not_reloaded : t ∈ [JOB_RELOAD; JOB_RELOAD_OR_START; JOB_TRY_RELOAD] → running = true →
      UNIT_NOTIFY_RELOAD_FAILURE flags = true → settles t running flags UNIT_ACTIVE JOB_FAILED
  | settles_over : t ∉ [JOB_STOP; JOB_RESTART; JOB_TRY_RESTART] → running = true → settles t running flags UNIT_INACTIVE JOB_DONE
  | settles_failed : t ∉ [JOB_STOP; JOB_RESTART; JOB_TRY_RESTART] → running = true → settles t running flags UNIT_FAILED JOB_FAILED
  | settles_not_stopped ns : t ∈ [JOB_STOP; JOB_RESTART; JOB_TRY_RESTART] → running = true →
      ns ∈ [UNIT_ACTIVE; UNIT_RELOADING; UNIT_ACTIVATING; UNIT_MAINTENANCE] → settles t running flags ns JOB_FAILED.

(** A job that waits is first put on the run queue. *)
Lemma nudge_spec j jb n :
  tidy n → heap (sys n) !! j = Some jb →
  ∃ n' jb', (if bool_decide (j_state jb = JOB_WAITING) then on_jobs (job_add_to_run_queue j) n else Some n) = Some n' ∧ tidy n' ∧ advances n n' ∧
    heap (sys n') !! j = Some jb' ∧ j_unit jb' = j_unit jb ∧ j_type jb' = j_type jb ∧ j_state jb' = j_state jb ∧
    (j_state jb = JOB_WAITING → rq_alloc_ok j = true → j_in_run_queue jb' = true) ∧
    (if bool_decide (j_state jb = JOB_WAITING) then job_add_to_run_queue j (sys n) = Some (sys n') else n' = n).
Proof.
  intros Hn Hj. case_bool_decide as Hw; [|by exists n, jb; split_and!]. pose proof (ti_rest _ Hn) as Hr. pose proof (rest_installed _ j jb Hr Hj) as Hi.
  destruct (capacity_room _ cap Hr (ti_known _ Hn)) as [_ Hfew].
  destruct (add_to_run_queue_spec j jb (sys n) (ar_ok _ Hr) Hfew Hj Hi) as (st' & H & Hok & Hsh).
  destruct (on_jobs_spec (job_add_to_run_queue j) n st' Hn H) as (n' & Ho & Hn' & Ha & Hs); [by apply (shrinks_rest (sys n))|by apply (shrinks_known (sys n)), Hn|].
  destruct (add_to_run_queue_queued j _ _ H) as [[Hk _] Hq]. destruct (Hk j) as [jb' Hj']; [eauto|]. rewrite <- Hs in *.
  destruct (sh_heap _ _ Hsh j jb' Hj') as (x & Hx & ? & _ & _ & ? & _ & ?). assert (x = jb) as -> by congruence.
  exists n', jb'. split_and!; [done..| |done]. intros _ Hal. destruct (Hq (ar_ok _ Hr) Hfew Hal) as (y & ? & ?). congruence.
Qed.

(** What becomes of the job: whether the state is unexpected, and the result if the job is finished. *)
Definition outcome (t : JobType) (running : bool) (ns : UnitActiveState) (flags : UnitNotifyFlags) : bool * option JobResult :=
  let down := if bool_decide (ns = UNIT_FAILED) then JOB_FAILED else JOB_DONE in
  if bool_decide (ns ∈ job_states t) then
    (false, match t, ns with
            | (JOB_START | JOB_VERIFY_ACTIVE), (UNIT_ACTIVE | UNIT_RELOADING) => Some JOB_DONE
            | (JOB_STOP | JOB_RESTART | JOB_TRY_RESTART), (UNIT_INACTIVE | UNIT_FAILED) => Some JOB_DONE
            | (JOB_RELOAD | JOB_RELOAD_OR_START | JOB_TRY_RELOAD), UNIT_ACTIVE =>
                if running then Some (if UNIT_NOTIFY_RELOAD_FAILURE flags then JOB_FAILED else JOB_DONE) else None
            | _, _ => None
            end)
  else if running then
    (true, match t with
           | JOB_STOP | JOB_RESTART | JOB_TRY_RESTART => Some JOB_FAILED
           | _ => if UNIT_IS_INACTIVE_OR_FAILED ns then Some down else None
           end)
  else (false, None).

Lemma process_job_outcome j jb ns flags n n1 :
  heap (sys n) !! j = Some jb → j_type jb ≠ JOB_NOP →
  (if bool_decide (j_state jb = JOB_WAITING) then on_jobs (job_add_to_run_queue j) n else Some n) = Some n1 →
  let o := outcome (j_type jb) (bool_decide (j_state jb = JOB_RUNNING)) ns flags in
  unit_process_job j ns flags n =
    match o.2 with
    | Some r => n ← on_jobs (job_finish_and_invalidate j r true) n1; Some (o.1, n)
    | None => Some (o.1, n1)
    end.
Proof.
  intros Hj Ht Hw. unfold unit_process_job. rewrite Hj. cbn [mbind option_bind].  rewrite Hw. cbn [mbind option_bind].
  destruct (bool_decide (j_state jb = JOB_RUNNING)); destruct (j_type jb); try done; destruct ns; reflexivity.
Qed.

(** A state that ends a change settles a running job; only running jobs are contradicted by a state. *)
Lemma outcome_facts t running ns flags :
  t ≠ JOB_NOP →
  (outcome t running ns flags).1 = running && bool_decide (ns ∉ job_states t) ∧
  (running = true → ns ∈ [UNIT_ACTIVE; UNIT_INACTIVE; UNIT_FAILED] → (outcome t running ns flags).2 ≠ None).
Proof.
  intros Ht. split; [by destruct running, t, ns|]. intros -> Hns%(bool_decide_eq_true_2 _). destruct t; try done; by destruct ns.
Qed.

Lemma outcome_settles t running ns flags r :
  t ≠ JOB_NOP → (outcome t running ns flags).2 = Some r ↔ settles t running flags ns r.
Proof.
  intros Ht. split.
  - destruct running, t, ns, flags as [[] []]; cbn; try done; intros [= <-]; solve [constructor; by_decide || done].
  - destruct 1 as [ns H1 H2|ns H1 H2|H1 -> Hf|H1 -> Hf|H1 ->|H1 ->|ns H1 -> H2]; try apply (bool_decide_eq_true_2 _) in H1;
      try apply (bool_decide_eq_true_2 _) in H2; destruct t; try done; try (by destruct ns); try (by destruct running, ns); unfold outcome; cbn; by rewrite Hf.
Qed.

Lemma process_job_spec j jb ns flags n :
  tidy n → heap (sys n) !! j = Some jb → j_type jb ≠ JOB_NOP →
  ∃ unexpected n', unit_process_job j ns flags n = Some (unexpected, n') ∧ tidy n' ∧ advances n n' ∧
    unexpected = bool_decide (j_state jb = JOB_RUNNING) && bool_decide (ns ∉ job_states (j_type jb)) ∧
    (j_state jb = JOB_RUNNING → ns ∈ [UNIT_ACTIVE; UNIT_INACTIVE; UNIT_FAILED] → job_ended j jb (sys n')) ∧
    (job_ended j jb (sys n') ∨ ∃ jb', heap (sys n') !! j = Some jb' ∧ j_unit jb' = j_unit jb ∧ j_type jb' = j_type jb ∧ j_state jb' = j_state jb ∧
       (j_state jb = JOB_WAITING → rq_alloc_ok j = true → j_in_run_queue jb' = true)) ∧
    ∃ st, (if bool_decide (j_state jb = JOB_WAITING) then job_add_to_run_queue j (sys n) = Some st else st = sys n) ∧
      (∀ r, settles (j_type jb) (bool_decide (j_state jb = JOB_RUNNING)) flags ns r → job_finish_and_invalidate j r true st = Some (sys n')) ∧
      ((∀ r, ¬ settles (j_type jb) (bool_decide (j_state jb = JOB_RUNNING)) flags ns r) → sys n' = st).
Proof.
  intros Hn Hj Ht. destruct (nudge_spec j jb n Hn Hj) as (n1 & jb1 & Hw & Hn1 & Ha1 & Hj1 & Hu1 & Ht1 & Hs1 & Hq1 & Hst1).
  assert (Hst : if bool_decide (j_state jb = JOB_WAITING) then job_add_to_run_queue j (sys n) = Some (sys n1) else sys n1 = sys n)
    by (case_bool_decide; [done|by subst]).
  rewrite (process_job_outcome j jb ns flags n n1 Hj Ht Hw). cbn zeta.
  destruct (outcome_facts (j_type jb) (bool_decide (j_state jb = JOB_RUNNING)) ns flags Ht) as [Hun Hend].
  pose proof (λ r, outcome_settles (j_type jb) (bool_decide (j_state jb = JOB_RUNNING)) ns flags r Ht) as Hsettle.
  destruct (outcome _ _ _ _) as [un [r|]]; cbn [fst snd] in *.
  - destruct (capacity_room _ cap (ti_rest _ Hn1) (ti_known _ Hn1)) as [_ Hfew].
    destruct (finish_job_rest j jb1 r true (sys n1) (ti_rest _ Hn1) Hfew Hj1) as (st' & Hf & Hr' & Hkn' & He).
    destruct (on_jobs_spec (job_finish_and_invalidate j r true) n1 st' Hn1 Hf Hr' (Hkn' (ti_known _ Hn1))) as (n2 & -> & Hn2 & Ha2 & Hs2).
    assert (job_ended j jb (sys n2)).
    { rewrite Hs2. destruct He as [?|(_ & ? & jb' & ? & ? & ? & ?)]; [by left|right]. split; [congruence|]. exists jb'. split_and!; (done || congruence). }
    exists un, n2. split_and!; [done|done|by etrans|done|auto|auto|]. exists (sys n1). split_and!; [done| |].
    + intros r' [= <-]%Hsettle. by rewrite Hs2.
    + intros Hno. destruct (Hno r). by apply Hsettle.
  - exists un, n1. split_and!; [done..| | |].
    + intros Hrun Hns. by destruct (Hend ltac:(by apply bool_decide_eq_true_2) Hns).
    + right. by exists jb1.
    + exists (sys n1). split_and!; [done| |done]. by intros r ?%Hsettle.
Qed.

Lemma notify_job_safe u ns flags n : tidy n → ∃ un n', notify_job u ns flags n = Some (un, n') ∧ tidy n' ∧ advances n n'.
Proof.
  intros Hn. unfold notify_job. destruct (installed_job (sys n) u) as [j|] eqn:Ej; [|by exists true, n].
  destruct (mo_job _ (proj2 (ar_ok _ (ti_rest _ Hn))) u j Ej) as (jb & Hj & _ & _ & Ht).
  destruct (process_job_spec j jb ns flags n Hn Hj Ht) as (un & n1 & H & ? & ? & _). by exists un, n1.
Qed.

Lemma notify_unexpected_safe u os ns un : u ∈ units → unit_active_state u = ns → safe (notify_unexpected u os ns un).
Proof.
  intros Hu Hns. apply safe_if; [|apply safe_ret]. destruct (UNIT_IS_INACTIVE_OR_FAILED os && _) eqn:E1.
  { apply andb_true_iff in E1 as [_ ?]. apply retroactively_start_safe; congruence. }
  destruct (_ && UNIT_IS_INACTIVE_OR_DEACTIVATING ns) eqn:E2; [|apply safe_ret].
  apply andb_true_iff in E2 as [_ ?]. apply retroactively_stop_safe; congruence.
Qed.

Lemma notify_reports_ok u os ns : safe (λ n, Some (notify_reports u os ns n)).
Proof. intros n Hn. eexists. split; [done|]. unfold notify_reports. destruct (_ && _), (_ && _); (split; [repeat apply call_tidy; done|done]). Qed.

Lemma notify_jobs_safe u os ns flags : u ∈ units → unit_active_state u = ns → safe (notify_jobs u os ns flags).
Proof.
  intros Hu Hns n Hn. unfold notify_jobs. destruct (notify_job_safe u ns flags n Hn) as (un & n1 & -> & Hn1 & Ha1). cbn [mbind option_bind].
  destruct (notify_unexpected_safe u os ns un Hu Hns n1 Hn1) as (n2 & -> & Hn2 & Ha2). cbn [mbind option_bind].
  assert (Hfail : ∀ a mode (b : bool), a ∈ [UNIT_ATOM_ON_SUCCESS; UNIT_ATOM_ON_FAILURE] → safe (λ n, if b then start_on_failure u a mode n else Some n))
    by (intros; apply safe_if; [by apply start_on_failure_safe|apply safe_ret]).
  match goal with |- context [start_on_failure u ?a ?m n2] => destruct (Hfail a m (bool_decide (ns ≠ os) && bool_decide (ns = UNIT_FAILED) && negb (UNIT_NOTIFY_WILL_AUTO_RESTART flags)) ltac:(set_solver) n2 Hn2) as (n3 & -> & Hn3 & Ha3) end.
  cbn [mbind option_bind]. destruct (notify_reports_ok u os ns n3 Hn3) as (n4 & [= ->] & Hn4 & Ha4).
  match goal with |- ∃ _, (if ?b then start_on_failure u ?a ?m _ else _) = _ ∧ _ => destruct (Hfail a m b ltac:(set_solver) n4 Hn4) as (n5 & -> & Hn5 & Ha5) end.
  exists n5. split_and!; [done..|]. rewrite Ha1, Ha2, Ha3, Ha4. done.
Qed.

(** *** The unit itself *)

(** The timestamps tell the state: they are those of the last time the unit entered and left it. *)
Record stamps_ok (s : UnitActiveState) (r : UnitRuntime) : Prop := {
  so_inactive : if UNIT_IS_INACTIVE_OR_FAILED s then inactive_exit_timestamp r <= inactive_enter_timestamp r
                else inactive_enter_timestamp r <= inactive_exit_timestamp r;
  so_active : if UNIT_IS_ACTIVE_OR_RELOADING s then active_exit_timestamp r <= active_enter_timestamp r
              else active_enter_timestamp r <= active_exit_timestamp r;
  so_past : inactive_exit_timestamp r <= state_change_timestamp r ∧ inactive_enter_timestamp r <= state_change_timestamp r ∧
            active_exit_timestamp r <= state_change_timestamp r ∧ active_enter_timestamp r <= state_change_timestamp r;
}.

Lemma update_stamps now os ns r : stamps_ok os r → state_change_timestamp r <= now → stamps_ok ns (update_timestamps now os ns r).
Proof.
  intros [Hi Ha Hp] Hnow. split; unfold update_timestamps; cbn.
  - destruct (UNIT_IS_INACTIVE_OR_FAILED os), (UNIT_IS_INACTIVE_OR_FAILED ns); cbn; lia.
  - destruct (UNIT_IS_ACTIVE_OR_RELOADING os), (UNIT_IS_ACTIVE_OR_RELOADING ns); cbn; lia.
  - destruct (UNIT_IS_INACTIVE_OR_FAILED os), (UNIT_IS_INACTIVE_OR_FAILED ns), (UNIT_IS_ACTIVE_OR_RELOADING os), (UNIT_IS_ACTIVE_OR_RELOADING ns); cbn; lia.
Qed.

Definition same_queues (n n' : Units) : Prop :=
  stop_when_unneeded_queue n' = stop_when_unneeded_queue n ∧ start_when_upheld_queue n' = start_when_upheld_queue n ∧
  stop_when_bound_queue n' = stop_when_bound_queue n.

(** The state of the unit after the first part. *)
Definition noted (now : Z) (u : positive) (os ns : UnitActiveState) (n n' : Units) : Prop :=
  failed_units n' = (if bool_decide (ns = UNIT_FAILED) then {[u]} ∪ failed_units n else failed_units n ∖ {[u]}) ∧
  (∀ v, v ≠ u → runtime n' v = runtime n v) ∧
  (manager_is_reloading = false → stamps_ok os (runtime n u) → state_change_timestamp (runtime n u) <= now → stamps_ok ns (runtime n' u) ∧ state_change_timestamp (runtime n' u) = now) ∧
  (UNIT_IS_INACTIVE_OR_FAILED ns = true → Z.land (markers (runtime n' u)) 3 = 0) ∧
  auto_start_stop_ratelimit (runtime n' u) = auto_start_stop_ratelimit (runtime n u).

Lemma set_markers_stamps s x r : stamps_ok s r → stamps_ok s (set_markers x r).
Proof. by intros []. Qed.

(** Calls that are only recorded. *)
Definition quiet (n n' : Units) : Prop :=
  (tidy n → tidy n') ∧ same_queues n n' ∧ failed_units n' = failed_units n ∧ runtime n' = runtime n.

Lemma quiet_call c n : quiet n (notify_call c n).
Proof. split; [apply call_tidy|done]. Qed.

Lemma quiet_if (b : bool) c n : quiet n (if b then notify_call c n else n).
Proof. destruct b; [apply quiet_call|done]. Qed.

Lemma clear_flag_clears x f : Z.land (clear_flag x f) f = 0.
Proof. apply Z.bits_inj'. intros i _. unfold clear_flag. rewrite Z.land_spec, Z.ldiff_spec, Z.bits_0. by destruct (Z.testbit x i), (Z.testbit f i). Qed.

Lemma update_failed_units_spec u failed n :
  let n' := manager_update_failed_units u failed n in
  (tidy n → tidy n') ∧ same_queues n n' ∧ failed_units n' = (if failed then {[u]} ∪ failed_units n else failed_units n ∖ {[u]}) ∧ runtime n' = runtime n.
Proof.
  cbn zeta. unfold manager_update_failed_units. set (n1 := set_failed_units _ n). destruct (quiet_if (bool_decide (size (failed_units n1) ≠ size (failed_units n))) bus_manager_send_change_signal n1) as (T & Q & F & R).
  split_and!; [|done|by rewrite F|by rewrite R]. intros []. by apply T.
Qed.

Lemma unmark_spec u os ns n :
  let n' := unmark u os ns n in
  (tidy n → tidy n') ∧ same_queues n n' ∧ failed_units n' = failed_units n ∧ (∀ v, v ≠ u → runtime n' v = runtime n v) ∧
  (∃ x, runtime n' u = set_markers x (runtime n u) ∧ (UNIT_IS_INACTIVE_OR_FAILED ns = true → Z.land x 3 = 0)).
Proof.
  cbn zeta. unfold unmark. destruct (UNIT_IS_INACTIVE_OR_FAILED ns); [|destruct (_ && _)]; cbn; split_and!; try done.
  - intros []. do 2 apply call_tidy. by split.
  - intros v Hv. by rewrite decide_False.
  - rewrite decide_True by done. eexists. split; [done|]. intros _. apply (clear_flag_clears _ 3).
  - by intros [].
  - intros v Hv. by rewrite decide_False.
  - rewrite decide_True by done. by eexists.
  - exists (markers (runtime n u)). split; [|done]. by destruct (runtime n u).
Qed.

Lemma notify_unit_spec now u os ns n :
  let n' := notify_unit now u os ns n in
  (tidy n → tidy n') ∧ same_queues n n' ∧ noted now u os ns n n'.
Proof.
  cbn zeta. unfold notify_unit.
  set (n1 := notify_call (unit_add_to_dbus_queue u) n). set (n2 := if bool_decide (os ≠ ns) && _ then _ else n1).
  set (n3 := if negb manager_is_reloading then _ else n2).
  destruct (quiet_if (bool_decide (os ≠ ns) && (UNIT_IS_INACTIVE_OR_FAILED ns || UNIT_IS_ACTIVE_OR_RELOADING ns)) (manager_varlink_send_managed_oom_update u) n1) as (T2 & Q2 & F2 & R2).
  fold n2 in T2, Q2, F2, R2.
  assert (H3 : (tidy n2 → tidy n3) ∧ same_queues n2 n3 ∧ failed_units n3 = failed_units n2 ∧ (∀ v, v ≠ u → runtime n3 v = runtime n2 v) ∧
    runtime n3 u = if manager_is_reloading then runtime n2 u else update_timestamps now os ns (runtime n2 u)).
  { unfold n3. destruct manager_is_reloading; cbn; split_and!; try done; [by intros []|intros v Hv; by rewrite decide_False|by rewrite decide_True]. }
  destruct H3 as (T3 & Q3 & F3 & R3 & U3). destruct (update_failed_units_spec u (bool_decide (ns = UNIT_FAILED)) n3) as (T4 & Q4 & F4 & R4).
  set (n4 := manager_update_failed_units u _ n3) in *. destruct (unmark_spec u os ns n4) as (T5 & Q5 & F5 & R5 & x & U5 & Hx). set (n5 := unmark u os ns n4) in *.
  assert (HU : runtime n5 u = set_markers x (if manager_is_reloading then runtime n u else update_timestamps now os ns (runtime n u))) by (rewrite U5, R4, U3, R2; done).
  split; [|split; [|unfold noted; split_and!]].
  - intros Hn. apply call_tidy, T5, T4, T3, T2, call_tidy, Hn.
  - assert (Q2' : same_queues n n2) by exact Q2. clear Q2. rename Q2' into Q2. unfold same_queues in *. cbn. destruct Q2 as (? & ? & ?), Q3 as (? & ? & ?), Q4 as (? & ? & ?), Q5 as (? & ? & ?). split_and!; congruence.
  - cbn. rewrite F5, F4, F3, F2. done.
  - intros v Hv. cbn. rewrite R5, R4, R3, R2 by done. done.
  - intros Hrl Hs Hnow. cbn. rewrite HU, Hrl. split; [by apply set_markers_stamps, update_stamps|done].
  - intros Hin. cbn. rewrite HU. auto.
  - cbn. rewrite HU. by destruct manager_is_reloading.
Qed.

(** *** All of it *)

(** Who is on a queue after the change of state of [u] to [ns]. *)
Record lined_up (u : positive) (ns : UnitActiveState) (n : Units) : Prop := {
  lu_unneeded v : UNIT_IS_INACTIVE_OR_FAILED ns = true → v ∈ unit_dependencies u UNIT_ATOM_ADD_STOP_WHEN_UNNEEDED_QUEUE →
    stop_when_unneeded v = true → UNIT_IS_ACTIVE_OR_RELOADING (unit_active_state v) = true → v ∈ stop_when_unneeded_queue n;
  lu_bound v : UNIT_IS_INACTIVE_OR_FAILED ns = true → v ∈ unit_dependencies u UNIT_ATOM_ADD_CANNOT_BE_ACTIVE_WITHOUT_QUEUE →
    UNIT_IS_ACTIVE_OR_RELOADING (unit_active_state v) = true → unit_dependencies v UNIT_ATOM_CANNOT_BE_ACTIVE_WITHOUT ≠ [] → v ∈ stop_when_bound_queue n;
  lu_upheld : UNIT_IS_INACTIVE_OR_FAILED ns = true → unit_dependencies u UNIT_ATOM_START_STEADILY ≠ [] → u ∈ start_when_upheld_queue n;
  lu_upholds v : UNIT_IS_ACTIVE_OR_RELOADING ns = true → v ∈ unit_dependencies u UNIT_ATOM_ADD_START_WHEN_UPHELD_QUEUE →
    UNIT_IS_INACTIVE_OR_FAILED (unit_active_state v) = true → unit_dependencies v UNIT_ATOM_START_STEADILY ≠ [] → v ∈ start_when_upheld_queue n;
  lu_self_unneeded : UNIT_IS_ACTIVE_OR_RELOADING ns = true → stop_when_unneeded u = true → u ∈ stop_when_unneeded_queue n;
  lu_self_bound : UNIT_IS_ACTIVE_OR_RELOADING ns = true → unit_dependencies u UNIT_ATOM_CANNOT_BE_ACTIVE_WITHOUT ≠ [] → u ∈ stop_when_bound_queue n;
}.

Lemma active_not_inactive s : UNIT_IS_ACTIVE_OR_RELOADING s = true → UNIT_IS_INACTIVE_OR_FAILED s = false.
Proof. by destruct s. Qed.

Lemma notify_queues_spec u ns n :
  unit_active_state u = ns → let n' := notify_queues u ns n in (tidy n → tidy n') ∧ advances n n' ∧ lined_up u ns n'.
Proof.
  intros Hns. cbn zeta. unfold notify_queues. destruct (UNIT_IS_ACTIVE_OR_RELOADING ns) eqn:Ea.
  - rewrite (active_not_inactive ns Ea). destruct (check_uphold_spec u n) as (T1 & A1 & G1). set (n1 := check_uphold_dependencies u n) in *.
    destruct (submit_unneeded_spec u n1) as (T2 & A2 & G2). set (n2 := unit_submit_to_stop_when_unneeded_queue u n1) in *.
    destruct (submit_bound_spec u n2) as (T3 & A3 & G3). rewrite Hns in G2, G3. split_and!; [auto|by rewrite A1, A2|].
    split; rewrite ?Ea, ?(active_not_inactive ns Ea); try done.
    + intros v _ Hv Hin Hd. apply (ad_upheld _ _ A3), (ad_upheld _ _ A2). auto.
    + intros _ Hs. apply (ad_unneeded _ _ A3). auto.
    + auto.
  - destruct (UNIT_IS_INACTIVE_OR_FAILED ns) eqn:Ei; [|split_and!; [done..|]; split; rewrite ?Ea, ?Ei; done].
    destruct (check_unneeded_spec u n) as (T1 & A1 & G1). set (n1 := check_unneeded_dependencies u n) in *.
    destruct (check_bound_spec u n1) as (T2 & A2 & G2). set (n2 := check_bound_by_dependencies u n1) in *.
    destruct (submit_upheld_spec u n2) as (T3 & A3 & G3). rewrite Hns in G3. set (n3 := unit_submit_to_start_when_upheld_queue u n2) in *.
    split_and!; [intros; apply call_tidy; auto|by rewrite A1, A2, A3|]. split; rewrite ?Ea, ?Ei; try done; cbn.
    + intros v _ Hv Hs Hac. apply (ad_unneeded _ _ A3), (ad_unneeded _ _ A2). auto.
    + intros v _ Hv Hac Hd. apply (ad_bound _ _ A3). auto.
    + auto.
Qed.

Lemma notify_before_spec now u os ns flags n :
  tidy n → u ∈ units → unit_active_state u = ns →
  ∃ n1 n', notify_before now u os ns flags n = Some n' ∧ tidy n' ∧ noted now u os ns n n1 ∧ same_queues n n1 ∧ advances n1 n'.
Proof.
  intros Hn Hu Hns. unfold notify_before. destruct (notify_unit_spec now u os ns n) as (T1 & Q1 & N1). set (n1 := notify_unit now u os ns n) in *. exists n1.
  destruct (safe_if (negb manager_is_reloading) _ _ (notify_jobs_safe u os ns flags Hu Hns) safe_ret n1 (T1 Hn)) as (n2 & -> & Hn2 & A2). cbn [mbind option_bind].
  eexists. split; [done|]. split_and!; [by do 2 apply call_tidy|done|done|]. by rewrite A2.
Qed.

Lemma notify_after_spec u os ns n :
  unit_active_state u = ns → let n' := notify_after u os ns n in (tidy n → tidy n') ∧ advances n n' ∧ lined_up u ns n'.
Proof.
  intros Hns. cbn zeta. unfold notify_after. set (n4 := if negb manager_is_reloading then _ else n).
  assert (H4 : (tidy n → tidy n4) ∧ advances n n4).
  { unfold n4. destruct (negb manager_is_reloading); [destruct (_ && _); [|destruct (_ && _)]|]; (split; [intros; repeat apply call_tidy; done|done]). }
  destruct H4 as [T4 A4], (notify_queues_spec u ns n4 Hns) as (T5 & A5 & L5). split_and!; [auto|by rewrite A4|done].
Qed.

Lemma unit_notify_spec now u os ns flags n :
  tidy n → u ∈ units → unit_active_state u = ns →
  ∃ n1 n', unit_notify now u os ns flags n = Some n' ∧ tidy n' ∧ noted now u os ns n n1 ∧ same_queues n n1 ∧ advances n1 n' ∧ lined_up u ns n'.
Proof.
  intros Hn Hu Hns. unfold unit_notify. destruct (notify_before_spec now u os ns flags n Hn Hu Hns) as (n1 & n2 & -> & Hn2 & N1 & Q1 & A2).
  cbn [mbind option_bind]. destruct (notify_after_spec u os ns (notify_call (unit_trigger_notify u) n2) Hns) as (T & A & L).
  exists n1. eexists. split; [done|]. split_and!; [by apply T, call_tidy|done|done| |done].
  rewrite A2. etrans; [apply call_advances|exact A].
Qed.

End Known.

(** ** The properties *)

(** C21: what the new state of a unit means for its job. A job that waits is first put on the run
    queue. Then the job is finished, with the result that [settles] gives for its type, whether it
    runs, the state and the flags, if there is one, and in no other case: it otherwise keeps
    its type and state. The state is unexpected exactly if the job is
    running and the state is none that a unit passes through while a job of its type runs. A
    running job does not outlive the states active, inactive and failed: it is freed, except that a
    restart job of a unit that went down turns into the waiting start job. No assertion fails. *)
Theorem unit_state_settles_job (j : positive) (jb : Job) (ns : UnitActiveState) (flags : UnitNotifyFlags) (n : Units) :
  settings_known → capacity → tidy n → heap (sys n) !! j = Some jb → j_type jb ≠ JOB_NOP →
  ∃ unexpected n', unit_process_job j ns flags n = Some (unexpected, n') ∧ tidy n' ∧
    (∃ st, (if bool_decide (j_state jb = JOB_WAITING) then job_add_to_run_queue j (sys n) = Some st else st = sys n) ∧
       (∀ r, settles (j_type jb) (bool_decide (j_state jb = JOB_RUNNING)) flags ns r → job_finish_and_invalidate j r true st = Some (sys n')) ∧
       ((∀ r, ¬ settles (j_type jb) (bool_decide (j_state jb = JOB_RUNNING)) flags ns r) → sys n' = st ∧
          ∃ jb', heap (sys n') !! j = Some jb' ∧ j_unit jb' = j_unit jb ∧ j_type jb' = j_type jb ∧ j_state jb' = j_state jb ∧
            (j_state jb = JOB_WAITING → rq_alloc_ok j = true → j_in_run_queue jb' = true))) ∧
    (unexpected = true ↔ j_state jb = JOB_RUNNING ∧ ns ∉ job_states (j_type jb)) ∧
    (j_state jb = JOB_RUNNING → ns ∈ [UNIT_ACTIVE; UNIT_INACTIVE; UNIT_FAILED] → job_ended j jb (sys n')) ∧
    (job_ended j jb (sys n') ∨ ∃ jb', heap (sys n') !! j = Some jb' ∧ j_unit jb' = j_unit jb ∧ j_type jb' = j_type jb ∧ j_state jb' = j_state jb ∧
       (j_state jb = JOB_WAITING → rq_alloc_ok j = true → j_in_run_queue jb' = true)).
Proof.
  intros Hk Hc Hn Hj Ht. destruct (process_job_spec Hk Hc j jb ns flags n Hn Hj Ht) as (un & n' & H & Hn' & _ & -> & He & Hr & st & Hst & Hfin & Hstay).
  eexists _, n'. split_and!; [done|done| | |done|done]; [|by rewrite andb_true_iff, !bool_decide_eq_true].
  exists st. split_and!; [done..|]. intros Hno. pose proof (Hstay Hno) as Heq. split; [done|]. rewrite Heq.
  destruct (nudge_spec Hk Hc j jb n Hn Hj) as (n1 & jb1 & _ & _ & _ & Hj1 & ? & ? & ? & ? & Hst1).
  assert (st = sys n1) as -> by (case_bool_decide; [congruence|by subst]). exists jb1. by split_and!.
Qed.

(** C20: nobody is overlooked. With dependencies as [unit_add_dependency] and its relatives leave
    them, after a unit went down every unit that is up and bound to it is queued to be stopped, and every
    unit that is up, stops when unneeded and was needed by it, is queued to be looked at; a unit that went
    down and that another one upholds is queued to be started, and so is every unit that is down and
    upheld by a unit that went up. *)
Theorem unit_notify_overlooks_nobody {UK : UnitKinds} (D : Tables) (now : Z) (u : positive) (os ns : UnitActiveState) (flags : UnitNotifyFlags) (n : Units) :
  settings_known → deps_closed → capacity → tidy n → u ∈ units → unit_active_state u = ns →
  history D → (∀ v a, v ∈ units → unit_dependencies v a = foreach_dependency D v (atom_bit a)) →
  ∃ n', unit_notify now u os ns flags n = Some n' ∧ tidy n' ∧ ∀ v, v ∈ units →
    (UNIT_IS_INACTIVE_OR_FAILED ns = true → UNIT_IS_ACTIVE_OR_RELOADING (unit_active_state v) = true →
       (u ∈ unit_dependencies v UNIT_ATOM_CANNOT_BE_ACTIVE_WITHOUT → v ∈ stop_when_bound_queue n') ∧
       (u ∈ unit_dependencies v UNIT_ATOM_PINS_STOP_WHEN_UNNEEDED → stop_when_unneeded v = true → v ∈ stop_when_unneeded_queue n')) ∧
    (UNIT_IS_INACTIVE_OR_FAILED ns = true → v ∈ unit_dependencies u UNIT_ATOM_START_STEADILY → u ∈ start_when_upheld_queue n') ∧
    (UNIT_IS_ACTIVE_OR_RELOADING ns = true → UNIT_IS_INACTIVE_OR_FAILED (unit_active_state v) = true →
       u ∈ unit_dependencies v UNIT_ATOM_START_STEADILY → v ∈ start_when_upheld_queue n').
Proof.
  intros Hk Hd Hc Hn Hu Hns HD Hdep. destruct (unit_notify_spec Hk Hd Hc now u os ns flags n Hn Hu Hns) as (n1 & n' & H & Hn' & _ & _ & _ & L).
  assert (Hinv : ∀ a b v w, (a, b) ∈ inverse_atoms → v ∈ units → w ∈ units → w ∈ unit_dependencies v a ↔ v ∈ unit_dependencies w b).
  { intros a b v w Hab Hv Hw. rewrite !Hdep by done. apply foreach_inverse; [apply (history_inv D HD)|done]. }
  exists n'. split_and!; [done..|]. intros v Hv. split_and!.
  - intros Hdn Hup. split; intros Hin.
    + apply (lu_bound _ _ _ L); [done| |done|by intros Hx; rewrite Hx in Hin; apply not_elem_of_nil in Hin].
      apply (Hinv UNIT_ATOM_CANNOT_BE_ACTIVE_WITHOUT _ v u); [|done..]. by do 2 constructor 2; constructor 1.
    + intros Hs. apply (lu_unneeded _ _ _ L); [done| |done..]. apply (Hinv _ UNIT_ATOM_PINS_STOP_WHEN_UNNEEDED u v); [|done..]. by constructor 2; constructor 1.
  - intros Hdn Hin. apply (lu_upheld _ _ _ L); [done|]. by intros Hx; rewrite Hx in Hin; apply not_elem_of_nil in Hin.
  - intros Hup Hdn Hin. apply (lu_upholds _ _ _ L); [done| |done|by intros Hx; rewrite Hx in Hin; apply not_elem_of_nil in Hin].
    apply (Hinv _ UNIT_ATOM_START_STEADILY u v); [|done..]. by do 3 constructor 2; constructor 1.
Qed.

End Notify.

(** ** Witnesses

    Unit 2 is bound to unit 1 and unit 3 upholds it. Unit 1 fails while its start job runs. *)

Definition bound_tables : option Tables :=
  '(_, D) ← unit_add_dependency (UK := plain_kinds) 2 UNIT_BINDS_TO 1 true 1 (MkTables ∅ ∅);
  '(_, D) ← unit_add_dependency (UK := plain_kinds) 3 UNIT_UPHOLDS 1 true 1 D;
  Some D.

Example bound_walks :
  (D ← bound_tables; Some (foreach_dependency D 1 (atom_bit UNIT_ATOM_START_STEADILY), foreach_dependency D 2 (atom_bit UNIT_ATOM_CANNOT_BE_ACTIVE_WITHOUT))) = Some ([3%positive], [1%positive]).
Proof. vm_compute. reflexivity. Qed.

Lemma bound_history : ∃ D, bound_tables = Some D ∧ history (UK := plain_kinds) D.
Proof.
  pose proof bound_walks as Hw. unfold bound_tables in *. assert (Hf : flag 1) by (exists 0; split; [lia|reflexivity]).
  destruct (unit_add_dependency 2 UNIT_BINDS_TO 1 true 1 _) as [[r1 D1]|] eqn:E1; cbn [mbind option_bind] in *; [|discriminate].
  destruct (unit_add_dependency 3 UNIT_UPHOLDS 1 true 1 D1) as [[r2 D2]|] eqn:E2; cbn [mbind option_bind] in *; [|discriminate].
  exists D2. split; [reflexivity|]. eapply history_add; [|exact Hf|intros _; reflexivity|exact E2].
  eapply history_add; [|exact Hf|intros _; reflexivity|exact E1]. apply history_empty.
Qed.

Definition bound_deps (u : positive) (a : UnitDependencyAtom) : list positive :=
  if bool_decide (u ∈ [1; 2; 3]%positive) then match bound_tables with Some D => foreach_dependency D u (atom_bit a) | None => [] end else [].

Definition bound_env : Env := ex_env bound_deps (λ u, if decide (u = 1%positive) then UNIT_FAILED else UNIT_ACTIVE) [1; 2; 3]%positive.

Definition bound_conf : NotifyConf := {|
  manager_is_reloading := false; sd_event_add_time _ _ := 0; stop_when_unneeded _ := false;
  unit_will_restart _ := false; on_failure_job_mode _ := JOB_REPLACE; on_success_job_mode _ := JOB_FAIL |}.

Lemma bound_env_closed : let E := bound_env in deps_closed.
Proof.
  intros E u v Hu [[a Hv]|Hv]; [|by apply not_elem_of_nil in Hv].
  assert (H : forallb (λ u, forallb (λ a, forallb (λ v, bool_decide (v ∈ [1; 2; 3]%positive)) (bound_deps u a)) all_atoms) [1; 2; 3]%positive = true) by (vm_compute; reflexivity).
  apply list_elem_of_In in Hu, Hv. rewrite forallb_forall in H. specialize (H u Hu). rewrite forallb_forall in H.
  assert (Ha : In a all_atoms) by (apply list_elem_of_In; clear; destruct a; by_decide). specialize (H a Ha). rewrite forallb_forall in H.
  by apply (bool_decide_eq_true (v ∈ [1; 2; 3]%positive)), (H v).
Qed.

Lemma bound_settings : let E := bound_env in let NC := bound_conf in settings_known.
Proof. intros E NC u Hu. split; [done|]. intros a. cbn. unfold bound_deps. by rewrite bool_decide_eq_false_2. Qed.

Definition start_state : @State ex_rq :=
  @MkState ex_rq (list_to_map [(1%positive, fin_job 1 JOB_START JOB_RUNNING)]) [] ∅ None false
    (@MkManager ex_rq (list_to_map [(1, 1)]%positive) ∅ (list_to_map [(1, 1%positive)]) 2 1 1 0 (@rq_empty ex_rq) [] [] (λ _, UNIT_LOADED) []).

Lemma start_state_at_rest : at_rest start_state.
Proof.
  split.
  - apply sys_ok_check; [by_decide|done].
  - intros id i Hi. apply elem_of_list_to_map_2, list_elem_of_In in Hi. destruct Hi as [[= <- <-]|[]].
    eexists. split; [reflexivity|done].
  - intros k kb Hk. apply elem_of_list_to_map_2, list_elem_of_In in Hk. destruct Hk as [[= <- <-]|[]]. by left.
  - reflexivity.
Qed.

Definition new_runtime : UnitRuntime := MkRuntime 0 0 0 0 0 3 (MkRateLimit 10000000 16 0 0) None 0 false 0 false None.

Definition start_units : @Units ex_rq := @MkUnits ex_rq start_state (λ _, new_runtime) ∅ [] [] [].

Lemma new_stamps : stamps_ok UNIT_ACTIVATING new_runtime.
Proof. split; [by_decide|by_decide|cbn; lia]. Qed.

Lemma start_units_tidy : let E := bound_env in tidy start_units.
Proof.
  intros E. split; [apply start_state_at_rest| |by split; [constructor|intros ? ?%not_elem_of_nil]..].
  intros k kb Hk. apply elem_of_list_to_map_2, list_elem_of_In in Hk. destruct Hk as [[= <- <-]|[]]. by_decide.
Qed.

Lemma bound_capacity : let E := bound_env in capacity.
Proof. by vm_compute. Qed.

Lemma unit_state_settles_job_witness :
  let E := bound_env in let NC := bound_conf in
  ∃ n', unit_process_job 1 UNIT_FAILED (NotifyFlags false false) start_units = Some (true, n') ∧ tidy n' ∧ heap (sys n') !! 1%positive = None.
Proof.
  intros E NC. destruct (@unit_state_settles_job ex_rq E NC 1 (fin_job 1 JOB_START JOB_RUNNING) UNIT_FAILED (NotifyFlags false false) start_units)
    as (un & n' & H & Ht & _ & Hun & Hend & _); [exact bound_settings|exact bound_capacity|exact start_units_tidy|reflexivity|done|].
  assert (un = true) as -> by (apply Hun; split; [done|by_decide]). exists n'. split_and!; [done..|].
  destruct Hend as [He|[He _]]; [done|by_decide|exact He|discriminate].
Defined.

Lemma unit_notify_overlooks_nobody_witness :
  let E := bound_env in let NC := bound_conf in
  ∃ n', unit_notify 100 1 UNIT_ACTIVATING UNIT_FAILED (NotifyFlags false false) start_units = Some n' ∧
    2%positive ∈ stop_when_bound_queue n' ∧ 1%positive ∈ start_when_upheld_queue n'.
Proof.
  intros E NC. destruct bound_history as (D & HD & Hh).
  destruct (@unit_notify_overlooks_nobody ex_rq E NC plain_kinds D 100 1 UNIT_ACTIVATING UNIT_FAILED (NotifyFlags false false) start_units)
    as (n' & H & _ & Hq); [exact bound_settings|exact bound_env_closed|exact bound_capacity|exact start_units_tidy|by_decide|done|exact Hh| |].
  - intros v a Hv. cbn. unfold bound_deps. by rewrite bool_decide_eq_true_2, HD by done.
  - exists n'. split; [exact H|]. split.
    + destruct (Hq 2%positive ltac:(by_decide)) as (H1 & _ & _). destruct (H1 eq_refl eq_refl) as [H2 _]. apply H2. by_decide.
    + destruct (Hq 3%positive ltac:(by_decide)) as (_ & H1 & _). apply (H1 eq_refl). by_decide.
Defined.
