(* ===== verification/JobOnFailure.v ===== *)
(** * What the end of a job sets off in other units (src/core/job.c, src/core/unit.c)

    [job_finish_and_invalidate] with the calls that JobOps.v leaves open: a job that timed out or that
    another one took along starts the OnFailure= units of its unit, by jobs that are added in the middle of
    the recursion over the depending jobs; and every freed job notifies the units that trigger its
    unit. The theorem: which jobs the end of a job frees. *)

From S2P Require Import Prelude JobType Prioq RunQueue JobData TrDelete TrFix TrOrder TrMerge TrBuild JobOps JobFinish JobInstall TrApply TrActivate AddJob RateLimit UnitNotify.

(** What the [trigger_notify] operation of the type of a unit does to the jobs when it is told of
    another one. *)
Class JobTriggers {RQ : RunQueue} := {
  job_trigger_notify : positive → positive → State → option State }.

Section OnFailure.
Context {RQ : RunQueue} {E : Env} {NC : NotifyConf} {JT : JobTriggers}.
Implicit Types (st : State) (u v j : positive).

(** ** The code *)

Fixpoint foreach_other (f : positive → State → option State) (us : list positive) st : option State :=
  match us with
  | [] => Some st
  | other :: us => st ← f other st; foreach_other f us st
  end.

(** A job that cannot be added is ignored. *)
Definition job_start_on_failure u st : option State :=
  foreach_other (λ other st, '(_, st, _) ← manager_add_job JOB_START other (on_failure_job_mode u) st; Some st) (unit_dependencies u UNIT_ATOM_ON_FAILURE) st.

Definition job_tell_triggers u st : option State :=
  foreach_other (λ other st, job_trigger_notify other u st) (unit_dependencies u UNIT_ATOM_TRIGGERED_BY) st.

Definition set_off (c : Call) st : option State :=
  match c with
  | unit_start_on_failure u => job_start_on_failure u st
  | unit_trigger_notify u => job_tell_triggers u st
  | _ => Some (call c st)
  end.

(** [job_finish_and_invalidate] *)
Definition job_finish j (result : JobResult) (recursive : bool) st : option State :=
  finish_job set_off (S (size (heap st))) j result recursive st.

(** ** The property *)

(** The operations of the units that trigger [u] only make calls that do not concern jobs. *)
Definition triggers_leave_jobs u : Prop := ∀ other st,
  other ∈ unit_dependencies u UNIT_ATOM_TRIGGERED_BY → ∃ cs, job_trigger_notify other u st = Some (foldr call st cs).

Lemma tell_triggers_quiet u us st :
  (∀ other st, other ∈ us → ∃ cs, job_trigger_notify other u st = Some (foldr call st cs)) →
  ∃ cs, foreach_other (λ other st, job_trigger_notify other u st) us st = Some (foldr call st cs).
Proof.
  revert st. induction us as [|other us IH]; intros st H; cbn [foreach_other]; [by exists []|].
  destruct (H other st) as [cs ->]; [by left|]. cbn [mbind option_bind]. destruct (IH (foldr call st cs)) as [cs' ->].
  - intros v s Hv. apply H. by right.
  - exists (cs' ++ cs). by rewrite foldr_app.
Qed.

Lemma set_off_quiet u result :
  triggers_leave_jobs u → (result ∈ [JOB_TIMEOUT; JOB_DEPENDENCY] → unit_dependencies u UNIT_ATOM_ON_FAILURE = []) → hook_quiet set_off u result.
Proof.
  intros Ht Hf st Hok. split.
  - intros Hr. exists st. cbn [set_off]. unfold job_start_on_failure. rewrite (Hf Hr). split; [done|]. apply (calls_quiet [] st Hok).
  - destruct (tell_triggers_quiet u (unit_dependencies u UNIT_ATOM_TRIGGERED_BY) st) as [cs Hcs]; [by intros; apply Ht|].
    exists (foldr call st cs). split; [exact Hcs|]. by apply calls_quiet.
Qed.

(** C9: which jobs the end of a job frees. [job_finish_and_invalidate] terminates on any dependency
    graph without failing an assertion, keeps the invariant of the jobs, and frees exactly the
    jobs that [goes] tells, which does not use the code: the job itself and, with [recursive], on and on, the
    start and verify-active jobs of the units that require a unit whose start did not succeed, that
    wait for a unit whose stop did not, or have a unit as a requisite whose start or reload was done
    without it being up. It is assumed that none of these units has OnFailure= units to be started
    (where its job times out or is taken along; such a start may add and replace jobs), and that
    telling the units that trigger them does not change jobs. A restart that is done is the exception, stated apart. *)
Theorem finish_frees_exactly (j : positive) (jb : Job) (result : JobResult) (recursive : bool) (st : State) :
  sys_ok st → few st → heap st !! j = Some jb → j_installed jb = true →
  ¬ (result = JOB_DONE ∧ j_type jb = JOB_RESTART) →
  (∀ k kb r, goes j result recursive st k r → heap st !! k = Some kb →
     triggers_leave_jobs (j_unit kb) ∧ (r ∈ [JOB_TIMEOUT; JOB_DEPENDENCY] → unit_dependencies (j_unit kb) UNIT_ATOM_ON_FAILURE = [])) →
  ∃ st', job_finish j result recursive st = Some st' ∧ sys_ok st' ∧
    ∀ k, is_Some (heap st' !! k) ↔ is_Some (heap st !! k) ∧ ∀ r, ¬ goes j result recursive st k r.
Proof.
  intros Hok Hfew Hj Hi Hnr Hq. apply (finish_frees set_off j jb); try done. intros k kb r Hg Hk.
  destruct (Hq k kb r Hg Hk). by apply set_off_quiet.
Qed.

End OnFailure.

(** ** Witness: the jobs of JobFinish; unit 6 triggers unit 2 *)

Definition off_conf : NotifyConf := {|
  manager_is_reloading := false; sd_event_add_time _ _ := 0; stop_when_unneeded _ := false;
  unit_will_restart _ := false; on_failure_job_mode _ := JOB_REPLACE; on_success_job_mode _ := JOB_FAIL |}.

Definition off_triggers : @JobTriggers ex_rq := {| job_trigger_notify other u st := Some (call (unit_add_to_dbus_queue other) st) |}.

Definition off_deps : list (positive * UnitDependencyAtom * positive) :=
  [(1, UNIT_ATOM_PROPAGATE_START_FAILURE, 2); (2, UNIT_ATOM_PROPAGATE_START_FAILURE, 3); (1, UNIT_ATOM_BEFORE, 4); (2, UNIT_ATOM_TRIGGERED_BY, 6)]%positive.

Definition off_env : Env := ex_env (ex_deps off_deps) (λ _, UNIT_INACTIVE) [].

Lemma no_on_failure u : let E := off_env in unit_dependencies u UNIT_ATOM_ON_FAILURE = [].
Proof.
  destruct (ex_deps off_deps u UNIT_ATOM_ON_FAILURE) as [|v l] eqn:Hl; [exact Hl|].
  assert (Hv : (u, UNIT_ATOM_ON_FAILURE, v) ∈ off_deps) by (apply elem_of_ex_deps; rewrite Hl; by left).
  unfold off_deps in Hv. set_solver.
Qed.

Lemma finish_frees_exactly_witness :
  let E := off_env in let NC := off_conf in let JT := off_triggers in
  ∃ st', job_finish 1 JOB_FAILED true fin_state = Some st' ∧
    ¬ is_Some (heap st' !! 2%positive) ∧ ¬ is_Some (heap st' !! 1%positive).
Proof.
  intros E NC JT. destruct (@finish_frees_exactly ex_rq E NC JT 1 (fin_job 1 JOB_START JOB_RUNNING) JOB_FAILED true fin_state) as (st' & H & _ & Hk).
  - apply sys_ok_check; [|done]. by_decide.
  - by vm_compute.
  - reflexivity.
  - reflexivity.
  - by intros [? _].
  - intros k kb r _ _. split; [intros other st _; by exists [unit_add_to_dbus_queue other]|]. intros _. by apply no_on_failure.
  - exists st'. split; [exact H|]. split.
    + intros [_ Hn]%Hk. apply (Hn JOB_DEPENDENCY). eapply (goes_on 1 JOB_FAILED true fin_state 1); [constructor|reflexivity|reflexivity| |reflexivity|reflexivity|by_decide|done].
      apply passes_start; [by_decide|done|by_decide].
    + intros [_ Hn]%Hk. apply (Hn JOB_FAILED). constructor.
Defined.

(** Unit 1 times out and its job takes those of 2 and 3 along: the OnFailure= unit of 2, which is 6, gets a start job. *)
Definition rescue_env : Env := ex_env (ex_deps ((2, UNIT_ATOM_ON_FAILURE, 6)%positive :: off_deps)) (λ _, UNIT_INACTIVE) [1; 2; 3; 4; 5; 6]%positive.

Example on_failure_is_started :
  let E := rescue_env in let NC := off_conf in let JT := off_triggers in
  (λ st, (λ i, (i.1, j_unit i.2, j_type i.2)) <$> map_to_list (heap st)) <$> job_finish 1 JOB_TIMEOUT true fin_state =
  Some [(5, 5, JOB_RESTART); (6, 6, JOB_START); (4, 4, JOB_START)]%positive.
Proof. vm_compute. reflexivity. Qed.
