(* ===== verification/UnitTrigger.v ===== *)
(** * A change of state with the units it triggers (src/core/unit.c)

    A unit that is triggered by another one, such as the service of a socket, tells that unit of each
    of its changes: [unit_trigger_notify] calls an operation of the type of the triggering unit, in
    the middle of [unit_notify]. The operation may change the state of its own unit and report that with
    [unit_notify] in turn, which tells the units that trigger it. Here [unit_notify] is put together
    with these calls, for the states of all units. Of an operation, its changes of state are a
    parameter; its work outside of the manager (sockets, mounts, timers) is not modelled. *)

From S2P Require Import Prelude JobType Prioq RunQueue JobData TrDelete TrFix TrOrder TrMerge TrBuild JobOps JobFinish JobInstall TrApply TrActivate AddJob JobRun RateLimit UnitDep UnitDeps UnitDepsOps UnitNotify.

(** The settings and states of units, and what changes. *)
Notation UWorld := (Env * Units)%type.

(** [vtable_trigger_notify other u w]: the states that the [trigger_notify] operation of the type of
    [other] puts it in when it is told of [u], one after the other, each some time after the one before.
    It is empty for a type without the operation. *)
Class TriggerTypes {RQ : RunQueue} := {
  vtable_trigger_notify : positive → positive → UWorld → list (N * UnitActiveState) }.

(** ** The states of the units *)

Definition with_states (f : positive → UnitActiveState) (E : Env) : Env := {|
  unit_active_state := f;
  unit_dependencies := unit_dependencies; unit_following_set := unit_following_set; ignore_on_isolate := ignore_on_isolate;
  allow_isolate := allow_isolate; perpetual := perpetual; unit_can_start := unit_can_start; unit_can_stop := unit_can_stop;
  unit_can_reload := unit_can_reload; gc_jobs := gc_jobs; load_error := load_error;
  manager_unit_cache_should_retry_load := manager_unit_cache_should_retry_load; unit_load := unit_load; bus_referenced := bus_referenced;
  rq_alloc_ok := rq_alloc_ok; units := units; iter := iter; iter_perm := iter_perm; iter_ids := iter_ids; iter_ids_perm := iter_ids_perm |}.

Definition set_unit_state (u : positive) (s : UnitActiveState) (E : Env) : Env :=
  with_states (λ v, if decide (v = u) then s else unit_active_state v) E.

Section Trigger.
Context {RQ : RunQueue} {NC : NotifyConf} {TT : TriggerTypes}.
Implicit Types (E : Env) (n : @Units RQ) (w : UWorld) (u v other : positive) (s : UnitActiveState).

(** ** The code *)

(** A change of state as the unit types make it: the new state is set and reported. *)
Definition set_state (notify : Z → positive → UnitActiveState → UnitActiveState → UWorld → option (Z * UWorld))
    (now : Z) (other : positive) (s : UnitActiveState) w : option (Z * UWorld) :=
  notify now other (@unit_active_state w.1 other) s (set_unit_state other s w.1, w.2).

Fixpoint set_states notify (now : Z) (other : positive) (changes : list (N * UnitActiveState)) w : option (Z * UWorld) :=
  match changes with
  | [] => Some (now, w)
  | (later, s) :: changes =>
      '(now, w) ← set_state notify (now + Z.of_N later) other s w;
      set_states notify now other changes w
  end.

Fixpoint trigger_each notify (now : Z) (u : positive) (us : list positive) w : option (Z * UWorld) :=
  match us with
  | [] => Some (now, w)
  | other :: us =>
      '(now, w) ← set_states notify now other (vtable_trigger_notify other u w) w;
      trigger_each notify now u us w
  end.

Definition trigger_notify notify (now : Z) (u : positive) w : option (Z * UWorld) :=
  trigger_each notify now u (@unit_dependencies w.1 u UNIT_ATOM_TRIGGERED_BY) w.

(** [unit_notify] with what the triggering units make of it; also returned is the time at the end. The units
    that are told change their states without flags. *)
Fixpoint unit_notify_triggers (fuel : nat) (flags : UnitNotifyFlags) (now : Z) (u : positive) (os ns : UnitActiveState) w : option (Z * UWorld) :=
  match fuel with
  | O => None
  | S fuel =>
      let '(E, n) := w in
      n ← notify_before now u os ns flags n;
      '(now, (E, n)) ← trigger_notify (unit_notify_triggers fuel (NotifyFlags false false)) now u (E, n);
      Some (now, (E, @notify_after RQ E NC u os ns n))
  end.

(** ** Well-formed systems *)

Definition well_formed E : Prop := @settings_known E NC ∧ @deps_closed E ∧ @capacity E.

(** What the manager knows of the units agrees with their states. *)
Record tracked (now : Z) (state : positive → UnitActiveState) E n : Prop := {
  tr_failed u : u ∈ @units E → u ∈ failed_units n ↔ state u = UNIT_FAILED;
  tr_stamps u : manager_is_reloading = false → u ∈ @units E → stamps_ok (state u) (runtime n u) ∧ state_change_timestamp (runtime n u) <= now;
}.

Lemma tracked_later now now' state E n : now <= now' → tracked now state E n → tracked now' state E n.
Proof. intros Hle [Hf Hs]. split; [done|]. intros u Hr Hu. destruct (Hs u Hr Hu). split; [done|lia]. Qed.

(** Only units in [C] differ in their state or their record. *)
Definition changes_only (C : positive → Prop) (state state' : positive → UnitActiveState) n n' : Prop :=
  ∀ v, ¬ C v → state' v = state v ∧ runtime n' v = runtime n v ∧ (v ∈ failed_units n' ↔ v ∈ failed_units n).

Lemma changes_only_trans (C : positive → Prop) f1 f2 f3 n1 n2 n3 :
  changes_only C f1 f2 n1 n2 → changes_only C f2 f3 n2 n3 → changes_only C f1 f3 n1 n3.
Proof. intros H1 H2 v Hv. destruct (H1 v Hv) as (A1 & A2 & A3), (H2 v Hv) as (B1 & B2 & B3). split_and!; [congruence..|]. by rewrite B3. Qed.

Lemma changes_only_mono (C C' : positive → Prop) f1 f2 n1 n2 : (∀ v, C v → C' v) → changes_only C f1 f2 n1 n2 → changes_only C' f1 f2 n1 n2.
Proof. intros HC H v Hv. apply H. auto. Qed.

(** ** Notifications *)

Section Fixed.
Context (E : Env) (wf : well_formed E).

(** [v] triggers [u]. *)
Definition triggers v u : Prop := v ∈ @unit_dependencies E u UNIT_ATOM_TRIGGERED_BY.

(** The units that a change of [u] may reach. *)
Definition told u v : Prop := tc (λ x y, triggers y x) u v.

Definition at_states (f : positive → UnitActiveState) n : Prop := @tidy RQ (with_states f E) n.

Lemma notify_after_keeps f u os ns n now :
  f u = ns → at_states f n → tracked now f E n →
  let n' := @notify_after RQ (with_states f E) NC u os ns n in at_states f n' ∧ tracked now f E n' ∧ runtime n' = runtime n ∧ failed_units n' = failed_units n.
Proof.
  intros Hf Hn [T1 T2]. destruct wf as (Hk & Hd & Hc). destruct (@notify_after_spec RQ (with_states f E) NC Hk u os ns n Hf) as (Ht & [A1 A2 _ _ _] & _).
  split_and!; [by apply Ht| |done..]. split; rewrite ?A1, ?A2; done.
Qed.

Lemma notify_before_keeps f u os ns flags n now :
  f u = ns → u ∈ @units E → at_states f n → tracked now (λ v, if decide (v = u) then os else f v) E n →
  ∃ n', @notify_before RQ (with_states f E) NC now u os ns flags n = Some n' ∧ at_states f n' ∧ tracked now f E n' ∧
    (UNIT_IS_INACTIVE_OR_FAILED ns = true → Z.land (markers (runtime n' u)) 3 = 0) ∧
    (∀ v, v ≠ u → runtime n' v = runtime n v ∧ (v ∈ failed_units n' ↔ v ∈ failed_units n)).
Proof.
  intros Hf Hu Hn [T1 T2]. destruct wf as (Hk & Hd & Hc).
  destruct (@notify_before_spec RQ (with_states f E) NC Hk Hd Hc now u os ns flags n Hn Hu Hf) as (n1 & n' & H & Hn' & (F & R & S & M & _) & _ & [A1 A2 _ _ _]).
  assert (HF : ∀ v, v ≠ u → v ∈ failed_units n' ↔ v ∈ failed_units n) by (intros v Hv; rewrite A2, F; case_bool_decide; set_solver).
  exists n'. split_and!; [done..| |by rewrite A1|intros v Hv; split; [rewrite A1; auto|auto]]. split.
  - intros v Hv. destruct (decide (v = u)) as [->|Hne].
    + rewrite A2, F, Hf. case_bool_decide; set_solver.
    + rewrite HF, T1 by done. by rewrite decide_False.
  - intros v Hr Hv. rewrite A1. specialize (T2 v Hr Hv). cbn beta in T2. destruct (decide (v = u)) as [->|Hne].
    + destruct T2 as [S1 S2], (S Hr S1 S2) as [S3 ->]. by rewrite Hf.
    + by rewrite R.
Qed.

(** What a notification leaves: [C] are the units it may have changed, [P] holds of the states at the end. *)
Definition keeps (C : positive → Prop) (P : (positive → UnitActiveState) → Prop) (now : Z) f n (o : option (Z * UWorld)) : Prop :=
  ∃ now' f' n', o = Some (now', (with_states f' E, n')) ∧ now <= now' ∧ at_states f' n' ∧ tracked now' f' E n' ∧ changes_only C f f' n n' ∧ P f'.

Definition notifies (C : positive → Prop) notify (other : positive) : Prop := ∀ now os f n,
  at_states f n → tracked now (λ v, if decide (v = other) then os else f v) E n →
  keeps C (λ f', f' other = f other) now f n (notify now other os (f other) (with_states f E, n)).

Lemma set_state_keeps C notify other : notifies C notify other → C other → ∀ now later s f n,
  0 <= later → at_states f n → tracked now f E n →
  keeps C (λ f', f' other = s) now f n (set_state notify (now + later) other s (with_states f E, n)).
Proof.
  intros Hnot HC now later s f n Hl Hn Ht. set (f' := λ v, if decide (v = other) then s else f v).
  assert (f' other = s) as Hs by (unfold f'; by rewrite decide_True).
  destruct (Hnot (now + later) (f other) f' n) as (now' & f2 & n' & H & Hle & Hn' & Ht' & Hch & Hf).
  - by destruct Hn.
  - apply (tracked_later now (now + later)) in Ht; [|lia]. destruct Ht as [T1 T2].
    assert (Hv : ∀ v, (if decide (v = other) then f other else f' v) = f v) by (intros v; case_decide as Hv; [by rewrite Hv|unfold f'; by rewrite decide_False]).
    split; intros; rewrite Hv; auto.
  - exists now', f2, n'. rewrite Hs in H, Hf. split_and!; [exact H|lia|done..| |done].
    intros v Hv. destruct (Hch v Hv) as (H1 & H2 & H3). split_and!; [|done..]. rewrite H1. unfold f'. rewrite decide_False; [done|]. by intros ->.
Qed.

Lemma keeps_bind C (P : (positive → UnitActiveState) → Prop) now f n now1 f1 n1 o :
  now <= now1 → changes_only C f f1 n n1 → keeps C P now1 f1 n1 o → keeps C P now f n o.
Proof.
  intros Hle Hch (now' & f' & n' & -> & Hle' & Hn & Ht & Hch' & Hp). exists now', f', n'. split_and!; [done|lia|done..| |done].
  by eapply changes_only_trans.
Qed.

Lemma keeps_ret C (P : (positive → UnitActiveState) → Prop) now f n : at_states f n → tracked now f E n → P f → keeps C P now f n (Some (now, (with_states f E, n))).
Proof. intros. exists now, f, n. split_and!; [done|lia|done..]. Qed.

Lemma keeps_mono C (P Q : (positive → UnitActiveState) → Prop) now f n o :
  (∀ f', P f' → Q f') → keeps C P now f n o → keeps C Q now f n o.
Proof. intros H (now' & f' & n' & Ho & Hle & Hn & Ht & Hch & Hp). exists now', f', n'. split_and!; auto. Qed.

(** The state that a list of changes ends at. *)
Definition ends_at (s : UnitActiveState) (changes : list (N * UnitActiveState)) : UnitActiveState := default s (snd <$> last changes).

Lemma set_states_keeps C notify other changes : notifies C notify other → C other → ∀ now f n,
  at_states f n → tracked now f E n →
  keeps C (λ f', f' other = ends_at (f other) changes) now f n (set_states notify now other changes (with_states f E, n)).
Proof.
  intros Hnot HC. induction changes as [|[later s] changes IH]; intros now f n Hn Ht; cbn [set_states]; [by apply keeps_ret|].
  destruct (set_state_keeps C notify other Hnot HC now (Z.of_N later) s f n) as (now1 & f1 & n1 & -> & Hle & Hn1 & Ht1 & Hch & Hf1); [lia|done..|].
  cbn [mbind option_bind]. eapply keeps_bind; [done..|]. eapply keeps_mono; [|by apply IH].
  intros f' ->. rewrite Hf1. unfold ends_at. rewrite last_cons. by destruct (last changes) as [[]|].
Qed.

(** The last unit of the list was told when [u] was in the state [s], and did what its type does then. *)
Definition last_told (u : positive) (s : UnitActiveState) (us : list positive) (f' : positive → UnitActiveState) : Prop :=
  ∀ other, last us = Some other → ∃ f n, f u = s ∧ f' other = ends_at (f other) (vtable_trigger_notify other u (with_states f E, n)).

Lemma trigger_each_keeps C notify u us : (∀ other, other ∈ us → notifies C notify other ∧ C other) → ¬ C u → ∀ now f n,
  at_states f n → tracked now f E n → keeps C (last_told u (f u) us) now f n (trigger_each notify now u us (with_states f E, n)).
Proof.
  intros Hus Hu. induction us as [|other us IH]; intros now f n Hn Ht; cbn [trigger_each]; [by apply keeps_ret|].
  destruct (Hus other) as [Hnot HC]; [by left|].
  destruct (set_states_keeps C notify other (vtable_trigger_notify other u (with_states f E, n)) Hnot HC now f n) as (now1 & f1 & n1 & -> & Hle & Hn1 & Ht1 & Hch & Hf1); [done..|].
  cbn [mbind option_bind]. eapply keeps_bind; [done..|]. assert (HuF : f1 u = f u) by by apply Hch.
  destruct us as [|v us].
  - apply keeps_ret; [done..|]. intros ? [= <-]. by exists f, n.
  - eapply keeps_mono; [|apply IH; [|done..]]; [|intros x Hx; apply Hus; by right].
    intros f' H x Hx. rewrite <- HuF. by apply H.
Qed.

(** The triggering has no cycle, along which a change would be told for ever. *)
Context (rank : positive → nat) (acyclic : ∀ u v, triggers v u → (rank v < rank u)%nat).

Lemma told_rank u v : told u v → (rank v < rank u)%nat.
Proof. induction 1 as [x y H|x y z H _ IH]; apply acyclic in H; lia. Qed.

Lemma notify_triggers_keeps fuel : ∀ flags u now os f n,
  (rank u < fuel)%nat → u ∈ @units E → at_states f n → tracked now (λ v, if decide (v = u) then os else f v) E n →
  ∃ now' f' n', unit_notify_triggers fuel flags now u os (f u) (with_states f E, n) = Some (now', (with_states f' E, n')) ∧
    now <= now' ∧ at_states f' n' ∧ tracked now' f' E n' ∧ changes_only (λ v, v = u ∨ told u v) f f' n n' ∧ f' u = f u ∧
    last_told u (f u) (@unit_dependencies E u UNIT_ATOM_TRIGGERED_BY) f' ∧
    (UNIT_IS_INACTIVE_OR_FAILED (f u) = true → Z.land (markers (runtime n' u)) 3 = 0).
Proof.
  induction fuel as [|fuel IH]; intros flags u now os f n Hr Hu Hn Ht; [lia|]. cbn [unit_notify_triggers].
  destruct (notify_before_keeps f u os (f u) flags n now eq_refl Hu Hn Ht) as (n1 & -> & Hn1 & Ht1 & Hm & Hch1). cbn [mbind option_bind]. unfold trigger_notify.
  destruct (trigger_each_keeps (told u) (unit_notify_triggers fuel (NotifyFlags false false)) u (@unit_dependencies E u UNIT_ATOM_TRIGGERED_BY)) with (now := now) (f := f) (n := n1)
    as (now2 & f2 & n2 & H2 & Hle & Hn2 & Ht2 & Hch2 & Hlast); [|intros Hx%told_rank; lia|done..|].
  { intros v Hv. assert (told u v) by by apply tc_once. split; [|done]. intros now' os' f' n' Hn' Ht'.
    assert (Hrk := acyclic u v Hv). destruct wf as (_ & Hd & _). destruct (IH (NotifyFlags false false) v now' os' f' n') as (now3 & f3 & n3 & H3 & Hle & Hn3 & Ht3 & Hch3 & Hf3 & _); [lia| |done..|].
    { apply (Hd u v Hu). left. by eexists. }
    exists now3, f3, n3. split_and!; [done..| |done]. eapply changes_only_mono; [|exact Hch3]. intros x [->|Hx]; [done|]. by eapply tc_l. }
  change (@unit_dependencies (with_states f E, n1).1 u) with (@unit_dependencies E u). rewrite H2. cbn [mbind option_bind].
  assert (Hself : ¬ told u u) by (intros Hx%told_rank; lia). destruct (Hch2 u Hself) as (U1 & U2 & _).
  destruct (notify_after_keeps f2 u os (f u) n2 now2 U1 Hn2 Ht2) as (Hn3 & Ht3 & R3 & F3).
  eexists now2, f2, _. split_and!; [done..| |done|done|by rewrite R3, U2]. rewrite <- R3 in U2. intros v Hv. rewrite R3, F3.
  destruct (Hch2 v) as (V1 & V2 & V3); [tauto|]. destruct (Hch1 v) as (W1 & W2); [tauto|]. split_and!; [done|congruence|]. by rewrite V3.
Qed.
End Fixed.

(** ** The property *)

(** C13: a unit's change of state, with those of the units that it triggers the change of. [u] has
    changed from [os] to [ns] and reports it; otherwise the manager's records (which units have
    failed, and the timestamps) agree with the states of all units, and the triggering between
    units has no cycle. Whatever states the operations of the unit types put the triggering units in
    on the way, directly or because such a unit triggers a change of a further one, at the end the records
    agree with the states of all units, those of the changed ones included, and the unit that is told last is where its operation puts it; jobs and
    queues keep their invariants and no assertion fails. [u] itself is in the state that it reported, without
    markers if it is down; of the others, only units that trigger [u], or one of those, have
    changed their state or their record. That jobs which end on the way notify triggering units and start
    OnFailure= units too is here only recorded (JobOnFailure.v). *)
Theorem unit_notify_keeps_invariants E n (rank : positive → nat) (fuel : nat) (now : Z) (u : positive) (os ns : UnitActiveState) (flags : UnitNotifyFlags) :
  well_formed E → (∀ v x, triggers E x v → (rank x < rank v)%nat) → (rank u < fuel)%nat →
  @tidy RQ E n → u ∈ @units E → @unit_active_state E u = ns →
  tracked now (λ v, if decide (v = u) then os else @unit_active_state E v) E n →
  ∃ now' f n', unit_notify_triggers fuel flags now u os ns (E, n) = Some (now', (with_states f E, n')) ∧ now <= now' ∧
    @tidy RQ (with_states f E) n' ∧
    (∀ v, v ∈ @units E → v ∈ failed_units n' ↔ f v = UNIT_FAILED) ∧
    (manager_is_reloading = false → ∀ v, v ∈ @units E → stamps_ok (f v) (runtime n' v) ∧ state_change_timestamp (runtime n' v) <= now') ∧
    last_told E u ns (@unit_dependencies E u UNIT_ATOM_TRIGGERED_BY) f ∧
    f u = ns ∧ (UNIT_IS_INACTIVE_OR_FAILED ns = true → Z.land (markers (runtime n' u)) 3 = 0) ∧
    ∀ v, v ≠ u → ¬ told E u v → f v = @unit_active_state E v ∧ runtime n' v = runtime n v ∧ (v ∈ failed_units n' ↔ v ∈ failed_units n).
Proof.
  intros Hw Hac Hr Hn Hu <- Ht. assert (HE : E = with_states (@unit_active_state E) E) by by destruct E.
  destruct (notify_triggers_keeps E Hw rank Hac fuel flags u now os (@unit_active_state E) n Hr Hu) as (now' & f & n' & H & Hle & Hn' & [T1 T2] & Hch & Hf & Hl & Hm);
    [unfold at_states; by rewrite <- HE|done|]. rewrite <- HE in H. exists now', f, n'. split_and!; [done..|auto|done|done|done|].
  intros v Hv Htold. apply Hch. tauto.
Qed.

End Trigger.

(** ** Witness: unit 3 triggers unit 1, and follows it down *)

Definition trig_env : Env :=
  ex_env (λ u a, if decide (u = 1%positive ∧ a = UNIT_ATOM_TRIGGERED_BY) then [3%positive] else [])
    (λ u, if decide (u = 1%positive) then UNIT_FAILED else UNIT_ACTIVE) [1; 2; 3]%positive.

Definition trig_types : @TriggerTypes ex_rq := {|
  vtable_trigger_notify other u w :=
    if UNIT_IS_INACTIVE_OR_FAILED (@unit_active_state w.1 u) then [(5%N, UNIT_DEACTIVATING); (7%N, UNIT_FAILED)] else [] |}.

Lemma trig_well_formed : well_formed (NC := bound_conf) trig_env.
Proof.
  split_and!; [| |by vm_compute].
  - intros u Hu. split; [done|]. intros a. cbn. rewrite decide_False; [done|]. intros [-> _]. apply Hu. by_decide.
  - intros u v Hu [[a Hv]|Hv]; [|by apply not_elem_of_nil in Hv]. cbn in Hv. case_decide; [|by apply not_elem_of_nil in Hv].
    apply list_elem_of_singleton in Hv as ->. by_decide.
Qed.

Definition trig_runtime (u : positive) : UnitRuntime :=
  let r := new_runtime in if decide (u = 1%positive) then r else MkRuntime 1 1 1 0 0 0 (auto_start_stop_ratelimit r) None 0 false 0 false None.

Definition trig_units : @Units ex_rq := @MkUnits ex_rq start_state trig_runtime ∅ [] [] [].

Lemma trig_told u v : told trig_env u v → v = 3%positive.
Proof. induction 1 as [x y H|x y z _ _ IH]; [|done]. unfold triggers in H. cbn in H. case_decide; set_solver. Qed.

Lemma trig_tracked : tracked (NC := bound_conf) 100 (λ v, if decide (v = 1%positive) then UNIT_ACTIVATING else @unit_active_state trig_env v) trig_env trig_units.
Proof.
  split.
  - intros v _. split; [by intros ?%not_elem_of_empty|]. repeat case_decide; cbn; repeat case_decide; done.
  - intros v _ _. cbn. unfold trig_runtime. repeat case_decide; cbn; split; (done || (split; cbn; lia) || lia || idtac).
Qed.

Lemma unit_notify_keeps_invariants_witness :
  let NC := bound_conf in let TT := trig_types in
  ∃ now' f n', unit_notify_triggers 2 (NotifyFlags false false) 100 1 UNIT_ACTIVATING UNIT_FAILED (trig_env, trig_units) = Some (now', (with_states f trig_env, n')) ∧
    (3%positive ∈ failed_units n' ↔ f 3%positive = UNIT_FAILED) ∧ f 2%positive = UNIT_ACTIVE.
Proof.
  intros NC TT.
  destruct (unit_notify_keeps_invariants trig_env trig_units (λ u, if decide (u = 1%positive) then 1%nat else 0%nat) 2 100 1 UNIT_ACTIVATING UNIT_FAILED (NotifyFlags false false))
    as (now' & f & n' & H & _ & _ & Hf & _ & _ & _ & _ & Ho).
  - exact trig_well_formed.
  - intros v x Hx. unfold triggers in Hx. cbn in Hx. repeat case_decide; (lia || set_solver).
  - apply (bool_decide_eq_true_1 _). reflexivity.
  - destruct start_units_tidy as [? Hk ? ? ?]. by split.
  - by_decide.
  - reflexivity.
  - exact trig_tracked.
  - exists now', f, n'. split_and!; [exact H|apply Hf; by_decide|]. destruct (Ho 2%positive) as [-> _]; [done| |reflexivity].
    intros Ht%trig_told. discriminate.
Defined.

(** Unit 3 ends as failed, 12 later. *)
Example trigger_follows :
  option_map (λ o, (o.1, @unit_active_state o.2.1 3%positive, elements (failed_units o.2.2))) (unit_notify_triggers (NC := bound_conf) (TT := trig_types) 2 (NotifyFlags false false) 100 1 UNIT_ACTIVATING UNIT_FAILED (trig_env, trig_units)) =
  Some (112, UNIT_FAILED, [3; 1]%positive).
Proof. vm_compute. reflexivity. Qed.
