(* ===== verification/UnitQueues.v ===== *)
(** * Dispatching the queues of units (src/core/manager.c)

    The manager takes units off three queues and requests a job for each one that still is not in the
    state it should be in. A request can end jobs and so put units back on the queues; a rate limit
    per unit ends this: what it refuses is tried again when a timer elapses. The theorems: a dispatch
    comes to an end, and a unit that is refused is not forgotten. *)

From S2P Require Import Prelude JobType Prioq RunQueue JobData TrDelete TrFix TrOrder TrMerge TrBuild JobOps JobFinish JobInstall TrApply TrActivate AddJob JobRun RateLimit UnitDep UnitDeps UnitDepsOps UnitNotify.

Definition USEC_PER_SEC : Z := 1000000.

(** [auto_start_stop_ratelimit] of a new unit *)
Definition new_ratelimit : RateLimit := MkRateLimit (10 * USEC_PER_SEC) 16 0 0.

Section Queues.
Context {RQ : RunQueue} {E : Env} {NC : NotifyConf}.
Implicit Types (st : State) (u v j : positive) (n : Units).

(** ** The code *)

(** The callback of the timer. *)
Definition manager_ratelimit_requeue (u : positive) (n : Units) : Units :=
  submit_all u (alter_runtime u (set_event_source None) n).

Definition manager_ratelimit_check_and_queue (now : Z) (u : positive) (n : Units) : Z * Units :=
  let '(below, rl) := ratelimit_below now (auto_start_stop_ratelimit (runtime n u)) in
  let n := alter_runtime u (set_ratelimit rl) n in
  if below then (1, n)
  else if bool_decide (is_Some (auto_start_stop_event_source (runtime n u))) then (0, n)
  else
    let t := ratelimit_end (auto_start_stop_ratelimit (runtime n u)) in
    let r := sd_event_add_time u t in
    if r <? 0 then (r, n) else (0, alter_runtime u (set_event_source (Some t)) n).

(** The three loops differ in the queue, in the test and in the job they request. [clock] gives the
    time at which iteration [k] asks for it. *)
Fixpoint dispatch_queue (queue : Units → list positive) (set_queue : list positive → Units → Units) (test : positive → Units → bool)
    (type : JobType) (mode : JobMode) (clock : nat → Z) (fuel : nat) (k : nat) (n : Units) : option (nat * Units) :=
  match queue n with
  | [] => Some (k, n)
  | u :: us =>
      match fuel with
      | O => None
      | S fuel =>
          let n := set_queue us n in
          if negb (test u n) then dispatch_queue queue set_queue test type mode clock fuel (S k) n
          else
            let '(r, n) := manager_ratelimit_check_and_queue (clock k) u n in
            if r <=? 0 then dispatch_queue queue set_queue test type mode clock fuel (S k) n
            else n ← request type mode u n; dispatch_queue queue set_queue test type mode clock fuel (S k) n
      end
  end.

Definition manager_dispatch_stop_when_unneeded_queue (clock : nat → Z) (fuel : nat) (n : Units) : option (nat * Units) :=
  dispatch_queue stop_when_unneeded_queue set_unneeded unit_is_unneeded JOB_STOP JOB_FAIL clock fuel 0 n.
Definition manager_dispatch_start_when_upheld_queue (clock : nat → Z) (fuel : nat) (n : Units) : option (nat * Units) :=
  dispatch_queue start_when_upheld_queue set_upheld (λ u n, bool_decide (is_Some (unit_is_upheld_by_active u n))) JOB_START JOB_FAIL clock fuel 0 n.
Definition manager_dispatch_stop_when_bound_queue (clock : nat → Z) (fuel : nat) (n : Units) : option (nat * Units) :=
  dispatch_queue stop_when_bound_queue set_bound (λ u n, bool_decide (is_Some (unit_is_bound_by_inactive u n))) JOB_STOP JOB_REPLACE clock fuel 0 n.


(** ** One iteration *)

(** What the loops need of a queue. *)
Record queue_laws (queue : Units → list positive) (set_queue : list positive → Units → Units) : Prop := {
  ql_set us n : queue (set_queue us n) = us;
  ql_runtime us n : runtime (set_queue us n) = runtime n;
  ql_tidy n : tidy n → queue_tidy (queue n);
  ql_pop u us n : tidy n → queue n = u :: us → tidy (set_queue us n);
  ql_alter u f n : queue (alter_runtime u f n) = queue n;
}.

Lemma pop_tidy u us : queue_tidy (u :: us) → queue_tidy us.
Proof. intros [[? ?]%NoDup_cons Hq]. split; [done|]. intros v Hv. by apply Hq, list_elem_of_further. Qed.

Lemma unneeded_laws : queue_laws stop_when_unneeded_queue set_unneeded.
Proof. split; try done; [by intros n []|]. intros u us n [] Hq. split; try done. apply (pop_tidy u us). by rewrite <- Hq. Qed.
Lemma upheld_laws : queue_laws start_when_upheld_queue set_upheld.
Proof. split; try done; [by intros n []|]. intros u us n [] Hq. split; try done. apply (pop_tidy u us). by rewrite <- Hq. Qed.
Lemma bound_laws : queue_laws stop_when_bound_queue set_bound.
Proof. split; try done; [by intros n []|]. intros u us n [] Hq. split; try done. apply (pop_tidy u us). by rewrite <- Hq. Qed.

Lemma tidy_length q : queue_tidy q → (length q <= length units)%nat.
Proof. intros [Hnd Hq]. by apply submseteq_length, NoDup_submseteq. Qed.

(** The limits are those that units are created with, and can count [k] more calls. *)
Definition limit_ok (k : nat) (rl : RateLimit) : Prop :=
  interval rl = 10 * USEC_PER_SEC ∧ burst rl = 16 ∧ 0 <= num rl ∧ num rl + Z.of_nat k < 2 ^ 32.
Definition limits_ok (k : nat) n : Prop := ∀ u, u ∈ units → limit_ok k (auto_start_stop_ratelimit (runtime n u)).

Lemma limit_configured k rl : limit_ok k rl → ratelimit_configured rl = true.
Proof. intros (Hi & Hb & _). unfold ratelimit_configured. by rewrite Hi, Hb. Qed.

Lemma limit_fewer k k' rl : (k' <= k)%nat → limit_ok k rl → limit_ok k' rl.
Proof. intros Hk (? & ? & ? & ?). split_and!; (done || lia). Qed.

(** How many requests the limits can let through from time [s] on. *)
Definition allowance (s : Z) (f : positive → UnitRuntime) (us : list positive) : nat :=
  sum_list_with (λ u, Z.to_nat (passes_left s (auto_start_stop_ratelimit (f u)))) us.

Lemma allowance_le s f g us :
  (∀ u, passes_left s (auto_start_stop_ratelimit (g u)) <= passes_left s (auto_start_stop_ratelimit (f u))) → (allowance s g us <= allowance s f us)%nat.
Proof. intros Hle. induction us as [|u us IH]; [done|]. cbn. specialize (Hle u). unfold allowance in IH. lia. Qed.

Lemma allowance_lt s f g us u :
  (∀ u, passes_left s (auto_start_stop_ratelimit (g u)) <= passes_left s (auto_start_stop_ratelimit (f u))) → u ∈ us →
  0 <= passes_left s (auto_start_stop_ratelimit (g u)) < passes_left s (auto_start_stop_ratelimit (f u)) → (allowance s g us < allowance s f us)%nat.
Proof.
  intros Hle Hu Hlt. induction us as [|v us IH]; [by apply not_elem_of_nil in Hu|]. apply elem_of_cons in Hu. cbn.
  pose proof (allowance_le s f g us Hle) as Hrest. unfold allowance in *. destruct Hu as [<-|Hu]; [lia|]. specialize (IH Hu). specialize (Hle v). lia.
Qed.

Lemma allowance_bound s k n us : (∀ u, u ∈ us → limit_ok k (auto_start_stop_ratelimit (runtime n u))) → (allowance s (runtime n) us <= 32 * length us)%nat.
Proof.
  induction us as [|u us IH]; intros Hl; [done|]. unfold allowance in *. cbn [sum_list_with length]. pose proof (Hl u (list_elem_of_here _ _)) as Hu.
  specialize (IH (λ v Hv, Hl v (list_elem_of_further _ _ _ Hv))). destruct (passes_left_bounds s _ (limit_configured _ _ Hu)); [apply Hu|]. destruct Hu as (_ & Hb & _). rewrite Hb in *. lia.
Qed.

(** The limit is asked: an allowance is used up or the answer is no. *)
Lemma check_and_queue_spec s t k u n :
  tidy n → u ∈ units → limits_ok (S k) n → 0 < s → s + 10 * USEC_PER_SEC < USEC_INFINITY → s <= t <= s + 10 * USEC_PER_SEC →
  ∃ r n', manager_ratelimit_check_and_queue t u n = (r, n') ∧ tidy n' ∧ limits_ok k n' ∧
    (∀ Q S, queue_laws Q S → Q n' = Q n) ∧
    (allowance s (runtime n') units + (if (0 <? r)%Z then 1 else 0) <= allowance s (runtime n) units)%nat.
Proof.
  intros Hn Hu Hl Hs He Ht. pose proof (Hl u Hu) as Hlu. pose proof (limit_configured _ _ Hlu) as Hc. destruct Hlu as (Hi & Hb & H0 & Hw).
  destruct (below_passes t s (auto_start_stop_ratelimit (runtime n u)) Hc Hs) as (b & rl & Hbel & Hi' & Hb' & Hn' & Hp); [rewrite Hi; lia..|lia|lia|].
  unfold manager_ratelimit_check_and_queue. rewrite Hbel. set (n1 := alter_runtime u (set_ratelimit rl) n).
  assert (Hsame : ∀ n2 x, n2 = n1 ∨ n2 = alter_runtime u (set_event_source x) n1 →
    tidy n2 ∧ limits_ok k n2 ∧ (∀ Q S, queue_laws Q S → Q n2 = Q n) ∧ auto_start_stop_ratelimit (runtime n2 u) = rl ∧
    ∀ v, v ≠ u → auto_start_stop_ratelimit (runtime n2 v) = auto_start_stop_ratelimit (runtime n v)).
  { intros n2 x Hn2. assert (Hrl : auto_start_stop_ratelimit (runtime n2 u) = rl ∧ ∀ v, v ≠ u → auto_start_stop_ratelimit (runtime n2 v) = auto_start_stop_ratelimit (runtime n v)).
    { destruct Hn2 as [-> | ->]; cbn; (split; [by rewrite !decide_True by done|intros v Hv; by rewrite !decide_False by done]). }
    destruct Hrl as [Hr1 Hr2]. split_and!; [destruct Hn, Hn2 as [-> | ->]; by split| | |done|done].
    - intros v Hv. destruct (decide (v = u)) as [->|Hne]; [rewrite Hr1|rewrite Hr2 by done; apply (limit_fewer (S k)); [lia|by apply Hl]].
      split_and!; (congruence || lia).
    - intros Q S0 HQ. destruct Hn2 as [-> | ->]; unfold n1; by rewrite !(ql_alter _ _ HQ). }
  assert (Hall : ∀ n2 (c : bool), auto_start_stop_ratelimit (runtime n2 u) = rl → (∀ v, v ≠ u → auto_start_stop_ratelimit (runtime n2 v) = auto_start_stop_ratelimit (runtime n v)) →
    (c = true → b = true) → (allowance s (runtime n2) units + (if c then 1 else 0) <= allowance s (runtime n) units)%nat).
  { intros n2 c H1 H2 Hcb. assert (Hle : ∀ v, passes_left s (auto_start_stop_ratelimit (runtime n2 v)) <= passes_left s (auto_start_stop_ratelimit (runtime n v))).
    { intros v. destruct (decide (v = u)) as [->|Hne]; [rewrite H1; destruct b; lia|by rewrite H2]. }
    destruct c; [|pose proof (allowance_le s (runtime n) (runtime n2) units Hle); lia]. rewrite Hcb in Hp by done.
    pose proof (passes_left_bounds s rl) as Hpb. unfold ratelimit_configured in Hpb. rewrite Hi', Hb', Hi, Hb in Hpb. specialize (Hpb eq_refl ltac:(lia)).
    pose proof (allowance_lt s (runtime n) (runtime n2) units u Hle Hu); rewrite H1 in *. lia. }
  destruct b; [|destruct (bool_decide (is_Some _)); [|destruct (sd_event_add_time _ _ <? 0) eqn:Er]].
  - destruct (Hsame n1 None (or_introl eq_refl)) as (? & ? & ? & H1 & H2). eexists _, _. split_and!; [done..|]. by apply (Hall n1 true).
  - destruct (Hsame n1 None (or_introl eq_refl)) as (? & ? & ? & H1 & H2). eexists _, _. split_and!; [done..|]. by apply (Hall n1 false).
  - destruct (Hsame n1 None (or_introl eq_refl)) as (? & ? & ? & H1 & H2). eexists _, _. split_and!; [done..|]. rewrite (proj2 (Z.ltb_ge 0 _)) by lia. by apply (Hall n1 false).
  - match goal with |- context [set_event_source ?x] => destruct (Hsame _ x (or_intror eq_refl)) as (? & ? & ? & H1 & H2) end. eexists _, _. split_and!; [done..|]. by apply (Hall _ false).
Qed.

(** ** Termination *)

Section Termination.
Context (known : settings_known) (closed : deps_closed) (cap : capacity).

(** A loop over a queue ends: an iteration without a request takes a unit off, one with a request
    uses up an allowance and leaves at most all units on the queue. *)
Lemma dispatch_ends queue set_queue test type mode clock s fuel k n :
  queue_laws queue set_queue → tidy n → limits_ok fuel n →
  0 < s → s + 10 * USEC_PER_SEC < USEC_INFINITY → (∀ i, (k <= i < k + fuel)%nat → s <= clock i <= s + 10 * USEC_PER_SEC) →
  (allowance s (runtime n) units * S (length units) + length (queue n) <= fuel)%nat →
  ∃ k' n', dispatch_queue queue set_queue test type mode clock fuel k n = Some (k', n') ∧ queue n' = [] ∧ tidy n' ∧ (k' <= k + fuel)%nat.
Proof.
  intros HQ. revert k n. induction fuel as [|fuel IH]; intros k n Hn Hl Hs He Hck Hf.
  { destruct (queue n) as [|u us] eqn:Eq; [|cbn in Hf; lia]. exists k, n. cbn. rewrite Eq. split_and!; (done || lia). }
  destruct (queue n) as [|u us] eqn:Eq; [exists k, n; cbn; rewrite Eq; split_and!; (done || lia)|].
  cbn [dispatch_queue]. rewrite Eq. pose proof (ql_pop _ _ HQ u us n Hn Eq) as Hn1.
  assert (Hu : u ∈ units) by (apply (ql_tidy _ _ HQ n Hn); rewrite Eq; apply list_elem_of_here).
  assert (Hq1 : queue (set_queue us n) = us) by apply (ql_set _ _ HQ).
  assert (Hr1 : runtime (set_queue us n) = runtime n) by apply (ql_runtime _ _ HQ).
  set (n1 := set_queue us n) in *. cbn [length] in Hf.
  assert (Hck' : ∀ i, (S k <= i < S k + fuel)%nat → s <= clock i <= s + 10 * USEC_PER_SEC) by (intros i Hi; apply Hck; lia).
  assert (Hstep : ∀ n2, tidy n2 → limits_ok fuel n2 →
    (allowance s (runtime n2) units * S (length units) + length (queue n2) <= fuel)%nat →
    ∃ k' n', dispatch_queue queue set_queue test type mode clock fuel (S k) n2 = Some (k', n') ∧ queue n' = [] ∧ tidy n' ∧ (k' <= k + S fuel)%nat).
  { intros n2 Hn2 Hl2 Hm2. destruct (IH (S k) n2 Hn2 Hl2 Hs He Hck' Hm2) as (k' & n' & ? & ? & ? & ?). exists k', n'. split_and!; (done || lia). }
  destruct (test u n1); cbn [negb].
  2: { apply Hstep; [done| |rewrite Hr1, Hq1; lia]. intros v Hv. rewrite Hr1. apply (limit_fewer (S fuel)); [lia|by apply Hl]. }
  destruct (check_and_queue_spec s (clock k) fuel u n1 Hn1 Hu) as (r & n2 & -> & Hn2 & Hl2 & Hq2 & Ha2); [intros v; rewrite Hr1; apply Hl|done..|apply Hck; lia|].
  specialize (Hq2 _ _ HQ). rewrite Hq1 in Hq2. rewrite Hr1 in Ha2. destruct (r <=? 0) eqn:Er.
  { apply Hstep; [done..|]. rewrite Hq2. nia. }
  destruct (request_safe known closed cap type mode u Hu n2 Hn2) as (n3 & -> & Hn3 & Ha3). cbn [mbind option_bind].
  apply Hstep; [done|intros v; rewrite (ad_runtime _ _ Ha3); apply Hl2|]. rewrite (ad_runtime _ _ Ha3).
  pose proof (tidy_length _ (ql_tidy _ _ HQ n3 Hn3)). rewrite (proj2 (Z.ltb_lt 0 r)) in Ha2 by lia. nia.
Qed.

Lemma dispatch_bounded queue set_queue test type mode clock s n :
  queue_laws queue set_queue → let N := (S (32 * length units) * S (length units))%nat in
  tidy n → limits_ok N n → 0 < s → s + 10 * USEC_PER_SEC < USEC_INFINITY → (∀ i, (i < N)%nat → s <= clock i <= s + 10 * USEC_PER_SEC) →
  ∃ k n', dispatch_queue queue set_queue test type mode clock N 0 n = Some (k, n') ∧ queue n' = [] ∧ tidy n' ∧ (k <= N)%nat.
Proof.
  intros HQ N Hn Hl Hs He Hck. destruct (dispatch_ends queue set_queue test type mode clock s N 0 n HQ Hn Hl Hs He) as (k & n' & ? & ? & ? & ?).
  - intros i Hi. apply Hck. lia.
  - pose proof (tidy_length _ (ql_tidy _ _ HQ n Hn)). pose proof (allowance_bound s N n units Hl). unfold N. nia.
  - by exists k, n'.
Qed.

End Termination.

(** ** Retrying *)

Lemma submit_all_spec (known : settings_known) u n :
  let n' := submit_all u n in
  (tidy n → tidy n') ∧ advances n n' ∧
  (stop_when_unneeded u = true → UNIT_IS_ACTIVE_OR_RELOADING (unit_active_state u) = true → u ∈ stop_when_unneeded_queue n') ∧
  (UNIT_IS_INACTIVE_OR_FAILED (unit_active_state u) = true → unit_dependencies u UNIT_ATOM_START_STEADILY ≠ [] → u ∈ start_when_upheld_queue n') ∧
  (UNIT_IS_ACTIVE_OR_RELOADING (unit_active_state u) = true → unit_dependencies u UNIT_ATOM_CANNOT_BE_ACTIVE_WITHOUT ≠ [] → u ∈ stop_when_bound_queue n').
Proof.
  cbn zeta. destruct (submit_all_ok known u n) as [T A]. split_and!; [done..| | |]; unfold submit_all in *.
  all: destruct (submit_unneeded_spec known u n) as (_ & _ & G1); set (n1 := unit_submit_to_stop_when_unneeded_queue u n) in *.
  all: destruct (submit_upheld_spec known u n1) as (_ & A2 & G2); set (n2 := unit_submit_to_start_when_upheld_queue u n1) in *.
  all: destruct (submit_bound_spec known u n2) as (_ & A3 & G3).
  - intros. apply (ad_unneeded _ _ A3), (ad_unneeded _ _ A2). auto.
  - intros. apply (ad_upheld _ _ A3). auto.
  - auto.
Qed.

(** A limit that refuses lets a call through once its window is over. *)
Lemma refused_passes_later now k rl rl' later :
  limit_ok k rl → ratelimit_below now rl = (false, rl') → ratelimit_end rl' < later < USEC_INFINITY → fst (ratelimit_below later rl') = true.
Proof.
  intros Hl Hb Hlater. pose proof (limit_configured _ _ Hl) as Hc. destruct (below_cases now rl Hc) as (b & r' & Hb' & Hi & Hbu & Hcase).
  rewrite Hb in Hb'. injection Hb' as <- <-. destruct Hcase as [(? & _)|(_ & Hbe & _ & Hpos)]; [done|].
  unfold ratelimit_below. rewrite (configured_same _ _ Hi Hbu Hc). cbn [negb].
  unfold ratelimit_end, usec_add in Hlater. destruct Hl as (Hiv & _). rewrite Hi, Hiv, Hbe in *. unfold USEC_PER_SEC in *.
  destruct (begin_ rl =? 0) eqn:E0; [lia|]. destruct (USEC_INFINITY - 10 * 1000000 <? begin_ rl) eqn:E1; [lia|].
  unfold usec_sub_unsigned. destruct (later =? USEC_INFINITY) eqn:E2; [lia|]. destruct (later <? begin_ rl) eqn:E3; [lia|].
  rewrite (proj2 (Z.ltb_lt (10 * 1000000) (later - begin_ rl))) by lia. by rewrite orb_true_r.
Qed.

(** ** The properties *)

(** C17: a dispatch of a queue ends. The requests of a dispatch can end jobs and put units back on the
    queue; but if it takes no longer than the interval of the rate limits, ten seconds, each of
    the three loops empties its queue, without a failed assertion and with the invariants kept,
    after at most (32 |units| + 1) (|units| + 1) iterations. *)
Theorem queue_dispatch_terminates (clock : nat → Z) (s : Z) (n : Units) :
  settings_known → deps_closed → capacity → tidy n →
  let N := (S (32 * length units) * S (length units))%nat in
  limits_ok N n → 0 < s → s + 10 * USEC_PER_SEC < USEC_INFINITY → (∀ i, (i < N)%nat → s <= clock i <= s + 10 * USEC_PER_SEC) →
  (∃ k n', manager_dispatch_stop_when_unneeded_queue clock N n = Some (k, n') ∧ stop_when_unneeded_queue n' = [] ∧ tidy n' ∧ (k <= N)%nat) ∧
  (∃ k n', manager_dispatch_start_when_upheld_queue clock N n = Some (k, n') ∧ start_when_upheld_queue n' = [] ∧ tidy n' ∧ (k <= N)%nat) ∧
  (∃ k n', manager_dispatch_stop_when_bound_queue clock N n = Some (k, n') ∧ stop_when_bound_queue n' = [] ∧ tidy n' ∧ (k <= N)%nat).
Proof.
  intros Hk Hd Hc Hn N Hl Hs He Hck. split_and!.
  - by apply (dispatch_bounded Hk Hd Hc _ _ _ _ _ clock s n unneeded_laws).
  - by apply (dispatch_bounded Hk Hd Hc _ _ _ _ _ clock s n upheld_laws).
  - by apply (dispatch_bounded Hk Hd Hc _ _ _ _ _ clock s n bound_laws).
Qed.

(** C32: a unit that the rate limit refuses is not forgotten. If the event loop takes the timer, one
    is set, for the end of the limit's window if none was; when it elapses the unit is put back on every
    queue whose conditions it meets, and asked at any later time the limit lets it through. *)
Theorem throttled_unit_is_retried (now : Z) (u : positive) (n : Units) :
  settings_known → tidy n → limits_ok 1 n → u ∈ units → 0 <= now < USEC_INFINITY → (∀ t, 0 <= sd_event_add_time u t) →
  let '(r, n1) := manager_ratelimit_check_and_queue now u n in
  tidy n1 ∧ (r <= 0 → ∃ t, auto_start_stop_event_source (runtime n1 u) = Some t ∧
    (auto_start_stop_event_source (runtime n u) = None → t = ratelimit_end (auto_start_stop_ratelimit (runtime n1 u))) ∧
    let n2 := manager_ratelimit_requeue u n1 in
    tidy n2 ∧ auto_start_stop_event_source (runtime n2 u) = None ∧
    (stop_when_unneeded u = true → UNIT_IS_ACTIVE_OR_RELOADING (unit_active_state u) = true → u ∈ stop_when_unneeded_queue n2) ∧
    (UNIT_IS_INACTIVE_OR_FAILED (unit_active_state u) = true → unit_dependencies u UNIT_ATOM_START_STEADILY ≠ [] → u ∈ start_when_upheld_queue n2) ∧
    (UNIT_IS_ACTIVE_OR_RELOADING (unit_active_state u) = true → unit_dependencies u UNIT_ATOM_CANNOT_BE_ACTIVE_WITHOUT ≠ [] → u ∈ stop_when_bound_queue n2) ∧
    (∀ later, ratelimit_end (auto_start_stop_ratelimit (runtime n2 u)) < later < USEC_INFINITY → fst (manager_ratelimit_check_and_queue later u n2) = 1)).
Proof.
  intros Hk Hn Hl Hu Hnow Htimer. unfold manager_ratelimit_check_and_queue.
  destruct (ratelimit_below now (auto_start_stop_ratelimit (runtime n u))) as [below rl] eqn:Eb. set (n1 := alter_runtime u (set_ratelimit rl) n).
  assert (Hn1 : tidy n1) by (destruct Hn; by split). assert (Hrl : auto_start_stop_ratelimit (runtime n1 u) = rl) by (cbn; by rewrite decide_True).
  destruct below; [split; [done|lia]|].
  assert (Hretry : ∀ m t, tidy m → auto_start_stop_ratelimit (runtime m u) = rl → auto_start_stop_event_source (runtime m u) = Some t →
    (auto_start_stop_event_source (runtime n u) = None → t = ratelimit_end rl) →
    ∃ t, auto_start_stop_event_source (runtime m u) = Some t ∧
      (auto_start_stop_event_source (runtime n u) = None → t = ratelimit_end (auto_start_stop_ratelimit (runtime m u))) ∧
      let n2 := manager_ratelimit_requeue u m in
      tidy n2 ∧ auto_start_stop_event_source (runtime n2 u) = None ∧
      (stop_when_unneeded u = true → UNIT_IS_ACTIVE_OR_RELOADING (unit_active_state u) = true → u ∈ stop_when_unneeded_queue n2) ∧
      (UNIT_IS_INACTIVE_OR_FAILED (unit_active_state u) = true → unit_dependencies u UNIT_ATOM_START_STEADILY ≠ [] → u ∈ start_when_upheld_queue n2) ∧
      (UNIT_IS_ACTIVE_OR_RELOADING (unit_active_state u) = true → unit_dependencies u UNIT_ATOM_CANNOT_BE_ACTIVE_WITHOUT ≠ [] → u ∈ stop_when_bound_queue n2) ∧
      (∀ later, ratelimit_end (auto_start_stop_ratelimit (runtime n2 u)) < later < USEC_INFINITY → fst (manager_ratelimit_check_and_queue later u n2) = 1)).
  { intros m t Hm Hmr Hmt Hend. exists t. split; [done|]. split; [by rewrite Hmr|]. cbn zeta. unfold manager_ratelimit_requeue.
    set (m1 := alter_runtime u (set_event_source None) m). destruct (submit_all_spec Hk u m1) as (T & A & G1 & G2 & G3).
    assert (Hru : runtime (submit_all u m1) u = set_event_source None (runtime m u)) by (rewrite (ad_runtime _ _ A); cbn; by rewrite decide_True).
    split_and!; [apply T; destruct Hm; by split|by rewrite Hru|done..|]. intros later. rewrite Hru. cbn [auto_start_stop_ratelimit set_event_source]. rewrite Hmr. intros Hlater.
    unfold manager_ratelimit_check_and_queue. rewrite Hru. cbn [auto_start_stop_ratelimit set_event_source]. rewrite Hmr.
    pose proof (refused_passes_later now 1 _ rl later (Hl u Hu) Eb Hlater) as Hp. destruct (ratelimit_below later rl) as [b ?]. cbn [fst] in Hp. by rewrite Hp. }
  destruct (bool_decide (is_Some (auto_start_stop_event_source (runtime n1 u)))) eqn:Es; [apply bool_decide_eq_true in Es as [t Ht]|apply bool_decide_eq_false in Es].
  - split; [done|]. intros _. apply (Hretry n1 t); [done..|]. cbn in Ht. rewrite decide_True in Ht by done. cbn in Ht. congruence.
  - rewrite (proj2 (Z.ltb_ge _ 0)) by apply Htimer. set (m := alter_runtime _ _ n1). assert (Hm : tidy m) by (destruct Hn1; by split). split; [done|]. intros _.
    apply (Hretry m (ratelimit_end rl)); [done|unfold m; cbn; by rewrite !decide_True|unfold m; cbn; rewrite !decide_True by done; done|done].
Qed.

End Queues.

(** ** Witnesses: unit 2 is up and bound to unit 1, which failed. *)

Definition bound_units : @Units ex_rq := @MkUnits ex_rq ex_state (λ _, new_runtime) ∅ [] [] [2%positive].

Lemma bound_units_tidy : let E := bound_env in tidy bound_units.
Proof.
  intros E. split; [apply ex_state_at_rest|intros k kb Hk; discriminate Hk|..].
  - by split; [constructor|intros ? ?%not_elem_of_nil].
  - by split; [constructor|intros ? ?%not_elem_of_nil].
  - split; [by_decide|]. intros u ->%list_elem_of_singleton. by_decide.
Qed.

Lemma new_limit k : Z.of_nat k < 2 ^ 32 → limit_ok k (auto_start_stop_ratelimit new_runtime).
Proof. intros Hk. split; [reflexivity|]. split; [reflexivity|]. cbn [num new_runtime auto_start_stop_ratelimit]. lia. Qed.

Lemma queue_dispatch_terminates_witness :
  let E := bound_env in let NC := bound_conf in
  ∃ k n', manager_dispatch_stop_when_bound_queue (λ i, 1 + Z.of_nat i) 388 bound_units = Some (k, n') ∧ stop_when_bound_queue n' = [].
Proof.
  intros E NC. destruct (@queue_dispatch_terminates ex_rq E NC (λ i, 1 + Z.of_nat i) 1 bound_units bound_settings bound_env_closed bound_capacity bound_units_tidy)
    as (_ & _ & k & n' & H & Hq & _).
  - intros u _. apply new_limit. reflexivity.
  - reflexivity.
  - reflexivity.
  - intros i Hi. change (i < 388)%nat in Hi. unfold USEC_PER_SEC. lia.
  - exists k, n'. split; [exact H|exact Hq].
Defined.

(** Unit 2 was asked for too often. *)
Definition busy_units : @Units ex_rq :=
  @MkUnits ex_rq ex_state (λ _, set_ratelimit (MkRateLimit 10000000 16 16 5) new_runtime) ∅ [] [] [].

Lemma busy_units_tidy : let E := bound_env in tidy busy_units.
Proof. intros E. split; [apply ex_state_at_rest|intros k kb Hk; discriminate Hk|by split; [constructor|intros ? ?%not_elem_of_nil]..]. Qed.

Lemma busy_limits : let E := bound_env in limits_ok 1 busy_units.
Proof. intros E u _. split; [reflexivity|]. split; [reflexivity|]. cbn. lia. Qed.

Example busy_refused : let E := bound_env in let NC := bound_conf in
  fst (manager_ratelimit_check_and_queue 100 2 busy_units) = 0 ∧
  auto_start_stop_event_source (runtime (snd (manager_ratelimit_check_and_queue 100 2 busy_units)) 2%positive) = Some 10000005.
Proof. split; vm_compute; reflexivity. Qed.

Lemma throttled_unit_is_retried_witness :
  let E := bound_env in let NC := bound_conf in
  let n1 := snd (manager_ratelimit_check_and_queue 100 2 busy_units) in
  2%positive ∈ stop_when_bound_queue (manager_ratelimit_requeue 2 n1) ∧
  ∀ later, ratelimit_end (auto_start_stop_ratelimit (runtime (manager_ratelimit_requeue 2 n1) 2%positive)) < later < USEC_INFINITY →
    fst (manager_ratelimit_check_and_queue later 2 (manager_ratelimit_requeue 2 n1)) = 1.
Proof.
  intros E NC. pose proof (proj1 busy_refused) as Hr.
  assert (Hnow : 0 <= 100 < USEC_INFINITY) by (split; [lia|reflexivity]). assert (Htimer : ∀ t, 0 <= sd_event_add_time 2 t) by (intros t; reflexivity).
  pose proof (@throttled_unit_is_retried ex_rq E NC 100 2 busy_units bound_settings busy_units_tidy busy_limits ltac:(by_decide) Hnow Htimer) as Ht.
  fold E NC in Hr. destruct (manager_ratelimit_check_and_queue 100 2 busy_units) as [r n1]. cbn [fst snd] in *.
  destruct Ht as [_ Ht]. destruct Ht as (_ & _ & _ & _ & _ & _ & _ & Hb & Hl); [lia|]. split; [|exact Hl].
  apply Hb; [reflexivity|by_decide].
Defined.
