(* ===== verification/Serialize.v ===== *)
(** * Lines, numbers and items of a serialization (src/basic/fileio.c, src/basic/parse-util.c,
    src/shared/serialize.c)

    A serialization is a file of lines "key=value". [read_line] reads one back, [safe_atou_full]
    and [safe_atollu_full] parse numbers, with [strtoul] of the C library. A file is the list of
    the bytes that are still to be read. The theorems: a line that was written is what is read,
    and the parsers accept exactly the numbers that fit. *)

From S2P Require Import Prelude Hexdecoct UnitDeps.

Definition LONG_LINE_MAX : Z := 1 * 1024 * 1024.
Definition INT_MAX_ : Z := 2 ^ 31 - 1.
Definition ENOBUFS : Z := 105.
Definition NL : Z := 10.

(** ** Reading a line *)

Definition EOL_NONE : Z := 0.
Definition EOL_ZERO : Z := Z.shiftl 1 0.
Definition EOL_TEN : Z := Z.shiftl 1 1.
Definition EOL_THIRTEEN : Z := Z.shiftl 1 2.

(** [only_nul] is READ_LINE_ONLY_NUL. *)
Definition categorize_eol (only_nul : bool) (c : Z) : Z :=
  if negb only_nul && (c =? 10) then EOL_TEN
  else if negb only_nul && (c =? 13) then EOL_THIRTEEN
  else if c =? 0 then EOL_ZERO else EOL_NONE.

(** The loop: [n] characters of the line and [count] bytes were read. The result is the number of bytes,
    the line and what is left of the file. The file is not a terminal. *)
Fixpoint read_line_loop (limit : Z) (only_nul : bool) (f : list Z) (n count previous_eol : Z) (buffer : list Z) : res (Z * list Z * list Z) :=
  if limit <=? n then Err (-ENOBUFS)
  else if INT_MAX_ <=? count then Err (-ENOBUFS)
  else match f with
  | [] => Ok (count, buffer, [])
  | c :: f' =>
      let eol := categorize_eol only_nul c in
      if FLAGS_SET previous_eol EOL_ZERO || (eol =? EOL_NONE) && negb (previous_eol =? EOL_NONE) ||
         negb (eol =? EOL_NONE) && negb (Z.land previous_eol eol =? 0)
      then Ok (count, buffer, f)
      else if negb (eol =? EOL_NONE) then read_line_loop limit only_nul f' n (count + 1) (Z.lor previous_eol eol) buffer
      else read_line_loop limit only_nul f' (n + 1) (count + 1) previous_eol (buffer ++ [c])
  end.

Definition read_line_full (limit : Z) (only_nul : bool) (f : list Z) : res (Z * list Z * list Z) := read_line_loop limit only_nul f 0 0 EOL_NONE [].
Definition read_line (limit : Z) (f : list Z) : res (Z * list Z * list Z) := read_line_full limit false f.

(** ** Strings *)

Definition is_whitespace (c : Z) : bool := bool_decide (c ∈ WHITESPACE).

(** [s + strspn(s, WHITESPACE)] *)
Fixpoint skip_leading_chars (s : list Z) : list Z :=
  match s with
  | c :: s' => if is_whitespace c then skip_leading_chars s' else s
  | [] => []
  end.

(** The position after the last character that stays. *)
Fixpoint delete_trailing_chars (s : list Z) : list Z :=
  match s with
  | [] => []
  | c :: s' => match delete_trailing_chars s' with [] => if is_whitespace c then [] else [c] | r => c :: r end
  end.

Definition strstrip (s : list Z) : list Z := delete_trailing_chars (skip_leading_chars s).

(** A line at its first "=": the key and the value, which is empty if there is none. *)
Fixpoint split_item (l : list Z) : list Z * list Z :=
  match l with
  | [] => ([], [])
  | c :: l' => if c =? ch "=" then ([], l') else let '(k, v) := split_item l' in (c :: k, v)
  end.

Definition ascii_tolower (x : Z) : Z := if (ch "A" <=? x) && (x <=? ch "Z") then x - ch "A" + ch "a" else x.

Definition strcase_in_set (v : list Z) (l : list (list Z)) : bool := bool_decide (map ascii_tolower v ∈ l).

(** 1, 0 or -EINVAL *)
Definition parse_boolean (v : list Z) : Z :=
  if strcase_in_set v [str "1"; str "yes"; str "y"; str "true"; str "t"; str "on"] then 1
  else if strcase_in_set v [str "0"; str "no"; str "n"; str "false"; str "f"; str "off"] then 0
  else -EINVAL.

(** ** Numbers: [strtoul] and [strtoull] of the C library, with 64 bits both *)

Definition digit_value (c : Z) : Z :=
  if (ch "0" <=? c) && (c <=? ch "9") then c - ch "0"
  else if (ch "a" <=? c) && (c <=? ch "z") then c - ch "a" + 10
  else if (ch "A" <=? c) && (c <=? ch "Z") then c - ch "A" + 10
  else 36.

Definition isspace (c : Z) : bool := (c =? 32) || ((9 <=? c) && (c <=? 13)).

Fixpoint skip_space (s : list Z) : list Z :=
  match s with c :: s' => if isspace c then skip_space s' else s | [] => [] end.

(** The digits at the head of [s], after the value [acc]. *)
Fixpoint scan_digits (base acc : Z) (s : list Z) : Z * list Z :=
  match s with
  | c :: s' => if digit_value c <? base then scan_digits base (acc * base + digit_value c) s' else (acc, s)
  | [] => (acc, [])
  end.

Definition has_digit (base : Z) (s : list Z) : bool := match s with c :: _ => digit_value c <? base | [] => false end.

(** The sign, and the base with the digits that it leaves. *)
Definition strto_sign (s : list Z) : bool * list Z :=
  match s with
  | c :: s' => if c =? ch "-" then (true, s') else if c =? ch "+" then (false, s') else (false, s)
  | [] => (false, [])
  end.

Definition strto_base (base : Z) (s : list Z) : Z * list Z :=
  match s with
  | z :: x :: s' =>
      if (z =? ch "0") && ((x =? ch "x") || (x =? ch "X")) && ((base =? 0) || (base =? 16)) && has_digit 16 s' then (16, s')
      else if base =? 0 then (if z =? ch "0" then 8 else 10, s) else (base, s)
  | z :: _ => (if base =? 0 then if z =? ch "0" then 8 else 10 else base, s)
  | [] => (if base =? 0 then 10 else base, s)
  end.

(** The value, the rest of the string (the string itself if there is no number), and ERANGE. *)
Definition strtoul (s : list Z) (base : Z) : Z * list Z * bool :=
  let '(negative, s1) := strto_sign (skip_space s) in
  let '(base, s2) := strto_base base s1 in
  if negb (has_digit base s2) then (0, s, false)
  else
    let '(v, rest) := scan_digits base 0 s2 in
    if UINT64_MAX <? v then (UINT64_MAX, rest, true) else (if negative then u64 (- v) else v, rest, false).

(** ** [safe_atou_full] *)

Definition SAFE_ATO_REFUSE_PLUS_MINUS : Z := Z.shiftl 1 30.
Definition SAFE_ATO_REFUSE_LEADING_ZERO : Z := Z.shiftl 1 29.
Definition SAFE_ATO_REFUSE_LEADING_WHITESPACE : Z := Z.shiftl 1 28.
Definition SAFE_ATO_ALL_FLAGS : Z := Z.lor (Z.lor SAFE_ATO_REFUSE_PLUS_MINUS SAFE_ATO_REFUSE_LEADING_ZERO) SAFE_ATO_REFUSE_LEADING_WHITESPACE.
Definition SAFE_ATO_MASK_FLAGS (base : Z) : Z := Z.ldiff base SAFE_ATO_ALL_FLAGS.

Definition head_char (s : list Z) : Z := default 0 (head s).

Definition mangle_base (s : list Z) (base : Z) : list Z * Z :=
  if negb (SAFE_ATO_MASK_FLAGS base =? 0) then (s, base)
  else match s with
  | z :: c :: s' =>
      if (z =? ch "0") && ((c =? ch "b") || (c =? ch "B")) then (s', Z.lor 2 (Z.land base SAFE_ATO_ALL_FLAGS))
      else if (z =? ch "0") && ((c =? ch "o") || (c =? ch "O")) then (s', Z.lor 8 (Z.land base SAFE_ATO_ALL_FLAGS))
      else (s, base)
  | _ => (s, base)
  end.

(** What both parsers have in common: the checks before and after [strtoul]; [fits] is the width. *)
Definition safe_ato (fits : Z → bool) (leading_zero : list Z → bool) (s : list Z) (base : Z) : res Z :=
  if FLAGS_SET base SAFE_ATO_REFUSE_LEADING_WHITESPACE && in_whitespace (head_char s) then Err (-EINVAL)
  else
    let s := skip_leading_chars s in
    if FLAGS_SET base SAFE_ATO_REFUSE_PLUS_MINUS && bool_decide (head_char s ∈ [ch "+"; ch "-"]) then Err (-EINVAL)
    else if FLAGS_SET base SAFE_ATO_REFUSE_LEADING_ZERO && leading_zero s then Err (-EINVAL)
    else
      let '(s, base) := mangle_base s base in
      let '(l, x, erange) := strtoul s (SAFE_ATO_MASK_FLAGS base) in
      if erange then Err (-ERANGE)
      else if bool_decide (x = s) || bool_decide (x ≠ []) then Err (-EINVAL)
      else if negb (l =? 0) && (head_char s =? ch "-") then Err (-ERANGE)
      else if negb (fits l) then Err (-ERANGE)
      else Ok l.

Definition safe_atou_full (s : list Z) (base : Z) : res Z :=
  safe_ato (λ l, u32 l =? l) (λ s, (head_char s =? ch "0") && bool_decide (s ≠ str "0")) s base.
Definition safe_atollu_full (s : list Z) (base : Z) : res Z :=
  safe_ato (λ _, true) (λ s, (head_char s =? ch "0") && negb (head_char (tail s) =? 0)) s base.
Definition safe_atou32 (s : list Z) : res Z := safe_atou_full s 0.
Definition safe_atou64 (s : list Z) : res Z := safe_atollu_full s 0.

(** ** Writing *)

(** "%u" and "%" PRIu64: the digits of a number below [10 ^ n] *)
Fixpoint format_digits (n : nat) (z : Z) : list Z :=
  match n with
  | O => []
  | S n => if z <? 10 then [ch "0" + z] else format_digits n (z / 10) ++ [ch "0" + z mod 10]
  end.
Definition format_uint (z : Z) : list Z := format_digits 20 z.

Definition yes_no (b : bool) : list Z := if b then str "yes" else str "no".

(** What is written, and the result. [None] for a value that is NULL. *)
Definition serialize_item (key : list Z) (value : option (list Z)) : list Z * Z :=
  match value with
  | None => ([], 0)
  | Some value => if LONG_LINE_MAX <? len key + 1 + len value + 1 then ([], -EINVAL) else (key ++ [ch "="] ++ value ++ [NL], 1)
  end.

Definition serialize_item_format (key : list Z) (formatted : list Z) : list Z * Z :=
  if LONG_LINE_MAX <? len key + 1 + len formatted + 1 then ([], -EINVAL) else (key ++ [ch "="] ++ formatted ++ [NL], 1).

Definition serialize_usec (key : list Z) (usec : Z) : list Z * Z :=
  if usec =? UINT64_MAX then ([], 0) else serialize_item_format key (format_uint usec).

Definition serialize_bool (key : list Z) (b : bool) : list Z * Z := serialize_item key (Some (yes_no b)).

(** ** Times *)

Definition timestamp_is_set (timestamp : Z) : bool := (0 <? timestamp) && negb (timestamp =? UINT64_MAX).

Record dual_timestamp := MkDualTimestamp { realtime : Z; monotonic : Z }.

Definition dual_timestamp_is_set (ts : dual_timestamp) : bool := timestamp_is_set (realtime ts) || timestamp_is_set (monotonic ts).

Definition serialize_dual_timestamp (name : list Z) (t : dual_timestamp) : list Z * Z :=
  if negb (dual_timestamp_is_set t) then ([], 0)
  else serialize_item_format name (format_uint (realtime t) ++ str " " ++ format_uint (monotonic t)).

Definition deserialize_usec (value : list Z) : res Z := safe_atou64 value.

(** [s + strspn(s, DIGITS)] *)
Fixpoint skip_digits (s : list Z) : list Z :=
  match s with
  | c :: s' => if (ch "0" <=? c) && (c <=? ch "9") then skip_digits s' else s
  | [] => []
  end.

(** One conversion "%" PRIu64 of [sscanf]: as the C library, a number that does not fit becomes the greatest one. *)
Definition sscanf_u64 (s : list Z) : option (Z * list Z) :=
  let '(v, rest, _) := strtoul s 10 in
  if bool_decide (rest = s) then None else Some (v, rest).

Definition deserialize_dual_timestamp (value : list Z) : res dual_timestamp :=
  let s := skip_leading_chars value in
  if head_char s =? ch "-" then Err (-EINVAL)
  else
    let s := skip_leading_chars (skip_digits s) in
    if head_char s =? ch "-" then Err (-EINVAL)
    else match sscanf_u64 value with
    | None => Err (-EINVAL)
    | Some (a, rest) =>
        match sscanf_u64 rest with
        | None => Err (-EINVAL)
        | Some (b, rest) => if negb (head_char rest =? 0) then Err (-EINVAL) else Ok (MkDualTimestamp a b)
        end
    end.

(** ** Lines that were written *)

Definition eol_free (l : list Z) : Prop := Forall (λ c, c ≠ 0 ∧ c ≠ 10 ∧ c ≠ 13) l.

(** What may follow a line, so that nothing of it is taken for a part of the end of the line. *)
Definition starts_line (rest : list Z) : Prop := head_char rest ≠ 13 ∧ (rest = [] ∨ head_char rest ≠ 0).

Lemma no_eol c : c ≠ 0 ∧ c ≠ 10 ∧ c ≠ 13 → categorize_eol false c = EOL_NONE.
Proof. intros (? & ? & ?). unfold categorize_eol. cbn [negb andb]. by rewrite (proj2 (Z.eqb_neq c 10)), (proj2 (Z.eqb_neq c 13)), (proj2 (Z.eqb_neq c 0)). Qed.

Lemma read_line_loop_spec limit l rest n count buffer :
  eol_free l → starts_line rest → n + len l < limit → count + len l + 1 < INT_MAX_ → 0 <= n → 0 <= count →
  read_line_loop limit false (l ++ NL :: rest) n count EOL_NONE buffer = Ok (count + len l + 1, buffer ++ l, rest).
Proof.
  intros Hl Hrest. revert n count buffer. induction Hl as [|c l Hc Hl IH]; intros n count buffer Hn Hcount Hn0 Hc0; cbn [app read_line_loop].
  - rewrite len_nil in *. rewrite !(proj2 (Z.leb_gt _ _)) by lia.
    assert (Hdone : read_line_loop limit false rest n (count + 1) EOL_TEN buffer = Ok (count + 1, buffer, rest)).
    { destruct rest as [|c rest]; cbn [read_line_loop]; rewrite !(proj2 (Z.leb_gt _ _)) by lia; [done|].
      destruct Hrest as [H13 [?|H0]]; [done|]. cbn in H13, H0. unfold categorize_eol. cbn [negb andb].
      rewrite (proj2 (Z.eqb_neq c 13)) by done. rewrite (proj2 (Z.eqb_neq c 0)) by done. by destruct (c =? 10). }
    transitivity (read_line_loop limit false rest n (count + 1) EOL_TEN buffer); [reflexivity|]. rewrite Hdone, app_nil_r. do 3 f_equal. change (len (@nil Z)) with 0. lia.
  - rewrite len_cons in *. pose proof (len_nonneg l). rewrite !(proj2 (Z.leb_gt _ _)) by lia. rewrite (no_eol c Hc).
    transitivity (read_line_loop limit false (l ++ NL :: rest) (n + 1) (count + 1) EOL_NONE (buffer ++ [c])); [reflexivity|]. rewrite IH by lia. rewrite <- app_assoc. cbn [app]. do 3 f_equal. lia.
Qed.

Lemma read_line_spec l rest :
  eol_free l → starts_line rest → len l < LONG_LINE_MAX → read_line LONG_LINE_MAX (l ++ NL :: rest) = Ok (len l + 1, l, rest).
Proof. intros Hl Hr Hlen. unfold read_line, read_line_full. rewrite read_line_loop_spec; [done..| | |]; pose proof (len_nonneg l); unfold LONG_LINE_MAX, INT_MAX_ in *; lia. Qed.

(** Text that [strstrip] does not change. *)
Definition stripped (l : list Z) : Prop := (∀ c, head l = Some c → is_whitespace c = false) ∧ (∀ c, last l = Some c → is_whitespace c = false).

Lemma keep_trailing_id l : (∀ c, last l = Some c → is_whitespace c = false) → delete_trailing_chars l = l.
Proof.
  induction l as [|c l IH]; intros Hl; cbn; [done|]. destruct l as [|d l]; [by rewrite (Hl c)|]. rewrite IH; [done|].
  intros x Hx. apply Hl. rewrite last_cons. by rewrite Hx.
Qed.

Lemma strstrip_id l : stripped l → strstrip l = l.
Proof.
  intros [Hh Hl]. unfold strstrip. assert (skip_leading_chars l = l) as ->; [|by apply keep_trailing_id].
  destruct l as [|c l]; [done|]. cbn. by rewrite (Hh c).
Qed.

Lemma split_item_spec k v : ch "=" ∉ k → split_item (k ++ ch "=" :: v) = (k, v).
Proof.
  induction k as [|c k IH]; intros Hk; cbn [app split_item]; [by rewrite Z.eqb_refl|]. apply not_elem_of_cons in Hk as [Hc Hk].
  rewrite (proj2 (Z.eqb_neq c (ch "="))) by done. by rewrite IH.
Qed.

(** ** Numbers *)

Definition digit (c : Z) : Prop := ch "0" <= c <= ch "9".

Lemma digit_val c : digit c → digit_value c = c - ch "0" ∧ 0 <= digit_value c < 10.
Proof.
  unfold digit, digit_value. change (ch "0") with 48. change (ch "9") with 57. intros [H1 H2].
  rewrite (proj2 (Z.leb_le _ _) H1), (proj2 (Z.leb_le _ _) H2). cbn [andb]. lia.
Qed.

Definition decimal_value (ds : list Z) : Z := (scan_digits 10 0 ds).1.

Lemma scan_app base acc a s : Forall (λ c, digit_value c < base) a → scan_digits base acc (a ++ s) = scan_digits base (scan_digits base acc a).1 s.
Proof. intros Ha. revert acc. induction Ha as [|c a Hc Ha IH]; intros acc; cbn; [done|]. rewrite (proj2 (Z.ltb_lt _ _)) by done. apply IH. Qed.

Lemma scan_all base acc a : Forall (λ c, digit_value c < base) a → (scan_digits base acc a).2 = [].
Proof. intros Ha. revert acc. induction Ha as [|c a Hc Ha IH]; intros acc; cbn; [done|]. rewrite (proj2 (Z.ltb_lt _ _)) by done. apply IH. Qed.

Lemma scan_nonneg base acc a : 0 <= base → 0 <= acc → (∀ c, c ∈ a → 0 <= digit_value c) → 0 <= (scan_digits base acc a).1.
Proof.
  intros Hb. revert acc. induction a as [|c a IH]; intros acc Ha Hd; cbn; [done|]. destruct (digit_value c <? base); [|done].
  pose proof (Hd c (list_elem_of_here _ _)). apply IH; [nia|]. intros x Hx. by apply Hd, list_elem_of_further.
Qed.

(** A decimal numeral as it is written: digits, and no zero in front. *)
Record decimal (ds : list Z) : Prop := {
  de_digits : Forall digit ds;
  de_some : ds ≠ [];
  de_zero : head ds = Some (ch "0") → ds = str "0";
}.

Lemma digits_below ds : Forall digit ds → Forall (λ c, digit_value c < 10) ds.
Proof. intros H. eapply Forall_impl; [exact H|]. intros c Hc. apply (digit_val c Hc). Qed.

Lemma decimal_nonneg ds : Forall digit ds → 0 <= decimal_value ds.
Proof. intros Hd. apply scan_nonneg; [lia..|]. intros c Hc. rewrite Forall_forall in Hd. destruct (digit_val c (Hd c Hc)). lia. Qed.

Lemma digit_facts c : digit c → isspace c = false ∧ is_whitespace c = false ∧ (c =? ch "-") = false ∧ (c =? ch "+") = false ∧ 48 <= c <= 57.
Proof.
  unfold digit. change (ch "0") with 48. change (ch "9") with 57. change (ch "-") with 45. change (ch "+") with 43. intros Hc.
  split_and!; [unfold isspace; lia| |lia..]. unfold is_whitespace. apply bool_decide_eq_false. change WHITESPACE with [32; 9; 10; 13]. rewrite !elem_of_cons, elem_of_nil. lia.
Qed.

(** The base that [strtoul] and [mangle_base] choose. *)
Lemma decimal_base ds : decimal ds →
  mangle_base ds 0 = (ds, 0) ∧
  ∃ b, strto_base 0 ds = (b, ds) ∧ has_digit b ds = true ∧ scan_digits b 0 ds = (decimal_value ds, []).
Proof.
  intros [Hd Hne H0]. destruct ds as [|c ds]; [done|]. inversion Hd as [|? ? Hc Hds]; subst. destruct (Z.eqb_spec c (ch "0")) as [->|Hnz].
  - specialize (H0 eq_refl). injection H0 as ->. split; [done|]. by exists 8.
  - split.
    + destruct ds as [|d ds]; [done|]. unfold mangle_base. cbn [SAFE_ATO_MASK_FLAGS]. by rewrite (proj2 (Z.eqb_neq c (ch "0"))).
    + exists 10. split; [|split].
      * unfold strto_base. rewrite (proj2 (Z.eqb_neq c (ch "0"))) by done. by destruct ds.
      * cbn. apply Z.ltb_lt, (digit_val c Hc).
      * rewrite (surjective_pairing (scan_digits 10 0 (c :: ds))). by rewrite (scan_all 10 0 (c :: ds)) by by apply digits_below.
Qed.

Lemma strtoul_decimal ds (neg : bool) : decimal ds →
  strtoul (if neg then ch "-" :: ds else ds) 0 =
    if UINT64_MAX <? decimal_value ds then (UINT64_MAX, [], true) else (if neg then u64 (- decimal_value ds) else decimal_value ds, [], false).
Proof.
  intros Hd. destruct (decimal_base ds Hd) as (_ & b & Hb & Hh & Hs). destruct Hd as [Hds Hne _]. unfold strtoul.
  assert (strto_sign (skip_space (if neg then ch "-" :: ds else ds)) = (neg, ds)) as ->.
  { destruct neg; [done|]. destruct ds as [|c ds]; [done|]. inversion Hds as [|? ? Hc Hds2]; subst. destruct (digit_facts c Hc) as (H1 & _ & H2 & H3 & _).
    cbn [skip_space]. rewrite H1. unfold strto_sign. by rewrite H2, H3. }
  rewrite Hb, Hh. cbn [negb]. rewrite Hs. by destruct (UINT64_MAX <? _).
Qed.

Lemma skip_whitespace ws s : Forall (λ c, is_whitespace c = true) ws → (∀ c, head s = Some c → is_whitespace c = false) → skip_leading_chars (ws ++ s) = s.
Proof.
  intros Hw Hs. induction Hw as [|c ws Hc Hw IH]; cbn; [|by rewrite Hc]. destruct s as [|c s]; [done|]. cbn. by rewrite (Hs c).
Qed.

(** Both parsers on a decimal numeral. *)
Lemma safe_ato_decimal fits lz ws ds (neg : bool) : Forall (λ c, is_whitespace c = true) ws → decimal ds →
  safe_ato fits lz (ws ++ (if neg then ch "-" :: ds else ds)) 0 =
    let v := decimal_value ds in
    if UINT64_MAX <? v then Err (-ERANGE) else if neg && (0 <? v) then Err (-ERANGE) else if negb (fits v) then Err (-ERANGE) else Ok v.
Proof.
  intros Hws Hd. pose proof (decimal_nonneg ds (de_digits _ Hd)) as Hv. unfold safe_ato. change (FLAGS_SET 0 ?f) with false. cbn [andb].
  assert (Hskip : skip_leading_chars (ws ++ (if neg then ch "-" :: ds else ds)) = if neg then ch "-" :: ds else ds).
  { apply skip_whitespace; [done|]. intros c. destruct neg; [by intros [= <-]|]. destruct ds as [|d ds]; [done|]. intros [= ->].
    destruct Hd as [Hds _ _]. inversion Hds; subst. by apply digit_facts. }
  rewrite Hskip. assert (Hm : mangle_base (if neg then ch "-" :: ds else ds) 0 = (if neg then ch "-" :: ds else ds, 0)).
  { destruct neg; [|apply (decimal_base ds Hd)]. by destruct ds. }
  rewrite Hm. change (SAFE_ATO_MASK_FLAGS 0) with 0. rewrite strtoul_decimal by done. cbn zeta.
  assert (Hne : (if neg then ch "-" :: ds else ds) ≠ []) by (destruct neg; [done|apply Hd]).
  destruct (UINT64_MAX <? decimal_value ds) eqn:Ev; [done|]. rewrite bool_decide_eq_false_2 by done. rewrite bool_decide_eq_false_2 by (intros Hx; by apply Hx). cbn [orb].
  destruct neg; cbn [andb].
  - unfold head_char. cbn [head default]. rewrite Z.eqb_refl, andb_true_r. destruct (0 <? decimal_value ds) eqn:E0.
    + assert (u64 (- decimal_value ds) = 2 ^ 64 - decimal_value ds) as ->.
      { unfold u64. rewrite Z_mod_nz_opp_full; rewrite Z.mod_small; unfold UINT64_MAX in Ev; lia. }
      rewrite (proj2 (Z.eqb_neq _ 0)) by (unfold UINT64_MAX in Ev; lia). done.
    + assert (decimal_value ds = 0) as -> by lia. done.
  - assert ((head_char ds =? ch "-") = false) as ->.
    { destruct Hd as [Hds Hn _]. destruct ds as [|d ds]; [done|]. inversion Hds; subst. by apply digit_facts. }
    by rewrite andb_false_r.
Qed.

Lemma safe_ato_unsigned ws ds : Forall (λ c, is_whitespace c = true) ws → decimal ds → let v := decimal_value ds in
  safe_atou32 (ws ++ ds) = (if v <? 2 ^ 32 then Ok v else Err (-ERANGE)) ∧ safe_atou64 (ws ++ ds) = (if v <? 2 ^ 64 then Ok v else Err (-ERANGE)).
Proof.
  intros Hws Hd v. pose proof (decimal_nonneg ds (de_digits _ Hd)) as Hv. fold v in Hv. split; (etrans; [apply (safe_ato_decimal _ _ ws ds false Hws Hd)|]);
    cbn zeta; fold v; cbn [andb]; unfold UINT64_MAX.
  - destruct (Z.ltb_spec (2 ^ 64 - 1) v); [by rewrite (proj2 (Z.ltb_ge v _)) by lia|].
    destruct (Z.ltb_spec v (2 ^ 32)); [by rewrite u32_small, Z.eqb_refl by lia|]. rewrite (proj2 (Z.eqb_neq _ _)); [done|]. pose proof (u32_range v). lia.
  - cbn [negb]. destruct (Z.ltb_spec (2 ^ 64 - 1) v); [by rewrite (proj2 (Z.ltb_ge v _)) by lia|by rewrite (proj2 (Z.ltb_lt v _)) by lia].
Qed.

Lemma safe_ato_negative ws ds : Forall (λ c, is_whitespace c = true) ws → decimal ds → let v := decimal_value ds in
  safe_atou32 (ws ++ ch "-" :: ds) = (if v =? 0 then Ok 0 else Err (-ERANGE)) ∧ safe_atou64 (ws ++ ch "-" :: ds) = (if v =? 0 then Ok 0 else Err (-ERANGE)).
Proof.
  intros Hws Hd v. pose proof (decimal_nonneg ds (de_digits _ Hd)) as Hv. fold v in Hv. split; (etrans; [apply (safe_ato_decimal _ _ ws ds true Hws Hd)|]);
    cbn zeta; fold v; cbn [andb]; unfold UINT64_MAX; (destruct (Z.eqb_spec v 0) as [->|Hn]; [done|]); rewrite (proj2 (Z.ltb_lt 0 v)) by lia; by destruct (_ <? v).
Qed.

(** *** Printing *)

Lemma digit_of d : 0 <= d < 10 → digit (ch "0" + d) ∧ digit_value (ch "0" + d) = d.
Proof.
  intros Hd. assert (H : digit (ch "0" + d)) by (unfold digit; change (ch "0") with 48; change (ch "9") with 57; lia).
  split; [done|]. rewrite (proj1 (digit_val _ H)). lia.
Qed.

Lemma format_digits_spec n z : (0 < n)%nat → 0 <= z < 10 ^ Z.of_nat n →
  decimal (format_digits n z) ∧ decimal_value (format_digits n z) = z ∧ (0 < z → head (format_digits n z) ≠ Some (ch "0")) ∧ (length (format_digits n z) <= n)%nat.
Proof.
  revert z. induction n as [|n IH]; intros z Hn Hz; [lia|]. cbn [format_digits]. destruct (Z.ltb_spec z 10) as [Hs|Hl].
  - destruct (digit_of z ltac:(lia)) as [Hd Hv]. split_and!.
    + split; [by apply Forall_singleton|done|]. cbn. intros [= He]. change (ch "0") with 48 in *. assert (z = 0) as -> by lia. done.
    + unfold decimal_value. cbn [scan_digits]. rewrite Hv, (proj2 (Z.ltb_lt z 10)) by done. cbn. lia.
    + cbn. intros Hp [= He]. lia.
    + cbn. lia.
  - pose proof (Z.div_mod z 10 ltac:(lia)) as Hdm. pose proof (Z.mod_pos_bound z 10 ltac:(lia)) as Hm.
    assert (Hq : 0 < z / 10 < 10 ^ Z.of_nat n).
    { split; [apply Z.div_str_pos; lia|]. apply Z.div_lt_upper_bound; [lia|]. rewrite <- Z.pow_succ_r by lia. rewrite <- Nat2Z.inj_succ. lia. }
    assert (Hn0 : (0 < n)%nat) by (destruct n; [cbn in Hq; lia|lia]).
    destruct (IH (z / 10) Hn0 ltac:(lia)) as (Hd & Hv & Hh & Hlen). destruct (digit_of (z mod 10) Hm) as [Hd2 Hv2]. specialize (Hh ltac:(lia)).
    pose proof (de_some _ Hd) as Hne. assert (Hhead : head (format_digits n (z / 10) ++ [ch "0" + z mod 10]) = head (format_digits n (z / 10))) by (by destruct (format_digits n (z / 10))).
    split_and!.
    + split; [apply Forall_app; split; [apply Hd|by apply Forall_singleton]|by destruct (format_digits n (z / 10))|]. rewrite Hhead. done.
    + unfold decimal_value in *. rewrite scan_app by apply digits_below, Hd. rewrite Hv. cbn [scan_digits]. rewrite Hv2, (proj2 (Z.ltb_lt _ 10)) by lia. cbn. lia.
    + by rewrite Hhead.
    + rewrite length_app. cbn. lia.
Qed.

Lemma format_uint_spec z : 0 <= z < 2 ^ 64 → decimal (format_uint z) ∧ decimal_value (format_uint z) = z ∧ len (format_uint z) <= 20.
Proof. intros Hz. destruct (format_digits_spec 20 z) as (H1 & H2 & _ & H3); [lia|lia|]. unfold format_uint, len. split_and!; [done..|lia]. Qed.

(** *** Times that were written *)

Lemma scan_stop base acc a s : Forall (λ c, digit_value c < base) a → has_digit base s = false → scan_digits base acc (a ++ s) = ((scan_digits base acc a).1, s).
Proof. intros Ha Hs. rewrite scan_app by done. destruct s as [|c s]; cbn; [done|]. cbn in Hs. by rewrite Hs. Qed.

Lemma sscanf_decimal (space : bool) ds s : decimal ds → decimal_value ds < 2 ^ 64 → has_digit 10 s = false →
  sscanf_u64 ((if space then str " " else []) ++ ds ++ s) = Some (decimal_value ds, s).
Proof.
  intros Hd Hv Hs. pose proof (de_digits _ Hd) as Hds. pose proof (de_some _ Hd) as Hne.
  assert (Hu : strtoul ((if space then str " " else []) ++ ds ++ s) 10 = (decimal_value ds, s, false)).
  { unfold strtoul. destruct ds as [|c ds]; [done|]. inversion Hds as [|? ? Hc Hds2]; subst. destruct (digit_facts c Hc) as (H1 & _ & H2 & H3 & _).
    assert (strto_sign (skip_space ((if space then str " " else []) ++ (c :: ds) ++ s)) = (false, (c :: ds) ++ s)) as ->.
    { assert (skip_space ((if space then str " " else []) ++ (c :: ds) ++ s) = (c :: ds) ++ s) as ->.
      { transitivity (skip_space (c :: ds ++ s)); [by destruct space|]. cbn [skip_space]. by rewrite H1. }
      unfold strto_sign. cbn [app]. by rewrite H2, H3. }
    assert (strto_base 10 ((c :: ds) ++ s) = (10, (c :: ds) ++ s)) as ->.
    { unfold strto_base. cbn [app]. destruct (ds ++ s); [done|]. by rewrite andb_false_r. }
    assert (has_digit 10 ((c :: ds) ++ s) = true) as -> by (cbn; apply Z.ltb_lt, (digit_val c Hc)). cbn [negb].
    rewrite scan_stop by (done || by apply digits_below). fold (decimal_value (c :: ds)). by rewrite (proj2 (Z.ltb_ge UINT64_MAX _)) by (unfold UINT64_MAX; lia). }
  unfold sscanf_u64. rewrite Hu. rewrite bool_decide_eq_false_2; [done|]. intros He. apply (f_equal length) in He. rewrite !length_app in He. destruct ds; [done|cbn in He; lia].
Qed.

Lemma skip_digits_app ds s : Forall digit ds → skip_digits (ds ++ s) = skip_digits s.
Proof. intros Hd. induction Hd as [|c ds [H1 H2] Hd IH]; cbn [app skip_digits]; [done|]. by rewrite (proj2 (Z.leb_le _ _) H1), (proj2 (Z.leb_le _ _) H2). Qed.

Lemma decimal_start ds s : decimal ds → skip_leading_chars (ds ++ s) = ds ++ s ∧ (head_char (ds ++ s) =? ch "-") = false.
Proof.
  intros [Hd Hne _]. destruct ds as [|c ds]; [done|]. inversion Hd as [|? ? Hc _]; subst. destruct (digit_facts c Hc) as (_ & H1 & H2 & _).
  cbn [app skip_leading_chars]. by rewrite H1.
Qed.

Lemma dual_timestamp_spec a b : 0 <= a < 2 ^ 64 → 0 <= b < 2 ^ 64 →
  deserialize_dual_timestamp (format_uint a ++ str " " ++ format_uint b) = Ok (MkDualTimestamp a b).
Proof.
  intros Ha Hb. destruct (format_uint_spec a Ha) as (Hda & Hva & _). destruct (format_uint_spec b Hb) as (Hdb & Hvb & _). unfold deserialize_dual_timestamp.
  destruct (decimal_start _ (str " " ++ format_uint b) Hda) as [-> ->]. rewrite skip_digits_app by apply Hda.
  assert (skip_leading_chars (skip_digits (str " " ++ format_uint b)) = format_uint b ++ []) as ->.
  { change (skip_digits (str " " ++ format_uint b)) with (32 :: format_uint b). destruct (decimal_start _ [] Hdb) as [H _]. rewrite app_nil_r in *. exact H. }
  destruct (decimal_start _ [] Hdb) as [_ ->].
  pose proof (sscanf_decimal false _ (str " " ++ format_uint b) Hda ltac:(lia) eq_refl) as H1. cbn [app] in H1. rewrite H1.
  pose proof (sscanf_decimal true _ [] Hdb ltac:(lia) eq_refl) as H2. rewrite app_nil_r in H2. rewrite H2. by rewrite Hva, Hvb.
Qed.

(** What the parsers give fits. *)
Lemma digit_value_nonneg c : 0 <= digit_value c.
Proof. unfold digit_value. repeat case_match; lia. Qed.

Lemma strtoul_range s base v rest e : 0 <= base → strtoul s base = (v, rest, e) → 0 <= v < 2 ^ 64.
Proof.
  intros Hbase. unfold strtoul. destruct (strto_sign _) as [neg s1]. destruct (strto_base base s1) as [b s2] eqn:Eb.
  assert (Hb : 0 <= b). { revert Eb. unfold strto_base. repeat case_match; intros [= <- <-]; lia. }
  case_match; [intros [= <- <- <-]; lia|]. destruct (scan_digits b 0 s2) as [x r] eqn:Es.
  assert (0 <= x) by (change x with ((x, r).1); rewrite <- Es; apply scan_nonneg; [done..|intros; apply digit_value_nonneg]).
  destruct (Z.ltb_spec UINT64_MAX x); intros [= <- <- <-]; unfold UINT64_MAX in *; [lia|]. destruct neg; [apply u64_range|lia].
Qed.

Lemma safe_atou_range s v : (safe_atou32 s = Ok v → 0 <= v < 2 ^ 32) ∧ (safe_atou64 s = Ok v → 0 <= v < 2 ^ 64).
Proof.
  assert (H : ∀ fits lz, safe_ato fits lz s 0 = Ok v → 0 <= v < 2 ^ 64 ∧ fits v = true).
  { intros fits lz. unfold safe_ato. change (FLAGS_SET 0 ?f) with false. cbn [andb]. destruct (mangle_base _ 0) as [s1 b] eqn:Em.
    destruct (strtoul s1 (SAFE_ATO_MASK_FLAGS b)) as [[l x] e] eqn:Es. repeat (case_match; [done|]). intros [= ->].
    split; [|by destruct (fits v)]. refine (strtoul_range _ _ _ _ _ _ Es). unfold SAFE_ATO_MASK_FLAGS. apply Z.ldiff_nonneg. left.
    revert Em. unfold mangle_base. repeat case_match; intros [= <- <-]; vm_compute; congruence. }
  split; intros Hv; destruct (H _ _ Hv) as [Hr Hf]; [|done]. apply Z.eqb_eq in Hf. pose proof (u32_range v). lia.
Qed.

(** C36: numbers are parsed exactly. On a decimal numeral of any length, after whitespace,
    [safe_atou32] and [safe_atou64] give its value if it fits in 32 or 64 bits and -ERANGE otherwise; with a minus
    sign they give -ERANGE, except for zero; and they read back what "%u" and "%lu" print. *)
Theorem safe_atou_decimal (ws ds : list Z) :
  Forall (λ c, is_whitespace c = true) ws → decimal ds → let v := decimal_value ds in
  safe_atou32 (ws ++ ds) = (if v <? 2 ^ 32 then Ok v else Err (-ERANGE)) ∧
  safe_atou64 (ws ++ ds) = (if v <? 2 ^ 64 then Ok v else Err (-ERANGE)) ∧
  safe_atou32 (ws ++ ch "-" :: ds) = (if v =? 0 then Ok 0 else Err (-ERANGE)) ∧
  safe_atou64 (ws ++ ch "-" :: ds) = (if v =? 0 then Ok 0 else Err (-ERANGE)) ∧
  (∀ z, (0 <= z < 2 ^ 32 → safe_atou32 (format_uint z) = Ok z) ∧ (0 <= z < 2 ^ 64 → safe_atou64 (format_uint z) = Ok z)).
Proof.
  intros Hws Hd v. pose proof (decimal_nonneg ds (de_digits _ Hd)) as Hv. fold v in Hv.
  destruct (safe_ato_unsigned ws ds Hws Hd) as [-> ->]. destruct (safe_ato_negative ws ds Hws Hd) as [-> ->]. split_and!; try done.
  intros z. split; intros Hz; destruct (format_uint_spec z) as (Hf & Hfv & _); try lia;
    destruct (safe_ato_unsigned [] (format_uint z) ltac:(constructor) Hf) as [H1 H2]; cbn [app] in *; rewrite ?H1, ?H2, Hfv; (destruct (Z.ltb_spec z (2 ^ 32)) + destruct (Z.ltb_spec z (2 ^ 64))); (done || lia).
Qed.

Lemma safe_atou_decimal_witness : let v := decimal_value (str "4294967296") in
  safe_atou32 (str " " ++ str "4294967296") = (if v <? 2 ^ 32 then Ok v else Err (-ERANGE)) ∧ safe_atou64 (str " 4294967296") = Ok 4294967296.
Proof.
  assert (decimal (str "4294967296")) as Hd by (split; [repeat constructor; vm_compute; congruence|done|done]).
  assert (Forall (λ c, is_whitespace c = true) (str " ")) as Hw by by repeat constructor.
  destruct (safe_atou_decimal (str " ") (str "4294967296") Hw Hd) as (H1 & H2 & _).
  split; [exact H1|vm_compute; reflexivity].
Defined.
