(* ===== verification/UnitStart.v ===== *)
(** * Starting, stopping and reloading a unit (src/core/unit.c)

    [unit_start], [unit_stop] and [unit_reload] are what the jobs call. They check whether the
    request makes sense in the unit's state, test its conditions and assertions, redirect it to
    the unit that this one follows, and hand it to an operation of the unit type. The unit types
    are a class of parameters; their operations may change everything. The theorem: which request
    is handed to which operation, in which state, and what each of the others is refused with. *)

From S2P Require Import Prelude JobType Prioq RunQueue JobData TrDelete TrFix TrOrder TrMerge TrBuild JobOps JobFinish JobInstall TrApply TrActivate AddJob JobRun RateLimit UnitDep UnitDeps UnitDepsOps UnitNotify UnitTrigger Serialize.

(** The unit types, the tests of conditions, and the monitor of mounts. *)
Class UnitTypes {RQ : RunQueue} := {
  mount_ratelimited : positive → UWorld → bool;  (* a mount unit while that monitor is rate limited *)
  once_only : positive → bool;
  unit_type_supported : positive → bool;
  effective_environment_ok : UWorld → bool;
  conditions_hold : positive → UWorld → bool;
  asserts_hold : positive → UWorld → bool;
  (** the units that a request is redirected to, one after the other: [unit_following] is the first *)
  following_chain : positive → list positive;
  vtable_can_reload : positive → option (UWorld → bool);
  (** operations of the type; the outer option is a pointer that may be NULL *)
  vtable_can_start : positive → option (UWorld → option (Z * UWorld));
  vtable_start : positive → option (UWorld → option (Z * UWorld));
  vtable_stop : positive → option (UWorld → option (Z * UWorld));
  vtable_reload : positive → option (UWorld → option (Z * UWorld));
}.

Section Start.
Context {RQ : RunQueue} {NC : NotifyConf} {UT : UnitTypes}.
Implicit Types (E : Env) (n : @Units RQ) (w : UWorld) (u v : positive) (chain : list positive).

(** ** The code *)

Definition unit_test_condition (now : Z) (u : positive) w : bool * UWorld :=
  let '(E, n) := w in
  let result := if negb (effective_environment_ok w) then true else conditions_hold u w in
  (result, (E, notify_call (unit_add_to_dbus_queue u) (alter_runtime u (set_condition now result) n))).

(** CONDITION_ERROR is not zero, so [assert_result] is true. *)
Definition unit_test_assert (now : Z) (u : positive) w : bool * UWorld :=
  let '(E, n) := w in
  let result := if negb (effective_environment_ok w) then true else asserts_hold u w in
  (result, (E, notify_call (unit_add_to_dbus_queue u) (alter_runtime u (set_assert now result) n))).

Definition unit_verify_deps E (u : positive) : bool :=
  forallb (λ other, negb (bool_decide (other ∈ unit_dependencies u UNIT_ATOM_AFTER)) || UNIT_IS_ACTIVE_OR_RELOADING (unit_active_state other))
    (unit_dependencies u UNIT_ATOM_CANNOT_BE_ACTIVE_WITHOUT).

(** The end of [unit_start] for the unit that is not redirected. *)
Definition start_here (details : option positive) (u : positive) w : option (Z * UWorld) :=
  '(r, w) ← match vtable_can_start u with Some can_start => can_start w | None => Some (0, w) end;
  if r <? 0 then Some (r, w)
  else match vtable_start u with
  | None => Some (-EBADR, w)
  | Some start =>
      let '(E, n) := w in
      let n := notify_call (unit_cgroup_freezer_action u) (notify_call (unit_add_to_dbus_queue u) n) in
      let n := if bool_decide (activation_details (runtime n u) = None) then alter_runtime u (set_activation_details details) n else n in
      start (E, n)
  end.

(** The checks of [unit_start], before it looks for the unit to redirect to. The code asks whether one of the two
    clocks of the timestamp is set; both are set together. *)
Definition start_checks (now : Z) (u : positive) w (go_on : UWorld → option (Z * UWorld)) : option (Z * UWorld) :=
  let '(E, n) := w in
  if mount_ratelimited u w then Some (-EAGAIN, w)
  else
    let state := unit_active_state u in
    if UNIT_IS_ACTIVE_OR_RELOADING state then Some (-EALREADY, w)
    else if bool_decide (state = UNIT_MAINTENANCE) then Some (-EAGAIN, w)
    else if bool_decide (load_state (mgr (sys n)) u ≠ UNIT_LOADED) then Some (-EINVAL, w)
    else if once_only u && timestamp_is_set (inactive_enter_timestamp (runtime n u)) then Some (-ESTALE, w)
    else
      let '(condition, w) := if bool_decide (state ≠ UNIT_ACTIVATING) then unit_test_condition now u w else (true, w) in
      if negb condition then Some (-ECOMM, w)
      else
        let '(assertion, w) := if bool_decide (state ≠ UNIT_ACTIVATING) then unit_test_assert now u w else (true, w) in
        if negb assertion then Some (-EPROTO, w)
        else if negb (unit_type_supported u) then Some (-EOPNOTSUPP, w)
        else if negb (unit_verify_deps E u) then Some (-ENOLINK, w)
        else go_on w.

Fixpoint start_along (now : Z) (details : option positive) (u : positive) (chain : list positive) w : option (Z * UWorld) :=
  start_checks now u w (λ w, match chain with
                             | following :: chain => start_along now details following chain w
                             | [] => start_here details u w
                             end).

Definition unit_start (now : Z) (details : option positive) (u : positive) w : option (Z * UWorld) :=
  start_along now details u (following_chain u) w.

(** [stop] and [reload] end alike. *)
Definition hand_over (operation : UWorld → option (Z * UWorld)) (u : positive) w : option (Z * UWorld) :=
  let '(E, n) := w in
  operation (E, notify_call (unit_cgroup_freezer_action u) (notify_call (unit_add_to_dbus_queue u) n)).

Fixpoint stop_along (u : positive) (chain : list positive) w : option (Z * UWorld) :=
  let '(E, n) := w in
  if UNIT_IS_INACTIVE_OR_FAILED (unit_active_state u) then Some (-EALREADY, w)
  else match chain with
  | following :: chain => stop_along following chain w
  | [] => match vtable_stop u with None => Some (-EBADR, w) | Some stop => hand_over stop u w end
  end.

Definition unit_stop (u : positive) w : option (Z * UWorld) := stop_along u (following_chain u) w.

Definition unit_can_reload_now (u : positive) w : bool :=
  let '(E, n) := w in
  match vtable_can_reload u with
  | Some can_reload => can_reload w
  | None =>
      if bool_decide (unit_dependencies u UNIT_ATOM_PROPAGATES_RELOAD_TO ≠ []) then true
      else bool_decide (is_Some (vtable_reload u))
  end.

Fixpoint reload_along (now : Z) (u : positive) (chain : list positive) w : option (Z * UWorld) :=
  let '(E, n) := w in
  if bool_decide (load_state (mgr (sys n)) u ≠ UNIT_LOADED) then Some (-EINVAL, w)
  else if negb (unit_can_reload_now u w) then Some (-EBADR, w)
  else
    let state := unit_active_state u in
    if bool_decide (state = UNIT_RELOADING) then Some (-EAGAIN, w)
    else if bool_decide (state ≠ UNIT_ACTIVE) then Some (-ENOEXEC, w)
    else match chain with
    | following :: chain => reload_along now following chain w
    | [] =>
        match vtable_reload u with
        | None =>
            let n := notify_call (unit_add_to_dbus_queue u) n in
            n ← unit_notify now u state state (NotifyFlags false false) n;
            Some (0, (E, n))
        | Some reload => hand_over reload u w
        end
    end.

Definition unit_reload (now : Z) (u : positive) w : option (Z * UWorld) := reload_along now u (following_chain u) w.

(** ** When the operation is called *)

(** What the checks ask for. Conditions and assertions are not tested again while the unit starts. *)
Record startable (u : positive) w : Prop := {
  sa_monitor : mount_ratelimited u w = false;
  sa_state : @unit_active_state w.1 u ∈ [UNIT_INACTIVE; UNIT_FAILED; UNIT_ACTIVATING; UNIT_DEACTIVATING];
  sa_loaded : load_state (mgr (sys w.2)) u = UNIT_LOADED;
  sa_once : once_only u = true → timestamp_is_set (inactive_enter_timestamp (runtime w.2 u)) = false;
  sa_condition : @unit_active_state w.1 u ≠ UNIT_ACTIVATING → effective_environment_ok w = true → conditions_hold u w = true;
  sa_supported : unit_type_supported u = true;
  sa_bound v : v ∈ @unit_dependencies w.1 u UNIT_ATOM_CANNOT_BE_ACTIVE_WITHOUT → v ∈ @unit_dependencies w.1 u UNIT_ATOM_AFTER →
    UNIT_IS_ACTIVE_OR_RELOADING (@unit_active_state w.1 v) = true;
}.

(** The tests that a start makes of a unit. *)
Definition tested (now : Z) (u : positive) w : UWorld :=
  if bool_decide (@unit_active_state w.1 u ≠ UNIT_ACTIVATING) then (unit_test_assert now u (unit_test_condition now u w).2).2 else w.

Definition assertion_holds (now : Z) (u : positive) w : Prop :=
  @unit_active_state w.1 u ≠ UNIT_ACTIVATING → let w' := (unit_test_condition now u w).2 in effective_environment_ok w' = true → asserts_hold u w' = true.

(** Every unit on the way passes. *)
Fixpoint all_pass (now : Z) (u : positive) (chain : list positive) w : Prop :=
  startable u w ∧ assertion_holds now u w ∧ match chain with [] => True | v :: chain => all_pass now v chain (tested now u w) end.

Fixpoint all_tested (now : Z) (u : positive) (chain : list positive) w : UWorld :=
  match chain with [] => tested now u w | v :: chain => all_tested now v chain (tested now u w) end.

(** The tests leave everything but their own results alone. *)
Record only_tested w w' : Prop := {
  ot_env : w'.1 = w.1;
  ot_sys : ∃ tr, sys w'.2 = alter_mgr (set_trace tr) (sys w.2);
  ot_failed : failed_units w'.2 = failed_units w.2;
  ot_queues : same_queues w.2 w'.2;
  ot_runtime u : ∃ t c a b, runtime w'.2 u = set_condition t c (set_assert a b (runtime w.2 u));
}.

Lemma set_tests_same r : set_condition (condition_timestamp r) (condition_result r) (set_assert (assert_timestamp r) (assert_result r) r) = r.
Proof. by destruct r. Qed.

#[global] Instance only_tested_preorder : PreOrder only_tested.
Proof.
  split.
  - intros [E n]. split; try done.
    + exists (trace (mgr (sys n))). cbn. by destruct n as [[? ? ? ? ? []] ? ? ? ? ?].
    + intros u. do 4 eexists. symmetry. apply set_tests_same.
  - intros [E1 n1] [E2 n2] [E3 n3] [H1 [tr1 H2] H3 (H4 & H5 & H6) H7] [I1 [tr2 I2] I3 (I4 & I5 & I6) I7]. cbn [fst snd] in *. split; cbn [fst snd]; try congruence.
    + exists tr2. rewrite I2, H2. by destruct (sys n1) as [? ? ? ? ? []].
    + split_and!; cbn [fst snd]; congruence.
    + intros u. destruct (H7 u) as (t & c & a & b & Hu), (I7 u) as (t' & c' & a' & b' & Iu). exists t', c', a', b'. rewrite Iu, Hu. by destruct (runtime n1 u).
Qed.

Lemma alter_tested (f : UnitRuntime → UnitRuntime) c u E n :
  (∀ r, ∃ t x a b, f r = set_condition t x (set_assert a b r)) → only_tested (E, n) (E, notify_call c (alter_runtime u f n)).
Proof.
  intros Hf. split; cbn; try done; [by eexists|]. intros v. case_decide as Hv; [apply Hf|].
  do 4 eexists. symmetry. apply set_tests_same.
Qed.

Lemma condition_tested now u w : only_tested w (unit_test_condition now u w).2.
Proof. destruct w as [E n]. apply alter_tested. intros r. eexists _, _, (assert_timestamp r), (assert_result r). reflexivity. Qed.

Lemma assert_tested now u w : only_tested w (unit_test_assert now u w).2.
Proof. destruct w as [E n]. apply alter_tested. intros r. eexists (condition_timestamp r), (condition_result r), _, _. reflexivity. Qed.

Lemma tested_only now u w : only_tested w (tested now u w).
Proof. unfold tested. case_bool_decide; [|done]. by rewrite <- assert_tested, <- condition_tested. Qed.

(** The unit could be started as far as the monitor and its state go; also loaded, and not used up; also
    its condition holds; also its assertion. *)
Definition can_be_tried u w : Prop :=
  mount_ratelimited u w = false ∧ @unit_active_state w.1 u ∈ [UNIT_INACTIVE; UNIT_FAILED; UNIT_ACTIVATING; UNIT_DEACTIVATING].
Definition is_fresh u w : Prop :=
  can_be_tried u w ∧ load_state (mgr (sys w.2)) u = UNIT_LOADED ∧
  (once_only u = true → timestamp_is_set (inactive_enter_timestamp (runtime w.2 u)) = false).
Definition condition_met u w : Prop :=
  is_fresh u w ∧ (@unit_active_state w.1 u ≠ UNIT_ACTIVATING → effective_environment_ok w = true → conditions_hold u w = true).
Definition assertion_met now u w : Prop := condition_met u w ∧ assertion_holds now u w.

(** Why a unit is not started, and the error that says so: each reason counts only where none before it applies. *)
Inductive refusal (now : Z) u w : Z → Prop :=
  | refusal_limited : mount_ratelimited u w = true → refusal now u w (-EAGAIN)
  | refusal_up : mount_ratelimited u w = false → UNIT_IS_ACTIVE_OR_RELOADING (@unit_active_state w.1 u) = true → refusal now u w (-EALREADY)
  | refusal_maintenance : mount_ratelimited u w = false → @unit_active_state w.1 u = UNIT_MAINTENANCE → refusal now u w (-EAGAIN)
  | refusal_not_loaded : can_be_tried u w → load_state (mgr (sys w.2)) u ≠ UNIT_LOADED → refusal now u w (-EINVAL)
  | refusal_used_up : can_be_tried u w → load_state (mgr (sys w.2)) u = UNIT_LOADED →
      once_only u = true → timestamp_is_set (inactive_enter_timestamp (runtime w.2 u)) = true → refusal now u w (-ESTALE)
  | refusal_condition : is_fresh u w → @unit_active_state w.1 u ≠ UNIT_ACTIVATING →
      effective_environment_ok w = true → conditions_hold u w = false → refusal now u w (-ECOMM)
  | refusal_assertion : condition_met u w → @unit_active_state w.1 u ≠ UNIT_ACTIVATING →
      effective_environment_ok (unit_test_condition now u w).2 = true → asserts_hold u (unit_test_condition now u w).2 = false → refusal now u w (-EPROTO)
  | refusal_unsupported : assertion_met now u w → unit_type_supported u = false → refusal now u w (-EOPNOTSUPP)
  | refusal_bound v : assertion_met now u w → unit_type_supported u = true →
      v ∈ @unit_dependencies w.1 u UNIT_ATOM_CANNOT_BE_ACTIVE_WITHOUT → v ∈ @unit_dependencies w.1 u UNIT_ATOM_AFTER →
      UNIT_IS_ACTIVE_OR_RELOADING (@unit_active_state w.1 v) = false → refusal now u w (-ENOLINK).

(** The first unit on the way that does not pass says why. *)
Inductive refused_along (now : Z) : positive → list positive → UWorld → Z → Prop :=
  | refused_here u chain w r : refusal now u w r → refused_along now u chain w r
  | refused_further u v chain w r : startable u w → assertion_holds now u w → refused_along now v chain (tested now u w) r → refused_along now u (v :: chain) w r.

(** What a refusal says. *)
Definition refused_start (now : Z) (u : positive) w (o : option (Z * UWorld)) : Prop :=
  ∃ r w', o = Some (r, w') ∧ refusal now u w r ∧ only_tested w w'.

Lemma refuse now r u w w' : refusal now u w r → only_tested w w' → refused_start now u w (Some (r, w')).
Proof. intros. by exists r, w'. Qed.

(** The tests of one unit. *)
Lemma condition_cases now u w (up : bool) :
  let '(c, w') := if up then unit_test_condition now u w else (true, w) in
  only_tested w w' ∧ (c = true ↔ (up = true → effective_environment_ok w = true → conditions_hold u w = true)) ∧
  (c = false → up = true ∧ effective_environment_ok w = true ∧ conditions_hold u w = false).
Proof.
  pose proof (condition_tested now u w) as Ht. destruct up; [|by split_and!]. unfold unit_test_condition in *. destruct w as [E n]. cbn [snd] in Ht.
  split; [done|]. destruct (effective_environment_ok (E, n)); cbn [negb]; destruct (conditions_hold u (E, n)); split; naive_solver.
Qed.

Lemma assert_cases now u w (up : bool) :
  let '(a, w') := if up then unit_test_assert now u w else (true, w) in
  only_tested w w' ∧ (a = true ↔ (up = true → effective_environment_ok w = true → asserts_hold u w = true)) ∧
  (a = false → up = true ∧ effective_environment_ok w = true ∧ asserts_hold u w = false).
Proof.
  pose proof (assert_tested now u w) as Ht. destruct up; [|by split_and!]. unfold unit_test_assert in *. destruct w as [E n]. cbn [snd] in Ht.
  split; [done|]. destruct (effective_environment_ok (E, n)); cbn [negb]; destruct (asserts_hold u (E, n)); naive_solver.
Qed.

Lemma verify_deps_spec E u :
  unit_verify_deps E u = true ↔ ∀ v, v ∈ unit_dependencies u UNIT_ATOM_CANNOT_BE_ACTIVE_WITHOUT → v ∈ unit_dependencies u UNIT_ATOM_AFTER → UNIT_IS_ACTIVE_OR_RELOADING (unit_active_state v) = true.
Proof.
  unfold unit_verify_deps. rewrite forallb_forall. split; intros H v Hv.
  - apply list_elem_of_In in Hv. specialize (H v Hv). intros Ha. rewrite bool_decide_eq_true_2 in H by done. done.
  - apply list_elem_of_In in Hv. case_bool_decide; cbn; auto.
Qed.

Lemma verify_deps_false E u : unit_verify_deps E u = false →
  ∃ v, v ∈ unit_dependencies u UNIT_ATOM_CANNOT_BE_ACTIVE_WITHOUT ∧ v ∈ unit_dependencies u UNIT_ATOM_AFTER ∧ UNIT_IS_ACTIVE_OR_RELOADING (unit_active_state v) = false.
Proof.
  unfold unit_verify_deps. induction (unit_dependencies u UNIT_ATOM_CANNOT_BE_ACTIVE_WITHOUT) as [|v l IH]; cbn [forallb]; [done|].
  intros [H|(x & ? & ? & ?)%IH]%andb_false_iff.
  - apply orb_false_iff in H as [H1%negb_false_iff%bool_decide_eq_true H2]. exists v. split_and!; [by left|done..].
  - exists x. split_and!; [by right|done..].
Qed.

Lemma down_states s : s ∈ [UNIT_INACTIVE; UNIT_FAILED; UNIT_ACTIVATING; UNIT_DEACTIVATING] → UNIT_IS_ACTIVE_OR_RELOADING s = false ∧ s ≠ UNIT_MAINTENANCE.
Proof. intros H%(bool_decide_eq_true_2 _). by destruct s. Qed.

Lemma startable_iff u w : startable u w ↔ condition_met u w ∧ unit_type_supported u = true ∧
  ∀ v, v ∈ @unit_dependencies w.1 u UNIT_ATOM_CANNOT_BE_ACTIVE_WITHOUT → v ∈ @unit_dependencies w.1 u UNIT_ATOM_AFTER → UNIT_IS_ACTIVE_OR_RELOADING (@unit_active_state w.1 v) = true.
Proof. split; [intros []; by repeat split|]. intros ((([? ?] & ? & ?) & ?) & ? & ?). by split. Qed.

Lemma refusal_stops now u w r : refusal now u w r → ¬ (startable u w ∧ assertion_holds now u w).
Proof.
  intros H [((([Hl Hs] & Hld & Ho) & Hc) & Hsup & Hb)%startable_iff Ha].
  pose proof (down_states _ Hs) as [Hup Hm]. destruct H as [|? Hup'| | | | |_ Hst He Hf| |v _ _ H1 H2 H3]; try congruence; try (specialize (Ho ltac:(done)); congruence).
  - specialize (Hc ltac:(done) ltac:(done)). congruence.
  - specialize (Ha Hst He). congruence.
  - specialize (Hb v H1 H2). congruence.
Qed.

Lemma up_not_maintenance s : UNIT_IS_ACTIVE_OR_RELOADING s = true → s ≠ UNIT_MAINTENANCE.
Proof. by destruct s. Qed.

(** Only one reason applies. *)
Lemma refusal_unique now u w r r' : refusal now u w r → refusal now u w r' → r = r'.
Proof.
  intros [] []; try reflexivity; exfalso; unfold assertion_met, condition_met, is_fresh, can_be_tried, assertion_holds in *; destruct_and?;
    repeat match goal with H : unit_active_state u ∈ _ |- _ => apply down_states in H; destruct H end;
    repeat match goal with H : once_only u = true, H' : once_only u = true → _ |- _ => specialize (H' H) end;
    repeat match goal with H : @unit_active_state w.1 u ≠ UNIT_ACTIVATING, H' : @unit_active_state w.1 u ≠ UNIT_ACTIVATING → _ |- _ => specialize (H' H) end;
    try congruence; try (by eapply up_not_maintenance);
    match goal with
    | H : effective_environment_ok _ = true, H' : effective_environment_ok _ = true → _ |- _ => specialize (H' H); congruence
    | H : let _ := _ in _ |- _ => cbn zeta in H; match goal with H' : effective_environment_ok _ = true |- _ => specialize (H H'); congruence end
    end.
Qed.

Lemma start_checks_spec now u w go_on :
  startable u w ∧ assertion_holds now u w ∧ start_checks now u w go_on = go_on (tested now u w) ∨
  refused_start now u w (start_checks now u w go_on).
Proof.
  destruct w as [E n]. unfold start_checks. set (up := bool_decide (@unit_active_state E u ≠ UNIT_ACTIVATING)).
  destruct (mount_ratelimited u (E, n)) eqn:Em; [right; apply refuse; [by constructor|done]|].
  destruct (UNIT_IS_ACTIVE_OR_RELOADING (unit_active_state u)) eqn:Ea; [right; apply refuse; [by constructor|done]|].
  destruct (bool_decide (unit_active_state u = UNIT_MAINTENANCE)) eqn:Emt.
  { apply bool_decide_eq_true in Emt. right. apply refuse; [by apply refusal_maintenance|done]. }
  assert (Htry : can_be_tried u (E, n)).
  { split; [done|]. apply bool_decide_eq_false in Emt. refine (bool_decide_eq_true_1 _ _). cbn [fst]. by destruct (unit_active_state u). }
  destruct (bool_decide (load_state _ u ≠ UNIT_LOADED)) eqn:El.
  { apply bool_decide_eq_true in El. right. apply refuse; [by apply refusal_not_loaded|done]. }
  apply bool_decide_eq_false, dec_stable in El. destruct (once_only u && _) eqn:Eo.
  { apply andb_true_iff in Eo as [Eo1 Eo2]. right. apply refuse; [by apply refusal_used_up|done]. }
  assert (Hfresh : is_fresh u (E, n)) by (split_and!; [done..|]; intros Ho; by rewrite Ho in Eo).
  assert (Hup : up = true ↔ @unit_active_state E u ≠ UNIT_ACTIVATING) by apply bool_decide_eq_true.
  assert (Htested : tested now u (E, n) = (if up then unit_test_assert now u (if up then unit_test_condition now u (E, n) else (true, (E, n))).2 else (true, (if up then unit_test_condition now u (E, n) else (true, (E, n))).2)).2)
    by (unfold tested; cbn [fst]; fold up; by destruct up).
  assert (Hw1 : up = true → (if up then unit_test_condition now u (E, n) else (true, (E, n))).2 = (unit_test_condition now u (E, n)).2) by by intros ->.
  clearbody up. pose proof (condition_cases now u (E, n) up) as Hc. rewrite Htested. clear Htested. revert Hc Hw1.
  destruct (if up then unit_test_condition now u (E, n) else (true, (E, n))) as [c w1]. cbn [snd]. intros (Ht1 & Hc & Hcf) Hw1. destruct c; cbn [negb].
  2: { right. destruct (Hcf eq_refl) as (Hu & H1 & H2). apply refuse; [|done]. apply refusal_condition; try done. by apply Hup. }
  assert (Hmet : condition_met u (E, n)) by (split; [done|]; intros Hu; by apply Hc, Hup). clear Hc Hcf.
  pose proof (assert_cases now u w1 up) as Ha. revert Ha. destruct (if up then unit_test_assert now u w1 else (true, w1)) as [a w2]. intros (Ht2 & Ha & Haf).
  assert (Ht : only_tested (E, n) w2) by (by rewrite Ht1). cbn [snd]. destruct a; cbn [negb].
  2: { right. apply refuse; [|done]. destruct (Haf eq_refl) as (Hu & H1 & H2). rewrite (Hw1 Hu) in H1, H2. apply refusal_assertion; try done. by apply Hup. }
  assert (Hass : assertion_holds now u (E, n)).
  { intros Hu%Hup w' He. unfold w' in *. rewrite <- (Hw1 Hu) in *. by apply Ha. }
  destruct (unit_type_supported u) eqn:Es; cbn [negb]; [|right; apply refuse; [by apply refusal_unsupported|done]].
  destruct (unit_verify_deps E u) eqn:Ev; cbn [negb].
  2: { right. apply refuse; [|done]. apply verify_deps_false in Ev as (v & H1 & H2 & H3). by apply (refusal_bound now u (E, n) v). }
  left. split_and!; [|done|done]. apply startable_iff. split_and!; [done..|]. by apply verify_deps_spec.
Qed.

(** The unit that a request ends at. *)
Definition main_unit (u : positive) (chain : list positive) : positive := default u (last chain).

Lemma main_unit_cons u v chain : main_unit u (v :: chain) = main_unit v chain.
Proof. unfold main_unit. rewrite last_cons. by destruct (last chain). Qed.

Lemma main_unit_in u chain : main_unit u chain ∈ u :: chain.
Proof.
  revert u. induction chain as [|v chain IH]; intros u; [apply list_elem_of_here|]. rewrite main_unit_cons. apply list_elem_of_further, IH.
Qed.

Lemma all_tested_only now u chain w : only_tested w (all_tested now u chain w).
Proof. revert u w. induction chain as [|v chain IH]; intros u w; cbn; [apply tested_only|]. etrans; [apply tested_only|apply IH]. Qed.

Lemma start_along_spec now details u chain w :
  all_pass now u chain w ∧ start_along now details u chain w = start_here details (main_unit u chain) (all_tested now u chain w) ∨
  ∃ r w', start_along now details u chain w = Some (r, w') ∧ refused_along now u chain w r ∧ only_tested w w'.
Proof.
  revert u w. induction chain as [|v chain IH]; intros u w; cbn [start_along all_pass all_tested].
  all: match goal with |- context [start_checks ?t ?x ?y ?k] => destruct (start_checks_spec t x y k) as [(H1 & H2 & ->)|(r & w' & -> & Hr & Ht)] end.
  - left. by split_and!.
  - right. exists r, w'. split_and!; [done|by constructor|done].
  - destruct (IH v (tested now u w)) as [[Hp ->]|(r & w' & -> & Hr & Ht)]; [left; by rewrite main_unit_cons|right].
    exists r, w'. split_and!; [done|by constructor|by rewrite <- tested_only in Ht].
  - right. exists r, w'. split_and!; [done|by constructor|done].
Qed.

Lemma refused_not_pass now u chain w r : refused_along now u chain w r → ¬ all_pass now u chain w.
Proof.
  induction 1 as [u chain w r H|u v chain w r H1 H2 _ IH]; [|by intros (_ & _ & ?)].
  apply refusal_stops in H. destruct chain; intros (? & ? & _); by apply H.
Qed.

Lemma refused_along_unique now u chain w r r' : refused_along now u chain w r → refused_along now u chain w r' → r = r'.
Proof.
  induction 1 as [u chain w r H|u v chain w r H1 H2 _ IH]; inversion 1; subst.
  - by eapply refusal_unique.
  - by destruct (refusal_stops _ _ _ _ H).
  - match goal with H : refusal _ _ _ _ |- _ => by destruct (refusal_stops _ _ _ _ H) end.
  - by apply IH.
Qed.

(** ** Handing over *)

(** The state that the operation finds. An older description of what activated the unit is kept. *)
Record handed (details : option positive) (u : positive) (n n' : @Units RQ) : Prop := {
  ha_sys : sys n' = call (unit_cgroup_freezer_action u) (call (unit_add_to_dbus_queue u) (sys n));
  ha_failed : failed_units n' = failed_units n;
  ha_queues : same_queues n n';
  ha_unit : runtime n' u = set_activation_details (match activation_details (runtime n u) with Some d => Some d | None => details end) (runtime n u);
  ha_others v : v ≠ u → runtime n' v = runtime n v;
}.

Lemma start_here_spec details u w r0 E n :
  match vtable_can_start u with Some can_start => can_start w | None => Some (0, w) end = Some (r0, (E, n)) →
  (r0 < 0 → start_here details u w = Some (r0, (E, n))) ∧
  (0 <= r0 → match vtable_start u with
             | None => start_here details u w = Some (-EBADR, (E, n))
             | Some start => ∃ n', handed details u n n' ∧ start_here details u w = start (E, n')
             end).
Proof.
  intros H. unfold start_here. rewrite H. cbn [mbind option_bind]. split; intros Hr.
  - by rewrite (proj2 (Z.ltb_lt r0 0) Hr).
  - rewrite (proj2 (Z.ltb_ge r0 0) Hr). destruct (vtable_start u) as [start|]; [|done]. eexists. split; [|reflexivity].
    case_bool_decide as Hd; cbn in Hd; split; try done; cbn; try rewrite Hd.
    + by rewrite decide_True.
    + intros v Hv. by rewrite decide_False.
    + by destruct (runtime n u) as [? ? ? ? ? ? ? ? ? ? ? ? [?|]].
Qed.

(** ** Stopping and reloading *)

(** The type says so, or something is reloaded through the unit, or the type has an operation. *)
Definition can_reload u w : Prop :=
  match vtable_can_reload u with
  | Some ask => ask w = true
  | None => @unit_dependencies w.1 u UNIT_ATOM_PROPAGATES_RELOAD_TO ≠ [] ∨ vtable_reload u ≠ None
  end.

Definition reloadable u w : Prop :=
  load_state (mgr (sys w.2)) u = UNIT_LOADED ∧ can_reload u w ∧ @unit_active_state w.1 u = UNIT_ACTIVE.

(** Why a unit is not reloaded, and the error that says so. *)
Inductive reload_refusal u w : Z → Prop :=
  | reload_not_loaded : load_state (mgr (sys w.2)) u ≠ UNIT_LOADED → reload_refusal u w (-EINVAL)
  | reload_cannot : load_state (mgr (sys w.2)) u = UNIT_LOADED → ¬ can_reload u w → reload_refusal u w (-EBADR)
  | reload_running : load_state (mgr (sys w.2)) u = UNIT_LOADED → can_reload u w →
      @unit_active_state w.1 u = UNIT_RELOADING → reload_refusal u w (-EAGAIN)
  | reload_not_active : load_state (mgr (sys w.2)) u = UNIT_LOADED → can_reload u w →
      @unit_active_state w.1 u ≠ UNIT_RELOADING → @unit_active_state w.1 u ≠ UNIT_ACTIVE → reload_refusal u w (-ENOEXEC).

Lemma can_reload_iff u w : unit_can_reload_now u w = true ↔ can_reload u w.
Proof.
  unfold unit_can_reload_now, can_reload. destruct w as [E n]. destruct (vtable_can_reload u); [done|]. cbn [fst].
  case_bool_decide as H; [by split; [left|]|]. rewrite bool_decide_eq_true, <- not_eq_None_Some. tauto.
Qed.

Lemma reload_along_refused now u chain w r before v after :
  u :: chain = before ++ v :: after → Forall (λ x, reloadable x w) before → reload_refusal v w r → reload_along now u chain w = Some (r, w).
Proof.
  intros Hc Hb Hr. revert u chain Hc. induction Hb as [|x before (Hl & Hcan & Ha) _ IH]; intros u chain [= -> ->].
  - destruct w as [E n], after; cbn [reload_along]; destruct Hr as [Hl|Hl Hcan|Hl Hcan Hs|Hl Hcan Hs Ha]; cbn [fst snd] in *;
      rewrite ?(bool_decide_eq_true_2 _ Hl), ?(bool_decide_eq_false_2 (_ ≠ UNIT_LOADED)) by (by intros ?); try done;
      try (rewrite <- can_reload_iff in Hcan; first [rewrite Hcan|apply not_true_is_false in Hcan; rewrite Hcan]); cbn [negb]; try done;
      try (by rewrite bool_decide_eq_true_2); by rewrite bool_decide_eq_false_2, bool_decide_eq_true_2.
  - destruct w as [E n]. cbn [fst snd] in *. apply can_reload_iff in Hcan.
    destruct (before ++ v :: after) as [|y rest] eqn:Hrest; [by destruct before|]. cbn [reload_along].
    rewrite (bool_decide_eq_false_2 (_ ≠ UNIT_LOADED)) by (by intros ?). rewrite Hcan, Ha. cbn. by apply IH.
Qed.

Lemma reload_along_all now u chain E n :
  Forall (λ x, reloadable x (E, n)) (u :: chain) → let main := main_unit u chain in
  reload_along now u chain (E, n) =
    match vtable_reload main with
    | Some reload => reload (E, notify_call (unit_cgroup_freezer_action main) (notify_call (unit_add_to_dbus_queue main) n))
    | None => n' ← unit_notify now main UNIT_ACTIVE UNIT_ACTIVE (NotifyFlags false false) (notify_call (unit_add_to_dbus_queue main) n); Some (0, (E, n'))
    end.
Proof.
  revert u. induction chain as [|v chain IH]; intros u H; cbn zeta; cbn [reload_along]; apply Forall_cons in H as [(Hl & Hcan%can_reload_iff & Ha) H]; cbn [fst snd] in *;
    rewrite (bool_decide_eq_false_2 (_ ≠ UNIT_LOADED)) by (by intros ?); rewrite Hcan, Ha; cbn.
  - done.
  - rewrite main_unit_cons. by apply IH.
Qed.

Lemma stop_along_spec u chain E n :
  stop_along u chain (E, n) =
    if existsb (λ v, UNIT_IS_INACTIVE_OR_FAILED (@unit_active_state E v)) (u :: chain) then Some (-EALREADY, (E, n))
    else let main := main_unit u chain in
      match vtable_stop main with
      | Some stop => stop (E, notify_call (unit_cgroup_freezer_action main) (notify_call (unit_add_to_dbus_queue main) n))
      | None => Some (-EBADR, (E, n))
      end.
Proof.
  revert u. induction chain as [|v chain IH]; intros u; cbn [stop_along existsb]; destruct (UNIT_IS_INACTIVE_OR_FAILED _); cbn [orb]; try done.
  rewrite IH. cbn zeta. by rewrite main_unit_cons.
Qed.

(** ** The properties *)

(** C16: which request starts a unit, in which state of the manager, and what the others are refused with. If
    the unit and those it is redirected to are down or starting, loaded, not used up and supported and hold their
    conditions and assertions, and the units they are bound to and ordered after are up, then the
    last of them is started: after tests that record their results and nothing else, its type is asked
    whether it can start; if so, the operation of the type is called, in the state where the unit is queued to be
    announced and thawed and what activated it is noted, and its result is the result. If the type says no its error is
    returned, if it has no such operation -EBADR. Otherwise the first unit on the way that fails a check
    says which error is returned ([refusal]: -EAGAIN, -EALREADY, -EINVAL, -ESTALE, -ECOMM, -EPROTO,
    -EOPNOTSUPP or -ENOLINK), and jobs, queues and failed units are as they were. *)
Theorem unit_start_exact (now : Z) (details : option positive) (u : positive) (w : UWorld) :
  let chain := following_chain u in let main := main_unit u chain in let w1 := all_tested now u chain w in
  (all_pass now u chain w → only_tested w w1 ∧ main ∈ u :: chain ∧
     ∀ r0 E n, match vtable_can_start main with Some can_start => can_start w1 | None => Some (0, w1) end = Some (r0, (E, n)) →
       (r0 < 0 → unit_start now details u w = Some (r0, (E, n))) ∧
       (0 <= r0 → match vtable_start main with
                  | None => unit_start now details u w = Some (-EBADR, (E, n))
                  | Some start => ∃ n', handed details main n n' ∧ unit_start now details u w = start (E, n')
                  end)) ∧
  (¬ all_pass now u chain w → ∃ r, refused_along now u chain w r) ∧
  (∀ r, refused_along now u chain w r → ∃ w', unit_start now details u w = Some (r, w') ∧ only_tested w w').
Proof.
  cbn zeta. unfold unit_start. destruct (start_along_spec now details u (following_chain u) w) as [[Hp ->]|(r & w' & -> & Hr & Ht)]; split_and!.
  - intros _. split_and!; [apply all_tested_only|apply main_unit_in|]. intros r0 E n. apply start_here_spec.
  - done.
  - intros r Hr. by apply refused_not_pass in Hr.
  - intros Hp. by apply refused_not_pass in Hr.
  - intros _. by exists r.
  - intros r2 Hr2. rewrite (refused_along_unique _ _ _ _ _ _ Hr2 Hr). by exists w'.
Qed.

(** C24: which request stops or reloads a unit, and what the others are refused with. A stop is refused
    with -EALREADY if the unit, or one of those it is redirected to, is down; a reload by the first of them
    that is not loaded (-EINVAL), cannot be reloaded (-EBADR), is being reloaded (-EAGAIN) or is not active
    (-ENOEXEC). A refusal changes nothing. Otherwise the last of the units is queued to be announced and thawed and
    handed to the operation of its type, whose result is the result. Without such an operation a stop ends
    with -EBADR; a reload is passed on by notifying that the unit is still active, which succeeds, fails no
    assertion and keeps the invariants of jobs and queues. *)
Theorem unit_stop_reload_exact (now : Z) (u : positive) E n :
  let chain := following_chain u in let main := main_unit u chain in
  let announced := notify_call (unit_add_to_dbus_queue main) n in let thawed := notify_call (unit_cgroup_freezer_action main) announced in
  ((∃ v, v ∈ u :: chain ∧ UNIT_IS_INACTIVE_OR_FAILED (@unit_active_state E v) = true) → unit_stop u (E, n) = Some (-EALREADY, (E, n))) ∧
  ((∀ v, v ∈ u :: chain → UNIT_IS_INACTIVE_OR_FAILED (@unit_active_state E v) = false) →
     unit_stop u (E, n) = match vtable_stop main with Some stop => stop (E, thawed) | None => Some (-EBADR, (E, n)) end) ∧
  (∀ before v after r, u :: chain = before ++ v :: after → Forall (λ x, reloadable x (E, n)) before → reload_refusal v (E, n) r →
     unit_reload now u (E, n) = Some (r, (E, n))) ∧
  (Forall (λ x, reloadable x (E, n)) (u :: chain) →
     match vtable_reload main with
     | Some reload => unit_reload now u (E, n) = reload (E, thawed)
     | None => well_formed E → @tidy RQ E n → main ∈ @units E → ∃ n', unit_reload now u (E, n) = Some (0, (E, n')) ∧ @tidy RQ E n' ∧
         unit_notify now main UNIT_ACTIVE UNIT_ACTIVE (NotifyFlags false false) announced = Some n'
     end).
Proof.
  cbn zeta. unfold unit_stop, unit_reload. rewrite stop_along_spec. cbn zeta. split_and!.
  - intros (v & Hv & Hd). rewrite (proj2 (existsb_exists _ _)); [done|]. exists v. by rewrite <- list_elem_of_In.
  - intros Hv. destruct (existsb _ _) eqn:Ex; [|done]. apply existsb_exists in Ex as (v & Hin%list_elem_of_In & Hd). rewrite Hv in Hd; done.
  - intros before v after r. apply reload_along_refused.
  - intros Hall. pose proof (reload_along_all now u (following_chain u) E n Hall) as ->. cbn zeta.
    destruct (vtable_reload _) as [reload|]; [done|]. intros (Hk & Hd & Hc) Hn Hu.
    assert (Hact : @unit_active_state E (main_unit u (following_chain u)) = UNIT_ACTIVE).
    { rewrite Forall_forall in Hall. by apply (Hall _ (main_unit_in u (following_chain u))). }
    destruct (unit_notify_spec Hk Hd Hc now (main_unit u (following_chain u)) UNIT_ACTIVE UNIT_ACTIVE (NotifyFlags false false) (notify_call (unit_add_to_dbus_queue (main_unit u (following_chain u))) n)) as (n1 & n' & -> & Hn' & _); [by apply call_tidy|done..|].
    by exists n'.
Qed.

End Start.

(** ** Witness: the units of UnitNotify with operations that take effect at once *)

(** The unit changes its state and reports it. *)
Definition change_state {RQ : RunQueue} {NC : NotifyConf} (now : Z) (u : positive) (s : UnitActiveState) (w : UWorld) : option (Z * UWorld) :=
  let '(E, n) := w in
  if bool_decide (u ∈ units) then
    let E' := set_unit_state u s E in
    n ← @unit_notify RQ E' NC now u (@unit_active_state E u) s (NotifyFlags false false) n;
    Some (0, (E', n))
  else Some (-EINVAL, w).

Definition plain_types : @UnitTypes ex_rq := {|
  mount_ratelimited _ _ := false; once_only _ := false; unit_type_supported _ := true; effective_environment_ok _ := true;
  conditions_hold _ _ := true; asserts_hold _ _ := true; following_chain u := if decide (u = 3%positive) then [1%positive] else [];
  vtable_can_reload _ := Some (λ _, true); vtable_can_start _ := None;
  vtable_start u := Some (change_state (NC := bound_conf) 100 u UNIT_ACTIVE); vtable_stop u := Some (change_state (NC := bound_conf) 100 u UNIT_INACTIVE); vtable_reload _ := None |}.

Lemma unit_start_exact_witness :
  let w := (bound_env, start_units) in let UT := plain_types in
  (∃ n', handed (Some 7%positive) 1 (all_tested 100 1 [] w).2 n' ∧ unit_start 100 (Some 7%positive) 1 w = change_state (NC := bound_conf) 100 1 UNIT_ACTIVE (bound_env, n')) ∧
  ∃ w', unit_start 100 None 2 w = Some (-EALREADY, w').
Proof.
  intros w UT. split.
  - destruct (unit_start_exact 100 (Some 7%positive) 1 w) as [H _]. change (following_chain 1) with (@nil positive) in H. destruct H as ([HE _ _ _ _] & _ & H).
    + split_and!; [|done|done]. split; try done; [by_decide|].
      intros v Hv. revert v Hv. vm_compute. intros v Hv. by apply not_elem_of_nil in Hv.
    + destruct (H 0 (all_tested 100 1 [] w).1 (all_tested 100 1 [] w).2) as [_ H1]; [by rewrite <- surjective_pairing|]. rewrite HE in H1. by apply H1.
  - destruct (unit_start_exact 100 None 2 w) as (_ & _ & H). destruct (H (-EALREADY)) as (w' & -> & _); [|by eexists].
    apply refused_here, refusal_up; reflexivity.
Defined.

Lemma unit_stop_reload_exact_witness :
  let w := (bound_env, start_units) in let NC := bound_conf in let UT := plain_types in
  unit_stop 3 w = Some (-EALREADY, w) ∧ unit_reload 100 3 w = Some (-ENOEXEC, w) ∧ ∃ n', unit_reload 100 2 w = Some (0, (bound_env, n')).
Proof.
  intros w NC UT. split_and!.
  - destruct (unit_stop_reload_exact 100 3 bound_env start_units) as (H & _ & _ & _). apply H. exists 1%positive. split; [by_decide|reflexivity].
  - destruct (unit_stop_reload_exact 100 3 bound_env start_units) as (_ & _ & H & _). apply (H [3%positive] 1%positive []); [reflexivity|by repeat constructor|by constructor].
  - destruct (unit_stop_reload_exact 100 2 bound_env start_units) as (_ & _ & _ & H). destruct H as (n' & H & _).
    + by repeat constructor.
    + split_and!; [exact bound_settings|exact bound_env_closed|exact bound_capacity].
    + exact start_units_tidy.
    + by_decide.
    + by exists n'.
Defined.

(** Starting unit 1, which failed, starts it; unit 2 is up already. *)
Example starts :
  option_map (λ o, (o.1, @unit_active_state o.2.1 1%positive)) (unit_start (UT := plain_types) 100 None 1 (bound_env, start_units)) = Some (0, UNIT_ACTIVE) ∧
  option_map fst (unit_start (UT := plain_types) 100 None 2 (bound_env, start_units)) = Some (-EALREADY) ∧
  option_map fst (unit_stop (UT := plain_types) 1 (bound_env, start_units)) = Some (-EALREADY) ∧
  option_map fst (unit_reload (NC := bound_conf) (UT := plain_types) 100 1 (bound_env, start_units)) = Some (-ENOEXEC).
Proof. split_and!; vm_compute; reflexivity. Qed.
