(* ===== verification/JobSerialize.v ===== *)
(** * Writing a job to a serialization and reading it back (src/core/job.c, src/core/unit.c,
    src/core/path.c, src/core/timer.c, src/core/dbus.c)

    When the manager re-executes itself it writes its jobs as items to a file, and reads them
    back afterwards. The theorems: reading terminates on every file and gives a job whose fields are in
    their ranges; a job that was written is what is read, as long as the strings in it fit on a line. *)

From stdpp Require Import finite.
From S2P Require Import Prelude JobType Hexdecoct UnitDeps UnitName Serialize.

(** ** The fields that are written *)

Inductive ActivationData :=
  | ActivationDetailsPath (trigger_path_filename : option (list Z))
  | ActivationDetailsTimer (last_trigger : dual_timestamp).

Record ActivationDetails := MkDetails { trigger_unit_name : option (list Z); trigger_data : ActivationData }.

Definition trigger_unit_type (d : ActivationDetails) : UnitType :=
  match trigger_data d with ActivationDetailsPath _ => UNIT_PATH | ActivationDetailsTimer _ => UNIT_TIMER end.

(** A job that is not installed, with the fields that only matter here. [None] is _JOB_TYPE_INVALID.
    [bus_track] has the names in the order in which they are visited, each with its counter. *)
Record SavedJob := MkSaved {
  s_id : Z;
  s_type : option JobType;
  s_state : JobState;
  s_irreversible : bool;
  sent_dbus_new_signal : bool;
  s_ignore_order : bool;
  begin_usec : Z;
  begin_running_usec : Z;
  bus_track : list (list Z * nat);
  deserialized_clients : list (list Z);
  s_activation_details : option ActivationDetails;
}.

Definition job_new_raw : SavedJob := MkSaved 0 None JOB_WAITING false false false 0 0 [] [] None.

Definition set_s_id (x : Z) (j : SavedJob) : SavedJob :=
  MkSaved x (s_type j) (s_state j) (s_irreversible j) (sent_dbus_new_signal j) (s_ignore_order j) (begin_usec j) (begin_running_usec j) (bus_track j) (deserialized_clients j) (s_activation_details j).
Definition set_s_type (x : option JobType) (j : SavedJob) : SavedJob :=
  MkSaved (s_id j) x (s_state j) (s_irreversible j) (sent_dbus_new_signal j) (s_ignore_order j) (begin_usec j) (begin_running_usec j) (bus_track j) (deserialized_clients j) (s_activation_details j).
Definition set_s_state (x : JobState) (j : SavedJob) : SavedJob :=
  MkSaved (s_id j) (s_type j) x (s_irreversible j) (sent_dbus_new_signal j) (s_ignore_order j) (begin_usec j) (begin_running_usec j) (bus_track j) (deserialized_clients j) (s_activation_details j).
Definition set_s_irreversible (x : bool) (j : SavedJob) : SavedJob :=
  MkSaved (s_id j) (s_type j) (s_state j) x (sent_dbus_new_signal j) (s_ignore_order j) (begin_usec j) (begin_running_usec j) (bus_track j) (deserialized_clients j) (s_activation_details j).
Definition set_sent_dbus_new_signal (x : bool) (j : SavedJob) : SavedJob :=
  MkSaved (s_id j) (s_type j) (s_state j) (s_irreversible j) x (s_ignore_order j) (begin_usec j) (begin_running_usec j) (bus_track j) (deserialized_clients j) (s_activation_details j).
Definition set_s_ignore_order (x : bool) (j : SavedJob) : SavedJob :=
  MkSaved (s_id j) (s_type j) (s_state j) (s_irreversible j) (sent_dbus_new_signal j) x (begin_usec j) (begin_running_usec j) (bus_track j) (deserialized_clients j) (s_activation_details j).
Definition set_begin_usec (x : Z) (j : SavedJob) : SavedJob :=
  MkSaved (s_id j) (s_type j) (s_state j) (s_irreversible j) (sent_dbus_new_signal j) (s_ignore_order j) x (begin_running_usec j) (bus_track j) (deserialized_clients j) (s_activation_details j).
Definition set_begin_running_usec (x : Z) (j : SavedJob) : SavedJob :=
  MkSaved (s_id j) (s_type j) (s_state j) (s_irreversible j) (sent_dbus_new_signal j) (s_ignore_order j) (begin_usec j) x (bus_track j) (deserialized_clients j) (s_activation_details j).
Definition set_bus_track (x : list (list Z * nat)) (j : SavedJob) : SavedJob :=
  MkSaved (s_id j) (s_type j) (s_state j) (s_irreversible j) (sent_dbus_new_signal j) (s_ignore_order j) (begin_usec j) (begin_running_usec j) x (deserialized_clients j) (s_activation_details j).
Definition set_deserialized_clients (x : list (list Z)) (j : SavedJob) : SavedJob :=
  MkSaved (s_id j) (s_type j) (s_state j) (s_irreversible j) (sent_dbus_new_signal j) (s_ignore_order j) (begin_usec j) (begin_running_usec j) (bus_track j) x (s_activation_details j).
Definition set_s_activation_details (x : option ActivationDetails) (j : SavedJob) : SavedJob :=
  MkSaved (s_id j) (s_type j) (s_state j) (s_irreversible j) (sent_dbus_new_signal j) (s_ignore_order j) (begin_usec j) (begin_running_usec j) (bus_track j) (deserialized_clients j) x.

(** ** Names of types and states *)

Definition job_state_to_string (s : JobState) : list Z :=
  match s with JOB_WAITING => str "waiting" | JOB_RUNNING => str "running" end.

Definition job_type_to_string (t : JobType) : list Z :=
  match t with
  | JOB_START => str "start"
  | JOB_VERIFY_ACTIVE => str "verify-active"
  | JOB_STOP => str "stop"
  | JOB_RELOAD => str "reload"
  | JOB_RELOAD_OR_START => str "reload-or-start"
  | JOB_RESTART => str "restart"
  | JOB_TRY_RESTART => str "try-restart"
  | JOB_TRY_RELOAD => str "try-reload"
  | JOB_NOP => str "nop"
  end.

(** The first entry of the table with this name; [None] is -EINVAL. *)
Fixpoint table_lookup {A} (to_string : A → list Z) (table : list A) (key : list Z) : option A :=
  match table with
  | [] => None
  | x :: table => if bool_decide (to_string x = key) then Some x else table_lookup to_string table key
  end.

Definition job_state_from_string (s : list Z) : option JobState := table_lookup job_state_to_string [JOB_WAITING; JOB_RUNNING] s.
Definition job_type_from_string (s : list Z) : option JobType :=
  table_lookup job_type_to_string
    [JOB_START; JOB_VERIFY_ACTIVE; JOB_STOP; JOB_RELOAD; JOB_RESTART; JOB_NOP; JOB_TRY_RESTART; JOB_TRY_RELOAD; JOB_RELOAD_OR_START] s.

(** ** Writing *)

Definition activation_details_path_serialize (trigger_path_filename : option (list Z)) : list Z :=
  match trigger_path_filename with
  | Some name => (serialize_item (str "activation-details-path-filename") (Some name)).1
  | None => []
  end.

Definition activation_details_timer_serialize (last_trigger : dual_timestamp) : list Z :=
  (serialize_dual_timestamp (str "activation-details-timer-last-trigger") last_trigger).1.

Definition activation_details_serialize (details : option ActivationDetails) : list Z :=
  match details with
  | None => []
  | Some d =>
      (serialize_item (str "activation-details-unit-type") (Some (unit_type_to_string (trigger_unit_type d)))).1 ++
      match trigger_unit_name d with Some name => (serialize_item (str "activation-details-unit-name") (Some name)).1 | None => [] end ++
      match trigger_data d with
      | ActivationDetailsPath name => activation_details_path_serialize name
      | ActivationDetailsTimer t => activation_details_timer_serialize t
      end
  end.

Definition bus_track_serialize (t : list (list Z * nat)) (prefix : list Z) : list Z :=
  concat (map (λ '(n, c), concat (repeat (serialize_item prefix (Some n)).1 c)) t).

Definition job_serialize (j : SavedJob) : list Z :=
  (serialize_item_format (str "job-id") (format_uint (s_id j))).1 ++
  (serialize_item (str "job-type") (option_map job_type_to_string (s_type j))).1 ++
  (serialize_item (str "job-state") (Some (job_state_to_string (s_state j)))).1 ++
  (serialize_bool (str "job-irreversible") (s_irreversible j)).1 ++
  (serialize_bool (str "job-sent-dbus-new-signal") (sent_dbus_new_signal j)).1 ++
  (serialize_bool (str "job-ignore-order") (s_ignore_order j)).1 ++
  (if 0 <? begin_usec j then (serialize_usec (str "job-begin") (begin_usec j)).1 else []) ++
  (if 0 <? begin_running_usec j then (serialize_usec (str "job-begin-running") (begin_running_usec j)).1 else []) ++
  bus_track_serialize (bus_track j) (str "subscribed") ++
  activation_details_serialize (s_activation_details j) ++
  [NL].

(** ** Reading *)

Definition streq (a b : list Z) : bool := bool_decide (a = b).

Definition activation_details_path_deserialize (key value : list Z) (name : option (list Z)) : Z * option (list Z) :=
  if negb (streq key (str "activation-details-path-filename")) then (-EINVAL, name) else (0, Some value).

Definition activation_details_timer_deserialize (key value : list Z) (last_trigger : dual_timestamp) : Z * dual_timestamp :=
  if negb (streq key (str "activation-details-timer-last-trigger")) then (-EINVAL, last_trigger)
  else match deserialize_dual_timestamp value with Err r => (r, last_trigger) | Ok t => (0, t) end.

Definition activation_details_deserialize (key value : list Z) (details : option ActivationDetails) : Z * option ActivationDetails :=
  match details with
  | None =>
      if negb (streq key (str "activation-details-unit-type")) then (-EINVAL, None)
      else match unit_type_from_string value with
      | Some UNIT_PATH => (0, Some (MkDetails None (ActivationDetailsPath None)))
      | Some UNIT_TIMER => (0, Some (MkDetails None (ActivationDetailsTimer (MkDualTimestamp 0 0))))
      | _ => (-EINVAL, None)
      end
  | Some d =>
      if streq key (str "activation-details-unit-name") then (0, Some (MkDetails (Some value) (trigger_data d)))
      else match trigger_data d with
      | ActivationDetailsPath name =>
          let '(r, name) := activation_details_path_deserialize key value name in
          (r, Some (MkDetails (trigger_unit_name d) (ActivationDetailsPath name)))
      | ActivationDetailsTimer t =>
          let '(r, t) := activation_details_timer_deserialize key value t in
          (r, Some (MkDetails (trigger_unit_name d) (ActivationDetailsTimer t)))
      end
  end.

Definition startswith (s prefix : list Z) : bool := bool_decide (take (length prefix) s = prefix).

(** [x || b] of a flag and what [parse_boolean] gave *)
Definition or_boolean (x : bool) (v : list Z) : bool :=
  let b := parse_boolean v in if b <? 0 then x else x || negb (b =? 0).

(** One item of the loop, with the key [l] and the value [v]. *)
Definition deserialize_item (l v : list Z) (j : SavedJob) : SavedJob :=
  if streq l (str "job-id") then match safe_atou32 v with Ok id => set_s_id id j | Err _ => j end
  else if streq l (str "job-type") then
    match job_type_from_string v with
    | None => j
    | Some t => if _JOB_TYPE_MAX_IN_TRANSACTION <=? job_type_num t then j else set_s_type (Some t) j
    end
  else if streq l (str "job-state") then match job_state_from_string v with Some s => set_s_state s j | None => j end
  else if streq l (str "job-irreversible") then set_s_irreversible (or_boolean (s_irreversible j) v) j
  else if streq l (str "job-sent-dbus-new-signal") then set_sent_dbus_new_signal (or_boolean (sent_dbus_new_signal j) v) j
  else if streq l (str "job-ignore-order") then set_s_ignore_order (or_boolean (s_ignore_order j) v) j
  else if streq l (str "job-begin") then match deserialize_usec v with Ok u => set_begin_usec u j | Err _ => j end
  else if streq l (str "job-begin-running") then match deserialize_usec v with Ok u => set_begin_running_usec u j | Err _ => j end
  else if streq l (str "subscribed") then set_deserialized_clients (deserialized_clients j ++ [v]) j
  else if startswith l (str "activation-details") then set_s_activation_details (activation_details_deserialize l v (s_activation_details j)).2 j
  else j.

(** The job and what is left of the file, or the error of the line that could not be read. *)
Fixpoint deserialize_loop (fuel : nat) (j : SavedJob) (f : list Z) : option (SavedJob * res (list Z)) :=
  match fuel with
  | O => None
  | S fuel =>
      match read_line LONG_LINE_MAX f with
      | Err r => Some (j, Err r)
      | Ok (r, line, f) =>
          if r =? 0 then Some (j, Ok f)
          else
            let l := strstrip line in
            if bool_decide (l = []) then Some (j, Ok f)
            else let '(l, v) := split_item l in deserialize_loop fuel (deserialize_item l v j) f
      end
  end.

Definition job_deserialize (j : SavedJob) (f : list Z) : option (SavedJob * res (list Z)) := deserialize_loop (S (length f)) j f.

(** ** Reading terminates on every file *)

Lemma read_line_loop_count limit f n count eol buffer c l rest :
  read_line_loop limit false f n count eol buffer = Ok (c, l, rest) → c + len rest = count + len f.
Proof.
  revert n count eol buffer. induction f as [|x f IH]; intros n count eol buffer; cbn [read_line_loop]; repeat case_match; try done;
    try (intros [= <- <- <-]; lia); intros Hr; apply IH in Hr; rewrite len_cons; lia.
Qed.

Lemma read_line_shorter f r l rest : read_line LONG_LINE_MAX f = Ok (r, l, rest) → r ≠ 0 → (length rest < length f)%nat ∨ r < 0.
Proof. intros H Hr. apply read_line_loop_count in H. unfold len in H. lia. Qed.

Lemma read_line_loop_nonneg limit f n count eol buffer c l rest :
  read_line_loop limit false f n count eol buffer = Ok (c, l, rest) → count <= c.
Proof.
  revert n count eol buffer. induction f as [|x f IH]; intros n count eol buffer; cbn [read_line_loop]; repeat case_match; try done;
    try (intros [= <- <- <-]; lia); intros Hr; apply IH in Hr; lia.
Qed.

(** The fields are in the ranges of their types, and the type is one that can be installed. *)
Record saved_ok (j : SavedJob) : Prop := {
  so_id : 0 <= s_id j < 2 ^ 32;
  so_type t : s_type j = Some t → job_type_num t < _JOB_TYPE_MAX_IN_TRANSACTION;
  so_begin : 0 <= begin_usec j < 2 ^ 64 ∧ 0 <= begin_running_usec j < 2 ^ 64;
}.

(** Flags are only set, clients only added, and the trigger does not change once it is there. *)
Record grows (j j' : SavedJob) : Prop := {
  gr_flags : (s_irreversible j → s_irreversible j') ∧ (sent_dbus_new_signal j → sent_dbus_new_signal j') ∧ (s_ignore_order j → s_ignore_order j');
  gr_clients : deserialized_clients j `prefix_of` deserialized_clients j';
  gr_track : bus_track j' = bus_track j;
  gr_details d : s_activation_details j = Some d → ∃ d', s_activation_details j' = Some d' ∧ trigger_unit_type d' = trigger_unit_type d;
}.

#[global] Instance grows_preorder : PreOrder grows.
Proof.
  split; [intros j; split; [done|done|done|eauto]|]. intros j1 j2 j3 [(A1 & A2 & A3) A4 A5 A6] [(B1 & B2 & B3) B4 B5 B6]. split.
  - split_and!; auto.
  - by etrans.
  - congruence.
  - intros d Hd. destruct (A6 d Hd) as (d2 & Hd2 & ?). destruct (B6 d2 Hd2) as (d3 & ? & ?). exists d3. split; [done|congruence].
Qed.

Lemma or_boolean_grows (x : bool) v : x → or_boolean x v.
Proof. destruct x; [|done]. unfold or_boolean. by destruct (_ <? 0). Qed.

Lemma details_type key value d : ∃ d', (activation_details_deserialize key value (Some d)).2 = Some d' ∧ trigger_unit_type d' = trigger_unit_type d.
Proof.
  unfold activation_details_deserialize, trigger_unit_type. case_match; [by eexists|]. destruct (trigger_data d) as [name|t].
  - destruct (activation_details_path_deserialize _ _ _) as [? ?]. by eexists.
  - destruct (activation_details_timer_deserialize _ _ _) as [? ?]. by eexists.
Qed.

Lemma deserialize_item_grows l v j : grows j (deserialize_item l v j).
Proof.
  unfold deserialize_item. repeat case_match; try reflexivity; split; cbn; try done; try eauto; try (split_and!; try done; apply or_boolean_grows).
  - by apply prefix_app_r.
  - intros d ->. apply details_type.
Qed.

Lemma deserialize_item_ok l v j : saved_ok j → saved_ok (deserialize_item l v j).
Proof.
  intros [Hi Ht [Hb Hr]]. unfold deserialize_item.
  repeat case_match; try done; split; cbn; try done.
  - by eapply (safe_atou_range v).
  - intros t [= <-]. lia.
  - split; [by eapply (safe_atou_range v)|done].
  - split; [done|by eapply (safe_atou_range v)].
Qed.

Lemma deserialize_loop_total fuel j f : (length f < fuel)%nat →
  ∃ j' r, deserialize_loop fuel j f = Some (j', r) ∧ grows j j' ∧ (saved_ok j → saved_ok j') ∧ (∀ rest, r = Ok rest → (length rest <= length f)%nat).
Proof.
  revert j f. induction fuel as [|fuel IH]; intros j f Hf; [lia|]. cbn [deserialize_loop].
  destruct (read_line LONG_LINE_MAX f) as [[[r line] rest]|e] eqn:Er.
  2:{ exists j, (Err e). split_and!; [done|reflexivity|done|done]. }
  pose proof (read_line_loop_count _ _ _ _ _ _ _ _ _ Er) as Hc. pose proof (read_line_loop_nonneg _ _ _ _ _ _ _ _ _ Er) as Hn. unfold len in Hc.
  assert (Hend : ∃ j' r, Some (j, Ok rest) = Some (j', r) ∧ grows j j' ∧ (saved_ok j → saved_ok j') ∧ (∀ x, r = Ok x → (length x <= length f)%nat)).
  { exists j, (Ok rest). split_and!; [done|reflexivity|done|]. intros x [= ->]. lia. }
  destruct (Z.eqb_spec r 0); [exact Hend|]. cbn zeta. case_bool_decide; [exact Hend|]. destruct (split_item _) as [l v].
  destruct (IH (deserialize_item l v j) rest) as (j' & r' & H1 & H2 & H3 & H4); [lia|]. exists j', r'. split_and!; [done| | |].
  - etrans; [apply deserialize_item_grows|done].
  - intros Hok. by apply H3, deserialize_item_ok.
  - intros x Hx. specialize (H4 x Hx). lia.
Qed.

(** C27: a serialization may hold anything. On every file [job_deserialize] returns; it never
    writes a field out of its range and only takes types that can be installed; flags are only set, clients only added, the
    unit type of the trigger is kept. *)
Theorem job_deserialize_total (f : list Z) (j : SavedJob) :
  ∃ j' r, job_deserialize j f = Some (j', r) ∧ grows j j' ∧ (saved_ok j → saved_ok j') ∧
    (∀ rest, r = Ok rest → (length rest <= length f)%nat) ∧ saved_ok job_new_raw.
Proof.
  destruct (deserialize_loop_total (S (length f)) j f) as (j' & r & H1 & H2 & H3 & H4); [lia|].
  exists j', r. split_and!; [exact H1|done..|]. split; cbn; [lia|done|lia].
Qed.

(** ** What was written is what is read *)

(** A value that stays on its line: no end of a line in it, and no whitespace at its end. *)
Definition one_line (v : list Z) : Prop := eol_free v ∧ (∀ c, last v = Some c → is_whitespace c = false).

(** The keys: no "=" and nothing that is stripped. *)
Definition key_ok (k : list Z) : Prop := eol_free k ∧ (ch "=" ∉ k) ∧ ∃ c k', k = c :: k' ∧ is_whitespace c = false ∧ c ≠ 0 ∧ c ≠ 13.

Definition fits_line (k v : list Z) : Prop := len k + 1 + len v + 1 <= LONG_LINE_MAX.

#[global] Instance fits_line_dec k v : Decision (fits_line k v).
Proof. unfold fits_line. apply _. Defined.

Definition text (kv : list Z * list Z) : list Z := kv.1 ++ [ch "="] ++ kv.2 ++ [NL].

Definition item_ok (kv : list Z * list Z) : Prop := key_ok kv.1 ∧ one_line kv.2 ∧ fits_line kv.1 kv.2.

Lemma starts_text kv s : item_ok kv → starts_line (text kv ++ s).
Proof. intros [(_ & _ & c & k & Hk & _ & H0 & H13) _]. unfold text. rewrite Hk. split; [done|by right]. Qed.

Lemma deserialize_text fuel j kv rest : item_ok kv → starts_line rest →
  deserialize_loop (S fuel) j (text kv ++ rest) = deserialize_loop fuel (deserialize_item kv.1 kv.2 j) rest.
Proof.
  destruct kv as [k v]. intros [(Hk & Heq & c & k' & Hc & Hws & _) [[Hv Hlast] Hfit]] Hrest. cbn [fst snd] in *. unfold text. cbn [fst snd]. cbn [deserialize_loop].
  set (line := k ++ ch "=" :: v). assert ((k ++ [ch "="] ++ v ++ [NL]) ++ rest = line ++ NL :: rest) as ->.
  { unfold line. by rewrite <- !app_assoc. }
  assert (Hl : len line + 1 = len k + 1 + len v + 1) by (unfold line, len; rewrite length_app; cbn; lia).
  assert (eol_free line). { apply Forall_app. split; [done|]. constructor; [done|done]. }
  rewrite read_line_spec by (done || (unfold fits_line in Hfit; lia)). pose proof (len_nonneg line).
  rewrite (proj2 (Z.eqb_neq (len line + 1) 0)) by lia. cbn zeta.
  rewrite strstrip_id; [|split].
  - rewrite bool_decide_eq_false_2 by (unfold line; by destruct k). unfold line. by rewrite split_item_spec.
  - unfold line. rewrite Hc. by intros ? [= <-].
  - unfold line. intros x. rewrite last_app, last_cons. destruct (last v) as [y|]; [intros [= <-]; by apply Hlast|by intros [= <-]].
Qed.

Definition read_items (items : list (list Z * list Z)) (j : SavedJob) : SavedJob := fold_left (λ j kv, deserialize_item kv.1 kv.2 j) items j.

Lemma deserialize_items fuel j items rest : Forall item_ok items → starts_line rest → (length items < fuel)%nat →
  deserialize_loop fuel j (concat (map text items) ++ NL :: rest) = Some (read_items items j, Ok rest).
Proof.
  intros Hi Hrest. revert fuel j. induction Hi as [|kv items Hkv Hi IH]; intros [|fuel] j Hf; cbn [length] in Hf; try lia; cbn [map concat].
  - change (concat [] ++ NL :: rest) with ([] ++ NL :: rest). cbn [deserialize_loop]. rewrite read_line_spec by (done || constructor). done.
  - rewrite <- app_assoc, deserialize_text; [apply IH; lia|done|].
    destruct Hi as [|kv2 items Hkv2 Hi]; [by split; [|right]|]. cbn [map concat]. rewrite <- app_assoc. by apply starts_text.
Qed.

(** The items of a job. *)
Definition when (b : bool) (kv : list Z * list Z) : list (list Z * list Z) := if b then [kv] else [].
Definition given (k : list Z) (v : option (list Z)) : list (list Z * list Z) := match v with Some v => [(k, v)] | None => [] end.

Definition details_items (d : ActivationDetails) : list (list Z * list Z) :=
  [(str "activation-details-unit-type", unit_type_to_string (trigger_unit_type d))] ++
  given (str "activation-details-unit-name") (trigger_unit_name d) ++
  match trigger_data d with
  | ActivationDetailsPath name => given (str "activation-details-path-filename") name
  | ActivationDetailsTimer t =>
      when (dual_timestamp_is_set t) (str "activation-details-timer-last-trigger", format_uint (realtime t) ++ str " " ++ format_uint (monotonic t))
  end.

(** Every name once per reference. *)
Definition tracked_names (t : list (list Z * nat)) : list (list Z) := concat (map (λ '(n, c), repeat n c) t).

Definition job_items (j : SavedJob) : list (list Z * list Z) :=
  [(str "job-id", format_uint (s_id j))] ++
  given (str "job-type") (option_map job_type_to_string (s_type j)) ++
  [(str "job-state", job_state_to_string (s_state j)); (str "job-irreversible", yes_no (s_irreversible j));
   (str "job-sent-dbus-new-signal", yes_no (sent_dbus_new_signal j)); (str "job-ignore-order", yes_no (s_ignore_order j))] ++
  when (0 <? begin_usec j) (str "job-begin", format_uint (begin_usec j)) ++
  when (0 <? begin_running_usec j) (str "job-begin-running", format_uint (begin_running_usec j)) ++
  map (λ n, (str "subscribed", n)) (tracked_names (bus_track j)) ++
  from_option details_items [] (s_activation_details j).

(** Strings that are written and read without a loss. *)
Record details_writable (d : ActivationDetails) : Prop := {
  dw_name n : trigger_unit_name d = Some n → one_line n ∧ fits_line (str "activation-details-unit-name") n;
  dw_path n : trigger_data d = ActivationDetailsPath (Some n) → one_line n ∧ fits_line (str "activation-details-path-filename") n;
  dw_timer t : trigger_data d = ActivationDetailsTimer t →
    (0 <= realtime t < 2 ^ 64 ∧ 0 <= monotonic t < 2 ^ 64) ∧ (dual_timestamp_is_set t = true ∨ t = MkDualTimestamp 0 0);
}.

Record writable (j : SavedJob) : Prop := {
  wr_ok : saved_ok j;
  wr_times : begin_usec j ≠ UINT64_MAX ∧ begin_running_usec j ≠ UINT64_MAX;
  wr_track n c : (n, c) ∈ bus_track j → one_line n ∧ fits_line (str "subscribed") n;
  wr_details d : s_activation_details j = Some d → details_writable d;
}.

(** The job as it is after it was read: what the bus tracks is a list of clients until the bus is connected. *)
Definition reread (j : SavedJob) : SavedJob := set_bus_track [] (set_deserialized_clients (tracked_names (bus_track j)) j).

(** *** The text of the items *)

Lemma item_text k v : fits_line k v → (serialize_item k (Some v)).1 = text (k, v) ∧ (serialize_item_format k v).1 = text (k, v).
Proof. unfold fits_line, serialize_item, serialize_item_format. intros H. by rewrite (proj2 (Z.ltb_ge _ _)) by done. Qed.

Lemma fits_short k v n : len k + 2 + n <= LONG_LINE_MAX → len v <= n → fits_line k v.
Proof. unfold fits_line. lia. Qed.

Lemma uint_short z : 0 <= z < 2 ^ 64 → len (format_uint z) <= 20.
Proof. intros Hz. by apply format_uint_spec. Qed.

Lemma usec_text k z : len k <= 100 → 0 <= z < 2 ^ 64 → z ≠ UINT64_MAX →
  (if 0 <? z then (serialize_usec k z).1 else []) = concat (map text (when (0 <? z) (k, format_uint z))).
Proof.
  intros Hk Hz Hn. destruct (0 <? z); [|done]. unfold serialize_usec. rewrite (proj2 (Z.eqb_neq z _)) by done. cbn [when map concat]. rewrite app_nil_r.
  apply item_text, (fits_short _ _ 20); [unfold LONG_LINE_MAX; lia|by apply uint_short].
Qed.

Lemma track_text t k : (∀ n c, (n, c) ∈ t → fits_line k n) → bus_track_serialize t k = concat (map text (map (λ n, (k, n)) (tracked_names t))).
Proof.
  induction t as [|[n c] t IH]; intros Ht; [done|]. unfold bus_track_serialize, tracked_names. cbn [map concat]. rewrite !map_app, concat_app.
  fold (tracked_names t). rewrite <- IH by (intros; eapply Ht; by apply list_elem_of_further). unfold bus_track_serialize. f_equal.
  rewrite (proj1 (item_text k n (Ht n c (list_elem_of_here _ _)))). clear. induction c as [|c IHc]; cbn [repeat map concat]; [done|]. by rewrite IHc.
Qed.

Lemma stamp_text t : 0 <= realtime t < 2 ^ 64 → 0 <= monotonic t < 2 ^ 64 →
  len (format_uint (realtime t) ++ str " " ++ format_uint (monotonic t)) <= 41.
Proof. intros Ha Hb. pose proof (uint_short _ Ha). pose proof (uint_short _ Hb). unfold len in *. rewrite !length_app. change (length (str " ")) with 1%nat. lia. Qed.

Lemma details_text d : details_writable d → activation_details_serialize (Some d) = concat (map text (details_items d)).
Proof.
  intros [Hn Hp Ht]. unfold activation_details_serialize, details_items. rewrite !map_app, !concat_app. f_equal; [|f_equal].
  - destruct (trigger_data d) eqn:E; unfold trigger_unit_type; rewrite E; reflexivity.
  - destruct (trigger_unit_name d) as [n|]; [|done]. cbn [given map concat]. rewrite app_nil_r. by apply item_text, Hn.
  - destruct (trigger_data d) as [[name|]|t].
    + cbn [given map concat]. rewrite app_nil_r. by apply item_text, Hp.
    + done.
    + unfold activation_details_timer_serialize, serialize_dual_timestamp. destruct (Ht t eq_refl) as [[Ha Hb] _]. destruct (dual_timestamp_is_set t); [|done].
      cbn [negb when map concat]. rewrite app_nil_r. apply item_text, (fits_short _ _ 41); [by_decide|by apply stamp_text].
Qed.

Lemma job_text j : writable j → job_serialize j = concat (map text (job_items j)) ++ [NL].
Proof.
  intros [[Hid Hty [Hb Hr]] [Hb2 Hr2] Htr Hd]. unfold job_serialize, job_items. rewrite !map_app, !concat_app, <- !app_assoc.
  f_equal; [cbn [map concat]; rewrite app_nil_r; apply item_text, (fits_short _ _ 20); [by_decide|apply uint_short; lia]|].
  f_equal; [destruct (s_type j) as [[]|]; reflexivity|].
  cbn [map concat]. rewrite <- !app_assoc. f_equal; [by destruct (s_state j)|]. f_equal; [by destruct (s_irreversible j)|].
  f_equal; [by destruct (sent_dbus_new_signal j)|]. f_equal; [by destruct (s_ignore_order j)|]. cbn [app].
  f_equal; [apply usec_text; [by_decide|done..]|]. f_equal; [apply usec_text; [by_decide|done..]|].
  f_equal; [apply track_text; intros n c Hin; by apply (Htr n c)|].
  f_equal. destruct (s_activation_details j) as [d|]; [by apply details_text, Hd|done].
Qed.

(** *** The items can be read *)

Lemma one_line_nil : one_line [].
Proof. split; [constructor|done]. Qed.

Lemma one_line_app a b : eol_free a → one_line b → b ≠ [] → one_line (a ++ b).
Proof.
  intros Ha [Hb Hl] Hne. split; [by apply Forall_app|]. intros c. rewrite last_app. destruct (last b) as [x|] eqn:E; [intros [= <-]; by apply Hl|].
  by apply last_None in E.
Qed.

Lemma decimal_line ds : decimal ds → one_line ds.
Proof.
  intros [Hd _ _]. split.
  - eapply Forall_impl; [exact Hd|]. intros c Hc. destruct (digit_facts c Hc) as (_ & _ & _ & _ & ?). lia.
  - intros c Hc. rewrite Forall_forall in Hd. apply (digit_facts c), Hd. apply last_Some in Hc as [l ->]. apply elem_of_app. right. apply list_elem_of_here.
Qed.

Lemma uint_line z : 0 <= z < 2 ^ 64 → one_line (format_uint z).
Proof. intros Hz. by apply decimal_line, format_uint_spec. Qed.

Lemma stamp_line t : 0 <= realtime t < 2 ^ 64 → 0 <= monotonic t < 2 ^ 64 → one_line (format_uint (realtime t) ++ str " " ++ format_uint (monotonic t)).
Proof.
  intros Ha Hb. destruct (format_uint_spec _ Hb) as (Hd & _). apply one_line_app; [by apply uint_line| |done]. apply one_line_app; [by repeat constructor|by apply uint_line|apply Hd].
Qed.

(** Constant text, decided by computation. *)
Definition key_okb (k : list Z) : bool :=
  forallb (λ c, negb (c =? 0) && negb (c =? 10) && negb (c =? 13) && negb (c =? ch "=")) k && negb (is_whitespace (head_char k)) && negb (head_char k =? 0).

Lemma key_ok_of k : key_okb k = true → key_ok k.
Proof.
  unfold key_okb. intros [[Hf Hw]%andb_true_iff H0]%andb_true_iff. destruct k as [|c k]; [done|].
  assert (Forall (λ c, c ≠ 0 ∧ c ≠ 10 ∧ c ≠ 13 ∧ c ≠ ch "=") (c :: k)) as HF.
  { apply Forall_forall. intros x Hx. rewrite forallb_forall in Hf. specialize (Hf x (proj1 (list_elem_of_In _ _) Hx)). lia. }
  unfold key_ok, eol_free. split; [eapply Forall_impl; [exact HF|]; cbn; tauto|]. split.
  - intros Hin. rewrite Forall_forall in HF. by apply (HF _ Hin).
  - exists c, k. inversion HF as [|? ? (H1 & _ & H2 & _) _]. cbn in Hw. split_and!; [done|by destruct (is_whitespace c)|done..].
Qed.

Lemma text_line v : forallb (λ c, negb (is_whitespace c) && negb (c =? 0)) v = true → one_line v.
Proof.
  intros Hv. rewrite forallb_forall in Hv. assert (Hc : ∀ c, c ∈ v → is_whitespace c = false ∧ c ≠ 0).
  { intros c Hc%list_elem_of_In. specialize (Hv c Hc). destruct (is_whitespace c); [done|]. split; [done|]. lia. }
  split.
  - apply Forall_forall. intros c Hin. destruct (Hc c Hin) as [Hw ?]. split_and!; [done|intros ->; by vm_compute in Hw..].
  - intros c Hl. apply Hc. apply last_Some in Hl as [l ->]. apply elem_of_app. right. apply list_elem_of_here.
Qed.

Lemma item_ok_of k v : key_okb k = true → one_line v → fits_line k v → item_ok (k, v).
Proof. intros Hk Hv Hf. split; [by apply key_ok_of|done]. Qed.

Lemma const_item k v : key_okb k = true → forallb (λ c, negb (is_whitespace c) && negb (c =? 0)) v = true → fits_line k v → item_ok (k, v).
Proof. intros Hk Hv. apply item_ok_of; [done|by apply text_line]. Qed.

Lemma uint_item k z : key_okb k = true → len k <= 100 → 0 <= z < 2 ^ 64 → item_ok (k, format_uint z).
Proof. intros Hk Hl Hz. apply item_ok_of; [done|by apply uint_line|]. apply (fits_short _ _ 20); [unfold LONG_LINE_MAX; lia|by apply uint_short]. Qed.

Lemma details_items_ok d : details_writable d → Forall item_ok (details_items d).
Proof.
  intros [Hn Hp Ht]. unfold details_items. repeat apply Forall_app_2.
  - constructor; [|constructor]. unfold trigger_unit_type. destruct (trigger_data d); apply const_item; by_decide.
  - destruct (trigger_unit_name d) as [n|]; [|constructor]. constructor; [|constructor]. apply item_ok_of; [done|by apply Hn..].
  - destruct (trigger_data d) as [[name|]|t]; [|constructor|].
    + constructor; [|constructor]. apply item_ok_of; [done|by apply Hp..].
    + destruct (Ht t eq_refl) as [[Ha Hb] _]. destruct (dual_timestamp_is_set t); [|constructor]. constructor; [|constructor].
      apply item_ok_of; [done|by apply stamp_line|]. apply (fits_short _ _ 41); [by_decide|by apply stamp_text].
Qed.

Lemma tracked_in t n : n ∈ tracked_names t → ∃ c, (n, c) ∈ t.
Proof.
  unfold tracked_names. intros (l & Hl & Hn)%list_elem_of_In%in_concat. apply in_map_iff in Hl as ([m c] & <- & Hin). apply repeat_spec in Hn as ->.
  exists c. by apply list_elem_of_In.
Qed.

Lemma yes_no_item k b : key_okb k = true → len k <= 100 → item_ok (k, yes_no b).
Proof. intros Hk Hl. apply const_item; [done|by destruct b|]. apply (fits_short _ _ 20); [unfold LONG_LINE_MAX; lia|by destruct b]. Qed.

Lemma job_items_ok j : writable j → Forall item_ok (job_items j).
Proof.
  intros [[Hid Hty [Hb Hr]] _ Htr Hd]. unfold job_items. repeat apply Forall_app_2.
  - apply Forall_singleton, uint_item; [by_decide..|lia].
  - destruct (s_type j) as [t|]; [|constructor]. apply Forall_singleton. destruct t; apply const_item; by_decide.
  - repeat first [apply Forall_nil_2|apply Forall_cons_2]; try (apply yes_no_item; by_decide). destruct (s_state j); apply const_item; by_decide.
  - destruct (0 <? _); [|constructor]. apply Forall_singleton, uint_item; [by_decide..|done].
  - destruct (0 <? _); [|constructor]. apply Forall_singleton, uint_item; [by_decide..|done].
  - apply Forall_forall. intros kv (n & -> & Hn)%list_elem_of_fmap. destruct (tracked_in _ _ Hn) as [c Hc]. apply item_ok_of; [done|by apply (Htr n c)..].
  - destruct (s_activation_details j) as [d|]; [|constructor]. by apply details_items_ok, Hd.
Qed.

(** *** Reading the items *)

Lemma read_items_app a b j : read_items (a ++ b) j = read_items b (read_items a j).
Proof. apply fold_left_app. Qed.

Lemma uint_back z : (0 <= z < 2 ^ 32 → safe_atou32 (format_uint z) = Ok z) ∧ (0 <= z < 2 ^ 64 → safe_atou64 (format_uint z) = Ok z).
Proof.
  assert (H : 0 <= z < 2 ^ 64 → safe_atou32 (format_uint z) = (if z <? 2 ^ 32 then Ok z else Err (-ERANGE)) ∧ safe_atou64 (format_uint z) = (if z <? 2 ^ 64 then Ok z else Err (-ERANGE))).
  { intros Hz. destruct (format_uint_spec z Hz) as (Hf & Hv & _). pose proof (safe_ato_unsigned [] (format_uint z) ltac:(constructor) Hf) as H. by rewrite Hv in H. }
  split; intros Hz; (destruct H as [H1 H2]; [lia|]).
  - rewrite H1. by rewrite (proj2 (Z.ltb_lt z (2 ^ 32))) by lia.
  - rewrite H2. by rewrite (proj2 (Z.ltb_lt z (2 ^ 64))) by lia.
Qed.

Lemma read_id z j : 0 <= z < 2 ^ 32 → deserialize_item (str "job-id") (format_uint z) j = set_s_id z j.
Proof.
  intros Hz. transitivity (match safe_atou32 (format_uint z) with Ok id => set_s_id id j | Err _ => j end); [reflexivity|]. by rewrite (proj1 (uint_back z) Hz).
Qed.

Lemma read_type t j : job_type_num t < _JOB_TYPE_MAX_IN_TRANSACTION → deserialize_item (str "job-type") (job_type_to_string t) j = set_s_type (Some t) j.
Proof. unfold _JOB_TYPE_MAX_IN_TRANSACTION. destruct t; cbn [job_type_num]; intros; try lia; reflexivity. Qed.

Lemma read_begin z j : 0 <= z < 2 ^ 64 → begin_usec j = 0 → read_items (when (0 <? z) (str "job-begin", format_uint z)) j = set_begin_usec z j.
Proof.
  intros Hz Hj. destruct (Z.ltb_spec 0 z); cbn [when].
  - transitivity (match deserialize_usec (format_uint z) with Ok u => set_begin_usec u j | Err _ => j end); [reflexivity|]. unfold deserialize_usec. by rewrite (proj2 (uint_back z) Hz).
  - assert (z = 0) as -> by lia. rewrite <- Hj at 1. by destruct j.
Qed.

Lemma read_begin_running z j : 0 <= z < 2 ^ 64 → begin_running_usec j = 0 →
  read_items (when (0 <? z) (str "job-begin-running", format_uint z)) j = set_begin_running_usec z j.
Proof.
  intros Hz Hj. destruct (Z.ltb_spec 0 z); cbn [when].
  - transitivity (match deserialize_usec (format_uint z) with Ok u => set_begin_running_usec u j | Err _ => j end); [reflexivity|]. unfold deserialize_usec. by rewrite (proj2 (uint_back z) Hz).
  - assert (z = 0) as -> by lia. rewrite <- Hj at 1. by destruct j.
Qed.

Lemma read_clients l j : read_items (map (λ n, (str "subscribed", n)) l) j = set_deserialized_clients (deserialized_clients j ++ l) j.
Proof.
  revert j. induction l as [|n l IH]; intros j; [rewrite app_nil_r; by destruct j|]. cbn [map]. change (?x :: ?y) with ([x] ++ y) at 1. rewrite read_items_app.
  change (read_items [(str "subscribed", n)] j) with (set_deserialized_clients (deserialized_clients j ++ [n]) j). rewrite IH. cbn. by rewrite <- app_assoc.
Qed.

Lemma read_details d j : details_writable d → s_activation_details j = None → read_items (details_items d) j = set_s_activation_details (Some d) j.
Proof.
  intros [_ _ Ht] Hj. destruct d as [name data]. unfold details_items. cbn [trigger_unit_name trigger_data] in *. rewrite !read_items_app.
  set (empty := match data with ActivationDetailsPath _ => ActivationDetailsPath None | ActivationDetailsTimer _ => ActivationDetailsTimer (MkDualTimestamp 0 0) end).
  assert (read_items [(str "activation-details-unit-type", unit_type_to_string (trigger_unit_type (MkDetails name data)))] j = set_s_activation_details (Some (MkDetails None empty)) j) as ->.
  { transitivity (set_s_activation_details (activation_details_deserialize (str "activation-details-unit-type") (unit_type_to_string (trigger_unit_type (MkDetails name data))) (s_activation_details j)).2 j); [reflexivity|].
    rewrite Hj. by destruct data. }
  assert (∀ x k, set_s_activation_details x (set_s_activation_details k j) = set_s_activation_details x j) as Hset by done.
  assert (read_items (given (str "activation-details-unit-name") name) (set_s_activation_details (Some (MkDetails None empty)) j) = set_s_activation_details (Some (MkDetails name empty)) j) as ->
    by (by destruct name, data).
  destruct data as [[path|]|t]; cbn [given]; [reflexivity..|]. destruct (Ht t eq_refl) as [[Ha Hb] Hset0]. destruct (dual_timestamp_is_set t).
  - cbn [when]. unfold empty. transitivity (set_s_activation_details (Some (MkDetails name (ActivationDetailsTimer
      (match deserialize_dual_timestamp (format_uint (realtime t) ++ str " " ++ format_uint (monotonic t)) with Err _ => MkDualTimestamp 0 0 | Ok t => t end)))) j).
    + set (x := deserialize_dual_timestamp _). transitivity (set_s_activation_details (activation_details_deserialize (str "activation-details-timer-last-trigger")
        (format_uint (realtime t) ++ str " " ++ format_uint (monotonic t)) (Some (MkDetails name (ActivationDetailsTimer (MkDualTimestamp 0 0))))).2 j); [reflexivity|].
      transitivity (set_s_activation_details (let '(r, t) := (match x with Err r => (r, MkDualTimestamp 0 0) | Ok t => (0, t) end) in (r, Some (MkDetails name (ActivationDetailsTimer t)))).2 j); [reflexivity|].
      by destruct x.
    + rewrite dual_timestamp_spec by done. by destruct t.
  - destruct Hset0 as [|Ht0]; [done|]. cbn [when]. unfold empty. by rewrite Ht0.
Qed.

Lemma read_job_items j : writable j → read_items (job_items j) job_new_raw = reread j.
Proof.
  intros [[Hid Hty [Hb Hr]] _ _ Hd]. destruct j as [id ty state irr sent order bu br track clients details].
  cbn [s_id s_type begin_usec begin_running_usec s_activation_details] in *. unfold job_items. cbn [s_id s_type s_state s_irreversible sent_dbus_new_signal s_ignore_order begin_usec begin_running_usec bus_track s_activation_details].
  rewrite !read_items_app. change (read_items [?kv] ?j) with (deserialize_item kv.1 kv.2 j). cbn [fst snd]. rewrite read_id by done.
  set (j1 := set_s_id id job_new_raw).
  assert (read_items (given (str "job-type") (option_map job_type_to_string ty)) j1 = set_s_type ty j1) as ->.
  { destruct ty as [t|]; [|done]. apply (read_type t j1), Hty, eq_refl. }
  set (j2 := set_s_type ty j1).
  assert (read_items [(str "job-state", job_state_to_string state); (str "job-irreversible", yes_no irr); (str "job-sent-dbus-new-signal", yes_no sent); (str "job-ignore-order", yes_no order)] j2 =
    MkSaved id ty state irr sent order 0 0 [] [] None) as -> by (by destruct state, irr, sent, order).
  rewrite read_begin by done. rewrite read_begin_running by done. rewrite read_clients. destruct details as [d|]; [|done].
  cbn [from_option]. rewrite read_details by (done || by apply Hd). done.
Qed.

(** C25: jobs survive re-execution. A job whose strings fit on a line is written by
    [job_serialize] such that [job_deserialize] reads back the same job, with the names that
    its bus track counts as the clients to watch again, and stops where the job ends in the file. *)
Theorem job_serialize_deserialize (j : SavedJob) (rest : list Z) :
  writable j → starts_line rest → job_deserialize job_new_raw (job_serialize j ++ rest) = Some (reread j, Ok rest).
Proof.
  intros Hj Hrest. unfold job_deserialize. rewrite job_text by done. rewrite <- app_assoc. cbn [app]. rewrite deserialize_items; [by rewrite read_job_items|by apply job_items_ok|done|].
  rewrite length_app. assert (∀ items, (length items <= length (concat (map text items)))%nat) as Hlen; [|specialize (Hlen (job_items j)); lia].
  induction items as [|kv items IH]; cbn [map concat length]; [lia|]. rewrite length_app.
  assert (1 <= length (text kv))%nat by (unfold text; rewrite !length_app; cbn; lia). lia.
Qed.

(** A start job that a path unit triggered, with two references of one client. *)
Definition ex_details : ActivationDetails := MkDetails (Some (str "spool.path")) (ActivationDetailsPath (Some (str "/var/spool/new file"))).
Definition ex_saved : SavedJob := MkSaved 7 (Some JOB_START) JOB_RUNNING true false true 1000 2000 [(str ":1.42", 2%nat)] [] (Some ex_details).

Lemma one_line_dec v : bool_decide (Forall (λ c, c ≠ 0 ∧ c ≠ 10 ∧ c ≠ 13) v) && negb (is_whitespace (default 0 (last v))) = true → one_line v.
Proof. intros [H%bool_decide_eq_true Hl]%andb_true_iff. split; [done|]. intros c Hc. rewrite Hc in Hl. cbn in Hl. by destruct (is_whitespace c). Qed.

Lemma job_serialize_deserialize_witness :
  job_deserialize job_new_raw (job_serialize ex_saved ++ str "x") = Some (MkSaved 7 (Some JOB_START) JOB_RUNNING true false true 1000 2000 [] [str ":1.42"; str ":1.42"] (Some ex_details), Ok (str "x")).
Proof.
  apply (job_serialize_deserialize ex_saved (str "x")).
  - split; cbn [ex_saved s_id s_type begin_usec begin_running_usec bus_track s_activation_details].
    + split; cbn; [lia|by intros t [= <-]|lia].
    + by_decide.
    + intros n c Hin. apply list_elem_of_singleton in Hin as [= -> ->]. split; [by apply one_line_dec|by_decide].
    + intros d [= <-]. split; cbn [ex_details trigger_unit_name trigger_data].
      * intros n [= <-]. split; [by apply one_line_dec|by_decide].
      * intros n [= <-]. split; [by apply one_line_dec|by_decide].
      * done.
  - split; [done|by right].
Defined.

(** A file name may have an end of a line in it. Then the rest of it is read as an item of its own: here
    a start job comes back as a stop job. *)
Definition ex_newline : SavedJob :=
  MkSaved 7 (Some JOB_START) JOB_WAITING false false false 0 0 [] [] (Some (MkDetails None (ActivationDetailsPath (Some (str "/spool/x" ++ [NL] ++ str "job-type=stop"))))).

Lemma newline_changes_job :
  option_map (λ r, s_type r.1) (job_deserialize job_new_raw (job_serialize ex_newline)) = Some (Some JOB_STOP).
Proof. vm_compute. reflexivity. Qed.
