(* ===== verification/JobReexec.v ===== *)
(** * Jobs after the manager was re-executed (src/core/job.c, src/core/unit-serialize.c)

    [unit_deserialize_job] reads a job from the serialization and puts it into the slot of its
    unit; [job_coldplug] brings it back to the queues. The theorems: installing a job fails without a
    trace or keeps the invariants, coldplugging queues what waits, and all jobs of a manager, written
    and read by the next one, are there again. *)

From S2P Require Import Prelude Prioq JobType RunQueue JobData TrDelete TrFix JobOps JobFinish JobInstall TrApply TrActivate AddJob RateLimit Hexdecoct UnitDeps UnitName Serialize JobSerialize.

Section JobReexec.
Context {RQ : RunQueue} {E : Env}.
Implicit Types (st : State) (j k u i : positive) (s : SavedJob).

(** ** The code *)

(** The fields of a job in the heap. The others of [SavedJob] have no part in what follows. *)
Definition job_of (u : positive) (s : SavedJob) (t : JobType) : Job :=
  MkJob u (s_id s) t (s_state s) JOB_DONE false false false false None 0 false (s_ignore_order s) (s_irreversible s).

(** The job is at [fresh] from when it was made; it is freed again if it cannot be installed. *)
Definition job_install_deserialized (u : positive) (s : SavedJob) (st : State) : Z * State :=
  match s_type s with
  | None => (-EINVAL, st)
  | Some t =>
      if _JOB_TYPE_MAX_IN_TRANSACTION <=? job_type_num t then (-EINVAL, st)
      else
        let jb := job_of u s t in
        match slot st jb with
        | Some _ => (-EEXIST, st)
        | None =>
            match m_jobs (mgr st) !! s_id s with
            | Some _ => (-EEXIST, st)
            | None =>
                let j := fresh (dom (heap st)) in
                let st := set_heap (<[j := jb]> (heap st)) st in
                let st := alter_mgr (λ m, set_m_jobs (<[s_id s := j]> (m_jobs m)) m) st in
                let st := alter_job (set_j_installed true) j (set_slot jb (Some j) st) in
                let st := if bool_decide (s_state s = JOB_RUNNING)
                          then alter_mgr (λ m, set_n_running_jobs (u32 (n_running_jobs m + 1)) m) st else st in
                (0, st)
            end
        end
  end.

(** The result, the rest of the file (unless a line of it could not be read), and the state. *)
Definition unit_deserialize_job (u : positive) (f : list Z) (st : State) : option (Z * option (list Z) * State) :=
  '(s, r) ← job_deserialize job_new_raw f;
  match r with
  | Err e => Some (e, None, st)
  | Ok rest => let '(r, st) := job_install_deserialized u s st in Some (r, Some rest, st)
  end.

(** ** Installing *)

(** Why a job is refused. *)
Definition install_error (u : positive) (s : SavedJob) (st : State) : option Z :=
  match s_type s with
  | None => Some (-EINVAL)
  | Some t =>
      if _JOB_TYPE_MAX_IN_TRANSACTION <=? job_type_num t then Some (-EINVAL)
      else if bool_decide (is_Some (slot st (job_of u s t)) ∨ is_Some (m_jobs (mgr st) !! s_id s)) then Some (-EEXIST) else None
  end.

(** The job [j] is new, at its unit and under its id; everything else is as before. *)
Record reinstalled (u : positive) (s : SavedJob) (st : State) (j : positive) (t : JobType) (st' : State) : Prop := {
  ri_type : s_type s = Some t;
  ri_free : transaction_type t ∧ slot st (job_of u s t) = None ∧ m_jobs (mgr st) !! s_id s = None;
  ri_new : heap st !! j = None;
  ri_heap : heap st' = <[j := set_j_installed true (job_of u s t)]> (heap st);
  ri_slot : slot st' (job_of u s t) = Some j;
  ri_slots jb : slot st' jb = if bool_decide (j_unit jb = u ∧ (j_type jb = JOB_NOP ↔ t = JOB_NOP)) then Some j else slot st jb;
  ri_ids : m_jobs (mgr st') = <[s_id s := j]> (m_jobs (mgr st));
  ri_running : n_running_jobs (mgr st') = n_running_jobs (mgr st) + (if bool_decide (s_state s = JOB_RUNNING) then 1 else 0);
  ri_counters : n_installed_jobs (mgr st') = n_installed_jobs (mgr st) ∧ n_failed_jobs (mgr st') = n_failed_jobs (mgr st) ∧ current_job_id (mgr st') = current_job_id (mgr st);
  ri_queues : run_queue (mgr st') = run_queue (mgr st) ∧ dbus_job_queue (mgr st') = dbus_job_queue (mgr st) ∧ gc_job_queue (mgr st') = gc_job_queue (mgr st) ∧ trace (mgr st') = trace (mgr st);
  ri_tr : jobs st' = jobs st ∧ links st' = links st ∧ anchor_job st' = anchor_job st;
}.

Lemma slot_set_slot jb j st ib :
  slot (set_slot jb (Some j) st) ib = if bool_decide (j_unit ib = j_unit jb ∧ (j_type ib = JOB_NOP ↔ j_type jb = JOB_NOP)) then Some j else slot st ib.
Proof.
  unfold slot, set_slot. destruct (decide (j_type ib = JOB_NOP)) as [Hi|Hi], (decide (j_type jb = JOB_NOP)) as [Hj|Hj];
    rewrite ?(bool_decide_eq_true_2 _ Hi), ?(bool_decide_eq_false_2 _ Hi), ?(bool_decide_eq_true_2 _ Hj), ?(bool_decide_eq_false_2 _ Hj); cbn;
    destruct (decide (j_unit ib = j_unit jb)) as [Hu|Hu]; case_bool_decide as Hc; try tauto; try (rewrite Hu; by apply lookup_insert_eq); try (rewrite lookup_insert_ne; done).
Qed.

Lemma install_form u s st : few st → mgr_ok st →
  match install_error u s st with
  | Some r => job_install_deserialized u s st = (r, st)
  | None => ∃ j t st', job_install_deserialized u s st = (0, st') ∧ reinstalled u s st j t st'
  end.
Proof.
  intros Hfew Hm. unfold install_error, job_install_deserialized. destruct (s_type s) as [t|] eqn:Et; [|done].
  destruct (Z.leb_spec _JOB_TYPE_MAX_IN_TRANSACTION (job_type_num t)); [done|]. set (jb := job_of u s t).
  destruct (slot st jb) as [o|] eqn:Es.
  { rewrite bool_decide_eq_true_2; [done|]. left. by eexists. }
  destruct (m_jobs (mgr st) !! s_id s) as [o|] eqn:Ei.
  { rewrite bool_decide_eq_true_2; [done|]. right. by eexists. }
  rewrite bool_decide_eq_false_2 by (by intros [[? ?]|[? ?]]). set (j := fresh (dom (heap st))).
  assert (Hn : heap st !! j = None) by (apply not_elem_of_dom, is_fresh).
  eexists j, t, _. split; [reflexivity|].
  assert (Hu : u32 (n_running_jobs (mgr st) + 1) = n_running_jobs (mgr st) + 1).
  { apply u32_small. rewrite (mo_running _ Hm). pose proof (count_running_le (heap st)). unfold few, PRIOQ_MAX in Hfew. lia. }
  split; try done.
  - transitivity (alter (set_j_installed true) j (<[j := jb]> (heap st))); [|by rewrite alter_insert_eq]. unfold set_slot. by repeat case_bool_decide.
  - transitivity (slot (set_slot jb (Some j) st) jb); [|rewrite slot_set_slot; by rewrite bool_decide_eq_true_2].
    unfold slot, set_slot. by repeat case_bool_decide.
  - intros ib. change u with (j_unit jb). change t with (j_type jb). rewrite <- slot_set_slot. unfold slot, set_slot. by repeat case_bool_decide.
  - unfold set_slot. by repeat case_bool_decide.
  - unfold set_slot. repeat case_bool_decide; cbn; try done; lia.
  - unfold set_slot. by repeat case_bool_decide.
  - unfold set_slot. by repeat case_bool_decide.
  - unfold set_slot. by repeat case_bool_decide.
Qed.

(** A job to look at a slot with. *)
Definition probe (v : positive) (t : JobType) : Job := MkJob v 0 t JOB_WAITING JOB_DONE false false false false None 0 false false false.

Lemma reinstalled_ok u s st j t st' : at_rest st → reinstalled u s st j t st' → at_rest st'.
Proof.
  intros Hr H. pose proof Hr as [[Htr Hm] Hids Hstr Hjobs]. destruct (ri_free _ _ _ _ _ _ H) as (Ht & Hslot & Hid). pose proof (ri_new _ _ _ _ _ _ H) as Hn.
  pose proof (ri_heap _ _ _ _ _ _ H) as Hh. destruct (ri_tr _ _ _ _ _ _ H) as (Hj' & Hl' & _). destruct (ri_queues _ _ _ _ _ _ H) as (Hrq & Hdq & Hgq & _).
  set (jb := set_j_installed true (job_of u s t)) in *.
  assert (Hlook : ∀ k kb, heap st' !! k = Some kb → (k = j ∧ kb = jb) ∨ (k ≠ j ∧ heap st !! k = Some kb)).
  { intros k kb. rewrite Hh. intros [[<- <-]|[Hne Hk]]%lookup_insert_Some; [by left|by right]. }
  assert (Hkept : ∀ k kb, heap st !! k = Some kb → heap st' !! k = Some kb).
  { intros k kb Hk. rewrite Hh, lookup_insert_ne; [done|congruence]. }
  assert (Hself : heap st' !! j = Some jb) by (rewrite Hh; apply lookup_insert_eq).
  assert (Hq : ∀ (flag : Job → bool) q, flag jb = false → queue_ok flag q (heap st) → queue_ok flag q (heap st')).
  { intros flag q Hf [Hnd Hq]. split; [done|]. intros i. rewrite Hq. split; intros (ib & Hi & ?); [by exists ib; auto|].
    destruct (Hlook i ib Hi) as [[-> ->]|[_ ?]]; [congruence|eauto]. }
  pose proof (ri_slots _ _ _ _ _ _ H) as Hslots. split.
  - split.
    { apply (tr_ok_frame st); [done..| |done]. intros k (c & u0 & Hc & _). by rewrite Hjobs in Hc. }
    split.
    + intros k kb [[-> ->]|[_ Hk]]%Hlook; [done|by apply (mo_types _ Hm k)].
    + intros v i Hi. specialize (Hslots (probe v JOB_START)). change (slot st' (probe v JOB_START)) with (unit_job (mgr st') !! v) in Hslots.
      rewrite Hslots in Hi. cbn in Hi. case_bool_decide as Hc.
      * destruct Hc as [<- Hc]. injection Hi as <-. exists jb. split_and!; [done..|]. intros Hnop. by apply Hc in Hnop.
      * destruct (mo_job _ Hm v i Hi) as (ib & Hib & ?). eauto.
    + intros v i Hi. specialize (Hslots (probe v JOB_NOP)). change (slot st' (probe v JOB_NOP)) with (unit_nop_job (mgr st') !! v) in Hslots.
      rewrite Hslots in Hi. cbn in Hi. case_bool_decide as Hc.
      * destruct Hc as [<- Hc]. injection Hi as <-. exists jb. split_and!; [done..|]. by apply Hc.
      * destruct (mo_nop _ Hm v i Hi) as (ib & Hib & ?). eauto.
    + intros k kb [[-> ->]|[Hne Hk]]%Hlook Hki; [exact (ri_slot _ _ _ _ _ _ H)|]. rewrite Hslots. pose proof (mo_slot _ Hm k kb Hk Hki) as Hs.
      case_bool_decide as Hc; [|done]. destruct Hc as [Hu Hnop]. exfalso. unfold slot in *. cbn [j_type j_unit job_of] in Hslot. rewrite (bool_decide_ext _ _ Hnop), Hu in Hs. congruence.
    + intros k kb [[-> ->]|[Hne Hk]]%Hlook Hki; rewrite (ri_ids _ _ _ _ _ _ H); [by apply lookup_insert_eq|]. pose proof (mo_id _ Hm k kb Hk Hki).
      rewrite lookup_insert_ne; [done|congruence].
    + rewrite Hrq. apply (mo_rq _ Hm).
    + rewrite Hrq. by apply Hq, (mo_run _ Hm).
    + rewrite Hdq. by apply Hq, (mo_dbus _ Hm).
    + rewrite Hgq. by apply Hq, (mo_gc _ Hm).
    + intros k kb [[-> ->]|[Hne Hk]]%Hlook Hki; [done|by apply (mo_queued _ Hm k)].
    + rewrite (ri_running _ _ _ _ _ _ H), (mo_running _ Hm), Hh, count_running_insert by done. unfold run_bit, is_running. cbn. by destruct (s_state s).
  - intros i0 i. rewrite (ri_ids _ _ _ _ _ _ H). intros [[<- <-]|[Hne Hi]]%lookup_insert_Some; [by exists jb|].
    destruct (Hids i0 i Hi) as (ib & Hib & ?). eauto.
  - intros k kb [[-> ->]|[Hne Hk]]%Hlook; [by left|]. left. by apply (rest_installed st k kb).
  - congruence.
Qed.
(** Installing a job that was read. [job_install_deserialized] refuses exactly the jobs of
    an invalid type, those whose unit has a job in that slot already and those whose id is in use, and
    then changes nothing. Otherwise the job is in its slot and under its id with the fields that were read, it is counted if it
    runs, nothing else changes, and the invariants hold. *)
Theorem install_deserialized_exact u s st : at_rest st → few st →
  match install_error u s st with
  | Some r => job_install_deserialized u s st = (r, st)
  | None => ∃ j t st', job_install_deserialized u s st = (0, st') ∧ reinstalled u s st j t st' ∧ at_rest st'
  end.
Proof.
  intros Hr Hfew. pose proof (install_form u s st Hfew (proj2 (ar_ok _ Hr))) as H. destruct (install_error u s st); [done|].
  destruct H as (j & t & st' & H1 & H2). exists j, t, st'. split_and!; [done..|by apply (reinstalled_ok u s st j t st')].
Qed.

(** ** All jobs of a manager *)

(** What is kept of a job. *)
Definition view (jb : Job) : positive * Z * JobType * JobState * bool * bool :=
  (j_unit jb, j_id jb, j_type jb, j_state jb, j_ignore_order jb, j_irreversible jb).

Definition views (st : State) : list (positive * Z * JobType * JobState * bool * bool) := map (λ kv, view kv.2) (map_to_list (heap st)).

(** [s] has the fields of [jb]. *)
Definition saves (jb : Job) (s : SavedJob) : Prop :=
  s_id s = j_id jb ∧ s_type s = Some (j_type jb) ∧ s_state s = j_state jb ∧ s_ignore_order s = j_ignore_order jb ∧ s_irreversible s = j_irreversible jb.

(** Read the jobs of units, each from where it is in the file. *)
Fixpoint restore_jobs (l : list (positive * list Z)) (st : State) : option State :=
  match l with
  | [] => Some st
  | (u, f) :: l => '(_, _, st) ← unit_deserialize_job u f st; restore_jobs l st
  end.

Definition slot_key (jb : Job) : positive * bool := (j_unit jb, bool_decide (j_type jb = JOB_NOP)).

Lemma slot_key_eq ib jb : slot_key ib = slot_key jb ↔ j_unit ib = j_unit jb ∧ (j_type ib = JOB_NOP ↔ j_type jb = JOB_NOP).
Proof. unfold slot_key. do 2 case_bool_decide; split; [intros [= ->]|intros [-> ?]|..]; try tauto; try (intros [= ?]; tauto); try (intros [-> ?]; tauto). Qed.

Lemma restore_step jb s rest st :
  at_rest st → few st → saves jb s → writable s → starts_line rest → transaction_type (j_type jb) → slot st jb = None → m_jobs (mgr st) !! j_id jb = None →
  ∃ j jb' st', unit_deserialize_job (j_unit jb) (job_serialize s ++ rest) st = Some (0, Some rest, st') ∧ at_rest st' ∧
    heap st !! j = None ∧ heap st' = <[j := jb']> (heap st) ∧ view jb' = view jb ∧
    (∀ ib, slot_key ib ≠ slot_key jb → slot st' ib = slot st ib) ∧ (∀ i : Z, i ≠ j_id jb → m_jobs (mgr st') !! i = m_jobs (mgr st) !! i).
Proof.
  intros Hr Hfew (Hid & Hty & Hs & Ho & Hi) Hw Hrest Ht Hslot Hfree. unfold unit_deserialize_job. rewrite job_serialize_deserialize by done. cbn [mbind option_bind].
  pose proof (install_form (j_unit jb) (reread s) st Hfew (proj2 (ar_ok _ Hr))) as H.
  assert (install_error (j_unit jb) (reread s) st = None) as He.
  { unfold install_error. cbn [reread set_bus_track set_deserialized_clients s_type s_id]. rewrite Hty. rewrite (proj2 (Z.leb_gt _ _)) by done.
    rewrite bool_decide_eq_false_2; [done|]. rewrite Hid, Hfree. intros [[o Ho']|[? ?]]; [|done]. change (slot st jb = Some o) in Ho'. congruence. }
  rewrite He in H. destruct H as (j & t & st' & H1 & H2). rewrite H1. pose proof (ri_type _ _ _ _ _ _ H2) as Ht2. cbn [reread set_bus_track set_deserialized_clients s_type] in Ht2.
  assert (t = j_type jb) as -> by congruence. eexists j, _, st'. split_and!; [done|by eapply reinstalled_ok|apply (ri_new _ _ _ _ _ _ H2)|apply (ri_heap _ _ _ _ _ _ H2)|..].
  - unfold view. cbn. congruence.
  - intros ib Hne. rewrite (ri_slots _ _ _ _ _ _ H2). rewrite bool_decide_eq_false_2; [done|]. intros Hc. by apply Hne, slot_key_eq.
  - intros i Hne. rewrite (ri_ids _ _ _ _ _ _ H2). cbn [reread set_bus_track set_deserialized_clients s_id]. rewrite Hid. by rewrite lookup_insert_ne.
Qed.

Lemma restore_all (saved : positive → SavedJob) (rest : positive → list Z) (l : list (positive * Job)) st :
  at_rest st → Z.of_nat (size (heap st) + length l) < PRIOQ_MAX →
  NoDup (map (λ kv, slot_key kv.2) l) → NoDup (map (λ kv, j_id kv.2) l) →
  (∀ k kb, (k, kb) ∈ l → saves kb (saved k) ∧ writable (saved k) ∧ starts_line (rest k) ∧ transaction_type (j_type kb) ∧ slot st kb = None ∧ m_jobs (mgr st) !! j_id kb = None) →
  ∃ st', restore_jobs (map (λ kv, (j_unit kv.2, job_serialize (saved kv.1) ++ rest kv.1)) l) st = Some st' ∧ at_rest st' ∧
    views st' ≡ₚ map (λ kv, view kv.2) l ++ views st.
Proof.
  revert st. induction l as [|[k kb] l IH]; intros st Hr Hsize Hns Hni Hl; [by exists st|]. cbn [map restore_jobs fst snd] in *.
  apply NoDup_cons in Hns as [Hns1 Hns]. apply NoDup_cons in Hni as [Hni1 Hni].
  destruct (Hl k kb (list_elem_of_here _ _)) as (H1 & H2 & H3 & H4 & H5 & H6).
  destruct (restore_step kb (saved k) (rest k) st) as (j & jb' & st1 & Hst & Hr1 & Hn & Hh & Hv & Hsl & Hids); [done|unfold few; cbn [length] in Hsize; lia|done..|].
  rewrite Hst. cbn [mbind option_bind]. destruct (IH st1) as (st' & H & Hr' & Hp).
  - done.
  - rewrite Hh, map_size_insert_None by done. cbn [length] in Hsize. lia.
  - done.
  - done.
  - intros i ib Hi. destruct (Hl i ib) as (G1 & G2 & G3 & G4 & G5 & G6); [by apply list_elem_of_further|]. split_and!; [done..| |].
    + rewrite Hsl; [done|]. intros He. apply Hns1. rewrite <- He. apply list_elem_of_fmap. by exists (i, ib).
    + rewrite Hids; [done|]. intros He. apply Hni1. rewrite <- He. apply list_elem_of_fmap. by exists (i, ib).
  - exists st'. split_and!; [done..|]. rewrite Hp. unfold views at 1. rewrite Hh. rewrite map_to_list_insert by done. cbn [map snd]. rewrite Hv. symmetry. apply Permutation_middle.
Qed.

(** The counter is a function of what is kept. *)
Definition zsum (l : list Z) : Z := foldr Z.add 0 l.
#[local] Instance zsum_proper : Proper (Permutation ==> eq) zsum.
Proof. intros l l' H. unfold zsum. induction H; cbn; lia. Qed.

Lemma count_sum h : count_running h = zsum (map (λ kv, run_bit kv.2) (map_to_list h)).
Proof.
  induction h as [|i x h Hi IH] using map_ind; [by rewrite map_to_list_empty|]. rewrite count_running_insert by done.
  rewrite (map_to_list_insert h i x Hi). cbn. unfold zsum in IH. lia.
Qed.

Lemma running_views st : at_rest st → n_running_jobs (mgr st) = zsum (map (λ v, if bool_decide (v.1.1.2 = JOB_RUNNING) then 1 else 0) (views st)).
Proof.
  intros Hr. rewrite (mo_running _ (proj2 (ar_ok _ Hr))), count_sum. unfold views. rewrite map_map. f_equal. apply map_ext_in. intros [k kb] Hin.
  apply list_elem_of_In, elem_of_map_to_list in Hin. pose proof (rest_installed st k kb Hr Hin) as Hi. unfold run_bit, is_running. cbn. by rewrite Hi.
Qed.

(** C15: no job is lost or changed by re-execution. Every job of a manager is written, with its own extra fields;
    a new manager without jobs reads them, in any order and whatever follows them in the file. Then it has the
    same jobs: the units, ids, types, states and flags are the same with their multiplicities, the counter of running jobs is
    right, and the invariants hold. *)
Theorem reexec_keeps_jobs st st0 (saved : positive → SavedJob) (rest : positive → list Z) (order : list (positive * Job)) :
  at_rest st → few st → at_rest st0 → heap st0 = ∅ →
  (∀ j jb, heap st !! j = Some jb → saves jb (saved j) ∧ writable (saved j) ∧ starts_line (rest j)) →
  order ≡ₚ map_to_list (heap st) →
  ∃ st', restore_jobs (map (λ kv, (j_unit kv.2, job_serialize (saved kv.1) ++ rest kv.1)) order) st0 = Some st' ∧ at_rest st' ∧
    views st' ≡ₚ views st ∧ n_running_jobs (mgr st') = n_running_jobs (mgr st).
Proof.
  intros Hr Hfew Hr0 H0 Hsaved Horder. pose proof (proj2 (ar_ok _ Hr)) as Hm. pose proof (proj2 (ar_ok _ Hr0)) as Hm0.
  assert (Hin : ∀ k kb, (k, kb) ∈ order → heap st !! k = Some kb) by (intros k kb Hk; apply elem_of_map_to_list; by rewrite <- Horder).
  assert (Hnd : NoDup order) by (rewrite Horder; apply NoDup_map_to_list).
  assert (Hsame : ∀ k kb i ib, (k, kb) ∈ order → (i, ib) ∈ order → k = i → (k, kb) = (i, ib)).
  { intros k kb i ib Hk%Hin Hi%Hin ->. congruence. }
  destruct (restore_all saved rest order st0) as (st' & H & Hr' & Hv); [done| | | | |].
  - rewrite H0, map_size_empty. unfold few in Hfew. rewrite Horder, length_map_to_list. done.
  - apply NoDup_fmap_2_strong; [|done]. intros [k kb] [i ib] Hk Hi He. cbn in He. apply Hsame; [done..|].
    apply slot_key_eq in He as [Hu Hn]. pose proof (mo_slot _ Hm k kb (Hin _ _ Hk) (rest_installed st k kb Hr (Hin _ _ Hk))) as Hs1.
    pose proof (mo_slot _ Hm i ib (Hin _ _ Hi) (rest_installed st i ib Hr (Hin _ _ Hi))) as Hs2. unfold slot in *. rewrite (bool_decide_ext _ _ Hn), Hu in Hs1. congruence.
  - apply NoDup_fmap_2_strong; [|done]. intros [k kb] [i ib] Hk Hi He. cbn in He. apply Hsame; [done..|].
    pose proof (mo_id _ Hm k kb (Hin _ _ Hk) (rest_installed st k kb Hr (Hin _ _ Hk))). pose proof (mo_id _ Hm i ib (Hin _ _ Hi) (rest_installed st i ib Hr (Hin _ _ Hi))). congruence.
  - intros k kb Hk%Hin. destruct (Hsaved k kb Hk) as (? & ? & ?). split_and!; [done..|by apply (mo_types _ Hm k)| |].
    + destruct (slot st0 kb) as [o|] eqn:Eo; [|done]. unfold slot in Eo. case_bool_decide.
      * destruct (mo_nop _ Hm0 _ o Eo) as (ob & Hob & _). by rewrite H0 in Hob.
      * destruct (mo_job _ Hm0 _ o Eo) as (ob & Hob & _). by rewrite H0 in Hob.
    + destruct (m_jobs (mgr st0) !! j_id kb) as [o|] eqn:Eo; [|done]. destruct (ar_ids _ Hr0 _ _ Eo) as (ob & Hob & _). by rewrite H0 in Hob.
  - exists st'. assert (Hviews : views st' ≡ₚ views st).
    { rewrite Hv. unfold views at 1. rewrite H0, map_to_list_empty, app_nil_r. unfold views. by rewrite Horder. }
    split_and!; [done..|]. by rewrite (running_views st' Hr'), (running_views st Hr), Hviews.
Qed.

End JobReexec.

(** ** Coldplugging *)

Section Coldplug.
Context {RQ : RunQueue} {E : Env}.
Implicit Types (st : State) (j k u i : positive) (s : SavedJob).

(** The settings of units, in microseconds, and what [sd_event_add_time] returns for the timer of a job. *)
Context (job_timeout job_running_timeout : positive → Z) (timer_result : positive → Z).

Definition job_coldplug (j : positive) (s : SavedJob) (st : State) : option (Z * State) :=
  let st := call (bus_job_coldplug_bus_track j) st in
  jb ← heap st !! j;
  st ← (if bool_decide (j_state jb = JOB_WAITING) then job_add_to_run_queue j st else Some st);
  st ← job_add_to_gc_queue j st;
  if begin_usec s =? 0 then Some (0, st)
  else
    let timeout_time := USEC_INFINITY in
    let timeout_time := if negb (job_timeout (j_unit jb) =? USEC_INFINITY) then usec_add (begin_usec s) (job_timeout (j_unit jb)) else timeout_time in
    let timeout_time := if timestamp_is_set (begin_running_usec s)
                        then Z.min timeout_time (usec_add (begin_running_usec s) (job_running_timeout (j_unit jb))) else timeout_time in
    if timeout_time =? USEC_INFINITY then Some (0, st)
    else Some (timer_result j, call (add_job_timer j timeout_time) st).

(** When the job times out: its timeouts count from when it was made and from when it began to run. *)
Definition deadline (u : positive) (s : SavedJob) (t : Z) : Prop :=
  begin_usec s ≠ 0 ∧ t < USEC_INFINITY ∧
  (t = begin_usec s + job_timeout u ∨ timestamp_is_set (begin_running_usec s) = true ∧ t = begin_running_usec s + job_running_timeout u).

Lemma usec_add_spec a b : 0 <= a <= USEC_INFINITY → 0 <= b <= USEC_INFINITY → usec_add a b = Z.min (a + b) USEC_INFINITY.
Proof. intros Ha Hb. unfold usec_add. destruct (Z.ltb_spec (USEC_INFINITY - b) a); lia. Qed.

(** Jobs are put into queues, and nothing of [view] changes. *)
Lemma keeps_rest st st' : at_rest st → sys_ok st' → shrinks st st' → keeps st st' → at_rest st'.
Proof.
  intros Hr Hok Hsh Hk. split; [done|..].
  - intros id i Hi. destruct (ar_ids _ Hr id i (sh_back _ _ Hsh _ _ Hi)) as (ib & Hib & ? & ?). destruct (proj1 Hk i) as [ib' Hib']; [eauto|].
    destruct (sh_heap _ _ Hsh i ib' Hib') as (ib0 & Hib0 & _ & ? & ? & _). exists ib'. split_and!; [done|congruence..].
  - intros k kb Hkb. destruct (sh_heap _ _ Hsh k kb Hkb) as (kb0 & Hkb0 & _ & _ & Hi & _). left. rewrite Hi. by apply (rest_installed st k).
  - rewrite (proj1 (sh_tr _ _ Hsh)). apply (ar_jobs _ Hr).
Qed.

Lemma queues_trace j st st' :
  (job_add_to_run_queue j st = Some st' → trace (mgr st') = trace (mgr st) ∨ trace (mgr st') = manager_trigger_run_queue :: trace (mgr st)) ∧
  (job_add_to_gc_queue j st = Some st' → trace (mgr st') = trace (mgr st)).
Proof.
  split.
  - unfold job_add_to_run_queue. destruct (heap st !! j) as [jb|]; [|done]. cbn [mbind option_bind]. unfold assert_. destruct (j_installed jb); [|done]. cbn [mbind option_bind].
    destruct (j_in_run_queue jb); [intros [= <-]; by left|]. destruct (rq_put _ j _) as [[r q]|]; [|done]. cbn [mbind option_bind]. intros [= <-]. right. by destruct (r <? 0).
  - unfold job_add_to_gc_queue. destruct (heap st !! j) as [jb|]; [|done]. cbn [mbind option_bind]. destruct (j_in_gc_queue jb); [by intros [= <-]|].
    destruct (job_may_gc j st) as [[]|]; [| |done]; cbn [mbind option_bind negb]; by intros [= <-].
Qed.

Lemma queues_step j jb st : at_rest st → few st → heap st !! j = Some jb →
  ∃ st1 st2, (if bool_decide (j_state jb = JOB_WAITING) then job_add_to_run_queue j st else Some st) = Some st1 ∧ job_add_to_gc_queue j st1 = Some st2 ∧
    at_rest st2 ∧ shrinks st st2 ∧ keeps st st2 ∧
    (trace (mgr st2) = trace (mgr st) ∨ trace (mgr st2) = manager_trigger_run_queue :: trace (mgr st)) ∧
    (j_state jb = JOB_WAITING → rq_alloc_ok j = true → ∃ jb', heap st2 !! j = Some jb' ∧ j_in_run_queue jb' = true).
Proof.
  intros Hr Hfew Hj. pose proof (rest_installed st j jb Hr Hj) as Hi.
  assert (∃ st1, (if bool_decide (j_state jb = JOB_WAITING) then job_add_to_run_queue j st else Some st) = Some st1 ∧ sys_ok st1 ∧ shrinks st st1 ∧ keeps st st1 ∧
    (trace (mgr st1) = trace (mgr st) ∨ trace (mgr st1) = manager_trigger_run_queue :: trace (mgr st)) ∧
    (j_state jb = JOB_WAITING → rq_alloc_ok j = true → ∃ jb', heap st1 !! j = Some jb' ∧ j_in_run_queue jb' = true)) as (st1 & H1 & Hok1 & Hsh1 & Hk1 & Ht1 & Hq1).
  { case_bool_decide.
    - destruct (add_to_run_queue_spec j jb st (ar_ok _ Hr) Hfew Hj Hi) as (st1 & H1 & ? & ?). destruct (add_to_run_queue_queued j st st1 H1) as [? Hq].
      exists st1. split_and!; [done..|by apply (queues_trace j)|]. intros _ Ha. apply Hq; [apply Hr|done..].
    - exists st. split_and!; [done|apply Hr|apply shrinks_refl|apply keeps_refl|by left|done]. }
  destruct (still_installed j jb st st1 Hj Hi Hk1 Hsh1) as (jb1 & Hj1 & Hi1).
  destruct (add_to_gc_queue_spec j jb1 st1 Hok1 Hj1 Hi1) as (st2 & H2 & Hok2 & Hsh2). pose proof (add_to_gc_queue_keeps j st1 st2 H2) as Hk2.
  pose proof (shrinks_trans _ _ _ Hsh1 Hsh2) as Hsh. pose proof (keeps_trans _ _ _ Hk1 Hk2) as Hk.
  exists st1, st2. split_and!; [done..|by apply (keeps_rest st)|done|done|by rewrite (proj2 (queues_trace j st1 st2) H2)|].
  intros Hw Ha. destruct (Hq1 Hw Ha) as (jb1' & Hj1' & Hq). assert (jb1' = jb1) as -> by congruence. destruct (proj1 Hk2 j) as [jb2 Hj2]; [eauto|].
  destruct (sh_heap _ _ Hsh2 j jb2 Hj2) as (jb1' & Hj1'' & _ & _ & _ & _ & Hrq & _). exists jb2. split; [done|]. apply Hrq. congruence.
Qed.

(** C28: a job that was read is brought back. [job_coldplug] returns and keeps the invariants and the
    jobs; a waiting job is in the run queue afterwards; the timer is set for the first of the
    job's deadlines, computed without overflow, and there is none exactly if the job has no deadline. *)
Theorem job_coldplug_exact j jb s st :
  at_rest st → few st → heap st !! j = Some jb → saved_ok s →
  (∀ u, 0 <= job_timeout u <= USEC_INFINITY ∧ 0 <= job_running_timeout u <= USEC_INFINITY) →
  ∃ r st', job_coldplug j s st = Some (r, st') ∧ at_rest st' ∧ keeps st st' ∧
    (∀ k kb', heap st' !! k = Some kb' → ∃ kb, heap st !! k = Some kb ∧ j_unit kb' = j_unit kb ∧ j_id kb' = j_id kb ∧ j_type kb' = j_type kb ∧ j_state kb' = j_state kb) ∧
    (j_state jb = JOB_WAITING → rq_alloc_ok j = true → ∃ jb', heap st' !! j = Some jb' ∧ j_in_run_queue jb' = true) ∧
    ((∃ t, deadline (j_unit jb) s t ∧ (∀ t', deadline (j_unit jb) s t' → t <= t') ∧ head (trace (mgr st')) = Some (add_job_timer j t) ∧ r = timer_result j) ∨
     (∀ t, ¬ deadline (j_unit jb) s t ∧ head (trace (mgr st')) ≠ Some (add_job_timer j t)) ∧ r = 0).
Proof.
  intros Hr Hfew Hj [_ _ [Hb Hbr]] Hto. destruct (Hto (j_unit jb)) as [Ht1 Ht2]. unfold job_coldplug. set (st0 := call _ st).
  assert (Hr0 : at_rest st0) by (destruct (call_ok (bus_job_coldplug_bus_track j) st (ar_ok _ Hr)); by apply (keeps_rest st)).
  change (heap st0 !! j) with (heap st !! j). rewrite Hj. cbn [mbind option_bind].
  destruct (queues_step j jb st0 Hr0 Hfew Hj) as (st1 & st2 & -> & H2 & Hr2 & Hsh2 & Hk2 & Htr & Hq). cbn [mbind option_bind]. rewrite H2. cbn [mbind option_bind].
  assert (Hviews : ∀ k kb', heap st2 !! k = Some kb' → ∃ kb, heap st !! k = Some kb ∧ j_unit kb' = j_unit kb ∧ j_id kb' = j_id kb ∧ j_type kb' = j_type kb ∧ j_state kb' = j_state kb).
  { intros k kb' Hk. destruct (sh_heap _ _ Hsh2 k kb' Hk) as (kb & ? & ? & ? & _ & ? & _ & ?). by exists kb. }
  assert (Hno : ∀ t, head (trace (mgr st2)) ≠ Some (add_job_timer j t)) by (intros t; by destruct Htr as [-> | ->]).
  assert (Hcall : ∀ t, at_rest (call (add_job_timer j t) st2)).
  { intros t. destruct (call_ok (add_job_timer j t) st2 (ar_ok _ Hr2)). by apply (keeps_rest st2). }
  unfold deadline. destruct (Z.eqb_spec (begin_usec s) 0) as [H0|H0].
  { exists 0, st2. split_and!; [done..|]. right. split; [|done]. intros t. split; [by intros [? _]|done]. }
  rewrite !usec_add_spec by (unfold USEC_INFINITY, UINT64_MAX in *; lia).
  set (T := if negb (job_timeout (j_unit jb) =? USEC_INFINITY) then _ else _).
  assert (HT : T = Z.min (begin_usec s + job_timeout (j_unit jb)) USEC_INFINITY).
  { unfold T. destruct (Z.eqb_spec (job_timeout (j_unit jb)) USEC_INFINITY) as [He|?]; cbn [negb]; [rewrite He|done]. unfold USEC_INFINITY. lia. }
  cbn zeta. rewrite HT. clear HT T. set (a := begin_usec s + job_timeout (j_unit jb)). set (b := begin_running_usec s + job_running_timeout (j_unit jb)).
  set (T := if timestamp_is_set (begin_running_usec s) then _ else _). destruct (Z.eqb_spec T USEC_INFINITY) as [He|Hne].
  - exists 0, st2. split_and!; [done..|]. right. split; [|done]. intros t. split; [|done]. intros (_ & Hlt & [-> |[Hs ->]]); unfold T in He; [destruct (timestamp_is_set _)|rewrite Hs in He]; lia.
  - exists (timer_result j), (call (add_job_timer j T) st2). split_and!; [done|apply Hcall|done|done|done|]. left. exists T. split_and!; [done| | | |done|done].
    + unfold T in *. destruct (timestamp_is_set _); lia.
    + unfold T in *. destruct (timestamp_is_set _) eqn:Es; [|left; lia]. destruct (Z.leb_spec a b); [left; lia|right; split; [done|lia]].
    + intros t' (_ & Hlt & [-> |[Hs ->]]); unfold T; [destruct (timestamp_is_set _)|rewrite Hs]; lia.
Qed.

End Coldplug.

(** ** A manager with a running job and a NOP job of one unit *)

Definition before_state : @State ex_rq :=
  @MkState ex_rq (list_to_map [(1%positive, MkJob 1 1 JOB_START JOB_RUNNING JOB_DONE true false false false None 0 false false true);
                               (2%positive, MkJob 1 2 JOB_NOP JOB_WAITING JOB_DONE true false false false None 0 false true false)]) [] ∅ None false
    (@MkManager ex_rq (list_to_map [(1, 1)]%positive) (list_to_map [(1, 2)]%positive) (list_to_map [(1, 1%positive); (2, 2%positive)]) 3 2 1 0 (@rq_empty ex_rq) [] [] (λ _, UNIT_LOADED) []).

Lemma before_state_at_rest : at_rest before_state.
Proof.
  split.
  - apply sys_ok_check; [by_decide|done].
  - intros id i Hi. apply elem_of_list_to_map_2, list_elem_of_In in Hi. destruct Hi as [[= <- <-]|[[= <- <-]|[]]]; (eexists; split; [reflexivity|done]).
  - intros k kb Hk. apply elem_of_list_to_map_2, list_elem_of_In in Hk. destruct Hk as [[= <- <-]|[[= <- <-]|[]]]; by left.
  - reflexivity.
Qed.

Lemma new_state_at_rest : at_rest ex_state.
Proof.
  split.
  - apply sys_ok_check; [by_decide|done].
  - intros id i Hi. discriminate.
  - intros k kb Hk. discriminate.
  - reflexivity.
Qed.

Definition before_saved (j : positive) : SavedJob :=
  if decide (j = 1%positive) then MkSaved 1 (Some JOB_START) JOB_RUNNING true true false 1000 2000 [] [] (Some ex_details)
  else MkSaved 2 (Some JOB_NOP) JOB_WAITING false true true 0 0 [(str ":1.7", 1%nat)] [] None.

Lemma ex_details_writable : details_writable ex_details.
Proof.
  split; cbn [ex_details trigger_unit_name trigger_data].
  - intros n [= <-]. split; [by apply one_line_dec|by_decide].
  - intros n [= <-]. split; [by apply one_line_dec|by_decide].
  - done.
Qed.

Lemma before_writable j : writable (before_saved j).
Proof.
  unfold before_saved. case_decide; (split; cbn [s_id s_type begin_usec begin_running_usec bus_track s_activation_details]; [split; cbn; [lia|by intros t [= <-]|lia]|by_decide| |]).
  - intros n c Hin%not_elem_of_nil. done.
  - intros d [= <-]. apply ex_details_writable.
  - intros n c Hin. apply list_elem_of_singleton in Hin as [= -> ->]. split; [by apply one_line_dec|by_decide].
  - done.
Qed.

Lemma install_deserialized_exact_witness :
  @install_error ex_rq 1 (before_saved 1) ex_state = None ∧ ∃ st', @job_install_deserialized ex_rq 1 (before_saved 1) ex_state = (0, st') ∧ at_rest st'.
Proof.
  assert (He : @install_error ex_rq 1 (before_saved 1) ex_state = None) by (vm_compute; reflexivity).
  pose proof (@install_deserialized_exact ex_rq 1 (before_saved 1) ex_state new_state_at_rest ltac:(vm_compute; reflexivity)) as H.
  rewrite He in H. destruct H as (j & t & st' & H1 & _ & H2). split; [exact He|]. exists st'. split; [exact H1|exact H2].
Defined.

Lemma reexec_keeps_jobs_witness :
  ∃ st', @restore_jobs ex_rq (map (λ kv, (j_unit kv.2, job_serialize (before_saved kv.1) ++ str "x")) (map_to_list (heap before_state))) ex_state = Some st' ∧
    views st' ≡ₚ views before_state ∧ n_running_jobs (mgr st') = 1.
Proof.
  destruct (@reexec_keeps_jobs ex_rq before_state ex_state before_saved (λ _, str "x") (map_to_list (heap before_state))) as (st' & H1 & _ & H2 & H3).
  - exact before_state_at_rest.
  - vm_compute. reflexivity.
  - exact new_state_at_rest.
  - reflexivity.
  - intros j jb Hj. split; [|split; [apply before_writable|split; [done|by right]]].
    apply elem_of_list_to_map_2, list_elem_of_In in Hj. destruct Hj as [[= <- <-]|[[= <- <-]|[]]]; repeat split.
  - reflexivity.
  - exists st'. split; [exact H1|]. split; [exact H2|exact H3].
Defined.

Lemma job_coldplug_exact_witness :
  let E := ex_env (λ _ _, []) (λ _, UNIT_INACTIVE) [1%positive] in
  ∃ r st', @job_coldplug ex_rq E (λ _, 500) (λ _, USEC_INFINITY) (λ _, 1) 1 (before_saved 1) before_state = Some (r, st') ∧ at_rest st'.
Proof.
  intros E. destruct (@job_coldplug_exact ex_rq E (λ _, 500) (λ _, USEC_INFINITY) (λ _, 1) 1 (MkJob 1 1 JOB_START JOB_RUNNING JOB_DONE true false false false None 0 false false true)
    (before_saved 1) before_state) as (r & st' & H1 & H2 & _).
  - exact before_state_at_rest.
  - vm_compute. reflexivity.
  - reflexivity.
  - apply (wr_ok _ (before_writable 1)).
  - intros u. by_decide.
  - exists r, st'. split; [exact H1|exact H2].
Defined.
