(* ===== verification/JobGc.v ===== *)
(** * Collecting jobs (src/core/manager.c)

    Jobs of units that say so are dropped if nothing waits for them and no client refers to
    them. [manager_dispatch_gc_job_queue] looks at the jobs on the queue; dropping one may put others on it. *)

From S2P Require Import Prelude JobType Prioq RunQueue JobData TrDelete TrFix JobOps JobFinish JobInstall TrApply TrActivate AddJob JobRun JobReexec.

Section JobGc.
Context {RQ : RunQueue} {E : Env}.
Implicit Types (st : State) (j k : positive).

(** ** The code *)

(** [LIST_REMOVE] of the first job, and its flag *)
Definition gc_job_remove (j : positive) st : State :=
  alter_job (set_j_in_gc_queue false) j (alter_mgr (λ m, set_gc_job_queue (tail (gc_job_queue m)) m) st).

Fixpoint gc_job_loop (fuel : nat) (n : nat) (st : State) : option (nat * State) :=
  match gc_job_queue (mgr st) with
  | [] => Some (n, st)
  | j :: _ =>
      match fuel with
      | O => None
      | S fuel =>
          jb ← heap st !! j;
          assert_ (j_in_gc_queue jb);;
          let st := gc_job_remove j st in
          may ← job_may_gc j st;
          if negb may then gc_job_loop fuel (S n) st
          else
            st ← job_finish_and_invalidate j JOB_COLLECTED false st;
            gc_job_loop fuel (S n) st
      end
  end.

(** As many rounds as are ever needed: between two jobs that are dropped each job is on the queue at most once. *)
Definition gc_job_fuel st : nat := (S (size (heap st)) * S (size (heap st)))%nat.

Definition manager_dispatch_gc_job_queue (st : State) : option (nat * State) := gc_job_loop (gc_job_fuel st) 0 st.

(** ** Each round *)

Lemma gc_remove_spec j jb q st : at_rest st → gc_job_queue (mgr st) = j :: q → heap st !! j = Some jb →
  at_rest (gc_job_remove j st) ∧ tweaks j (set_j_in_gc_queue false) st (gc_job_remove j st) ∧ gc_job_queue (mgr (gc_job_remove j st)) = q.
Proof.
  intros Hr Hq Hj. pose proof (ar_ok _ Hr) as [_ Hm]. pose proof (rest_installed st j jb Hr Hj) as Hi. destruct (mo_gc _ Hm) as [Hnd Hel].
  rewrite Hq in Hnd, Hel. apply NoDup_cons in Hnd as [Hjn Hnd].
  assert (Htw : tweaks j (set_j_in_gc_queue false) st (gc_job_remove j st)) by done. split_and!; [|done|by unfold gc_job_remove; cbn; rewrite Hq].
  apply (tweaks_rest j (set_j_in_gc_queue false) st); [done| |done].
  apply (update_ok (set_j_in_gc_queue false) j jb st (set_gc_job_queue (tail (gc_job_queue (mgr st))) (mgr st))); try done.
  - apply Hr.
  - split; try done. apply (mo_types _ Hm j jb Hj).
  - change (run_bit (set_j_in_gc_queue false jb)) with (run_bit jb). change (n_running_jobs (set_gc_job_queue ?x (mgr st))) with (n_running_jobs (mgr st)). lia.
  - apply (mo_rq _ Hm).
  - apply queue_alter; [done|apply (mo_run _ Hm)].
  - apply queue_alter; [done|apply (mo_dbus _ Hm)].
  - cbn. rewrite Hq. cbn [tail]. split; [done|]. intros i. destruct (decide (i = j)) as [->|Hne].
    + rewrite lookup_alter_eq, Hj. split; [done|]. by intros (? & [= <-] & ?).
    + rewrite lookup_alter_ne by done. rewrite <- Hel, elem_of_cons. naive_solver.
Qed.

(** A job that is dropped takes no other with it. *)
Lemma drop_spec j jb st : at_rest st → few st → heap st !! j = Some jb →
  ∃ st', job_finish_and_invalidate j JOB_COLLECTED false st = Some st' ∧ at_rest st' ∧ few st' ∧ (size (heap st') < size (heap st))%nat ∧
    (∀ k, heap st' !! k = None → heap st !! k = None ∨ k = j) ∧ (∀ k kb', heap st' !! k = Some kb' → ∃ kb, heap st !! k = Some kb ∧ j_unit kb' = j_unit kb ∧ j_type kb' = j_type kb).
Proof.
  intros Hr Hfew Hj. pose proof (rest_installed st j jb Hr Hj) as Hi. destruct (finish_rest E j jb JOB_COLLECTED false st Hr Hfew Hj) as (st' & H & Hr' & Hfew' & _).
  destruct (job_finish_spec j jb JOB_COLLECTED false st (ar_ok _ Hr) Hfew Hj Hi) as (s & H2 & [(st1 & Hh & Hok1 & Hsh1 & Hc & _) _]); [by intros [? _]|].
  rewrite H in H2. injection H2 as <-. pose proof (shrinks_trans _ _ _ Hsh1 (ca_shrinks _ _ _ Hc)) as Hsh.
  assert (Hgone : heap st' !! j = None) by (apply (shrinks_gone st1); [apply (ca_shrinks _ _ _ Hc)|]; rewrite Hh; apply lookup_delete_eq).
  exists st'. split_and!; [done..| | |].
  - rewrite <- !(size_dom (D := gset positive)). apply subset_size. split.
    + intros k [kb Hk]%elem_of_dom. destruct (sh_heap _ _ Hsh k kb Hk) as (kb0 & ? & _). apply elem_of_dom. eauto.
    + intros Hsub. assert (Hin : j ∈ dom (heap st)) by (apply elem_of_dom; eauto). apply Hsub, elem_of_dom in Hin as [? ?]. congruence.
  - intros k Hk. destruct (decide (k = j)) as [->|Hne]; [by right|left]. apply eq_None_not_Some. intros Hs.
    destruct (ca_sound _ _ _ Hc k) as (? & [? _] & _); [by rewrite Hh, lookup_delete_ne|done|done].
  - intros k kb' Hk. destruct (sh_heap _ _ Hsh k kb' Hk) as (kb & ? & ? & _ & _ & ? & _). by exists kb.
Qed.

(** What [job_may_gc] asks of the job alone. *)
Definition droppable (j : positive) (jb : Job) : Prop := gc_jobs (j_unit jb) = true ∧ bus_referenced j = false ∧ j_type jb ≠ JOB_NOP.

Lemma may_gc_droppable j jb st : heap st !! j = Some jb → job_may_gc j st = Some true → droppable j jb.
Proof.
  intros Hj. unfold job_may_gc. rewrite Hj. cbn [mbind option_bind]. destruct (gc_jobs (j_unit jb)) eqn:Eg; cbn [negb]; [|done].
  destruct (bus_referenced j) eqn:Eb; [done|]. case_bool_decide; [done|]. by intros _.
Qed.

Definition gc_load (N : nat) st : nat := (size (heap st) * S N + length (gc_job_queue (mgr st)))%nat.

Lemma gc_queue_size st : at_rest st → (length (gc_job_queue (mgr st)) <= size (heap st))%nat.
Proof.
  intros Hr. destruct (mo_gc _ (proj2 (ar_ok _ Hr))) as [Hnd Hel]. rewrite <- (size_list_to_set (C := gset positive)) by done. rewrite <- (size_dom (D := gset positive)).
  apply subseteq_size. intros k Hk%elem_of_list_to_set%Hel. destruct Hk as (kb & Hk & _). apply elem_of_dom. eauto.
Qed.

Lemma gc_job_loop_spec N fuel n st : at_rest st → few st → (size (heap st) <= N)%nat → (gc_load N st <= fuel)%nat →
  ∃ m st', gc_job_loop fuel n st = Some (m, st') ∧ at_rest st' ∧ gc_job_queue (mgr st') = [] ∧
    (∀ i ib, heap st !! i = Some ib → heap st' !! i = None → droppable i ib) ∧
    (∀ i ib', heap st' !! i = Some ib' → ∃ ib, heap st !! i = Some ib ∧ j_unit ib' = j_unit ib ∧ j_type ib' = j_type ib).
Proof.
  revert n st. induction fuel as [|fuel IH]; intros n st Hr Hfew HN Hload; cbn [gc_job_loop]; destruct (gc_job_queue (mgr st)) as [|j q] eqn:Eq;
    try (exists n, st; split_and!; [done..|intros; congruence|intros i ib ?; by exists ib]).
  { unfold gc_load in Hload. rewrite Eq in Hload. cbn in Hload. lia. }
  destruct (mo_gc _ (proj2 (ar_ok _ Hr))) as [_ Hel]. destruct (proj1 (Hel j)) as (jb & Hj & Hjq); [rewrite Eq; apply list_elem_of_here|].
  rewrite Hj. cbn [mbind option_bind]. rewrite assert_bind by done.
  destruct (gc_remove_spec j jb q st Hr Eq Hj) as (Hr1 & Htw & Hq1). set (st1 := gc_job_remove j st) in *.
  pose proof (tweaks_few _ _ _ _ Htw Hfew) as Hfew1. pose proof (tweaks_lookup _ _ _ _ jb Htw Hj) as Hj1.
  assert (Hsize : size (heap st1) = size (heap st)) by (rewrite (tw_heap _ _ _ _ Htw), <- !(size_dom (D := gset positive)), dom_alter_L; done).
  assert (Hback : ∀ i, heap st1 !! i = None → heap st !! i = None).
  { intros i. rewrite (tw_heap _ _ _ _ Htw). by intros ?%lookup_alter_None. }
  assert (Hsame : ∀ i ib, heap st !! i = Some ib → ∃ ib1, heap st1 !! i = Some ib1 ∧ j_unit ib1 = j_unit ib ∧ j_type ib1 = j_type ib).
  { intros i ib Hi. rewrite (tw_heap _ _ _ _ Htw). destruct (decide (i = j)) as [->|Hne]; [rewrite lookup_alter_eq, Hi|rewrite lookup_alter_ne by done]; by eexists. }
  assert (Hsame' : ∀ i ib1, heap st1 !! i = Some ib1 → ∃ ib, heap st !! i = Some ib ∧ j_unit ib1 = j_unit ib ∧ j_type ib1 = j_type ib).
  { intros i ib1 Hi. destruct (heap st !! i) as [ib|] eqn:Ei; [destruct (Hsame i ib Ei) as (x & ? & ? & ?); exists ib; split_and!; congruence|].
    rewrite (tw_heap _ _ _ _ Htw) in Hi. apply lookup_alter_Some in Hi as [(? & ? & ? & ?)|[? ?]]; congruence. }
  assert (Hdrop : ∀ i ib ib1, j_unit ib1 = j_unit ib → j_type ib1 = j_type ib → droppable i ib1 → droppable i ib).
  { intros i ib ib1 Hu Ht. unfold droppable. by rewrite Hu, Ht. }
  destruct (may_gc_defined j _ st1 (ar_ok _ Hr1) Hj1) as [may Hmay]. rewrite Hmay. cbn [mbind option_bind]. destruct may; cbn [negb].
  - destruct (drop_spec j _ st1 Hr1 Hfew1 Hj1) as (st2 & -> & Hr2 & Hfew2 & Hless & Hg & Hk). cbn [mbind option_bind].
    destruct (IH (S n) st2 Hr2 Hfew2) as (k & st' & H & Hr' & Hq' & Hgone & Hstay); [lia| |].
    { pose proof (gc_queue_size st2 Hr2). unfold gc_load in *. nia. }
    exists k, st'. split_and!; [done..| |].
    + intros i ib Hi Hi'. destruct (heap st2 !! i) as [ib2|] eqn:E2.
      * destruct (Hk i ib2 E2) as (ib1 & G1 & ? & ?). destruct (Hsame i ib Hi) as (x & ? & ? & ?). apply (Hdrop i ib ib2); [congruence..|]. by apply Hgone.
      * destruct (Hg i E2) as [Hn| ->]; [apply Hback in Hn; congruence|]. assert (ib = jb) as -> by congruence. apply (Hdrop j jb (set_j_in_gc_queue false jb)); [done..|]. by apply (may_gc_droppable j _ st1).
    + intros i ib' Hi. destruct (Hstay i ib' Hi) as (ib2 & G2 & ? & ?). destruct (Hk i ib2 G2) as (ib1 & G1 & ? & ?). destruct (Hsame' i ib1 G1) as (ib & ? & ? & ?). exists ib. split_and!; congruence.
  - destruct (IH (S n) st1 Hr1 Hfew1) as (k & st' & H & Hr' & Hq' & Hgone & Hstay); [lia| |].
    { unfold gc_load in *. rewrite Hsize, Hq1. rewrite Eq in Hload. cbn in Hload. lia. }
    exists k, st'. split_and!; [done..| |].
    + intros i ib Hi Hi'. destruct (Hsame i ib Hi) as (ib1 & G1 & ? & ?). by apply (Hdrop i ib ib1), Hgone.
    + intros i ib' Hi. destruct (Hstay i ib' Hi) as (ib1 & G1 & ? & ?). destruct (Hsame' i ib1 G1) as (ib & ? & ? & ?). exists ib. split_and!; congruence.
Qed.

(** C35: [manager_dispatch_gc_job_queue] ends with an empty queue, though dropping a job
    may put others on it again. It keeps the invariants, drops only jobs that their unit lets go, that no client
    refers to and that are no NOP jobs, and makes no other change to what jobs there are. *)
Theorem gc_job_dispatch_terminates st : at_rest st → few st →
  ∃ n st', manager_dispatch_gc_job_queue st = Some (n, st') ∧ at_rest st' ∧ gc_job_queue (mgr st') = [] ∧
    (∀ i ib, heap st !! i = Some ib → heap st' !! i = None → droppable i ib) ∧
    (∀ i ib', heap st' !! i = Some ib' → ∃ ib, heap st !! i = Some ib ∧ j_unit ib' = j_unit ib ∧ j_type ib' = j_type ib).
Proof.
  intros Hr Hfew. apply (gc_job_loop_spec (size (heap st))); [done..|]. pose proof (gc_queue_size st Hr). unfold gc_load, gc_job_fuel. nia.
Qed.
End JobGc.

Definition gc_job_env : Env := {|
  unit_active_state _ := UNIT_INACTIVE; unit_dependencies _ _ := []; unit_following_set _ := []; ignore_on_isolate _ := false; allow_isolate _ := true;
  perpetual _ := false; unit_can_start _ := true; unit_can_stop _ := true; unit_can_reload _ := true; gc_jobs u := bool_decide (u = 1%positive);
  load_error _ := -EINVAL; manager_unit_cache_should_retry_load _ := false; unit_load _ := (0, UNIT_LOADED); bus_referenced _ := false; rq_alloc_ok _ := true;
  units := [1; 2]%positive; iter := map_to_list; iter_perm _ := reflexivity _; iter_ids m := (map_to_list m).*2; iter_ids_perm _ := reflexivity _ |}.

(** The running start job of unit 1 was put on the queue; its unit lets it go. *)
Definition gc_job_state : @State ex_rq :=
  match @job_add_to_gc_queue ex_rq gc_job_env 1 before_state with Some st => st | None => before_state end.

Lemma gc_job_state_at_rest : at_rest gc_job_state.
Proof.
  unfold gc_job_state. assert (Hj : heap before_state !! 1%positive = Some (MkJob 1 1 JOB_START JOB_RUNNING JOB_DONE true false false false None 0 false false true)) by reflexivity.
  destruct (@add_to_gc_queue_spec ex_rq gc_job_env 1 _ before_state (ar_ok _ before_state_at_rest) Hj eq_refl) as (st & H & Hok & Hsh). rewrite H.
  apply (keeps_rest before_state); [apply before_state_at_rest|done..|]. by apply (@add_to_gc_queue_keeps ex_rq gc_job_env 1).
Qed.

Lemma gc_job_dispatch_terminates_witness :
  let E := gc_job_env in ∃ n st', manager_dispatch_gc_job_queue gc_job_state = Some (n, st') ∧ at_rest st' ∧
    (λ r, map fst (map_to_list (heap r.2))) <$> manager_dispatch_gc_job_queue gc_job_state = Some [2%positive].
Proof.
  intros E. destruct (@gc_job_dispatch_terminates ex_rq E gc_job_state) as (n & st' & H1 & H2 & _).
  - exact gc_job_state_at_rest.
  - vm_compute. reflexivity.
  - exists n, st'. split; [exact H1|]. split; [exact H2|]. vm_compute. reflexivity.
Defined.
