(* ===== verification/UnitGc.v ===== *)
(** * Collecting units (src/core/manager.c, src/core/unit.c)

    Units that nobody needs any more are unloaded. A unit that may be unloaded is put on a queue;
    [manager_dispatch_gc_unit_queue] looks at the units that refer to it, and at those that refer to
    these, and so on, with markers on units against cycles. The theorems: a unit is put on the
    cleanup queue exactly if neither it nor a unit that refers to it, directly or not, must stay; the
    search terminates. *)

From S2P Require Import Prelude JobType Prioq RunQueue JobData JobOps UnitDep UnitDeps UnitDepsOps.

Inductive CollectMode := COLLECT_INACTIVE | COLLECT_INACTIVE_OR_FAILED.

(** What [unit_may_gc] reads of units, beyond [Env]: the number of names that the unit's bus track has, the result of
    [cg_is_empty_recursive] if the unit has a cgroup, [may_gc] of the unit type (true if it is
    NULL), whether the type has [release_resources]; and the sources of the [UnitRef]s to the unit. *)
Class GcConf := {
  collect_mode : positive → CollectMode;
  bus_track_count : positive → Z;
  cg_is_empty_recursive : positive → option Z;
  vtable_may_gc : positive → bool;
  has_release_resources : positive → bool;
  refs_by_target : positive → list positive }.

Section Gc.
Context {RQ : RunQueue} {E : Env} {GC : GcConf}.
Implicit Types (st : State) (u v r q : positive) (P : list positive).

(** ** The code *)

(** The flags [in_gc_queue] and [in_cleanup_queue] of a unit say whether it is in the list. Markers that were
    never set are 0. *)
Record Gc := MkGc {
  gc_sys : State;
  gc_markers : gmap positive Z;
  m_gc_marker : Z;
  gc_unit_queue : list positive;
  cleanup_queue : list positive }.

Definition gc_marker (g : Gc) (u : positive) : Z := default 0 (gc_markers g !! u).

Definition set_gc_sys (x : State) (g : Gc) : Gc := MkGc x (gc_markers g) (m_gc_marker g) (gc_unit_queue g) (cleanup_queue g).
Definition set_gc_marker (u : positive) (x : Z) (g : Gc) : Gc := MkGc (gc_sys g) (<[u := x]> (gc_markers g)) (m_gc_marker g) (gc_unit_queue g) (cleanup_queue g).
Definition set_m_gc_marker (x : Z) (g : Gc) : Gc := MkGc (gc_sys g) (gc_markers g) x (gc_unit_queue g) (cleanup_queue g).
Definition set_gc_unit_queue (x : list positive) (g : Gc) : Gc := MkGc (gc_sys g) (gc_markers g) (m_gc_marker g) x (cleanup_queue g).
Definition set_cleanup_queue (x : list positive) (g : Gc) : Gc := MkGc (gc_sys g) (gc_markers g) (m_gc_marker g) (gc_unit_queue g) x.

Definition has_jobs (st : State) (u : positive) : bool :=
  bool_decide (is_Some (unit_job (mgr st) !! u)) || bool_decide (is_Some (unit_nop_job (mgr st) !! u)).

Definition unit_success_failure_handler_has_jobs (u : positive) (st : State) : bool :=
  existsb (has_jobs st) (unit_dependencies u UNIT_ATOM_ON_SUCCESS) || existsb (has_jobs st) (unit_dependencies u UNIT_ATOM_ON_FAILURE).

Definition unit_may_gc (u : positive) (st : State) : bool * State :=
  if has_jobs st u then (false, st)
  else
    let state := unit_active_state u in
    let st := if UNIT_IS_INACTIVE_OR_FAILED state && has_release_resources u then call (release_resources u) st else st in
    (if perpetual u then false
     else if 0 <? bus_track_count u then false
     else if match collect_mode u with
             | COLLECT_INACTIVE => negb (bool_decide (state = UNIT_INACTIVE))
             | COLLECT_INACTIVE_OR_FAILED => negb (bool_decide (state ∈ [UNIT_INACTIVE; UNIT_FAILED]))
             end then false
     else if unit_success_failure_handler_has_jobs u st then false
     else if match cg_is_empty_recursive u with Some r => r <=? 0 | None => false end then false
     else vtable_may_gc u, st).

Definition unit_add_to_cleanup_queue (u : positive) (g : Gc) : Gc :=
  if bool_decide (u ∈ cleanup_queue g) then g else set_cleanup_queue (u :: cleanup_queue g) g.

Definition unit_add_to_gc_queue (u : positive) (g : Gc) : Gc :=
  if bool_decide (u ∈ gc_unit_queue g) || bool_decide (u ∈ cleanup_queue g) then g
  else
    let '(may, st) := unit_may_gc u (gc_sys g) in
    let g := set_gc_sys st g in
    if negb may then g else set_gc_unit_queue (u :: gc_unit_queue g) g.

Definition GC_OFFSET_IN_PATH : Z := 0.
Definition GC_OFFSET_UNSURE : Z := 1.
Definition GC_OFFSET_GOOD : Z := 2.
Definition GC_OFFSET_BAD : Z := 3.
Definition _GC_OFFSET_MAX : Z := 4.

(** [u->gc_marker == gc_marker + offset], and [IN_SET(u->gc_marker - gc_marker, ...)] *)
Definition marked_as (base : Z) (g : Gc) (u : positive) (offset : Z) : bool := gc_marker g u =? u32 (base + offset).
Definition marked_in (base : Z) (g : Gc) (u : positive) (offsets : list Z) : bool := bool_decide (u32 (gc_marker g u - base) ∈ offsets).

Fixpoint unit_gc_mark_good (fuel : nat) (base : Z) (u : positive) (g : Gc) : option Gc :=
  match fuel with
  | O => None
  | S fuel =>
      let g := set_gc_marker u (u32 (base + GC_OFFSET_GOOD)) g in
      (fix loop (l : list positive) (g : Gc) : option Gc :=
         match l with
         | [] => Some g
         | other :: l =>
             g ← (if marked_as base g other GC_OFFSET_UNSURE then unit_gc_mark_good fuel base other g else Some g);
             loop l g
         end) (unit_dependencies u UNIT_ATOM_REFERENCES) g
  end.

(** One of the two loops of [unit_gc_sweep]. [None] is "goto good", otherwise it is [is_bad]. *)
Fixpoint sweep_loop (sweep : positive → Gc → option Gc) (base : Z) (l : list positive) (is_bad : bool) (g : Gc) : option (option bool * Gc) :=
  match l with
  | [] => Some (Some is_bad, g)
  | other :: l =>
      g ← sweep other g;
      if marked_as base g other GC_OFFSET_GOOD then Some (None, g)
      else sweep_loop sweep base l (if negb (marked_as base g other GC_OFFSET_BAD) then false else is_bad) g
  end.

(** Enough for the recursion, see [sweep_spec]. *)
Definition gc_fuel : nat := S (length units).

Definition sweep_bad (base : Z) (u : positive) (g : Gc) : Gc := unit_add_to_cleanup_queue u (set_gc_marker u (u32 (base + GC_OFFSET_BAD)) g).
Definition sweep_unsure (base : Z) (u : positive) (g : Gc) : Gc := unit_add_to_gc_queue u (set_gc_marker u (u32 (base + GC_OFFSET_UNSURE)) g).

Fixpoint unit_gc_sweep (fuel : nat) (base : Z) (u : positive) (g : Gc) : option Gc :=
  match fuel with
  | O => None
  | S fuel =>
      if marked_in base g u [GC_OFFSET_GOOD; GC_OFFSET_BAD; GC_OFFSET_UNSURE; GC_OFFSET_IN_PATH] then Some g
      else if bool_decide (u ∈ cleanup_queue g) then Some (sweep_bad base u g)
      else
        let '(may, st) := unit_may_gc u (gc_sys g) in
        let g := set_gc_sys st g in
        if negb may then unit_gc_mark_good gc_fuel base u g
        else
          let g := set_gc_marker u (u32 (base + GC_OFFSET_IN_PATH)) g in
          '(is_bad, g) ← sweep_loop (unit_gc_sweep fuel base) base (unit_dependencies u UNIT_ATOM_REFERENCED_BY) true g;
          match is_bad with
          | None => unit_gc_mark_good gc_fuel base u g
          | Some is_bad =>
              '(is_bad, g) ← sweep_loop (unit_gc_sweep fuel base) base (refs_by_target u) is_bad g;
              match is_bad with
              | None => unit_gc_mark_good gc_fuel base u g
              | Some true => Some (sweep_bad base u g)
              | Some false => Some (sweep_unsure base u g)
              end
          end
  end.

(** The loop of the dispatcher; [n] units were looked at. *)
Fixpoint gc_loop (fuel : nat) (base : Z) (n : nat) (g : Gc) : option (nat * Gc) :=
  match gc_unit_queue g with
  | [] => Some (n, g)
  | u :: _ =>
      match fuel with
      | O => None
      | S fuel =>
          g ← unit_gc_sweep gc_fuel base u g;
          let g := set_gc_unit_queue (filter (.≠ u) (gc_unit_queue g)) g in
          let g := if marked_in base g u [GC_OFFSET_BAD; GC_OFFSET_UNSURE] then sweep_bad base u g else g in
          gc_loop fuel base (S n) g
      end
  end.

Definition next_gc_marker (m : Z) : Z := let m := u32 (m + _GC_OFFSET_MAX) in if u32 (m + _GC_OFFSET_MAX) <=? _GC_OFFSET_MAX then 1 else m.

Definition manager_dispatch_gc_unit_queue (g : Gc) : option (nat * Gc) :=
  let base := next_gc_marker (m_gc_marker g) in
  gc_loop (2 * gc_fuel) base 0 (set_m_gc_marker base g).

(** ** Needed units *)

(** Referring units, as [unit_gc_sweep] follows them. *)
Definition referrers (u : positive) : list positive := unit_dependencies u UNIT_ATOM_REFERENCED_BY ++ refs_by_target u.
Definition referrer (u v : positive) : Prop := v ∈ referrers u.

(** A unit must stay: it has a job, is perpetual, is watched by a bus client, is in a state in which its kind is
    not collected, a job of a unit that its success or failure starts is pending, its control group is not known to be empty, or its
    type keeps it. *)
Inductive must_stay (st : State) (u : positive) : Prop :=
  | stay_job j : unit_job (mgr st) !! u = Some j → must_stay st u
  | stay_nop_job j : unit_nop_job (mgr st) !! u = Some j → must_stay st u
  | stay_perpetual : perpetual u = true → must_stay st u
  | stay_watched : 0 < bus_track_count u → must_stay st u
  | stay_state : collect_mode u = COLLECT_INACTIVE → unit_active_state u ≠ UNIT_INACTIVE → must_stay st u
  | stay_up : collect_mode u = COLLECT_INACTIVE_OR_FAILED → unit_active_state u ∉ [UNIT_INACTIVE; UNIT_FAILED] → must_stay st u
  | stay_handler v j : v ∈ unit_dependencies u UNIT_ATOM_ON_SUCCESS ∨ v ∈ unit_dependencies u UNIT_ATOM_ON_FAILURE →
      unit_job (mgr st) !! v = Some j ∨ unit_nop_job (mgr st) !! v = Some j → must_stay st u
  | stay_cgroup (x : Z) : cg_is_empty_recursive u = Some x → x <= 0 → must_stay st u
  | stay_type : vtable_may_gc u = false → must_stay st u.

(** A unit is needed if it must stay, or a needed unit refers to it. Units that are about to be freed,
    [C], are not needed and need nothing. *)
Inductive needed (C : list positive) (st : State) : positive → Prop :=
  | needed_itself u : u ∉ C → must_stay st u → needed C st u
  | needed_by u r : u ∉ C → referrer u r → needed C st r → needed C st u.

Lemma needed_free C st u : needed C st u → u ∉ C.
Proof. by destruct 1. Qed.

(** [unit_may_gc] reads only the slots of units. *)
Definition same_slots (st st' : State) : Prop := unit_job (mgr st') = unit_job (mgr st) ∧ unit_nop_job (mgr st') = unit_nop_job (mgr st).

Lemma same_jobs st st' u : same_slots st st' → has_jobs st' u = has_jobs st u.
Proof. intros [H1 H2]. unfold has_jobs. by rewrite H1, H2. Qed.

Lemma may_gc_effect u st : same_slots st (unit_may_gc u st).2.
Proof. unfold unit_may_gc. destruct (has_jobs st u); [done|]. cbn. by destruct (_ && _). Qed.

Lemma handler_slots u st st' : same_slots st st' → unit_success_failure_handler_has_jobs u st' = unit_success_failure_handler_has_jobs u st.
Proof. intros H. unfold unit_success_failure_handler_has_jobs. f_equal; induction (unit_dependencies u _) as [|v l IH]; cbn; [done| |done|]; by rewrite IH, (same_jobs st st'). Qed.

Lemma may_gc_slots u st st' : same_slots st st' → (unit_may_gc u st').1 = (unit_may_gc u st).1.
Proof.
  intros H. unfold unit_may_gc. rewrite (same_jobs st st' u H). destruct (has_jobs st u); [done|]. cbn [fst].
  rewrite (handler_slots u (if UNIT_IS_INACTIVE_OR_FAILED (unit_active_state u) && has_release_resources u then call (release_resources u) st else st));
    [done|]. by destruct (_ && _).
Qed.

(** [unit_may_gc] finds these reasons. *)
Lemma has_jobs_iff st u : has_jobs st u = true ↔ ∃ j, unit_job (mgr st) !! u = Some j ∨ unit_nop_job (mgr st) !! u = Some j.
Proof. unfold has_jobs, is_Some. rewrite orb_true_iff, !bool_decide_eq_true. naive_solver. Qed.

Lemma handler_iff u st : unit_success_failure_handler_has_jobs u st = true ↔
  ∃ v, (v ∈ unit_dependencies u UNIT_ATOM_ON_SUCCESS ∨ v ∈ unit_dependencies u UNIT_ATOM_ON_FAILURE) ∧ has_jobs st v = true.
Proof.
  unfold unit_success_failure_handler_has_jobs. rewrite orb_true_iff, !existsb_exists.
  setoid_rewrite list_elem_of_In. naive_solver.
Qed.

Lemma may_gc_iff u st : (unit_may_gc u st).1 = false ↔ must_stay st u.
Proof.
  unfold unit_may_gc. destruct (has_jobs st u) eqn:Hjobs.
  { split; [|done]. intros _. apply has_jobs_iff in Hjobs as [j [?|?]]; [by eapply stay_job|by eapply stay_nop_job]. }
  cbn [fst]. set (st1 := if _ && has_release_resources u then _ else st). assert (Hst1 : same_slots st st1) by by unfold st1; destruct (_ && _).
  rewrite (handler_slots u st st1 Hst1). split.
  - destruct (perpetual u) eqn:E1; [intros _; by apply stay_perpetual|]. destruct (0 <? bus_track_count u) eqn:E2; [intros _; apply stay_watched; lia|].
    destruct (match collect_mode u with COLLECT_INACTIVE => _ | _ => _ end) eqn:E3.
    { intros _. destruct (collect_mode u) eqn:Em; apply negb_true_iff, bool_decide_eq_false in E3; [by apply stay_state|by apply stay_up]. }
    destruct (unit_success_failure_handler_has_jobs u st) eqn:E4.
    { intros _. apply handler_iff in E4 as (v & Hv & [j Hj]%has_jobs_iff). by eapply stay_handler. }
    destruct (cg_is_empty_recursive u) as [x|] eqn:E5; [destruct (x <=? 0) eqn:E6; [intros _; eapply stay_cgroup; [done|lia]|]|]; by apply stay_type.
  - intros H. destruct (perpetual u) eqn:E1; [done|]. destruct (0 <? bus_track_count u) eqn:E2; [done|].
    destruct (match collect_mode u with COLLECT_INACTIVE => _ | _ => _ end) eqn:E3; [done|]. destruct (unit_success_failure_handler_has_jobs u st) eqn:E4; [done|].
    destruct (match cg_is_empty_recursive u with Some r => r <=? 0 | None => false end) eqn:E5; [done|]. apply not_true_iff_false in Hjobs, E4. rewrite has_jobs_iff in Hjobs. rewrite handler_iff in E4.
    destruct H as [j Hj|j Hj|Hp|Hb|Hm Hs|Hm Hs|v j Hv Hj|r Hr Hle|]; try done.
    + destruct Hjobs. eauto.
    + destruct Hjobs. eauto.
    + congruence.
    + lia.
    + rewrite Hm in E3. by apply negb_false_iff, bool_decide_eq_true in E3.
    + rewrite Hm in E3. by apply negb_false_iff, bool_decide_eq_true in E3.
    + destruct E4. exists v. split; [done|]. apply has_jobs_iff. by exists j.
    + rewrite Hr in E5. lia.
Qed.

(** ** Markers *)

(** The distance of a unit's marker from the round's: negative if the unit was not seen in this round. *)
Definition mark (base : Z) (g : Gc) (u : positive) : Z := gc_marker g u - base.

Definition in_range (base : Z) (g : Gc) : Prop := ∀ u, 0 <= gc_marker g u <= base + 3.

Lemma mark_set base g u k v : 0 <= base → base + 3 < 2 ^ 32 → 0 <= k <= 3 → mark base (set_gc_marker u (u32 (base + k)) g) v = if decide (v = u) then k else mark base g v.
Proof.
  intros Hb Hm Hk. unfold mark, gc_marker, set_gc_marker. cbn [gc_markers]. case_decide as H; [subst v; rewrite lookup_insert_eq|by rewrite lookup_insert_ne by done].
  cbn [default]. rewrite u32_small by lia. cbn. lia.
Qed.

Lemma range_set base g u k : 0 <= base → base + 3 < 2 ^ 32 → 0 <= k <= 3 → in_range base g → in_range base (set_gc_marker u (u32 (base + k)) g).
Proof. intros Hb Hm Hk Hr v. pose proof (mark_set base g u k v Hb Hm Hk) as H. unfold mark in H. specialize (Hr v). case_decide; lia. Qed.

Lemma marked_as_mark base g u k : 0 <= base → base + 3 < 2 ^ 32 → 0 <= k <= 3 → marked_as base g u k = (mark base g u =? k).
Proof. intros Hb Hm Hk. unfold marked_as, mark. rewrite u32_small by lia. destruct (Z.eqb_spec (gc_marker g u) (base + k)), (Z.eqb_spec (gc_marker g u - base) k); lia. Qed.

Lemma marked_in_mark base g u l : 0 <= base → base + 3 < 2 ^ 32 → in_range base g → (∀ k, k ∈ l → 0 <= k <= 3) → marked_in base g u l = bool_decide (mark base g u ∈ l).
Proof.
  intros Hb Hm Hr Hl. unfold marked_in. apply bool_decide_ext. fold (mark base g u). specialize (Hr u). unfold mark in *. destruct (Z.leb_spec base (gc_marker g u)).
  - by rewrite u32_small by lia.
  - split; intros Hin; [|specialize (Hl _ Hin); lia]. specialize (Hl _ Hin). unfold u32 in Hl. rewrite <- (Z.mod_add _ 1) in Hl by lia. rewrite Z.mod_small in Hl; lia.
Qed.

(** ** What the search relies on *)

(** Dependencies stay among the units and are entered on both sides (see [history] of UnitDepsOps). *)
Definition refs_known : Prop := ∀ u v, u ∈ units →
  (v ∈ unit_dependencies u UNIT_ATOM_REFERENCED_BY → v ∈ units) ∧ (v ∈ unit_dependencies u UNIT_ATOM_REFERENCES → v ∈ units) ∧ (v ∈ refs_by_target u → v ∈ units).
Definition refs_mirrored : Prop := ∀ u v, u ∈ units → v ∈ units → v ∈ unit_dependencies u UNIT_ATOM_REFERENCED_BY ↔ u ∈ unit_dependencies v UNIT_ATOM_REFERENCES.

(** Every [UnitRef] goes along with a dependency, or is on no cycle. *)
Definition refs_simple : Prop := ∀ u r, u ∈ units → r ∈ refs_by_target u → u ∈ unit_dependencies r UNIT_ATOM_REFERENCES ∨ ¬ rtc referrer r u.

Definition tracked (base : Z) : Prop := 0 <= base ∧ base + 3 < 2 ^ 32.

Definition count_marks (p : Z → bool) (base : Z) (g : Gc) : nat := length (filter (λ u, p (mark base g u) = true) units).

Lemma count_less (p : Z → bool) base g g' : (∀ u, p (mark base g' u) = true → p (mark base g u) = true) → (count_marks p base g' <= count_marks p base g)%nat.
Proof.
  intros H. unfold count_marks. induction units as [|x l IH]; [done|]. rewrite !filter_cons. repeat case_decide; cbn; try lia. exfalso. auto.
Qed.

Lemma count_one (p : Z → bool) base g g' u : u ∈ units → (∀ v, p (mark base g' v) = true → p (mark base g v) = true) →
  p (mark base g u) = true → p (mark base g' u) = false → (count_marks p base g' < count_marks p base g)%nat.
Proof.
  intros Hin H Hu Hu'. unfold count_marks.
  assert (Hle : ∀ l, (length (filter (λ v, p (mark base g' v) = true) l) <= length (filter (λ v, p (mark base g v) = true) l))%nat).
  { induction l as [|x l IH]; [done|]. rewrite !filter_cons. repeat case_decide; cbn; try lia. exfalso. auto. }
  apply list_elem_of_split in Hin as (l1 & l2 & ->). rewrite !filter_app, !filter_cons, !length_app. rewrite decide_False by congruence. rewrite decide_True by done.
  pose proof (Hle l1). pose proof (Hle l2). cbn. lia.
Qed.

(** ** Marking what is needed *)

Definition is_unsure (m : Z) : bool := m =? 1.

(** From [g] to [g'] units of [Q] that were unsure may have become good, and with them what they refer to. *)
Record spreads (base : Z) (Q : positive → Prop) (g g' : Gc) : Prop := {
  sp_rest : gc_sys g' = gc_sys g ∧ m_gc_marker g' = m_gc_marker g ∧ gc_unit_queue g' = gc_unit_queue g ∧ cleanup_queue g' = cleanup_queue g;
  sp_range : in_range base g → in_range base g';
  sp_marks v : mark base g' v = mark base g v ∨ mark base g v = 1 ∧ mark base g' v = 2 ∧ Q v;
  sp_closed x v : mark base g x = 1 → mark base g' x = 2 → v ∈ unit_dependencies x UNIT_ATOM_REFERENCES → mark base g' v ≠ 1;
}.

Lemma spreads_refl base Q g : spreads base Q g g.
Proof. split; try done; [by left|lia]. Qed.

Lemma spreads_trans base Q g1 g2 g3 : spreads base Q g1 g2 → spreads base Q g2 g3 → spreads base Q g1 g3.
Proof.
  intros [(A1 & A2 & A3 & A4) A5 A6 A7] [(B1 & B2 & B3 & B4) B5 B6 B7]. split.
  - split_and!; congruence.
  - auto.
  - intros v. destruct (A6 v) as [Ha|(Ha & Ha2 & ?)], (B6 v) as [Hb|(Hb & Hb2 & ?)]; [left; congruence|right; split_and!; [congruence|done..]|right; split_and!; [done|congruence|done]|lia].
  - intros x v H1 H3 Hin. destruct (A6 x) as [Ha|(Ha & Ha2 & ?)].
    + destruct (B6 x) as [Hb|(Hb & Hb2 & ?)]; [lia|]. by apply (B7 x).
    + pose proof (A7 x v H1 Ha2 Hin). destruct (B6 v) as [Hb|(Hb & _)]; [congruence|lia].
Qed.

Section Marking.
Context (base : Z) (Hbase : tracked base) (Q : positive → Prop).
Context (Hknown : refs_known).

Lemma mark_good_spec fuel u g : u ∈ units → Q u →
  (∀ x v, x ∈ units → Q x → v ∈ unit_dependencies x UNIT_ATOM_REFERENCES → mark base g v = 1 → Q v) →
  (count_marks is_unsure base (set_gc_marker u (u32 (base + 2)) g) < fuel)%nat →
  ∃ g', unit_gc_mark_good fuel base u g = Some g' ∧ spreads base Q (set_gc_marker u (u32 (base + 2)) g) g' ∧
    ∀ v, v ∈ unit_dependencies u UNIT_ATOM_REFERENCES → mark base g' v ≠ 1.
Proof.
  destruct Hbase as [Hb0 Hb7]. revert u g. induction fuel as [|fuel IH]; intros u g Hu Hq HQ Hfuel; [lia|]. cbn [unit_gc_mark_good].
  change GC_OFFSET_GOOD with 2. set (g0 := set_gc_marker u (u32 (base + 2)) g) in *.
  assert (HQ0 : ∀ x v, x ∈ units → Q x → v ∈ unit_dependencies x UNIT_ATOM_REFERENCES → mark base g0 v = 1 → Q v).
  { intros x v Hx Hqx Hv Hm. apply (HQ x v Hx Hqx Hv). unfold g0 in Hm. rewrite mark_set in Hm by lia. case_decide; lia. }
  assert (Hloop : ∀ l g1, (∀ v, v ∈ l → v ∈ unit_dependencies u UNIT_ATOM_REFERENCES) → spreads base Q g0 g1 → ∃ g',
    (fix loop (l : list positive) (g : Gc) : option Gc := match l with [] => Some g | other :: l =>
       g ← (if marked_as base g other GC_OFFSET_UNSURE then unit_gc_mark_good fuel base other g else Some g); loop l g end) l g1 = Some g' ∧
    spreads base Q g0 g' ∧ spreads base Q g1 g' ∧ ∀ v, v ∈ l → mark base g' v ≠ 1).
  { induction l as [|o l IHl]; intros g1 Hl Hs; [exists g1; split_and!; [done..|apply spreads_refl|by intros v ?%not_elem_of_nil]|].
    change GC_OFFSET_UNSURE with 1. rewrite marked_as_mark by lia.
    assert (∃ g2, (if mark base g1 o =? 1 then unit_gc_mark_good fuel base o g1 else Some g1) = Some g2 ∧ spreads base Q g1 g2 ∧ mark base g2 o ≠ 1) as (g2 & H2 & Hs2 & Ho2).
    { destruct (Z.eqb_spec (mark base g1 o) 1) as [Ho|Ho]; [|exists g1; split_and!; [done|apply spreads_refl|done]].
      assert (Ho0 : mark base g0 o = 1) by (destruct (sp_marks _ _ _ _ Hs o) as [?|(? & ? & _)]; [congruence|lia]).
      assert (Hou : o ∈ unit_dependencies u UNIT_ATOM_REFERENCES) by apply Hl, list_elem_of_here.
      assert (Hoq : Q o) by (by apply (HQ0 u o)). assert (Hok : o ∈ units) by exact (proj1 (proj2 (Hknown u o Hu)) Hou).
      assert (Hone : ∀ v, mark base (set_gc_marker o (u32 (base + 2)) g1) v = if decide (v = o) then 2 else mark base g1 v) by (intros v; apply mark_set; lia).
      destruct (IH o g1 Hok Hoq) as (g2 & H2 & Hs2 & Hc2).
      - intros x v Hx Hqx Hv Hm. apply (HQ0 x v Hx Hqx Hv). destruct (sp_marks _ _ _ _ Hs v) as [?|(? & ? & _)]; [congruence|lia].
      - assert (count_marks is_unsure base (set_gc_marker o (u32 (base + 2)) g1) < count_marks is_unsure base g1)%nat.
        { apply (count_one _ _ _ _ o Hok); [|unfold is_unsure; by rewrite Ho|rewrite Hone; by rewrite decide_True].
          intros v. rewrite Hone. by case_decide. }
        assert (count_marks is_unsure base g1 <= count_marks is_unsure base g0)%nat.
        { apply count_less. intros v. unfold is_unsure. destruct (sp_marks _ _ _ _ Hs v) as [->|(? & -> & _)]; done. }
        lia.
      - exists g2. assert (Hg2o : mark base g2 o = 2) by (destruct (sp_marks _ _ _ _ Hs2 o) as [->|(? & ? & _)]; [rewrite Hone; by rewrite decide_True|done]).
        split_and!; [done| |lia]. destruct Hs2 as [Hrest Hrange Hmarks Hclosed]. split.
        + exact Hrest.
        + intros Hr. apply Hrange. apply range_set; [lia..|done].
        + intros v. destruct (decide (v = o)) as [->|Hne]; [by right|]. specialize (Hmarks v). by rewrite Hone, decide_False in Hmarks.
        + intros x v Hx1 Hx2 Hv. destruct (decide (x = o)) as [->|Hne]; [by apply Hc2|]. apply (Hclosed x); [by rewrite Hone, decide_False|done..]. }
    rewrite H2. cbn [mbind option_bind]. destruct (IHl g2) as (g' & H' & Hs' & Hs2' & Hl').
    { intros v Hv. by apply Hl, list_elem_of_further. } { by eapply spreads_trans. }
    exists g'. split_and!; [done..|by eapply spreads_trans|]. intros v [->|Hv]%elem_of_cons; [|by apply Hl'].
    destruct (sp_marks _ _ _ _ Hs2' o) as [->|(? & _)]; done. }
  destruct (Hloop (unit_dependencies u UNIT_ATOM_REFERENCES) g0) as (g' & H & Hs & _ & Hl); [done|apply spreads_refl|]. exists g'. split_and!; done.
Qed.
End Marking.

(** ** The search *)

Section Sweep.
Context (base : Z) (Hbase : tracked base) (C : list positive) (st0 : State).
Context (Hknown : refs_known) (Hmirror : refs_mirrored) (Hsimple : refs_simple).

Definition may (u : positive) : bool := (unit_may_gc u st0).1.

(** Each unit of the path refers to the one before it. *)
Fixpoint chain (P : list positive) : Prop :=
  match P with
  | [] => True
  | u :: P => match P with [] => True | v :: _ => referrer v u end ∧ chain P
  end.

Lemma chain_rtc u P q : chain (u :: P) → q ∈ u :: P → rtc referrer q u.
Proof.
  revert u. induction P as [|v P IH]; intros u [Hr Hc] [->|Hq]%elem_of_cons; [done|by apply not_elem_of_nil in Hq|done|].
  eapply rtc_r; [by apply IH|done].
Qed.

(** Between the steps of the search: [P] is the path that is being followed, the unit looked at first. *)
Record inv (P : list positive) (g : Gc) : Prop := {
  iv_range : in_range base g;
  iv_slots : same_slots st0 (gc_sys g);
  iv_path v : mark base g v = 0 ↔ v ∈ P;
  iv_known v : v ∈ P → v ∈ units;
  iv_chain : chain P;
  iv_bad v : mark base g v = 3 → ¬ needed C st0 v;
  iv_good v : mark base g v = 2 → needed C st0 v;
  iv_unsure v : mark base g v = 1 → v ∈ units ∧ (v ∉ C) ∧ may v = true ∧ v ∈ gc_unit_queue g;
  iv_referrers v r : mark base g v = 1 → referrer v r → mark base g r ∈ [0; 1; 3];
  iv_refs v r : mark base g v = 1 → r ∈ refs_by_target v → v ∈ unit_dependencies r UNIT_ATOM_REFERENCES ∨ ¬ needed C st0 r;
  iv_cleanup v : v ∈ cleanup_queue g ↔ v ∈ C ∨ mark base g v = 3;
  iv_queue : NoDup (gc_unit_queue g) ∧ (∀ v, v ∈ gc_unit_queue g → v ∈ units);
}.

Lemma known_referrer u r : u ∈ units → referrer u r → r ∈ units.
Proof. intros Hu [Hr|Hr]%elem_of_app; destruct (Hknown u r Hu) as (? & ? & ?); auto. Qed.

Lemma same_may g u : same_slots st0 (gc_sys g) → (unit_may_gc u (gc_sys g)).1 = may u.
Proof. apply may_gc_slots. Qed.

(** An unsure unit that is needed has a way to the path. *)
Lemma unsure_path P g r : inv P g → needed C st0 r → mark base g r = 1 → ∃ q, q ∈ P ∧ rtc referrer r q.
Proof.
  intros Hi Hn. induction Hn as [u Hu Hm|u r Hu Hr Hn IH]; intros Hmark.
  - apply may_gc_iff in Hm. destruct (iv_unsure _ _ Hi u Hmark) as (_ & _ & ? & _). unfold may in *. congruence.
  - pose proof (iv_referrers _ _ Hi u r Hmark Hr) as Hin. rewrite !elem_of_cons in Hin. destruct Hin as [H0|[H1|[H3|?%not_elem_of_nil]]].
    + exists r. split; [by apply (iv_path _ _ Hi)|by apply rtc_once].
    + destruct (IH H1) as (q & ? & ?). exists q. split; [done|by eapply rtc_l].
    + by destruct (iv_bad _ _ Hi r H3).
    + done.
Qed.

(** Units that were marked keep their marks, except that unsure ones may be good; the queue gets a unit for
    a mark at most. The mark of [x] may change. *)
Definition unseen : Gc → nat := count_marks (λ m, m <? 0) base.

Record later (x : option positive) (g g' : Gc) : Prop := {
  la_marks v : x ≠ Some v → 0 <= mark base g v → mark base g' v = mark base g v ∨ mark base g v = 1 ∧ mark base g' v = 2;
  la_seen v : 0 <= mark base g v → 0 <= mark base g' v;
  la_count : (length (gc_unit_queue g') + unseen g' <= length (gc_unit_queue g) + unseen g)%nat;
  la_queue v : v ∈ gc_unit_queue g → v ∈ gc_unit_queue g';
  la_base : m_gc_marker g' = m_gc_marker g;
}.

Lemma later_refl x g : later x g g.
Proof. split; try done. by left. Qed.

Lemma later_unseen x g g' : later x g g' → (unseen g' <= unseen g)%nat.
Proof. intros H. apply count_less. intros v. rewrite !Z.ltb_lt. intros Hv. destruct (Z.ltb_spec (mark base g v) 0); [done|]. pose proof (la_seen _ _ _ H v). lia. Qed.

Lemma later_trans x g1 g2 g3 : later x g1 g2 → later x g2 g3 → later x g1 g3.
Proof.
  intros H12 H23. split.
  - intros v Hx Hv. pose proof (la_seen _ _ _ H12 v Hv) as Hv2. destruct (la_marks _ _ _ H12 v Hx Hv) as [Ha|[Ha Ha2]], (la_marks _ _ _ H23 v Hx Hv2) as [Hb|[Hb Hb2]];
      [left; congruence|right; split; congruence|right; split; congruence|lia].
  - intros v Hv. by apply (la_seen _ _ _ H23), (la_seen _ _ _ H12).
  - pose proof (la_count _ _ _ H12). pose proof (la_count _ _ _ H23). lia.
  - intros v Hv. by apply (la_queue _ _ _ H23), (la_queue _ _ _ H12).
  - rewrite (la_base _ _ _ H23). apply (la_base _ _ _ H12).
Qed.

Lemma later_weaken x g g' : later None g g' → later x g g'.
Proof. intros [H1 H2 H3 H4 H5]. split; auto. Qed.

Lemma later_first u g g' : mark base g u < 0 → later (Some u) g g' → later None g g'.
Proof. intros Hu [H1 H2 H3 H4 H5]. split; [|done..]. intros v _ Hv. apply H1; [|done]. intros [= <-]. lia. Qed.

(** No unit became good. *)
Definition quiet (g g' : Gc) : Prop := ∀ v, mark base g' v = 2 → mark base g v = 2.

(** The unit [u] is needed: it was not seen yet, or is at the end of the path. *)
Lemma good_inv P P' u g : inv P' g → u ∈ units → needed C st0 u → u ∉ P → (P' = P ∧ mark base g u < 0 ∨ P' = u :: P) →
  ∃ g', unit_gc_mark_good gc_fuel base u g = Some g' ∧ inv P g' ∧ later (Some u) g g' ∧ mark base g' u = 2.
Proof.
  intros Hi Hu Hn HuP HP'. pose proof Hbase as [Hb0 Hb7]. set (g0 := set_gc_marker u (u32 (base + 2)) g).
  assert (H0 : ∀ v, mark base g0 v = if decide (v = u) then 2 else mark base g v) by (intros v; apply mark_set; lia).
  assert (Hback : ∀ x v, x ∈ units → v ∈ unit_dependencies x UNIT_ATOM_REFERENCES → mark base g v = 1 → referrer v x).
  { intros x v Hx Hv Hm. destruct (iv_unsure _ _ Hi v Hm) as (Hvu & _). apply elem_of_app. left. by apply (Hmirror v x). }
  destruct (mark_good_spec base Hbase (needed C st0) Hknown gc_fuel u g Hu Hn) as (g' & Hg & Hs & Hcl).
  - intros x v Hx Hnx Hv Hm. apply (needed_by C st0 v x); [by apply (iv_unsure _ _ Hi v Hm)|by apply Hback|done].
  - unfold gc_fuel, count_marks. apply Nat.lt_succ_r, length_filter.
  - fold g0 in Hs. destruct (sp_rest _ _ _ _ Hs) as (Hsys & Hmg & Hqu & Hcq).
    assert (Hm : ∀ v, v ≠ u → mark base g' v = mark base g v ∨ mark base g v = 1 ∧ mark base g' v = 2 ∧ needed C st0 v).
    { intros v Hv. pose proof (sp_marks _ _ _ _ Hs v) as Hx. by rewrite H0, decide_False in Hx. }
    assert (Hmu : mark base g' u = 2).
    { pose proof (sp_marks _ _ _ _ Hs u) as Hx. rewrite H0, decide_True in Hx by done. destruct Hx as [->|(? & _)]; lia. }
    assert (Hmu0 : mark base g u < 0 ∨ mark base g u = 0).
    { destruct HP' as [[_ ?]| ->]; [by left|right]. apply (iv_path _ _ Hi). apply list_elem_of_here. }
    assert (HP : ∀ v, v ≠ u → v ∈ P' ↔ v ∈ P).
    { intros v Hv. destruct HP' as [[-> _]| ->]; [done|]. rewrite elem_of_cons. naive_solver. }
    assert (H1 : ∀ v, mark base g' v = 1 → v ≠ u ∧ mark base g v = 1).
    { intros v Hv. destruct (decide (v = u)) as [->|Hne]; [lia|]. split; [done|]. destruct (Hm v Hne) as [<-|(? & ? & _)]; lia. }
    assert (H3 : ∀ v, mark base g' v = 3 ↔ mark base g v = 3).
    { intros v. destruct (decide (v = u)) as [->|Hne]; [lia|]. destruct (Hm v Hne) as [->|(? & ? & _)]; lia. }
    (* an unsure unit has no referrer that became good *)
    assert (Hnew : ∀ v r, mark base g' v = 1 → referrer v r → needed C st0 r → (r = u ∨ mark base g r = 1 ∧ mark base g' r = 2) → False).
    { intros v r Hv Hr Hnr Hnewr. destruct (H1 v Hv) as [Hvu Hv1]. destruct (iv_unsure _ _ Hi v Hv1) as (Hvk & _).
      assert (Hno : v ∉ unit_dependencies r UNIT_ATOM_REFERENCES).
      { intros Hin. destruct (decide (r = u)) as [->|Hne]; [by apply (Hcl v Hin)|]. destruct Hnewr as [?|[Hr1 Hr2]]; [done|].
        apply (sp_closed _ _ _ _ Hs r v); [by rewrite H0, decide_False|done..]. }
      pose proof Hr as [Hd|Hd]%elem_of_app.
      - apply Hno, Hmirror; [done|by apply (known_referrer v)|done].
      - by destruct (iv_refs _ _ Hi v r Hv1 Hd). }
    exists g'. split_and!; [done| | |done].
    + split.
      * apply (sp_range _ _ _ _ Hs), range_set; [lia..|apply (iv_range _ _ Hi)].
      * rewrite Hsys. apply (iv_slots _ _ Hi).
      * intros v. destruct (decide (v = u)) as [->|Hne]; [split; [lia|done]|]. rewrite <- (HP v Hne), <- (iv_path _ _ Hi). destruct (Hm v Hne) as [->|(? & ? & _)]; [done|lia].
      * intros v Hv. apply (iv_known _ _ Hi). apply HP; [|done]. by intros ->.
      * destruct HP' as [[-> _]| ->]; [apply (iv_chain _ _ Hi)|apply (iv_chain _ _ Hi)].
      * intros v Hv. apply (iv_bad _ _ Hi). by apply H3.
      * intros v Hv. destruct (decide (v = u)) as [->|Hne]; [done|]. destruct (Hm v Hne) as [He|(_ & _ & ?)]; [|done]. apply (iv_good _ _ Hi). congruence.
      * intros v [_ Hv]%H1. rewrite Hqu. apply (iv_unsure _ _ Hi v Hv).
      * intros v r Hv Hr. destruct (H1 v Hv) as [_ Hv1]. pose proof (iv_referrers _ _ Hi v r Hv1 Hr) as Hin.
        destruct (decide (r = u)) as [->|Hne]; [destruct (Hnew v u); [done..|by left]|].
        destruct (Hm r Hne) as [->|(? & ? & ?)]; [done|]. destruct (Hnew v r); [done..|by right].
      * intros v r [_ Hv]%H1. apply (iv_refs _ _ Hi v r Hv).
      * intros v. rewrite Hcq, H3. apply (iv_cleanup _ _ Hi).
      * rewrite Hqu. apply (iv_queue _ _ Hi).
    + assert (Hle : ∀ v, 0 <= mark base g v → 0 <= mark base g' v).
      { intros v Hv. destruct (decide (v = u)) as [->|Hne]; [lia|]. destruct (Hm v Hne) as [->|(? & ? & _)]; lia. }
      split.
      * intros v Hv _. destruct (Hm v) as [?|(? & ? & _)]; [congruence|by left|by right].
      * done.
      * rewrite Hqu. apply Nat.add_le_mono_l, count_less. intros v. rewrite !Z.ltb_lt. intros Hv. destruct (Z.ltb_spec (mark base g v) 0); [done|]. specialize (Hle v). lia.
      * by rewrite Hqu.
      * by rewrite Hmg.
Qed.

(** The unit [u] is not needed. *)
Lemma bad_inv P P' u g queue : inv P' g → ¬ needed C st0 u → u ∉ P → (∀ v, v ≠ u → v ∈ P' ↔ v ∈ P) → chain P →
  NoDup queue → (∀ v, v ∈ queue → v ∈ gc_unit_queue g) → (∀ v, v ≠ u → v ∈ gc_unit_queue g → v ∈ queue) →
  let g' := sweep_bad base u (set_gc_unit_queue queue g) in
  inv P g' ∧ (∀ v, mark base g' v = if decide (v = u) then 3 else mark base g v) ∧ gc_unit_queue g' = queue ∧ m_gc_marker g' = m_gc_marker g.
Proof.
  intros Hi Hn HuP HP Hchain Hnd Hq1 Hq2 g'. pose proof Hbase as [Hb0 Hb7]. set (g0 := set_gc_marker u (u32 (base + 3)) (set_gc_unit_queue queue g)).
  assert (Hm0 : ∀ v, mark base g0 v = if decide (v = u) then 3 else mark base g v) by (intros v; unfold g0; by rewrite mark_set by lia).
  assert (Hrest : gc_markers g' = gc_markers g0 ∧ gc_sys g' = gc_sys g ∧ gc_unit_queue g' = queue ∧ m_gc_marker g' = m_gc_marker g ∧
    ∀ v, v ∈ cleanup_queue g' ↔ v = u ∨ v ∈ cleanup_queue g).
  { unfold g', sweep_bad, unit_add_to_cleanup_queue. case_bool_decide as Hc; (split_and!; [done..|]); intros v.
    - split; [by right|]. by intros [->|?].
    - apply elem_of_cons. }
  destruct Hrest as (Hmk & Hsys & Hqu & Hmg & Hcq).
  assert (Hm : ∀ v, mark base g' v = if decide (v = u) then 3 else mark base g v) by (intros v; rewrite <- Hm0; unfold mark, gc_marker; by rewrite Hmk).
  split_and!; [|done..].
  assert (H1 : ∀ v, mark base g' v = 1 → v ≠ u ∧ mark base g v = 1) by (intros v; rewrite Hm; case_decide; [lia|done]).
  split.
  - intros v. unfold gc_marker. rewrite Hmk. apply range_set; [lia..|]. exact (iv_range _ _ Hi).
  - rewrite Hsys. apply (iv_slots _ _ Hi).
  - intros v. rewrite Hm. case_decide as Hv; [subst v; split; [lia|done]|]. rewrite <- (HP v Hv). apply (iv_path _ _ Hi).
  - intros v Hv. apply (iv_known _ _ Hi), HP; [|done]. by intros ->.
  - done.
  - intros v. rewrite Hm. case_decide; [by subst v|]. apply (iv_bad _ _ Hi).
  - intros v. rewrite Hm. case_decide; [lia|]. apply (iv_good _ _ Hi).
  - intros v [Hne Hv]%H1. destruct (iv_unsure _ _ Hi v Hv) as (? & ? & ? & ?). rewrite Hqu. split_and!; [done..|by apply Hq2].
  - intros v r [_ Hv]%H1 Hr. rewrite Hm. case_decide; [by do 2 constructor 2; constructor 1|]. by apply (iv_referrers _ _ Hi v).
  - intros v r [_ Hv]%H1. apply (iv_refs _ _ Hi v r Hv).
  - intros v. rewrite Hcq, Hm, (iv_cleanup _ _ Hi). case_decide as Hv; [subst v|]; naive_solver.
  - rewrite Hqu. split; [done|]. intros v Hv. by apply (iv_queue _ _ Hi), Hq1.
Qed.

(** Nothing is known about [u]: it is at the end of the path, and no referrer is good. *)
Lemma unsure_inv P u g : inv (u :: P) g → u ∉ P → u ∉ C → may u = true → (∀ r, referrer u r → mark base g r ∈ [0; 1; 3]) →
  let g' := sweep_unsure base u g in
  inv P g' ∧ (∀ v, mark base g' v = if decide (v = u) then 1 else mark base g v) ∧ m_gc_marker g' = m_gc_marker g ∧
  (∀ v, v ∈ gc_unit_queue g → v ∈ gc_unit_queue g') ∧ (length (gc_unit_queue g') <= S (length (gc_unit_queue g)))%nat.
Proof.
  intros Hi HuP HuC Hmay Hr g'. pose proof Hbase as [Hb0 Hb7]. set (g0 := set_gc_marker u (u32 (base + 1)) g).
  assert (Huk : u ∈ units) by apply (iv_known _ _ Hi), list_elem_of_here.
  assert (Hu0 : mark base g u = 0) by apply (iv_path _ _ Hi), list_elem_of_here.
  assert (Hm0 : ∀ v, mark base g0 v = if decide (v = u) then 1 else mark base g v) by (intros v; apply mark_set; lia).
  assert (Huq : u ∉ cleanup_queue g) by (rewrite (iv_cleanup _ _ Hi); intros [?|?]; [done|lia]).
  assert (Hrest : gc_markers g' = gc_markers g0 ∧ same_slots (gc_sys g) (gc_sys g') ∧ m_gc_marker g' = m_gc_marker g ∧ cleanup_queue g' = cleanup_queue g ∧
    (gc_unit_queue g' = gc_unit_queue g ∧ u ∈ gc_unit_queue g ∨ gc_unit_queue g' = u :: gc_unit_queue g ∧ u ∉ gc_unit_queue g)).
  { unfold g', sweep_unsure, unit_add_to_gc_queue. change (gc_unit_queue (set_gc_marker _ _ g)) with (gc_unit_queue g).
    change (cleanup_queue (set_gc_marker _ _ g)) with (cleanup_queue g). change (gc_sys (set_gc_marker _ _ g)) with (gc_sys g).
    rewrite (bool_decide_eq_false_2 (u ∈ cleanup_queue g)) by done. rewrite orb_false_r. case_bool_decide as Hq; [split_and!; [done..|by left]|].
    pose proof (same_may g u (iv_slots _ _ Hi)) as Hm. pose proof (may_gc_effect u (gc_sys g)) as He. destruct (unit_may_gc u (gc_sys g)) as [m st]. cbn in Hm, He. subst m. rewrite Hmay. cbn [negb].
    split_and!; [done..|by right]. }
  destruct Hrest as (Hmk & Hsys & Hmg & Hcq & Hqu).
  assert (Hm : ∀ v, mark base g' v = if decide (v = u) then 1 else mark base g v) by (intros v; rewrite <- Hm0; unfold mark, gc_marker; by rewrite Hmk).
  assert (Hq1 : ∀ v, v ∈ gc_unit_queue g → v ∈ gc_unit_queue g') by (intros v Hv; destruct Hqu as [[-> _]|[-> _]]; [done|by apply list_elem_of_further]).
  assert (Hqu' : u ∈ gc_unit_queue g') by (destruct Hqu as [[-> ?]|[-> _]]; [done|apply list_elem_of_here]).
  split_and!; [|done..|destruct Hqu as [[-> _]|[-> _]]; cbn; lia]. split.
  - intros v. unfold gc_marker. rewrite Hmk. apply range_set; [lia..|]. exact (iv_range _ _ Hi).
  - destruct (iv_slots _ _ Hi) as [? ?], Hsys. split; congruence.
  - intros v. rewrite Hm. case_decide as Hv; [subst v; split; [lia|done]|]. rewrite (iv_path _ _ Hi), elem_of_cons. naive_solver.
  - intros v Hv. by apply (iv_known _ _ Hi), list_elem_of_further.
  - apply (iv_chain _ _ Hi).
  - intros v. rewrite Hm. case_decide; [lia|]. apply (iv_bad _ _ Hi).
  - intros v. rewrite Hm. case_decide; [lia|]. apply (iv_good _ _ Hi).
  - intros v. rewrite Hm. case_decide as Hv; [subst v; intros _; by split_and!|]. intros Hv1. destruct (iv_unsure _ _ Hi v Hv1) as (? & ? & ? & ?). split_and!; auto.
  - intros v r Hv Hvr. rewrite Hm. case_decide as He; [by constructor 2; constructor 1|]. rewrite Hm in Hv. case_decide; [subst v; by apply Hr|by apply (iv_referrers _ _ Hi v)].
  - intros v r. rewrite Hm. case_decide as Hv; [subst v|by apply (iv_refs _ _ Hi)]. intros _ Hvr. destruct (Hsimple u r Huk Hvr) as [?|Hcyc]; [by left|right]. intros Hn.
    assert (Href : referrer u r) by (apply elem_of_app; by right). specialize (Hr r Href). rewrite !elem_of_cons in Hr. destruct Hr as [H0|[H1|[H3|?%not_elem_of_nil]]].
    + apply Hcyc, (chain_rtc u P); [apply (iv_chain _ _ Hi)|by apply (iv_path _ _ Hi)].
    + destruct (unsure_path _ _ r Hi Hn H1) as (q & Hq & Hrq). apply Hcyc. etrans; [exact Hrq|]. by apply (chain_rtc u P); [apply (iv_chain _ _ Hi)|].
    + by apply (iv_bad _ _ Hi r).
    + done.
  - intros v. rewrite Hcq, Hm, (iv_cleanup _ _ Hi). case_decide; [subst v|done]. split; intros [?|?]; try done; try lia; by left.
  - destruct (iv_queue _ _ Hi) as [Hnd Hk]. destruct Hqu as [[-> _]|[-> ?]]; [done|]. split; [by constructor|]. intros v [->|?]%elem_of_cons; auto.
Qed.

(** The search goes on at [u]. *)
Lemma enter_inv P u g st : inv P g → u ∈ units → mark base g u < 0 → same_slots (gc_sys g) st → match P with [] => True | top :: _ => referrer top u end →
  let g' := set_gc_marker u (u32 (base + 0)) (set_gc_sys st g) in
  inv (u :: P) g' ∧ (∀ v, mark base g' v = if decide (v = u) then 0 else mark base g v).
Proof.
  intros Hi Hu Hneg Hst Hc g'. pose proof Hbase as [Hb0 Hb7].
  assert (Hm : ∀ v, mark base g' v = if decide (v = u) then 0 else mark base g v) by (intros v; unfold g'; by rewrite mark_set by lia). split; [|done]. split.
  - apply range_set; [lia..|]. exact (iv_range _ _ Hi).
  - destruct (iv_slots _ _ Hi), Hst. split; cbn; congruence.
  - intros v. rewrite Hm, elem_of_cons. case_decide; [subst v; naive_solver|]. rewrite (iv_path _ _ Hi). naive_solver.
  - intros v [->|?]%elem_of_cons; [done|by apply (iv_known _ _ Hi)].
  - split; [done|apply (iv_chain _ _ Hi)].
  - intros v. rewrite Hm. case_decide; [lia|]. apply (iv_bad _ _ Hi).
  - intros v. rewrite Hm. case_decide; [lia|]. apply (iv_good _ _ Hi).
  - intros v. rewrite Hm. case_decide; [lia|]. apply (iv_unsure _ _ Hi).
  - intros v r. rewrite !Hm. case_decide; [lia|]. intros Hv Hr. case_decide; [by constructor 1|by apply (iv_referrers _ _ Hi v)].
  - intros v r. rewrite Hm. case_decide; [lia|]. apply (iv_refs _ _ Hi).
  - intros v. rewrite Hm. change (cleanup_queue g') with (cleanup_queue g). rewrite (iv_cleanup _ _ Hi). case_decide; [subst v; split; intros [?|?]; try lia; by left|done].
  - apply (iv_queue _ _ Hi).
Qed.

(** A call for a unit [o] that refers to the first unit of the path. *)
Definition swept P o g g' : Prop := inv P g' ∧ later None g g' ∧ 0 <= mark base g' o ∧ (mark base g' o = 2 ∨ quiet g g').

Lemma quiet_trans g1 g2 g3 : quiet g1 g2 → quiet g2 g3 → quiet g1 g3.
Proof. unfold quiet. auto. Qed.

Lemma loop_spec sweep n P u l is_bad g :
  (∀ o g, inv (u :: P) g → o ∈ units → referrer u o → (unseen g < n)%nat → ∃ g', sweep o g = Some g' ∧ swept (u :: P) o g g') →
  (∀ r, r ∈ l → referrer u r) → inv (u :: P) g → (unseen g < n)%nat →
  ∃ res g', sweep_loop sweep base l is_bad g = Some (res, g') ∧ inv (u :: P) g' ∧ later None g g' ∧
    match res with
    | None => ∃ r, referrer u r ∧ mark base g' r = 2
    | Some b => quiet g g' ∧ (∀ r, r ∈ l → mark base g' r ∈ [0; 1; 3]) ∧ (b = true → is_bad = true ∧ ∀ r, r ∈ l → mark base g' r = 3)
    end.
Proof.
  intros Hsweep. pose proof Hbase as [Hb0 Hb7]. revert is_bad g. induction l as [|o l IH]; intros is_bad g Hl Hi Hn; cbn [sweep_loop].
  - exists (Some is_bad), g. split_and!; [done|done|apply later_refl|by intros v|by intros r ?%not_elem_of_nil|]. intros ->. split; [done|]. by intros r ?%not_elem_of_nil.
  - assert (Hu : u ∈ units) by apply (iv_known _ _ Hi), list_elem_of_here. pose proof (Hl o (list_elem_of_here _ _)) as Ho.
    destruct (Hsweep o g Hi (known_referrer u o Hu Ho) Ho Hn) as (g1 & -> & Hi1 & Hla1 & Hs1 & Hq1). cbn [mbind option_bind].
    change GC_OFFSET_GOOD with 2. change GC_OFFSET_BAD with 3. rewrite !marked_as_mark by lia. destruct (Z.eqb_spec (mark base g1 o) 2) as [H2|H2].
    { exists None, g1. split_and!; [done..|by exists o]. }
    destruct Hq1 as [?|Hq1]; [done|]. set (b1 := if negb (mark base g1 o =? 3) then false else is_bad).
    destruct (IH b1 g1) as (res & g' & H & Hi' & Hla & Hres); [intros r Hr; by apply Hl, list_elem_of_further|done|pose proof (later_unseen _ _ _ Hla1); lia|].
    exists res, g'. split_and!; [done..|by eapply later_trans|]. destruct res as [b|]; [|done]. destruct Hres as (Hq & Hm & Hb).
    assert (Hsame : mark base g' o = mark base g1 o) by (destruct (la_marks _ _ _ Hla o ltac:(done) Hs1) as [?|[_ Hx]]; [done|by apply Hq in Hx]).
    split_and!; [by eapply quiet_trans| |].
    + intros r [->|Hr]%elem_of_cons; [|by apply Hm]. rewrite Hsame, !elem_of_cons. pose proof (iv_range _ _ Hi1 o). unfold mark in *. lia.
    + intros Htrue. destruct (Hb Htrue) as [Hb1 Hall]. unfold b1 in Hb1. destruct (Z.eqb_spec (mark base g1 o) 3) as [H3|]; cbn [negb] in Hb1; [|done].
      split; [done|]. intros r [->|Hr]%elem_of_cons; [congruence|by apply Hall].
Qed.

(** From before [u] was seen to after it was marked. *)
Lemma later_finish u g g1 g2 g' k : u ∈ units → mark base g u < 0 → 0 <= k →
  (∀ v, mark base g1 v = if decide (v = u) then 0 else mark base g v) → gc_unit_queue g1 = gc_unit_queue g → m_gc_marker g1 = m_gc_marker g →
  later None g1 g2 → (∀ v, mark base g' v = if decide (v = u) then k else mark base g2 v) → m_gc_marker g' = m_gc_marker g2 →
  (∀ v, v ∈ gc_unit_queue g2 → v ∈ gc_unit_queue g') → (length (gc_unit_queue g') <= S (length (gc_unit_queue g2)))%nat → later None g g'.
Proof.
  intros Hu Hneg Hk H1 Hq1 Hb1 Hla H' Hb' Hq' Hlen.
  assert (Hlt : (unseen g1 < unseen g)%nat).
  { apply (count_one _ _ _ _ u Hu); [|by apply Z.ltb_lt|by rewrite H1, decide_True]. intros v. rewrite H1. case_decide; [done|done]. }
  assert (Hle : (unseen g' <= unseen g2)%nat).
  { apply count_less. intros v. rewrite H'. case_decide; [|done]. rewrite Z.ltb_lt. lia. }
  split.
  - intros v _ Hv. assert (v ≠ u) by (intros ->; lia). rewrite H', decide_False by done. specialize (H1 v). rewrite decide_False in H1 by done. rewrite <- H1 in Hv |- *. by apply (la_marks _ _ _ Hla).
  - intros v Hv. rewrite H'. case_decide; [done|]. apply (la_seen _ _ _ Hla). by rewrite H1, decide_False.
  - pose proof (la_count _ _ _ Hla). rewrite Hq1 in *. lia.
  - intros v Hv. apply Hq', (la_queue _ _ _ Hla). by rewrite Hq1.
  - rewrite Hb', (la_base _ _ _ Hla). done.
Qed.

(** A needed unit, with the loops behind it. *)
Lemma later_good u g g1 g2 g' : u ∈ units → mark base g u < 0 →
  (∀ v, mark base g1 v = if decide (v = u) then 0 else mark base g v) → gc_unit_queue g1 = gc_unit_queue g → m_gc_marker g1 = m_gc_marker g →
  later None g1 g2 → later (Some u) g2 g' → later None g g'.
Proof.
  intros Hu Hneg H1 Hq1 Hb1 Hla Hla'. apply (later_first u); [done|]. eapply later_trans; [|exact Hla']. eapply later_trans; [|by apply later_weaken].
  assert (Hle : (unseen g1 <= unseen g)%nat) by (apply count_less; intros v; rewrite H1; by case_decide).
  split; rewrite ?Hq1; try done.
  - intros v Hv _. rewrite H1, decide_False by congruence. by left.
  - intros v. rewrite H1. by case_decide.
  - lia.
Qed.

(** The end of [unit_gc_sweep] for the first unit of the path. *)
Lemma leave_good P u g0 g1 g : inv P g0 → mark base g0 u < 0 → u ∉ P → u ∉ C → inv (u :: P) g1 →
  (∀ v, mark base g1 v = if decide (v = u) then 0 else mark base g0 v) → gc_unit_queue g1 = gc_unit_queue g0 → m_gc_marker g1 = m_gc_marker g0 →
  inv (u :: P) g → later None g1 g → (∃ r, referrer u r ∧ mark base g r = 2) →
  ∃ g', unit_gc_mark_good gc_fuel base u g = Some g' ∧ swept P u g0 g'.
Proof.
  intros Hi0 Hneg HuP HuC Hi1 Hm1 Hq1 Hb1 Hi Hla (r & Hr & Hg). assert (Hu : u ∈ units) by apply (iv_known _ _ Hi), list_elem_of_here.
  destruct (good_inv P (u :: P) u g Hi Hu) as (g' & H & Hi' & Hla' & H2).
  - apply (needed_by C st0 u r); [done..|by apply (iv_good _ _ Hi)].
  - done.
  - by right.
  - exists g'. split; [done|]. split_and!; [done| |lia|by left]. by eapply (later_good u g0 g1 g g').
Qed.

Lemma sweep_spec fuel u g P : inv P g → u ∈ units → match P with [] => True | top :: _ => referrer top u end → (unseen g < fuel)%nat →
  ∃ g', unit_gc_sweep fuel base u g = Some g' ∧ swept P u g g'.
Proof.
  revert u g P. induction fuel as [|fuel IH]; intros u g P Hi Hu HP Hfuel; [lia|]. cbn [unit_gc_sweep]. pose proof Hbase as [Hb0 Hb7].
  pose proof (iv_range _ _ Hi u) as Hru. rewrite marked_in_mark; [|done|done|apply (iv_range _ _ Hi)|].
  2:{ intros k. rewrite !elem_of_cons, elem_of_nil. unfold GC_OFFSET_GOOD, GC_OFFSET_BAD, GC_OFFSET_UNSURE, GC_OFFSET_IN_PATH. lia. }
  case_bool_decide as Hseen.
  { assert (0 <= mark base g u) by (rewrite !elem_of_cons, elem_of_nil in Hseen; unfold GC_OFFSET_GOOD, GC_OFFSET_BAD, GC_OFFSET_UNSURE, GC_OFFSET_IN_PATH in Hseen; lia).
    exists g. split; [done|]. split_and!; [done|apply later_refl|done|right; by intros v]. }
  assert (Hneg : mark base g u < 0).
  { rewrite !elem_of_cons, elem_of_nil in Hseen. unfold GC_OFFSET_GOOD, GC_OFFSET_BAD, GC_OFFSET_UNSURE, GC_OFFSET_IN_PATH, mark in *. lia. }
  clear Hseen. assert (HuP : u ∉ P) by (rewrite <- (iv_path _ _ Hi); lia). case_bool_decide as Hc.
  { assert (HuC : ¬ needed C st0 u) by (intros Hn; apply (needed_free _ _ _ Hn); apply (iv_cleanup _ _ Hi) in Hc as [?|?]; [done|lia]).
    destruct (bad_inv P P u g (gc_unit_queue g) Hi HuC HuP) as (Hi' & Hm & Hq & Hb); [done|apply (iv_chain _ _ Hi)|apply (iv_queue _ _ Hi)|done..|].
    replace (set_gc_unit_queue (gc_unit_queue g) g) with g in * by (by destruct g). eexists. split; [done|].
    split_and!; [done| |rewrite Hm, decide_True by done; lia|right; intros v; rewrite Hm; by case_decide].
    apply (later_first u); [done|]. split; rewrite ?Hq; try done.
    - intros v Hv _. rewrite Hm, decide_False by congruence. by left.
    - intros v. rewrite Hm. by case_decide.
    - apply Nat.add_le_mono_l, count_less. intros v. rewrite Hm. by case_decide. }
  assert (HuC : u ∉ C) by (intros HuC; apply Hc, (iv_cleanup _ _ Hi); by left).
  pose proof (same_may g u (iv_slots _ _ Hi)) as Hmay. pose proof (may_gc_effect u (gc_sys g)) as Hst. destruct (unit_may_gc u (gc_sys g)) as [m st]. cbn [fst snd] in Hmay, Hst. subst m.
  destruct (may u) eqn:Em; cbn [negb].
  2:{ assert (Hi1 : inv P (set_gc_sys st g)).
      { destruct Hi as [A1 A2 A3 A4 A5 A6 A7 A8 A9 A10 A11 A12]. split; try done. destruct A2, Hst. split; cbn; congruence. }
      destruct (good_inv P P u (set_gc_sys st g) Hi1 Hu) as (g' & H & Hi' & Hla' & H2); [apply needed_itself; [done|by apply may_gc_iff]|done|by left|].
      exists g'. split; [done|]. split_and!; [done| |lia|by left]. apply (later_first u); [done|]. by destruct Hla'; split. }
  destruct (enter_inv P u g st Hi Hu Hneg Hst HP) as [Hi1 Hm1]. change GC_OFFSET_IN_PATH with 0. set (g1 := set_gc_marker u (u32 (base + 0)) (set_gc_sys st g)) in *.
  assert (Hless : (unseen g1 < fuel)%nat).
  { assert (unseen g1 < unseen g)%nat; [|lia]. apply (count_one _ _ _ _ u Hu); [|by apply Z.ltb_lt|by rewrite Hm1, decide_True]. intros v. rewrite Hm1. by case_decide. }
  assert (Hcall : ∀ o g, inv (u :: P) g → o ∈ units → referrer u o → (unseen g < fuel)%nat → ∃ g', unit_gc_sweep fuel base o g = Some g' ∧ swept (u :: P) o g g') by (intros; by apply IH).
  destruct (loop_spec _ fuel P u (unit_dependencies u UNIT_ATOM_REFERENCED_BY) true g1 Hcall) as (res & g2 & -> & Hi2 & Hla2 & Hres2);
    [intros r Hr; apply elem_of_app; by left|done..|]. cbn [mbind option_bind].
  destruct res as [b|]; [|by apply (leave_good P u g g1 g2)]. destruct Hres2 as (Hq2 & Hr2 & Hb2).
  destruct (loop_spec _ fuel P u (refs_by_target u) b g2 Hcall) as (res & g3 & -> & Hi3 & Hla3 & Hres3);
    [intros r Hr; apply elem_of_app; by right|done|pose proof (later_unseen _ _ _ Hla2); lia|]. cbn [mbind option_bind]. pose proof (later_trans _ _ _ _ Hla2 Hla3) as Hla.
  destruct res as [is_bad|]; [|by apply (leave_good P u g g1 g3)]. destruct Hres3 as (Hq3 & Hr3 & Hb3).
  assert (Hquiet : quiet g1 g3) by (by eapply quiet_trans).
  assert (Hsame : ∀ r, r ∈ unit_dependencies u UNIT_ATOM_REFERENCED_BY → mark base g3 r = mark base g2 r).
  { intros r Hr. specialize (Hr2 r Hr). destruct (la_marks _ _ _ Hla3 r) as [?|[H1 H2]]; [done| |done|apply Hq3 in H2; lia].
    rewrite !elem_of_cons, elem_of_nil in Hr2. lia. }
  assert (Hall : ∀ r, referrer u r → mark base g3 r ∈ [0; 1; 3]).
  { intros r [Hr|Hr]%elem_of_app; [rewrite Hsame by done; by apply Hr2|by apply Hr3]. }
  destruct is_bad.
  - assert (Hn : ¬ needed C st0 u).
    { destruct (Hb3 eq_refl) as [Hbt H3]. destruct (Hb2 Hbt) as [_ H2]. intros Hn. inversion Hn as [? _ Hx|? r _ Hr Hnr]; subst; [apply may_gc_iff in Hx; unfold may in Em; congruence|].
      apply (iv_bad _ _ Hi3 r); [|done]. apply elem_of_app in Hr as [Hr|Hr]; [rewrite Hsame by done; by apply H2|by apply H3]. }
    destruct (bad_inv P (u :: P) u g3 (gc_unit_queue g3) Hi3 Hn HuP) as (Hi' & Hm & Hq & Hb);
      [intros v Hv; rewrite elem_of_cons; naive_solver|apply (iv_chain _ _ Hi)|apply (iv_queue _ _ Hi3)|done..|].
    replace (set_gc_unit_queue (gc_unit_queue g3) g3) with g3 in * by (by destruct g3). eexists. split; [done|].
    split_and!; [done| |rewrite Hm, decide_True by done; lia|].
    + apply (later_finish u g g1 g3 _ 3); try done; [by rewrite Hq|rewrite Hq; lia].
    + right. intros v. rewrite Hm. case_decide; [lia|]. intros Hv%Hquiet. rewrite Hm1, decide_False in Hv; done.
  - destruct (unsure_inv P u g3 Hi3 HuP HuC Em Hall) as (Hi' & Hm & Hb & Hq & Hlen). eexists. split; [done|].
    split_and!; [done| |rewrite Hm, decide_True by done; lia|].
    + by apply (later_finish u g g1 g3 _ 1).
    + right. intros v. rewrite Hm. case_decide; [lia|]. intros Hv%Hquiet. rewrite Hm1, decide_False in Hv; done.
Qed.

(** *** The dispatcher *)

Lemma drop_inv u g : inv [] g → mark base g u ≠ 1 → inv [] (set_gc_unit_queue (filter (.≠ u) (gc_unit_queue g)) g).
Proof.
  intros [A1 A2 A3 A4 A5 A6 A7 A8 A9 A10 A11 [A12 A13]] Hu. split; try done.
  - intros v Hv. destruct (A8 v Hv) as (? & ? & ? & ?). split_and!; [done..|]. apply list_elem_of_filter. split; [|done]. by intros ->.
  - split; [by apply NoDup_filter|]. intros v Hv. apply A13. by apply list_elem_of_filter in Hv as [_ ?].
Qed.

Lemma filter_drop u (l : list positive) : u ∈ l → (length (filter (.≠ u) l) < length l)%nat.
Proof.
  intros (l1 & l2 & ->)%list_elem_of_split. rewrite filter_app, filter_cons, !length_app. rewrite decide_False by (intros H; by apply H).
  pose proof (length_filter (.≠ u) l1). pose proof (length_filter (.≠ u) l2). cbn. lia.
Qed.

Lemma gc_loop_spec fuel n g : inv [] g → (length (gc_unit_queue g) + unseen g <= fuel)%nat →
  ∃ k g', gc_loop fuel base n g = Some (k, g') ∧ inv [] g' ∧ gc_unit_queue g' = [] ∧ m_gc_marker g' = m_gc_marker g ∧
    (∀ v, v ∈ gc_unit_queue g → 0 <= mark base g' v) ∧ (∀ v, 0 <= mark base g v → 0 <= mark base g' v).
Proof.
  pose proof Hbase as [Hb0 Hb7]. revert n g. induction fuel as [|fuel IH]; intros n g Hi Hf; cbn [gc_loop]; destruct (gc_unit_queue g) as [|u q] eqn:Eq;
    try (exists n, g; split_and!; [done..|by intros v ?%not_elem_of_nil|done]).
  { cbn in Hf. lia. }
  assert (Huq : u ∈ gc_unit_queue g) by (rewrite Eq; apply list_elem_of_here). assert (Hu : u ∈ units) by (by apply (iv_queue _ _ Hi)).
  destruct (sweep_spec gc_fuel u g [] Hi Hu I) as (g1 & -> & Hi1 & Hla & Hs & _); [unfold gc_fuel, unseen, count_marks; apply Nat.lt_succ_r, length_filter|]. cbn [mbind option_bind].
  pose proof (la_queue _ _ _ Hla u Huq) as Huq1. pose proof (filter_drop u _ Huq1) as Hlen. pose proof (la_count _ _ _ Hla) as Hcount. rewrite Eq in Hcount.
  set (g2 := set_gc_unit_queue (filter (.≠ u) (gc_unit_queue g1)) g1).
  assert (Hno : mark base g1 u ≠ 0) by (intros H0; by apply (iv_path _ _ Hi1), not_elem_of_nil in H0).
  pose proof (iv_range _ _ Hi1 u) as Hru. rewrite marked_in_mark; [|done|done|apply (iv_range _ _ Hi1)|].
  2:{ intros k. rewrite !elem_of_cons, elem_of_nil. unfold GC_OFFSET_BAD, GC_OFFSET_UNSURE. lia. }
  change (mark base g2 u) with (mark base g1 u).
  assert (∃ g3, (if bool_decide (mark base g1 u ∈ [GC_OFFSET_BAD; GC_OFFSET_UNSURE]) then sweep_bad base u g2 else g2) = g3 ∧ inv [] g3 ∧
    gc_unit_queue g3 = filter (.≠ u) (gc_unit_queue g1) ∧ m_gc_marker g3 = m_gc_marker g1 ∧ (∀ v, 0 <= mark base g1 v → 0 <= mark base g3 v)) as (g3 & -> & Hi3 & Hq3 & Hb3 & Hs3).
  { case_bool_decide as Hbad.
    - assert (Hn : ¬ needed C st0 u).
      { rewrite !elem_of_cons, elem_of_nil in Hbad. unfold GC_OFFSET_BAD, GC_OFFSET_UNSURE in Hbad. intros Hn. destruct Hbad as [H3|[H1|[]]]; [by apply (iv_bad _ _ Hi1 u)|].
        destruct (unsure_path [] g1 u Hi1 Hn H1) as (x & ?%not_elem_of_nil & _). done. }
      destruct (bad_inv [] [] u g1 (filter (.≠ u) (gc_unit_queue g1)) Hi1 Hn) as (Hi2 & Hm & Hq & Hb); [apply not_elem_of_nil|done|done|apply NoDup_filter, (iv_queue _ _ Hi1)| | |].
      + intros v Hv. by apply list_elem_of_filter in Hv as [_ ?].
      + intros v Hv Hin. by apply list_elem_of_filter.
      + eexists. split; [reflexivity|]. split_and!; [done..|]. intros v. rewrite Hm. by case_decide.
    - exists g2. split_and!; [done|apply drop_inv; [done|]|done..]. intros H1. apply Hbad. rewrite H1. by constructor 2; constructor 1. }
  destruct (IH (S n) g3 Hi3) as (k & g' & H & Hi' & Hq' & Hb' & Hall & Hseen).
  { rewrite Hq3. assert (unseen g3 <= unseen g1)%nat; [|cbn in Hf, Hcount; lia]. apply count_less. intros v. rewrite !Z.ltb_lt. intros Hv.
    destruct (Z.ltb_spec (mark base g1 v) 0); [done|]. specialize (Hs3 v). lia. }
  exists k, g'. split_and!; [done|done|done|rewrite Hb', Hb3; apply (la_base _ _ _ Hla)| |].
  - intros v Hv. rewrite <- Eq in Hv. destruct (decide (v = u)) as [->|Hne]; [by apply Hseen, Hs3|]. apply Hall. rewrite Hq3. apply list_elem_of_filter. split; [done|]. by apply (la_queue _ _ _ Hla).
  - intros v Hv. by apply Hseen, Hs3, (la_seen _ _ _ Hla).
Qed.
End Sweep.

(** Markers are from earlier rounds. *)
Definition markers_ok (g : Gc) : Prop := 0 <= m_gc_marker g ∧ ∀ u, 0 <= gc_marker g u <= m_gc_marker g + 3.

Lemma history_mirrors {UK : UnitKinds} (D : Tables) : history D → (∀ v a, v ∈ units → unit_dependencies v a = foreach_dependency D v (atom_bit a)) → refs_mirrored.
Proof.
  intros HD Hdep u v Hu Hv. rewrite !Hdep by done. symmetry. apply foreach_inverse; [apply (history_inv D HD)|]. by_decide.
Qed.

(** C14: which units are collected. The dependencies are as [unit_add_dependency] and its relatives
    leave them, the counter of rounds does not wrap around, and every [UnitRef] goes along with a dependency
    or is on no cycle of references ([refs_simple]; [ref_cycle_is_collected] and [wrapped_mark_is_collected] below
    show that needed units are collected otherwise). Then [manager_dispatch_gc_unit_queue] returns with an empty queue.
    A unit that it put on the cleanup queue is not needed: neither it nor any unit that refers to it,
    directly or not, must stay ([must_stay]: it has a job, is perpetual, is watched on the bus, is in a state
    that is not collected, has a handler with a job, has processes, or is kept by its type). Of the units that were queued,
    every one that is not needed was put there. *)
Theorem gc_collects_unneeded {UK : UnitKinds} (D : Tables) (g : Gc) :
  history D → (∀ v a, v ∈ units → unit_dependencies v a = foreach_dependency D v (atom_bit a)) →
  refs_known → refs_simple → markers_ok g → m_gc_marker g + 8 < 2 ^ 32 →
  NoDup (gc_unit_queue g) → (∀ v, v ∈ gc_unit_queue g → v ∈ units) →
  ∃ k g', manager_dispatch_gc_unit_queue g = Some (k, g') ∧ gc_unit_queue g' = [] ∧ markers_ok g' ∧ m_gc_marker g' = m_gc_marker g + 4 ∧
    same_slots (gc_sys g) (gc_sys g') ∧
    (∀ v, v ∈ cleanup_queue g' → v ∈ cleanup_queue g ∨ ¬ needed (cleanup_queue g) (gc_sys g) v) ∧
    (∀ v, v ∈ gc_unit_queue g → v ∈ cleanup_queue g' ↔ ¬ needed (cleanup_queue g) (gc_sys g) v) ∧
    (∀ v, v ∈ cleanup_queue g → v ∈ cleanup_queue g').
Proof.
  intros HD Hdep Hknown Hsimple [Hm0 Hmarks] Hwrap Hnd Hq. pose proof (history_mirrors D HD Hdep) as Hmirror.
  set (base := m_gc_marker g + 4). assert (Hnext : next_gc_marker (m_gc_marker g) = base).
  { unfold next_gc_marker, _GC_OFFSET_MAX. rewrite (u32_small (m_gc_marker g + 4)), u32_small by lia. by rewrite (proj2 (Z.leb_gt _ _)) by lia. }
  assert (Hbase : tracked base) by (unfold base; split; lia). unfold manager_dispatch_gc_unit_queue. rewrite Hnext. set (g0 := set_m_gc_marker base g).
  assert (Hneg : ∀ v, mark base g0 v < 0) by (intros v; specialize (Hmarks v); unfold mark, base; change (gc_marker g0 v) with (gc_marker g v); lia).
  assert (Hi : inv base (cleanup_queue g) (gc_sys g) [] g0).
  { split; try done; try (intros v Hv; specialize (Hneg v); lia); try (intros v r Hv; specialize (Hneg v); lia).
    - intros v. specialize (Hmarks v). change (gc_marker g0 v) with (gc_marker g v). unfold base. lia.
    - intros v. specialize (Hneg v). split; [lia|by intros ?%not_elem_of_nil].
    - by intros v ?%not_elem_of_nil.
    - intros v. specialize (Hneg v). split; [by left|intros [?|?]; [done|lia]]. }
  destruct (gc_loop_spec base Hbase _ _ Hknown Hmirror Hsimple (2 * gc_fuel) 0 g0 Hi) as (k & g' & H & Hi' & Hq' & Hb' & Hall & _).
  { assert (unseen base g0 <= length units)%nat by apply length_filter.
    assert (length (gc_unit_queue g0) <= length units)%nat by (apply submseteq_length, NoDup_submseteq; [done|intros v; apply Hq]). unfold gc_fuel. lia. }
  exists k, g'. rewrite H. split_and!; [done|done| |by rewrite Hb'|apply (iv_slots _ _ _ _ _ Hi')| | |].
  - change (m_gc_marker g0) with base in Hb'. split; [rewrite Hb'; unfold base; lia|]. rewrite Hb'. apply (iv_range _ _ _ _ _ Hi').
  - intros v [?|Hv]%(iv_cleanup _ _ _ _ _ Hi'); [by left|right]. by apply (iv_bad _ _ _ _ _ Hi').
  - intros v Hv. rewrite (iv_cleanup _ _ _ _ _ Hi'). split; [intros [Hc|Hbad] Hn; [by apply (needed_free _ _ _ Hn)|by apply (iv_bad _ _ _ _ _ Hi' v)]|].
    intros Hn. right. pose proof (Hall v Hv) as Hseen. pose proof (iv_range _ _ _ _ _ Hi' v) as Hr.
    destruct (Z.eqb_spec (mark base g' v) 0) as [H0|H0]; [by apply (iv_path _ _ _ _ _ Hi'), not_elem_of_nil in H0|].
    destruct (Z.eqb_spec (mark base g' v) 1) as [H1|H1]; [destruct (iv_unsure _ _ _ _ _ Hi' v H1) as (_ & _ & _ & Hx); rewrite Hq' in Hx; by apply not_elem_of_nil in Hx|].
    destruct (Z.eqb_spec (mark base g' v) 2) as [H2|H2]; [by destruct Hn; apply (iv_good _ _ _ _ _ Hi')|]. unfold mark in *. lia.
  - intros v Hv. apply (iv_cleanup _ _ _ _ _ Hi'). by left.
Qed.
End Gc.

(** ** Witnesses

    Units 1 and 2 want each other, unit 3 is active, wants unit 4 and refers to it. *)

Definition gc_tables : option Tables :=
  '(_, D) ← unit_add_dependency (UK := plain_kinds) 1 UNIT_WANTS 2 true 1 (MkTables ∅ ∅);
  '(_, D) ← unit_add_dependency (UK := plain_kinds) 2 UNIT_WANTS 1 true 1 D;
  '(_, D) ← unit_add_dependency (UK := plain_kinds) 3 UNIT_WANTS 4 true 1 D;
  Some D.

Definition gc_deps (u : positive) (a : UnitDependencyAtom) : list positive :=
  match gc_tables with Some D => foreach_dependency D u (atom_bit a) | None => [] end.

Example gc_walks : (gc_deps 1 UNIT_ATOM_REFERENCED_BY, gc_deps 4 UNIT_ATOM_REFERENCED_BY, gc_deps 3 UNIT_ATOM_REFERENCES) = ([2], [3], [4])%positive.
Proof. vm_compute. reflexivity. Qed.

Lemma gc_history : ∃ D, gc_tables = Some D ∧ history (UK := plain_kinds) D.
Proof.
  assert (Hs : (D ← gc_tables; Some 0) = Some 0) by (vm_compute; reflexivity). unfold gc_tables in *. assert (Hf : flag 1) by (exists 0; split; [lia|reflexivity]).
  destruct (unit_add_dependency 1 UNIT_WANTS 2 true 1 _) as [[r1 D1]|] eqn:E1; cbn [mbind option_bind] in *; [|discriminate].
  destruct (unit_add_dependency 2 UNIT_WANTS 1 true 1 D1) as [[r2 D2]|] eqn:E2; cbn [mbind option_bind] in *; [|discriminate].
  destruct (unit_add_dependency 3 UNIT_WANTS 4 true 1 D2) as [[r3 D3]|] eqn:E3; cbn [mbind option_bind] in *; [|discriminate].
  exists D3. split; [reflexivity|]. eapply history_add; [|exact Hf|intros _; reflexivity|exact E3]. eapply history_add; [|exact Hf|intros _; reflexivity|exact E2].
  eapply history_add; [|exact Hf|intros _; reflexivity|exact E1]. apply history_empty.
Qed.

Definition gc_env : Env := ex_env gc_deps (λ u, if decide (u = 3%positive) then UNIT_ACTIVE else UNIT_INACTIVE) [1; 2; 3; 4]%positive.

Definition conf_with_refs (refs : positive → list positive) : GcConf := {|
  collect_mode _ := COLLECT_INACTIVE; bus_track_count _ := 0; cg_is_empty_recursive _ := None; vtable_may_gc _ := true;
  has_release_resources _ := true; refs_by_target := refs |}.

Definition gc_conf : GcConf := conf_with_refs (λ u, if decide (u = 4%positive) then [3%positive] else []).

Definition gc_state (markers : list (positive * Z)) (m : Z) (queue : list positive) : @Gc ex_rq := @MkGc ex_rq ex_state (list_to_map markers) m queue [].

Lemma gc_known : let E := gc_env in let GC := gc_conf in refs_known ∧ refs_simple.
Proof.
  intros E GC. split.
  - assert (H : forallb (λ u, forallb (λ v, bool_decide (v ∈ [1; 2; 3; 4]%positive)) (gc_deps u UNIT_ATOM_REFERENCED_BY ++ gc_deps u UNIT_ATOM_REFERENCES)) [1; 2; 3; 4]%positive = true) by (vm_compute; reflexivity).
    intros u v Hu. apply list_elem_of_In in Hu. rewrite forallb_forall in H. specialize (H u Hu). rewrite forallb_forall in H.
    assert (Hin : v ∈ gc_deps u UNIT_ATOM_REFERENCED_BY ++ gc_deps u UNIT_ATOM_REFERENCES → v ∈ [1; 2; 3; 4]%positive).
    { intros Hv%list_elem_of_In. apply (bool_decide_eq_true (v ∈ [1; 2; 3; 4]%positive)), (H v Hv). }
    split_and!; [intros Hv; apply Hin, elem_of_app; by left|intros Hv; apply Hin, elem_of_app; by right|]. cbn. case_decide; [|by intros ?%not_elem_of_nil].
    intros ->%list_elem_of_singleton. by_decide.
  - intros u r _. cbn. case_decide as Hu; [|by intros ?%not_elem_of_nil]. subst u. intros ->%list_elem_of_singleton. left.
    change (unit_dependencies 3 UNIT_ATOM_REFERENCES) with (gc_deps 3 UNIT_ATOM_REFERENCES). by_decide.
Qed.

Lemma gc_collects_unneeded_witness : let E := gc_env in let GC := gc_conf in
  ∃ k g', manager_dispatch_gc_unit_queue (gc_state [] 0 [1; 4]%positive) = Some (k, g') ∧ gc_unit_queue g' = [] ∧
    (1%positive ∈ cleanup_queue g' ↔ ¬ needed [] ex_state 1) ∧ (4%positive ∈ cleanup_queue g' ↔ ¬ needed [] ex_state 4) ∧
    cleanup_queue <$> (snd <$> manager_dispatch_gc_unit_queue (gc_state [] 0 [1; 4]%positive)) = Some [2; 1]%positive.
Proof.
  intros E GC. destruct gc_history as (D & HD & Hhist).
  destruct (@gc_collects_unneeded ex_rq E GC plain_kinds D (gc_state [] 0 [1; 4]%positive)) as (k & g' & H & Hq & _ & _ & _ & _ & Hall & _).
  - exact Hhist.
  - intros v a _. change (unit_dependencies v a) with (gc_deps v a). unfold gc_deps. by rewrite HD.
  - apply gc_known.
  - apply gc_known.
  - split; [reflexivity|]. intros u. change (gc_marker _ u) with (default 0 ((∅ : gmap positive Z) !! u)). rewrite lookup_empty. by_decide.
  - reflexivity.
  - by_decide.
  - intros v [-> | ->%list_elem_of_singleton]%elem_of_cons; by_decide.
  - exists k, g'. split_and!; [exact H|exact Hq| | |vm_compute; reflexivity].
    + apply (Hall 1%positive). by constructor 1.
    + apply (Hall 4%positive). by constructor 2; constructor 1.
Defined.

(** Where a [UnitRef] has no dependency beside it and is on a cycle, a needed unit is collected. Unit 4 is active and
    refers to 1, 2 refers to 1, 3 refers to 2, and 1 has a [UnitRef] to 3. When 1 turns out to be needed only
    its dependencies are told, and 3 stays unsure. *)
Definition ref_env : Env :=
  ex_env (ex_deps [(1, UNIT_ATOM_REFERENCED_BY, 2); (1, UNIT_ATOM_REFERENCED_BY, 4); (2, UNIT_ATOM_REFERENCED_BY, 3);
                   (2, UNIT_ATOM_REFERENCES, 1); (4, UNIT_ATOM_REFERENCES, 1); (3, UNIT_ATOM_REFERENCES, 2)]%positive)
    (λ u, if decide (u = 4%positive) then UNIT_ACTIVE else UNIT_INACTIVE) [1; 2; 3; 4]%positive.

Lemma ref_cycle_is_collected :
  let E := ref_env in let GC := conf_with_refs (λ u, if decide (u = 3%positive) then [1%positive] else []) in
  needed [] ex_state 3 ∧ cleanup_queue <$> (snd <$> manager_dispatch_gc_unit_queue (gc_state [] 0 [1]%positive)) = Some [3; 2]%positive.
Proof.
  intros E GC. split; [|vm_compute; reflexivity]. apply (needed_by _ _ 3 1); [apply not_elem_of_nil|unfold referrer; by_decide|].
  apply (needed_by _ _ 1 4); [apply not_elem_of_nil|unfold referrer; by_decide|]. apply needed_itself; [apply not_elem_of_nil|by apply stay_state].
Qed.

(** The counter of rounds starts at 0 and wraps around to 1. Unit 1, which the active unit 2 refers to, is marked as good in the
    first round. If nobody looks at it until after the counter wrapped around, the mark means "unsure", and the unit is collected. *)
Definition wrap_env : Env :=
  ex_env (ex_deps [(1, UNIT_ATOM_REFERENCED_BY, 2); (2, UNIT_ATOM_REFERENCES, 1)]%positive)
    (λ u, if decide (u = 2%positive) then UNIT_ACTIVE else UNIT_INACTIVE) [1; 2]%positive.

Lemma wrapped_mark_is_collected :
  let E := wrap_env in let GC := conf_with_refs (λ _, []) in
  needed [] ex_state 1 ∧ next_gc_marker (2 ^ 32 - 8) = 1 ∧
  (λ kg, (gc_marker kg.2 1, cleanup_queue kg.2)) <$> manager_dispatch_gc_unit_queue (gc_state [] 0 [1]%positive) = Some (6, []) ∧
  cleanup_queue <$> (snd <$> manager_dispatch_gc_unit_queue (gc_state [(1%positive, 6)] 1 [1]%positive)) = Some [1]%positive.
Proof.
  intros E GC. split_and!; [|vm_compute; reflexivity..]. apply (needed_by _ _ 1 2); [apply not_elem_of_nil|unfold referrer; by_decide|].
  apply needed_itself; [apply not_elem_of_nil|by apply stay_state].
Qed.
